(* ===== verification/_CoqProject ===== *)
-Q . S2P
Prelude.v
RustStr.v
Names.v
Ip.v
Drift.v
Records.v
Rrsig.v
Sql.v
Hickory.v
ExpiringCache.v
RecordCache.v
KeyCache.v
DelegationCache.v
DnsCache.v
ZoneStore.v
Scopes.v
Database.v
Leases.v
Dhcp.v
Forwarder.v
Tiers.v
Nameservers.v
Wire.v
Nsec.v
Rdata.v
Svcb.v
ZoneSigner.v
Message.v
Validate.v
Negative.v
Upstream.v
Resolver.v
ResolverProofs.v
Bailiwick.v
Recursion.v
Dnsbl.v
Server.v
AcmeStore.v
Ca.v
Acme.v
AcmeSample.v
AcmeFrames.v
AcmeProofs.v
AcmeSafety.v
AcmeRace.v
Exchange.v
Http.v
Probe.v
Ingress.v
Metrics.v
Auth.v
Settings.v
Transports.v
Control.v
Admin.v
Boot.v
