(* ===== verification/Prelude.v ===== *)
(** * Rolodex DNS: a verification library

    Rolodex DNS is a split-horizon DNS server: it answers from a database of its
    operator's records, partitions that database among networks (scopes) that own
    TLDs, signs zones, consults blocklists, and resolves everything else upstream
    through a chain of tiers (the roots, encrypted forwarders, configured
    forwarders, public resolvers). Around that core it leases addresses, issues
    certificates over ACME, and is configured over gRPC. The library translates the
    parts of the program that decide what is answered, to whom, and what leaves the
    box, and proves the properties those decisions rest on.

    ** The parts and where they are modelled

    Listed from the bottom up; a file requires only files above it.

    - [Prelude] (this file): results with the [?] operator, operations that fail and
      change a state, machine widths ([is_u], [as_u]), durations and instants in
      nanoseconds, tactics, hint database, list lemmas.
    - [RustStr]: the [str] and [String] operations the sources use.
    - [Names]: [normalize_name], [make_wildcard_name], [name_in_zone],
      [ancestor_names], [extract_zone_from_name] of [src/src/db.rs] and the walk up
      the parents of a name that four lookups share. A name is its text, as in the
      code; [labels_of] is the specification it is related to.
    - [Ip]: addresses with their text forms, [src/src/cidr.rs], the reverse names of
      [reverse_ptr_name] and [extract_ip_from_name].
    - [Drift]: [src/src/ttl_drift.rs], the setting with its text form and the fixed
      adjustment.
    - [Records], [Rrsig], [Svcb], [Sql]: record kinds with their three encodings, the
      stored text of a signature, [src/src/svcb.rs], [LIKE] with [like_escape].
    - [Hickory]: the interface of the DNS library the program links (names, types,
      TTLs of records) as classes of operations and of laws, with instances.
    - [ExpiringCache], [RecordCache], [KeyCache], [DelegationCache], [DnsCache]: the
      caches of [src/src/record_cache.rs], [key_cache.rs], [delegation_cache.rs] and
      [dns_cache.rs]. The last two are persisted: the state is memory, write queue
      and table; the worker that drains the queue and the reload at boot are
      operations of their own, so that every interleaving of them is a sequence of
      operations.
    - [ZoneStore], [Scopes], [Database], [Leases], [AcmeStore]: the handle of
      [src/src/db.rs]. Each table is kept beside the in-memory cache the query path
      reads, every operation updates both as the code does, and
      [load_caches_at_boot] rebuilds the second from the first. Reachable states are
      those of a step relation with one constructor per operation. [Database] also
      has the blocklist decisions of [src/src/dns_server.rs].
    - [Forwarder], [Tiers]: [src/src/forwarder.rs] (specs, circuit breaker,
      preference) and the automatic chain of [src/src/dns_server.rs]
      ([auto_resolve], [note_auto_winner], [recovery_probe_once]).
    - [Wire], [Message]: the byte-level readers and the message builders and filters
      of [src/src/dns_server.rs], with [src/src/edns.rs].
    - [Nsec], [Rdata], [ZoneSigner]: [src/src/dnssec.rs] and
      [src/src/zone_signer.rs]: the NSEC chain, canonical data, signing and
      verification of an RRset, key tags, DS text, the loop that signs again.
    - [Negative]: [authoritative_negative], [denial_proof], [closest_encloser],
      [negative_soa], [answer_signatures] and the DNAME synthesis of
      [src/src/dns_server.rs].
    - [Nameservers], [Validate], [Resolver], [ResolverProofs], [Bailiwick],
      [Recursion]: [src/src/resolver.rs] and [src/src/dnssec_validate.rs]: the choice among name
      servers by latency, the verdict on an answer along the chain of trust, and the
      walk from the roots with its bailiwick rule and query budget, in a state monad
      over its caches and the log of what it asked and what each address replied.
      [Bailiwick] reads that log: which addresses serve which zone, and whose word
      each entry of the caches is.
    - [Dnsbl]: [src/src/dnsbl.rs], the providers with their refusal codes and
      rotation, over a walk of their own.
    - [Upstream], [Server]: the resolution modes, [resolve_query] and
      [handle_query_proto] of [src/src/dns_server.rs], a definition per stage,
      composed in the order of the code in a state monad over the database handle,
      the response cache, the answer source and the log of what was asked of the
      outside.
    - [Dhcp]: [src/src/dhcp.rs] over [Leases], with the records a lease publishes.
    - [Ca], [Acme], [AcmeSample], [AcmeFrames], [AcmeProofs], [AcmeSafety],
      [AcmeRace]: [src/src/ca.rs], [acme_server.rs], [acme_jose.rs], [dane.rs] and
      [portal.rs]: each handler in a monad over the database, with what each may
      change. [AcmeRace] cuts the handler of a new account at its locks and
      interleaves it with others.
    - [Exchange], [Http]: one question over one transport: the framed streams of
      [handle_tcp_connection], [src/src/dot_server.rs], [doq_server.rs] and
      [secure_client.rs], the datagrams of [forward_udp], the HTTP of
      [doh_server.rs], [doh_h3_server.rs] and [secure_client.rs], and the proxies of
      [doh_proxy.rs]. A peer is a function of what it is told.
    - [Probe]: [src/src/probe.rs], which address families are answered for.
    - [Ingress]: the listeners of [src/src/dns_server.rs] at the addresses TLDs are
      entered through, and the fate of their tasks.
    - [Metrics]: the counters, histograms, labels and tracked TLDs of
      [src/src/metrics.rs], with the tag [handle_query_proto] carries.
    - [Auth], [Control]: [src/src/grpc_service.rs]: the throttle on guesses of the
      secret, and the handlers that change records, zones, scopes, lists, pools and
      the way names are resolved, each with what it drops from the caches.
    - [Settings], [Transports]: the decisions of [src/src/config.rs] about addresses
      and DANE endpoints, [src/src/tls.rs], and the supervisor of
      [src/src/transports.rs] with the calls that reach it; which sockets are open
      is part of its state.
    - [Admin]: the other calls of [src/src/grpc_service.rs]: keys of zones, tracked
      TLDs, the proxy, TTL drift, and the listings; with [Control] the whole service.
    - [Boot]: [src/src/main.rs] from the settings of [src/src/config.rs] to the parts
      that run, each setting applied in the order of the code.

    ** What the theorems show

    - The boundary of the box ([Server], [Upstream], [Dnsbl]): strangers cannot make
      the server recurse, an owned TLD and [arpa.] never leave it, a sibling
      network's names stay hidden, unjoined overlay peers are refused, local data and
      blocklists come before anything external.
    - The walk ([ResolverProofs], [Bailiwick], [Recursion], [Validate]): it ends
      within its budget, caches and returns a server's word only on what lies in a
      zone the server was delegated, calls secure only what a chain of signatures
      from the anchor covers, and what it calls bogus is not served.
    - Denial and signing ([Negative], [Nsec], [Rdata], [ZoneSigner]): NXDOMAIN never
      contradicts data the server has; a denial proof is complete or absent; the
      NSEC chain tiles the name space; a signature the server makes is one it
      verifies; a type bit map lists exactly its types.
    - The store ([Scopes], [ZoneStore], [Database], [Dhcp]): scopes do not
      interfere, the ownership map is the tables', the deepest owner wins, every
      record stays under a managed zone, the single query with fallbacks equals the
      separate lookups, no address is leased twice.
    - The caches and the tiers: lifetimes, provenance, deepest delegation, bounds,
      the sticky tier and its flushes, the circuit breaker.
    - Certificates ([AcmeProofs], [AcmeSafety], [AcmeRace], [Transports]): the host
      names of a certificate were proved, a nonce is accepted once, a credential
      enrols the holder of its key and, where requests do not overlap, one account,
      a transport listens where it was configured to, a listener follows the files and never serves a pair that does not
      match, and reconfiguring one transport leaves no socket behind and the others
      alone.
    - Transports ([Exchange], [Http]): answers arrive as they were sent, over every
      framing, and forged datagrams change nothing.
    - The control plane ([Auth], [Control], [Admin], [Settings]): guesses are slowed
      down, a refused call changes nothing, a change is in the next answer, a key
      that is generated is one the next pass signs with, what is reported is what is
      in force, DANE records stand only where they are true.
    - The start ([Boot], [Ingress]): a control plane without a secret is on loopback only,
      the settings of the file are what runs, a start without a file is closed, the
      local socket is published restricted, a listener can always be had again.
    - Counting ([Metrics]): every query is counted once in every dimension, a
      histogram says what was observed, a label cannot break the text it is in.
    - Defects the model exhibits ([Scopes.scope_key_collision],
      [Tiers.tier_switch_keeps_keys], [Server.wildcard_cname_by_type],
      [Negative.dname_sent_as_cname], [Http.split_head_read_as_answer],
      [Metrics.tld_series_per_spelling], [Boot.mistyped_overlay_trusts_peers],
      [Admin.last_key_stays_published], [Svcb.numbered_keys_unexamined],
      [AcmeRace.overlapping_enrollments_share_credential] and others): statements of what the code does
      where that is not what it means to do.

    ** Conventions

    Integers are [Z] with their width stated where it matters; a wrap-around is
    written with [as_u]. Bytes are [Z]; smoothed latencies are exact rationals. Time
    is an argument, read once by a handler: [now] is the monotonic clock, [wall] the
    Unix clock. A handler is one step and handlers follow one another; where the code
    spawns a task or a worker, and in [AcmeRace], the steps interleave. Code that is not in the repository is a parameter with a class of
    laws it documents ([DnsName], [WireCodec], [Base64], [Hex], [Ring], [Jose],
    [Rcgen], [TlsLib], [FancyDuration], the iteration order of a concurrent map, the entry a full map
    evicts), and every theorem that uses such a class has a witness at concrete
    instances. Of random draws it is assumed only that they do not repeat
    ([JoseLaws]). The outside (a peer's reply, a provider's verdict, a network) is a
    function of everything asked before it. SQLite is its statements on lists of
    rows, in the order of the row numbers; foreign keys are not enforced, as the
    program does not turn them on. Letter case and white space are ASCII.

    Recursion that is not structural has fuel, the length of what it consumes: each
    turn of a walk over a name removes at least one character (or label), each turn
    of a walk over a packet or a stream advances by at least one byte, each eviction
    removes one entry, a search for a free address stops after one more than are
    leased. [Names.scan_suffixes_parents], [Wire.skip_labels_encode],
    [DelegationCache.best_match_loop_spec], [ExpiringCache.evict_fuel],
    [Exchange.serve_frames_all] and [Http.dechunk_chunks] show that the fuel is
    enough. The walk from the roots has the limits of the code: depth 16, thirty
    referrals, an allowance of 64 or 96 queries; eighteen levels of fuel are enough
    for the depth limit to be what stops it.

    ** What is not modelled

    The metric families of the subsystems around the query path, gauges and the
    collection at a scrape ([src/src/metrics.rs]): samples of other parts' state. The
    logarithmic adjustment of TTLs, arithmetic on floating-point numbers that nothing
    calls. The YAML of the configuration, the schema and the migrations of the
    database, the command-line client, the accept loops of the listeners, and
    failures of SQLite itself: glue over libraries. Deadlines are
    modelled where a value depends on them (the walk, the breakers, the datagrams of
    a forwarder), not for streams. The counters and debug logs of the modelled
    functions are left out. *)

From stdpp Require Import base gmap sets list option strings.
From Stdlib Require Import ZArith Lia Bool Ascii.

Declare Scope rolodex_scope.
Delimit Scope rolodex_scope with rolodex.

(** * Automation *)

(** Lemmas on Rust string operations and DNS names that rewrite left to right. *)
Create HintDb rolodex discriminated.

(** Splits every boolean conjunction and disjunction of the context into its
    propositional form. *)
Ltac bool_hyps :=
  repeat match goal with
    | H : (_ && _)%bool = true |- _ => apply andb_true_iff in H as [? ?]
    | H : (_ && _)%bool = false |- _ => apply andb_false_iff in H as [?|?]
    | H : (_ || _)%bool = true |- _ => apply orb_true_iff in H as [?|?]
    | H : (_ || _)%bool = false |- _ => apply orb_false_iff in H as [? ?]
    | H : negb _ = true |- _ => apply negb_true_iff in H
    | H : negb _ = false |- _ => apply negb_false_iff in H
    | H : (_ =? _)%string = true |- _ => apply String.eqb_eq in H
    | H : (_ =? _)%string = false |- _ => apply String.eqb_neq in H
    | H : (_ <=? _)%nat = true |- _ => apply Nat.leb_le in H
    | H : (_ <=? _)%nat = false |- _ => apply Nat.leb_gt in H
    | H : (_ <? _)%nat = true |- _ => apply Nat.ltb_lt in H
    | H : (_ <? _)%nat = false |- _ => apply Nat.ltb_ge in H
    | H : (_ =? _)%nat = true |- _ => apply Nat.eqb_eq in H
    | H : (_ =? _)%nat = false |- _ => apply Nat.eqb_neq in H
    | H : (_ <=? _)%Z = true |- _ => apply Z.leb_le in H
    | H : (_ <=? _)%Z = false |- _ => apply Z.leb_gt in H
    | H : (_ <? _)%Z = true |- _ => apply Z.ltb_lt in H
    | H : (_ <? _)%Z = false |- _ => apply Z.ltb_ge in H
    | H : (_ =? _)%Z = true |- _ => apply Z.eqb_eq in H
    | H : (_ =? _)%Z = false |- _ => apply Z.eqb_neq in H
    | H : bool_decide _ = true |- _ => apply bool_decide_eq_true in H
    | H : bool_decide _ = false |- _ => apply bool_decide_eq_false in H
    end.

(** Case analysis on every [match] and [if] of the goal, keeping the equations. *)
Ltac split_cases := repeat (case_match; simplify_eq/=); try done.

(** * Results of fallible operations *)

(** [Result<T, E>]: an operation either returns a value or an error. *)
Inductive result (A E : Type) : Type :=
| Ok (a : A)
| Err (e : E).
Arguments Ok {A E} a.
Arguments Err {A E} e.

(** The [?] operator: an error returns early. *)
Definition result_bind {A B E} (r : result A E) (k : A -> result B E) : result B E :=
  match r with Ok a => k a | Err e => Err e end.

Notation "x <-? r ; k" := (result_bind r (fun x => k))
  (at level 20, r at level 100, k at level 200, right associativity,
   only parsing) : rolodex_scope.

Lemma result_bind_ok {A B E} (r : result A E) (k : A -> result B E) b :
  result_bind r k = Ok b <-> exists a, r = Ok a /\ k a = Ok b.
Proof.
  destruct r as [a|e]; simpl; split.
  - intros H. by exists a.
  - intros (a' & [= <-] & H). done.
  - done.
  - intros (a' & H & _). done.
Qed.

(** Operations that may fail and change a state: what was changed before an error
    stays changed. *)
Definition fallible (S E A : Type) : Type := S -> result A E * S.

Definition succeed {S E A} (a : A) : fallible S E A := fun s => (Ok a, s).
Definition fail {S E A} (e : E) : fallible S E A := fun s => (Err e, s).
Definition and_then {S E A B} (m : fallible S E A) (k : A -> fallible S E B) : fallible S E B :=
  fun s => match m s with (Ok a, s') => k a s' | (Err e, s') => (Err e, s') end.

Notation "x <-e m ; k" := (and_then m (fun x => k))
  (at level 20, m at level 100, k at level 200, right associativity,
   only parsing) : rolodex_scope.

(** [ok_or_else]. *)
Definition or_fail {S E A} (o : option A) (e : E) : fallible S E A :=
  match o with Some a => succeed a | None => fail e end.

Lemma and_then_ok {S E A B} (m : fallible S E A) (k : A -> fallible S E B) s b s' :
  and_then m k s = (Ok b, s') <-> exists a s1, m s = (Ok a, s1) /\ k a s1 = (Ok b, s').
Proof.
  unfold and_then. destruct (m s) as [[a|e] s1]; split.
  - intros H. by exists a, s1.
  - by intros (? & ? & [= <- <-] & H).
  - done.
  - by intros (? & ? & ? & _).
Qed.

(** * Machine integers *)

(** An unsigned [w]-bit integer is a [Z] in [0, 2^w); [as_u w] is the [as]
    cast, which keeps the low [w] bits. *)
Definition u8_max : Z := 255.
Definition u16_max : Z := 65535.
Definition u32_max : Z := 4294967295.
Definition u64_max : Z := 18446744073709551615.
Definition i64_min : Z := -9223372036854775808.
Definition i64_max : Z := 9223372036854775807.

Definition as_u (w : Z) (z : Z) : Z := z mod 2 ^ w.
Definition is_u (w : Z) (z : Z) : Prop := (0 <= z < 2 ^ w)%Z.

(** A cast to a signed [w]-bit integer. *)
Definition as_i (w z : Z) : Z := ((z + 2 ^ (w - 1)) mod 2 ^ w - 2 ^ (w - 1))%Z.

Lemma as_i_id w z : (0 < w)%Z -> (- 2 ^ (w - 1) <= z < 2 ^ (w - 1))%Z -> as_i w z = z.
Proof.
  intros Hw Hz. unfold as_i. assert (2 ^ w = 2 * 2 ^ (w - 1))%Z as E.
  { rewrite <- Z.pow_succ_r by lia. f_equal. lia. }
  rewrite Z.mod_small; lia.
Qed.

Lemma as_u_is_u w z : (0 <= w)%Z -> is_u w (as_u w z).
Proof. intros Hw. unfold is_u, as_u. apply Z.mod_pos_bound. lia. Qed.

Lemma as_u_id w z : is_u w z -> as_u w z = z.
Proof. unfold is_u, as_u. intros. by apply Z.mod_small. Qed.

(** Bits that do not overlap add up. *)
Lemma lor_low a b s :
  (0 <= s)%Z -> (0 <= b < 2 ^ s)%Z -> Z.lor (a * 2 ^ s) b = (a * 2 ^ s + b)%Z.
Proof.
  intros Hs Hb. pose proof (Z.add_lor_land (a * 2 ^ s) b) as Hadd.
  enough (Z.land (a * 2 ^ s) b = 0%Z) by lia.
  apply Z.bits_inj'. intros n Hn. rewrite Z.land_spec, Z.bits_0. apply andb_false_iff.
  destruct (Z.lt_ge_cases n s); [left; by apply Z.mul_pow2_bits_low|right].
  rewrite <- (Z.mod_small b (2 ^ s)) by done. by apply Z.mod_pow2_bits_high.
Qed.

(** * Instants and durations *)

(** [std::time::Instant] and [Duration] count nanoseconds. *)
Definition nanos_per_sec : Z := 1000000000.
Definition from_secs (s : Z) : Z := (s * nanos_per_sec)%Z.
Definition as_secs (d : Z) : Z := (d / nanos_per_sec)%Z.
(** [Instant::duration_since] saturates at zero. *)
Definition duration_since (later earlier : Z) : Z := Z.max 0 (later - earlier).

Lemma as_secs_from_secs s : as_secs (from_secs s) = s.
Proof. unfold as_secs, from_secs, nanos_per_sec. apply Z.div_mul. lia. Qed.

Lemma as_secs_mono a b : (a <= b)%Z -> (as_secs a <= as_secs b)%Z.
Proof. unfold as_secs, nanos_per_sec. intros. apply Z.div_le_mono; lia. Qed.

Lemma as_secs_nonneg d : (0 <= d)%Z -> (0 <= as_secs d)%Z.
Proof. unfold as_secs, nanos_per_sec. intros. apply Z.div_pos; lia. Qed.

(** * Lists *)

(** In a list without duplicate keys, a key determines the element. *)
Lemma NoDup_fmap_same {A B} (f : A -> B) (l : list A) x y :
  NoDup (f <$> l) -> x ∈ l -> y ∈ l -> f x = f y -> x = y.
Proof.
  induction l as [|a l IH]; intros Hnd Hx Hy E; [by apply elem_of_nil in Hx|].
  rewrite fmap_cons, NoDup_cons in Hnd. destruct Hnd as [Ha Hnd].
  apply elem_of_cons in Hx as [->|Hx], Hy as [->|Hy]; [done| | |by apply IH].
  - exfalso. apply Ha. rewrite E. by apply list_elem_of_fmap_2.
  - exfalso. apply Ha. rewrite <- E. by apply list_elem_of_fmap_2.
Qed.

Lemma filter_all_false {A} (p : A -> bool) (l : list A) :
  (forall x, x ∈ l -> p x = false) -> List.filter p l = [].
Proof.
  induction l as [|a l IH]; intros H; simpl; [done|].
  rewrite (H a) by (by left). apply IH. intros x Hx. apply H. by right.
Qed.

Lemma elem_filter_bool {A} (p : A -> bool) (l : list A) x :
  x ∈ List.filter p l <-> x ∈ l /\ p x = true.
Proof. rewrite !list_elem_of_In. apply filter_In. Qed.

Lemma filter_filter_and {A} (p q : A -> bool) (l : list A) :
  List.filter p (List.filter q l) = List.filter (fun x => q x && p x) l.
Proof. induction l as [|a l IH]; simpl; [done|]. destruct (q a); simpl; [|done]. by destruct (p a); rewrite IH. Qed.

Lemma Permutation_filter_bool {A} (p : A -> bool) (l k : list A) : l ≡ₚ k -> List.filter p l ≡ₚ List.filter p k.
Proof.
  induction 1 as [|x l k _ IH|x y l|l k m _ IH1 _ IH2]; simpl; [done|by destruct (p x); rewrite IH| |by rewrite IH1].
  destruct (p x), (p y); try done. apply Permutation_swap.
Qed.

Lemma filter_none {A} (p : A -> bool) (l : list A) : (forall x, x ∈ l -> p x = false) -> List.filter p l = [].
Proof.
  induction l as [|a l IH]; intros H; [done|]. simpl. rewrite (H a) by left. apply IH. intros x Hx. apply H. by right.
Qed.

Lemma filter_all_true {A} (p : A -> bool) (l : list A) : (forall x, x ∈ l -> p x = true) -> List.filter p l = l.
Proof.
  induction l as [|a l IH]; intros H; simpl; [done|]. rewrite (H a) by (by left). f_equal. apply IH.
  intros x Hx. apply H. by right.
Qed.

Lemma existsb_ext {A} (f g : A -> bool) (l : list A) : (forall x, f x = g x) -> existsb f l = existsb g l.
Proof. intros H. induction l as [|a l IH]; simpl; [done|]. by rewrite H, IH. Qed.

(** Looking a row up by a key that determines it. *)
Lemma find_key_Some {A} (f : A -> string) k (l : list A) x :
  x ∈ l -> f x = k -> (forall y, y ∈ l -> f y = k -> y = x) -> List.find (fun y => (f y =? k)%string) l = Some x.
Proof.
  intros Hx Hk Hu. destruct (List.find _ l) as [y|] eqn:E.
  - apply find_some in E as [Hy E]. f_equal. apply Hu; [by apply list_elem_of_In|by apply String.eqb_eq].
  - apply list_elem_of_In, (find_none _ _ E) in Hx. by apply String.eqb_neq in Hx.
Qed.

Lemma find_key_None {A} (f : A -> string) k (l : list A) :
  (forall y, y ∈ l -> f y <> k) -> List.find (fun y => (f y =? k)%string) l = None.
Proof.
  intros H. destruct (List.find _ l) as [y|] eqn:E; [|done]. exfalso.
  apply find_some in E as [Hy E]. apply (H y); [by apply list_elem_of_In|by apply String.eqb_eq].
Qed.

(** A [bool] count of matches is positive exactly when there is one. *)
Lemma filter_length_pos {A} (p : A -> bool) (l : list A) :
  (0 <? length (List.filter p l))%nat = true <-> exists x, x ∈ l /\ p x = true.
Proof.
  rewrite Nat.ltb_lt. split.
  - destruct (List.filter p l) as [|x k] eqn:E; simpl; [lia|]. intros _.
    exists x. apply elem_filter_bool. rewrite E. by left.
  - intros (x & Hx%elem_filter_bool). destruct (List.filter p l); [|simpl; lia].
    by apply elem_of_nil in Hx.
Qed.
