(* ===== verification/RustStr.v ===== *)
(** The operations of Rust's [str] and [String] the program uses, on byte
    strings, with the lemmas that relate splitting, joining and trimming.

    Characters are bytes and [to_lowercase] folds the ASCII letters, which is
    what the Unicode fold does on the ASCII names the program handles. *)

From S2P Require Import Prelude.
From stdpp Require Import base gmap list option strings.
From Stdlib Require Import ZArith Lia Bool Ascii.

#[global] Arguments String.append !_ _ / : simpl nomatch.
#[global] Arguments String.eqb : simpl never.

(** * Characters *)

Definition lower_char (c : ascii) : ascii :=
  let n := nat_of_ascii c in
  if (65 <=? n)%nat && (n <=? 90)%nat then ascii_of_nat (n + 32) else c.

Definition upper_char (c : ascii) : ascii :=
  let n := nat_of_ascii c in
  if (97 <=? n)%nat && (n <=? 122)%nat then ascii_of_nat (n - 32) else c.

Definition is_dot (c : ascii) : bool := Ascii.eqb c ".".

(** * Strings *)

Fixpoint str_map (f : ascii -> ascii) (s : string) : string :=
  match s with
  | EmptyString => EmptyString
  | String c s' => String (f c) (str_map f s')
  end.

Fixpoint str_forall (p : ascii -> bool) (s : string) : bool :=
  match s with
  | EmptyString => true
  | String c s' => p c && str_forall p s'
  end.

(** [str::to_lowercase] and [str::to_uppercase] on ASCII text. *)
Definition to_lowercase : string -> string := str_map lower_char.
Definition to_uppercase : string -> string := str_map upper_char.

(** [str::ends_with(char)]. *)
Fixpoint ends_with_char (c : ascii) (s : string) : bool :=
  match s with
  | EmptyString => false
  | String d EmptyString => Ascii.eqb d c
  | String _ s' => ends_with_char c s'
  end.

(** [str::starts_with(&str)]. *)
Definition starts_with (p s : string) : bool := String.prefix p s.

(** [str::ends_with(&str)]. *)
Fixpoint ends_with (suf s : string) : bool :=
  (s =? suf)%string ||
  match s with
  | EmptyString => false
  | String _ s' => ends_with suf s'
  end.

(** [str::strip_suffix(&str)]. *)
Fixpoint str_strip_suffix (suf s : string) : option string :=
  if (s =? suf)%string then Some EmptyString
  else match s with
       | EmptyString => None
       | String c s' => String c <$> str_strip_suffix suf s'
       end.

(** [str::strip_prefix(&str)]. *)
Fixpoint str_strip_prefix (p s : string) : option string :=
  match p, s with
  | EmptyString, _ => Some s
  | String c p', String d s' => if Ascii.eqb c d then str_strip_prefix p' s' else None
  | String _ _, EmptyString => None
  end.

(** [str::trim_end_matches(char)]: drops every trailing occurrence. *)
Fixpoint trim_end_matches (c : ascii) (s : string) : string :=
  match s with
  | EmptyString => EmptyString
  | String d s' =>
      match trim_end_matches c s' with
      | EmptyString => if Ascii.eqb d c then EmptyString else String d EmptyString
      | t => String d t
      end
  end.

(** [str::split(char)]: always at least one piece. *)
Fixpoint split_on (c : ascii) (s : string) : list string :=
  match s with
  | EmptyString => [EmptyString]
  | String d s' =>
      if Ascii.eqb d c then EmptyString :: split_on c s'
      else match split_on c s' with
           | [] => [String d EmptyString]
           | p :: ps => String d p :: ps
           end
  end.

(** [str::split_once(char)] and [str::rsplit_once(char)]. *)
Fixpoint split_once (c : ascii) (s : string) : option (string * string) :=
  match s with
  | EmptyString => None
  | String d s' =>
      if Ascii.eqb d c then Some (EmptyString, s')
      else match split_once c s' with
           | Some (a, b) => Some (String d a, b)
           | None => None
           end
  end.

Fixpoint rsplit_once (c : ascii) (s : string) : option (string * string) :=
  match s with
  | EmptyString => None
  | String d s' =>
      match rsplit_once c s' with
      | Some (a, b) => Some (String d a, b)
      | None => if Ascii.eqb d c then Some (EmptyString, s') else None
      end
  end.

(** [slice::join(&str)]. *)
Definition str_join (sep : string) (l : list string) : string := String.concat sep l.

(** A string none of whose characters is [c]. *)
Definition free_of (c : ascii) (s : string) : bool :=
  str_forall (fun d => negb (Ascii.eqb d c)) s.

(** * Lemmas *)

Lemma app_nil_r_str s : s +:+ "" = s.
Proof. induction s as [|c s IH]; simpl; [done|by rewrite IH]. Qed.

Lemma app_assoc_str a b c : (a +:+ b) +:+ c = a +:+ b +:+ c.
Proof. induction a as [|x a IH]; simpl; [done|by rewrite IH]. Qed.

Lemma app_inj_str a b c : a +:+ b = a +:+ c -> b = c.
Proof. induction a; simpl; intros; [done|]. simplify_eq. auto. Qed.

Lemma app_length_str a b :
  String.length (a +:+ b) = (String.length a + String.length b)%nat.
Proof. induction a; simpl; lia. Qed.

Lemma app_inj_r_str a b c : a +:+ c = b +:+ c -> a = b.
Proof.
  revert b. induction a as [|x a IH]; intros [|y b] H; simpl in *; [done| | |].
  - apply (f_equal String.length) in H. simpl in H. rewrite app_length_str in H. lia.
  - apply (f_equal String.length) in H. simpl in H. rewrite app_length_str in H. lia.
  - simplify_eq. f_equal. auto.
Qed.

Lemma str_map_app f a b : str_map f (a +:+ b) = str_map f a +:+ str_map f b.
Proof. induction a; simpl; [done|]. by f_equal. Qed.

Lemma str_map_length f s : String.length (str_map f s) = String.length s.
Proof. induction s; simpl; lia. Qed.

Lemma str_forall_app p a b : str_forall p (a +:+ b) = str_forall p a && str_forall p b.
Proof. induction a; simpl; [done|]. by rewrite IHa, andb_assoc. Qed.

Lemma lower_char_idem c : lower_char (lower_char c) = lower_char c.
Proof. destruct c as [[] [] [] [] [] [] [] []]; vm_compute; reflexivity. Qed.

Lemma lower_char_dot c : Ascii.eqb (lower_char c) "." = Ascii.eqb c ".".
Proof. destruct c as [[] [] [] [] [] [] [] []]; vm_compute; reflexivity. Qed.

Lemma to_lowercase_idem s : to_lowercase (to_lowercase s) = to_lowercase s.
Proof.
  unfold to_lowercase. induction s as [|c s IH]; simpl; [done|].
  by rewrite lower_char_idem, IH.
Qed.

Lemma to_lowercase_app a b : to_lowercase (a +:+ b) = to_lowercase a +:+ to_lowercase b.
Proof. apply str_map_app. Qed.

Lemma ends_with_char_app c s : ends_with_char c (s +:+ String c "") = true.
Proof.
  induction s as [|d s IH]; simpl; [apply Ascii.eqb_refl|].
  rewrite IH. by destruct (s +:+ _).
Qed.

Lemma ends_with_char_inv c s :
  ends_with_char c s = true -> exists p, s = p +:+ String c "".
Proof.
  induction s as [|d s IH]; simpl; [done|]. destruct s as [|e s'].
  - intros H%Ascii.eqb_eq. subst. by exists "".
  - intros H. destruct (IH H) as [p ->]. by exists (String d p).
Qed.

Lemma ends_with_char_lower s :
  ends_with_char "." (to_lowercase s) = ends_with_char "." s.
Proof.
  unfold to_lowercase. induction s as [|d s IH]; simpl; [done|].
  rewrite IH, lower_char_dot. by destruct s.
Qed.

Lemma starts_with_spec p s : starts_with p s = true <-> exists t, s = p +:+ t.
Proof.
  unfold starts_with. revert s. induction p as [|c p IH]; intros [|d s]; simpl.
  - split; [by exists ""|done].
  - split; [by exists (String d s)|done].
  - split; [done|]. by intros [t ?].
  - destruct (ascii_dec c d) as [->|Hne].
    + rewrite IH. split; intros [t Ht]; exists t; [by f_equal|by simplify_eq].
    + split; [done|]. intros [t Ht]. by simplify_eq.
Qed.

Lemma ends_with_spec suf s : ends_with suf s = true <-> exists p, s = p +:+ suf.
Proof.
  induction s as [|c s IH]; simpl.
  - rewrite orb_false_r, String.eqb_eq. split.
    + intros ->. by exists "".
    + intros [p Hp]. destruct p; simpl in *; [done|discriminate].
  - rewrite orb_true_iff, String.eqb_eq, IH. split.
    + intros [<-|[p ->]]; [by exists ""|by exists (String c p)].
    + intros [[|d p] Hp]; simpl in Hp; [by left|]. simplify_eq. right. eauto.
Qed.

Lemma str_strip_suffix_spec suf s t : str_strip_suffix suf s = Some t <-> s = t +:+ suf.
Proof.
  revert t. induction s as [|c s IH]; intros t; simpl.
  - case_match eqn:E; bool_hyps.
    + subst. split; [by intros [= <-]|]. by destruct t.
    + split; [done|]. destruct t; simpl; [by intros <-|done].
  - case_match eqn:E; bool_hyps.
    + subst. split; [by intros [= <-]|]. intros H. f_equal.
      apply (app_inj_r_str "" t (String c s)). done.
    + rewrite fmap_Some. split.
      * intros (u & Hu%IH & ->). by subst.
      * destruct t as [|d t]; simpl; [by intros <-|].
        intros [= -> ->]. exists t. split; [by apply IH|done].
Qed.

Lemma str_strip_prefix_spec p s t : str_strip_prefix p s = Some t <-> s = p +:+ t.
Proof.
  revert s. induction p as [|c p IH]; intros [|d s]; simpl; try (split; congruence).
  destruct (Ascii.eqb_spec c d) as [->|Hne].
  - rewrite IH. split; [by intros ->|by intros [= ->]].
  - split; [done|]. by intros [= ? ?].
Qed.

Lemma free_of_app c a b : free_of c (a +:+ b) = free_of c a && free_of c b.
Proof. apply str_forall_app. Qed.

Lemma free_of_lower s : free_of "." (to_lowercase s) = free_of "." s.
Proof.
  unfold free_of, to_lowercase. induction s as [|d s IH]; simpl; [done|].
  by rewrite IH, lower_char_dot.
Qed.

(** Splitting stops at the first separator. *)
Lemma split_on_free c l : free_of c l = true -> split_on c l = [l].
Proof.
  unfold free_of. induction l as [|d l IH]; simpl; [done|].
  intros H; bool_hyps. rewrite H. by rewrite IH.
Qed.

Lemma split_on_cons c l s :
  free_of c l = true -> split_on c (l +:+ String c s) = l :: split_on c s.
Proof.
  unfold free_of. induction l as [|d l IH]; simpl.
  - intros _. by rewrite Ascii.eqb_refl.
  - intros H; bool_hyps. rewrite H. by rewrite IH.
Qed.

Lemma split_once_cons c l s :
  free_of c l = true -> split_once c (l +:+ String c s) = Some (l, s).
Proof.
  unfold free_of. induction l as [|d l IH]; simpl.
  - intros _. by rewrite Ascii.eqb_refl.
  - intros H; bool_hyps. rewrite H. by rewrite IH.
Qed.

Lemma split_once_free c l : free_of c l = true -> split_once c l = None.
Proof.
  unfold free_of. induction l as [|d l IH]; simpl; [done|].
  intros H; bool_hyps. rewrite H. by rewrite IH.
Qed.

Lemma split_once_spec c s :
  match split_once c s with
  | Some (a, b) => s = a +:+ String c b /\ free_of c a = true
  | None => free_of c s = true
  end.
Proof.
  unfold free_of. induction s as [|d s IH]; simpl; [done|].
  destruct (Ascii.eqb d c) eqn:E; [by apply Ascii.eqb_eq in E as ->|].
  destruct (split_once c s) as [[a b]|]; simpl; rewrite ?E; [|done]. by destruct IH as [-> H].
Qed.

Lemma split_on_pieces c s : Forall (fun p => free_of c p = true) (split_on c s).
Proof.
  induction s as [|d s IH]; simpl; [by repeat constructor|].
  destruct (Ascii.eqb d c) eqn:E; [by constructor|].
  destruct (split_on c s) as [|p ps]; inversion_clear IH; constructor; try done.
  - unfold free_of in *. simpl. by rewrite E.
  - unfold free_of in *. simpl. rewrite E. done.
Qed.

Lemma split_on_nonempty c s : split_on c s <> [].
Proof. destruct s; simpl; [done|]. by repeat case_match. Qed.

Lemma rsplit_once_free c a b :
  free_of c b = true -> rsplit_once c (a +:+ String c b) = Some (a, b).
Proof.
  intros Hb. assert (rsplit_once c b = None) as Hn.
  { revert Hb. unfold free_of. induction b as [|d b IH]; simpl; [done|].
    intros H; bool_hyps. rewrite IH by done. by rewrite H. }
  induction a as [|d a IH]; simpl; [by rewrite Hn, Ascii.eqb_refl|by rewrite IH].
Qed.

Lemma trim_end_snoc c s : trim_end_matches c (s +:+ String c "") = trim_end_matches c s.
Proof.
  induction s as [|d s IH]; simpl; [by rewrite Ascii.eqb_refl|by rewrite IH].
Qed.

(** A string that does not end in the character is left alone. *)
Lemma trim_end_id c s : ends_with_char c s = false -> trim_end_matches c s = s.
Proof.
  induction s as [|d s IH]; simpl; [done|].
  destruct s as [|e s']; [simpl; by intros ->|].
  intros H. rewrite IH by done. done.
Qed.

Lemma ends_with_char_app_r c a b :
  b <> "" -> ends_with_char c (a +:+ b) = ends_with_char c b.
Proof.
  intros Hb. induction a as [|d a IH]; simpl; [done|].
  rewrite IH. destruct (a +:+ b) eqn:E; [|done].
  destruct a, b; simplify_eq/=; done.
Qed.

Lemma free_of_ends c s : free_of c s = true -> ends_with_char c s = false.
Proof.
  unfold free_of. induction s as [|d s IH]; simpl; [done|].
  intros H; bool_hyps. destruct s; [done|]. by apply IH.
Qed.

#[export] Hint Resolve lower_char_idem to_lowercase_idem split_on_pieces
  split_on_nonempty ends_with_char_app free_of_ends : rolodex.

Lemma prefix_same_length a b s t :
  String.length a = String.length b -> a +:+ s = b +:+ t -> a = b.
Proof.
  revert b. induction a as [|c a IH]; intros [|d b]; simpl; try done.
  intros [= Hl] [= -> H]. f_equal. by apply IH.
Qed.

Lemma str_forall_impl (p q : ascii -> bool) s :
  (forall c, p c = true -> q c = true) -> str_forall p s = true -> str_forall q s = true.
Proof.
  intros Hpq. induction s as [|c s IH]; simpl; [done|]. intros H. bool_hyps.
  rewrite Hpq by done. by apply IH.
Qed.
