(* ===== verification/Names.v ===== *)
(** DNS names as the program writes them: lowercase strings with a trailing
    dot ([src/src/db.rs]). Every operation works on the text; the lemmas here
    show that on well-formed names it computes the corresponding operation on
    the list of labels, most specific label first. *)

From S2P Require Import Prelude RustStr.
From stdpp Require Import base gmap list option strings.
From Stdlib Require Import ZArith Lia Bool Ascii.

(** * Operations *)

(** [normalize_name]: lowercase, with a trailing dot. *)
Definition normalize_name (name : string) : string :=
  let lower := to_lowercase name in
  if ends_with_char "." lower then lower else lower +:+ ".".

(** [make_wildcard_name]: the first label becomes an asterisk. *)
Definition make_wildcard_name (normalized : string) : option string :=
  let trimmed := trim_end_matches "." normalized in
  match split_once "." trimmed with
  | Some (_, rest) => Some ("*." +:+ rest +:+ ".")
  | None => None
  end.

(** [name_in_zone]: at or beneath, on label boundaries. *)
Definition name_in_zone (name zone : string) : bool :=
  let name := normalize_name name in
  let zone := normalize_name zone in
  if (name =? zone)%string then true
  else if (zone =? ".")%string then true
  else ends_with ("." +:+ zone) name.

(** The loop of [ancestor_names]: each [split_once] shortens [rest], so a fuel
    of its length is enough. *)
Fixpoint parents (fuel : nat) (rest : string) : list string :=
  match fuel with
  | O => []
  | S f =>
      match split_once "." rest with
      | Some (_, parent) =>
          if (parent =? "")%string then [] else (parent +:+ ".") :: parents f parent
      | None => []
      end
  end.

(** [ancestor_names]: the name and its ancestors, the root left out. *)
Definition ancestor_names (normalized : string) : list string :=
  let trimmed := trim_end_matches "." normalized in
  if (trimmed =? "")%string then []
  else (trimmed +:+ ".") :: parents (String.length trimmed) trimmed.

(** The suffix walk that [find_tld_owner], [matches_zone_suffix],
    [find_managed_zone] and [find_authoritative_zone] share: the first parent
    of [rest] on which [hit] succeeds. *)
Fixpoint scan_suffixes {A} (hit : string -> option A) (fuel : nat) (rest : string)
  : option A :=
  match fuel with
  | O => None
  | S f =>
      match split_once "." rest with
      | Some (_, parent) =>
          if (parent =? "")%string then None
          else match hit (parent +:+ ".") with
               | Some a => Some a
               | None => scan_suffixes hit f parent
               end
      | None => None
      end
  end.

(** The whole lookup: the name itself, then its parents. *)
Definition walk_suffixes {A} (hit : string -> option A) (name : string) : option A :=
  let normalized := normalize_name name in
  match hit normalized with
  | Some a => Some a
  | None =>
      let trimmed := trim_end_matches "." normalized in
      scan_suffixes hit (String.length trimmed) trimmed
  end.

(** [REVERSE_SUFFIXES]. *)
Definition REVERSE_SUFFIXES : list string := ["in-addr.arpa."; "ip6.arpa."].

(** The last two labels of a name, or its only one. *)
Definition last_two_labels (trimmed : string) : option string :=
  let parts := split_on "." trimmed in
  if (2 <=? length parts)%nat
  then Some (str_join "." (drop (length parts - 2) parts) +:+ ".")
  else match parts with
       | [p] => if (p =? "")%string then None else Some (p +:+ ".")
       | _ => None
       end.

(** [extract_zone_from_name]. *)
Definition extract_zone_from_name (name : string) : option string :=
  let normalized := normalize_name name in
  if existsb (name_in_zone normalized) REVERSE_SUFFIXES then None
  else last_two_labels (trim_end_matches "." normalized).

(** * Names as label lists *)

(** The text of a list of labels; the root has none. *)
Definition fqdn (ls : list string) : string :=
  match ls with [] => "." | _ => str_join "." ls +:+ "." end.

(** A label in normal form. *)
Definition label (l : string) : Prop :=
  l <> "" /\ free_of "." l = true /\ to_lowercase l = l.

Definition labels_of (s : string) : list string :=
  let t := trim_end_matches "." (normalize_name s) in
  if (t =? "")%string then [] else split_on "." t.

(** A name without empty labels. *)
Definition valid_name (s : string) : bool :=
  (normalize_name s =? fqdn (labels_of s))%string &&
  forallb (fun l => negb (l =? "")%string) (labels_of s).

(** The name and its ancestors, as label lists, without the root. *)
Fixpoint tails (ls : list string) : list (list string) :=
  match ls with [] => [] | l :: ls' => (l :: ls') :: tails ls' end.

(** * Text and labels *)

Lemma join_cons l ls : ls <> [] -> str_join "." (l :: ls) = l +:+ "." +:+ str_join "." ls.
Proof. by destruct ls. Qed.

Lemma fqdn_cons l ls : fqdn (l :: ls) = l +:+ "." +:+ (if ls is [] then "" else fqdn ls).
Proof.
  destruct ls as [|l' ls]; [done|].
  unfold fqdn. rewrite join_cons by done. by rewrite !app_assoc_str.
Qed.

Lemma join_nonempty l ls : label l -> str_join "." (l :: ls) <> "".
Proof.
  intros (Hl & _ & _). destruct ls; simpl; [done|]. by destruct l.
Qed.

Lemma split_join ls :
  ls <> [] -> Forall (fun l => free_of "." l = true) ls ->
  split_on "." (str_join "." ls) = ls.
Proof.
  induction ls as [|l ls IH]; intros Hne Hf; [done|].
  inversion_clear Hf as [|?? Hl Hls]. destruct ls as [|l' ls].
  - by apply split_on_free.
  - rewrite join_cons by done. simpl. rewrite split_on_cons by done.
    f_equal. by apply IH.
Qed.

Lemma label_free ls : Forall label ls -> Forall (fun l => free_of "." l = true) ls.
Proof. intros H. eapply Forall_impl; [done|]. by intros ? (? & ? & ?). Qed.

Lemma join_ends ls : ls <> [] -> Forall label ls -> ends_with_char "." (str_join "." ls) = false.
Proof.
  induction ls as [|l ls IH]; intros Hne Hf; [done|].
  inversion_clear Hf as [|?? Hl Hls]. destruct ls as [|l' ls].
  - destruct Hl as (? & ? & ?). by apply free_of_ends.
  - rewrite join_cons, <- app_assoc_str by done. rewrite ends_with_char_app_r.
    + by apply IH.
    + inversion_clear Hls. by apply join_nonempty.
Qed.

(** Trimming the trailing dot leaves the joined labels. *)
Lemma trim_fqdn ls : Forall label ls -> trim_end_matches "." (fqdn ls) = str_join "." ls.
Proof.
  intros H. destruct ls as [|l ls]; [done|].
  unfold fqdn. rewrite trim_end_snoc. apply trim_end_id. by apply join_ends.
Qed.

Lemma fqdn_ends ls : ends_with_char "." (fqdn ls) = true.
Proof. destruct ls; [done|]. apply ends_with_char_app. Qed.

Lemma to_lowercase_join ls :
  to_lowercase (str_join "." ls) = str_join "." (to_lowercase <$> ls).
Proof.
  induction ls as [|l ls IH]; [done|]. destruct ls as [|l' ls]; [reflexivity|].
  rewrite 2!fmap_cons, (join_cons l), (join_cons (to_lowercase l)) by done.
  by rewrite !to_lowercase_app, IH.
Qed.

Lemma fmap_label_lower ls : Forall label ls -> to_lowercase <$> ls = ls.
Proof.
  induction 1 as [|l ls (? & ? & Hl) _ IH]; [done|]. rewrite fmap_cons. by rewrite Hl, IH.
Qed.

Lemma normalize_fqdn ls : Forall label ls -> normalize_name (fqdn ls) = fqdn ls.
Proof.
  intros H. unfold normalize_name. rewrite ends_with_char_lower, fqdn_ends.
  destruct ls as [|l ls]; [done|].
  unfold fqdn. by rewrite to_lowercase_app, to_lowercase_join, fmap_label_lower.
Qed.

Lemma normalize_name_idem s : normalize_name (normalize_name s) = normalize_name s.
Proof.
  unfold normalize_name at 2 3. destruct (ends_with_char "." (to_lowercase s)) eqn:E.
  - unfold normalize_name. by rewrite to_lowercase_idem, E.
  - unfold normalize_name.
    by rewrite to_lowercase_app, to_lowercase_idem, ends_with_char_app.
Qed.

Lemma labels_of_fqdn ls : Forall label ls -> labels_of (fqdn ls) = ls.
Proof.
  intros H. unfold labels_of. rewrite normalize_fqdn, trim_fqdn by done.
  destruct ls as [|l ls]; [done|].
  case_match eqn:E; bool_hyps.
  - exfalso. inversion_clear H. by eapply join_nonempty.
  - apply split_join; [done|by apply label_free].
Qed.

Lemma fqdn_inj ls ks : Forall label ls -> Forall label ks -> fqdn ls = fqdn ks -> ls = ks.
Proof.
  intros Hl Hk E. rewrite <- (labels_of_fqdn ls), <- (labels_of_fqdn ks) by done.
  by rewrite E.
Qed.

Lemma split_on_lower s :
  split_on "." (to_lowercase s) = to_lowercase <$> split_on "." s.
Proof.
  unfold to_lowercase. induction s as [|c s IH]; [done|].
  simpl. rewrite lower_char_dot. destruct (Ascii.eqb c "."); [by rewrite IH|].
  rewrite IH. by destruct (split_on "." s).
Qed.

Lemma trim_end_lower s :
  trim_end_matches "." (to_lowercase s) = to_lowercase (trim_end_matches "." s).
Proof.
  unfold to_lowercase. induction s as [|c s IH]; [done|]. simpl.
  rewrite IH, lower_char_dot. destruct (trim_end_matches "." s); simpl; [|done].
  by destruct (Ascii.eqb c ".").
Qed.

Lemma normalize_lower s : to_lowercase (normalize_name s) = normalize_name s.
Proof.
  unfold normalize_name. destruct (ends_with_char _ _).
  - apply to_lowercase_idem.
  - by rewrite to_lowercase_app, to_lowercase_idem.
Qed.

(** A valid name is the text of its labels. *)
Lemma valid_name_spec s :
  valid_name s = true -> normalize_name s = fqdn (labels_of s) /\ Forall label (labels_of s).
Proof.
  unfold valid_name. intros H. bool_hyps. split; [done|].
  rewrite Forall_forall. intros l Hl.
  assert (l <> "") as Hne.
  { rewrite forallb_forall in H0. apply list_elem_of_In, H0 in Hl. by bool_hyps. }
  unfold labels_of in Hl. case_match; [set_solver|].
  pose proof (split_on_pieces "." (trim_end_matches "." (normalize_name s))) as Hp.
  rewrite Forall_forall in Hp. repeat split; [done|by apply Hp|].
  rewrite <- normalize_lower, trim_end_lower, split_on_lower in Hl.
  apply list_elem_of_fmap in Hl as (k & -> & _). apply to_lowercase_idem.
Qed.

Lemma fqdn_valid ls : Forall label ls -> valid_name (fqdn ls) = true.
Proof.
  intros H. unfold valid_name. rewrite labels_of_fqdn, normalize_fqdn by done.
  rewrite String.eqb_refl. simpl. apply forallb_forall.
  intros l Hl%list_elem_of_In. rewrite Forall_forall in H.
  destruct (H l Hl) as (? & _ & _). by apply negb_true_iff, String.eqb_neq.
Qed.

(** * The operations on labels *)

Lemma str_join_length ls l :
  (String.length (str_join "." ls) <= String.length (str_join "." (l :: ls)))%nat.
Proof.
  destruct ls as [|l' ls]; [simpl; lia|].
  rewrite (join_cons l) by done. rewrite !app_length_str. lia.
Qed.

(** Any fuel that covers the text walks all the parents. *)
Lemma parents_join fuel l ls :
  (String.length (str_join "." (l :: ls)) <= fuel)%nat -> Forall label (l :: ls) ->
  parents fuel (str_join "." (l :: ls)) = fqdn <$> tails ls.
Proof.
  revert l ls. induction fuel as [|f IH]; intros l ls Hf Hl;
    inversion_clear Hl as [|?? Hl' Hls].
  { exfalso. destruct (str_join "." (l :: ls)) eqn:E; [|simpl in Hf; lia].
    by eapply join_nonempty. }
  destruct ls as [|l' ls].
  { destruct Hl' as (? & ? & ?). simpl. by rewrite split_once_free. }
  rewrite join_cons in Hf |- * by done. cbn [parents]. destruct Hl' as (Hne & Hfree & _).
  change ("." +:+ str_join "." (l' :: ls)) with (String "." (str_join "." (l' :: ls))).
  rewrite split_once_cons by done.
  case_match eqn:E; bool_hyps.
  { exfalso. inversion_clear Hls. by eapply join_nonempty. }
  rewrite IH; [done| |done]. rewrite !app_length_str in Hf.
  change (String.length ".") with 1%nat in Hf. lia.
Qed.

Lemma ancestor_names_fqdn ls :
  Forall label ls -> ancestor_names (fqdn ls) = fqdn <$> tails ls.
Proof.
  intros H. unfold ancestor_names. rewrite trim_fqdn by done.
  destruct ls as [|l ls]; [done|].
  case_match eqn:E; bool_hyps.
  { exfalso. inversion_clear H. by eapply join_nonempty. }
  by rewrite parents_join.
Qed.

(** First success over a list. *)
Fixpoint first_hit {A B} (f : A -> option B) (l : list A) : option B :=
  match l with
  | [] => None
  | x :: l' => match f x with Some b => Some b | None => first_hit f l' end
  end.

Lemma scan_suffixes_parents {A} (hit : string -> option A) fuel rest :
  scan_suffixes hit fuel rest = first_hit hit (parents fuel rest).
Proof.
  revert rest. induction fuel as [|f IH]; intros rest; simpl; [done|].
  destruct (split_once "." rest) as [[a parent]|]; [|done].
  destruct (parent =? "")%string; [done|]. simpl. by destruct (hit _).
Qed.

Lemma walk_suffixes_labels {A} (hit : string -> option A) name :
  valid_name name = true ->
  walk_suffixes hit name =
    match labels_of name with
    | [] => hit "."
    | ls => first_hit hit (fqdn <$> tails ls)
    end.
Proof.
  intros [Hn Hl]%valid_name_spec. unfold walk_suffixes. rewrite Hn.
  destruct (labels_of name) as [|l ls]; [simpl; by destruct (hit ".")|].
  rewrite trim_fqdn, scan_suffixes_parents, parents_join by done.
  simpl. by destruct (hit _).
Qed.

Lemma elem_tails ls ks : ks ∈ tails ls <-> ks <> [] /\ ks `suffix_of` ls.
Proof.
  induction ls as [|l ls IH]; simpl.
  - split; [set_solver|]. intros [Hne [p Hp]]. destruct p, ks; done.
  - rewrite elem_of_cons, IH. split.
    + intros [->|[? ?]]; [by split; [|reflexivity]|].
      split; [done|]. by apply suffix_cons_r.
    + intros [Hne Hs]. destruct ks as [|k ks]; [done|].
      apply suffix_cons_inv in Hs as [->|Hs]; auto.
Qed.

Lemma tails_label ls ks : Forall label ls -> ks ∈ tails ls -> Forall label ks.
Proof. intros H [_ [p ->]]%elem_tails. by apply Forall_app in H as [_ ?]. Qed.

Lemma first_hit_Some {A B} (f : A -> option B) l b :
  first_hit f l = Some b <->
  exists l1 x l2, l = l1 ++ x :: l2 /\ f x = Some b /\ Forall (fun y => f y = None) l1.
Proof.
  induction l as [|a l IH]; simpl.
  - split; [done|]. intros (l1 & x & l2 & H & _). by destruct l1.
  - destruct (f a) as [b'|] eqn:E.
    + split.
      * intros [= ->]. by exists [], a, l.
      * intros (l1 & x & l2 & H & Hx & Hn). destruct l1 as [|y l1]; simplify_eq/=; [congruence|].
        inversion_clear Hn. congruence.
    + rewrite IH. split.
      * intros (l1 & x & l2 & -> & Hx & Hn). exists (a :: l1), x, l2. auto.
      * intros (l1 & x & l2 & H & Hx & Hn). destruct l1 as [|y l1]; simplify_eq/=.
        inversion_clear Hn. by exists l1, x, l2.
Qed.

Lemma first_hit_None {A B} (f : A -> option B) l :
  first_hit f l = None <-> Forall (fun y => f y = None) l.
Proof.
  induction l as [|a l IH]; simpl; [by split; [constructor|]|].
  rewrite Forall_cons. destruct (f a); [split; [done|by intros [? ?]]|]. naive_solver.
Qed.

(** The tails of a list, taken in order, shrink. *)
Lemma tails_split ls l1 ks l2 js :
  tails ls = l1 ++ ks :: l2 -> js ∈ l2 -> js `suffix_of` ks.
Proof.
  revert l1. induction ls as [|l ls IH]; intros l1 H Hj; [by destruct l1|].
  destruct l1 as [|k l1]; simplify_eq/=; [|by eapply IH].
  apply elem_tails in Hj as [_ Hj]. by apply suffix_cons_r.
Qed.

Lemma tails_before ls l1 ks l2 js :
  tails ls = l1 ++ ks :: l2 -> js ∈ l1 -> (length ks < length js)%nat.
Proof.
  revert l1. induction ls as [|l ls IH]; intros l1 H Hj; [by destruct l1|].
  destruct l1 as [|k l1]; [by apply elem_of_nil in Hj|]. simpl in H. injection H as <- H.
  apply elem_of_cons in Hj as [->|Hj]; [|by eapply IH].
  assert (ks ∈ tails ls) as Hks by (rewrite H; set_solver).
  apply elem_tails in Hks as [_ Hks]. apply suffix_length in Hks. simpl. lia.
Qed.

(** [ends_with] on text is the suffix relation on labels. *)
Lemma ends_with_fqdn ls zs :
  zs <> [] -> Forall label ls -> Forall label zs ->
  ends_with ("." +:+ fqdn zs) (fqdn ls) = true <-> exists p, p <> [] /\ ls = p ++ zs.
Proof.
  intros Hz Hl Hzl. rewrite ends_with_spec. split.
  - intros [p Hp]. destruct ls as [|l ls].
    { exfalso. destruct zs as [|z zs]; [done|]. apply (f_equal String.length) in Hp.
      rewrite app_length_str in Hp. simpl in Hp. rewrite app_length_str in Hp.
      inversion_clear Hzl as [|?? Hz1 _]. pose proof (join_nonempty z zs Hz1) as Hj.
      destruct (str_join "." (z :: zs)); [done|]. simpl in Hp. lia. }
    assert (split_on "." (trim_end_matches "." (fqdn (l :: ls))) = l :: ls) as E.
    { rewrite trim_fqdn by done. apply split_join; [done|by apply label_free]. }
    assert (fqdn (l :: ls) = (p +:+ "." +:+ str_join "." zs) +:+ ".") as E'.
    { rewrite Hp. destruct zs; [done|]. unfold fqdn. by rewrite !app_assoc_str. }
    rewrite E', trim_end_snoc in E. rewrite trim_end_id in E.
    2:{ rewrite <- app_assoc_str. rewrite ends_with_char_app_r; [by apply join_ends|].
        destruct zs; [done|]. inversion_clear Hzl. by apply join_nonempty. }
    assert (forall q s, split_on "." (q +:+ String "." s) = split_on "." q ++ split_on "." s) as Hs.
    { intros q s. induction q as [|c q IHq]; simpl; [done|].
      destruct (Ascii.eqb c "."); [by rewrite IHq|]. rewrite IHq.
      pose proof (split_on_nonempty "." q). by destruct (split_on "." q). }
    change ("." +:+ str_join "." zs) with (String "." (str_join "." zs)) in E.
    rewrite Hs, split_join in E by (done || by apply label_free).
    exists (split_on "." p). split; [apply split_on_nonempty|done].
  - intros (p & Hp & ->). clear Hl. induction p as [|l p IH]; [done|].
    rewrite <- app_comm_cons. destruct p as [|l' p].
    + exists l. rewrite fqdn_cons. by destruct zs.
    + destruct IH as [q Hq]; [done|]. exists (l +:+ "." +:+ q).
      rewrite fqdn_cons. simpl ((l' :: p) ++ zs) in *. rewrite Hq. by rewrite !app_assoc_str.
Qed.

Lemma normalize_valid name : normalize_name (normalize_name name) = normalize_name name.
Proof. apply normalize_name_idem. Qed.

(** [name_in_zone] is the suffix relation on labels. *)
Lemma name_in_zone_labels name zone :
  valid_name name = true -> valid_name zone = true ->
  name_in_zone name zone = true <-> labels_of zone `suffix_of` labels_of name.
Proof.
  intros [Hn Hln]%valid_name_spec [Hz Hlz]%valid_name_spec.
  unfold name_in_zone. rewrite Hn, Hz.
  destruct (String.eqb_spec (fqdn (labels_of name)) (fqdn (labels_of zone))) as [E|E].
  { apply fqdn_inj in E; [|done..]. by rewrite E. }
  destruct (labels_of zone) as [|z zs] eqn:Ez.
  { simpl. split; [intros _; apply suffix_nil|done]. }
  destruct (String.eqb_spec (fqdn (z :: zs)) ".") as [E'|E'].
  { exfalso. change "." with (fqdn []) in E'. by apply fqdn_inj in E'. }
  rewrite ends_with_fqdn by done. split.
  - intros (p & _ & ->). by exists p.
  - intros [p Hp]. exists p. split; [|done]. intros ->. by rewrite Hp in E.
Qed.

Lemma make_wildcard_labels name :
  valid_name name = true ->
  make_wildcard_name (normalize_name name) =
    match labels_of name with
    | _ :: ((_ :: _) as ls) => Some (fqdn ("*" :: ls))
    | _ => None
    end.
Proof.
  intros [Hn Hl]%valid_name_spec. unfold make_wildcard_name. rewrite Hn, trim_fqdn by done.
  destruct (labels_of name) as [|l [|l' ls]]; [done| |].
  - inversion_clear Hl as [|?? (? & ? & ?) _]. simpl. by rewrite split_once_free.
  - inversion_clear Hl as [|?? (? & ? & ?) _].
    rewrite join_cons by done.
    change ("." +:+ str_join "." (l' :: ls)) with (String "." (str_join "." (l' :: ls))).
    rewrite split_once_cons by done. reflexivity.
Qed.

Lemma last_two_labels_labels ls :
  Forall label ls -> ls <> [] ->
  last_two_labels (str_join "." ls) = Some (fqdn (drop (length ls - 2) ls)).
Proof.
  intros Hl Hne. unfold last_two_labels.
  rewrite split_join by (done || by apply label_free).
  destruct (Nat.leb_spec 2 (length ls)) as [H2|H2].
  - f_equal. unfold fqdn. destruct (drop _ _) eqn:E; [|done].
    apply (f_equal length) in E. rewrite length_drop in E. simpl in E. lia.
  - destruct ls as [|l [|l' ls]]; [done| |simpl in H2; lia].
    inversion_clear Hl as [|?? (? & ? & ?) _]. simpl.
    by destruct (String.eqb_spec l "") as [->|].
Qed.

Lemma extract_zone_labels name z :
  valid_name name = true -> extract_zone_from_name name = Some z ->
  z = fqdn (drop (length (labels_of name) - 2) (labels_of name)) /\ labels_of name <> [].
Proof.
  intros [Hn Hl]%valid_name_spec. unfold extract_zone_from_name.
  case_match; [done|]. rewrite Hn, trim_fqdn by done.
  destruct (labels_of name) as [|l ls]; [done|].
  rewrite last_two_labels_labels by done. intros [= <-]. done.
Qed.

Lemma name_in_zone_normalize_l name zone :
  name_in_zone (normalize_name name) zone = name_in_zone name zone.
Proof. unfold name_in_zone. by rewrite normalize_name_idem. Qed.

(** * Properties *)

(** [name_in_zone] decides the label-suffix relation: a name is at or beneath a
    zone exactly when the zone's labels are the last labels of the name, in
    any case and with or without the trailing dot, so [notexample.com] is not
    in [example.com]. *)
Theorem name_in_zone_label_boundary name zone :
  valid_name name = true -> valid_name zone = true ->
  name_in_zone name zone = true <-> labels_of zone `suffix_of` labels_of name.
Proof. apply name_in_zone_labels. Qed.

Lemma name_in_zone_label_boundary_witness :
  (name_in_zone "WWW.Example.com" "example.com." = true <->
     labels_of "example.com." `suffix_of` labels_of "WWW.Example.com") /\
  name_in_zone "notexample.com." "example.com." = false.
Proof.
  split; [apply name_in_zone_label_boundary; vm_compute; reflexivity|].
  vm_compute; reflexivity.
Defined.

(** The managed zone a stored name implies always encloses the name, has at
    most two labels, and is never derived for a name under the reverse trees,
    so one stored PTR record never makes the server authoritative for the
    global reverse tree. *)
Theorem extract_zone_encloses name z :
  valid_name name = true -> extract_zone_from_name name = Some z ->
  name_in_zone name z = true /\ (1 <= length (labels_of z) <= 2)%nat /\
  name_in_zone name "in-addr.arpa." = false /\ name_in_zone name "ip6.arpa." = false.
Proof.
  intros Hv Hz. pose proof (valid_name_spec _ Hv) as [Hn Hl].
  assert (existsb (name_in_zone (normalize_name name)) REVERSE_SUFFIXES = false) as Hrev.
  { unfold extract_zone_from_name in Hz. by case_match. }
  destruct (extract_zone_labels _ _ Hv Hz) as [-> Hne].
  set (ls := labels_of name) in *. set (zs := drop (length ls - 2) ls).
  assert (Forall label zs) as Hzs by by apply Forall_drop.
  assert (length zs = Nat.min 2 (length ls)) as Hlen
    by (unfold zs; rewrite length_drop; lia).
  assert (length ls <> 0%nat) by by destruct ls.
  split; [|split].
  - apply name_in_zone_labels; [done|by apply fqdn_valid|].
    rewrite labels_of_fqdn by done. exists (take (length ls - 2) ls).
    unfold zs. by rewrite take_drop.
  - rewrite labels_of_fqdn by done. lia.
  - unfold REVERSE_SUFFIXES in Hrev. cbn [existsb] in Hrev. bool_hyps.
    by rewrite <- !(name_in_zone_normalize_l name).
Qed.

Lemma extract_zone_encloses_witness :
  extract_zone_from_name "www.Sub.example.com" = Some "example.com." /\
  name_in_zone "www.Sub.example.com" "example.com." = true /\
  extract_zone_from_name "4.3.2.1.in-addr.arpa." = None.
Proof.
  split; [vm_compute; reflexivity|split; [|vm_compute; reflexivity]].
  apply (extract_zone_encloses "www.Sub.example.com" "example.com.");
    vm_compute; reflexivity.
Defined.
