(* ===== verification/Ip.v ===== *)
(** IP addresses: the standard library's [IpAddr] with its text forms, the
    CIDR matcher of [src/src/cidr.rs], and the reverse-DNS names of
    [src/src/db.rs] and [src/src/dns_server.rs]. *)

From S2P Require Import Prelude RustStr Names.
From stdpp Require Import base countable gmap list option strings.
From Stdlib Require Import ZArith Lia Bool Ascii.

Open Scope Z_scope.

(** * Addresses *)

(** An IPv4 address is a [u32], an IPv6 address a [u128]. *)
Inductive IpAddr : Type :=
| V4 (a : Z)
| V6 (a : Z).

#[export] Instance IpAddr_eq_dec : EqDecision IpAddr.
Proof. solve_decision. Defined.

#[export] Instance ip_countable : Countable IpAddr.
Proof.
  refine (inj_countable' (fun ip => match ip with V4 a => (true, a) | V6 a => (false, a) end)
    (fun p => match p with (true, a) => V4 a | (false, a) => V6 a end) _).
  by intros [].
Defined.

Definition ip_width (ip : IpAddr) : Z := match ip with V4 _ => 32 | V6 _ => 128 end.
Definition ip_bits (ip : IpAddr) : Z := match ip with V4 a => a | V6 a => a end.
Definition ip_wf (ip : IpAddr) : Prop := is_u (ip_width ip) (ip_bits ip).

#[export] Instance ip_wf_dec ip : Decision (ip_wf ip).
Proof. unfold ip_wf, is_u. apply _. Defined.

(** Big-endian bytes, as [octets()] and [from(bytes)] give them. *)
Fixpoint be_bytes (n : nat) (z : Z) : list Z :=
  match n with
  | O => []
  | S n' => (z / 256 ^ Z.of_nat n') mod 256 :: be_bytes n' z
  end.

Definition of_be_bytes (l : list Z) : Z := foldl (fun acc b => acc * 256 + b) 0 l.

Definition octets (ip : IpAddr) : list Z :=
  match ip with V4 a => be_bytes 4 a | V6 a => be_bytes 16 a end.

(** [IpAddr::to_canonical]: an IPv4-mapped IPv6 address becomes its IPv4
    address. *)
Definition to_canonical (ip : IpAddr) : IpAddr :=
  match ip with
  | V4 a => V4 a
  | V6 a => if a / 2 ^ 32 =? 65535 then V4 (a mod 2 ^ 32) else V6 a
  end.

(** * Numbers as text *)

Definition digit_char (d : Z) : ascii :=
  ascii_of_nat (Z.to_nat (if d <? 10 then 48 + d else 87 + d)).

Definition digit_value (c : ascii) : option Z :=
  let n := Z.of_nat (nat_of_ascii c) in
  if (48 <=? n) && (n <=? 57) then Some (n - 48)
  else if (97 <=? n) && (n <=? 102) then Some (n - 87)
  else if (65 <=? n) && (n <=? 70) then Some (n - 55)
  else None.

(** A number in a base, most significant digit first. *)
Fixpoint show_digits (fuel : nat) (base n : Z) (acc : string) : string :=
  match fuel with
  | O => acc
  | S f =>
      let acc' := String (digit_char (n mod base)) acc in
      if n <? base then acc' else show_digits f base (n / base) acc'
  end.

(** Forty digits are enough for any [u128]. *)
Definition show_dec (n : Z) : string := show_digits 40 10 n "".
Definition show_hex (n : Z) : string := show_digits 40 16 n "".

(** The digits of a string in a base. *)
Fixpoint read_digits (base acc : Z) (s : string) : option Z :=
  match s with
  | EmptyString => Some acc
  | String c s' =>
      match digit_value c with
      | Some d => if d <? base then read_digits base (acc * base + d) s' else None
      | None => None
      end
  end.

(** [from_str_radix] of an unsigned type: an optional [+], at least one digit,
    a value in range. *)
Definition parse_uint (base max : Z) (s : string) : option Z :=
  let t := match s with
           | String c s' => if Ascii.eqb c "+" then s' else s
           | EmptyString => s
           end in
  if (t =? "")%string then None
  else match read_digits base 0 t with
       | Some v => if v <=? max then Some v else None
       | None => None
       end.

(** [i64::from_str]. *)
Definition parse_i64 (s : string) : option Z :=
  match s with
  | String c s' => if Ascii.eqb c "-" then (if free_of "+" s' then Z.opp <$> parse_uint 10 (i64_max + 1) s' else None)
                   else parse_uint 10 i64_max s
  | EmptyString => None
  end.

(** * Addresses as text *)

(** An octet of a dotted quad: one to three digits, no leading zero. *)
Definition parse_v4_octet (s : string) : option Z :=
  if ((1 <=? String.length s) && (String.length s <=? 3))%nat
     && ((s =? "0")%string || negb (starts_with "0" s))
  then match read_digits 10 0 s with
       | Some v => if v <=? 255 then Some v else None
       | None => None
       end
  else None.

Definition parse_v4 (s : string) : option Z :=
  match split_on "." s with
  | [a; b; c; d] =>
      match parse_v4_octet a, parse_v4_octet b, parse_v4_octet c, parse_v4_octet d with
      | Some a, Some b, Some c, Some d => Some (of_be_bytes [a; b; c; d])
      | _, _, _, _ => None
      end
  | _ => None
  end.

Definition show_v4 (a : Z) : string := str_join "." (show_dec <$> be_bytes 4 a).

(** A group of an IPv6 address: one to four hex digits. *)
Definition parse_v6_group (s : string) : option Z :=
  if ((1 <=? String.length s) && (String.length s <=? 4))%nat
  then read_digits 16 0 s else None.

(** Groups separated by colons; the last may be a dotted quad, two groups. *)
Fixpoint parse_v6_groups (gs : list string) : option (list Z) :=
  match gs with
  | [] => Some []
  | [g] =>
      match parse_v6_group g with
      | Some v => Some [v]
      | None => match parse_v4 g with
                | Some a => Some [a / 65536; a mod 65536]
                | None => None
                end
      end
  | g :: gs' =>
      match parse_v6_group g, parse_v6_groups gs' with
      | Some v, Some vs => Some (v :: vs)
      | _, _ => None
      end
  end.

Definition parse_v6_part (s : string) : option (list Z) :=
  if (s =? "")%string then Some [] else parse_v6_groups (split_on ":" s).

(** The text before and after the first [::]. *)
Fixpoint split_double_colon (s : string) : option (string * string) :=
  match s with
  | String ":" (String ":" t) => Some (EmptyString, t)
  | String c s' =>
      match split_double_colon s' with
      | Some (a, b) => Some (String c a, b)
      | None => None
      end
  | EmptyString => None
  end.

Definition of_groups (gs : list Z) : Z := foldl (fun acc g => acc * 65536 + g) 0 gs.

(** A dotted quad may only end the whole address. *)
Definition parse_v6 (s : string) : option Z :=
  match split_double_colon s with
  | None =>
      match parse_v6_part s with
      | Some gs => if (length gs =? 8)%nat then Some (of_groups gs) else None
      | None => None
      end
  | Some (h, t) =>
      match parse_v6_part h, parse_v6_part t with
      | Some hs, Some ts =>
          if ((length hs + length ts <=? 7)%nat) && free_of "." h
          then Some (of_groups (hs ++ replicate (8 - length hs - length ts)%nat 0 ++ ts))
          else None
      | _, _ => None
      end
  end.

(** [IpAddr::from_str]. *)
Definition parse_ip (s : string) : option IpAddr :=
  match parse_v4 s with
  | Some a => Some (V4 a)
  | None => V6 <$> parse_v6 s
  end.

(** The eight groups of an IPv6 address. *)
Definition groups (a : Z) : list Z :=
  (fun i => (a / 65536 ^ i) mod 65536) <$> [7; 6; 5; 4; 3; 2; 1; 0].

(** The longest run of zero groups, the first on a tie: start and length. *)
Fixpoint longest_zero_run (gs : list Z) (i cur best_at best : nat) : nat * nat :=
  match gs with
  | [] => (best_at, best)
  | g :: gs' =>
      if g =? 0 then
        let cur' := S cur in
        if (best <? cur')%nat then longest_zero_run gs' (S i) cur' (S i - cur')%nat cur'
        else longest_zero_run gs' (S i) cur' best_at best
      else longest_zero_run gs' (S i) 0 best_at best
  end.

(** [Ipv6Addr]'s [Display]. *)
Definition show_v6 (a : Z) : string :=
  if a / 2 ^ 32 =? 65535 then "::ffff:" +:+ show_v4 (a mod 2 ^ 32)
  else
    let gs := groups a in
    let '(at_, len) := longest_zero_run gs 0 0 0 0 in
    if (1 <? len)%nat
    then str_join ":" (show_hex <$> take at_ gs) +:+ "::" +:+
         str_join ":" (show_hex <$> drop (at_ + len)%nat gs)
    else str_join ":" (show_hex <$> gs).

(** [ip.to_string()]. *)
Definition ip_to_string (ip : IpAddr) : string :=
  match ip with V4 a => show_v4 a | V6 a => show_v6 a end.

(** [SocketAddr]: an address and a port. *)
Record SocketAddr := mkSocket { so_ip : IpAddr; so_port : Z }.

#[export] Instance SocketAddr_eq_dec : EqDecision SocketAddr.
Proof. solve_decision. Defined.

(** Its [FromStr]: a dotted quad or a bracketed IPv6 address, a colon, a port.
    Zone identifiers within the brackets are not accepted here. *)
Definition parse_socket_addr (s : string) : option SocketAddr :=
  match rsplit_once ":" s with
  | None => None
  | Some (host, port) =>
      match read_digits 10 0 port with
      | Some p =>
          if (port =? "")%string || negb (p <=? u16_max) then None
          else match parse_v4 host with
               | Some a => Some (mkSocket (V4 a) p)
               | None =>
                   match str_strip_prefix "[" host with
                   | Some h =>
                       match str_strip_suffix "]" h with
                       | Some v6 => (fun a => mkSocket (V6 a) p) <$> parse_v6 v6
                       | None => None
                       end
                   | None => None
                   end
               end
      | None => None
      end
  end.

(** Its [Display]. *)
Definition socket_to_string (a : SocketAddr) : string :=
  match so_ip a with
  | V4 v => show_v4 v +:+ ":" +:+ show_dec (so_port a)
  | V6 v => "[" +:+ show_v6 v +:+ "]:" +:+ show_dec (so_port a)
  end.

(** * CIDR networks ([src/src/cidr.rs]) *)

(** [str::trim] on ASCII whitespace. *)
Definition is_space (c : ascii) : bool :=
  let n := nat_of_ascii c in ((9 <=? n) && (n <=? 13) || (n =? 32))%nat.

Fixpoint trim_start (s : string) : string :=
  match s with
  | String c s' => if is_space c then trim_start s' else s
  | EmptyString => EmptyString
  end.

Fixpoint trim_end (s : string) : string :=
  match s with
  | EmptyString => EmptyString
  | String c s' =>
      match trim_end s' with
      | EmptyString => if is_space c then EmptyString else String c EmptyString
      | t => String c t
      end
  end.

Definition str_trim (s : string) : string := trim_end (trim_start s).

Record IpCidr := { cidr_base : IpAddr; cidr_prefix : Z }.

(** [mask]: zeroes the bits below the top [prefix]. *)
Definition mask (ip : IpAddr) (prefix : Z) : IpAddr :=
  match ip with
  | V4 a =>
      let m := if prefix =? 0 then 0 else as_u 32 (Z.shiftl u32_max (32 - prefix)) in
      V4 (Z.land a m)
  | V6 a =>
      let m := if prefix =? 0 then 0 else as_u 128 (Z.shiftl (2 ^ 128 - 1) (128 - prefix)) in
      V6 (Z.land a m)
  end.

Inductive cidr_error := MissingPrefix | InvalidIp | InvalidPrefix | PrefixTooLong.

(** [IpCidr::parse]. *)
Definition cidr_parse (s : string) : result IpCidr cidr_error :=
  match split_once "/" s with
  | None => Err MissingPrefix
  | Some (addr_str, len_str) =>
      match parse_ip (str_trim addr_str) with
      | None => Err InvalidIp
      | Some base =>
          match parse_uint 10 u8_max (str_trim len_str) with
          | None => Err InvalidPrefix
          | Some prefix =>
              let max := match base with V4 _ => 32 | V6 _ => 128 end in
              if max <? prefix then Err PrefixTooLong
              else Ok {| cidr_base := mask base prefix; cidr_prefix := prefix |}
          end
      end
  end.

(** [IpCidr::contains]. *)
Definition contains (c : IpCidr) (ip : IpAddr) : bool :=
  match cidr_base c, ip with
  | V4 _, V4 _ | V6 _, V6 _ => bool_decide (mask ip (cidr_prefix c) = cidr_base c)
  | _, _ => false
  end.

(** [default_overlay_cidrs] and [default_recursion_cidrs]
    ([src/src/dns_server.rs]); [expect] cannot fail on these literals. *)
Definition expect_cidrs (specs : list string) : list IpCidr :=
  omap (fun s => match cidr_parse s with Ok c => Some c | Err _ => None end) specs.

Definition default_overlay_cidrs : list IpCidr := expect_cidrs ["10.64.0.0/10"].

Definition default_recursion_cidrs : list IpCidr :=
  expect_cidrs ["127.0.0.0/8"; "10.0.0.0/8"; "172.16.0.0/12"; "192.168.0.0/16";
    "169.254.0.0/16"; "100.64.0.0/10"; "::1/128"; "fe80::/10"; "fc00::/7"].

(** * Reverse names *)

(** [reverse_ptr_name]. *)
Definition reverse_ptr_name (ip : IpAddr) : string :=
  match ip with
  | V4 _ =>
      str_join "." (show_dec <$> rev (octets ip)) +:+ ".in-addr.arpa."
  | V6 _ =>
      foldr (fun byte acc =>
        String (digit_char (Z.land byte 15)) (String "." (
        String (digit_char (Z.shiftr byte 4)) (String "." acc))))
        "ip6.arpa." (rev (octets ip))
  end.

(** The byte loop of the IPv6 branch of [extract_ip_from_name]: nibbles from the
    last label back, two per byte, each shift keeping eight bits. *)
Fixpoint nibbles_to_bytes (n : nat) (rev_nibbles : list string) : option (list Z) :=
  match n, rev_nibbles with
  | O, _ => Some []
  | S n', hi :: lo :: rest =>
      match parse_uint 16 u8_max hi, parse_uint 16 u8_max lo with
      | Some high, Some low =>
          match nibbles_to_bytes n' rest with
          | Some bs => Some (Z.lor (as_u 8 (Z.shiftl high 4)) low :: bs)
          | None => None
          end
      | _, _ => None
      end
  | S _, _ => None
  end.

(** [extract_ip_from_name]. *)
Definition extract_ip_from_name (name : string) : option IpAddr :=
  let name := trim_end_matches "." name in
  let v4 :=
    match str_strip_suffix ".in-addr.arpa" name with
    | Some stripped =>
        let parts := split_on "." stripped in
        if (length parts =? 4)%nat then
          let octets := omap (parse_uint 10 u8_max) (rev parts) in
          if (length octets =? 4)%nat then Some (V4 (of_be_bytes octets)) else None
        else None
    | None => None
    end in
  match v4 with
  | Some ip => Some ip
  | None =>
      match str_strip_suffix ".ip6.arpa" name with
      | Some stripped =>
          let nibbles := split_on "." stripped in
          if (length nibbles =? 32)%nat then
            match nibbles_to_bytes 16 (rev nibbles) with
            | Some bytes => Some (V6 (of_be_bytes bytes))
            | None => None
            end
          else None
      | None => None
      end
  end.

(** * Bytes *)

Lemma of_be_bytes_acc acc l :
  foldl (fun acc b => acc * 256 + b) acc l = acc * 256 ^ Z.of_nat (length l) + of_be_bytes l.
Proof.
  unfold of_be_bytes. revert acc. induction l as [|b l IH]; intros acc; simpl foldl.
  - simpl length. lia.
  - rewrite IH, (IH (0 * 256 + b)). simpl length. rewrite Nat2Z.inj_succ, Z.pow_succ_r by lia.
    ring.
Qed.

Lemma of_be_bytes_cons b l :
  of_be_bytes (b :: l) = b * 256 ^ Z.of_nat (length l) + of_be_bytes l.
Proof. unfold of_be_bytes at 1. simpl foldl. rewrite of_be_bytes_acc. ring. Qed.

Lemma length_be_bytes n z : length (be_bytes n z) = n.
Proof. induction n; simpl; lia. Qed.

Lemma be_bytes_range n z : Forall (is_u 8) (be_bytes n z).
Proof.
  induction n; simpl; constructor; [|done]. unfold is_u. apply Z.mod_pos_bound. lia.
Qed.

(** The bytes of a number give it back, up to the width. *)
Lemma of_be_bytes_be_bytes n z : of_be_bytes (be_bytes n z) = z mod 256 ^ Z.of_nat n.
Proof.
  induction n as [|n IH]; [by rewrite Z.mod_1_r|].
  cbn [be_bytes]. rewrite of_be_bytes_cons, length_be_bytes, IH.
  rewrite Nat2Z.inj_succ, Z.pow_succ_r by lia.
  rewrite (Z.mul_comm 256), Z.rem_mul_r by lia. ring.
Qed.

Lemma of_octets ip : ip_wf ip -> of_be_bytes (octets ip) = ip_bits ip.
Proof.
  destruct ip; unfold ip_wf, is_u; cbn [ip_width ip_bits octets]; intros.
  - rewrite of_be_bytes_be_bytes. by apply Z.mod_small.
  - rewrite of_be_bytes_be_bytes. by apply Z.mod_small.
Qed.

(** A boolean fact about all bytes is checked by running it on each. *)
Lemma byte_forall (P : Z -> bool) :
  forallb P (seqZ 0 256) = true -> forall b, is_u 8 b -> P b = true.
Proof.
  unfold is_u. intros H b Hb. rewrite forallb_forall in H.
  apply H, list_elem_of_In, elem_of_seqZ. lia.
Qed.

Lemma digit_value_char d : 0 <= d < 16 -> digit_value (digit_char d) = Some d.
Proof.
  intros Hd. assert (bool_decide (digit_value (digit_char d) = Some d) = true) as H.
  { assert (d ∈ seqZ 0 16) as Hin by (apply elem_of_seqZ; lia).
    assert (forallb (fun d => bool_decide (digit_value (digit_char d) = Some d)) (seqZ 0 16) = true)
      as Hall by (vm_compute; reflexivity).
    rewrite forallb_forall in Hall. by apply Hall, list_elem_of_In. }
  by bool_hyps.
Qed.

(** Reading a number's digits back. *)
Lemma read_show_digits b f n s :
  2 <= b <= 16 -> 0 <= n < b ^ Z.of_nat f ->
  exists k, forall acc, read_digits b acc (show_digits f b n s) = read_digits b (acc * k + n) s.
Proof.
  intros Hb. revert n s. induction f as [|f IH]; intros n s Hn; [simpl in Hn; exists 1; intros; f_equal; lia|].
  rewrite Nat2Z.inj_succ, Z.pow_succ_r in Hn by lia. cbn [show_digits].
  assert (0 <= n mod b < b) as Hm by (apply Z.mod_pos_bound; lia).
  assert (forall a s', read_digits b a (String (digit_char (n mod b)) s') =
            read_digits b (a * b + n mod b) s') as Hr.
  { intros a s'. cbn [read_digits]. rewrite digit_value_char by lia.
    by rewrite (proj2 (Z.ltb_lt _ _)) by lia. }
  destruct (n <? b) eqn:E; bool_hyps.
  - exists b. intros acc. rewrite Hr. by rewrite Z.mod_small by lia.
  - destruct (IH (n / b) (String (digit_char (n mod b)) s)) as [k Hk].
    { split; [apply Z.div_pos; lia|]. apply Z.div_lt_upper_bound; lia. }
    exists (k * b). intros acc. rewrite Hk, Hr. f_equal.
    pose proof (Z.div_mod n b). lia.
Qed.

Lemma show_digits_read f n s :
  0 <= n < 10 ^ Z.of_nat f ->
  exists k, forall acc, read_digits 10 acc (show_digits f 10 n s) = read_digits 10 (acc * k + n) s.
Proof. by apply read_show_digits. Qed.

Definition is_digit (c : ascii) : bool :=
  let n := nat_of_ascii c in ((48 <=? n) && (n <=? 57))%nat.

Lemma digit_char_digit d : 0 <= d < 10 -> is_digit (digit_char d) = true.
Proof.
  intros Hd. assert (d ∈ seqZ 0 10) as Hin by (apply elem_of_seqZ; lia).
  assert (forallb (fun d => is_digit (digit_char d)) (seqZ 0 10) = true)
    as Hall by (vm_compute; reflexivity).
  rewrite forallb_forall in Hall. by apply Hall, list_elem_of_In.
Qed.

Lemma trim_end_solid s : str_forall (fun c => negb (is_space c)) s = true -> trim_end s = s.
Proof.
  induction s as [|c s IH]; [done|]. simpl. intros [Hc Hs]%andb_true_iff. rewrite IH by done.
  destruct s; [|done]. by destruct (is_space c).
Qed.

Lemma str_trim_solid s : str_forall (fun c => negb (is_space c)) s = true -> str_trim s = s.
Proof.
  intros H. unfold str_trim. assert (trim_start s = s) as ->; [|by apply trim_end_solid].
  destruct s as [|c s]; [done|]. simpl in *. apply andb_true_iff in H as [Hc _]. by destruct (is_space c).
Qed.

Lemma show_digits_digits f n s :
  str_forall is_digit s = true -> str_forall is_digit (show_digits f 10 n s) = true.
Proof.
  revert n s. induction f as [|f IH]; intros n s Hs; [done|]. cbn [show_digits].
  assert (str_forall is_digit (String (digit_char (n mod 10)) s) = true) as H.
  { cbn [str_forall]. rewrite digit_char_digit; [done|]. apply Z.mod_pos_bound. lia. }
  case_match; [done|]. by apply IH.
Qed.

Lemma show_dec_digits n : str_forall is_digit (show_dec n) = true.
Proof. by apply show_digits_digits. Qed.

Lemma show_digits_length f n s :
  (String.length s <= String.length (show_digits f 10 n s))%nat.
Proof.
  revert n s. induction f as [|f IH]; intros n s; [done|]. cbn [show_digits].
  case_match; simpl; [lia|]. specialize (IH (n / 10) (String (digit_char (n mod 10)) s)).
  simpl in IH. lia.
Qed.

Lemma show_digits_nonempty f n s : show_digits (S f) 10 n s <> "".
Proof.
  intros H. apply (f_equal String.length) in H. revert H. cbn [show_digits].
  case_match; simpl; [done|].
  pose proof (show_digits_length f (n / 10) (String (digit_char (n mod 10)) s)) as Hl.
  simpl in Hl. lia.
Qed.

Lemma show_dec_nonempty n : show_dec n <> "".
Proof. exact (show_digits_nonempty 39 n ""). Qed.

(** A number in range reads back from its decimal text. *)
Lemma parse_show_dec max n : 0 <= n <= max -> n < 10 ^ 40 -> parse_uint 10 max (show_dec n) = Some n.
Proof.
  intros Hn Hb. unfold parse_uint. pose proof (show_dec_nonempty n) as Hne.
  pose proof (show_dec_digits n) as Hd.
  destruct (show_digits_read 40 n "") as [k Hk]; [lia|].
  specialize (Hk 0). fold (show_dec n) in Hk. cbn [read_digits] in Hk.
  replace (0 * k + n) with n in Hk by lia.
  destruct (show_dec n) as [|c s]; [done|]. simpl in Hd. bool_hyps.
  destruct (Ascii.eqb_spec c "+") as [->|_]; [vm_compute in H; discriminate|].
  destruct (String.eqb_spec (String c s) ""); [done|]. rewrite Hk.
  by rewrite (proj2 (Z.leb_le _ _)) by lia.
Qed.

(** The decimal text of a byte: no dots, not empty, and both parsers read it. *)
Lemma show_dec_byte b :
  is_u 8 b ->
  free_of "." (show_dec b) = true /\ show_dec b <> "" /\
  parse_uint 10 u8_max (show_dec b) = Some b /\ parse_v4_octet (show_dec b) = Some b.
Proof.
  intros Hb.
  assert (free_of "." (show_dec b) && negb (show_dec b =? "")%string &&
    bool_decide (parse_uint 10 u8_max (show_dec b) = Some b) &&
    bool_decide (parse_v4_octet (show_dec b) = Some b) = true) as H.
  { revert b Hb. apply byte_forall. vm_compute. reflexivity. }
  bool_hyps. done.
Qed.

Lemma byte_digits_free l :
  Forall (is_u 8) l -> Forall (fun s => free_of "." s = true) (show_dec <$> l).
Proof.
  intros H. rewrite Forall_fmap. eapply Forall_impl; [exact H|].
  intros b Hb. by apply show_dec_byte.
Qed.

Lemma omap_cons_str {A} (f : string -> option A) x k :
  omap f (x :: k) = match f x with Some y => y :: omap f k | None => omap f k end.
Proof. done. Qed.

Lemma omap_parse_bytes l :
  Forall (is_u 8) l -> omap (parse_uint 10 u8_max) (show_dec <$> l) = l.
Proof.
  induction 1 as [|b l Hb _ IH]; [done|]. rewrite fmap_cons.
  rewrite omap_cons_str.
  destruct (show_dec_byte b Hb) as (_ & _ & -> & _). by rewrite IH.
Qed.

Lemma show_v4_parse a : is_u 32 a -> parse_v4 (show_v4 a) = Some a.
Proof.
  intros Ha. unfold parse_v4, show_v4.
  pose proof (be_bytes_range 4 a) as Hr. pose proof (of_octets (V4 a) Ha) as Ho.
  rewrite split_join; [|done|by apply byte_digits_free].
  cbn [octets ip_bits be_bytes] in Hr, Ho |- *. simpl fmap.
  repeat (apply Forall_cons in Hr as [?Hb Hr]).
  repeat match goal with H : is_u 8 _ |- _ =>
    apply show_dec_byte in H as (_ & _ & _ & ->) end.
  by rewrite Ho.
Qed.

(** * Networks *)

Lemma shl_mask w p :
  0 < p <= w -> as_u w (Z.shiftl (2 ^ w - 1) (w - p)) = Z.shiftl (Z.ones p) (w - p).
Proof.
  intros Hp. rewrite !Z.shiftl_mul_pow2, Z.ones_equiv by lia. unfold as_u.
  assert (2 ^ w = 2 ^ p * 2 ^ (w - p)) as Hw by (rewrite <- Z.pow_add_r by lia; f_equal; lia).
  assert (0 < 2 ^ p) by lia. assert (0 < 2 ^ (w - p)) by lia.
  symmetry. apply (Z.mod_unique _ _ (2 ^ (w - p) - 1)); [left|]; nia.
Qed.

Lemma land_shl_ones a k p :
  0 <= k -> 0 <= p -> 0 <= a < 2 ^ (p + k) ->
  Z.land a (Z.shiftl (Z.ones p) k) = a / 2 ^ k * 2 ^ k.
Proof.
  intros Hk Hp Ha. rewrite <- Z.shiftl_mul_pow2, <- Z.shiftr_div_pow2 by lia.
  assert (Z.land (Z.shiftr a k) (Z.ones p) = Z.shiftr a k) as E.
  { rewrite Z.land_ones by lia. apply Z.mod_small. rewrite Z.shiftr_div_pow2 by lia.
    split; [apply Z.div_pos; lia|]. apply Z.div_lt_upper_bound; [lia|].
    rewrite <- Z.pow_add_r by lia. replace (k + p) with (p + k) by lia. lia. }
  rewrite <- E. rewrite Z.shiftl_land. apply Z.bits_inj'. intros n Hn.
  rewrite !Z.land_spec, !Z.shiftl_spec by lia.
  destruct (Z.leb_spec k n) as [Hkn|Hkn].
  - rewrite Z.shiftr_spec by lia. by replace (n - k + k) with n by lia.
  - rewrite (Z.testbit_neg_r _ (n - k)) by lia. by rewrite !andb_false_r.
Qed.

(** Masking rounds down to a multiple of the network's size. *)
Lemma mask_bits ip p :
  ip_wf ip -> 0 <= p <= ip_width ip ->
  ip_bits (mask ip p) = ip_bits ip / 2 ^ (ip_width ip - p) * 2 ^ (ip_width ip - p) /\
  ip_width (mask ip p) = ip_width ip.
Proof.
  intros Hip Hp. split; [|by destruct ip].
  destruct ip as [a|a]; unfold ip_wf, is_u in Hip; cbn [ip_width ip_bits mask] in *.
  - destruct (Z.eqb_spec p 0) as [->|Hp0].
    + rewrite Z.land_0_r, Z.sub_0_r, Z.div_small; lia.
    + change u32_max with (2 ^ 32 - 1). rewrite shl_mask by lia.
      apply land_shl_ones; [lia..|]. by replace (p + (32 - p)) with 32 by lia.
  - destruct (Z.eqb_spec p 0) as [->|Hp0].
    + rewrite Z.land_0_r, Z.sub_0_r, Z.div_small; lia.
    + rewrite shl_mask by lia.
      apply land_shl_ones; [lia..|]. by replace (p + (128 - p)) with 128 by lia.
Qed.

(** A network as the parser builds it: the prefix fits and the base has no host
    bits. *)
Definition cidr_wf (c : IpCidr) : Prop :=
  0 <= cidr_prefix c <= ip_width (cidr_base c) /\ ip_wf (cidr_base c) /\
  (2 ^ (ip_width (cidr_base c) - cidr_prefix c) | ip_bits (cidr_base c)).

Lemma mask_inj_family ip jp p :
  ip_width (mask ip p) = ip_width (mask jp p) -> ip_bits (mask ip p) = ip_bits (mask jp p) ->
  mask ip p = mask jp p.
Proof. destruct ip, jp; simpl; intros; simplify_eq; congruence. Qed.

Lemma contains_range c ip :
  cidr_wf c -> ip_wf ip ->
  contains c ip = true <->
    ip_width ip = ip_width (cidr_base c) /\
    ip_bits (cidr_base c) <= ip_bits ip <
      ip_bits (cidr_base c) + 2 ^ (ip_width (cidr_base c) - cidr_prefix c).
Proof.
  intros (Hp & Hb & [q Hq]) Hip.
  set (k := 2 ^ (ip_width (cidr_base c) - cidr_prefix c)) in *.
  assert (0 < k) as Hk by (unfold k; lia).
  assert (ip_width ip = ip_width (cidr_base c) ->
    mask ip (cidr_prefix c) = cidr_base c <->
    ip_bits ip / k * k = ip_bits (cidr_base c)) as Hmask.
  { intros Hw. destruct (mask_bits ip (cidr_prefix c) Hip) as [E1 E2]; [by rewrite Hw|].
    rewrite Hw in E1. fold k in E1. rewrite <- E1. split; [by intros ->|].
    intros E. destruct ip, (cidr_base c); simpl in *; congruence. }
  assert (ip_bits ip / k * k = ip_bits (cidr_base c) <->
    ip_bits (cidr_base c) <= ip_bits ip < ip_bits (cidr_base c) + k) as Hdiv.
  { pose proof (Z.div_mod (ip_bits ip) k) as Hdm.
    pose proof (Z.mod_pos_bound (ip_bits ip) k Hk). rewrite Hq. split; [nia|].
    intros. rewrite (Z.div_unique (ip_bits ip) k q (ip_bits ip - q * k)); lia. }
  unfold contains.
  destruct (cidr_base c) as [b|b] eqn:Eb, ip as [a|a];
    try (split; [done|intros [? _]; done]);
    rewrite bool_decide_eq_true, Hmask by done; rewrite Hdiv; naive_solver.
Qed.

(** * What the parsers return *)

Lemma digit_value_nonneg c d : digit_value c = Some d -> 0 <= d < 16.
Proof. unfold digit_value. intros. repeat case_match; simplify_eq; bool_hyps; lia. Qed.

Lemma read_digits_bound base acc s v :
  1 < base -> 0 <= acc -> read_digits base acc s = Some v ->
  0 <= v < (acc + 1) * base ^ Z.of_nat (String.length s).
Proof.
  intros Hb. revert acc. induction s as [|c s IH]; intros acc Ha; simpl.
  - intros [= <-]. lia.
  - destruct (digit_value c) as [d|] eqn:Ed; [|done].
    destruct (Z.ltb_spec d base); [|done]. apply digit_value_nonneg in Ed.
    intros [H0 H1]%IH; [|nia]. split; [done|].
    rewrite Nat2Z.inj_succ, Z.pow_succ_r by lia.
    assert (0 < base ^ Z.of_nat (String.length s)) by lia. nia.
Qed.

Lemma parse_uint_bound base max s v :
  1 < base -> parse_uint base max s = Some v -> 0 <= v <= max.
Proof.
  intros Hb. unfold parse_uint. intros. repeat case_match; simplify_eq; bool_hyps;
    match goal with H : read_digits _ _ _ = Some _ |- _ =>
      apply read_digits_bound in H; lia end.
Qed.

Lemma parse_v4_octet_bound s v : parse_v4_octet s = Some v -> is_u 8 v.
Proof.
  unfold parse_v4_octet, is_u. intros. repeat case_match; simplify_eq; bool_hyps;
    match goal with H : read_digits _ _ _ = Some _ |- _ =>
      apply read_digits_bound in H; lia end.
Qed.

Lemma of_be_bytes_bound l :
  Forall (is_u 8) l -> 0 <= of_be_bytes l < 256 ^ Z.of_nat (length l).
Proof.
  induction 1 as [|b l Hb _ IH]; [done|]. rewrite of_be_bytes_cons.
  unfold is_u in Hb. simpl length. rewrite Nat2Z.inj_succ, Z.pow_succ_r by lia. nia.
Qed.

Lemma parse_v4_bound s a : parse_v4 s = Some a -> is_u 32 a.
Proof.
  unfold parse_v4. intros H. repeat case_match; simplify_eq.
  repeat match goal with H : parse_v4_octet _ = Some _ |- _ =>
    apply parse_v4_octet_bound in H end.
  apply (of_be_bytes_bound [_; _; _; _]). repeat (apply Forall_cons_2; [done|]); apply Forall_nil_2.
Qed.

Lemma parse_v6_group_bound s v : parse_v6_group s = Some v -> is_u 16 v.
Proof.
  unfold parse_v6_group, is_u. case_match; [|done]. bool_hyps. intros H1.
  apply read_digits_bound in H1; [|lia..].
  assert (16 ^ Z.of_nat (String.length s) <= 16 ^ 4) by (apply Z.pow_le_mono_r; lia). lia.
Qed.

Lemma parse_v6_groups_bound gs vs : parse_v6_groups gs = Some vs -> Forall (is_u 16) vs.
Proof.
  revert vs. induction gs as [|g gs IH]; intros vs; [by intros [= <-]|].
  destruct gs as [|g' gs].
  - simpl. destruct (parse_v6_group g) as [v|] eqn:E.
    + intros [= <-]. apply parse_v6_group_bound in E. by apply Forall_singleton.
    + destruct (parse_v4 g) as [a|] eqn:E4; [|done]. intros [= <-].
      apply parse_v4_bound in E4. unfold is_u in E4.
      apply Forall_cons_2; [|apply Forall_singleton]; unfold is_u.
      * split; [apply Z.div_pos; lia|apply Z.div_lt_upper_bound; lia].
      * apply Z.mod_pos_bound. lia.
  - change (parse_v6_groups (g :: g' :: gs)) with
      (match parse_v6_group g, parse_v6_groups (g' :: gs) with
       | Some v, Some vs => Some (v :: vs) | _, _ => None end).
    destruct (parse_v6_group g) as [v|] eqn:E; [|done].
    destruct (parse_v6_groups (g' :: gs)) as [ws|]; [|done].
    intros [= <-]. apply parse_v6_group_bound in E. constructor; [done|]. by apply IH.
Qed.

Lemma of_groups_bound gs :
  Forall (is_u 16) gs -> 0 <= of_groups gs < 65536 ^ Z.of_nat (length gs).
Proof.
  unfold of_groups. intros H.
  assert (forall acc, 0 <= acc -> 0 <= foldl (fun acc g => acc * 65536 + g) acc gs
    < (acc + 1) * 65536 ^ Z.of_nat (length gs)) as Hg.
  { induction H as [|g gs Hg _ IH]; intros acc Ha; [simpl; lia|].
    simpl foldl. simpl length. rewrite Nat2Z.inj_succ, Z.pow_succ_r by lia.
    unfold is_u in Hg. specialize (IH (acc * 65536 + g)).
    assert (0 < 65536 ^ Z.of_nat (length gs)) by lia. nia. }
  specialize (Hg 0). lia.
Qed.

Lemma parse_v6_part_bound s gs : parse_v6_part s = Some gs -> Forall (is_u 16) gs.
Proof.
  unfold parse_v6_part. case_match; [by intros [= <-]|]. apply parse_v6_groups_bound.
Qed.

Lemma parse_ip_wf s ip : parse_ip s = Some ip -> ip_wf ip.
Proof.
  unfold parse_ip, ip_wf. destruct (parse_v4 s) as [a|] eqn:E4.
  { intros [= <-]. by eapply parse_v4_bound. }
  intros (a & Ha & ->)%fmap_Some. unfold parse_v6 in Ha. simpl.
  assert (forall gs, Forall (is_u 16) gs -> length gs = 8%nat -> is_u 128 (of_groups gs)) as H8.
  { intros gs Hg Hl. apply of_groups_bound in Hg. rewrite Hl in Hg. done. }
  destruct (split_double_colon s) as [[h t]|].
  - destruct (parse_v6_part h) as [hs|] eqn:Eh; [|done].
    destruct (parse_v6_part t) as [ts|] eqn:Et; [|done].
    destruct (Nat.leb_spec (length hs + length ts) 7); [|done]. simpl in Ha.
    destruct (free_of "." h); simplify_eq. apply H8.
    + apply parse_v6_part_bound in Eh, Et. rewrite !Forall_app.
      repeat split; [done| |done]. apply Forall_replicate. done.
    + rewrite !length_app, length_replicate. lia.
  - destruct (parse_v6_part s) as [gs|] eqn:Eg; [|done].
    destruct (Nat.eqb_spec (length gs) 8); simplify_eq. apply H8; [|done].
    by eapply parse_v6_part_bound.
Qed.

Lemma cidr_parse_wf s c : cidr_parse s = Ok c -> cidr_wf c.
Proof.
  unfold cidr_parse. destruct (split_once "/" s) as [[x y]|]; [|done].
  destruct (parse_ip (str_trim x)) as [ip|] eqn:Eip; [|done].
  destruct (parse_uint 10 u8_max (str_trim y)) as [p|] eqn:Ep; [|done].
  apply parse_ip_wf in Eip. apply parse_uint_bound in Ep; [|lia].
  change (match ip with V4 _ => 32 | V6 _ => 128 end) with (ip_width ip).
  destruct (Z.ltb_spec (ip_width ip) p); [done|]. intros [= <-].
  destruct (mask_bits ip p Eip) as [Hb Hw]; [lia|].
  unfold cidr_wf, ip_wf, is_u in *. cbn [cidr_base cidr_prefix]. rewrite Hw, Hb.
  assert (0 < 2 ^ (ip_width ip - p)) as Hk by lia.
  split; [lia|]. split; [|apply Z.divide_factor_r].
  pose proof (Z.div_mod (ip_bits ip) (2 ^ (ip_width ip - p))).
  pose proof (Z.mod_pos_bound (ip_bits ip) (2 ^ (ip_width ip - p)) Hk).
  assert (0 <= ip_bits ip / 2 ^ (ip_width ip - p)) by (apply Z.div_pos; lia). nia.
Qed.

(** * Reverse names round trip *)

Definition lo_nibble (b : Z) : string := String (digit_char (Z.land b 15)) "".
Definition hi_nibble (b : Z) : string := String (digit_char (Z.shiftr b 4)) "".

(** The two nibble labels of a byte, as the printer orders them. *)
Fixpoint nibble_labels (bs : list Z) : list string :=
  match bs with [] => [] | b :: bs' => lo_nibble b :: hi_nibble b :: nibble_labels bs' end.

Lemma nibble_byte b :
  is_u 8 b ->
  free_of "." (lo_nibble b) = true /\ free_of "." (hi_nibble b) = true /\
  exists h l, parse_uint 16 u8_max (hi_nibble b) = Some h /\
    parse_uint 16 u8_max (lo_nibble b) = Some l /\
    Z.lor (as_u 8 (Z.shiftl h 4)) l = b.
Proof.
  intros Hb.
  assert (free_of "." (lo_nibble b) && free_of "." (hi_nibble b) &&
    match parse_uint 16 u8_max (hi_nibble b), parse_uint 16 u8_max (lo_nibble b) with
    | Some h, Some l => Z.lor (as_u 8 (Z.shiftl h 4)) l =? b
    | _, _ => false end = true) as H.
  { revert b Hb. apply byte_forall. vm_compute. reflexivity. }
  bool_hyps. repeat split; [done..|]. repeat case_match; try done. bool_hyps. eauto.
Qed.

Lemma nibble_labels_free bs :
  Forall (is_u 8) bs -> Forall (fun s => free_of "." s = true) (nibble_labels bs).
Proof.
  induction 1 as [|b bs Hb _ IH]; simpl; [constructor|].
  destruct (nibble_byte b Hb) as (? & ? & _). by repeat apply Forall_cons_2.
Qed.

Lemma nibble_labels_text bs tl :
  bs <> [] ->
  foldr (fun byte acc =>
      String (digit_char (Z.land byte 15)) (String "." (
      String (digit_char (Z.shiftr byte 4)) (String "." acc)))) tl bs =
  str_join "." (nibble_labels bs) +:+ "." +:+ tl.
Proof.
  induction bs as [|b bs IH]; [done|]. intros _. cbn [foldr nibble_labels].
  destruct bs as [|b' bs]; [done|]. rewrite IH by done.
  rewrite join_cons by done. rewrite (join_cons (hi_nibble b)) by done. done.
Qed.

Lemma nibble_labels_app bs cs : nibble_labels (bs ++ cs) = nibble_labels bs ++ nibble_labels cs.
Proof. induction bs as [|b bs IH]; simpl; [done|by rewrite IH]. Qed.

Lemma length_nibble_labels bs : length (nibble_labels bs) = (2 * length bs)%nat.
Proof. induction bs; simpl; lia. Qed.

Lemma nibbles_to_bytes_labels bs :
  Forall (is_u 8) bs -> nibbles_to_bytes (length bs) (rev (nibble_labels (rev bs))) = Some bs.
Proof.
  induction 1 as [|b bs Hb _ IH]; [done|].
  simpl rev. rewrite nibble_labels_app, rev_app_distr. simpl.
  destruct (nibble_byte b Hb) as (_ & _ & h & l & -> & -> & Hv).
  by rewrite IH, Hv.
Qed.

Lemma trim_reverse_suffix j t :
  t <> "" -> free_of "." t = true ->
  trim_end_matches "." (j +:+ t +:+ ".") = j +:+ t.
Proof.
  intros Ht Hf. rewrite <- app_assoc_str, trim_end_snoc. apply trim_end_id.
  rewrite ends_with_char_app_r by done. by apply free_of_ends.
Qed.

Lemma extract_reverse_v4 a :
  is_u 32 a -> extract_ip_from_name (reverse_ptr_name (V4 a)) = Some (V4 a).
Proof.
  intros Ha. pose proof (be_bytes_range 4 a) as Hr. pose proof (of_octets (V4 a) Ha) as Ho.
  unfold extract_ip_from_name, reverse_ptr_name.
  set (j := str_join "." (show_dec <$> rev (octets (V4 a)))).
  assert (trim_end_matches "." (j +:+ ".in-addr.arpa.") = j +:+ ".in-addr.arpa") as ->.
  { change ".in-addr.arpa." with (".in-addr." +:+ "arpa" +:+ ".").
    rewrite <- app_assoc_str, trim_reverse_suffix by done. by rewrite app_assoc_str. }
  rewrite (proj2 (str_strip_suffix_spec _ _ j)) by done. unfold j. cbv zeta.
  rewrite split_join.
  2:{ cbn [octets be_bytes rev app]. done. }
  2:{ apply byte_digits_free. rewrite Forall_forall in Hr |- *. intros x Hx.
      apply Hr. by apply list_elem_of_In, in_rev, list_elem_of_In. }
  rewrite length_fmap, length_rev. cbn [octets]. rewrite length_be_bytes.
  cbn [Nat.eqb]. change (rev (show_dec <$> ?l)) with (rev (map show_dec l)).
  rewrite <- map_rev, rev_involutive. rewrite omap_parse_bytes by done.
  rewrite length_be_bytes. cbn [Nat.eqb]. cbn [octets ip_bits] in Ho. by rewrite Ho.
Qed.

Lemma extract_reverse_v6 a :
  is_u 128 a -> extract_ip_from_name (reverse_ptr_name (V6 a)) = Some (V6 a).
Proof.
  intros Ha. pose proof (be_bytes_range 16 a) as Hr. pose proof (of_octets (V6 a) Ha) as Ho.
  unfold extract_ip_from_name, reverse_ptr_name. cbn [octets] in *.
  pose proof (length_be_bytes 16 a) as Hlen. set (bs := be_bytes 16 a) in *.
  assert (rev bs <> []) as Hne.
  { intros E. apply (f_equal length) in E. rewrite length_rev, Hlen in E. done. }
  rewrite nibble_labels_text by done. set (j := str_join "." (nibble_labels (rev bs))).
  assert (trim_end_matches "." (j +:+ "." +:+ "ip6.arpa.") = j +:+ ".ip6.arpa") as ->.
  { change ("." +:+ "ip6.arpa.") with (".ip6." +:+ "arpa" +:+ ".").
    rewrite <- app_assoc_str, trim_reverse_suffix by done. by rewrite app_assoc_str. }
  destruct (str_strip_suffix ".in-addr.arpa" (j +:+ ".ip6.arpa")) as [t|] eqn:E.
  { exfalso. apply str_strip_suffix_spec in E.
    apply (f_equal (fun s => ends_with "p6.arpa" s)) in E.
    rewrite (proj2 (ends_with_spec "p6.arpa" (j +:+ ".ip6.arpa"))) in E.
    2:{ exists (j +:+ ".i"). by rewrite app_assoc_str. }
    symmetry in E. apply ends_with_spec in E as [q Hq].
    change ".in-addr.arpa" with (".in-ad" +:+ "dr.arpa") in Hq.
    change "p6.arpa" with ("p6" +:+ ".arpa") in Hq.
    change (".in-ad" +:+ "dr.arpa") with (".in-addr" +:+ ".arpa") in Hq.
    rewrite <- !app_assoc_str in Hq. apply app_inj_r_str in Hq.
    apply (f_equal (ends_with_char "6")) in Hq.
    rewrite !ends_with_char_app_r in Hq by done. done. }
  rewrite (proj2 (str_strip_suffix_spec _ _ j)) by done. unfold j. cbv zeta.
  assert (Forall (is_u 8) (rev bs)) as Hrr.
  { rewrite Forall_forall in Hr |- *. intros x Hx.
    apply Hr. by apply list_elem_of_In, in_rev, list_elem_of_In. }
  rewrite split_join.
  2:{ intros E'. apply (f_equal length) in E'.
      rewrite length_nibble_labels, length_rev, Hlen in E'. done. }
  2:{ by apply nibble_labels_free. }
  rewrite length_nibble_labels, length_rev, Hlen. cbn [Nat.eqb Nat.mul Nat.add].
  rewrite <- Hlen at 1. rewrite nibbles_to_bytes_labels by done.
  cbn [ip_bits] in Ho. by rewrite Ho.
Qed.

(** * Properties *)

(** A parsed CIDR network matches exactly the addresses of its family between
    its base address and the base plus the network's size; in particular a
    network never matches an address of the other family. *)
Theorem cidr_contains_range s c ip :
  cidr_parse s = Ok c -> ip_wf ip ->
  contains c ip = true <->
    ip_width ip = ip_width (cidr_base c) /\
    ip_bits (cidr_base c) <= ip_bits ip <
      ip_bits (cidr_base c) + 2 ^ (ip_width (cidr_base c) - cidr_prefix c).
Proof. intros Hc Hip. apply contains_range; [by eapply cidr_parse_wf|done]. Qed.

Lemma cidr_contains_range_witness :
  exists c, cidr_parse "10.64.5.1/10" = Ok c /\
    (contains c (V4 176160767) = true <->
      ip_width (V4 176160767) = ip_width (cidr_base c) /\
      ip_bits (cidr_base c) <= ip_bits (V4 176160767) <
        ip_bits (cidr_base c) + 2 ^ (ip_width (cidr_base c) - cidr_prefix c)).
Proof.
  eexists. split; [vm_compute; reflexivity|].
  apply (cidr_contains_range "10.64.5.1/10"); [vm_compute; reflexivity|].
  unfold ip_wf, is_u. simpl. lia.
Defined.

(** The reverse-DNS name built for any address is read back as that
    address, for both families, so the names written by the automatic PTR
    records are the names the reverse gate recognises. *)
Theorem reverse_name_roundtrip ip :
  ip_wf ip -> extract_ip_from_name (reverse_ptr_name ip) = Some ip.
Proof.
  destruct ip; [apply extract_reverse_v4|apply extract_reverse_v6].
Qed.

Lemma reverse_name_roundtrip_witness :
  extract_ip_from_name (reverse_ptr_name (V4 3232235786)) = Some (V4 3232235786) /\
  reverse_ptr_name (V4 3232235786) = "10.1.168.192.in-addr.arpa.".
Proof.
  split; [apply reverse_name_roundtrip; unfold ip_wf, is_u; simpl; lia|].
  vm_compute. reflexivity.
Defined.
