(* ===== verification/Drift.v ===== *)
(** TTL drift ([src/src/ttl_drift.rs]): the setting, its text form and the fixed
    adjustment. The logarithmic adjustment is arithmetic on floating-point numbers and
    is not modelled; its multiplier is kept as it is given. *)

From S2P Require Import Prelude RustStr Ip.
From stdpp Require Import base list option strings.
From Stdlib Require Import ZArith Lia Bool Ascii.

Open Scope Z_scope.
Local Open Scope rolodex_scope.

(** The [fancy_duration] crate: reading a compound duration as whole seconds, and
    writing one without spaces. *)
Class FancyDuration := {
  fd_parse : string -> option Z;
  fd_compact : Z -> string;
}.

(** What is written is read again, starts with a digit and has no spaces. *)
Class FancyDurationLaws `{!FancyDuration} := {
  fd_parse_compact d : 0 < d < 2 ^ 64 -> fd_parse (fd_compact d) = Some d;
  fd_compact_digit d : 0 < d < 2 ^ 64 -> exists c rest, fd_compact d = String c rest /\ is_digit c = true;
  fd_compact_solid d : 0 < d < 2 ^ 64 -> str_forall (fun c => negb (is_space c)) (fd_compact d) = true;
}.

Inductive TtlDriftMode (F : Type) := Disabled | Fixed (adjustment_secs : Z) | Logarithmic (multiplier : F).
Arguments Disabled {F}.
Arguments Fixed {F} _.
Arguments Logarithmic {F} _.

(** The sum and the cast are those of the machine. *)
Definition apply_fixed_drift (original_ttl adjustment_secs : Z) : Z :=
  as_u 32 (Z.max (as_i 64 (original_ttl + adjustment_secs)) 1).

(** * Text *)

Definition is_alphabetic (c : ascii) : bool :=
  let n := nat_of_ascii c in ((65 <=? n) && (n <=? 90) || (97 <=? n) && (n <=? 122))%nat.

Fixpoint alpha_count (s : string) : nat :=
  match s with
  | EmptyString => 0
  | String c s' => (if is_alphabetic c then 1 else 0) + alpha_count s'
  end.

(** The number and its unit; seconds if it has none. *)
Definition split_unit (rest : string) : string * Z :=
  match str_strip_suffix "s" rest with
  | Some n => (n, 1)
  | None =>
      match str_strip_suffix "m" rest with
      | Some n => (n, 60)
      | None =>
          match str_strip_suffix "h" rest with
          | Some n => (n, 3600)
          | None => match str_strip_suffix "d" rest with Some n => (n, 86400) | None => (rest, 1) end
          end
      end
  end.

Definition simple_duration (sign : Z) (rest : string) : option Z :=
  let (num_str, unit) := split_unit rest in
  num ← parse_i64 num_str;
  Some (as_i 64 (sign * num * unit)).

Definition split_sign (s : string) : Z * string :=
  match str_strip_prefix "-" s with
  | Some stripped => (-1, stripped)
  | None => match str_strip_prefix "+" s with Some stripped => (1, stripped) | None => (1, s) end
  end.

Section Drift.
Context `{FD : !FancyDuration}.

(** The crate is asked only when there are two letters or more. *)
Definition parse_duration_secs (s : string) : option Z :=
  let s := str_trim s in
  if (s =? "")%string then None
  else
    let (sign, rest) := split_sign s in
    match (if (2 <=? alpha_count rest)%nat then fd_parse rest else None) with
    | Some secs => if 0 <? as_i 64 secs then Some (sign * as_i 64 secs) else simple_duration sign rest
    | None => simple_duration sign rest
    end.

Definition format_duration_secs (secs : Z) : string :=
  if secs =? 0 then "0s"
  else (if secs <? 0 then "-" else "") +:+ fd_compact (Z.abs secs).

(** * The setting over the control plane *)

Context {F : Type} (zero : F).

(** The mode, the adjustment and the multiplier of a message. *)
Definition drift_of_proto (config : string * string * F) : TtlDriftMode F :=
  let '(mode, fixed_adjustment, log_multiplier) := config in
  if (mode =? "fixed")%string then Fixed (default 0 (parse_duration_secs fixed_adjustment))
  else if (mode =? "logarithmic")%string then Logarithmic log_multiplier
  else Disabled.

Definition drift_to_proto (m : TtlDriftMode F) : string * string * F :=
  match m with
  | Disabled => ("disabled", "", zero)
  | Fixed secs => ("fixed", format_duration_secs secs, zero)
  | Logarithmic multiplier => ("logarithmic", "", multiplier)
  end.
End Drift.

(** * Lemmas *)

(** The seconds of a unit the fallback knows. *)
Definition unit_secs (u : ascii) : option Z :=
  if Ascii.eqb u "s" then Some 1 else if Ascii.eqb u "m" then Some 60
  else if Ascii.eqb u "h" then Some 3600 else if Ascii.eqb u "d" then Some 86400 else None.

Lemma strip_last t u c : str_strip_suffix (String c "") (t +:+ String u "") = if Ascii.eqb c u then Some t else None.
Proof.
  destruct (Ascii.eqb_spec c u) as [->|Hne]; [by apply str_strip_suffix_spec|].
  destruct (str_strip_suffix _ _) as [x|] eqn:E; [|done]. apply str_strip_suffix_spec in E. exfalso.
  assert (ends_with_char u (x +:+ String c "") = true) as H by (rewrite <- E; apply ends_with_char_app).
  rewrite ends_with_char_app_r in H by done. cbn in H. by apply Ascii.eqb_eq in H.
Qed.

Lemma read_digits_letter t u acc : is_alphabetic u = true -> read_digits 10 acc (t +:+ String u "") = None.
Proof.
  intros Hu. revert acc. induction t as [|c t IH]; intros acc; cbn.
  - assert (match digit_value u with Some d => (d <? 10) = false | None => True end) as H.
    { revert Hu. destruct u as [[] [] [] [] [] [] [] []]; vm_compute; by intros. }
    destruct (digit_value u); [by rewrite H|done].
  - destruct (digit_value c) as [d|]; [|done]. by destruct (d <? 10).
Qed.

(** A number with a single letter behind it. *)
Lemma simple_lone sign n u : 0 <= n <= i64_max -> is_alphabetic u = true ->
  simple_duration sign (show_dec n +:+ String u "") = (fun k => as_i 64 (sign * n * k)) <$> unit_secs u.
Proof.
  intros Hn Hu. unfold simple_duration, split_unit. rewrite !strip_last.
  assert (parse_i64 (show_dec n) = Some n) as Hp.
  { unfold parse_i64. pose proof (show_dec_digits n) as Hd. pose proof (parse_show_dec i64_max n Hn) as H.
    destruct (show_dec n) as [|c t] eqn:E; [by apply show_dec_nonempty in E|]. cbn in Hd. apply andb_true_iff in Hd as [Hd _].
    destruct (Ascii.eqb_spec c "-") as [->|]; [by vm_compute in Hd|]. apply H. unfold i64_max in Hn. lia. }
  assert (parse_i64 (show_dec n +:+ String u "") = None) as Hb.
  { unfold parse_i64. pose proof (show_dec_digits n) as Hd. destruct (show_dec n) as [|c t] eqn:E; [by apply show_dec_nonempty in E|].
    cbn in Hd. apply andb_true_iff in Hd as [Hd _]. cbn [String.append].
    destruct (Ascii.eqb_spec c "-") as [->|]; [by vm_compute in Hd|]. unfold parse_uint.
    destruct (Ascii.eqb_spec c "+") as [->|]; [by vm_compute in Hd|]. change (String c (t +:+ String u "")) with (String c t +:+ String u "").
    rewrite read_digits_letter by done. by destruct (_ =? _)%string. }
  unfold unit_secs. rewrite !(Ascii.eqb_sym u).
  destruct ("s" =? u)%char; [by rewrite Hp|]. destruct ("m" =? u)%char; [by rewrite Hp|]. destruct ("h" =? u)%char; [by rewrite Hp|].
  destruct ("d" =? u)%char; [by rewrite Hp|]. by rewrite Hb.
Qed.

Lemma alpha_count_app a b : alpha_count (a +:+ b) = (alpha_count a + alpha_count b)%nat.
Proof. induction a as [|c a IH]; cbn; [done|]. rewrite IH. lia. Qed.

Lemma alpha_count_digits s : str_forall is_digit s = true -> alpha_count s = 0%nat.
Proof.
  induction s as [|c s IH]; [done|]. cbn. intros [Hc Hs]%andb_true_iff. rewrite (IH Hs), Nat.add_0_r.
  revert Hc. by destruct c as [[] [] [] [] [] [] [] []].
Qed.

Lemma split_sign_digit c rest : is_digit c = true -> split_sign (String c rest) = (1, String c rest).
Proof. by destruct c as [[] [] [] [] [] [] [] []]. Qed.

(** The text of a duration with its sign. *)
Lemma parse_format `{FL : FancyDurationLaws} secs : - 2 ^ 63 < secs < 2 ^ 63 ->
  parse_duration_secs (format_duration_secs secs) =
    if secs =? 0 then Some 0
    else if (2 <=? alpha_count (fd_compact (Z.abs secs)))%nat then Some secs
    else simple_duration (Z.sgn secs) (fd_compact (Z.abs secs)).
Proof.
  intros Hr. unfold format_duration_secs. destruct (Z.eqb_spec secs 0) as [->|Hz]; [by vm_compute|].
  assert (0 < Z.abs secs < 2 ^ 64) as Hd by lia. set (d := Z.abs secs) in *.
  pose proof (fd_compact_solid d Hd) as Hs. pose proof (fd_compact_digit d Hd) as (c & rest & Ec & Hc). pose proof (fd_parse_compact d Hd) as Hp.
  assert (parse_duration_secs ((if secs <? 0 then "-" else "") +:+ fd_compact d) =
    match (if (2 <=? alpha_count (fd_compact d))%nat then fd_parse (fd_compact d) else None) with
    | Some x => if 0 <? as_i 64 x then Some (Z.sgn secs * as_i 64 x) else simple_duration (Z.sgn secs) (fd_compact d)
    | None => simple_duration (Z.sgn secs) (fd_compact d)
    end) as ->.
  { unfold parse_duration_secs. rewrite str_trim_solid by (by destruct (secs <? 0)). destruct (Z.ltb_spec secs 0).
    - cbn [String.append]. cbn [String.eqb split_sign str_strip_prefix]. by rewrite (Z.sgn_neg secs) by lia.
    - cbn [String.append]. rewrite Ec in *. assert (split_sign (String c rest) = (1, String c rest)) as -> by by apply split_sign_digit.
      cbn [String.eqb]. by rewrite (Z.sgn_pos secs) by lia. }
  destruct (2 <=? _)%nat; [|done]. rewrite Hp, as_i_id by (cbn; lia). rewrite (proj2 (Z.ltb_lt _ _)) by lia. f_equal. lia.
Qed.

(** * Properties *)

(** A fixed adjustment gives the sum, one second at least, as long as the sum fits in
    a TTL; a larger one is cut to its low bits, where it can also be zero. *)
Theorem fixed_drift_exact ttl adj : is_u 32 ttl -> - 2 ^ 63 <= ttl + adj < 2 ^ 63 ->
  apply_fixed_drift ttl adj = (if ttl + adj <? 2 ^ 32 then Z.max 1 (ttl + adj) else (ttl + adj) mod 2 ^ 32) /\
  (1 <= apply_fixed_drift ttl adj \/ exists k, 0 < k /\ ttl + adj = k * 2 ^ 32).
Proof.
  intros Ht Ha. unfold apply_fixed_drift. rewrite as_i_id by (cbn; lia).
  assert (as_u 32 (Z.max (ttl + adj) 1) = if ttl + adj <? 2 ^ 32 then Z.max 1 (ttl + adj) else (ttl + adj) mod 2 ^ 32) as ->.
  { unfold as_u. destruct (Z.ltb_spec (ttl + adj) (2 ^ 32)).
    - rewrite Z.mod_small by lia. lia.
    - f_equal. lia. }
  split; [done|]. destruct (Z.ltb_spec (ttl + adj) (2 ^ 32)); [left; lia|].
  pose proof (Z.mod_pos_bound (ttl + adj) (2 ^ 32) ltac:(lia)). pose proof (Z.div_mod (ttl + adj) (2 ^ 32) ltac:(lia)).
  destruct (Z.eq_dec ((ttl + adj) mod 2 ^ 32) 0) as [E|]; [right|left; lia].
  exists ((ttl + adj) / 2 ^ 32). split; [apply Z.div_str_pos; lia|lia].
Qed.

(** What the control plane reports of the setting is what it takes, but for a lone
    unit: the adjustment comes back exactly if it is zero, if its text has two letters
    or more, and if it has one that stands for seconds, minutes, hours or days; with
    any other single letter it is not read and the adjustment is silently none. *)
Theorem drift_setting_roundtrip `{FL : FancyDurationLaws} {F} (zero : F) (m : TtlDriftMode F) :
  (forall secs, m = Fixed secs -> - 2 ^ 63 < secs < 2 ^ 63) ->
  drift_of_proto (drift_to_proto zero m) = match m with
    | Fixed secs =>
        if (secs =? 0) || (2 <=? alpha_count (fd_compact (Z.abs secs)))%nat then Fixed secs
        else Fixed (default 0 (simple_duration (Z.sgn secs) (fd_compact (Z.abs secs))))
    | _ => m
    end /\
  (forall secs n u, m = Fixed secs -> 0 < n <= i64_max -> is_alphabetic u = true -> fd_compact (Z.abs secs) = show_dec n +:+ String u "" ->
     alpha_count (fd_compact (Z.abs secs)) = 1%nat /\
     simple_duration (Z.sgn secs) (fd_compact (Z.abs secs)) = (fun k => as_i 64 (Z.sgn secs * n * k)) <$> unit_secs u).
Proof.
  intros Hr. split.
  - destruct m as [|secs|x]; [done| |done]. specialize (Hr secs eq_refl). unfold drift_to_proto, drift_of_proto. cbn [String.eqb].
    rewrite String.eqb_refl. rewrite parse_format by lia. destruct (secs =? 0) eqn:E; [|by destruct (2 <=? _)%nat].
    cbn. f_equal. lia.
  - intros secs n u -> Hn Hu ->. split; [|by apply simple_lone; [lia|]].
    by rewrite alpha_count_app, (alpha_count_digits _ (show_dec_digits n)); cbn; rewrite Hu.
Qed.

(** * At concrete durations *)

(** Whole weeks with one unit, anything else in minutes and seconds. *)
#[local] Instance sample_fancy : FancyDuration := {
  fd_parse s :=
    match str_strip_suffix "w" s with
    | Some n => (fun n => n * 604800) <$> parse_uint 10 u64_max n
    | None =>
        t ← str_strip_suffix "s" s;
        p ← split_once "m" t;
        x ← parse_uint 10 u64_max p.1;
        y ← parse_uint 10 u64_max p.2;
        Some (60 * x + y)
    end;
  fd_compact d :=
    if d mod 604800 =? 0 then show_dec (d / 604800) +:+ "w"
    else (show_dec (d / 60) +:+ "m" +:+ show_dec (d mod 60)) +:+ "s";
}.

Lemma digits_not_space s : str_forall is_digit s = true -> str_forall (fun c => negb (is_space c)) s = true.
Proof.
  induction s as [|c s IH]; [done|]. cbn. intros [Hc Hs]%andb_true_iff. rewrite (IH Hs), andb_true_r.
  revert Hc. by destruct c as [[] [] [] [] [] [] [] []].
Qed.

Lemma digits_free_of_m s : str_forall is_digit s = true -> free_of "m" s = true.
Proof.
  unfold free_of. induction s as [|c s IH]; [done|]. cbn [str_forall]. intros [Hc Hs]%andb_true_iff. rewrite (IH Hs), andb_true_r.
  revert Hc. by destruct c as [[] [] [] [] [] [] [] []].
Qed.

Lemma show_dec_first n t : exists c rest, show_dec n +:+ t = String c rest /\ is_digit c = true.
Proof.
  pose proof (show_dec_digits n) as Hd. destruct (show_dec n) as [|c r] eqn:E; [by apply show_dec_nonempty in E|].
  exists c, (r +:+ t). split; [done|]. cbn in Hd. by apply andb_true_iff in Hd as [].
Qed.

#[local] Instance sample_fancy_laws : FancyDurationLaws.
Proof.
  split; intros d Hd; unfold fd_parse, fd_compact, sample_fancy;
    pose proof (Z.div_mod d 604800 ltac:(lia)); pose proof (Z.div_mod d 60 ltac:(lia));
    pose proof (Z.mod_pos_bound d 60 ltac:(lia)); pose proof (Z.div_pos d 604800 ltac:(lia) ltac:(lia)); pose proof (Z.div_pos d 60 ltac:(lia) ltac:(lia)).
  - destruct (Z.eqb_spec (d mod 604800) 0) as [E|E].
    + rewrite strip_last. change (Ascii.eqb "w" "w") with true. cbv iota.
      rewrite parse_show_dec by (unfold u64_max; lia). cbn -[Z.mul Z.div]. f_equal. lia.
    + rewrite !strip_last. change (Ascii.eqb "w" "s") with false. change (Ascii.eqb "s" "s") with true. cbv iota.
      change ("m" +:+ show_dec (d mod 60)) with (String "m" (show_dec (d mod 60))).
      cbn -[split_once show_dec Z.mul Z.div Z.modulo parse_uint]. rewrite split_once_cons by apply digits_free_of_m, show_dec_digits.
      cbn -[show_dec Z.mul Z.div Z.modulo parse_uint]. rewrite !parse_show_dec by (unfold u64_max; lia).
      cbn -[Z.mul Z.div Z.modulo]. f_equal. lia.
  - destruct (_ =? 0); [apply show_dec_first|]. rewrite app_assoc_str. apply show_dec_first.
  - destruct (_ =? 0); rewrite ?str_forall_app; rewrite ?(digits_not_space _ (show_dec_digits _)); done.
Qed.

Lemma fixed_drift_exact_witness : apply_fixed_drift 1 4294967295 = 0 /\ apply_fixed_drift 10 (-100) = 1.
Proof.
  destruct (fixed_drift_exact 1 4294967295) as [-> _]; [unfold is_u; lia|lia|].
  destruct (fixed_drift_exact 10 (-100)) as [-> _]; [unfold is_u; lia|lia|]. split; reflexivity.
Defined.

(** Ninety minutes and a half come back; a week does not. *)
Lemma drift_setting_roundtrip_witness :
  drift_of_proto (drift_to_proto tt (Fixed 5430)) = Fixed 5430 /\ drift_of_proto (drift_to_proto tt (Fixed 604800)) = Fixed 0.
Proof.
  destruct (drift_setting_roundtrip tt (Fixed 5430)) as [-> _]; [intros ? [= <-]; lia|].
  destruct (drift_setting_roundtrip tt (Fixed 604800)) as [-> _]; [intros ? [= <-]; lia|]. split; vm_compute; reflexivity.
Defined.
