(* ===== verification/Records.v ===== *)
(** Record kinds and records ([src/src/db.rs]) and the mapping from wire query
    types ([src/src/dns_server.rs]). A wire record type is its IANA code. *)

From S2P Require Import Prelude RustStr Names.
From stdpp Require Import base gmap list option strings.
From Stdlib Require Import ZArith Lia Bool Ascii.

Open Scope Z_scope.

(** * Kinds *)

Inductive RecordKind : Type :=
| A | AAAA | CNAME | MX | TXT | NS | SOA | SRV | PTR | URI | SSHFP | DNAME
| ANAME | ZONEMD | TLSA | DNSKEY | DS | RRSIG | NSEC | NSEC3 | NSEC3PARAM
| CERT | SVCB | HTTPS.

#[export] Instance RecordKind_eq_dec : EqDecision RecordKind.
Proof. solve_decision. Defined.

Definition all_kinds : list RecordKind :=
  [A; AAAA; CNAME; MX; TXT; NS; SOA; SRV; PTR; URI; SSHFP; DNAME; ANAME; ZONEMD;
   TLSA; DNSKEY; DS; RRSIG; NSEC; NSEC3; NSEC3PARAM; CERT; SVCB; HTTPS].

Definition as_str (k : RecordKind) : string :=
  match k with
  | A => "A" | AAAA => "AAAA" | CNAME => "CNAME" | MX => "MX" | TXT => "TXT"
  | NS => "NS" | SOA => "SOA" | SRV => "SRV" | PTR => "PTR" | URI => "URI"
  | SSHFP => "SSHFP" | DNAME => "DNAME" | ANAME => "ANAME" | ZONEMD => "ZONEMD"
  | TLSA => "TLSA" | DNSKEY => "DNSKEY" | DS => "DS" | RRSIG => "RRSIG"
  | NSEC => "NSEC" | NSEC3 => "NSEC3" | NSEC3PARAM => "NSEC3PARAM"
  | CERT => "CERT" | SVCB => "SVCB" | HTTPS => "HTTPS"
  end.

Definition parse_kind (s : string) : option RecordKind :=
  let u := to_uppercase s in
  if (u =? "A")%string then Some A
  else if (u =? "AAAA")%string then Some AAAA
  else if (u =? "CNAME")%string then Some CNAME
  else if (u =? "MX")%string then Some MX
  else if (u =? "TXT")%string then Some TXT
  else if (u =? "NS")%string then Some NS
  else if (u =? "SOA")%string then Some SOA
  else if (u =? "SRV")%string then Some SRV
  else if (u =? "PTR")%string then Some PTR
  else if (u =? "URI")%string then Some URI
  else if (u =? "SSHFP")%string then Some SSHFP
  else if (u =? "DNAME")%string then Some DNAME
  else if (u =? "ANAME")%string then Some ANAME
  else if (u =? "ZONEMD")%string then Some ZONEMD
  else if (u =? "TLSA")%string then Some TLSA
  else if (u =? "DNSKEY")%string then Some DNSKEY
  else if (u =? "DS")%string then Some DS
  else if (u =? "RRSIG")%string then Some RRSIG
  else if (u =? "NSEC")%string then Some NSEC
  else if (u =? "NSEC3")%string then Some NSEC3
  else if (u =? "NSEC3PARAM")%string then Some NSEC3PARAM
  else if (u =? "CERT")%string then Some CERT
  else if (u =? "SVCB")%string then Some SVCB
  else if (u =? "HTTPS")%string then Some HTTPS
  else None.

Definition wire_type (k : RecordKind) : Z :=
  match k with
  | A => 1 | NS => 2 | CNAME => 5 | SOA => 6 | PTR => 12 | MX => 15 | TXT => 16
  | AAAA => 28 | SRV => 33 | CERT => 37 | DNAME => 39 | DS => 43 | SSHFP => 44
  | RRSIG => 46 | NSEC => 47 | DNSKEY => 48 | NSEC3 => 50 | NSEC3PARAM => 51
  | TLSA => 52 | ZONEMD => 63 | SVCB => 64 | HTTPS => 65 | URI => 256
  | ANAME => 65305
  end.

Definition to_proto_i32 (k : RecordKind) : Z :=
  match k with
  | A => 0 | AAAA => 1 | CNAME => 2 | MX => 3 | TXT => 4 | NS => 5 | SOA => 6
  | SRV => 7 | PTR => 8 | URI => 9 | SSHFP => 10 | DNAME => 11 | ANAME => 12
  | ZONEMD => 13 | TLSA => 14 | DNSKEY => 15 | DS => 16 | RRSIG => 17
  | NSEC => 18 | NSEC3 => 19 | NSEC3PARAM => 20 | CERT => 21 | SVCB => 22
  | HTTPS => 23
  end.

Definition from_proto_i32 (v : Z) : option RecordKind :=
  match v with
  | 0 => Some A | 1 => Some AAAA | 2 => Some CNAME | 3 => Some MX | 4 => Some TXT
  | 5 => Some NS | 6 => Some SOA | 7 => Some SRV | 8 => Some PTR | 9 => Some URI
  | 10 => Some SSHFP | 11 => Some DNAME | 12 => Some ANAME | 13 => Some ZONEMD
  | 14 => Some TLSA | 15 => Some DNSKEY | 16 => Some DS | 17 => Some RRSIG
  | 18 => Some NSEC | 19 => Some NSEC3 | 20 => Some NSEC3PARAM | 21 => Some CERT
  | 22 => Some SVCB | 23 => Some HTTPS
  | _ => None
  end.

(** [map_query_type_to_kind]: the named types, then the codes the DNS library
    has no variant for. *)
Definition map_query_type_to_kind (rt : Z) : option RecordKind :=
  match rt with
  | 1 => Some A | 28 => Some AAAA | 5 => Some CNAME | 15 => Some MX
  | 16 => Some TXT | 2 => Some NS | 6 => Some SOA | 33 => Some SRV
  | 12 => Some PTR | 52 => Some TLSA | 37 => Some CERT | 64 => Some SVCB
  | 65 => Some HTTPS | 44 => Some SSHFP | 48 => Some DNSKEY | 46 => Some RRSIG
  | 47 => Some NSEC | 50 => Some NSEC3 | 51 => Some NSEC3PARAM
  | 256 => Some URI | 39 => Some DNAME | 43 => Some DS | 63 => Some ZONEMD
  | 65305 => Some ANAME
  | _ => None
  end.

(** [is_zone_content]: not a product of signing. *)
Definition is_zone_content (k : RecordKind) : bool :=
  match k with DNSKEY | NSEC | RRSIG => false | _ => true end.

(** * Records *)

Record DnsRecord := mkRecord {
  r_id : option Z;
  r_name : string;
  r_type : RecordKind;
  r_value : string;
  r_ttl : Z;
  r_priority : Z;
}.

#[export] Instance DnsRecord_eq_dec : EqDecision DnsRecord.
Proof. solve_decision. Defined.

Definition set_name (n : string) (r : DnsRecord) : DnsRecord :=
  mkRecord (r_id r) n (r_type r) (r_value r) (r_ttl r) (r_priority r).
Definition set_ttl (t : Z) (r : DnsRecord) : DnsRecord :=
  mkRecord (r_id r) (r_name r) (r_type r) (r_value r) t (r_priority r).
Definition set_value (v : string) (r : DnsRecord) : DnsRecord :=
  mkRecord (r_id r) (r_name r) (r_type r) v (r_ttl r) (r_priority r).

(** * Lemmas *)

Lemma parse_kind_as_str k : parse_kind (as_str k) = Some k.
Proof. destruct k; vm_compute; reflexivity. Qed.

Lemma as_str_inj k j : as_str k = as_str j -> k = j.
Proof.
  intros E. apply (f_equal parse_kind) in E. rewrite !parse_kind_as_str in E. congruence.
Qed.

Lemma as_str_no_colon k : free_of ":" (as_str k) = true.
Proof. destruct k; vm_compute; reflexivity. Qed.

(** * Properties *)

(** The three encodings of a record kind decode back to it: the text stored in
    the database (in any letter case), the wire type code a query carries, and
    the management interface's enumeration; so no two kinds share a code. *)
Theorem record_kind_codecs k :
  parse_kind (as_str k) = Some k /\ parse_kind (to_lowercase (as_str k)) = Some k /\
  map_query_type_to_kind (wire_type k) = Some k /\
  from_proto_i32 (to_proto_i32 k) = Some k /\
  (forall rt j, map_query_type_to_kind rt = Some j -> wire_type j = rt) /\
  (forall v j, from_proto_i32 v = Some j -> to_proto_i32 j = v).
Proof.
  repeat split; try (destruct k; vm_compute; reflexivity).
  - intros rt j. unfold map_query_type_to_kind.
    repeat case_match; intros; simplify_eq; reflexivity.
  - intros v j. unfold from_proto_i32.
    repeat case_match; intros; simplify_eq; reflexivity.
Qed.
