(* ===== verification/Rrsig.v ===== *)
(** Stored signatures ([src/src/dnssec.rs]): the algorithm identifiers, the
    [Rrsig] fields and their text form in the database. The base64 codec is the
    library's. *)

From S2P Require Import Prelude RustStr Names Ip Records.
From stdpp Require Import base gmap list option strings.
From Stdlib Require Import ZArith Lia Bool Ascii.

Open Scope Z_scope.

(** * Algorithms *)

Inductive DnssecAlgorithm := RsaSha256 | EcdsaP256Sha256 | EcdsaP384Sha384 | Ed25519.

#[export] Instance DnssecAlgorithm_eq_dec : EqDecision DnssecAlgorithm.
Proof. solve_decision. Defined.

(** The discriminants, the [as u8] cast. *)
Definition algorithm_u8 (a : DnssecAlgorithm) : Z :=
  match a with RsaSha256 => 8 | EcdsaP256Sha256 => 13 | EcdsaP384Sha384 => 14 | Ed25519 => 15 end.

Definition str_in (s : string) (l : list string) : bool := existsb (String.eqb s) l.

Definition parse_algorithm (s : string) : option DnssecAlgorithm :=
  let l := to_lowercase s in
  if str_in l ["rsa-sha256"; "rsasha256"; "8"] then Some RsaSha256
  else if str_in l ["ecdsa-p256"; "ecdsap256sha256"; "ecdsa-p256-sha256"; "13"]
       then Some EcdsaP256Sha256
  else if str_in l ["ecdsa-p384"; "ecdsap384sha384"; "ecdsa-p384-sha384"; "14"]
       then Some EcdsaP384Sha384
  else if str_in l ["ed25519"; "15"] then Some Ed25519
  else None.

Definition algorithm_as_str (a : DnssecAlgorithm) : string :=
  match a with
  | RsaSha256 => "RSA-SHA256"
  | EcdsaP256Sha256 => "ECDSA-P256-SHA256"
  | EcdsaP384Sha384 => "ECDSA-P384-SHA384"
  | Ed25519 => "Ed25519"
  end.

Definition signing_supported (a : DnssecAlgorithm) : bool :=
  match a with RsaSha256 => false | _ => true end.

Definition public_key_len (a : DnssecAlgorithm) : option Z :=
  match a with
  | Ed25519 => Some 32
  | EcdsaP256Sha256 => Some 64
  | EcdsaP384Sha384 => Some 96
  | RsaSha256 => None
  end.

(** * Signatures *)

Record Rrsig := mkRrsig {
  type_covered : RecordKind;
  algorithm : DnssecAlgorithm;
  labels : Z;
  original_ttl : Z;
  expiration : Z;
  inception : Z;
  key_tag : Z;
  signer_name : string;
  signature : list Z;
}.

(** The standard base64 engine. *)
Class Base64 := {
  b64_encode : list Z -> string;
  b64_decode : string -> option (list Z);
}.

Class Base64Laws `{!Base64} := {
  b64_decode_encode bs : Forall (is_u 8) bs -> b64_decode (b64_encode bs) = Some bs;
  b64_no_space bs : str_forall (fun c => negb (is_space c)) (b64_encode bs) = true;
  b64_nonempty bs : bs <> [] -> b64_encode bs <> "";
}.

(** [split_whitespace]: the non-empty runs between spaces. *)
Fixpoint split_ws (s : string) : list string :=
  match s with
  | EmptyString => []
  | String c s' =>
      if is_space c then split_ws s'
      else match s' with
           | EmptyString => [String c ""]
           | String d _ =>
               if is_space d then String c "" :: split_ws s'
               else match split_ws s' with
                    | w :: ws => String c w :: ws
                    | [] => [String c ""]
                    end
           end
  end.

Inductive rrsig_error := TooFewFields | UnknownType | UnknownAlgorithm | BadNumber | BadBase64.

Definition ok_or {A E} (o : option A) (e : E) : result A E :=
  match o with Some a => Ok a | None => Err e end.

Section Codec.
Context `{!Base64}.
Local Open Scope rolodex_scope.

Definition to_value (r : Rrsig) : string :=
  str_join " " [as_str (type_covered r); show_dec (algorithm_u8 (algorithm r));
    show_dec (labels r); show_dec (original_ttl r); show_dec (expiration r);
    show_dec (inception r); show_dec (key_tag r); signer_name r; b64_encode (signature r)].

Definition rrsig_parse (value : string) : result Rrsig rrsig_error :=
  match split_ws value with
  | f0 :: f1 :: f2 :: f3 :: f4 :: f5 :: f6 :: f7 :: f8 :: _ =>
      ty <-? ok_or (parse_kind f0) UnknownType;
      alg <-? ok_or (parse_algorithm f1) UnknownAlgorithm;
      labs <-? ok_or (parse_uint 10 u8_max f2) BadNumber;
      ottl <-? ok_or (parse_uint 10 u32_max f3) BadNumber;
      exp <-? ok_or (parse_uint 10 u32_max f4) BadNumber;
      inc <-? ok_or (parse_uint 10 u32_max f5) BadNumber;
      tag <-? ok_or (parse_uint 10 u16_max f6) BadNumber;
      sig <-? ok_or (b64_decode f8) BadBase64;
      Ok (mkRrsig ty alg labs ottl exp inc tag f7 sig)
  | _ => Err TooFewFields
  end.

End Codec.

(** A signature the program can hold. *)
Definition rrsig_wf (r : Rrsig) : Prop :=
  is_u 8 (labels r) /\ is_u 32 (original_ttl r) /\ is_u 32 (expiration r) /\
  is_u 32 (inception r) /\ is_u 16 (key_tag r) /\
  signer_name r <> "" /\ str_forall (fun c => negb (is_space c)) (signer_name r) = true /\
  signature r <> [] /\ Forall (is_u 8) (signature r).

(** * Lemmas *)

Definition word (w : string) : Prop :=
  w <> "" /\ str_forall (fun c => negb (is_space c)) w = true.

Lemma split_ws_word w : word w -> split_ws w = [w].
Proof.
  intros [Hne Hs]. induction w as [|c w IH]; [done|]. simpl in *. bool_hyps.
  rewrite H. destruct w as [|d w]; [done|]. simpl in H0. bool_hyps.
  rewrite H0. rewrite IH; [done|done|]. simpl. by rewrite H0, H1.
Qed.

Lemma split_ws_step c d s :
  is_space c = false -> is_space d = false ->
  split_ws (String c (String d s)) =
    match split_ws (String d s) with w :: ws => String c w :: ws | [] => [String c ""] end.
Proof. intros Hc Hd. cbn [split_ws]. by rewrite Hc, Hd. Qed.

Lemma split_ws_cons w s : word w -> split_ws (w +:+ " " +:+ s) = w :: split_ws s.
Proof.
  intros [Hne Hs]. induction w as [|c w IH]; [done|]. simpl in Hs. bool_hyps.
  destruct w as [|d w]; [simpl; by rewrite H|].
  pose proof H0 as Hw. simpl in Hw. bool_hyps.
  change (split_ws (String c (String d (w +:+ " " +:+ s))) = String c (String d w) :: split_ws s).
  rewrite split_ws_step by done.
  change (String d (w +:+ " " +:+ s)) with (String d w +:+ " " +:+ s). by rewrite IH.
Qed.

Lemma split_ws_join ws : Forall word ws -> split_ws (str_join " " ws) = ws.
Proof.
  induction 1 as [|w ws Hw Hws IH]; [done|]. destruct ws as [|w' ws].
  - simpl. by apply split_ws_word.
  - change (str_join " " (w :: w' :: ws)) with (w +:+ " " +:+ str_join " " (w' :: ws)).
    by rewrite split_ws_cons, IH.
Qed.

Lemma word_kind k : word (as_str k).
Proof. destruct k; split; by vm_compute. Qed.

Lemma word_number n : 0 <= n < 10 ^ 40 -> word (show_dec n).
Proof.
  intros Hn. split; [by apply show_dec_nonempty|].
  eapply str_forall_impl; [|apply (show_dec_digits n)].
  intros c Hc. destruct c as [[] [] [] [] [] [] [] []]; vm_compute in Hc |- *; congruence.
Qed.

Lemma parse_algorithm_u8 a : parse_algorithm (show_dec (algorithm_u8 a)) = Some a.
Proof. destruct a; vm_compute; reflexivity. Qed.

Lemma algorithm_u8_range a : 0 <= algorithm_u8 a < 10 ^ 40.
Proof. destruct a; simpl; lia. Qed.

Lemma rrsig_parse_to_value `{!Base64, !Base64Laws} r :
  rrsig_wf r -> rrsig_parse (to_value r) = Ok r.
Proof.
  intros (H1 & H2 & H3 & H4 & H5 & Hs & Hsp & Hg & Hb).
  unfold is_u in H1, H2, H3, H4, H5.
  unfold rrsig_parse, to_value. rewrite split_ws_join.
  - rewrite parse_kind_as_str, parse_algorithm_u8. cbn [ok_or result_bind].
    rewrite !parse_show_dec by (unfold u8_max, u16_max, u32_max; lia).
    cbn [ok_or result_bind]. rewrite b64_decode_encode by done. by destruct r.
  - repeat (apply Forall_cons_2; [try (apply word_number; lia)|]); try by apply Forall_nil_2.
    + apply word_kind.
    + apply word_number, algorithm_u8_range.
    + done.
    + split; [by apply b64_nonempty|apply b64_no_space].
Qed.

(** * Properties *)

(** A stored signature parses back to itself: the text written for any
    well-formed [Rrsig] (fields in range, a signer name without spaces, a
    signature that is not empty) is read back field for field. *)
Theorem rrsig_roundtrip `{!Base64, !Base64Laws} r :
  rrsig_wf r -> rrsig_parse (to_value r) = Ok r.
Proof. apply rrsig_parse_to_value. Qed.

(** A codec that meets the laws: two hexadecimal digits a byte. *)
Fixpoint hex_encode (bs : list Z) : string :=
  match bs with
  | [] => ""
  | b :: bs' => String (digit_char (b mod 256 / 16)) (String (digit_char (b mod 16)) (hex_encode bs'))
  end.

Fixpoint hex_decode (s : string) : option (list Z) :=
  match s with
  | EmptyString => Some []
  | String h (String l s') =>
      match digit_value h, digit_value l, hex_decode s' with
      | Some x, Some y, Some bs => Some (x * 16 + y :: bs)
      | _, _, _ => None
      end
  | _ => None
  end.

#[local] Instance hex_codec : Base64 := { b64_encode := hex_encode; b64_decode := hex_decode }.

Lemma digit_char_no_space d : 0 <= d < 16 -> is_space (digit_char d) = false.
Proof.
  intros Hd. assert (d ∈ seqZ 0 16) as Hin by (apply elem_of_seqZ; lia).
  assert (forallb (fun d => negb (is_space (digit_char d))) (seqZ 0 16) = true)
    as Hall by (vm_compute; reflexivity).
  rewrite forallb_forall in Hall. apply list_elem_of_In, Hall in Hin. by bool_hyps.
Qed.

Lemma hex_digits_range b : 0 <= b mod 256 / 16 < 16 /\ 0 <= b mod 16 < 16.
Proof.
  pose proof (Z.mod_pos_bound b 256). pose proof (Z.mod_pos_bound b 16).
  split; [|lia]. split; [apply Z.div_pos; lia|apply Z.div_lt_upper_bound; lia].
Qed.

#[local] Instance hex_codec_laws : Base64Laws.
Proof.
  split; simpl.
  - induction 1 as [|b bs Hb Hbs IH]; [done|]. cbn [hex_encode hex_decode].
    destruct (hex_digits_range b). rewrite !digit_value_char, IH by lia.
    unfold is_u in Hb. rewrite (Z.mod_small b 256) by lia. do 2 f_equal.
    pose proof (Z.div_mod b 16). lia.
  - induction bs as [|b bs IH]; [done|]. destruct (hex_digits_range b).
    cbn [hex_encode str_forall]. by rewrite !digit_char_no_space, IH by lia.
  - by intros [|b bs].
Qed.

Lemma rrsig_roundtrip_witness :
  let r := mkRrsig AAAA Ed25519 2 300 1999999999 1700000000 65535 "example.com." [1; 255] in
  rrsig_parse (to_value r) = Ok r /\
  to_value r = "AAAA 15 2 300 1999999999 1700000000 65535 example.com. 01ff".
Proof.
  split; [|vm_compute; reflexivity].
  apply (rrsig_roundtrip
    (mkRrsig AAAA Ed25519 2 300 1999999999 1700000000 65535 "example.com." [1; 255])).
  unfold rrsig_wf, is_u; cbn. repeat split; try done.
  repeat (apply Forall_cons_2; [lia|]). apply Forall_nil_2.
Defined.
