(* ===== verification/Sql.v ===== *)
(** The SQL the program's queries rely on: [LIKE] with an escape character, and
    the escaping of [src/src/db.rs] that makes it an exact suffix test. *)

From S2P Require Import Prelude RustStr Names.
From stdpp Require Import base gmap list option strings.
From Stdlib Require Import ZArith Lia Bool Ascii.

(** * [LIKE] *)

(** [x LIKE p ESCAPE '\']: a percent sign matches any text, an underscore any
    character, an escaped character itself; letters match in either case. *)
Fixpoint sql_like (p : string) : string -> bool :=
  match p with
  | EmptyString => fun s => (s =? "")%string
  | String c p' =>
      if Ascii.eqb c "\" then
        match p' with
        | String d p'' => fun s =>
            match s with
            | String e s' => Ascii.eqb (lower_char d) (lower_char e) && sql_like p'' s'
            | EmptyString => false
            end
        | EmptyString => fun _ => false
        end
      else if Ascii.eqb c "%" then
        fix any s := sql_like p' s || match s with
                                      | String _ s' => any s'
                                      | EmptyString => false
                                      end
      else if Ascii.eqb c "_" then fun s =>
        match s with String _ s' => sql_like p' s' | EmptyString => false end
      else fun s =>
        match s with
        | String e s' => Ascii.eqb (lower_char c) (lower_char e) && sql_like p' s'
        | EmptyString => false
        end
  end.

(** [x LIKE p] with no escape character. *)
Fixpoint sql_like_plain (p : string) : string -> bool :=
  match p with
  | EmptyString => fun s => (s =? "")%string
  | String c p' =>
      if Ascii.eqb c "%" then
        fix any s := sql_like_plain p' s || match s with
                                            | String _ s' => any s'
                                            | EmptyString => false
                                            end
      else if Ascii.eqb c "_" then fun s =>
        match s with String _ s' => sql_like_plain p' s' | EmptyString => false end
      else fun s =>
        match s with
        | String e s' => Ascii.eqb (lower_char c) (lower_char e) && sql_like_plain p' s'
        | EmptyString => false
        end
  end.

(** [str::replace(char, &str)]. *)
Fixpoint str_replace (c : ascii) (by_ : string) (s : string) : string :=
  match s with
  | EmptyString => EmptyString
  | String d s' =>
      if Ascii.eqb d c then by_ +:+ str_replace c by_ s' else String d (str_replace c by_ s')
  end.

(** [like_escape]. *)
Definition like_escape (s : string) : string :=
  str_replace "_" "\_" (str_replace "%" "\%" (str_replace "\" "\\" s)).

(** * The escape makes the pattern literal *)

Lemma str_replace_app c b s t :
  str_replace c b (s +:+ t) = str_replace c b s +:+ str_replace c b t.
Proof.
  induction s as [|d s IH]; simpl; [done|].
  destruct (Ascii.eqb d c); rewrite IH; [by rewrite app_assoc_str|done].
Qed.

Definition escape_char (c : ascii) : string :=
  if Ascii.eqb c "\" || Ascii.eqb c "%" || Ascii.eqb c "_"
  then String "\" (String c "") else String c "".

Lemma like_escape_cons c s : like_escape (String c s) = escape_char c +:+ like_escape s.
Proof.
  unfold like_escape. change (String c s) with (String c "" +:+ s).
  rewrite !str_replace_app. f_equal. unfold escape_char.
  destruct c as [[] [] [] [] [] [] [] []]; reflexivity.
Qed.

Lemma sql_like_escape_char c p s :
  sql_like (escape_char c +:+ p) s =
    match s with
    | String e s' => Ascii.eqb (lower_char c) (lower_char e) && sql_like p s'
    | EmptyString => false
    end.
Proof.
  unfold escape_char. destruct (Ascii.eqb c "\") eqn:E1; [done|].
  destruct (Ascii.eqb c "%") eqn:E2; [done|]. destruct (Ascii.eqb c "_") eqn:E3; [done|].
  simpl. by rewrite E1, E2, E3.
Qed.

Lemma sql_like_escape z s :
  sql_like (like_escape z) s = (to_lowercase z =? to_lowercase s)%string.
Proof.
  revert s. induction z as [|c z IH]; intros s.
  - simpl. destruct s; [done|]. reflexivity.
  - rewrite like_escape_cons, sql_like_escape_char. destruct s as [|e s]; [done|].
    rewrite IH. unfold to_lowercase. simpl.
    destruct (Ascii.eqb_spec (lower_char c) (lower_char e)) as [E|E]; simpl.
    + rewrite E. apply eq_iff_eq_true. rewrite !String.eqb_eq. split; congruence.
    + symmetry. apply String.eqb_neq. congruence.
Qed.

(** The suffix pattern the queries build: any text, then the literal. *)
Lemma sql_like_suffix_raw p s :
  sql_like (String "%" p) s = true <-> exists a b, s = a +:+ b /\ sql_like p b = true.
Proof.
  simpl. induction s as [|c s IH].
  - rewrite orb_false_r. split; [by exists "", ""|].
    intros (a & b & E & H). destruct a; simplify_eq/=; done.
  - rewrite orb_true_iff, IH. split.
    + intros [H|(a & b & -> & H)]; [by exists "", (String c s)|by exists (String c a), b].
    + intros (a & b & E & H). destruct a as [|d a]; simplify_eq/=; [by left|right; eauto].
Qed.

Lemma sql_like_suffix z s :
  sql_like ("%" +:+ "." +:+ like_escape z) s =
    ends_with ("." +:+ to_lowercase z) (to_lowercase s).
Proof.
  apply eq_iff_eq_true. rewrite ends_with_spec.
  change ("%" +:+ "." +:+ like_escape z) with (String "%" (escape_char "." +:+ like_escape z)).
  rewrite <- like_escape_cons, sql_like_suffix_raw. setoid_rewrite sql_like_escape.
  split.
  - intros (a & b & -> & H). bool_hyps. exists (to_lowercase a).
    rewrite to_lowercase_app, <- H. done.
  - intros [p Hp]. revert p Hp.
    induction s as [|c s IH]; intros p Hp.
    + apply (f_equal String.length) in Hp. rewrite app_length_str in Hp. simpl in Hp. lia.
    + destruct p as [|d p].
      * exists "", (String c s). split; [done|]. apply String.eqb_eq. by rewrite Hp.
      * change (String (lower_char c) (to_lowercase s) =
          String d (p +:+ "." +:+ to_lowercase z)) in Hp.
        simplify_eq. destruct (IH p) as (a & b & -> & H'); [done|].
        by exists (String c a), b.
Qed.

(** On lowercase text the pattern is the exact suffix test. *)
Lemma sql_like_suffix_lower z s :
  to_lowercase z = z -> to_lowercase s = s ->
  sql_like ("%" +:+ "." +:+ like_escape z) s = ends_with ("." +:+ z) s.
Proof. intros Hz Hs. by rewrite sql_like_suffix, Hz, Hs. Qed.

(** A leading percent sign takes any text before the rest of the pattern. *)
Lemma sql_like_plain_any b s :
  sql_like_plain (String "%" b) s =
  sql_like_plain b s || match s with String _ s' => sql_like_plain (String "%" b) s' | EmptyString => false end.
Proof. by destruct s. Qed.

(** Without an escape a pattern still matches itself, whatever it holds. *)
Lemma sql_like_plain_refl p : sql_like_plain p p = true.
Proof.
  induction p as [|c p IH]; [done|]. destruct (Ascii.eqb_spec c "%") as [->|Hc].
  - rewrite sql_like_plain_any. apply orb_true_iff. right. rewrite sql_like_plain_any. by rewrite IH.
  - simpl. rewrite (proj2 (Ascii.eqb_neq _ _) Hc). destruct (Ascii.eqb_spec c "_"); [done|].
    by rewrite Ascii.eqb_refl, IH.
Qed.

Lemma sql_like_plain_suffix a b : sql_like_plain (String "%" b) (a +:+ b) = true.
Proof.
  induction a as [|c a IH]; rewrite sql_like_plain_any; simpl.
  - by rewrite sql_like_plain_refl.
  - simpl in IH. rewrite IH. by rewrite orb_true_r.
Qed.
