(* ===== verification/Hickory.v ===== *)
(** What the program relies on of the DNS library it links: domain names, their
    presentation form and parents, record types and records. Each interface is a
    class of operations and a class of the laws the library documents; the
    instances at the end show that they can be met. *)

From S2P Require Import Prelude RustStr Names.
From stdpp Require Import base gmap list option strings.
From Stdlib Require Import ZArith Lia Bool Ascii.

(** * Names *)

(** [hickory_proto::rr::Name]: [to_ascii], [is_root] and [base_name];
    [name_labels] is the list of labels in presentation form. *)
Class DnsName (Name : Type) := {
  name_labels : Name -> list string;
  to_ascii : Name -> string;
  is_root : Name -> bool;
  base_name : Name -> Name;
}.

(** Documented behaviour on absolute names: the text is the labels, dotted; the
    root is the name without labels; [base_name] trims off the first label. *)
Class DnsNameLaws (Name : Type) `{!DnsName Name} := {
  to_ascii_labels n : to_ascii n = fqdn (name_labels n);
  is_root_labels n : is_root n = true <-> name_labels n = [];
  base_name_labels n : name_labels (base_name n) = drop 1 (name_labels n);
}.

(** Comparison and surgery: [==], [<] in canonical order, [zone_of], [num_labels]
    (which does not count a leading asterisk), [trim_to], and [*] with
    [append_name], which fails on a name that would be too long. *)
Class NameOrder (Name : Type) := {
  name_eqb : Name -> Name -> bool;
  name_ltb : Name -> Name -> bool;
  zone_of : Name -> Name -> bool;
  num_labels : Name -> Z;
  trim_to : nat -> Name -> Name;
  star_dot : Name -> option Name;
}.

(** The labels that comparisons look at. *)
Definition folded_labels {Name} `{!DnsName Name} (n : Name) : list string :=
  to_lowercase <$> name_labels n.

(** Documented behaviour: letter case does not count, a zone contains the names
    that end in its labels, the order is a strict order on distinct names. *)
Class NameOrderLaws (Name : Type) `{!DnsName Name, !NameOrder Name} := {
  name_eqb_labels a b : name_eqb a b = true <-> folded_labels a = folded_labels b;
  zone_of_labels z n : zone_of z n = true <-> folded_labels z `suffix_of` folded_labels n;
  name_ltb_irrefl a : name_ltb a a = false;
  name_ltb_trans a b c : name_ltb a b = true -> name_ltb b c = true -> name_ltb a c = true;
  name_ltb_total a b : name_eqb a b = false -> name_ltb a b = true \/ name_ltb b a = true;
  name_ltb_eq_l a b c : name_eqb a b = true -> name_ltb a c = name_ltb b c;
  name_ltb_eq_r a b c : name_eqb a b = true -> name_ltb c a = name_ltb c b;
}.

(** * Record types and records *)

(** [RecordType]'s [Display]. *)
Class ShowType (RType : Type) := show_type : RType -> string.

Class ShowTypeLaws (RType : Type) `{!ShowType RType} := {
  show_type_inj t u : show_type t = show_type u -> t = u;
  show_type_free t : free_of ":" (show_type t) = true;
}.

(** [Record::ttl] and [Record::set_ttl]. *)
Class TtlRecord (R : Type) := {
  rec_ttl : R -> Z;
  rec_set_ttl : Z -> R -> R;
}.

Class TtlRecordLaws (R : Type) `{!TtlRecord R} := {
  rec_ttl_u32 r : is_u 32 (rec_ttl r);
  rec_ttl_set t r : is_u 32 t -> rec_ttl (rec_set_ttl t r) = t;
}.

(** * Instances *)

(** Label lists. *)
#[export] Instance label_list_name : DnsName (list string) := {
  name_labels ls := ls;
  to_ascii := fqdn;
  is_root ls := if ls is [] then true else false;
  base_name ls := drop 1 ls;
}.

#[export] Instance label_list_name_laws : DnsNameLaws (list string).
Proof. split; [done| |done]. intros [|l ls]; split; done. Qed.

(** Canonical order: labels from the right, shorter first. *)
Fixpoint labels_ltb (a b : list string) : bool :=
  match a, b with
  | [], [] => false
  | [], _ :: _ => true
  | _ :: _, [] => false
  | x :: a', y :: b' => String.ltb x y || (String.eqb x y && labels_ltb a' b')
  end.

#[export] Instance label_list_order : NameOrder (list string) := {
  name_eqb a b := bool_decide (to_lowercase <$> a = to_lowercase <$> b);
  name_ltb a b := labels_ltb (reverse (to_lowercase <$> a)) (reverse (to_lowercase <$> b));
  zone_of z n := bool_decide ((to_lowercase <$> z) `suffix_of` (to_lowercase <$> n));
  num_labels n := (Z.of_nat (length n) - match n with l :: _ => if (l =? "*")%string then 1 else 0 | [] => 0 end)%Z;
  trim_to k n := drop (length n - k) n;
  star_dot n := Some ("*" :: n);
}.

Lemma string_ltb_lt a b : String.ltb a b = true <-> String.compare a b = Lt.
Proof. unfold String.ltb. by destruct (String.compare a b). Qed.

Lemma ascii_compare_lt a b : Ascii.compare a b = Lt <-> (N_of_ascii a < N_of_ascii b)%N.
Proof. unfold Ascii.compare. apply N.compare_lt_iff. Qed.

Lemma string_compare_trans a b c :
  String.compare a b = Lt -> String.compare b c = Lt -> String.compare a c = Lt.
Proof.
  revert b c. induction a as [|x a IH]; intros [|y b] [|z c]; simpl; try done.
  destruct (Ascii.compare x y) eqn:E1, (Ascii.compare y z) eqn:E2; try done; intros H1 H2.
  - apply Ascii.compare_eq_iff in E1 as ->. rewrite E2. by apply (IH b).
  - apply Ascii.compare_eq_iff in E1 as ->. by rewrite E2.
  - apply Ascii.compare_eq_iff in E2 as ->. by rewrite E1.
  - rewrite (proj2 (ascii_compare_lt x z)); [done|].
    apply ascii_compare_lt in E1, E2. by etrans.
Qed.

Lemma string_compare_refl a : String.compare a a = Eq.
Proof.
  induction a as [|x a IH]; simpl; [done|]. unfold Ascii.compare. by rewrite N.compare_refl.
Qed.

Lemma labels_ltb_irrefl a : labels_ltb a a = false.
Proof.
  induction a as [|x a IH]; simpl; [done|]. rewrite IH, andb_false_r, orb_false_r.
  unfold String.ltb. by rewrite string_compare_refl.
Qed.

Lemma labels_ltb_trans a b c :
  labels_ltb a b = true -> labels_ltb b c = true -> labels_ltb a c = true.
Proof.
  revert b c. induction a as [|x a IH]; intros [|y b] [|z c]; simpl; try done.
  rewrite !orb_true_iff, !andb_true_iff, !String.eqb_eq, !string_ltb_lt.
  intros [H1|[-> H1]] [H2|[-> H2]]; auto.
  - left. by eapply string_compare_trans.
  - right. split; [done|]. by apply (IH b).
Qed.

Lemma labels_ltb_total a b : a <> b -> labels_ltb a b = true \/ labels_ltb b a = true.
Proof.
  revert b. induction a as [|x a IH]; intros [|y b] H; simpl; auto.
  rewrite !orb_true_iff, !andb_true_iff, !String.eqb_eq, !string_ltb_lt.
  destruct (String.compare x y) eqn:E.
  - apply String.compare_eq_iff in E as ->. assert (a <> b) as Hab by congruence.
    destruct (IH _ Hab); auto.
  - auto.
  - right. left. rewrite String.compare_antisym, E. done.
Qed.

#[export] Instance label_list_order_laws : NameOrderLaws (list string).
Proof.
  split; simpl; unfold folded_labels; simpl.
  - intros a b. apply bool_decide_eq_true.
  - intros z n. apply bool_decide_eq_true.
  - intros a. apply labels_ltb_irrefl.
  - intros a b c. apply labels_ltb_trans.
  - intros a b H. apply bool_decide_eq_false in H. apply labels_ltb_total.
    intros E. apply H. by apply (inj reverse).
  - intros a b c H. apply bool_decide_eq_true in H. by rewrite H.
  - intros a b c H. apply bool_decide_eq_true in H. by rewrite H.
Qed.

(** Record types by their text, and records reduced to their TTL. *)
Inductive sample_type := TypeA | TypeNS.

#[export] Instance sample_show : ShowType sample_type :=
  fun t => match t with TypeA => "A" | TypeNS => "NS" end.

#[export] Instance sample_show_laws : ShowTypeLaws sample_type.
Proof. split; [by intros [] []|by intros []]. Qed.

Record sample_record := SampleRecord { sample_data : string; sample_ttl : Z }.

#[export] Instance sample_ttl_record : TtlRecord sample_record := {
  rec_ttl r := as_u 32 (sample_ttl r);
  rec_set_ttl t r := SampleRecord (sample_data r) t;
}.

#[export] Instance sample_ttl_record_laws : TtlRecordLaws sample_record.
Proof. split; [intros; by apply as_u_is_u|intros t r Ht; by apply as_u_id]. Qed.

(** * Keys *)

(** Lowercase text of a name, the key of every resolver cache. *)
Lemma to_lower_fqdn ls : to_lowercase (fqdn ls) = fqdn (to_lowercase <$> ls).
Proof.
  destruct ls as [|l ls]; [done|]. unfold fqdn. rewrite fmap_cons.
  by rewrite to_lowercase_app, to_lowercase_join.
Qed.
