(* ===== verification/ExpiringCache.v ===== *)
(** The bounded map of expiring entries behind the resolver's three caches: the
    [reap_if_full] of [src/src/record_cache.rs], [src/src/key_cache.rs] and
    [src/src/delegation_cache.rs], which has the same body in each. *)

From S2P Require Import Prelude RustStr.
From stdpp Require Import base gmap sets list option strings fin_maps.
From Stdlib Require Import ZArith Lia Bool Ascii.

(** * Iteration order *)

(** [DashMap::iter().next()]: some key of the map, which one is not specified. *)
Class VictimChoice (V : Type) := victim : gmap string V -> option string.

Class VictimLaws (V : Type) `{!VictimChoice V} := {
  victim_None (m : gmap string V) : victim m = None -> m = ∅;
  victim_Some (m : gmap string V) k : victim m = Some k -> is_Some (m !! k);
}.

(** One possible order. *)
Definition first_key {V} (m : gmap string V) : option string := fst <$> head (map_to_list m).

#[export] Instance first_key_choice V : VictimChoice V := first_key.

#[export] Instance first_key_laws V : VictimLaws V.
Proof.
  split; intros m; unfold victim, first_key_choice, first_key.
  - destruct (map_to_list m) eqn:E; [|done]. intros _. by apply map_to_list_empty_iff.
  - intros k. destruct (map_to_list m) as [|[k' v] l] eqn:E; [done|].
    intros [= <-]. exists v. apply elem_of_map_to_list. rewrite E. by left.
Qed.

(** * Reaping *)

Section Reap.
Context {V : Type} (expires_at : V -> Z) (cap : nat) `{!VictimChoice V}.

(** [retain(|_, v| v.expires_at > now)]. *)
Definition retain_live (now : Z) (m : gmap string V) : gmap string V :=
  filter (fun kv => (now < expires_at kv.2)%Z) m.

(** The eviction loop; each round removes an entry, so the size is enough fuel. *)
Fixpoint evict (fuel : nat) (m : gmap string V) : gmap string V :=
  if (size m <? cap)%nat then m
  else match fuel with
       | O => m
       | S f => match victim m with
                | Some k => evict f (delete k m)
                | None => m
                end
       end.

Definition reap_if_full (now : Z) (m : gmap string V) : gmap string V :=
  if (size m <? cap)%nat then m
  else let live := retain_live now m in evict (size live) live.

(** A lookup that drops the entry it finds expired. *)
Definition get_live (now : Z) (key : string) (m : gmap string V)
  : option V * gmap string V :=
  match m !! key with
  | None => (None, m)
  | Some e => if (expires_at e <=? now)%Z then (None, delete key m) else (Some e, m)
  end.

Context `{!VictimLaws V}.

Lemma evict_subseteq fuel m : evict fuel m ⊆ m.
Proof.
  revert m. induction fuel as [|f IH]; intros m; simpl; split_cases.
  etrans; [apply IH|]. apply delete_subseteq.
Qed.

(** The loop leaves the map below the cap, with any fuel that is at least the
    map's size. *)
Lemma evict_size fuel m : (0 < cap)%nat -> (size m <= fuel)%nat -> (size (evict fuel m) < cap)%nat.
Proof.
  intros Hc. revert m. induction fuel as [|f IH]; intros m Hm; simpl; case_match; bool_hyps; try lia.
  destruct (victim m) as [k|] eqn:E.
  - apply victim_Some in E. apply IH. pose proof (map_size_delete k m) as Hd. destruct E as [v E].
    rewrite E in Hd. assert (size m <> 0)%nat; [|lia].
    intros H0. apply map_size_empty_inv in H0. subst. by rewrite lookup_empty in E.
  - apply victim_None in E. subst. rewrite map_size_empty. lia.
Qed.

Lemma evict_fuel fuel m : (size m <= fuel)%nat -> evict fuel m = evict (size m) m.
Proof.
  remember (size m) as n eqn:Hn. revert fuel m Hn.
  induction n as [|n IH]; intros fuel m Hn Hf.
  - symmetry in Hn. apply map_size_empty_inv in Hn. subst m.
    destruct fuel; simpl; [done|]. destruct (victim ∅) as [k|] eqn:E; [|done].
    apply victim_Some in E. rewrite lookup_empty in E. by destruct E.
  - destruct fuel as [|f]; [lia|]. simpl. rewrite <- Hn.
    case_match; [done|]. destruct (victim m) as [k|] eqn:E; [|done].
    apply victim_Some in E as [v E]. pose proof (map_size_delete k m) as Hd. rewrite E in Hd.
    apply IH; lia.
Qed.

Lemma retain_live_subseteq now m : retain_live now m ⊆ m.
Proof. apply map_filter_subseteq. Qed.

Lemma reap_subseteq now m : reap_if_full now m ⊆ m.
Proof.
  unfold reap_if_full. case_match; [done|].
  etrans; [apply evict_subseteq|apply retain_live_subseteq].
Qed.

Lemma reap_size now m : (0 < cap)%nat -> (size (reap_if_full now m) < cap)%nat.
Proof.
  intros Hc. unfold reap_if_full. case_match; bool_hyps; [done|]. by apply evict_size.
Qed.

(** Nothing live is evicted while the live entries fit. *)
Lemma reap_keeps_live now m k v :
  (size (retain_live now m) < cap)%nat -> m !! k = Some v -> (now < expires_at v)%Z ->
  reap_if_full now m !! k = Some v.
Proof.
  intros Hs Hk Hv. unfold reap_if_full. case_match; [done|].
  assert (evict (size (retain_live now m)) (retain_live now m) = retain_live now m) as ->.
  { apply Nat.ltb_lt in Hs. destruct (size (retain_live now m)) eqn:E; simpl; rewrite E, Hs; done. }
  unfold retain_live. by apply map_lookup_filter_Some_2.
Qed.

Lemma insert_reaped_size now m k v :
  (0 < cap)%nat -> (size (<[k:=v]> (reap_if_full now m)) <= cap)%nat.
Proof.
  intros Hc. pose proof (reap_size now m Hc). rewrite map_size_insert. case_match; simpl; lia.
Qed.

Lemma get_live_subseteq now k m : (get_live now k m).2 ⊆ m.
Proof. unfold get_live. repeat case_match; simpl; try done. apply delete_subseteq. Qed.

Lemma get_live_Some now k m e :
  (get_live now k m).1 = Some e <-> m !! k = Some e /\ (now < expires_at e)%Z.
Proof.
  unfold get_live. destruct (m !! k) as [e'|]; simpl; [|split; [done|by intros [? _]]].
  case_match; bool_hyps; simpl; split; try done.
  - intros [[= ->] ?]. lia.
  - intros [= ->]. done.
  - by intros [[= ->] _].
Qed.

End Reap.
