(* ===== verification/RecordCache.v ===== *)
(** The resolver's record cache ([src/src/record_cache.rs]): record sets seen
    during a walk, kept for their own lifetime and served with the time that is
    left of it. *)

From S2P Require Import Prelude RustStr Names Hickory ExpiringCache.
From stdpp Require Import base gmap list option strings fin_maps.
From Stdlib Require Import ZArith Lia Bool Ascii.

Open Scope Z_scope.

Definition MAX_RECORD_TTL : Z := 604800.
Definition MAX_RECORD_ENTRIES : nat := Z.to_nat 50000.

Module RecordCache.

Section Cache.
Context {Name RType R : Type}.
Context `{!DnsName Name, !ShowType RType, !TtlRecord R}.

(** * State *)

Record CachedRecords := mkCached {
  records : list R;
  expires_at : Z;
  secure : bool;
}.

Record t := mk {
  entries : gmap string CachedRecords;
  default_ttl : Z;
}.

Context `{!VictimChoice CachedRecords}.

Definition new (ttl : Z) : t := mk ∅ ttl.

Definition key (name : Name) (rtype : RType) : string :=
  to_lowercase (to_ascii name) +:+ ":" +:+ show_type rtype.

(** [Iterator::min]. *)
Definition min_of (l : list Z) : option Z :=
  match l with [] => None | x :: l' => Some (foldl Z.min x l') end.

Definition lifetime (c : t) (rs : list R) : Z :=
  match min_of (filter (fun x => 0 < x) (rec_ttl <$> rs)) with
  | Some x => Z.min x MAX_RECORD_TTL
  | None => default_ttl c
  end.

(** * Operations *)

Definition insert_with_proof (now : Z) (name : Name) (rtype : RType) (rs : list R)
    (sec : bool) (c : t) : t :=
  if (length rs =? 0)%nat then c
  else
    let ttl := lifetime c rs in
    if ttl =? 0 then c
    else mk (<[key name rtype := mkCached rs (now + from_secs ttl) sec]>
               (reap_if_full expires_at MAX_RECORD_ENTRIES now (entries c)))
            (default_ttl c).

Definition insert (now : Z) (name : Name) (rtype : RType) (rs : list R) (c : t) : t :=
  insert_with_proof now name rtype rs false c.

Definition get_with_proof (now : Z) (name : Name) (rtype : RType) (c : t)
  : option (list R * bool) * t :=
  match get_live expires_at now (key name rtype) (entries c) with
  | (None, m) => (None, mk m (default_ttl c))
  | (Some e, m) =>
      let remaining := as_u 32 (as_secs (duration_since (expires_at e) now)) in
      (Some (rec_set_ttl (Z.max remaining 1) <$> records e, secure e), mk m (default_ttl c))
  end.

Definition get (now : Z) (name : Name) (rtype : RType) (c : t) : option (list R) * t :=
  let (r, c') := get_with_proof now name rtype c in (fst <$> r, c').

Definition flush (c : t) : t := mk ∅ (default_ttl c).

Definition len (c : t) : nat := size (entries c).

(** * Runs *)

(** The calls a resolver makes, in any order. *)
Inductive step (now : Z) (c : t) : t -> Prop :=
| step_insert n rt rs s : step now c (insert_with_proof now n rt rs s c)
| step_get n rt : step now c (get_with_proof now n rt c).2
| step_flush : step now c (flush c).

Inductive reachable (ttl : Z) : t -> Prop :=
| reach_new : reachable ttl (new ttl)
| reach_step now c c' : reachable ttl c -> step now c c' -> reachable ttl c'.

(** * Lemmas *)

Context `{!VictimLaws CachedRecords, !TtlRecordLaws R}.

Lemma foldl_min_le x l : foldl Z.min x l <= x /\ forall y, y ∈ l -> foldl Z.min x l <= y.
Proof.
  revert x. induction l as [|a l IH]; intros x; simpl.
  - split; [lia|]. intros y Hy. by apply elem_of_nil in Hy.
  - destruct (IH (Z.min x a)) as [H1 H2]. split; [lia|].
    intros y Hy. apply elem_of_cons in Hy as [->|Hy]; [lia|by apply H2].
Qed.

Lemma foldl_min_elem x l : foldl Z.min x l ∈ x :: l.
Proof.
  revert x. induction l as [|a l IH]; intros x; simpl; [by left|].
  specialize (IH (Z.min x a)). apply elem_of_cons in IH as [->|IH].
  - destruct (Z.min_spec x a) as [[_ ->]|[_ ->]]; set_solver.
  - by do 2 right.
Qed.

Lemma min_of_spec l m : min_of l = Some m <-> m ∈ l /\ forall y, y ∈ l -> m <= y.
Proof.
  destruct l as [|x l]; simpl.
  - split; [done|]. intros [H _]. by apply elem_of_nil in H.
  - pose proof (foldl_min_le x l) as [H1 H2]. pose proof (foldl_min_elem x l) as H3.
    assert (forall y, y ∈ x :: l -> foldl Z.min x l <= y) as H4.
    { intros y Hy. apply elem_of_cons in Hy as [->|Hy]; auto. }
    split; [by intros [= <-]|]. intros [Hm Hle]. f_equal.
    apply Z.le_antisymm; auto.
Qed.

(** The lifetime is the shortest positive TTL, capped; the default only when no
    record has one. *)
Lemma lifetime_spec c rs :
  (forall r, r ∈ rs -> 0 < rec_ttl r -> lifetime c rs <= rec_ttl r) /\
  ((exists r, r ∈ rs /\ 0 < rec_ttl r) -> 0 < lifetime c rs <= MAX_RECORD_TTL) /\
  ((forall r, r ∈ rs -> rec_ttl r <= 0) -> lifetime c rs = default_ttl c).
Proof.
  unfold lifetime.
  assert (forall r, r ∈ rs -> 0 < rec_ttl r ->
            rec_ttl r ∈ filter (fun x => 0 < x) (rec_ttl <$> rs)) as Hin.
  { intros r Hr H0. apply list_elem_of_filter. split; [done|]. by apply list_elem_of_fmap_2. }
  destruct (min_of _) as [m|] eqn:E.
  - apply min_of_spec in E as [Hm Hle].
    apply list_elem_of_filter in Hm as [H0 Hm]. apply list_elem_of_fmap in Hm as (r & -> & Hr).
    unfold MAX_RECORD_TTL. repeat split.
    + intros r' Hr' H'. specialize (Hle _ (Hin _ Hr' H')). lia.
    + lia.
    + lia.
    + intros Hz. specialize (Hz _ Hr). lia.
  - assert (filter (fun x => 0 < x) (rec_ttl <$> rs) = []) as En.
    { destruct (filter _ _); [done|]. discriminate E. }
    rewrite En in Hin. split; [|split; [|done]].
    + intros r Hr H0. specialize (Hin _ Hr H0). by apply elem_of_nil in Hin.
    + intros (r & Hr & H0). specialize (Hin _ Hr H0). by apply elem_of_nil in Hin.
Qed.

Lemma lifetime_u32 c rs : is_u 32 (default_ttl c) -> is_u 32 (lifetime c rs).
Proof.
  intros Hd. unfold lifetime. destruct (min_of _) as [m|] eqn:E; [|done].
  apply min_of_spec in E as [Hm _]. apply list_elem_of_filter in Hm as [H0 _].
  unfold is_u, MAX_RECORD_TTL in *. lia.
Qed.

Lemma step_size now c c' :
  (size (entries c) <= MAX_RECORD_ENTRIES)%nat -> step now c c' ->
  (size (entries c') <= MAX_RECORD_ENTRIES)%nat.
Proof.
  intros Hc [n rt rs s|n rt|].
  - unfold insert_with_proof. repeat case_match; try done.
    apply insert_reaped_size; [apply _|]. unfold MAX_RECORD_ENTRIES. lia.
  - unfold get_with_proof. destruct (get_live _ _ _ _) as [o m] eqn:E.
    assert (m ⊆ entries c) as Hm.
    { change m with (o, m).2. rewrite <- E. apply get_live_subseteq. }
    apply map_subseteq_size in Hm. destruct o; simpl; lia.
  - unfold flush. simpl. rewrite map_size_empty. lia.
Qed.

(** What a lookup finds right after an insertion, at any later time. *)
Lemma get_insert t0 t1 n rt rs sec c :
  rs <> [] -> lifetime c rs <> 0 ->
  let c' := insert_with_proof t0 n rt rs sec c in
  let until := t0 + from_secs (lifetime c rs) in
  (get_with_proof t1 n rt c').1 =
    if until <=? t1 then None
    else Some (rec_set_ttl (Z.max (as_u 32 (as_secs (duration_since until t1))) 1) <$> rs, sec).
Proof.
  intros Hrs Hl. simpl. unfold insert_with_proof.
  destruct rs as [|r rs']; [done|]. simpl length. cbn [Nat.eqb].
  rewrite (proj2 (Z.eqb_neq _ _) Hl). unfold get_with_proof, get_live. simpl.
  rewrite lookup_insert_eq. simpl. by destruct (_ <=? _).
Qed.

(** * Properties *)

(** A record set cached at [t0] is served until its lifetime is over and
    never afterwards, with its security status; the TTL it is served with is at
    least one second, never more than any positive TTL a record of the set came
    with, and (past the last second) never more than the time that is left, so
    that re-caching it cannot extend its life. *)
Theorem record_cache_ttl_decay t0 t1 n rt rs sec c :
  is_u 32 (default_ttl c) -> rs <> [] -> lifetime c rs <> 0 -> t0 <= t1 ->
  let until := t0 + from_secs (lifetime c rs) in
  let got := (get_with_proof t1 n rt (insert_with_proof t0 n rt rs sec c)).1 in
  (t1 < until ->
     exists ttl, got = Some (rec_set_ttl ttl <$> rs, sec) /\ 1 <= ttl /\
       (forall r, r ∈ rs -> 0 < rec_ttl r -> ttl <= rec_ttl r) /\
       (t1 + from_secs 1 <= until -> t1 + from_secs ttl <= until)) /\
  (until <= t1 -> got = None).
Proof.
  intros Hd Hrs Hl Ht. simpl. rewrite get_insert by done.
  set (L := lifetime c rs) in *. set (until := t0 + from_secs L).
  assert (is_u 32 L) as HL by (by apply lifetime_u32).
  split; intros H1; [|by rewrite (proj2 (Z.leb_le _ _) H1)].
  rewrite (proj2 (Z.leb_gt _ _) H1).
  assert (duration_since until t1 = until - t1) as -> by (unfold duration_since; lia).
  assert (0 <= as_secs (until - t1) <= L) as Hrem.
  { split; [apply as_secs_nonneg; lia|]. rewrite <- (as_secs_from_secs L).
    apply as_secs_mono. unfold until. lia. }
  rewrite as_u_id by (unfold is_u in *; lia).
  exists (Z.max (as_secs (until - t1)) 1). repeat split; [lia| |].
  - intros r Hr H0. pose proof (proj1 (lifetime_spec c rs) r Hr H0) as H2. fold L in H2.
    unfold is_u in HL. lia.
  - intros H2. unfold as_secs, from_secs, nanos_per_sec in *.
    pose proof (Z.mul_div_le (until - t1) 1000000000). lia.
Qed.

End Cache.

Arguments t : clear implicits.
Arguments CachedRecords : clear implicits.

Lemma record_cache_ttl_decay_witness :
  let rs := [SampleRecord "a" 300; SampleRecord "b" 120] in
  exists ttl, (get_with_proof (from_secs 50) ["example"; "com"] TypeA
     (insert_with_proof 0 ["example"; "com"] TypeA rs true (new 60))).1
    = Some (rec_set_ttl ttl <$> rs, true) /\ 1 <= ttl.
Proof.
  destruct (record_cache_ttl_decay 0 (from_secs 50) ["example"; "com"] TypeA
    [SampleRecord "a" 300; SampleRecord "b" 120] true (new 60)) as [H _]; try done.
  destruct H as (ttl & E & H1 & _); [done|]. exists ttl. split; [exact E|exact H1].
Defined.

End RecordCache.
