(* ===== verification/KeyCache.v ===== *)
(** The trust cache of the validator ([src/src/key_cache.rs]): a zone's validated
    keys, or the proof that it is unsigned, for a bounded time. *)

From S2P Require Import Prelude RustStr Names Hickory ExpiringCache.
From stdpp Require Import base gmap list option strings fin_maps.
From Stdlib Require Import ZArith Lia Bool Ascii.

Open Scope Z_scope.

Definition MAX_TRUST_TTL : Z := 604800.
Definition MIN_TRUST_TTL : Z := 60.
Definition MAX_TRUST_ENTRIES : nat := Z.to_nat 10000.

Module KeyCache.

Section Cache.
Context {Name DNSKEY : Type} `{!DnsName Name}.

(** * State *)

Inductive TrustState :=
| Secure (keys : list DNSKEY)
| Insecure.

Definition keys (s : TrustState) : option (list DNSKEY) :=
  match s with Secure ks => Some ks | Insecure => None end.

Definition is_secure (s : TrustState) : bool :=
  match s with Secure _ => true | Insecure => false end.

Record Entry := mkEntry { state : TrustState; expires_at : Z }.

Notation t := (gmap string Entry).

Context `{!VictimChoice Entry}.

Definition new : t := ∅.

Definition key (zone : Name) : string := to_lowercase (to_ascii zone).

(** [u32::clamp]. *)
Definition clamp (x lo hi : Z) : Z := Z.min (Z.max x lo) hi.

(** * Operations *)

Definition insert (now : Z) (zone : Name) (st : TrustState) (ttl : Z) (c : t) : t :=
  let ttl := clamp ttl MIN_TRUST_TTL MAX_TRUST_TTL in
  <[key zone := mkEntry st (now + from_secs ttl)]>
    (reap_if_full expires_at MAX_TRUST_ENTRIES now c).

Definition get (now : Z) (zone : Name) (c : t) : option TrustState * t :=
  let (e, c') := get_live expires_at now (key zone) c in (state <$> e, c').

Definition invalidate (zone : Name) (c : t) : t := delete (key zone) c.

Definition flush (c : t) : t := ∅.

Definition len (c : t) : nat := size c.

(** * Runs *)

Inductive op :=
| Insert (now : Z) (zone : Name) (st : TrustState) (ttl : Z)
| Get (now : Z) (zone : Name)
| Invalidate (zone : Name)
| Flush.

Definition apply_op (c : t) (o : op) : t :=
  match o with
  | Insert now z st ttl => insert now z st ttl c
  | Get now z => (get now z c).2
  | Invalidate z => invalidate z c
  | Flush => flush c
  end.

Definition run (ops : list op) : t := foldl apply_op new ops.

(** * Lemmas *)

Context `{!VictimLaws Entry}.

(** Every entry comes from an insertion of the run. *)
Definition provenance (ops : list op) (c : t) : Prop :=
  forall k e, c !! k = Some e ->
    exists now zone ttl, Insert now zone (state e) ttl ∈ ops /\ key zone = k /\
      expires_at e = now + from_secs (clamp ttl MIN_TRUST_TTL MAX_TRUST_TTL).

Lemma trust_provenance_mono ops ops' c c' :
  ops ⊆ ops' -> c' ⊆ c -> provenance ops c -> provenance ops' c'.
Proof.
  intros Ho Hc Hp k e Hk. destruct (Hp k e) as (now & z & ttl & H1 & H2).
  { by eapply lookup_weaken. }
  exists now, z, ttl. split; [by apply Ho|done].
Qed.

Lemma trust_provenance_step ops c o : provenance ops c -> provenance (ops ++ [o]) (apply_op c o).
Proof.
  intros Hp. assert (ops ⊆ ops ++ [o]) as Ho by set_solver.
  destruct o as [now z st ttl|now z|z|]; simpl.
  - intros k e. unfold insert; cbv zeta. rewrite lookup_insert_Some. intros [[<- <-]|[_ Hk]].
    + exists now, z, ttl. repeat split. set_solver.
    + eapply trust_provenance_mono; [done|apply reap_subseteq|done|done].
  - unfold get. destruct (get_live _ _ _ _) as [o m] eqn:E. simpl.
    eapply trust_provenance_mono; [done| |done].
    change m with (o, m).2. rewrite <- E. apply get_live_subseteq.
  - eapply trust_provenance_mono; [done|apply delete_subseteq|done].
  - intros k e Hk. unfold flush in Hk. by rewrite lookup_empty in Hk.
Qed.

Lemma trust_provenance_run ops : provenance ops (run ops).
Proof.
  unfold run. induction ops as [|o ops IH] using rev_ind.
  - intros k e Hk. unfold new in Hk. simpl in Hk. by rewrite lookup_empty in Hk.
  - rewrite foldl_snoc. by apply trust_provenance_step.
Qed.

Lemma run_size ops : (size (run ops) <= MAX_TRUST_ENTRIES)%nat.
Proof.
  unfold run. induction ops as [|o ops IH] using rev_ind.
  - simpl. unfold new. rewrite map_size_empty. lia.
  - rewrite foldl_snoc. set (c := foldl _ _ _) in *. destruct o as [now z st ttl|now z|z|]; simpl.
    + apply insert_reaped_size; [apply _|]. unfold MAX_TRUST_ENTRIES. lia.
    + unfold get. destruct (get_live _ _ _ _) as [o m] eqn:E. simpl.
      assert (m ⊆ c) as Hm by (change m with (o, m).2; rewrite <- E; apply get_live_subseteq).
      apply map_subseteq_size in Hm. lia.
    + unfold invalidate. pose proof (delete_subseteq c (key z)) as Hm.
      apply map_subseteq_size in Hm. lia.
    + unfold flush. rewrite map_size_empty. lia.
Qed.

(** * Properties *)

(** A trust decision is only ever returned for the zone it was recorded for,
    letter case apart, and only within the clamped lifetime it was recorded
    with: whatever the calls before, the state read for a zone was inserted
    under that same name less than a week ago, so that a parent's keys never
    validate a child. The cache never exceeds its bound. *)
Theorem trust_only_for_its_zone ops now zone st :
  (get now zone (run ops)).1 = Some st ->
  (len (run ops) <= MAX_TRUST_ENTRIES)%nat /\
  exists at_ zone' ttl, Insert at_ zone' st ttl ∈ ops /\
    to_lowercase (to_ascii zone') = to_lowercase (to_ascii zone) /\
    now < at_ + from_secs (clamp ttl MIN_TRUST_TTL MAX_TRUST_TTL) /\
    now < at_ + from_secs MAX_TRUST_TTL.
Proof.
  intros Hg. split; [apply run_size|].
  unfold get in Hg. destruct (get_live _ _ _ _) as [[e|] m] eqn:E; [|done].
  simpl in Hg. injection Hg as <-.
  assert ((get_live expires_at now (key zone) (run ops)).1 = Some e) as H by (by rewrite E).
  apply get_live_Some in H as [Hk Hlt].
  destruct (trust_provenance_run ops _ _ Hk) as (at_ & z & ttl & Hin & Hkey & He).
  exists at_, z, ttl. repeat split; [done|done|lia|].
  assert (clamp ttl MIN_TRUST_TTL MAX_TRUST_TTL <= MAX_TRUST_TTL) by (unfold clamp; lia).
  unfold from_secs, nanos_per_sec in *. lia.
Qed.

End Cache.

Arguments TrustState : clear implicits.
Arguments Entry : clear implicits.

Lemma trust_only_for_its_zone_witness :
  let ops := [Insert 0 ["Example"; "com"] (Secure [7]) 3600; Get 5 ["com"]] in
  exists at_ zone' ttl, Insert at_ zone' (Secure [7]) ttl ∈ ops /\
    to_lowercase (to_ascii zone') = to_lowercase (to_ascii ["example"; "com"]).
Proof.
  destruct (trust_only_for_its_zone
    [Insert 0 ["Example"; "com"] (Secure [7]) 3600; Get 5 ["com"]]
    (from_secs 100) ["example"; "com"] (Secure [7])) as (_ & a & z & ttl & H1 & H2 & _);
    [vm_compute; reflexivity|].
  exists a, z, ttl. split; [exact H1|exact H2].
Defined.

End KeyCache.
