(* ===== verification/DelegationCache.v ===== *)
(** The delegation cache ([src/src/delegation_cache.rs]) and the table it is
    persisted in ([src/src/db.rs]): zones and the addresses of their nameservers,
    a write queue drained by a worker, and the reload at boot. *)

From S2P Require Import Prelude RustStr Names Ip Hickory ExpiringCache.
From stdpp Require Import base gmap list option strings fin_maps sorting.
From Stdlib Require Import ZArith Lia Bool Ascii.

Open Scope Z_scope.

Definition MAX_DELEGATION_TTL : Z := 604800.
Definition MAX_DELEGATION_ENTRIES : nat := Z.to_nat 10000.
Definition DEFAULT_PERSIST_MIN_TTL : Z := 300.

(** * The table *)

Module DelegationTable.

(** A row of [delegation_cache], with the wall clock in seconds. *)
Record row := mkRow { zone : string; ns_ip : string; ttl : Z; cached_at : Z }.

(** An upsert keyed on (zone, ns_ip). *)
Definition delegation_insert (now : Z) (z ip : string) (ttl_ : Z) (rows : list row) : list row :=
  if existsb (fun r => (zone r =? z)%string && (ns_ip r =? ip)%string) rows
  then (fun r => if (zone r =? z)%string && (ns_ip r =? ip)%string
                 then mkRow z ip ttl_ now else r) <$> rows
  else rows ++ [mkRow z ip ttl_ now].

(** [delegation_replace]: drop the zone's rows, then upsert each address. *)
Definition delegation_replace (now : Z) (z : string) (ips : list string) (ttl_ : Z)
    (rows : list row) : list row :=
  foldl (fun rs ip => delegation_insert now z ip ttl_ rs)
        (filter (fun r => zone r <> z) rows) ips.

Definition delegation_flush (rows : list row) : list row := [].

(** [ORDER BY zone]: the order within a zone is not specified. *)
Class OrderByZone := order_by_zone : list row -> list row.

(** One round of the grouping loop; the accumulator is the groups so far, last
    group first. *)
Definition group_step (now : Z) (acc : list (string * list string * Z)) (r : row)
  : list (string * list string * Z) :=
  let remaining := ttl r - (now - cached_at r) in
  if remaining <=? 0 then acc
  else
    let remaining := as_u 32 remaining in
    match acc with
    | ((z, ips), rem) :: acc' =>
        if (z =? zone r)%string then ((z, ips ++ [ns_ip r]), Z.min rem remaining) :: acc'
        else ((zone r, [ns_ip r]), remaining) :: acc
    | [] => [((zone r, [ns_ip r]), remaining)]
    end.

Definition delegation_load_all `{!OrderByZone} (now : Z) (rows : list row)
  : list (string * list string * Z) :=
  reverse (foldl (group_step now) []
    (order_by_zone (filter (fun r => cached_at r + ttl r > now) rows))).

Definition delegation_count (rows : list row) : nat := length rows.

End DelegationTable.

(** * The cache *)

Module DelegationCache.
Import DelegationTable.

Section Cache.
Context {Name : Type} `{!DnsName Name}.

Record CachedDelegation := mkCached { servers : list IpAddr; expires_at : Z }.

Record DelegationWriteRequest := mkWrite {
  w_zone : string;
  w_servers : list string;
  w_ttl : Z;
}.

(** [db] is the table, absent for a cache in memory only; [queue] is the
    channel to the worker, which holds at most 1024 requests. *)
Record t := mk {
  memory : gmap string CachedDelegation;
  db : option (list row);
  queue : list DelegationWriteRequest;
  persist_min_ttl : Z;
  default_ttl : Z;
}.

Context `{!VictimChoice CachedDelegation, ord : !OrderByZone}.

Definition queue_capacity : nat := Z.to_nat 1024.

Definition in_memory (ttl : Z) : t := mk ∅ None [] DEFAULT_PERSIST_MIN_TTL ttl.

Definition zone_key (n : Name) : string := to_lowercase (to_ascii n).

Definition lifetime (c : t) (ttl : Z) : Z :=
  if ttl =? 0 then default_ttl c else Z.min ttl MAX_DELEGATION_TTL.

Definition set_memory (m : gmap string CachedDelegation) (c : t) : t :=
  mk m (db c) (queue c) (persist_min_ttl c) (default_ttl c).

(** [try_send]: refused when the channel is full. *)
Definition try_send (req : DelegationWriteRequest) (c : t) : t :=
  if (length (queue c) <? queue_capacity)%nat
  then mk (memory c) (db c) (queue c ++ [req]) (persist_min_ttl c) (default_ttl c)
  else c.

Definition insert (now : Z) (z : Name) (srv : list IpAddr) (ttl : Z) (c : t) : t :=
  if (length srv =? 0)%nat then c
  else
    let key := zone_key z in
    let ttl := lifetime c ttl in
    let c := set_memory (<[key := mkCached srv (now + from_secs ttl)]>
               (reap_if_full expires_at MAX_DELEGATION_ENTRIES now (memory c))) c in
    if ttl <=? persist_min_ttl c then c
    else if db c is Some _ then try_send (mkWrite key (ip_to_string <$> srv) ttl) c
    else c.

(** The loop of [best_match]; [base_name] removes a label each round. *)
Fixpoint best_match_loop (fuel : nat) (now : Z) (current : Name)
    (m : gmap string CachedDelegation)
  : option (string * list IpAddr) * gmap string CachedDelegation :=
  match fuel with
  | O => (None, m)
  | S f =>
      let key := zone_key current in
      match get_live expires_at now key m with
      | (Some e, m) => (Some (key, servers e), m)
      | (None, m) =>
          if is_root current then (None, m) else best_match_loop f now (base_name current) m
      end
  end.

Definition best_match (now : Z) (name : Name) (c : t)
  : option (string * list IpAddr) * t :=
  let (r, m) := best_match_loop (S (length (name_labels name))) now name (memory c) in
  (r, set_memory m c).

(** [now] is the wall clock here. *)
Definition invalidate (now : Z) (z : string) (c : t) : t :=
  mk (delete z (memory c)) (delegation_replace now z [] 0 <$> db c) (queue c)
     (persist_min_ttl c) (default_ttl c).

Definition flush (c : t) : t :=
  mk ∅ (delegation_flush <$> db c) (queue c) (persist_min_ttl c) (default_ttl c).

(** One turn of [persist_worker]. *)
Definition persist_worker (now : Z) (c : t) : t :=
  match queue c with
  | [] => c
  | req :: q =>
      mk (memory c) (delegation_replace now (w_zone req) (w_servers req) (w_ttl req) <$> db c)
         q (persist_min_ttl c) (default_ttl c)
  end.

(** [load_from_disk], at instant [now] and wall clock [wall]. *)
Definition load_row (now : Z) (m : gmap string CachedDelegation)
    (g : string * list string * Z) : gmap string CachedDelegation :=
  let '(z, ips, remaining) := g in
  let srv := omap parse_ip ips in
  if (length srv =? 0)%nat then m
  else <[z := mkCached srv (now + from_secs remaining)]> m.

Definition load_from_disk (now wall : Z) (c : t) : t :=
  match db c with
  | None => c
  | Some rows => set_memory (foldl (load_row now) (memory c) (delegation_load_all wall rows)) c
  end.

(** [with_db]: a cache over the rows a previous run left. *)
Definition with_db (now wall : Z) (rows : list row) (min_ttl ttl : Z) : t :=
  load_from_disk now wall (mk ∅ (Some rows) [] min_ttl ttl).

(** * Lemmas *)

Context `{!DnsNameLaws Name, !VictimLaws CachedDelegation}.

Definition live (now : Z) (m : gmap string CachedDelegation) (k : string) (srv : list IpAddr)
  : Prop := exists e, m !! k = Some e /\ now < expires_at e /\ servers e = srv.

Lemma live_get now k k' m srv :
  live now (get_live expires_at now k m).2 k' srv <-> live now m k' srv.
Proof.
  unfold get_live, live. destruct (m !! k) as [e|] eqn:E; [|done].
  case_match; [|done]. bool_hyps. simpl.
  setoid_rewrite lookup_delete_Some. split; [naive_solver|].
  intros (e' & Hk & Hl & <-). exists e'. split; [|done]. split; [|done].
  intros <-. rewrite E in Hk. injection Hk as ->. lia.
Qed.

(** The keys the loop tries: the name's, then each ancestor's, down to the root. *)
Definition suffix_keys (n : Name) : list string :=
  (fun ls => to_lowercase (fqdn ls)) <$> (tails (name_labels n) ++ [[]]).

Lemma suffix_keys_root n : is_root n = true -> suffix_keys n = [zone_key n].
Proof.
  intros Hr. apply is_root_labels in Hr. unfold suffix_keys, zone_key.
  by rewrite to_ascii_labels, Hr.
Qed.

Lemma suffix_keys_base n :
  is_root n = false -> suffix_keys n = zone_key n :: suffix_keys (base_name n).
Proof.
  intros Hr. unfold suffix_keys, zone_key. rewrite to_ascii_labels, base_name_labels.
  destruct (name_labels n) as [|l ls] eqn:E; [|done].
  apply is_root_labels in E. congruence.
Qed.

Lemma best_match_loop_spec fuel now n m :
  (length (name_labels n) < fuel)%nat ->
  match (best_match_loop fuel now n m).1 with
  | Some (k, srv) =>
      exists before after, suffix_keys n = before ++ k :: after /\ live now m k srv /\
        forall k' s, k' ∈ before -> ~ live now m k' s
  | None => forall k s, k ∈ suffix_keys n -> ~ live now m k s
  end.
Proof.
  revert n m. induction fuel as [|f IH]; intros n m Hf; [lia|]. simpl.
  pose proof (fun k s => live_get now (zone_key n) k m s) as Hg.
  pose proof (fun e => get_live_Some expires_at now (zone_key n) m e) as Hs.
  destruct (get_live expires_at now (zone_key n) m) as [[e|] m'] eqn:E; simpl in *.
  - destruct (proj1 (Hs e) eq_refl) as [Hk Hl].
    assert (exists rest, suffix_keys n = zone_key n :: rest) as [rest ->].
    { destruct (is_root n) eqn:R; [rewrite suffix_keys_root by done; by exists []|].
      rewrite suffix_keys_base by done; by eexists. }
    exists [], rest. split; [done|]. split; [by exists e|].
    intros k' s Hin. by apply elem_of_nil in Hin.
  - assert (forall s, ~ live now m (zone_key n) s) as Hno.
    { intros s (e & Hk & Hl & _). discriminate (proj2 (Hs e) (conj Hk Hl)). }
    destruct (is_root n) eqn:R; simpl.
    + rewrite suffix_keys_root by done. intros k s Hk.
      apply list_elem_of_singleton in Hk as ->. apply Hno.
    + rewrite suffix_keys_base by done. specialize (IH (base_name n) m').
      rewrite base_name_labels, length_drop in IH.
      assert (name_labels n <> []) as Hne by (intros Hr; apply is_root_labels in Hr; congruence).
      assert (length (name_labels n) <> 0)%nat by (by destruct (name_labels n)).
      specialize (IH ltac:(lia)).
      destruct (best_match_loop f now (base_name n) m') as [[[k srv]|] m'']; simpl in *.
      * destruct IH as (b & a & Hsk & Hl & Hb). exists (zone_key n :: b), a.
        rewrite Hsk. split; [done|]. split; [by apply Hg|].
        intros k' s Hin. apply elem_of_cons in Hin as [->|Hin]; [apply Hno|].
        rewrite <- Hg. by apply Hb.
      * intros k s Hin. apply elem_of_cons in Hin as [->|Hin]; [apply Hno|].
        rewrite <- Hg. by apply IH.
Qed.

(** * Properties *)

(** [best_match] returns the deepest live delegation that encloses the name:
    the key it answers with is the name or one of its ancestors (the root
    included), that entry has not expired, and no entry closer to the name is
    live; it answers nothing only when no enclosing delegation is live. *)
Theorem best_match_deepest now n c :
  match (best_match now n c).1 with
  | Some (k, srv) =>
      exists deeper shallower, suffix_keys n = deeper ++ k :: shallower /\ live now (memory c) k srv /\ forall k' s, k' ∈ deeper -> ~ live now (memory c) k' s
  | None => forall k s, k ∈ suffix_keys n -> ~ live now (memory c) k s
  end.
Proof.
  unfold best_match.
  pose proof (best_match_loop_spec (S (length (name_labels n))) now n (memory c)
    ltac:(lia)) as Hb.
  by destruct (best_match_loop _ _ _ _) as [r m].
Qed.

(** A flush empties the memory and the table but not the write queue: the
    first request still queued is written to the table by the worker's next turn,
    so that a delegation learned before the flush is on disk again after it. *)
Theorem flush_keeps_queued_writes wall c rows req q :
  db c = Some rows -> queue c = req :: q -> w_servers req <> [] ->
  memory (flush c) = ∅ /\ db (flush c) = Some [] /\
  exists r rs, db (persist_worker wall (flush c)) = Some (r :: rs) /\ zone r = w_zone req.
Proof.
  intros Hdb Hq Hs. repeat split; [unfold flush; simpl; by rewrite Hdb|].
  unfold persist_worker, flush. simpl. rewrite Hq, Hdb. simpl.
  unfold delegation_replace. destruct (w_servers req) as [|ip ips]; [done|]. simpl.
  unfold delegation_flush at 1. simpl.
  set (base := delegation_insert _ _ _ _ _).
  assert (exists r rs, base = r :: rs /\ zone r = w_zone req) as Hb.
  { by eexists _, _. }
  clearbody base. clear Hs Hq. revert base Hb.
  induction ips as [|ip' ips IH]; intros base (r & rs & -> & Hz); simpl; [by exists r, rs|].
  apply IH. unfold delegation_insert. case_match; [|by eexists _, _].
  simpl. case_match; by eexists _, _.
Qed.

End Cache.

Arguments t : clear implicits.

(** An order that meets the table's query. *)
#[export] Instance zone_order : OrderByZone :=
  merge_sort (fun a b => String.leb (zone a) (zone b)).

Definition example_name : list string := ["www"; "example"; "com"].

Lemma best_match_deepest_witness :
  (best_match 5 example_name
     (insert 0 ["com"] [V4 1] 600 (insert 0 ["example"; "com"] [V4 2] 60 (in_memory 300)))).1
    = Some ("example.com.", [V4 2]) /\
  exists deeper shallower,
    suffix_keys example_name = deeper ++ "example.com." :: shallower.
Proof.
  split; [vm_compute; reflexivity|].
  pose proof (best_match_deepest 5 example_name
    (insert 0 ["com"] [V4 1] 600 (insert 0 ["example"; "com"] [V4 2] 60 (in_memory 300)))) as H.
  vm_compute in H. destruct H as (d & s & E & _). exists d, s. exact E.
Defined.

(** The whole cycle: learned, flushed, written by the worker, back after a restart. *)
Lemma flush_keeps_queued_writes_witness :
  let c := insert 0 ["com"] [V4 16909060] 600 (mk ∅ (Some []) [] 300 300) in
  (exists r rs, db (persist_worker 1000 (flush c)) = Some (r :: rs) /\ zone r = "com.") /\
  (best_match 0 ["com"] (with_db 0 1001
     (default [] (db (persist_worker 1000 (flush c)))) 300 300)).1
    = Some ("com.", [V4 16909060]).
Proof.
  split; [|vm_compute; reflexivity].
  apply (flush_keeps_queued_writes 1000
    (insert 0 ["com"] [V4 16909060] 600 (mk ∅ (Some []) [] 300 300)) []
    (mkWrite "com." ["1.2.3.4"] 600) []); [vm_compute; reflexivity..|done].
Defined.

End DelegationCache.
