(* ===== verification/DnsCache.v ===== *)
(** The response cache ([src/src/dns_cache.rs]) and the table it is persisted in
    ([src/src/db.rs]): positive entries, local or learned upstream, and negative
    answers; the write queue and its worker; the reload at boot. *)

From S2P Require Import Prelude RustStr Names Records.
From stdpp Require Import base gmap list option strings fin_maps.
From Stdlib Require Import ZArith Lia Bool Ascii.

Open Scope Z_scope.

(** [cache_key]. *)
Definition cache_key (name : string) (record_type : option RecordKind) : string :=
  let rt_str := match record_type with Some rt => as_str rt | None => "*" end in
  to_lowercase name +:+ ":" +:+ rt_str.

(** * The table *)

Module CacheTable.

(** A row of [dns_cache], in rowid order in the table. *)
Record row := mkRow {
  name : string;
  record_type : string;
  value : string;
  ttl : Z;
  original_ttl : Z;
  cached_at : Z;
  source : string;
}.

Definition same_key (n rt v : string) (r : row) : bool :=
  (name r =? n)%string && (record_type r =? rt)%string && (value r =? v)%string.

(** [cache_insert]: an upsert on (name, record_type, value). *)
Definition cache_insert (now : Z) (n rt v : string) (ttl_ original : Z) (src : string)
    (rows : list row) : list row :=
  if existsb (same_key n rt v) rows
  then (fun r => if same_key n rt v r then mkRow n rt v ttl_ original now src else r) <$> rows
  else rows ++ [mkRow n rt v ttl_ original now src].

Definition load_row (now : Z) (r : row) : option (DnsRecord * Z) :=
  let remaining := ttl r - (now - cached_at r) in
  if remaining <=? 0 then None
  else
    let remaining := as_u 32 remaining in
    Some (mkRecord None (name r) (default A (parse_kind (record_type r))) (value r)
            remaining 0, remaining).

Definition cache_load_all (now : Z) (rows : list row) : list (DnsRecord * Z) :=
  omap (load_row now) (filter (fun r => cached_at r + ttl r > now) rows).

Definition cache_lookup (now : Z) (n : string) (rt : option string) (rows : list row)
  : list DnsRecord :=
  let pick := fun r => (name r =? n)%string &&
                match rt with Some t => (record_type r =? t)%string | None => true end in
  omap (fun r =>
    if pick r then
      let elapsed := now - cached_at r in
      if elapsed <? ttl r
      then Some (mkRecord None (name r) (default A (parse_kind (record_type r))) (value r)
                   (as_u 32 (ttl r - elapsed)) 0)
      else None
    else None) rows.

Definition cache_flush (rows : list row) : list row := [].

End CacheTable.

(** * The cache *)

Module DnsCache.

Record CachedEntry := mkEntry {
  records : list DnsRecord;
  expires_at : Z;
  local : bool;
}.

Inductive NegativeKind := NxDomain | NoData.

Record NegativeEntry := mkNegative { kind : NegativeKind; neg_expires_at : Z }.

Record CacheWriteRequest := mkWrite {
  w_name : string;
  w_rt_str : option string;
  w_records : list DnsRecord;
  w_ttl : Z;
}.

(** [queue] is the channel to the worker, of capacity 1024. *)
Record t := mk {
  memory : gmap string CachedEntry;
  negatives : gmap string NegativeEntry;
  db : list CacheTable.row;
  hits : Z;
  misses : Z;
  queue : list CacheWriteRequest;
}.

Definition queue_capacity : nat := Z.to_nat 1024.

Definition set_memory (m : gmap string CachedEntry) (c : t) : t :=
  mk m (negatives c) (db c) (hits c) (misses c) (queue c).
Definition set_negatives (m : gmap string NegativeEntry) (c : t) : t :=
  mk (memory c) m (db c) (hits c) (misses c) (queue c).
(** [fetch_add(1)] wraps. *)
Definition hit (c : t) : t :=
  mk (memory c) (negatives c) (db c) (as_u 64 (hits c + 1)) (misses c) (queue c).
Definition miss (c : t) : t :=
  mk (memory c) (negatives c) (db c) (hits c) (as_u 64 (misses c + 1)) (queue c).

(** ** Operations *)

Definition lookup (now : Z) (name : string) (rt : option RecordKind) (c : t)
  : list DnsRecord * t :=
  let key := cache_key name rt in
  match memory c !! key with
  | Some entry =>
      if now <? expires_at entry then
        if local entry then (records entry, hit c)
        else
          let remaining := as_u 32 (as_secs (duration_since (expires_at entry) now)) in
          (set_ttl (Z.max remaining 1) <$> records entry, hit c)
      else ([], miss (set_memory (delete key (memory c)) c))
  | None => ([], miss c)
  end.

Definition lookup_local_only (now : Z) (name : string) (rt : option RecordKind) (c : t)
  : list DnsRecord * t :=
  let key := cache_key name rt in
  match memory c !! key with
  | Some entry =>
      if now <? expires_at entry then
        if local entry then (records entry, hit c) else ([], c)
      else ([], set_memory (delete key (memory c)) c)
  | None => ([], c)
  end.

(** [try_send]: a full channel drops the write. *)
Definition try_send (req : CacheWriteRequest) (c : t) : t :=
  if (length (queue c) <? queue_capacity)%nat
  then mk (memory c) (negatives c) (db c) (hits c) (misses c) (queue c ++ [req])
  else c.

Definition insert (now : Z) (name : string) (rt : option RecordKind) (rs : list DnsRecord)
    (ttl : Z) (c : t) : t :=
  if (length rs =? 0)%nat || (ttl =? 0) then c
  else
    let key := cache_key name rt in
    let c := set_memory (<[key := mkEntry rs (now + from_secs ttl) false]> (memory c)) c in
    try_send (mkWrite name (as_str <$> rt) rs ttl) c.

Definition insert_local (now : Z) (name : string) (rt : option RecordKind)
    (rs : list DnsRecord) (c : t) : t :=
  if (length rs =? 0)%nat then c
  else set_memory (<[cache_key name rt := mkEntry rs (now + from_secs 86400) true]> (memory c)) c.

Definition insert_negative (now : Z) (name : string) (rt : option RecordKind)
    (k : NegativeKind) (ttl : Z) (c : t) : t :=
  if ttl =? 0 then c
  else set_negatives (<[cache_key name rt := mkNegative k (now + from_secs ttl)]> (negatives c)) c.

Definition lookup_negative (now : Z) (name : string) (rt : option RecordKind) (c : t)
  : option NegativeKind * t :=
  let key := cache_key name rt in
  match negatives c !! key with
  | Some entry =>
      if now <? neg_expires_at entry then (Some (kind entry), hit c)
      else (None, set_negatives (delete key (negatives c)) c)
  | None => (None, c)
  end.

Definition invalidate_negative (name : string) (c : t) : t :=
  let prefix := name +:+ ":" in
  set_negatives (filter (fun kv => starts_with prefix kv.1 = false) (negatives c)) c.

Definition flush (c : t) : t := mk ∅ ∅ (CacheTable.cache_flush (db c)) 0 0 (queue c).

(** One request of the worker's batch: each record is upserted, under the
    request's type or its own. *)
Definition persist_one (now : Z) (rows : list CacheTable.row) (req : CacheWriteRequest)
  : list CacheTable.row :=
  foldl (fun rows rec =>
    CacheTable.cache_insert now (w_name req) (default (as_str (r_type rec)) (w_rt_str req))
      (r_value rec) (w_ttl req) (w_ttl req) "upstream" rows) rows (w_records req).

(** A turn of [persist_worker]: up to 64 requests. *)
Definition persist_worker (now : Z) (c : t) : t :=
  mk (memory c) (negatives c) (foldl (persist_one now) (db c) (take 64 (queue c)))
     (hits c) (misses c) (drop 64 (queue c)).

(** One row of [load_from_disk]: an entry collects its records and lives as long
    as the shortest-lived. *)
Definition load_entry (now : Z) (m : gmap string CachedEntry) (row : DnsRecord * Z)
  : gmap string CachedEntry :=
  let (rec, remaining) := row in
  let key := cache_key (r_name rec) (Some (r_type rec)) in
  let until := now + from_secs remaining in
  match m !! key with
  | Some e => <[key := mkEntry (records e ++ [rec]) (Z.min until (expires_at e)) (local e)]> m
  | None => <[key := mkEntry [rec] until false]> m
  end.

Definition load_from_disk (now wall : Z) (c : t) : t :=
  set_memory (foldl (load_entry now) (memory c) (CacheTable.cache_load_all wall (db c))) c.

Definition new (now wall : Z) (rows : list CacheTable.row) : t :=
  load_from_disk now wall (mk ∅ ∅ rows 0 0 []).

(** ** Lemmas *)

Lemma set_ttl_name ttl r : r_name (set_ttl ttl r) = r_name r. Proof. done. Qed.

Lemma rt_str_free (rt : option RecordKind) :
  free_of ":" (match rt with Some k => as_str k | None => "*" end) = true.
Proof. destruct rt; [apply as_str_no_colon|done]. Qed.

Lemma rt_str_inj (rt rt' : option RecordKind) :
  (match rt with Some k => as_str k | None => "*" end) =
  (match rt' with Some k => as_str k | None => "*" end) -> rt = rt'.
Proof.
  destruct rt as [k|], rt' as [k'|]; intros H; [by apply as_str_inj in H as ->| | |done].
  - by destruct k.
  - by destruct k'.
Qed.

(** Keys are equal exactly for the same name, letter case apart, and type. *)
Lemma cache_key_inj n rt n' rt' :
  cache_key n rt = cache_key n' rt' <-> to_lowercase n = to_lowercase n' /\ rt = rt'.
Proof.
  unfold cache_key. split; [|by intros [-> ->]].
  intros H. pose proof (f_equal (rsplit_once ":") H) as H'.
  change (":" +:+ ?x) with (String ":" x) in H'.
  rewrite !rsplit_once_free in H' by apply rt_str_free.
  injection H' as E1 E2. split; [done|]. by apply rt_str_inj.
Qed.

Lemma cache_key_lower n rt : cache_key (to_lowercase n) rt = cache_key n rt.
Proof. unfold cache_key. by rewrite to_lowercase_idem. Qed.

(** ** Runs *)

Inductive op :=
| Lookup (now : Z) (name : string) (rt : option RecordKind)
| LookupLocal (now : Z) (name : string) (rt : option RecordKind)
| Insert (now : Z) (name : string) (rt : option RecordKind) (rs : list DnsRecord) (ttl : Z)
| InsertLocal (now : Z) (name : string) (rt : option RecordKind) (rs : list DnsRecord)
| InsertNegative (now : Z) (name : string) (rt : option RecordKind) (k : NegativeKind) (ttl : Z)
| LookupNegative (now : Z) (name : string) (rt : option RecordKind)
| InvalidateNegative (name : string)
| Flush
| Persist (now : Z).

Definition apply_op (c : t) (o : op) : t :=
  match o with
  | Lookup now n rt => (lookup now n rt c).2
  | LookupLocal now n rt => (lookup_local_only now n rt c).2
  | Insert now n rt rs ttl => insert now n rt rs ttl c
  | InsertLocal now n rt rs => insert_local now n rt rs c
  | InsertNegative now n rt k ttl => insert_negative now n rt k ttl c
  | LookupNegative now n rt => (lookup_negative now n rt c).2
  | InvalidateNegative n => invalidate_negative n c
  | Flush => flush c
  | Persist now => persist_worker now c
  end.

Definition run (c : t) (ops : list op) : t := foldl apply_op c ops.


(** The insertion an entry comes from: [o] is in the run and no flush follows. *)
Definition since_flush (o : op) (ops : list op) : Prop :=
  exists pre post, ops = pre ++ o :: post /\ Flush ∉ post.

Definition entry_source (ops : list op) (k : string) (e : CachedEntry) : Prop :=
  if local e
  then exists now n rt, since_flush (InsertLocal now n rt (records e)) ops /\
         cache_key n rt = k /\ expires_at e = now + from_secs 86400
  else exists now n rt ttl, since_flush (Insert now n rt (records e) ttl) ops /\
         cache_key n rt = k /\ expires_at e = now + from_secs ttl /\ ttl <> 0.

Definition provenance (ops : list op) (m : gmap string CachedEntry) : Prop :=
  forall k e, m !! k = Some e -> entry_source ops k e.

Lemma since_flush_snoc o o' ops : o' <> Flush -> since_flush o ops -> since_flush o (ops ++ [o']).
Proof.
  intros Ho (pre & post & -> & Hf). exists pre, (post ++ [o']).
  rewrite <- app_assoc. split; [done|]. set_solver.
Qed.

Lemma since_flush_last o ops : since_flush o (ops ++ [o]).
Proof. exists ops, []. split; [done|]. apply not_elem_of_nil. Qed.

Lemma provenance_keep ops o m m' :
  o <> Flush -> m' ⊆ m -> provenance ops m -> provenance (ops ++ [o]) m'.
Proof.
  intros Ho Hm Hp k e Hk. specialize (Hp k e (lookup_weaken _ _ _ _ Hk Hm)).
  unfold entry_source in *. destruct (local e).
  - destruct Hp as (now & n & rt & Hs & H). exists now, n, rt. auto using since_flush_snoc.
  - destruct Hp as (now & n & rt & ttl & Hs & H). exists now, n, rt, ttl.
    auto using since_flush_snoc.
Qed.

Lemma provenance_insert ops o m k e :
  o <> Flush -> provenance ops m -> entry_source (ops ++ [o]) k e ->
  provenance (ops ++ [o]) (<[k:=e]> m).
Proof.
  intros Ho Hp He k' e'. rewrite lookup_insert_Some. intros [[<- <-]|[_ Hk]]; [done|].
  by eapply provenance_keep.
Qed.

Lemma memory_lookup now n rt c : memory (lookup now n rt c).2 ⊆ memory c.
Proof. unfold lookup. repeat case_match; simpl; try done. apply delete_subseteq. Qed.

Lemma memory_lookup_local now n rt c : memory (lookup_local_only now n rt c).2 ⊆ memory c.
Proof. unfold lookup_local_only. repeat case_match; simpl; try done. apply delete_subseteq. Qed.

Lemma memory_try_send req c : memory (try_send req c) = memory c.
Proof. unfold try_send. by case_match. Qed.

Lemma provenance_step ops c o :
  provenance ops (memory c) -> provenance (ops ++ [o]) (memory (apply_op c o)).
Proof.
  intros Hp. destruct o as [now n rt|now n rt|now n rt rs ttl|now n rt rs|now n rt k ttl
    |now n rt|n| |now]; simpl.
  - eapply provenance_keep; [done|apply memory_lookup|done].
  - eapply provenance_keep; [done|apply memory_lookup_local|done].
  - unfold insert. case_match; [by eapply provenance_keep|]. bool_hyps.
    rewrite memory_try_send. apply provenance_insert; [done|done|].
    exists now, n, rt, ttl. simpl. auto using since_flush_last.
  - unfold insert_local. case_match; [by eapply provenance_keep|].
    apply provenance_insert; [done|done|].
    exists now, n, rt. simpl. auto using since_flush_last.
  - unfold insert_negative. case_match; by eapply provenance_keep.
  - unfold lookup_negative. repeat case_match; by eapply provenance_keep.
  - by eapply provenance_keep.
  - intros k e Hk. by rewrite lookup_empty in Hk.
  - by eapply provenance_keep.
Qed.

Lemma provenance_run c ops :
  memory c = ∅ -> provenance ops (memory (run c ops)).
Proof.
  intros Hc. unfold run. induction ops as [|o ops IH] using rev_ind.
  - simpl. rewrite Hc. intros k e Hk. by rewrite lookup_empty in Hk.
  - rewrite foldl_snoc. by apply provenance_step.
Qed.

Lemma lookup_insert_upstream t0 t1 n n' rt rs ttl c :
  rs <> [] -> ttl <> 0 -> to_lowercase n = to_lowercase n' ->
  (lookup t1 n' rt (insert t0 n rt rs ttl c)).1 =
    if t1 <? t0 + from_secs ttl
    then set_ttl (Z.max (as_u 32 (as_secs (duration_since (t0 + from_secs ttl) t1))) 1) <$> rs
    else [].
Proof.
  intros Hrs Httl Hn. assert (cache_key n' rt = cache_key n rt) as Hk.
  { symmetry. by apply cache_key_inj. }
  unfold insert. destruct rs as [|r rs]; [done|]. simpl length. cbn [Nat.eqb orb].
  rewrite (proj2 (Z.eqb_neq _ _) Httl). unfold lookup. rewrite memory_try_send, Hk.
  simpl. rewrite lookup_insert_eq. simpl. by destruct (_ <? _).
Qed.

Lemma lookup_insert_local t0 t1 n n' rt rs c :
  rs <> [] -> to_lowercase n = to_lowercase n' ->
  (lookup t1 n' rt (insert_local t0 n rt rs c)).1 =
    if t1 <? t0 + from_secs 86400 then rs else [].
Proof.
  intros Hrs Hn. assert (cache_key n' rt = cache_key n rt) as Hk.
  { symmetry. by apply cache_key_inj. }
  unfold insert_local. destruct rs as [|r rs]; [done|]. simpl length. cbn [Nat.eqb].
  unfold lookup. rewrite Hk. simpl. rewrite lookup_insert_eq. simpl. by destruct (_ <? _).
Qed.

(** ** Properties *)

(** The local-only lookup never serves an upstream answer, nor anything older
    than the last flush: whatever the calls before, the records it returns were
    inserted as local records for that name (letter case apart) and type, at
    most a day ago, with no flush in between, and come back unchanged. *)
Theorem local_lookup_provenance c ops now n rt :
  memory c = ∅ ->
  (lookup_local_only now n rt (run c ops)).1 <> [] ->
  exists at_ n', since_flush
      (InsertLocal at_ n' rt (lookup_local_only now n rt (run c ops)).1) ops /\
    to_lowercase n' = to_lowercase n /\ now < at_ + from_secs 86400.
Proof.
  intros Hc Hr. unfold lookup_local_only in *.
  destruct (memory (run c ops) !! _) as [e|] eqn:E; [|done].
  destruct (now <? expires_at e) eqn:Et; [|done]. bool_hyps.
  pose proof (provenance_run c ops Hc _ _ E) as Hp. unfold entry_source in Hp.
  destruct (local e) eqn:El; [|done]. simpl in *.
  destruct Hp as (at_ & n' & rt' & Hs & Hk & He).
  apply cache_key_inj in Hk as [Hn ->]. exists at_, n'. split; [done|]. split; [done|lia].
Qed.

Definition sample_rec : DnsRecord := mkRecord (Some 1) "nas.home." A "10.0.0.9" 300 0.

Lemma local_lookup_provenance_witness :
  let ops := [Insert 0 "x.com." (Some A) [sample_rec] 60;
              InsertLocal 5 "NAS.home." (Some A) [sample_rec]] in
  exists at_ n', since_flush (InsertLocal at_ n' (Some A) [sample_rec]) ops /\
    to_lowercase n' = "nas.home.".
Proof.
  destruct (local_lookup_provenance (mk ∅ ∅ [] 0 0 [])
    [Insert 0 "x.com." (Some A) [sample_rec] 60;
     InsertLocal 5 "NAS.home." (Some A) [sample_rec]] 10 "nas.home." (Some A))
    as (a & n' & H1 & H2 & _); [done|vm_compute; discriminate|].
  exists a, n'. split; [exact H1|exact H2].
Defined.

(** An upstream answer of lifetime [ttl] is found under any letter case of its
    name until the lifetime ends and not afterwards; every record then carries
    the same TTL, at least one second and at most [ttl], which strictly covers no
    more than the time left once rounded; local records come back with their own
    TTL. *)
Theorem dns_cache_ttl t0 t1 n n' rt rs ttl c :
  rs <> [] -> is_u 32 ttl -> ttl <> 0 -> t0 <= t1 -> to_lowercase n = to_lowercase n' ->
  let got := (lookup t1 n' rt (insert t0 n rt rs ttl c)).1 in
  (t1 < t0 + from_secs ttl ->
     exists left, got = (set_ttl left <$> rs) /\ 1 <= left <= ttl /\
       (t1 + from_secs 1 <= t0 + from_secs ttl -> t1 + from_secs left <= t0 + from_secs ttl)) /\
  (t0 + from_secs ttl <= t1 -> got = []) /\
  (t1 < t0 + from_secs 86400 -> (lookup t1 n' rt (insert_local t0 n rt rs c)).1 = rs).
Proof.
  intros Hrs Hu Httl Ht Hn. cbv zeta. rewrite lookup_insert_upstream by done.
  rewrite lookup_insert_local by done. unfold is_u in Hu.
  split; [|split; intros H1; [by rewrite (proj2 (Z.ltb_ge _ _) H1)
                             |by rewrite (proj2 (Z.ltb_lt _ _) H1)]].
  intros H1. rewrite (proj2 (Z.ltb_lt _ _) H1).
  set (until := t0 + from_secs ttl) in *.
  assert (duration_since until t1 = until - t1) as -> by (unfold duration_since; lia).
  assert (0 <= as_secs (until - t1) <= ttl) as Hrem.
  { split; [apply as_secs_nonneg; lia|]. rewrite <- (as_secs_from_secs ttl).
    apply as_secs_mono. unfold until. lia. }
  rewrite as_u_id by (unfold is_u; lia).
  exists (Z.max (as_secs (until - t1)) 1). repeat split; [lia|lia|].
  intros H2. unfold as_secs, from_secs, nanos_per_sec in *.
  pose proof (Z.mul_div_le (until - t1) 1000000000). lia.
Qed.

Lemma dns_cache_ttl_witness :
  (lookup (from_secs 59 + 1) "X.com." (Some A)
     (insert 0 "x.COM." (Some A) [sample_rec] 60 (mk ∅ ∅ [] 0 0 []))).1
    = [set_ttl 1 sample_rec] /\
  (lookup (from_secs 60) "X.com." (Some A)
     (insert 0 "x.COM." (Some A) [sample_rec] 60 (mk ∅ ∅ [] 0 0 []))).1 = [].
Proof.
  split; [vm_compute; reflexivity|].
  apply (dns_cache_ttl 0 (from_secs 60) "x.COM." "X.com." (Some A) [sample_rec] 60
    (mk ∅ ∅ [] 0 0 [])); [done| |done|done|done|done].
  vm_compute. split; [discriminate|reflexivity].
Defined.

(** Negatives are keyed in lowercase, but their invalidation compares the name
    as it was given: a name with an uppercase letter invalidates nothing, and the
    cached denial goes on being served for it. *)
Theorem invalidate_negative_case_sensitive t0 t1 n rt k ttl c :
  negatives c = ∅ -> to_lowercase n <> n -> 0 < ttl -> t1 < t0 + from_secs ttl ->
  (lookup_negative t1 n rt (invalidate_negative n (insert_negative t0 n rt k ttl c))).1 = Some k.
Proof.
  intros Hc Hn Httl Ht. unfold insert_negative.
  rewrite (proj2 (Z.eqb_neq ttl 0)) by lia. unfold lookup_negative, invalidate_negative. simpl.
  rewrite Hc, insert_empty, map_filter_singleton_True; simpl.
  - rewrite lookup_singleton_eq. simpl. by rewrite (proj2 (Z.ltb_lt _ _) Ht).
  - destruct (starts_with _ _) eqn:E; [|done]. exfalso. apply starts_with_spec in E as [s E].
    unfold cache_key in E. apply Hn.
    rewrite app_assoc_str in E. eapply prefix_same_length; [|exact E].
    apply str_map_length.
Qed.

Lemma invalidate_negative_case_sensitive_witness :
  let c := insert_negative 0 "New.home." (Some A) NxDomain 60 (mk ∅ ∅ [] 0 0 []) in
  (lookup_negative 1 "New.home." (Some A) (invalidate_negative "New.home." c)).1 = Some NxDomain /\
  (lookup_negative 1 "New.home." (Some A) (invalidate_negative "new.home." c)).1 = None.
Proof.
  split; [|vm_compute; reflexivity].
  apply (invalidate_negative_case_sensitive 0 1 "New.home." (Some A) NxDomain 60
    (mk ∅ ∅ [] 0 0 [])); [done|vm_compute; discriminate|done|done].
Defined.

End DnsCache.
