(* ===== verification/ZoneStore.v ===== *)
(** The global records and the signing marks of the database ([src/src/db.rs]):
    the [dns_records] table, the managed-zone set derived from it, the signed
    zones and which of them await a signing pass; lookups with their wildcard
    and alias fallbacks. The rows are in rowid order. *)

From S2P Require Import Prelude RustStr Names Ip Records Rrsig Sql.
From stdpp Require Import base gmap sets list option strings.
From Stdlib Require Import ZArith Lia Bool Ascii.

Open Scope Z_scope.

(** * Signing marks *)

Record DnssecKeyRow := mkKeyRow {
  kr_id : Z;
  kr_zone : string;
  kr_scope_name : string;
  kr_algorithm : string;
  kr_key_type : string;
  kr_private_key : list Z;
  kr_public_key : list Z;
  kr_key_tag : Z;
  kr_created_at : Z;
  kr_active : bool;
}.

(** The [dnssec_keys] table and the three sets. *)
Record SigningState := mkSigning {
  dnssec_keys : list DnssecKeyRow;
  signed_zones_cache : gset string;
  resign_pending : gset string;
  resign_active : gset string;
}.

Definition in_set (s : gset string) (x : string) : bool := bool_decide (x ∈ s).

Definition find_signed_zone (s : SigningState) (name : string) : option string :=
  let normalized := normalize_name name in
  if in_set (signed_zones_cache s) normalized then Some normalized
  else find (in_set (signed_zones_cache s)) (ancestor_names normalized).

Definition mark_zone_resign_pending (name : string) (s : SigningState) : SigningState :=
  match find_signed_zone s name with
  | Some zone => mkSigning (dnssec_keys s) (signed_zones_cache s)
                   ({[zone]} ∪ resign_pending s) (resign_active s)
  | None => s
  end.

Definition zone_signatures_stale (s : SigningState) (name : string) : bool :=
  match find_signed_zone s name with
  | Some zone => in_set (resign_pending s) zone || in_set (resign_active s) zone
  | None => false
  end.

Definition clear_zone_resign_pending (zone : string) (s : SigningState) : SigningState :=
  mkSigning (dnssec_keys s) (signed_zones_cache s)
    (resign_pending s ∖ {[normalize_name zone]}) (resign_active s).

Definition force_zone_resign_pending (zone : string) (s : SigningState) : SigningState :=
  mkSigning (dnssec_keys s) (signed_zones_cache s)
    ({[normalize_name zone]} ∪ resign_pending s) (resign_active s).

Definition mark_all_signed_zones_pending (s : SigningState) : SigningState :=
  mkSigning (dnssec_keys s) (signed_zones_cache s)
    (signed_zones_cache s ∪ resign_pending s) (resign_active s).

Definition begin_zone_resign (zone : string) (s : SigningState) : SigningState :=
  mkSigning (dnssec_keys s) (signed_zones_cache s) (resign_pending s)
    ({[normalize_name zone]} ∪ resign_active s).

Definition end_zone_resign (zone : string) (s : SigningState) : SigningState :=
  mkSigning (dnssec_keys s) (signed_zones_cache s) (resign_pending s)
    (resign_active s ∖ {[normalize_name zone]}).

Definition zones_awaiting_resign (s : SigningState) : list string := elements (resign_pending s).

(** The zones with an active key. *)
Definition active_zones (s : SigningState) : list string :=
  (fun k => normalize_name (kr_zone k)) <$> List.filter kr_active (dnssec_keys s).

(** Added first, removed after. *)
Definition refresh_signed_zones (s : SigningState) : SigningState :=
  let zones := active_zones s in
  let added := list_to_set zones ∪ signed_zones_cache s in
  mkSigning (dnssec_keys s) (filter (fun z => z ∈ zones) added)
    (resign_pending s) (resign_active s).

(** ** Keys *)

(** [DnssecKeyParams]; the database fills in the rest of the row. *)
Record DnssecKeyParams := mkKeyParams {
  kp_zone : string;
  kp_scope : string;
  kp_algorithm : string;
  kp_key_type : string;
  kp_private_key : list Z;
  kp_public_key : list Z;
  kp_key_tag : Z;
}.

(** The identifier is the next one of the table, [AUTOINCREMENT]. *)
Definition store_dnssec_key (id now : Z) (p : DnssecKeyParams) (s : SigningState) : SigningState :=
  let normalized := normalize_name (kp_zone p) in
  mkSigning (dnssec_keys s ++ [mkKeyRow id normalized (kp_scope p) (kp_algorithm p) (kp_key_type p)
               (kp_private_key p) (kp_public_key p) (kp_key_tag p) now true])
    ({[normalized]} ∪ signed_zones_cache s) ({[normalized]} ∪ resign_pending s) (resign_active s).

Definition list_dnssec_keys (zone : string) (s : SigningState) : list DnssecKeyRow :=
  List.filter (fun k => (kr_zone k =? normalize_name zone)%string) (dnssec_keys s).

Definition delete_dnssec_key (id : Z) (s : SigningState) : bool * SigningState :=
  if existsb (fun k => kr_id k =? id) (dnssec_keys s) then
    (true, mark_all_signed_zones_pending (refresh_signed_zones
       (mkSigning (List.filter (fun k => negb (kr_id k =? id)) (dnssec_keys s)) (signed_zones_cache s)
          (resign_pending s) (resign_active s))))
  else (false, s).

(** * Global records *)

Record ZoneStore := mkStore {
  dns_records : list DnsRecord;
  next_id : Z;
  managed_zones_cache : gset string;
  signing : SigningState;
}.

Definition set_signing (f : SigningState -> SigningState) (s : ZoneStore) : ZoneStore :=
  mkStore (dns_records s) (next_id s) (managed_zones_cache s) (f (signing s)).

(** [SELECT 1 ... WHERE name = ?1 OR name LIKE '%' || ?2 ESCAPE '\']. *)
Definition zone_has_records_conn (rows : list DnsRecord) (zone : string) : bool :=
  let pattern := "." +:+ like_escape zone in
  existsb (fun r => (r_name r =? zone)%string || sql_like ("%" +:+ pattern) (r_name r)) rows.

Definition zone_has_records (s : ZoneStore) (zone : string) : bool :=
  zone_has_records_conn (dns_records s) (normalize_name zone).

Definition name_occupied (s : ZoneStore) (name : string) : bool :=
  zone_has_records_conn (dns_records s) (normalize_name name).

Definition add_record (record : DnsRecord) (s : ZoneStore) : Z * ZoneStore :=
  let normalized := normalize_name (r_name record) in
  let id := next_id s in
  let row := mkRecord (Some id) normalized (r_type record) (r_value record)
               (r_ttl record) (r_priority record) in
  let managed := match extract_zone_from_name normalized with
                 | Some zone => {[zone]} ∪ managed_zones_cache s
                 | None => managed_zones_cache s
                 end in
  let s := mkStore (dns_records s ++ [row]) (id + 1) managed (signing s) in
  (id, if is_zone_content (r_type record)
       then set_signing (mark_zone_resign_pending normalized) s else s).

(** The rows a deletion selects. *)
Definition delete_matches (normalized : string) (record_type : option RecordKind)
    (value : string) (r : DnsRecord) : bool :=
  (r_name r =? normalized)%string &&
  match record_type with Some rt => bool_decide (r_type r = rt) | None => true end &&
  ((value =? "")%string || (r_value r =? value)%string).

Definition remove_records (name : string) (record_type : option RecordKind) (value : string)
    (s : ZoneStore) : nat * ZoneStore :=
  let normalized := normalize_name name in
  let hit := delete_matches normalized record_type value in
  let count := length (List.filter hit (dns_records s)) in
  let rows := List.filter (fun r => negb (hit r)) (dns_records s) in
  let managed :=
    if (0 <? count)%nat then
      match extract_zone_from_name normalized with
      | Some zone => if zone_has_records_conn rows zone then managed_zones_cache s
                     else managed_zones_cache s ∖ {[zone]}
      | None => managed_zones_cache s
      end
    else managed_zones_cache s in
  let s := mkStore rows (next_id s) managed (signing s) in
  (count, if (0 <? count)%nat &&
             match record_type with Some rt => is_zone_content rt | None => true end
          then set_signing (mark_zone_resign_pending normalized) s else s).

(** [list_records] over [build_list_query]: the pattern of a [*.] filter is not
    escaped, and its [LIKE] has no escape character. *)
Definition list_records (name_filter : string) (record_type : option RecordKind) (s : ZoneStore)
  : list DnsRecord :=
  let of_type (r : DnsRecord) := match record_type with Some rt => bool_decide (r_type r = rt) | None => true end in
  let of_name : DnsRecord -> bool :=
    if (name_filter =? "")%string then fun _ => true
    else match str_strip_prefix "*." name_filter with
         | Some suffix => fun r => sql_like_plain ("%" +:+ normalize_name suffix) (r_name r)
         | None => fun r => (r_name r =? normalize_name name_filter)%string
         end in
  List.filter (fun r => of_name r && of_type r) (dns_records s).

(** ** Lookups *)

Definition type_matches (record_type : option RecordKind) (r : DnsRecord) : bool :=
  match record_type with Some rt => bool_decide (r_type r = rt) | None => true end.

Definition lookup_exact (rows : list DnsRecord) (normalized : string)
    (record_type : option RecordKind) : list DnsRecord :=
  List.filter (fun r => (r_name r =? normalized)%string && type_matches record_type r) rows.

Definition lookup_no_wildcard (s : ZoneStore) (name : string) (record_type : option RecordKind)
  : list DnsRecord := lookup_exact (dns_records s) (normalize_name name) record_type.

Definition lookup (s : ZoneStore) (name : string) (record_type : option RecordKind)
  : list DnsRecord :=
  let normalized := normalize_name name in
  match lookup_exact (dns_records s) normalized record_type with
  | [] =>
      match make_wildcard_name normalized with
      | Some wildcard_name =>
          set_name normalized <$> lookup_exact (dns_records s) wildcard_name record_type
      | None => []
      end
  | records => records
  end.

Record LookupResult := mkLookup {
  exact : list DnsRecord;
  wildcard : list DnsRecord;
  cname : list DnsRecord;
  aname : list DnsRecord;
}.

(** The [UNION ALL]: four selections, each row tagged with its source. *)
Inductive source := SrcExact | SrcWildcard | SrcCname | SrcAname.

Definition fallback_rows (rows : list DnsRecord) (normalized wildcard_name : string)
    (rt : RecordKind) : list (DnsRecord * source) :=
  let select n k src := (fun r => (r, src)) <$>
    List.filter (fun r => (r_name r =? n)%string && bool_decide (r_type r = k)) rows in
  select normalized rt SrcExact ++ select wildcard_name rt SrcWildcard ++
  select normalized CNAME SrcCname ++ select normalized ANAME SrcAname.

Definition push_row (acc : LookupResult) (row : DnsRecord * source) : LookupResult :=
  let (r, src) := row in
  match src with
  | SrcExact => mkLookup (exact acc ++ [r]) (wildcard acc) (cname acc) (aname acc)
  | SrcWildcard => mkLookup (exact acc) (wildcard acc ++ [r]) (cname acc) (aname acc)
  | SrcCname => mkLookup (exact acc) (wildcard acc) (cname acc ++ [r]) (aname acc)
  | SrcAname => mkLookup (exact acc) (wildcard acc) (cname acc) (aname acc ++ [r])
  end.

Definition lookup_with_fallbacks (s : ZoneStore) (name : string) (rt : RecordKind)
  : LookupResult :=
  let normalized := normalize_name name in
  let wildcard_name := default "" (make_wildcard_name normalized) in
  let acc := foldl push_row (mkLookup [] [] [] [])
               (fallback_rows (dns_records s) normalized wildcard_name rt) in
  mkLookup (exact acc) (set_name normalized <$> wildcard acc) (cname acc) (aname acc).

Definition wildcard_owner_for (s : ZoneStore) (name : string) : option string :=
  match make_wildcard_name (normalize_name name) with
  | None => None
  | Some wildcard =>
      match lookup_exact (dns_records s) wildcard None with [] => None | _ => Some wildcard end
  end.

Definition closest_soa (s : ZoneStore) (name : string) : list DnsRecord :=
  default [] (first_hit
    (fun candidate =>
       match lookup_exact (dns_records s) candidate (Some SOA) with
       | [] => None
       | found => Some found
       end) (ancestor_names (normalize_name name))).

Definition zone_nsec_records (s : ZoneStore) (zone : string) : list DnsRecord :=
  let apex := normalize_name zone in
  let pattern := "%." +:+ like_escape apex in
  List.filter (fun r => bool_decide (r_type r = NSEC) &&
    ((r_name r =? apex)%string || sql_like pattern (r_name r))) (dns_records s).

Definition rrsigs_covering `{!Base64} (s : ZoneStore) (name : string) (covered : RecordKind)
  : list DnsRecord :=
  List.filter (fun r => match rrsig_parse (r_value r) with
                        | Ok sig => bool_decide (type_covered sig = covered)
                        | Err _ => false
                        end) (lookup_no_wildcard s name (Some RRSIG)).

Definition find_managed_zone (s : ZoneStore) (name : string) : option string :=
  walk_suffixes (fun z => if in_set (managed_zones_cache s) z then Some z else None) name.

(** The part of [load_caches_at_boot] that derives sets from these tables. *)
Definition load_zone_caches (s : ZoneStore) : ZoneStore :=
  let zones := active_zones (signing s) in
  mkStore (dns_records s) (next_id s)
    (foldl (fun acc r => match extract_zone_from_name (r_name r) with
                         | Some z => {[z]} ∪ acc
                         | None => acc
                         end) (managed_zones_cache s) (dns_records s))
    (mkSigning (dnssec_keys (signing s))
       (list_to_set zones ∪ signed_zones_cache (signing s))
       (list_to_set zones ∪ resign_pending (signing s)) (resign_active (signing s))).

(** * Invariant *)

(** A stored name is in normal form. *)
Definition normal (n : string) : Prop := exists ls, Forall label ls /\ n = fqdn ls.

(** Every row has a normal name and its zone is in the managed set. *)
Definition store_inv (s : ZoneStore) : Prop :=
  Forall (fun r => normal (r_name r)) (dns_records s) /\
  forall r z, r ∈ dns_records s -> extract_zone_from_name (r_name r) = Some z ->
    z ∈ managed_zones_cache s.

(** The calls that change the store; records are added under valid names. *)
Inductive store_step (s : ZoneStore) : ZoneStore -> Prop :=
| step_add r : valid_name (r_name r) = true -> store_step s (add_record r s).2
| step_remove n rt v : store_step s (remove_records n rt v s).2
| step_signing f : store_step s (set_signing f s)
| step_boot : store_step s (load_zone_caches s).

Definition empty_store : ZoneStore := mkStore [] 1 ∅ (mkSigning [] ∅ ∅ ∅).

Inductive store_reachable : ZoneStore -> Prop :=
| reach_empty : store_reachable empty_store
| reach_step s s' : store_reachable s -> store_step s s' -> store_reachable s'.

(** * Lemmas *)

Lemma normal_normalize n : valid_name n = true -> normal (normalize_name n).
Proof. intros [E H]%valid_name_spec. exists (labels_of n). by rewrite E. Qed.

Lemma normal_valid n : normal n -> valid_name n = true /\ normalize_name n = n.
Proof. intros (ls & H & ->). split; [by apply fqdn_valid|by apply normalize_fqdn]. Qed.

Lemma fqdn_lower ls : Forall label ls -> to_lowercase (fqdn ls) = fqdn ls.
Proof. intros H. rewrite <- (normalize_fqdn ls H). apply normalize_lower. Qed.

(** The query's row test is the label-suffix relation. *)
Lemma row_beneath ls zs :
  Forall label ls -> Forall label zs -> zs <> [] ->
  (fqdn ls =? fqdn zs)%string || sql_like ("%" +:+ "." +:+ like_escape (fqdn zs)) (fqdn ls) = true <->
  zs `suffix_of` ls.
Proof.
  intros Hl Hz Hne. rewrite sql_like_suffix_lower by (by apply fqdn_lower).
  rewrite orb_true_iff, String.eqb_eq, ends_with_fqdn by done. split.
  - intros [E|(p & _ & ->)]; [by apply fqdn_inj in E as ->|by exists p].
  - intros [p ->]. destruct p as [|x p]; [by left|right]. by exists (x :: p).
Qed.

Lemma zone_has_records_spec rows zs :
  Forall (fun r => normal (r_name r)) rows -> Forall label zs -> zs <> [] ->
  zone_has_records_conn rows (fqdn zs) = true <->
  exists r, r ∈ rows /\ zs `suffix_of` labels_of (r_name r).
Proof.
  intros Hrows Hz Hne. unfold zone_has_records_conn. rewrite existsb_exists.
  rewrite Forall_forall in Hrows. setoid_rewrite <- list_elem_of_In.
  split; intros (r & Hr & H); exists r; (split; [done|]);
    destruct (Hrows r Hr) as (ls & Hl & E); rewrite E in *.
  - rewrite labels_of_fqdn by done. by apply row_beneath.
  - rewrite labels_of_fqdn in H by done. by apply row_beneath.
Qed.

Lemma extract_zone_suffix n z :
  normal n -> extract_zone_from_name n = Some z ->
  exists zs, z = fqdn zs /\ Forall label zs /\ zs <> [] /\ zs `suffix_of` labels_of n.
Proof.
  intros Hn Hz. destruct (normal_valid n Hn) as [Hv _]. destruct Hn as (ls & Hl & ->).
  destruct (extract_zone_labels _ _ Hv Hz) as [-> Hne]. rewrite labels_of_fqdn in * by done.
  exists (drop (length ls - 2) ls). split; [done|]. split; [by apply Forall_drop|].
  split; [|exists (take (length ls - 2) ls); by rewrite take_drop].
  intros H. apply (f_equal length) in H. rewrite length_drop in H.
  destruct ls; [done|]. simpl in H. lia.
Qed.

Lemma set_signing_rows f s :
  dns_records (set_signing f s) = dns_records s /\
  managed_zones_cache (set_signing f s) = managed_zones_cache s.
Proof. done. Qed.

Lemma add_record_state r s :
  let normalized := normalize_name (r_name r) in
  dns_records (add_record r s).2 =
    dns_records s ++ [mkRecord (Some (next_id s)) normalized (r_type r) (r_value r)
                        (r_ttl r) (r_priority r)] /\
  managed_zones_cache (add_record r s).2 =
    match extract_zone_from_name normalized with
    | Some z => {[z]} ∪ managed_zones_cache s
    | None => managed_zones_cache s
    end.
Proof. unfold add_record. simpl. by destruct (is_zone_content _). Qed.

Lemma remove_records_rows n rt v s :
  dns_records (remove_records n rt v s).2 =
    List.filter (fun r => negb (delete_matches (normalize_name n) rt v r)) (dns_records s).
Proof. unfold remove_records. simpl. by destruct (_ && _). Qed.

Lemma remove_records_managed n rt v s z :
  z ∈ managed_zones_cache s ->
  zone_has_records_conn (dns_records (remove_records n rt v s).2) z = true ->
  z ∈ managed_zones_cache (remove_records n rt v s).2.
Proof.
  intros Hz. rewrite remove_records_rows. unfold remove_records. cbn zeta.
  set (rows := List.filter _ (dns_records s)). intros Hrec.
  assert (forall b (f : SigningState -> SigningState) st,
    managed_zones_cache (if b : bool then set_signing f st else st) = managed_zones_cache st) as Hm
    by (by intros []).
  simpl. rewrite Hm. simpl. case_match; [|done].
  destruct (extract_zone_from_name _) as [z'|]; [|done].
  destruct (zone_has_records_conn rows z') eqn:E; [done|].
  apply elem_of_difference. split; [done|]. rewrite elem_of_singleton.
  intros ->. fold rows in Hrec. congruence.
Qed.

Lemma store_inv_step s s' : store_inv s -> store_step s s' -> store_inv s'.
Proof.
  intros [Hn Hm] [r Hv|n rt v|f|].
  - destruct (add_record_state r s) as [Er Em]. split.
    + rewrite Er, Forall_app, Forall_singleton. split; [done|]. by apply normal_normalize.
    + intros r' z. rewrite Er, Em, elem_of_app, list_elem_of_singleton.
      intros [Hr| ->] Hz; simpl in Hz.
      * specialize (Hm _ _ Hr Hz). case_match; set_solver.
      * rewrite Hz. set_solver.
  - pose proof (remove_records_rows n rt v s) as Er. split.
    + rewrite Er. rewrite Forall_forall in Hn |- *. intros r [Hr _]%elem_filter_bool. by apply Hn.
    + intros r z Hr Hz. assert (r ∈ dns_records s) as Hr'.
      { rewrite Er in Hr. by apply elem_filter_bool in Hr as [? _]. }
      apply remove_records_managed; [by eapply Hm|].
      assert (Forall (fun r => normal (r_name r)) (dns_records (remove_records n rt v s).2)) as Hn'.
      { rewrite Er. rewrite Forall_forall in Hn |- *. intros x [Hx _]%elem_filter_bool. by apply Hn. }
      rewrite Forall_forall in Hn.
      destruct (extract_zone_suffix _ _ (Hn r Hr') Hz) as (zs & -> & Hl & Hne & Hs).
      apply zone_has_records_spec; [done..|]. by exists r.
  - done.
  - split; [done|]. simpl. intros r z Hr Hz.
    enough (forall rows acc, (r ∈ rows \/ z ∈ acc) ->
      z ∈ foldl (fun (acc : gset string) r => match extract_zone_from_name (r_name r) with
                            | Some z => {[z]} ∪ acc | None => acc end) acc rows) as H by auto.
    clear Hr. induction rows as [|x rows IH]; intros acc H; simpl.
    + destruct H as [H|H]; [by apply elem_of_nil in H|done].
    + apply IH. rewrite elem_of_cons in H. destruct H as [[<-|H]|H]; [|by left|].
      * right. rewrite Hz. set_solver.
      * right. case_match; set_solver.
Qed.

Lemma reachable_inv s : store_reachable s -> store_inv s.
Proof.
  induction 1 as [|s s' _ IH Hs]; [|by eapply store_inv_step].
  split; [by apply Forall_nil_2|]. intros r z Hr. by apply elem_of_nil in Hr.
Qed.

(** Folding the tagged rows sorts them by tag. *)
Lemma push_rows acc l :
  foldl push_row acc l =
    let pick src := (List.filter (fun p : DnsRecord * source =>
                       match p.2, src with
                       | SrcExact, SrcExact | SrcWildcard, SrcWildcard
                       | SrcCname, SrcCname | SrcAname, SrcAname => true
                       | _, _ => false
                       end) l).*1 in
    mkLookup (exact acc ++ pick SrcExact) (wildcard acc ++ pick SrcWildcard)
             (cname acc ++ pick SrcCname) (aname acc ++ pick SrcAname).
Proof.
  revert acc. induction l as [|[r src] l IH]; intros acc; cbn zeta.
  - simpl. rewrite !app_nil_r. by destruct acc.
  - simpl. rewrite IH. destruct src; simpl; by rewrite <- ?app_assoc.
Qed.

Lemma filter_tagged {A B} (src : B) (p : A * B -> bool) (l : list A) b :
  (forall x, p (x, src) = b) ->
  (List.filter p ((fun r => (r, src)) <$> l)).*1 = if b then l else [].
Proof.
  intros H. induction l as [|x l IH]; [by destruct b|].
  rewrite fmap_cons. cbn [List.filter]. rewrite H.
  destruct b; [rewrite fmap_cons; by rewrite IH|exact IH].
Qed.

Lemma filter_app_fst {A B} (p : A * B -> bool) (l k : list (A * B)) :
  (List.filter p (l ++ k)).*1 = (List.filter p l).*1 ++ (List.filter p k).*1.
Proof. by rewrite List.filter_app, fmap_app. Qed.

Lemma lookup_with_fallbacks_eq s name rt :
  lookup_with_fallbacks s name rt =
    let n := normalize_name name in
    mkLookup (lookup_exact (dns_records s) n (Some rt))
      (set_name n <$> lookup_exact (dns_records s) (default "" (make_wildcard_name n)) (Some rt))
      (lookup_exact (dns_records s) n (Some CNAME))
      (lookup_exact (dns_records s) n (Some ANAME)).
Proof.
  unfold lookup_with_fallbacks, fallback_rows. cbn zeta. rewrite push_rows. cbn zeta. simpl.
  rewrite !filter_app_fst.
  repeat match goal with
    | |- context [(List.filter ?p ((fun r => (r, ?src)) <$> ?l)).*1] =>
        (rewrite (filter_tagged src p l true) by done) || (rewrite (filter_tagged src p l false) by done)
    end.
  by rewrite ?app_nil_r.
Qed.

Lemma lookup_exact_nil_name rows rt :
  Forall (fun r => normal (r_name r)) rows -> lookup_exact rows "" rt = [].
Proof.
  intros H. unfold lookup_exact. induction H as [|r rows (ls & Hl & E) _ IH]; [done|].
  simpl. rewrite IH. destruct (String.eqb_spec (r_name r) "") as [E'|]; [|done].
  exfalso. rewrite E in E'. pose proof (fqdn_ends ls) as He. by rewrite E' in He.
Qed.

(** * Properties *)

(** The existence test behind the choice between NXDOMAIN and NODATA is
    exact: a name is occupied when, and only when, some stored record sits at it
    or beneath it on label boundaries; an underscore in a label is not a wildcard. *)
Theorem name_occupied_iff s name :
  store_reachable s -> valid_name name = true -> labels_of name <> [] ->
  name_occupied s name = true <->
  exists r, r ∈ dns_records s /\ labels_of name `suffix_of` labels_of (r_name r).
Proof.
  intros [Hn _]%reachable_inv [E Hl]%valid_name_spec Hne.
  unfold name_occupied. rewrite E. by apply zone_has_records_spec.
Qed.

(** No stored record is ever orphaned from the managed-zone set: whatever was
    added, removed or reloaded before, the walk that makes the server
    authoritative finds a zone enclosing the name of every record outside the
    reverse trees. *)
Theorem managed_zones_cover s r z :
  store_reachable s -> r ∈ dns_records s -> extract_zone_from_name (r_name r) = Some z ->
  exists z', find_managed_zone s (r_name r) = Some z' /\ name_in_zone z' z = true.
Proof.
  intros Hs Hr Hz. destruct (reachable_inv s Hs) as [Hn Hm].
  rewrite Forall_forall in Hn. specialize (Hm _ _ Hr Hz). specialize (Hn _ Hr).
  destruct (extract_zone_suffix _ _ Hn Hz) as (zs & -> & Hl & Hne & Hsuf).
  destruct (normal_valid _ Hn) as [Hv _]. unfold find_managed_zone.
  rewrite walk_suffixes_labels by done.
  pose proof (valid_name_spec _ Hv) as [_ Hln].
  set (hit := fun z => if in_set (managed_zones_cache s) z then Some z else None).
  assert (zs ∈ tails (labels_of (r_name r))) as Hin by (by apply elem_tails).
  destruct (labels_of (r_name r)) as [|l ls] eqn:El; [by apply elem_of_nil in Hin|].
  destruct (first_hit hit (fqdn <$> tails (l :: ls))) as [z'|] eqn:E.
  - exists z'. split; [done|]. apply first_hit_Some in E as (l1 & x & l2 & E & Hx & Hl1).
    assert (hit (fqdn zs) = Some (fqdn zs)) as Hzs.
    { unfold hit, in_set. by rewrite bool_decide_true. }
    unfold hit in Hx. destruct (in_set _ x); [|done]. injection Hx as <-.
    apply fmap_app_inv in E as (k1 & k2 & -> & E & Et).
    destruct k2 as [|ks k2]; [done|]. simpl in E. injection E as -> ->.
    assert (ks ∈ tails (l :: ls)) as Hks by (rewrite Et; set_solver).
    pose proof (tails_label _ _ Hln Hks) as Hkl.
    apply name_in_zone_labels; [by apply fqdn_valid..|].
    rewrite !labels_of_fqdn by done.
    rewrite Et, elem_of_app, elem_of_cons in Hin. destruct Hin as [Hin|[->|Hin]].
    + exfalso. rewrite Forall_fmap, Forall_forall in Hl1. specialize (Hl1 _ Hin). simpl in Hl1.
      congruence.
    + done.
    + by eapply tails_split.
  - exfalso. apply first_hit_None in E. rewrite Forall_fmap, Forall_forall in E.
    specialize (E _ Hin). unfold compose, hit, in_set in E. by rewrite bool_decide_true in E.
Qed.

(** The single query with fallbacks computes the separate lookups: its four
    lists are the exact match, the wildcard match relabelled to the queried name,
    the CNAME and the ANAME at the name; exact-else-wildcard is what [lookup]
    answers. *)
Theorem lookup_fallbacks_equiv s name rt :
  store_reachable s ->
  let res := lookup_with_fallbacks s name rt in
  exact res = lookup_no_wildcard s name (Some rt) /\
  cname res = lookup_no_wildcard s name (Some CNAME) /\
  aname res = lookup_no_wildcard s name (Some ANAME) /\
  lookup s name (Some rt) = match exact res with [] => wildcard res | rs => rs end /\
  Forall (fun r => r_name r = normalize_name name /\ r_type r = rt) (wildcard res).
Proof.
  intros Hs. cbn zeta. rewrite lookup_with_fallbacks_eq. cbn zeta. simpl. repeat split.
  - unfold lookup. destruct (lookup_exact _ _ _); [|done].
    destruct (make_wildcard_name _) as [w|]; [done|]. simpl.
    rewrite lookup_exact_nil_name; [done|]. by apply reachable_inv.
  - rewrite Forall_fmap, Forall_forall. intros r Hr. simpl. split; [done|].
    unfold lookup_exact in Hr. apply elem_filter_bool in Hr as [_ Hr]. simpl in Hr. by bool_hyps.
Qed.

(** * Signing marks and signed content *)

(** What happens to the marks of a zone between two reads of it: records change,
    passes begin, end and re-mark, but this zone's mark is not cleared. *)
Inductive mark_op (zone : string) : (SigningState -> SigningState) -> Prop :=
| op_mark n : mark_op zone (mark_zone_resign_pending n)
| op_force z : mark_op zone (force_zone_resign_pending z)
| op_all : mark_op zone mark_all_signed_zones_pending
| op_begin z : mark_op zone (begin_zone_resign z)
| op_end z : mark_op zone (end_zone_resign z)
| op_clear z : normalize_name z <> zone -> mark_op zone (clear_zone_resign_pending z).

Lemma mark_op_pending zone f s :
  mark_op zone f -> zone ∈ resign_pending s ->
  zone ∈ resign_pending (f s) /\ signed_zones_cache (f s) = signed_zones_cache s.
Proof.
  intros [n|z| |z|z|z Hz] Hp; simpl; try set_solver.
  unfold mark_zone_resign_pending. case_match; simpl; set_solver.
Qed.

Lemma mark_ops_pending zone fs s :
  Forall (mark_op zone) fs -> zone ∈ resign_pending s ->
  zone ∈ resign_pending (foldl (fun s f => f s) s fs) /\
  signed_zones_cache (foldl (fun s f => f s) s fs) = signed_zones_cache s.
Proof.
  intros H. revert s. induction H as [|f fs Hf _ IH]; intros s Hp; [done|]. simpl.
  destruct (mark_op_pending zone f s Hf Hp) as [Hp' Hc].
  destruct (IH _ Hp') as [H1 H2]. split; [done|]. congruence.
Qed.

Lemma find_signed_zone_cache s s' n :
  signed_zones_cache s = signed_zones_cache s' -> find_signed_zone s n = find_signed_zone s' n.
Proof. intros H. unfold find_signed_zone. by rewrite H. Qed.

Lemma find_signed_normalize s n : find_signed_zone s (normalize_name n) = find_signed_zone s n.
Proof. unfold find_signed_zone. by rewrite normalize_name_idem. Qed.

(** A change to a signed zone is never served under its old signatures: from
    the moment a record of zone content is added at or removed from a name of
    the zone, every name of that zone reads as stale, whatever other marks,
    passes beginning and passes ending follow, until the zone's own mark is
    cleared; so a change made while a signing pass runs outlives that pass. *)
Theorem mutation_marks_stale s r n zone fs :
  is_zone_content (r_type r) = true ->
  find_signed_zone (signing s) (r_name r) = Some zone ->
  find_signed_zone (signing s) n = Some zone ->
  Forall (mark_op zone) fs ->
  let after st := foldl (fun s f => f s) (signing st) fs in
  zone_signatures_stale (after (add_record r s).2) n = true /\
  (forall v, (remove_records (r_name r) (Some (r_type r)) v s).1 <> 0%nat ->
     zone_signatures_stale (after (remove_records (r_name r) (Some (r_type r)) v s).2) n = true).
Proof.
  intros Hc Hr Hn Hf. cbn zeta.
  assert (forall st, zone ∈ resign_pending (signing st) ->
    signed_zones_cache (signing st) = signed_zones_cache (signing s) ->
    zone_signatures_stale (foldl (fun s f => f s) (signing st) fs) n = true) as Hgo.
  { intros st Hp Hsc. destruct (mark_ops_pending zone fs _ Hf Hp) as [H1 H2].
    unfold zone_signatures_stale.
    rewrite (find_signed_zone_cache _ (signing s)), Hn by congruence.
    unfold in_set. by rewrite bool_decide_true. }
  split.
  - apply Hgo; unfold add_record; simpl; rewrite Hc; simpl;
      unfold mark_zone_resign_pending; rewrite find_signed_normalize, Hr; simpl; set_solver.
  - intros v Hcount. apply Hgo; unfold remove_records in *; simpl in *;
      destruct (0 <? _)%nat eqn:E; bool_hyps; try lia; simpl; rewrite Hc; simpl;
      unfold mark_zone_resign_pending; rewrite find_signed_normalize, Hr; simpl; set_solver.
Qed.

(** Dropping the records of an enclosing zone first leaves it managed for
    good: after adding a TLD-level record and one beneath it and removing both, in
    that order, the table is empty and the TLD is still in the managed set, while
    a reload derives no managed zone at all. *)
Theorem managed_zone_left_behind :
  let rec n := mkRecord None n A "10.0.0.1" 300 0 in
  let s := (add_record (rec "a.tld.") (add_record (rec "tld.") empty_store).2).2 in
  let s := (remove_records "a.tld." None "" (remove_records "tld." None "" s).2).2 in
  dns_records s = [] /\ find_managed_zone s "anything.tld." = Some "tld." /\
  find_managed_zone (load_zone_caches (mkStore (dns_records s) (next_id s) ∅ (signing s)))
    "anything.tld." = None.
Proof. vm_compute. repeat split. Qed.

(** * Witnesses *)

Definition sample_store : ZoneStore :=
  (add_record (mkRecord None "_https._tcp.Example.com" SRV "1 1 443 www.example.com." 300 0)
     empty_store).2.

Lemma sample_store_reachable : store_reachable sample_store.
Proof.
  apply (reach_step empty_store); [apply reach_empty|]. by apply step_add.
Defined.

Lemma name_occupied_iff_witness :
  name_occupied sample_store "_TCP.example.com" = true /\
  (exists r, r ∈ dns_records sample_store /\
     labels_of "_TCP.example.com" `suffix_of` labels_of (r_name r)) /\
  name_occupied sample_store "xtcp.example.com" = false.
Proof.
  split; [vm_compute; reflexivity|]. split; [|vm_compute; reflexivity].
  apply (name_occupied_iff sample_store "_TCP.example.com" sample_store_reachable);
    vm_compute; congruence.
Defined.

Lemma managed_zones_cover_witness :
  exists z', find_managed_zone sample_store "_https._tcp.example.com." = Some z' /\
    name_in_zone z' "example.com." = true.
Proof.
  apply (managed_zones_cover sample_store
    (mkRecord (Some 1) "_https._tcp.example.com." SRV "1 1 443 www.example.com." 300 0)
    "example.com." sample_store_reachable).
  - vm_compute. by left.
  - vm_compute. reflexivity.
Defined.

Lemma lookup_fallbacks_equiv_witness :
  let s := (add_record (mkRecord None "*.example.com." A "10.0.0.1" 60 0) sample_store).2 in
  lookup s "www.example.com" (Some A) =
    match exact (lookup_with_fallbacks s "www.example.com" A) with
    | [] => wildcard (lookup_with_fallbacks s "www.example.com" A)
    | rs => rs
    end.
Proof.
  apply (lookup_fallbacks_equiv
    (add_record (mkRecord None "*.example.com." A "10.0.0.1" 60 0) sample_store).2).
  apply (reach_step sample_store); [apply sample_store_reachable|]. by apply step_add.
Defined.

Definition signed_store : ZoneStore :=
  load_zone_caches (mkStore [] 1 ∅ (mkSigning [mkKeyRow 1 "example.com." "" "ED25519" "KSK" [] [] 0 0 true] ∅ ∅ ∅)).

Lemma mutation_marks_stale_witness :
  let s := set_signing (clear_zone_resign_pending "example.com.") signed_store in
  zone_signatures_stale (signing s) "www.example.com." = false /\
  zone_signatures_stale
    (end_zone_resign "example.com." (signing
      (add_record (mkRecord None "new.example.com." A "10.0.0.1" 60 0)
        (set_signing (begin_zone_resign "example.com.") s)).2)) "www.example.com." = true.
Proof.
  split; [vm_compute; reflexivity|].
  destruct (mutation_marks_stale
    (set_signing (begin_zone_resign "example.com.")
       (set_signing (clear_zone_resign_pending "example.com.") signed_store))
    (mkRecord None "new.example.com." A "10.0.0.1" 60 0) "www.example.com." "example.com."
    [end_zone_resign "example.com."]) as [H _]; [vm_compute; reflexivity..| |].
  - apply Forall_singleton. apply op_end.
  - cbn zeta in H. cbn [foldl] in H. exact H.
Defined.
