(* ===== verification/Scopes.v ===== *)
(** Network scopes ([src/src/db.rs]): the scopes and the zones they own, the
    associations of client addresses, the records a scope keeps to itself, the
    peer forwarders and ingress listeners of its zones; each table with the
    in-memory cache the query path reads. *)

From S2P Require Import Prelude RustStr Names Ip Records Sql.
From stdpp Require Import base gmap sets list option strings fin_maps sorting.
From Stdlib Require Import ZArith Lia Bool Ascii.

Open Scope Z_scope.

(** * Data *)

Record NetworkScope := mkScope { sc_name : string; sc_home_domain : string }.

Record NetworkAssociation := mkAssoc {
  as_ip_address : string;
  as_scope_name : string;
  as_ttl_seconds : Z;
}.

Record AssociationCacheEntry := mkAssocEntry { ac_scope_name : string; ac_expires_at : Z }.

(** A row of [network_associations] but for its key. *)
Record AssocRow := mkAssocRow { ar_scope : string; ar_ttl : Z; ar_created_at : Z }.

Record ScopeStore := mkScopes {
  network_scopes : list NetworkScope;
  scoped_dns_records : list (string * DnsRecord);
  scoped_next_id : Z;
  network_associations : gmap string AssocRow;
  scope_tlds : list (string * string);
  scope_tld_forwarders : list (string * string * string);
  tld_listeners : list (string * string * string);
  association_cache : gmap string AssociationCacheEntry;
  scoped_record_cache : gmap string (list DnsRecord);
  scope_count : Z;
  tld_owner_cache : gmap string string;
  tld_forwarder_cache : gmap string (list SocketAddr);
  tld_ingress_cache : gmap string IpAddr;
}.

Definition empty_scopes : ScopeStore :=
  mkScopes [] [] 1 ∅ [] [] [] ∅ ∅ 0 ∅ ∅ ∅.

(** ** Field updates *)

Definition set_scopes (x : list NetworkScope) (n : Z) (s : ScopeStore) : ScopeStore :=
  mkScopes x (scoped_dns_records s) (scoped_next_id s) (network_associations s) (scope_tlds s)
    (scope_tld_forwarders s) (tld_listeners s) (association_cache s) (scoped_record_cache s)
    n (tld_owner_cache s) (tld_forwarder_cache s) (tld_ingress_cache s).
Definition set_scoped_records (x : list (string * DnsRecord)) (id : Z)
    (c : gmap string (list DnsRecord)) (s : ScopeStore) : ScopeStore :=
  mkScopes (network_scopes s) x id (network_associations s) (scope_tlds s)
    (scope_tld_forwarders s) (tld_listeners s) (association_cache s) c
    (scope_count s) (tld_owner_cache s) (tld_forwarder_cache s) (tld_ingress_cache s).
Definition set_associations (x : gmap string AssocRow) (c : gmap string AssociationCacheEntry)
    (s : ScopeStore) : ScopeStore :=
  mkScopes (network_scopes s) (scoped_dns_records s) (scoped_next_id s) x (scope_tlds s)
    (scope_tld_forwarders s) (tld_listeners s) c (scoped_record_cache s)
    (scope_count s) (tld_owner_cache s) (tld_forwarder_cache s) (tld_ingress_cache s).
Definition set_tlds (x : list (string * string)) (c : gmap string string)
    (s : ScopeStore) : ScopeStore :=
  mkScopes (network_scopes s) (scoped_dns_records s) (scoped_next_id s) (network_associations s)
    x (scope_tld_forwarders s) (tld_listeners s) (association_cache s) (scoped_record_cache s)
    (scope_count s) c (tld_forwarder_cache s) (tld_ingress_cache s).
Definition set_forwarders (x : list (string * string * string))
    (c : gmap string (list SocketAddr)) (s : ScopeStore) : ScopeStore :=
  mkScopes (network_scopes s) (scoped_dns_records s) (scoped_next_id s) (network_associations s)
    (scope_tlds s) x (tld_listeners s) (association_cache s) (scoped_record_cache s)
    (scope_count s) (tld_owner_cache s) c (tld_ingress_cache s).
Definition set_listeners (x : list (string * string * string)) (c : gmap string IpAddr)
    (s : ScopeStore) : ScopeStore :=
  mkScopes (network_scopes s) (scoped_dns_records s) (scoped_next_id s) (network_associations s)
    (scope_tlds s) (scope_tld_forwarders s) x (association_cache s) (scoped_record_cache s)
    (scope_count s) (tld_owner_cache s) (tld_forwarder_cache s) c.

(** * Scopes *)

Inductive scope_error :=
| TldConflict (tld owner : string)
| ConstraintViolation
| EmptyTld
| NoSuchScope
| IsHomeDomain
| OwnedByOther
| NotOwned
| InvalidForwarder.

Definition has_scopes (s : ScopeStore) : bool := 0 <? scope_count s.

Definition get_network_scope (s : ScopeStore) (name : string) : option NetworkScope :=
  find (fun sc => (sc_name sc =? name)%string) (network_scopes s).

(** The insertion fails on a taken name or home domain. *)
Definition create_network_scope (scope : NetworkScope) (s : ScopeStore)
  : result ScopeStore scope_error :=
  let home_domain := normalize_name (sc_home_domain scope) in
  let insert_ :=
    if existsb (fun sc => (sc_name sc =? sc_name scope)%string ||
                          (sc_home_domain sc =? home_domain)%string) (network_scopes s)
    then Err ConstraintViolation
    else Ok (set_tlds (scope_tlds s) (<[home_domain := sc_name scope]> (tld_owner_cache s))
               (set_scopes (network_scopes s ++ [mkScope (sc_name scope) home_domain])
                  (as_u 64 (scope_count s + 1)) s)) in
  match tld_owner_cache s !! home_domain with
  | Some existing =>
      if (existing =? sc_name scope)%string then insert_ else Err (TldConflict home_domain existing)
  | None => insert_
  end.

Definition tld_fwd_key (scope tld_norm : string) : string :=
  scope +:+ String "000" tld_norm.

Definition delete_network_scope (name : string) (s : ScopeStore) : bool * ScopeStore :=
  let count := length (List.filter (fun sc => (sc_name sc =? name)%string) (network_scopes s)) in
  let other {A} (key : A -> string) := List.filter (fun r => negb (key r =? name)%string) in
  let s := set_scoped_records (other fst (scoped_dns_records s)) (scoped_next_id s)
             (filter (fun kv => starts_with (name +:+ ":") kv.1 = false) (scoped_record_cache s)) s in
  let s := set_associations (filter (fun kv => ar_scope kv.2 <> name) (network_associations s))
             (filter (fun kv => ac_scope_name kv.2 <> name) (association_cache s)) s in
  let s := set_forwarders (other (fun r => fst (fst r)) (scope_tld_forwarders s))
             (filter (fun kv => starts_with (tld_fwd_key name "") kv.1 = false)
                (tld_forwarder_cache s)) s in
  let s := set_tlds (other fst (scope_tlds s))
             (filter (fun kv => kv.2 <> name) (tld_owner_cache s)) s in
  let s := set_scopes (other sc_name (network_scopes s))
             (if (0 <? count)%nat then as_u 64 (scope_count s - 1) else scope_count s) s in
  ((0 <? count)%nat, s).

(** * Associations *)

(** [now] is the instant, [wall] the wall clock in seconds; a TTL is stored as a
    signed 64-bit integer. *)
Definition join_network (now wall : Z) (assoc : NetworkAssociation) (s : ScopeStore) : ScopeStore :=
  set_associations
    (<[as_ip_address assoc := mkAssocRow (as_scope_name assoc) (as_ttl_seconds assoc) wall]>
       (network_associations s))
    (<[as_ip_address assoc :=
        mkAssocEntry (as_scope_name assoc) (now + from_secs (as_ttl_seconds assoc))]>
       (association_cache s)) s.

Definition leave_network (ip_address : string) (s : ScopeStore) : bool * ScopeStore :=
  (bool_decide (is_Some (network_associations s !! ip_address)),
   set_associations (delete ip_address (network_associations s))
     (delete ip_address (association_cache s)) s).

Definition get_scope_for_ip (now : Z) (ip_address : string) (s : ScopeStore)
  : option string * ScopeStore :=
  match association_cache s !! ip_address with
  | Some entry =>
      if now <? ac_expires_at entry then (Some (ac_scope_name entry), s)
      else (None, set_associations (network_associations s)
                    (delete ip_address (association_cache s)) s)
  | None => (None, s)
  end.

(** [load_associations_into_cache]. *)
Definition load_associations_into_cache (now wall : Z) (s : ScopeStore) : ScopeStore :=
  set_associations (network_associations s)
    (omap (fun row =>
       let elapsed := wall - ar_created_at row in
       if elapsed <? ar_ttl row
       then Some (mkAssocEntry (ar_scope row) (now + from_secs (ar_ttl row - elapsed)))
       else None) (network_associations s) ∪ association_cache s) s.

(** * Scoped records *)

Definition scoped_record_cache_key (scope_name normalized_name : string)
    (record_type : option RecordKind) : string :=
  match record_type with
  | Some rt => scope_name +:+ ":" +:+ normalized_name +:+ ":" +:+ as_str rt
  | None => scope_name +:+ ":" +:+ normalized_name +:+ ":*"
  end.

(** [entry(key).and_modify(push).or_insert(vec![r])]. *)
Definition push_scoped (key : string) (r : DnsRecord) (c : gmap string (list DnsRecord))
  : gmap string (list DnsRecord) := <[key := default [] (c !! key) ++ [r]]> c.

Definition add_scoped_record (scope_name : string) (record : DnsRecord) (s : ScopeStore)
  : Z * ScopeStore :=
  let normalized := normalize_name (r_name record) in
  let id := scoped_next_id s in
  let row := mkRecord (Some id) normalized (r_type record) (r_value record)
               (r_ttl record) (r_priority record) in
  (id, set_scoped_records (scoped_dns_records s ++ [(scope_name, row)]) (id + 1)
         (push_scoped (scoped_record_cache_key scope_name normalized (Some (r_type record))) row
            (scoped_record_cache s)) s).

Definition remove_scoped_records (scope_name name : string) (record_type : option RecordKind)
    (value : string) (s : ScopeStore) : nat * ScopeStore :=
  let normalized := normalize_name name in
  let hit (row : string * DnsRecord) :=
    (row.1 =? scope_name)%string && (r_name row.2 =? normalized)%string &&
    match record_type with Some rt => bool_decide (r_type row.2 = rt) | None => true end &&
    ((value =? "")%string || (r_value row.2 =? value)%string) in
  (length (List.filter hit (scoped_dns_records s)),
   set_scoped_records (List.filter (fun row => negb (hit row)) (scoped_dns_records s))
     (scoped_next_id s)
     (filter (fun kv => starts_with (scope_name +:+ ":" +:+ normalized) kv.1 = false)
        (scoped_record_cache s)) s).

(** [load_scoped_records_into_cache]. *)
Definition load_scoped_records_into_cache (s : ScopeStore) : ScopeStore :=
  set_scoped_records (scoped_dns_records s) (scoped_next_id s)
    (foldl (fun c (row : string * DnsRecord) =>
       let r := row.2 in
       push_scoped (scoped_record_cache_key row.1 (r_name r) (Some (r_type r)))
         (mkRecord None (r_name r) (r_type r) (r_value r) (r_ttl r) (r_priority r)) c)
       (scoped_record_cache s) (scoped_dns_records s)) s.

(** The order in which a concurrent map is iterated is not specified. *)
Class MapIter := map_iter : forall V, gmap string V -> list (string * V).
Class MapIterLaws `{!MapIter} := map_iter_perm V (m : gmap string V) : map_iter V m ≡ₚ map_to_list m.

#[export] Instance default_iter : MapIter := fun V => map_to_list.
#[export] Instance default_iter_laws : MapIterLaws.
Proof. intros V m. reflexivity. Qed.

Section Lookups.
Context `{!MapIter}.

Definition lookup_scoped_exact (s : ScopeStore) (scope_name normalized : string)
    (record_type : option RecordKind) : list DnsRecord :=
  match record_type with
  | Some rt => default [] (scoped_record_cache s !!
                 scoped_record_cache_key scope_name normalized (Some rt))
  | None =>
      let prefix := scope_name +:+ ":" +:+ normalized +:+ ":" in
      flat_map (fun kv : string * list DnsRecord =>
        if starts_with prefix kv.1 then kv.2 else []) (map_iter _ (scoped_record_cache s))
  end.

Definition lookup_scoped_no_wildcard (s : ScopeStore) (scope_name name : string)
    (record_type : option RecordKind) : list DnsRecord :=
  lookup_scoped_exact s scope_name (normalize_name name) record_type.

Definition lookup_scoped (s : ScopeStore) (scope_name name : string)
    (record_type : option RecordKind) : list DnsRecord :=
  let normalized := normalize_name name in
  match lookup_scoped_exact s scope_name normalized record_type with
  | [] =>
      match make_wildcard_name normalized with
      | Some wildcard_name =>
          set_name normalized <$> lookup_scoped_exact s scope_name wildcard_name record_type
      | None => []
      end
  | records => records
  end.

Definition scoped_wildcard_owner_for (s : ScopeStore) (scope_name name : string)
  : option string :=
  match make_wildcard_name (normalize_name name) with
  | None => None
  | Some wildcard =>
      match lookup_scoped_no_wildcard s scope_name wildcard None with
      | [] => None
      | _ => Some wildcard
      end
  end.

Definition closest_scoped_soa (s : ScopeStore) (scope_name name : string) : list DnsRecord :=
  default [] (first_hit
    (fun candidate =>
       match lookup_scoped_no_wildcard s scope_name candidate (Some SOA) with
       | [] => None
       | found => Some found
       end) (ancestor_names (normalize_name name))).

(** One cached key of [scoped_name_occupied]. *)
Definition key_occupies (scope_name normalized key : string) : bool :=
  starts_with (scope_name +:+ ":" +:+ normalized +:+ ":") key ||
  match str_strip_prefix (scope_name +:+ ":") key with
  | None => false
  | Some rest =>
      match rsplit_once ":" rest with
      | None => false
      | Some (record_name, _) => ends_with ("." +:+ normalized) record_name
      end
  end.

Definition scoped_name_occupied (s : ScopeStore) (scope_name name : string) : bool :=
  let normalized := normalize_name name in
  existsb (fun kv => key_occupies scope_name normalized kv.1)
    (map_iter _ (scoped_record_cache s)).

Definition scope_for_ingress_ip (s : ScopeStore) (ip : IpAddr) : option string :=
  first_hit (fun kv : string * IpAddr =>
    if bool_decide (kv.2 = ip) then tld_owner_cache s !! kv.1 else None)
    (map_iter _ (tld_ingress_cache s)).

(** [HashSet::insert] tells whether the element is new. *)
Definition list_all_tld_ingress_ips (s : ScopeStore) : list IpAddr :=
  foldl (fun out (kv : string * IpAddr) =>
    if bool_decide (kv.2 ∈ out) then out else out ++ [kv.2])
    [] (map_iter _ (tld_ingress_cache s)).

Definition owned_tlds (s : ScopeStore) : list string := (map_iter _ (tld_owner_cache s)).*1.

End Lookups.

(** The zones of a scope's records, as a set. *)
Definition get_scoped_managed_zones (s : ScopeStore) (scope_name : string) : gset string :=
  list_to_set (omap (fun row : string * DnsRecord =>
    if (row.1 =? scope_name)%string
    then last_two_labels (trim_end_matches "." (r_name row.2)) else None)
    (scoped_dns_records s)).

(** * Owned zones *)

(** [ORDER BY]: the text order. *)
Definition sort_text : list string -> list string :=
  merge_sort (fun a b => String.leb a b).

Definition list_scope_tlds (s : ScopeStore) (scope_name : string) : list string :=
  sort_text (List.filter (fun r : string * string => (r.1 =? scope_name)%string) (scope_tlds s)).*2.

Definition push_new (l : list string) (x : string) : list string :=
  if existsb (String.eqb x) l then l else l ++ [x].

Definition list_all_owned_tlds (s : ScopeStore) (scope_name : string) : list string :=
  let first := match get_network_scope s scope_name with
               | Some sc => [normalize_name (sc_home_domain sc)]
               | None => []
               end in
  foldl push_new first (list_scope_tlds s scope_name).

Definition get_search_domains (now : Z) (ip_address : string) (s : ScopeStore)
  : list string * ScopeStore :=
  let (scope, s') := get_scope_for_ip now ip_address s in
  match scope with
  | None => ([], s')
  | Some scope_name =>
      match get_network_scope s' scope_name with
      | None => ([], s')
      | Some sc => (foldl push_new [sc_home_domain sc] (list_scope_tlds s' scope_name), s')
      end
  end.

(** [INSERT OR IGNORE] on the key (scope, tld) and the unique zone. *)
Definition add_scope_tld (scope_name tld : string) (s : ScopeStore)
  : result ScopeStore scope_error :=
  let normalized := normalize_name tld in
  if (normalized =? "")%string || (normalized =? ".")%string then Err EmptyTld
  else
    let insert_ :=
      match get_network_scope s scope_name with
      | None => Err NoSuchScope
      | Some _ =>
          let rows := if existsb (fun r : string * string => (r.2 =? normalized)%string) (scope_tlds s)
                      then scope_tlds s else scope_tlds s ++ [(scope_name, normalized)] in
          Ok (set_tlds rows (<[normalized := scope_name]> (tld_owner_cache s)) s)
      end in
    match tld_owner_cache s !! normalized with
    | Some existing =>
        if (existing =? scope_name)%string then insert_ else Err (TldConflict normalized existing)
    | None => insert_
    end.

Definition remove_scope_tld (scope_name tld : string) (s : ScopeStore)
  : result (bool * ScopeStore) scope_error :=
  let normalized := normalize_name tld in
  let is_home := match get_network_scope s scope_name with
                 | Some sc => (normalize_name (sc_home_domain sc) =? normalized)%string
                 | None => false
                 end in
  if is_home then Err IsHomeDomain
  else
    let hit2 (r : string * string) := (r.1 =? scope_name)%string && (r.2 =? normalized)%string in
    let hit3 (r : string * string * string) := hit2 r.1 in
    let count := length (List.filter hit2 (scope_tlds s)) in
    let drop := (0 <? count)%nat in
    let s := set_tlds (List.filter (fun r => negb (hit2 r)) (scope_tlds s))
               (if drop then delete normalized (tld_owner_cache s) else tld_owner_cache s) s in
    let s := set_forwarders (List.filter (fun r => negb (hit3 r)) (scope_tld_forwarders s))
               (if drop then delete (tld_fwd_key scope_name normalized) (tld_forwarder_cache s)
                else tld_forwarder_cache s) s in
    let s := set_listeners (List.filter (fun r => negb (hit3 r)) (tld_listeners s))
               (if drop then delete normalized (tld_ingress_cache s) else tld_ingress_cache s) s in
    Ok (drop, s).

(** [find_tld_owner]: the owner and the zone that matched. *)
Definition find_tld_owner (s : ScopeStore) (qname : string) : option (string * string) :=
  walk_suffixes (fun z => (fun owner => (owner, z)) <$> tld_owner_cache s !! z) qname.

(** ** Ingress listeners *)

Definition set_tld_listener (scope_name tld : string) (listen_ip : IpAddr) (s : ScopeStore)
  : result ScopeStore scope_error :=
  let normalized := normalize_name tld in
  match tld_owner_cache s !! normalized with
  | None => Err NotOwned
  | Some owner =>
      if negb (owner =? scope_name)%string then Err OwnedByOther
      else
        let hit (r : string * string * string) :=
          (r.1.1 =? scope_name)%string && (r.1.2 =? normalized)%string in
        let row := (scope_name, normalized, ip_to_string listen_ip) in
        let rows := if existsb hit (tld_listeners s)
                    then (fun r => if hit r then row else r) <$> tld_listeners s
                    else tld_listeners s ++ [row] in
        Ok (set_listeners rows (<[normalized := listen_ip]> (tld_ingress_cache s)) s)
  end.

Definition remove_tld_listener (scope_name tld : string) (s : ScopeStore) : bool * ScopeStore :=
  let normalized := normalize_name tld in
  let hit (r : string * string * string) :=
    (r.1.1 =? scope_name)%string && (r.1.2 =? normalized)%string in
  let removed := (0 <? length (List.filter hit (tld_listeners s)))%nat in
  (removed, set_listeners (List.filter (fun r => negb (hit r)) (tld_listeners s))
              (if removed then delete normalized (tld_ingress_cache s) else tld_ingress_cache s) s).

Definition get_tld_ingress (s : ScopeStore) (tld : string) : option IpAddr :=
  tld_ingress_cache s !! normalize_name tld.

(** ** Peer forwarders *)

(** All addresses must parse. *)
Fixpoint parse_forwarders (l : list string) : option (list SocketAddr) :=
  match l with
  | [] => Some []
  | a :: l' => match parse_socket_addr a, parse_forwarders l' with
               | Some x, Some xs => Some (x :: xs)
               | _, _ => None
               end
  end.

Definition set_scope_tld_forwarders (scope_name tld : string) (forwarders : list string)
    (s : ScopeStore) : result ScopeStore scope_error :=
  let normalized := normalize_name tld in
  match parse_forwarders forwarders with
  | None => Err InvalidForwarder
  | Some parsed =>
      let store :=
        let hit (r : string * string * string) :=
          (r.1.1 =? scope_name)%string && (r.1.2 =? normalized)%string in
        let kept := List.filter (fun r => negb (hit r)) (scope_tld_forwarders s) in
        let rows := foldl (fun rows addr =>
          if existsb (fun r => hit r && (r.2 =? addr)%string) rows then rows
          else rows ++ [(scope_name, normalized, addr)]) kept forwarders in
        let key := tld_fwd_key scope_name normalized in
        Ok (set_forwarders rows
              (match parsed with
               | [] => delete key (tld_forwarder_cache s)
               | _ => <[key := parsed]> (tld_forwarder_cache s)
               end) s) in
      match tld_owner_cache s !! normalized with
      | Some owner => if (owner =? scope_name)%string then store
                      else Err (TldConflict normalized owner)
      | None => store
      end
  end.

Definition list_scope_tld_forwarders (s : ScopeStore) (scope_name tld : string) : list string :=
  let normalized := normalize_name tld in
  sort_text (List.filter (fun r : string * string * string =>
    (r.1.1 =? scope_name)%string && (r.1.2 =? normalized)%string) (scope_tld_forwarders s)).*2.

Definition get_tld_forwarders_cached (s : ScopeStore) (scope_name tld : string)
  : list SocketAddr := default [] (tld_forwarder_cache s !! tld_fwd_key scope_name tld).

(** ** Boot *)

(** The part of [load_caches_at_boot] that reads these tables. *)
Definition load_scope_caches (s : ScopeStore) : ScopeStore :=
  let owners := foldl (fun (m : gmap string string) sc =>
                  <[normalize_name (sc_home_domain sc) := sc_name sc]> m)
                  (tld_owner_cache s) (network_scopes s) in
  let owners := foldl (fun (m : gmap string string) (r : string * string) =>
                  <[normalize_name r.2 := r.1]> m) owners (scope_tlds s) in
  let forwarders := foldl (fun (m : gmap string (list SocketAddr)) (r : string * string * string) =>
      match parse_socket_addr r.2 with
      | Some sa => let key := tld_fwd_key r.1.1 (normalize_name r.1.2) in
                   <[key := default [] (m !! key) ++ [sa]]> m
      | None => m
      end) (tld_forwarder_cache s) (scope_tld_forwarders s) in
  let ingress := foldl (fun (m : gmap string IpAddr) (r : string * string * string) =>
      match parse_ip r.2 with Some ip => <[normalize_name r.1.2 := ip]> m | None => m end)
      (tld_ingress_cache s) (tld_listeners s) in
  set_listeners (tld_listeners s) ingress
    (set_forwarders (scope_tld_forwarders s) forwarders
       (set_tlds (scope_tlds s) owners
          (set_scopes (network_scopes s) (as_u 64 (Z.of_nat (length (network_scopes s)))) s))).

(** The state a restart finds: the tables, no caches. *)
Definition restart (now wall : Z) (s : ScopeStore) : ScopeStore :=
  load_scope_caches (load_associations_into_cache now wall (load_scoped_records_into_cache
    (mkScopes (network_scopes s) (scoped_dns_records s) (scoped_next_id s)
       (network_associations s) (scope_tlds s) (scope_tld_forwarders s) (tld_listeners s)
       ∅ ∅ 0 ∅ ∅ ∅))).

(** * Invariant *)

(** Ownership as the tables have it. *)
Definition owns (s : ScopeStore) (owner tld : string) : Prop :=
  (exists sc, sc ∈ network_scopes s /\ sc_name sc = owner /\ sc_home_domain sc = tld) \/
  (owner, tld) ∈ scope_tlds s.

Record owner_inv (s : ScopeStore) : Prop := {
  inv_names : NoDup (sc_name <$> network_scopes s);
  inv_homes : Forall (fun sc => normalize_name (sc_home_domain sc) = sc_home_domain sc)
                (network_scopes s);
  inv_tlds : Forall (fun r : string * string => normalize_name r.2 = r.2 /\
                r.1 ∈ sc_name <$> network_scopes s) (scope_tlds s);
  inv_cache tld owner : tld_owner_cache s !! tld = Some owner <-> owns s owner tld;
  inv_count : scope_count s = as_u 64 (Z.of_nat (length (network_scopes s)));
}.

(** The calls that change the store. *)
Inductive scope_step (s : ScopeStore) : ScopeStore -> Prop :=
| step_create sc s' : create_network_scope sc s = Ok s' -> scope_step s s'
| step_delete n : scope_step s (delete_network_scope n s).2
| step_join now wall a : scope_step s (join_network now wall a s)
| step_leave ip : scope_step s (leave_network ip s).2
| step_read now ip : scope_step s (get_scope_for_ip now ip s).2
| step_add_scoped sc r : scope_step s (add_scoped_record sc r s).2
| step_remove_scoped sc n rt v : scope_step s (remove_scoped_records sc n rt v s).2
| step_add_tld sc t s' : add_scope_tld sc t s = Ok s' -> scope_step s s'
| step_remove_tld sc t b s' : remove_scope_tld sc t s = Ok (b, s') -> scope_step s s'
| step_set_listener sc t ip s' : set_tld_listener sc t ip s = Ok s' -> scope_step s s'
| step_remove_listener sc t : scope_step s (remove_tld_listener sc t s).2
| step_forwarders sc t fs s' : set_scope_tld_forwarders sc t fs s = Ok s' -> scope_step s s'
| step_restart now wall : scope_step s (restart now wall s).

Inductive scopes_reachable : ScopeStore -> Prop :=
| scopes_empty : scopes_reachable empty_scopes
| scopes_step s s' : scopes_reachable s -> scope_step s s' -> scopes_reachable s'.

(** * Lemmas *)

(** The ownership half of the state. *)
Definition same_owners (s s' : ScopeStore) : Prop :=
  network_scopes s' = network_scopes s /\ scope_tlds s' = scope_tlds s /\
  tld_owner_cache s' = tld_owner_cache s /\ scope_count s' = scope_count s.

Lemma same_owners_inv s s' : same_owners s s' -> owner_inv s -> owner_inv s'.
Proof.
  intros (H1 & H2 & H3 & H4) []. split; unfold owns in *; rewrite ?H1, ?H2, ?H3, ?H4 in *; auto.
Qed.

Lemma get_network_scope_Some s n sc :
  get_network_scope s n = Some sc -> sc ∈ network_scopes s /\ sc_name sc = n.
Proof.
  intros H. apply find_some in H as [H1 H2]. bool_hyps. split; [by apply list_elem_of_In|done].
Qed.

Lemma get_network_scope_None s n :
  get_network_scope s n = None -> n ∉ sc_name <$> network_scopes s.
Proof.
  intros H Hin. apply list_elem_of_fmap in Hin as (sc & -> & Hsc).
  pose proof (find_none _ _ H sc) as Hn. simpl in Hn. rewrite String.eqb_refl in Hn.
  by specialize (Hn (proj1 (list_elem_of_In _ _) Hsc)).
Qed.

(** Ownership in the tables is a function of the zone. *)
Lemma owns_unique s t o o' : owner_inv s -> owns s o t -> owns s o' t -> o = o'.
Proof. intros H H1 H2. apply (inv_cache s H) in H1, H2. congruence. Qed.

Lemma owner_exists s t o : owner_inv s -> owns s o t -> o ∈ sc_name <$> network_scopes s.
Proof.
  intros Hi [(sc & Hsc & <- & _)|Ht]; [by apply list_elem_of_fmap_2|].
  pose proof (inv_tlds s Hi) as H. rewrite Forall_forall in H. by apply (H _ Ht).
Qed.

Lemma create_shape sc s s' :
  owner_inv s -> create_network_scope sc s = Ok s' ->
  let home := normalize_name (sc_home_domain sc) in
  sc_name sc ∉ sc_name <$> network_scopes s /\ tld_owner_cache s !! home = None /\
  s' = set_tlds (scope_tlds s) (<[home := sc_name sc]> (tld_owner_cache s))
         (set_scopes (network_scopes s ++ [mkScope (sc_name sc) home])
            (as_u 64 (scope_count s + 1)) s).
Proof.
  intros Hi. unfold create_network_scope. cbn zeta. set (home := normalize_name (sc_home_domain sc)).
  destruct (existsb _ _) eqn:E.
  { destruct (tld_owner_cache s !! home); [case_match|]; done. }
  assert (sc_name sc ∉ sc_name <$> network_scopes s) as Hno.
  { intros (x & Hx & Hin)%list_elem_of_fmap. rewrite <- not_true_iff_false, existsb_exists in E.
    apply E. exists x. split; [by apply list_elem_of_In|]. by rewrite Hx, String.eqb_refl. }
  destruct (tld_owner_cache s !! home) as [o|] eqn:Eo; [|by intros [= <-]].
  destruct (String.eqb_spec o (sc_name sc)) as [->|]; [|done].
  exfalso. apply Hno. apply (inv_cache s Hi) in Eo. by eapply owner_exists.
Qed.

Lemma as_u_succ w n : 0 <= w -> as_u w (as_u w n + 1) = as_u w (n + 1).
Proof. intros Hw. unfold as_u. rewrite Z.add_mod_idemp_l; [done|]. lia. Qed.

Lemma as_u_pred w n : 0 <= w -> as_u w (as_u w n - 1) = as_u w (n - 1).
Proof. intros Hw. unfold as_u. rewrite Zminus_mod_idemp_l. done. Qed.

Lemma create_inv sc s s' : owner_inv s -> create_network_scope sc s = Ok s' -> owner_inv s'.
Proof.
  intros Hi Hc. destruct (create_shape _ _ _ Hi Hc) as (Hno & Hfree & ->).
  set (home := normalize_name (sc_home_domain sc)) in *. split; simpl.
  - rewrite fmap_app, NoDup_app. split; [apply Hi|]. split.
    + intros x Hx Hx2. simpl in Hx2. apply list_elem_of_singleton in Hx2. by subst.
    + apply NoDup_singleton.
  - rewrite Forall_app, Forall_singleton. split; [apply Hi|]. apply normalize_name_idem.
  - eapply Forall_impl; [apply Hi|]. intros r [H1 H2]. split; [done|].
    rewrite fmap_app. set_solver.
  - intros tld owner. rewrite lookup_insert_Some. unfold owns. simpl.
    setoid_rewrite elem_of_app. setoid_rewrite list_elem_of_singleton.
    pose proof (inv_cache s Hi tld owner) as Ho. unfold owns in Ho. split.
    + intros [[<- <-]|[Hne H]].
      * left. eexists. split; [right; reflexivity|done].
      * apply Ho in H as [(x & Hx & H)|H]; [left; eauto|by right].
    + intros [(x & [Hx| ->] & Hn & Hh)|H].
      * right. split; [|apply Ho; left; eauto].
        intros <-. rewrite (proj2 Ho) in Hfree; [done|]. left; eauto.
      * simpl in *. subst. by left.
      * right. split; [|apply Ho; by right]. intros <-.
        rewrite (proj2 Ho) in Hfree; [done|]. by right.
  - rewrite (inv_count s Hi), as_u_succ, length_app by lia. f_equal. simpl. lia.
Qed.

Lemma filter_names_length n (l : list NetworkScope) :
  NoDup (sc_name <$> l) ->
  Z.of_nat (length (List.filter (fun sc => negb (sc_name sc =? n)%string) l)) =
  Z.of_nat (length l) -
    (if (0 <? length (List.filter (fun sc => (sc_name sc =? n)%string) l))%nat then 1 else 0).
Proof.
  induction l as [|x l IH]; [done|]. rewrite fmap_cons, NoDup_cons. intros [Hx Hnd].
  specialize (IH Hnd). simpl. destruct (String.eqb_spec (sc_name x) n) as [E|E]; simpl.
  - assert (List.filter (fun sc => (sc_name sc =? n)%string) l = []) as Hnil.
    { apply filter_all_false. intros y Hy. apply String.eqb_neq. intros Hyn. apply Hx.
      rewrite E, <- Hyn. by apply list_elem_of_fmap_2. }
    rewrite Hnil in IH. simpl in IH. lia.
  - rewrite Nat2Z.inj_succ, IH. case_match; lia.
Qed.

Lemma elem_filter_neq {A} (key : A -> string) n (l : list A) x :
  x ∈ List.filter (fun r => negb (key r =? n)%string) l <-> x ∈ l /\ key x <> n.
Proof.
  rewrite !list_elem_of_In, filter_In, negb_true_iff, String.eqb_neq. done.
Qed.

Lemma delete_inv n s : owner_inv s -> owner_inv (delete_network_scope n s).2.
Proof.
  intros Hi. unfold delete_network_scope. cbn zeta. simpl. split; simpl.
  - eapply sublist_NoDup; [apply (inv_names s Hi)|].
    apply fmap_sublist. induction (network_scopes s) as [|x l IH]; simpl; [done|].
    case_match; by constructor.
  - rewrite Forall_forall. intros x [Hx _]%(elem_filter_neq sc_name).
    pose proof (inv_homes s Hi) as H. rewrite Forall_forall in H. by apply H.
  - rewrite Forall_forall. intros r [Hr Hne]%(elem_filter_neq fst).
    pose proof (inv_tlds s Hi) as H. rewrite Forall_forall in H. destruct (H r Hr) as [H1 H2].
    split; [done|]. apply list_elem_of_fmap in H2 as (x & Hx & Hin). rewrite Hx.
    apply list_elem_of_fmap_2, (elem_filter_neq sc_name). by rewrite <- Hx.
  - intros tld owner. rewrite map_lookup_filter_Some. simpl.
    rewrite (inv_cache s Hi). unfold owns. simpl.
    setoid_rewrite (elem_filter_neq sc_name). setoid_rewrite (elem_filter_neq fst). simpl. split.
    + intros [[(x & Hx & <- & Hh)|H] Hne]; [left; exists x; auto|by right].
    + intros [(x & [Hx Hne] & <- & Hh)|[H Hne]]; [split; [left; exists x; auto|done]|].
      split; [by right|done].
  - rewrite filter_names_length by apply Hi. rewrite (inv_count s Hi). case_match.
    + rewrite as_u_pred by lia. done.
    + f_equal. lia.
Qed.

Lemma add_tld_inv sc t s s' : owner_inv s -> add_scope_tld sc t s = Ok s' -> owner_inv s'.
Proof.
  intros Hi. unfold add_scope_tld. cbn zeta. set (n := normalize_name t).
  case_match; [done|]. intros Hadd.
  assert (sc ∈ sc_name <$> network_scopes s /\
    (forall o, tld_owner_cache s !! n = Some o -> o = sc) /\
    s' = set_tlds (if existsb (fun r : string * string => (r.2 =? n)%string) (scope_tlds s)
                   then scope_tlds s else scope_tlds s ++ [(sc, n)])
           (<[n := sc]> (tld_owner_cache s)) s) as (Hsc & Hown & ->).
  { destruct (get_network_scope s sc) as [x|] eqn:Eg;
      destruct (tld_owner_cache s !! n) as [o|] eqn:Eo.
    - destruct (String.eqb_spec o sc) as [->|]; [|done]. injection Hadd as <-.
      apply get_network_scope_Some in Eg as [Hx <-].
      split; [by apply list_elem_of_fmap_2|]. split; [|done]. congruence.
    - injection Hadd as <-. apply get_network_scope_Some in Eg as [Hx <-].
      split; [by apply list_elem_of_fmap_2|]. done.
    - by destruct (o =? sc)%string.
    - done. }
  assert (forall o t', owns (set_tlds (if existsb (fun r : string * string => (r.2 =? n)%string)
      (scope_tlds s) then scope_tlds s else scope_tlds s ++ [(sc, n)]) (<[n := sc]> (tld_owner_cache s)) s) o t'
      <-> owns s o t' \/ (o = sc /\ t' = n)) as Howns.
  { intros o t'. unfold owns. simpl. destruct (existsb _ _) eqn:Ex.
    - split; [tauto|]. intros [H1|[-> ->]]; [done|]. right.
      apply existsb_exists in Ex as ([o' t''] & Hin & Heq). simpl in Heq. bool_hyps. subst.
      apply list_elem_of_In in Hin. assert (o' = sc) as <-; [|done].
      apply Hown, (inv_cache s Hi). by right.
    - rewrite elem_of_app, list_elem_of_singleton. split; [|intuition congruence].
      intros [H1|[H1|[= -> ->]]]; auto. }
  split; simpl; try apply Hi.
  - destruct (existsb _ _); [apply Hi|]. rewrite Forall_app, Forall_singleton.
    split; [apply Hi|]. split; [apply normalize_name_idem|done].
  - intros tld owner. rewrite Howns, lookup_insert_Some, (inv_cache s Hi). split.
    + intros [[<- <-]|[_ H1]]; auto.
    + intros [H1|[-> ->]]; [|by left]. destruct (decide (n = tld)) as [<-|]; [|by right].
      left. split; [done|]. symmetry. by apply Hown, (inv_cache s Hi).
Qed.

Lemma remove_tld_inv sc t b s s' : owner_inv s -> remove_scope_tld sc t s = Ok (b, s') -> owner_inv s'.
Proof.
  intros Hi. unfold remove_scope_tld. cbn zeta. set (n := normalize_name t).
  set (is_home := match get_network_scope s sc with Some _ => _ | None => _ end).
  destruct is_home eqn:Eh; [done|]. intros [= _ <-].
  assert (forall x, x ∈ network_scopes s -> sc_name x = sc -> sc_home_domain x <> n) as Hnh.
  { intros x Hx Hn Hh. unfold is_home in Eh. destruct (get_network_scope s sc) as [y|] eqn:Eg.
    - apply get_network_scope_Some in Eg as [Hy Hyn].
      assert (y = x) as ->.
      { pose proof (inv_names s Hi) as Hnd. eapply NoDup_fmap_same; [done..|congruence]. }
      pose proof (inv_homes s Hi) as H. rewrite Forall_forall in H. rewrite (H x Hx) in Eh.
      bool_hyps. done.
    - apply get_network_scope_None in Eg. apply Eg. rewrite <- Hn. by apply list_elem_of_fmap_2. }
  assert (forall r, r ∈ List.filter (fun r : string * string =>
      negb ((r.1 =? sc)%string && (r.2 =? n)%string)) (scope_tlds s) <->
      r ∈ scope_tlds s /\ r <> (sc, n)) as Hf.
  { intros [o t']. rewrite !list_elem_of_In, filter_In. simpl.
    destruct (String.eqb_spec o sc) as [->|Ho]; [|intuition congruence].
    destruct (String.eqb_spec t' n) as [->|Ht']; simpl; [|intuition congruence].
    split; intros [? ?]; [discriminate|congruence]. }
  split; simpl; try apply Hi.
  - rewrite Forall_forall. intros r [Hr _]%Hf. pose proof (inv_tlds s Hi) as H.
    rewrite Forall_forall in H. by apply H.
  - intros tld owner. unfold owns. simpl. rewrite Hf.
    destruct (0 <? length _)%nat eqn:Ec.
    + assert ((sc, n) ∈ scope_tlds s) as Hin.
      { apply filter_length_pos in Ec as ([o t'] & Hin & Heq). simpl in Heq. bool_hyps. by subst. }
      rewrite lookup_delete_Some, (inv_cache s Hi). unfold owns. split.
      * intros [Hne [H|H]]; [by left|right]. split; [done|congruence].
      * intros [(x & Hx & Hn & Hh)|[H Hne]].
        -- split; [|left; eauto]. intros <-.
           assert (owner = sc) as ->.
           { eapply (owns_unique s n); [done|left; eauto|by right]. }
           by eapply Hnh.
        -- split; [|by right]. intros <-. apply Hne.
           assert (owner = sc) as ->; [|done].
           eapply (owns_unique s n); [done|by right|by right].
    + rewrite (inv_cache s Hi). unfold owns.
      assert ((sc, n) ∉ scope_tlds s) as Hnin.
      { intros Hin. apply not_true_iff_false in Ec. apply Ec, filter_length_pos.
        exists (sc, n). simpl. by rewrite !String.eqb_refl. }
      split; [|tauto]. intros [H|H]; [by left|right]. split; [done|].
      by intros [= -> ->].
Qed.

Lemma foldl_insert_lookup {A} (f g : A -> string) (l : list A) (m : gmap string string) k v :
  (forall x y, x ∈ l -> y ∈ l -> f x = f y -> g x = g y) ->
  foldl (fun m x => <[f x := g x]> m) m l !! k = Some v <->
  (exists x, x ∈ l /\ f x = k /\ g x = v) \/ ((forall x, x ∈ l -> f x <> k) /\ m !! k = Some v).
Proof.
  revert m. induction l as [|a l IH]; intros m Hfun; simpl.
  - split; [intros H; right; split; [|done]; intros x Hx; by apply elem_of_nil in Hx|].
    intros [(x & Hx & _)|[_ H]]; [by apply elem_of_nil in Hx|done].
  - rewrite IH by (intros; apply Hfun; auto; by right). rewrite lookup_insert_Some.
    setoid_rewrite elem_of_cons. split.
    + intros [(x & Hx & H)|(Hno & [[<- <-]|[Hne Hm]])]; [left; eauto|left; eauto|].
      right. split; [|done]. intros x [->|Hx]; auto.
    + intros [(x & [->|Hx] & Hk & Hv)|[Hno Hm]].
      * destruct (decide (Exists (fun y => f y = k) l)) as [He|He].
        -- apply Exists_exists in He as (y & Hy & Hyk). left. exists y. split; [done|]. split; [done|].
           rewrite <- Hv. apply Hfun; [by right|by left|congruence].
        -- right. split; [|left; auto]. intros y Hy Hyk. apply He, Exists_exists. eauto.
      * left. eauto.
      * right. split; [intros x Hx; apply Hno; by right|]. right. split; [|done].
        apply Hno. by left.
Qed.

(** Reloading at boot rebuilds the same ownership. *)
Lemma restart_owners now wall s :
  owner_inv s -> tld_owner_cache (restart now wall s) = tld_owner_cache s.
Proof.
  intros Hi. apply map_eq. intros tld. apply option_eq. intros owner.
  rewrite (inv_cache s Hi). unfold restart, load_scope_caches. simpl.
  pose proof (inv_homes s Hi) as Hh. pose proof (inv_tlds s Hi) as Ht.
  rewrite Forall_forall in Hh. rewrite Forall_forall in Ht.
  rewrite (foldl_insert_lookup (fun r : string * string => normalize_name r.2) fst).
  2:{ intros [o t] [o' t'] H1 H2 E. destruct (Ht _ H1) as [E1 _], (Ht _ H2) as [E2 _]. simpl in *.
      rewrite E1, E2 in E. subst. eapply owns_unique; [done|by right|by right]. }
  rewrite (foldl_insert_lookup (fun sc => normalize_name (sc_home_domain sc)) sc_name).
  2:{ intros x y H1 H2 E. rewrite (Hh x H1), (Hh y H2) in E.
      eapply (owns_unique s (sc_home_domain x)); [done|left; eauto|left; eauto]. }
  unfold owns. split.
  - intros [([o t] & Hin & Hk & <-)|[_ [(x & Hx & Hk & <-)|[_ H]]]].
    + right. destruct (Ht _ Hin) as [E _]. simpl in *. rewrite E in Hk. by subst.
    + left. exists x. rewrite (Hh x Hx) in Hk. auto.
    + by rewrite lookup_empty in H.
  - intros [(x & Hx & Hn & Hd)|Hin].
    + destruct (decide (Exists (fun r : string * string => normalize_name r.2 = tld) (scope_tlds s)))
        as [He|He].
      * apply Exists_exists in He as ([o t] & Hin & E). left. exists (o, t).
        split; [done|]. split; [done|]. simpl. destruct (Ht _ Hin) as [E' _]. simpl in *.
        eapply (owns_unique s tld); [done| |left; eauto]. right. congruence.
      * right. split; [intros r Hr Hk; apply He, Exists_exists; eauto|]. left. exists x.
        rewrite (Hh x Hx). auto.
    + left. exists (owner, tld). destruct (Ht _ Hin) as [E _]. auto.
Qed.

Lemma restart_inv now wall s : owner_inv s -> owner_inv (restart now wall s).
Proof.
  intros Hi. pose proof (restart_owners now wall s Hi) as Ho.
  apply (same_owners_inv s); [|done]. repeat split; [done|]. symmetry. apply Hi.
Qed.

Lemma scope_step_inv s s' : owner_inv s -> scope_step s s' -> owner_inv s'.
Proof.
  intros Hi [sc s'' H|n|now wall a|ip|now ip|sc r|sc n rt v|sc t s'' H|sc t b s'' H|sc t ip s'' H
    |sc t|sc t fs s'' H|now wall].
  - by eapply create_inv.
  - by apply delete_inv.
  - by apply (same_owners_inv s).
  - by apply (same_owners_inv s).
  - apply (same_owners_inv s); [|done]. unfold get_scope_for_ip. repeat case_match; by repeat split.
  - by apply (same_owners_inv s).
  - by apply (same_owners_inv s).
  - by eapply add_tld_inv.
  - by eapply remove_tld_inv.
  - apply (same_owners_inv s); [|done]. unfold set_tld_listener in H.
    repeat case_match; simplify_eq; by repeat split.
  - by apply (same_owners_inv s).
  - apply (same_owners_inv s); [|done]. unfold set_scope_tld_forwarders in H.
    repeat case_match; simplify_eq; by repeat split.
  - by apply restart_inv.
Qed.

Lemma scopes_reachable_inv s : scopes_reachable s -> owner_inv s.
Proof.
  induction 1 as [|s s' _ IH Hs]; [|by eapply scope_step_inv].
  split; simpl; try constructor; unfold owns; simpl.
  - by rewrite lookup_empty.
  - intros [(x & Hx & _)|Hx]; by apply elem_of_nil in Hx.
Qed.

(** ** The suffix walk *)

(** A zone walk answers with the deepest enclosing zone of the set it reads. *)
Lemma walk_suffixes_deepest {B} (hit : string -> option B) name b :
  valid_name name = true -> labels_of name <> [] ->
  walk_suffixes hit name = Some b <->
  exists zs, zs <> [] /\ zs `suffix_of` labels_of name /\ hit (fqdn zs) = Some b /\
    forall ks, ks `suffix_of` labels_of name -> (length zs < length ks)%nat ->
      hit (fqdn ks) = None.
Proof.
  intros Hv Hne.
  assert (walk_suffixes hit name = first_hit hit (fqdn <$> tails (labels_of name))) as ->.
  { rewrite walk_suffixes_labels by done. by destruct (labels_of name). }
  rewrite first_hit_Some. split.
  - intros (l1 & x & l2 & E & Hx & Hl1).
    apply fmap_app_inv in E as (k1 & k2 & -> & E & Et).
    destruct k2 as [|zs k2]; [done|]. simpl in E. injection E as -> ->.
    assert (zs ∈ tails (labels_of name)) as Hz by (rewrite Et; set_solver).
    apply elem_tails in Hz as [Hzne Hzs]. exists zs. repeat split; [done|done|done|].
    intros ks Hks Hlen.
    assert (ks ∈ tails (labels_of name)) as Hk.
    { apply elem_tails. split; [|done]. intros ->. simpl in Hlen. lia. }
    rewrite Et, elem_of_app, elem_of_cons in Hk. destruct Hk as [Hk|[->|Hk]].
    + rewrite Forall_fmap, Forall_forall in Hl1. by apply Hl1.
    + lia.
    + exfalso. pose proof (tails_split _ _ _ _ _ Et Hk) as Hs. apply suffix_length in Hs. lia.
  - intros (zs & Hzne & Hzs & Hx & Hdeep).
    assert (zs ∈ tails (labels_of name)) as Hz by (by apply elem_tails).
    apply list_elem_of_split in Hz as (k1 & k2 & Et).
    exists (fqdn <$> k1), (fqdn zs), (fqdn <$> k2). rewrite Et, fmap_app, fmap_cons.
    split; [done|]. split; [done|]. rewrite Forall_fmap, Forall_forall. intros ks Hk. simpl.
    assert (ks ∈ tails (labels_of name)) as Hkt by (rewrite Et; set_solver).
    apply elem_tails in Hkt as [_ Hks]. apply Hdeep; [done|]. by eapply tails_before.
Qed.

(** ** Keys of scoped records *)

(** The scope a key was made for. *)
Lemma key_scope a rest : free_of ":" a = true -> split_once ":" (a +:+ ":" +:+ rest) = Some (a, rest).
Proof. intros Ha. change (":" +:+ rest) with (String ":" rest). by apply split_once_cons. Qed.

Lemma key_scope_neq a b r r' :
  free_of ":" a = true -> free_of ":" b = true -> a <> b -> a +:+ ":" +:+ r <> b +:+ ":" +:+ r'.
Proof.
  intros Ha Hb Hab E. apply (f_equal (split_once ":")) in E. rewrite !key_scope in E by done.
  congruence.
Qed.

Lemma key_prefix_neq a b r r' :
  free_of ":" a = true -> free_of ":" b = true -> a <> b ->
  starts_with (a +:+ ":" +:+ r) (b +:+ ":" +:+ r') = false.
Proof.
  intros Ha Hb Hab. apply not_true_iff_false. intros (t & E)%starts_with_spec.
  rewrite !app_assoc_str in E. symmetry in E. by apply key_scope_neq in E.
Qed.

Lemma cache_key_shape sc n rt : exists r, scoped_record_cache_key sc n rt = sc +:+ ":" +:+ r.
Proof. destruct rt; by eexists. Qed.

Lemma key_occupies_other a b n r :
  free_of ":" a = true -> free_of ":" b = true -> a <> b ->
  key_occupies b n (a +:+ ":" +:+ r) = false.
Proof.
  intros Ha Hb Hab. unfold key_occupies. rewrite key_prefix_neq by auto. simpl.
  destruct (str_strip_prefix _ _) as [t|] eqn:E; [|done].
  apply str_strip_prefix_spec in E. rewrite app_assoc_str in E. by apply key_scope_neq in E.
Qed.

Lemma scoped_name_occupied_iff `{MI : !MapIter, ML : !MapIterLaws} s sc n :
  scoped_name_occupied s sc n = true <->
  exists k rs, scoped_record_cache s !! k = Some rs /\ key_occupies sc (normalize_name n) k = true.
Proof.
  unfold scoped_name_occupied. rewrite existsb_exists. split.
  - intros ([k rs] & Hin & Hk). exists k, rs. split; [|done].
    apply list_elem_of_In in Hin. rewrite map_iter_perm in Hin. by apply elem_of_map_to_list.
  - intros (k & rs & Hm & Hk). exists (k, rs). split; [|done].
    apply list_elem_of_In. rewrite map_iter_perm. by apply elem_of_map_to_list.
Qed.

(** Two stores that agree on every key of a scope answer the same in it. *)
Definition same_scope (sc : string) (s s' : ScopeStore) : Prop :=
  forall r, scoped_record_cache s' !! (sc +:+ ":" +:+ r) = scoped_record_cache s !! (sc +:+ ":" +:+ r).

Lemma same_scope_lookup `{MI : !MapIter} sc s s' n rt :
  same_scope sc s s' -> lookup_scoped s' sc n (Some rt) = lookup_scoped s sc n (Some rt).
Proof.
  intros H. assert (forall k, scoped_record_cache s' !! scoped_record_cache_key sc k (Some rt) =
    scoped_record_cache s !! scoped_record_cache_key sc k (Some rt)) as Hk by (intros k; apply H).
  unfold lookup_scoped, lookup_scoped_exact. rewrite Hk.
  destruct (make_wildcard_name _); [by rewrite Hk|done].
Qed.

Lemma key_occupies_scope sc n k : key_occupies sc n k = true -> exists r, k = sc +:+ ":" +:+ r.
Proof.
  unfold key_occupies. intros H. bool_hyps.
  - apply starts_with_spec in H as (t & ->). rewrite !app_assoc_str. by eexists.
  - destruct (str_strip_prefix _ _) as [t|] eqn:E; [|done].
    apply str_strip_prefix_spec in E as ->. rewrite app_assoc_str. by eexists.
Qed.

Lemma same_scope_occupied `{MI : !MapIter, ML : !MapIterLaws} sc s s' n :
  same_scope sc s s' -> scoped_name_occupied s' sc n = scoped_name_occupied s sc n.
Proof.
  intros H. apply eq_iff_eq_true. rewrite !scoped_name_occupied_iff.
  split; intros (k & rs & Hm & Hk); exists k, rs; (split; [|done]);
    destruct (key_occupies_scope _ _ _ Hk) as [r ->]; [by rewrite <- H|by rewrite H].
Qed.

Lemma add_scoped_other a b r s :
  free_of ":" a = true -> free_of ":" b = true -> a <> b ->
  same_scope b s (add_scoped_record a r s).2.
Proof.
  intros Ha Hb Hab x. unfold add_scoped_record. cbn [snd set_scoped_records scoped_record_cache].
  unfold push_scoped. rewrite lookup_insert_ne; [done|].
  destruct (cache_key_shape a (normalize_name (r_name r)) (Some (r_type r))) as [y ->].
  by apply key_scope_neq.
Qed.

Lemma filter_keys_lookup {V} (p : string -> bool) (m : gmap string V) k :
  p k = false -> filter (fun kv : string * V => p kv.1 = false) m !! k = m !! k.
Proof.
  intros Hp. apply option_eq. intros v. rewrite map_lookup_filter_Some. simpl. tauto.
Qed.

Lemma remove_scoped_other a b n rt v s :
  free_of ":" a = true -> free_of ":" b = true -> a <> b ->
  same_scope b s (remove_scoped_records a n rt v s).2.
Proof.
  intros Ha Hb Hab x. simpl.
  apply (filter_keys_lookup (fun k => starts_with (a +:+ ":" +:+ normalize_name n) k)).
  by apply key_prefix_neq.
Qed.

Lemma delete_scope_other a b s :
  free_of ":" a = true -> free_of ":" b = true -> a <> b ->
  same_scope b s (delete_network_scope a s).2.
Proof.
  intros Ha Hb Hab x. simpl.
  apply (filter_keys_lookup (fun k => starts_with (a +:+ ":") k)).
  pose proof (key_prefix_neq a b "" x Ha Hb Hab) as H. by rewrite app_nil_r_str in H.
Qed.

(** * Properties *)

(** Every zone has at most one owner, and the in-memory owner map the query
    path consults is at all times exactly the ownership the tables record (home
    domains and registered zones), whatever scopes and zones were created,
    registered, removed and deleted before; a restart rebuilds the same map, and
    the scope counter is the number of scopes. *)
Theorem tld_ownership_exact s tld owner owner' now wall :
  scopes_reachable s ->
  (tld_owner_cache s !! tld = Some owner <-> owns s owner tld) /\
  (owns s owner tld -> owns s owner' tld -> owner = owner') /\
  tld_owner_cache (restart now wall s) = tld_owner_cache s /\
  scope_count s = as_u 64 (Z.of_nat (length (network_scopes s))).
Proof.
  intros Hi%scopes_reachable_inv. split; [apply Hi|]. split; [by apply owns_unique|].
  split; [by apply restart_owners|apply Hi].
Qed.

(** [find_tld_owner] names the owner of the deepest owned zone that encloses
    the queried name, and nothing when no enclosing zone is owned. *)
Theorem find_tld_owner_deepest s qname owner tld :
  valid_name qname = true -> labels_of qname <> [] ->
  find_tld_owner s qname = Some (owner, tld) <->
  exists zs, zs <> [] /\ tld = fqdn zs /\ zs `suffix_of` labels_of qname /\
    tld_owner_cache s !! tld = Some owner /\
    forall ks, ks `suffix_of` labels_of qname -> (length zs < length ks)%nat ->
      tld_owner_cache s !! fqdn ks = None.
Proof.
  intros Hv Hne. unfold find_tld_owner. rewrite walk_suffixes_deepest by done.
  setoid_rewrite fmap_Some. setoid_rewrite fmap_None. split.
  - intros (zs & H1 & H2 & (o & Ho & [= -> ->]) & H3). exists zs. auto.
  - intros (zs & H1 & -> & H2 & Ho & H3). exists zs. repeat split; eauto.
Qed.

(** A deleted scope owns nothing and answers nothing: no name resolves to it
    as a zone owner, no client address is associated with it, and its records and
    peer forwarders are gone. *)
Theorem deleted_scope_is_gone `{MI : !MapIter} n s now ip qname tld rt :
  let s' := (delete_network_scope n s).2 in
  ((find_tld_owner s' qname) <> Some (n, tld)) /\
  ((get_scope_for_ip now ip s').1 <> Some n) /\
  lookup_scoped s' n qname (Some rt) = [] /\
  get_tld_forwarders_cached s' n tld = [].
Proof.
  cbn zeta. repeat split.
  - unfold find_tld_owner, walk_suffixes. rewrite scan_suffixes_parents.
    assert (forall z, (fun o => (o, z)) <$> tld_owner_cache (delete_network_scope n s).2 !! z
      <> Some (n, tld)) as Hz.
    { intros z E. apply fmap_Some in E as (o & Ho & [= <- _]). simpl in Ho.
      apply map_lookup_filter_Some in Ho as [_ Ho]. done. }
    destruct (_ <$> tld_owner_cache _ !! normalize_name qname) as [x|] eqn:Eh.
    + intros [= ->]. by apply (Hz (normalize_name qname)).
    + intros (l1 & x & l2 & _ & Hx & _)%first_hit_Some. by apply (Hz x).
  - unfold get_scope_for_ip. simpl.
    destruct (filter _ _ !! ip) as [e|] eqn:E; [|done].
    apply map_lookup_filter_Some in E as [_ E]. simpl in E.
    case_match; simpl; congruence.
  - assert (forall r, scoped_record_cache (delete_network_scope n s).2 !! (n +:+ ":" +:+ r) = None) as H.
    { intros r. simpl. apply map_lookup_filter_None. right. intros v _. simpl.
      rewrite (proj2 (starts_with_spec (n +:+ ":") _)); [done|]. exists r. by rewrite app_assoc_str. }
    assert (forall k, scoped_record_cache (delete_network_scope n s).2 !!
      scoped_record_cache_key n k (Some rt) = None) as Hk by (intros k; apply H).
    unfold lookup_scoped, lookup_scoped_exact. rewrite Hk. cbn [default].
    destruct (make_wildcard_name _); [by rewrite Hk|done].
  - unfold get_tld_forwarders_cached. simpl. rewrite (proj2 (map_lookup_filter_None _ _ _)); [done|].
    right. intros v _. simpl. rewrite (proj2 (starts_with_spec (tld_fwd_key n "") _)); [done|].
    exists tld. unfold tld_fwd_key. by rewrite app_assoc_str.
Qed.

(** C32: scopes are isolated: with scope names free of colons, nothing done to the
    records of one scope (an addition, a removal, its deletion) changes what
    another scope answers for any name and type, or which names exist in it. *)
Theorem scope_isolation `{MI : !MapIter, ML : !MapIterLaws} a b s r n rt v q qt :
  free_of ":" a = true -> free_of ":" b = true -> a <> b ->
  Forall (fun s' => lookup_scoped s' b q (Some qt) = lookup_scoped s b q (Some qt) /\
                    scoped_name_occupied s' b q = scoped_name_occupied s b q)
    [(add_scoped_record a r s).2; (remove_scoped_records a n rt v s).2;
     (delete_network_scope a s).2].
Proof.
  intros Ha Hb Hab.
  assert (forall s', same_scope b s s' ->
    lookup_scoped s' b q (Some qt) = lookup_scoped s b q (Some qt) /\
    scoped_name_occupied s' b q = scoped_name_occupied s b q) as Hgo.
  { intros s' Hs. split; [by apply same_scope_lookup|by apply same_scope_occupied]. }
  repeat apply Forall_cons_2; try apply Forall_nil_2; apply Hgo;
    auto using add_scoped_other, remove_scoped_other, delete_scope_other.
Qed.

(** An association lasts for its time-to-live and no longer: the joined address
    maps to the scope it joined until the deadline, then to none; leaving ends it
    at once, and other addresses are not affected. *)
Theorem association_lifetime t0 t1 wall a s ip :
  let s' := join_network t0 wall a s in
  (get_scope_for_ip t1 (as_ip_address a) s').1 =
    (if t1 <? t0 + from_secs (as_ttl_seconds a) then Some (as_scope_name a) else None) /\
  (get_scope_for_ip t1 (as_ip_address a) (leave_network (as_ip_address a) s').2).1 = None /\
  (leave_network (as_ip_address a) s').1 = true /\
  (ip <> as_ip_address a -> (get_scope_for_ip t1 ip s').1 = (get_scope_for_ip t1 ip s).1).
Proof.
  cbn zeta. unfold get_scope_for_ip, leave_network, join_network. simpl. repeat split.
  - rewrite lookup_insert_eq. simpl. by case_match.
  - by rewrite lookup_delete_eq.
  - rewrite lookup_insert_eq. by apply bool_decide_true.
  - intros Hne. rewrite lookup_insert_ne by done.
    by destruct (association_cache s !! ip) as [e|]; [case_match|].
Qed.

(** * Divergences *)

(** The store after a sequence of fallible calls, kept on error. *)
Definition ok_or_same {E} (s : ScopeStore) (r : result ScopeStore E) : ScopeStore :=
  match r with Ok s' => s' | Err _ => s end.

Definition try_call {E} (f : ScopeStore -> result ScopeStore E) (s : ScopeStore) : ScopeStore :=
  ok_or_same s (f s).

(** Deleting a scope leaves its ingress listener behind: a scope that later
    takes the zone over inherits the address, and queries that arrive on the old
    listener are attributed to the new owner. *)
Theorem deleted_scope_keeps_ingress :
  let ip := V4 167837697 in
  let s := try_call (create_network_scope (mkScope "old" "office.")) empty_scopes in
  let s := try_call (set_tld_listener "old" "office." ip) s in
  let s := (delete_network_scope "old" s).2 in
  get_tld_ingress s "office." = Some ip /\ scope_for_ingress_ip s ip = None /\
  let s := try_call (create_network_scope (mkScope "new" "office.")) s in
  get_tld_ingress s "office." = Some ip /\ scope_for_ingress_ip s ip = Some "new".
Proof. vm_compute. repeat split. Qed.

(** Removing one record of a scope makes the scope stop answering for others
    it still stores: the cache drops every type of the name and every name of
    which the removed one is a textual prefix, while the table keeps their rows
    and a restart brings them back. *)
Theorem scoped_removal_drops_others :
  let rec n k v := mkRecord None n k v 300 0 in
  let s := (add_scoped_record "lan" (rec "example.com." A "10.0.0.1") empty_scopes).2 in
  let s := (add_scoped_record "lan" (rec "example.com." TXT "hello") s).2 in
  let s := (add_scoped_record "lan" (rec "example.com.au." A "10.0.0.2") s).2 in
  let s := (remove_scoped_records "lan" "example.com." (Some A) "" s).2 in
  length (scoped_dns_records s) = 2%nat /\
  lookup_scoped s "lan" "example.com." (Some TXT) = [] /\
  lookup_scoped s "lan" "example.com.au." (Some A) = [] /\
  length (lookup_scoped (restart 0 0 s) "lan" "example.com.au." (Some A)) = 1%nat.
Proof. vm_compute. repeat split. Qed.

(** The keys of scoped records do not separate scopes whose names contain the
    separator: a record of scope [a:b] is answered within scope [a] for a queried
    name that contains the colon, and deleting scope [a] silences scope [a:b]. *)
Theorem scope_key_collision :
  let s := (add_scoped_record "a:b" (mkRecord None "host." A "10.0.0.1" 300 0) empty_scopes).2 in
  length (lookup_scoped s "a:b" "host." (Some A)) = 1%nat /\
  length (lookup_scoped s "a" "b:host." (Some A)) = 1%nat /\
  lookup_scoped (delete_network_scope "a" s).2 "a:b" "host." (Some A) = [].
Proof. vm_compute. repeat split. Qed.

(** * Witnesses *)

Definition two_scopes : ScopeStore :=
  try_call (add_scope_tld "lab" "Test.Lab")
    (try_call (create_network_scope (mkScope "lab" "lab.home"))
       (try_call (create_network_scope (mkScope "office" "office")) empty_scopes)).

Lemma try_call_reachable {E} (f : ScopeStore -> result ScopeStore E) s :
  (forall s', f s = Ok s' -> scope_step s s') ->
  scopes_reachable s -> scopes_reachable (try_call f s).
Proof.
  intros Hf Hs. unfold try_call, ok_or_same. destruct (f s) as [s'|] eqn:E0; [|done].
  eapply scopes_step; [done|by apply Hf].
Qed.

Lemma two_scopes_reachable : scopes_reachable two_scopes.
Proof.
  apply try_call_reachable; [intros s'; apply step_add_tld|].
  apply try_call_reachable; [intros s'; apply step_create|].
  apply try_call_reachable; [intros s'; apply step_create|]. apply scopes_empty.
Qed.

Lemma tld_ownership_exact_witness :
  (tld_owner_cache two_scopes !! "test.lab." = Some "lab" <-> owns two_scopes "lab" "test.lab.") /\
  tld_owner_cache (restart 0 0 two_scopes) = tld_owner_cache two_scopes.
Proof.
  destruct (tld_ownership_exact two_scopes "test.lab." "lab" "office" 0 0 two_scopes_reachable)
    as (H1 & _ & H2 & _).
  split; [exact H1|exact H2].
Defined.

Lemma find_tld_owner_deepest_witness :
  find_tld_owner two_scopes "NAS.test.lab" = Some ("lab", "test.lab.") /\
  exists zs, zs <> [] /\ "test.lab." = fqdn zs /\ zs `suffix_of` labels_of "NAS.test.lab".
Proof.
  split; [vm_compute; reflexivity|].
  destruct (proj1 (find_tld_owner_deepest two_scopes "NAS.test.lab" "lab" "test.lab."
    ltac:(vm_compute; reflexivity) ltac:(vm_compute; discriminate))
    ltac:(vm_compute; reflexivity)) as (zs & H1 & H2 & H3 & _).
  exists zs. split; [exact H1|split; [exact H2|exact H3]].
Defined.

Lemma deleted_scope_is_gone_witness :
  lookup_scoped (delete_network_scope "office"
    (add_scoped_record "office" (mkRecord None "pc.office." A "10.0.0.1" 60 0) two_scopes).2).2
    "office" "pc.office." (Some A) = [].
Proof.
  apply (deleted_scope_is_gone "office"
    (add_scoped_record "office" (mkRecord None "pc.office." A "10.0.0.1" 60 0) two_scopes).2
    0 "" "pc.office." "" A).
Defined.

Lemma scope_isolation_witness :
  lookup_scoped (remove_scoped_records "office" "pc." None "" two_scopes).2 "lab" "pc." (Some A) =
  lookup_scoped two_scopes "lab" "pc." (Some A).
Proof.
  pose proof (scope_isolation "office" "lab" two_scopes
    (mkRecord None "pc." A "10.0.0.1" 60 0) "pc." None "" "pc." A eq_refl eq_refl) as H.
  assert (("office" : string) <> "lab") as Hne by discriminate.
  specialize (H Hne). rewrite Forall_forall in H.
  apply H. right. left.
Defined.

Lemma association_lifetime_witness :
  (get_scope_for_ip 5 "10.0.0.7" (join_network 0 0 (mkAssoc "10.0.0.8" "lab" 60)
     (join_network 0 0 (mkAssoc "10.0.0.7" "office" 60) two_scopes))).1 = Some "office".
Proof.
  destruct (association_lifetime 0 5 0 (mkAssoc "10.0.0.8" "lab" 60)
    (join_network 0 0 (mkAssoc "10.0.0.7" "office" 60) two_scopes) "10.0.0.7")
    as (_ & _ & _ & H).
  rewrite H; [vm_compute; reflexivity|discriminate].
Defined.
