(* ===== verification/Database.v ===== *)
(** The database handle ([src/src/db.rs]): the global records ([ZoneStore]), the
    network scopes ([Scopes]) and the operator's lists (authoritative zones,
    local blocklist, allowlist), with the blocklist decisions the server takes
    from them ([src/src/dns_server.rs]). *)

From S2P Require Import Prelude RustStr Names Ip Records Rrsig Sql ZoneStore Scopes.
From stdpp Require Import base gmap sets list option strings.
From Stdlib Require Import ZArith Lia Bool Ascii.

Open Scope Z_scope.

(** * The lists *)

(** Tables keyed by name, with a reason where the table has one; each with its
    in-memory set. *)
Record ListStore := mkLists {
  authoritative_zones : gset string;
  authoritative_zones_cache : gset string;
  local_blocklist_entries : gmap string string;
  local_blocklist_cache : gset string;
  dnsbl_allowlist : gmap string string;
  dnsbl_allowlist_cache : gset string;
}.

Definition empty_lists : ListStore := mkLists ∅ ∅ ∅ ∅ ∅ ∅.

Definition add_authoritative_zone (zone : string) (l : ListStore) : ListStore :=
  let normalized := normalize_name zone in
  mkLists ({[normalized]} ∪ authoritative_zones l) ({[normalized]} ∪ authoritative_zones_cache l)
    (local_blocklist_entries l) (local_blocklist_cache l) (dnsbl_allowlist l)
    (dnsbl_allowlist_cache l).

Definition remove_authoritative_zone (zone : string) (l : ListStore) : bool * ListStore :=
  let normalized := normalize_name zone in
  let found := in_set (authoritative_zones l) normalized in
  (found, mkLists (authoritative_zones l ∖ {[normalized]})
    (if found then authoritative_zones_cache l ∖ {[normalized]} else authoritative_zones_cache l)
    (local_blocklist_entries l) (local_blocklist_cache l) (dnsbl_allowlist l)
    (dnsbl_allowlist_cache l)).

(** The name is stored as it was given. *)
Definition add_local_blocklist_entry (name reason : string) (l : ListStore) : ListStore :=
  mkLists (authoritative_zones l) (authoritative_zones_cache l)
    (<[name := reason]> (local_blocklist_entries l)) ({[name]} ∪ local_blocklist_cache l)
    (dnsbl_allowlist l) (dnsbl_allowlist_cache l).

Definition remove_local_blocklist_entry (name : string) (l : ListStore) : bool * ListStore :=
  let found := bool_decide (is_Some (local_blocklist_entries l !! name)) in
  (found, mkLists (authoritative_zones l) (authoritative_zones_cache l)
    (delete name (local_blocklist_entries l))
    (if found then local_blocklist_cache l ∖ {[name]} else local_blocklist_cache l)
    (dnsbl_allowlist l) (dnsbl_allowlist_cache l)).

Definition lookup_local_blocklist (l : ListStore) (name : string) : bool :=
  in_set (local_blocklist_cache l) name.

Inductive list_error := EmptyName.

Definition add_dnsbl_allowlist_entry (name reason : string) (l : ListStore)
  : result ListStore list_error :=
  let normalized := normalize_name (str_trim name) in
  if (normalized =? "")%string || (normalized =? ".")%string then Err EmptyName
  else Ok (mkLists (authoritative_zones l) (authoritative_zones_cache l)
    (local_blocklist_entries l) (local_blocklist_cache l)
    (<[normalized := reason]> (dnsbl_allowlist l)) ({[normalized]} ∪ dnsbl_allowlist_cache l)).

Definition remove_dnsbl_allowlist_entry (name : string) (l : ListStore) : bool * ListStore :=
  let normalized := normalize_name (str_trim name) in
  let found := bool_decide (is_Some (dnsbl_allowlist l !! normalized)) in
  (found, mkLists (authoritative_zones l) (authoritative_zones_cache l)
    (local_blocklist_entries l) (local_blocklist_cache l)
    (delete normalized (dnsbl_allowlist l))
    (if found then dnsbl_allowlist_cache l ∖ {[normalized]} else dnsbl_allowlist_cache l)).

(** [matches_zone_suffix], given a name in normal form. *)
Definition matches_zone_suffix (normalized : string) (zones : gset string) : bool :=
  let hit z := if in_set zones z then Some tt else None in
  match hit normalized with
  | Some _ => true
  | None =>
      let trimmed := trim_end_matches "." normalized in
      match scan_suffixes hit (String.length trimmed) trimmed with Some _ => true | None => false end
  end.

Definition is_dnsbl_allowlisted (l : ListStore) (name : string) : bool :=
  if bool_decide (dnsbl_allowlist_cache l = ∅) then false
  else matches_zone_suffix (normalize_name name) (dnsbl_allowlist_cache l).

Definition is_dnsbl_allowlisted_exact (l : ListStore) (literal : string) : bool :=
  if bool_decide (dnsbl_allowlist_cache l = ∅) then false
  else in_set (dnsbl_allowlist_cache l) (normalize_name literal).

Definition find_authoritative_zone (l : ListStore) (name : string) : option string :=
  walk_suffixes (fun z => if in_set (authoritative_zones_cache l) z then Some z else None) name.

(** The part of [load_caches_at_boot] that reads these tables. *)
Definition load_list_caches (l : ListStore) : ListStore :=
  mkLists (authoritative_zones l) (authoritative_zones l ∪ authoritative_zones_cache l)
    (local_blocklist_entries l) (dom (local_blocklist_entries l) ∪ local_blocklist_cache l)
    (dnsbl_allowlist l) (dom (dnsbl_allowlist l) ∪ dnsbl_allowlist_cache l).

(** * The handle *)

Record Database := mkDb { zones : ZoneStore; scopes : ScopeStore; lists : ListStore }.

Definition empty_db : Database := mkDb empty_store empty_scopes empty_lists.

Definition is_authoritative_zone (db : Database) (name : string) : bool :=
  let normalized := normalize_name name in
  matches_zone_suffix normalized (authoritative_zones_cache (lists db)) ||
  matches_zone_suffix normalized (managed_zones_cache (zones db)).

(** [load_caches_at_boot] over a handle whose caches are empty. *)
Definition load_caches_at_boot (db : Database) : Database :=
  mkDb (load_zone_caches (zones db)) (load_scope_caches (scopes db)) (load_list_caches (lists db)).

(** * Blocklist decisions *)

(** [normalize_blocklist_name] of [src/src/dnsbl.rs]. *)
Definition normalize_blocklist_name (name : string) : string :=
  to_lowercase (trim_end_matches "." name).

Definition local_lists_name (l : ListStore) (qname : string) : bool :=
  if lookup_local_blocklist l qname then true
  else
    let normalized := normalize_blocklist_name qname in
    negb (normalized =? "")%string && negb (normalized =? qname)%string &&
    lookup_local_blocklist l normalized.

Inductive allow_kind := ALLOW_FORWARD_NAME | ALLOW_REVERSE_NAME | ALLOW_IP_LITERAL.

Definition blocklist_exempt (l : ListStore) (qname : string) (ip : option IpAddr)
  : option allow_kind :=
  if is_dnsbl_allowlisted l qname then
    Some (match ip with Some _ => ALLOW_REVERSE_NAME | None => ALLOW_FORWARD_NAME end)
  else match ip with
       | Some ip => if is_dnsbl_allowlisted_exact l (ip_to_string ip) then Some ALLOW_IP_LITERAL
                    else None
       | None => None
       end.

(** [ip_blocklist_kind]: whether the local list blocks the address. *)
Definition ip_blocked (l : ListStore) (qname : string) (ip : IpAddr) : bool :=
  match blocklist_exempt l qname (Some ip) with
  | Some _ => false
  | None => lookup_local_blocklist l (ip_to_string ip) || local_lists_name l qname
  end.

(** * Runs of the lists *)

Inductive list_step (l : ListStore) : ListStore -> Prop :=
| lstep_add_auth z : list_step l (add_authoritative_zone z l)
| lstep_remove_auth z : list_step l (remove_authoritative_zone z l).2
| lstep_block n r : list_step l (add_local_blocklist_entry n r l)
| lstep_unblock n : list_step l (remove_local_blocklist_entry n l).2
| lstep_allow n r l' : add_dnsbl_allowlist_entry n r l = Ok l' -> list_step l l'
| lstep_disallow n : list_step l (remove_dnsbl_allowlist_entry n l).2
| lstep_boot : list_step l (load_list_caches l).

Inductive lists_reachable : ListStore -> Prop :=
| lists_empty : lists_reachable empty_lists
| lists_step l l' : lists_reachable l -> list_step l l' -> lists_reachable l'.

(** Each set is what its table holds. *)
Definition lists_agree (l : ListStore) : Prop :=
  authoritative_zones_cache l = authoritative_zones l /\
  local_blocklist_cache l = dom (local_blocklist_entries l) /\
  dnsbl_allowlist_cache l = dom (dnsbl_allowlist l).

Lemma list_step_agree l l' : lists_agree l -> list_step l l' -> lists_agree l'.
Proof.
  intros (H1 & H2 & H3) [z|z|n r|n|n r l'' H|n|]; unfold lists_agree; simpl.
  - split; [by rewrite H1|done].
  - split; [|done]. unfold in_set. case_bool_decide as E; rewrite H1; [done|]. set_solver.
  - split; [done|]. split; [|done]. by rewrite dom_insert_L, H2.
  - split; [done|]. split; [|done]. rewrite dom_delete_L, H2. case_bool_decide as E; [done|].
    rewrite <- elem_of_dom in E. set_solver.
  - unfold add_dnsbl_allowlist_entry in H. case_match; [done|]. injection H as <-. simpl.
    split; [done|]. split; [done|]. by rewrite dom_insert_L, H3.
  - split; [done|]. split; [done|]. rewrite dom_delete_L, H3. case_bool_decide as E; [done|].
    rewrite <- elem_of_dom in E. set_solver.
  - rewrite H1, H2, H3. set_solver.
Qed.

Lemma lists_reachable_agree l : lists_reachable l -> lists_agree l.
Proof.
  induction 1 as [|l l' _ IH Hs]; [|by eapply list_step_agree].
  unfold lists_agree, empty_lists. simpl. by rewrite !dom_empty_L.
Qed.

Lemma matches_zone_suffix_walk n zs :
  matches_zone_suffix (normalize_name n) zs =
  match walk_suffixes (fun z => if in_set zs z then Some tt else None) n with
  | Some _ => true | None => false end.
Proof.
  unfold matches_zone_suffix, walk_suffixes. cbn zeta.
  destruct (in_set zs (normalize_name n)); done.
Qed.

(** Membership of some enclosing zone. *)
Lemma matches_zone_suffix_iff n zs :
  valid_name n = true -> labels_of n <> [] ->
  matches_zone_suffix (normalize_name n) zs = true <->
  exists ks, ks <> [] /\ ks `suffix_of` labels_of n /\ fqdn ks ∈ zs.
Proof.
  intros Hv Hne. rewrite matches_zone_suffix_walk.
  assert (walk_suffixes (fun z => if in_set zs z then Some tt else None) n =
    first_hit (fun z => if in_set zs z then Some tt else None) (fqdn <$> tails (labels_of n))) as ->.
  { rewrite walk_suffixes_labels by done. by destruct (labels_of n). }
  set (hit := fun z => if in_set zs z then Some tt else None).
  destruct (first_hit hit (fqdn <$> tails (labels_of n))) as [[]|] eqn:E.
  - apply first_hit_Some in E as (l1 & x & l2 & E & Hx & _).
    assert (x ∈ fqdn <$> tails (labels_of n)) as Hin by (rewrite E; set_solver).
    apply list_elem_of_fmap in Hin as (ks & -> & [H1 H2]%elem_tails).
    split; [intros _|done]. exists ks. split; [done|]. split; [done|].
    unfold hit, in_set in Hx. by case_bool_decide.
  - split; [done|]. intros (ks & H1 & H2 & H3). apply first_hit_None in E.
    rewrite Forall_fmap, Forall_forall in E.
    specialize (E ks (proj2 (elem_tails _ _) (conj H1 H2))). unfold hit, in_set in E. simpl in E.
    by rewrite bool_decide_true in E.
Qed.

(** * Properties *)

(** The operator's lists read from memory are exactly the tables, whatever was
    added, removed or reloaded before; and an allowlist entry exempts exactly its
    own subtree: a name is exempt when, and only when, an entry of the table is
    the name or one of its ancestors. *)
Theorem allowlist_covers_subtree l name :
  lists_reachable l -> valid_name name = true -> labels_of name <> [] ->
  lists_agree l /\
  (is_dnsbl_allowlisted l name = true <->
   exists ks, ks <> [] /\ ks `suffix_of` labels_of name /\ is_Some (dnsbl_allowlist l !! fqdn ks)).
Proof.
  intros Hl%lists_reachable_agree Hv Hne. split; [done|]. destruct Hl as (_ & _ & Ha).
  unfold is_dnsbl_allowlisted. setoid_rewrite <- elem_of_dom. rewrite <- Ha.
  case_bool_decide as E; [|by apply matches_zone_suffix_iff].
  split; [done|]. intros (ks & _ & _ & Hk). rewrite E in Hk. by apply elem_of_empty in Hk.
Qed.

Definition sample_lists : ListStore :=
  match add_dnsbl_allowlist_entry " Example.com" "" empty_lists with Ok l => l | Err _ => empty_lists end.

Lemma allowlist_covers_subtree_witness :
  is_dnsbl_allowlisted sample_lists "www.EXAMPLE.com." = true /\
  is_dnsbl_allowlisted sample_lists "notexample.com." = false /\
  exists ks, ks <> [] /\ ks `suffix_of` labels_of "www.EXAMPLE.com." /\
    is_Some (dnsbl_allowlist sample_lists !! fqdn ks).
Proof.
  split; [vm_compute; reflexivity|]. split; [vm_compute; reflexivity|].
  apply (allowlist_covers_subtree sample_lists "www.EXAMPLE.com.");
    [|vm_compute; reflexivity|vm_compute; discriminate|vm_compute; reflexivity].
  apply (lists_step empty_lists); [apply lists_empty|].
  apply (lstep_allow empty_lists " Example.com" ""). vm_compute. reflexivity.
Defined.

(** The local blocklist does not tolerate letter case on its own side: an entry
    stored with an uppercase letter blocks only queries spelled exactly like it,
    and no query spelled in lowercase. *)
Theorem local_blocklist_case_sensitive l entry reason qname :
  local_blocklist_cache l = ∅ -> to_lowercase entry <> entry -> to_lowercase qname = qname ->
  local_lists_name (add_local_blocklist_entry entry reason l) qname = false.
Proof.
  intros Hl He Hq. unfold local_lists_name, lookup_local_blocklist, in_set. simpl. rewrite Hl.
  rewrite bool_decide_false; [|set_solver].
  rewrite !andb_false_iff. right. apply bool_decide_false.
  intros Hin. assert (normalize_blocklist_name qname = entry) as E by set_solver.
  apply He. rewrite <- E. unfold normalize_blocklist_name. apply to_lowercase_idem.
Qed.

Lemma local_blocklist_case_sensitive_witness :
  local_lists_name (add_local_blocklist_entry "Ads.example.com" "ads" empty_lists)
    "ads.example.com." = false /\
  local_lists_name (add_local_blocklist_entry "ads.example.com" "ads" empty_lists)
    "ADS.example.com." = true.
Proof.
  split; [|vm_compute; reflexivity].
  apply local_blocklist_case_sensitive; [reflexivity|vm_compute; discriminate|reflexivity].
Defined.
