(* ===== verification/Leases.v ===== *)
(** The DHCP tables ([src/src/db.rs]): address pools, leases and certificate options,
    the allocation of an address and the sweep of expired leases. A table is its rows
    in insertion order; wall-clock time is in seconds. *)

From S2P Require Import Prelude RustStr Ip.
From stdpp Require Import base gmap sets list option strings.
From Stdlib Require Import ZArith Lia Bool Ascii.

Open Scope Z_scope.
Local Open Scope rolodex_scope.

(** * Rows *)

Record DhcpPool := mkPool {
  pool_id : Z;
  pool_scope : string;
  range_start : string;
  range_end : string;
  pool_gateway : option string;
  pool_subnet_mask : string;
  pool_dns_servers : option string;
}.

Record DhcpLease := mkLease {
  lease_mac : string;
  lease_ip : string;
  lease_scope : string;
  lease_hostname : option string;
  lease_start : Z;
  lease_duration : Z;
  lease_state : string;
}.

Record DhcpCertOption := mkCertOption {
  co_scope : string;
  co_code : Z;
  co_data : list Z;
  co_description : option string;
}.

Record LeaseStore := mkLeases {
  dhcp_pools : list DhcpPool;
  next_pool_id : Z;
  dhcp_leases : list DhcpLease;
  dhcp_cert_options : list DhcpCertOption;
}.

Definition empty_leases : LeaseStore := mkLeases [] 1 [] [].

Definition set_pools (p : list DhcpPool) (n : Z) (s : LeaseStore) : LeaseStore :=
  mkLeases p n (dhcp_leases s) (dhcp_cert_options s).
Definition set_leases (l : list DhcpLease) (s : LeaseStore) : LeaseStore :=
  mkLeases (dhcp_pools s) (next_pool_id s) l (dhcp_cert_options s).
Definition set_cert_options (o : list DhcpCertOption) (s : LeaseStore) : LeaseStore :=
  mkLeases (dhcp_pools s) (next_pool_id s) (dhcp_leases s) o.

(** * Pools *)

Definition add_dhcp_pool (pool : DhcpPool) (s : LeaseStore) : Z * LeaseStore :=
  let id := next_pool_id s in
  (id, set_pools (dhcp_pools s ++ [mkPool id (pool_scope pool) (range_start pool) (range_end pool)
         (pool_gateway pool) (pool_subnet_mask pool) (pool_dns_servers pool)]) (id + 1) s).

Definition remove_dhcp_pool (id : Z) (s : LeaseStore) : bool * LeaseStore :=
  (existsb (fun p => pool_id p =? id) (dhcp_pools s),
   set_pools (List.filter (fun p => negb (pool_id p =? id)) (dhcp_pools s)) (next_pool_id s) s).

Definition list_dhcp_pools (scope_name : option string) (s : LeaseStore) : list DhcpPool :=
  match scope_name with
  | Some scope => List.filter (fun p => (pool_scope p =? scope)%string) (dhcp_pools s)
  | None => dhcp_pools s
  end.

(** * Leases *)

(** [INSERT OR REPLACE]: the rows with the same MAC or the same address go. *)
Definition create_lease (lease : DhcpLease) (s : LeaseStore) : LeaseStore :=
  set_leases (List.filter (fun l => negb ((lease_mac l =? lease_mac lease) || (lease_ip l =? lease_ip lease))%string)
                (dhcp_leases s) ++ [lease]) s.

Definition with_state (st : string) (l : DhcpLease) : DhcpLease :=
  mkLease (lease_mac l) (lease_ip l) (lease_scope l) (lease_hostname l) (lease_start l) (lease_duration l) st.

Definition has_mac (mac : string) (l : DhcpLease) : bool := (lease_mac l =? mac)%string.

Definition renew_lease (now : Z) (mac : string) (duration : Z) (s : LeaseStore) : bool * LeaseStore :=
  (existsb (has_mac mac) (dhcp_leases s),
   set_leases ((fun l => if has_mac mac l
                         then mkLease (lease_mac l) (lease_ip l) (lease_scope l) (lease_hostname l) now duration (lease_state l)
                         else l) <$> dhcp_leases s) s).

Definition get_lease_by_mac (mac : string) (s : LeaseStore) : option DhcpLease :=
  find (has_mac mac) (dhcp_leases s).

Definition get_lease_by_ip (ip : string) (s : LeaseStore) : option DhcpLease :=
  find (fun l => (lease_ip l =? ip)%string) (dhcp_leases s).

Definition list_leases (scope_name : option string) (s : LeaseStore) : list DhcpLease :=
  match scope_name with
  | Some scope => List.filter (fun l => (lease_scope l =? scope)%string) (dhcp_leases s)
  | None => dhcp_leases s
  end.

Definition release_lease (mac : string) (s : LeaseStore) : option DhcpLease * LeaseStore :=
  let s := set_leases ((fun l => if has_mac mac l then with_state "released" l else l) <$> dhcp_leases s) s in
  (get_lease_by_mac mac s, s).

Definition delete_lease (mac : string) (s : LeaseStore) : bool * LeaseStore :=
  (existsb (has_mac mac) (dhcp_leases s),
   set_leases (List.filter (fun l => negb (has_mac mac l)) (dhcp_leases s)) s).

(** * Allocation *)

(** The walk over one range. [None] when the turns run out. *)
Fixpoint first_free (fuel : nat) (leased : gset string) (current end_ : Z) : option (option string) :=
  match fuel with
  | O => None
  | S f =>
      let ip_str := show_v4 current in
      if negb (bool_decide (ip_str ∈ leased)) then Some (Some ip_str)
      else if current =? end_ then Some None
      else if u32_max <? current + 1 then Some None
      else first_free f leased (current + 1) end_
  end.

(** Every turn but the last is spent on a leased address, so that one turn more than
    there are leased addresses is enough. *)
Definition walk_fuel (leased : gset string) : nat := S (size leased).

Fixpoint allocate_in (leased : gset string) (pools : list DhcpPool) : result (option string) string :=
  match pools with
  | [] => Ok None
  | p :: pools' =>
      match parse_v4 (range_start p), parse_v4 (range_end p) with
      | None, _ => Err "invalid pool range_start IP"
      | Some _, None => Err "invalid pool range_end IP"
      | Some start, Some end_ =>
          match first_free (walk_fuel leased) leased start end_ with
          | None => Err "out of turns"
          | Some (Some ip) => Ok (Some ip)
          | Some None => allocate_in leased pools'
          end
      end
  end.

Definition leased_ips (scope_name : string) (s : LeaseStore) : gset string :=
  list_to_set (lease_ip <$> list_leases (Some scope_name) s).

Definition allocate_ip (scope_name mac : string) (s : LeaseStore) : result (option string) string :=
  match get_lease_by_mac mac s with
  | Some l => Ok (Some (lease_ip l))
  | None => allocate_in (leased_ips scope_name s) (list_dhcp_pools (Some scope_name) s)
  end.

(** * Sweeping *)

Definition lease_end (l : DhcpLease) : Z := lease_start l + lease_duration l.

Definition reclaimable (reclaim now : Z) (l : DhcpLease) : bool :=
  ((lease_state l =? "expired") || (lease_state l =? "released"))%string && (lease_end l + reclaim <? now).

Definition mark_expired (now : Z) (l : DhcpLease) : DhcpLease :=
  if (lease_state l =? "active")%string && (lease_end l <? now) then with_state "expired" l else l.

Definition sweep_expired_leases (now reclaim_timeout_secs : Z) (s : LeaseStore) : list DhcpLease * LeaseStore :=
  let leases := mark_expired now <$> dhcp_leases s in
  let reclaim_timeout := as_i 64 reclaim_timeout_secs in
  (List.filter (reclaimable reclaim_timeout now) leases,
   set_leases (List.filter (fun l => negb (reclaimable reclaim_timeout now l)) leases) s).

(** * Certificate options *)

Definition same_option (scope_name : string) (code : Z) (o : DhcpCertOption) : bool :=
  (co_scope o =? scope_name)%string && (co_code o =? code).

Definition set_dhcp_cert_option (opt : DhcpCertOption) (s : LeaseStore) : LeaseStore :=
  set_cert_options (List.filter (fun o => negb (same_option (co_scope opt) (co_code opt) o)) (dhcp_cert_options s)
                      ++ [opt]) s.

Definition remove_dhcp_cert_option (scope_name : string) (code : Z) (s : LeaseStore) : bool * LeaseStore :=
  (existsb (same_option scope_name code) (dhcp_cert_options s),
   set_cert_options (List.filter (fun o => negb (same_option scope_name code o)) (dhcp_cert_options s)) s).

Definition list_dhcp_cert_options (scope_name : string) (s : LeaseStore) : list DhcpCertOption :=
  List.filter (fun o => (co_scope o =? scope_name)%string) (dhcp_cert_options s).

(** * Allocation finds the first free address *)

Lemma show_v4_inj a b : is_u 32 a -> is_u 32 b -> show_v4 a = show_v4 b -> a = b.
Proof.
  intros Ha Hb E. apply show_v4_parse in Ha, Hb. rewrite E in Ha. rewrite Ha in Hb. by injection Hb.
Qed.

(** Addresses in a row, all leased, are no more than the leased ones. *)
Lemma leased_run_short (leased : gset string) a n :
  is_u 32 a -> a + Z.of_nat n <= 2 ^ 32 ->
  (forall b, a <= b < a + Z.of_nat n -> show_v4 b ∈ leased) -> (n <= size leased)%nat.
Proof.
  intros Ha Hn Hl. unfold is_u in Ha.
  set (run := show_v4 <$> seqZ a (Z.of_nat n)).
  assert (length run = n) as Hlen by (unfold run; rewrite length_fmap, length_seqZ; lia).
  rewrite <- Hlen. rewrite <- (size_list_to_set (C := gset string) run).
  - apply subseteq_size. intros s Hs%elem_of_list_to_set. unfold run in Hs.
    apply list_elem_of_fmap in Hs as (b & -> & Hb%elem_of_seqZ). by apply Hl.
  - unfold run. apply NoDup_fmap_2_strong; [|apply NoDup_seqZ].
    intros x y Hx%elem_of_seqZ Hy%elem_of_seqZ. apply show_v4_inj; unfold is_u; lia.
Qed.

(** The last address the walk from [start] can reach. *)
Definition last_of (start end_ : Z) : Z := if start <=? end_ then end_ else u32_max.

Lemma first_free_from leased start end_ fuel cur :
  is_u 32 start -> is_u 32 end_ -> start <= cur <= last_of start end_ ->
  (forall b, start <= b < cur -> show_v4 b ∈ leased) ->
  (size leased < Z.to_nat (cur - start) + fuel)%nat ->
  match first_free fuel leased cur end_ with
  | None => False
  | Some (Some ip) => exists a, ip = show_v4 a /\ ip ∉ leased /\ start <= a <= last_of start end_ /\
                      forall b, start <= b < a -> show_v4 b ∈ leased
  | Some None => forall b, start <= b <= last_of start end_ -> show_v4 b ∈ leased
  end.
Proof.
  intros Hs He. revert cur. unfold is_u in Hs, He.
  assert (last_of start end_ <= u32_max) as Hlast by (unfold last_of, u32_max in *; destruct (start <=? end_); lia).
  induction fuel as [|fuel IH]; intros cur Hc Hl Hf; simpl.
  { assert (Z.to_nat (cur - start) <= size leased)%nat; [|lia].
    apply (leased_run_short leased start); unfold is_u, u32_max in *; [lia|lia|]. intros b Hb. apply Hl. lia. }
  case_bool_decide as Hin; simpl; [|exists cur; split_and!; [done|done|lia|lia|done]].
  assert (forall b, start <= b < cur + 1 -> show_v4 b ∈ leased) as Hl'.
  { intros b Hb. destruct (decide (b = cur)) as [->|]; [done|apply Hl; lia]. }
  unfold last_of in *. destruct (Z.leb_spec start end_) as [Hse|Hse].
  - destruct (Z.eqb_spec cur end_) as [->|Hne]; [intros b Hb; apply Hl'; lia|].
    destruct (Z.ltb_spec u32_max (cur + 1)) as [Hm|Hm]; [unfold u32_max in *; lia|].
    apply IH; [lia|done|lia].
  - destruct (Z.eqb_spec cur end_) as [->|Hne]; [lia|].
    destruct (Z.ltb_spec u32_max (cur + 1)) as [Hm|Hm]; [intros b Hb; apply Hl'; lia|].
    apply IH; [lia|done|lia].
Qed.

Lemma first_free_spec leased start end_ :
  is_u 32 start -> is_u 32 end_ ->
  match first_free (walk_fuel leased) leased start end_ with
  | None => False
  | Some (Some ip) => exists a, ip = show_v4 a /\ ip ∉ leased /\ start <= a <= last_of start end_ /\
                      forall b, start <= b < a -> show_v4 b ∈ leased
  | Some None => forall b, start <= b <= last_of start end_ -> show_v4 b ∈ leased
  end.
Proof.
  intros Hs He. apply first_free_from; [done|done| |lia|unfold walk_fuel; lia].
  unfold last_of, is_u, u32_max in *. destruct (Z.leb_spec start end_); lia.
Qed.

(** A pool whose bounds are addresses in order. *)
Definition pool_wf (p : DhcpPool) : Prop :=
  exists a b, parse_v4 (range_start p) = Some a /\ parse_v4 (range_end p) = Some b /\ a <= b.

Definition in_pool (p : DhcpPool) (a : Z) : Prop :=
  exists lo hi, parse_v4 (range_start p) = Some lo /\ parse_v4 (range_end p) = Some hi /\ lo <= a <= hi.

Lemma allocate_in_spec leased pools :
  Forall pool_wf pools ->
  match allocate_in leased pools with
  | Ok (Some ip) => exists before p after a, pools = before ++ p :: after /\ in_pool p a /\ ip = show_v4 a /\
      ip ∉ leased /\ (forall b, in_pool p b -> b < a -> show_v4 b ∈ leased) /\
      (forall q b, q ∈ before -> in_pool q b -> show_v4 b ∈ leased)
  | Ok None => forall q b, q ∈ pools -> in_pool q b -> show_v4 b ∈ leased
  | Err _ => False
  end.
Proof.
  induction 1 as [|p pools (lo & hi & Hlo & Hhi & Hle) Hw IH]; cbn [allocate_in].
  { intros q b Hq. by apply elem_of_nil in Hq. }
  rewrite Hlo, Hhi. pose proof (parse_v4_bound _ _ Hlo) as Blo. pose proof (parse_v4_bound _ _ Hhi) as Bhi.
  pose proof (first_free_spec leased lo hi Blo Bhi) as Hf. unfold last_of in Hf.
  rewrite (proj2 (Z.leb_le _ _) Hle) in Hf.
  assert (forall b, in_pool p b <-> lo <= b <= hi) as Hin.
  { intros b. unfold in_pool. rewrite Hlo, Hhi. split; [by intros (? & ? & [= <-] & [= <-] & ?)|eauto]. }
  destruct (first_free _ leased lo hi) as [[ip|]|]; [| |done].
  - destruct Hf as (a & -> & Hni & Ha & Hb). simpl. exists [], p, pools, a. split_and!; try done.
    + by apply Hin.
    + intros b Hb1%Hin Hb2. apply Hb. lia.
    + intros q b Hq. by apply elem_of_nil in Hq.
  - assert (forall b, in_pool p b -> show_v4 b ∈ leased) as Hp by (intros b Hb%Hin; by apply Hf).
    destruct (allocate_in leased pools) as [[ip|]|]; [| |done].
    + destruct IH as (before & q & after & a & -> & H1 & H2 & H3 & H4 & H5).
      exists (p :: before), q, after, a. split_and!; try done.
      intros q' b [->|Hq]%elem_of_cons; [apply Hp|by apply H5].
    + intros q' b [->|Hq]%elem_of_cons; [apply Hp|by apply IH].
Qed.

Lemma find_has_mac_Some mac ls l : find (has_mac mac) ls = Some l -> l ∈ ls /\ lease_mac l = mac.
Proof. intros [H1 H2]%find_some. split; [by apply list_elem_of_In|by apply String.eqb_eq]. Qed.

Definition taken (s : LeaseStore) (scope ip : string) : Prop :=
  exists l, l ∈ dhcp_leases s /\ lease_scope l = scope /\ lease_ip l = ip.

Lemma leased_ips_taken scope s ip : ip ∈ leased_ips scope s <-> taken s scope ip.
Proof.
  unfold leased_ips, taken, list_leases. rewrite elem_of_list_to_set, list_elem_of_fmap.
  setoid_rewrite elem_filter_bool. setoid_rewrite String.eqb_eq. naive_solver.
Qed.

(** C38: allocation answers, and with the first free address. On pools whose
    bounds are in order it always returns. A client with a lease in the table, of
    whatever state and scope, keeps its address. Any other gets the lowest address of the
    first pool of the scope that has one not leased in the scope: the search goes on from a
    pool that is exhausted to the next one, where the documents say that it fails. It is
    told that there is none only when every address of every pool of the scope is leased. *)
Theorem allocation_exact scope mac s :
  Forall pool_wf (list_dhcp_pools (Some scope) s) ->
  exists r, allocate_ip scope mac s = Ok r /\
    match get_lease_by_mac mac s with
    | Some l => r = Some (lease_ip l)
    | None =>
        match r with
        | Some ip => exists before p after a,
            list_dhcp_pools (Some scope) s = before ++ p :: after /\ in_pool p a /\ ip = show_v4 a /\ ~ taken s scope ip /\
            (forall b, in_pool p b -> b < a -> taken s scope (show_v4 b)) /\
            (forall q b, q ∈ before -> in_pool q b -> taken s scope (show_v4 b))
        | None => forall q b, q ∈ dhcp_pools s -> pool_scope q = scope -> in_pool q b -> taken s scope (show_v4 b)
        end
    end.
Proof.
  intros Hw. unfold allocate_ip. destruct (get_lease_by_mac mac s) as [l|]; [by eexists|].
  pose proof (leased_ips_taken scope s) as Ht.
  pose proof (allocate_in_spec (leased_ips scope s) _ Hw) as H.
  destruct (allocate_in _ _) as [[ip|]|]; [| |done]; eexists; (split; [done|]).
  - destruct H as (before & p & after & a & H1 & H2 & H3 & H4 & H5 & H6). exists before, p, after, a.
    split_and!; try done; [by rewrite <- Ht|intros b ??; apply Ht; by apply H5|intros q b ??; apply Ht; by eapply H6].
  - intros q b Hq Hs Hb. apply Ht, (H q); [|done]. apply elem_filter_bool. split; [done|by apply String.eqb_eq].
Qed.

(** * What the table keeps *)

Inductive lease_step (s : LeaseStore) : LeaseStore -> Prop :=
| ls_add_pool p : lease_step s (add_dhcp_pool p s).2
| ls_remove_pool id : lease_step s (remove_dhcp_pool id s).2
| ls_create l : lease_step s (create_lease l s)
| ls_renew now mac d : lease_step s (renew_lease now mac d s).2
| ls_release mac : lease_step s (release_lease mac s).2
| ls_delete mac : lease_step s (delete_lease mac s).2
| ls_sweep now reclaim : lease_step s (sweep_expired_leases now reclaim s).2
| ls_set_option o : lease_step s (set_dhcp_cert_option o s)
| ls_remove_option scope code : lease_step s (remove_dhcp_cert_option scope code s).2.

Inductive leases_reachable : LeaseStore -> Prop :=
| lr_empty : leases_reachable empty_leases
| lr_step s s' : leases_reachable s -> lease_step s s' -> leases_reachable s'.

(** One lease per client, one client per address, one option per code; pool numbers
    are never given twice. *)
Record leases_inv (s : LeaseStore) : Prop := {
  li_macs : NoDup (lease_mac <$> dhcp_leases s);
  li_ips : NoDup (lease_ip <$> dhcp_leases s);
  li_pools : NoDup (pool_id <$> dhcp_pools s);
  li_next : forall p, p ∈ dhcp_pools s -> pool_id p < next_pool_id s;
  li_options : NoDup ((fun o => (co_scope o, co_code o)) <$> dhcp_cert_options s);
}.

Lemma NoDup_fmap_filter {A B} (f : A -> B) (p : A -> bool) (l : list A) :
  NoDup (f <$> l) -> NoDup (f <$> List.filter p l).
Proof.
  induction l as [|a l IH]; simpl; [done|]. rewrite NoDup_cons. intros [Ha Hl].
  destruct (p a); [|by apply IH]. rewrite fmap_cons. apply NoDup_cons. split; [|by apply IH].
  intros (x & E & [Hx _]%elem_filter_bool)%list_elem_of_fmap. apply Ha. rewrite E. by apply list_elem_of_fmap_2.
Qed.

Lemma NoDup_fmap_replace {A B} (f : A -> B) (p : A -> bool) (l : list A) a :
  NoDup (f <$> l) -> (forall x, x ∈ l -> f x = f a -> p x = false) ->
  NoDup (f <$> List.filter p l ++ [a]).
Proof.
  intros Hl Hp. rewrite fmap_app. apply NoDup_app. split_and!; [by apply NoDup_fmap_filter| |apply NoDup_singleton].
  intros y (x & -> & [Hx Hpx]%elem_filter_bool)%list_elem_of_fmap Hy.
  apply list_elem_of_singleton in Hy. by rewrite (Hp x Hx Hy) in Hpx.
Qed.

Lemma fmap_map_same {A B} (f : A -> B) (g : A -> A) (l : list A) :
  (forall x, f (g x) = f x) -> f <$> (g <$> l) = f <$> l.
Proof. intros H. rewrite <- list_fmap_compose. apply list_fmap_ext. intros i x _. apply H. Qed.

Lemma lease_step_inv s s' : leases_inv s -> lease_step s s' -> leases_inv s'.
Proof.
  intros [H1 H2 H3 H4 H5] Hs.
  destruct Hs; split; simpl; try done; try (by apply NoDup_fmap_filter); try (by rewrite !fmap_map_same by (intros x; by destruct (has_mac _ x))).
  - rewrite fmap_app. apply NoDup_app. split_and!; [done| |apply NoDup_singleton].
    intros y (x & -> & Hx)%list_elem_of_fmap Hy. apply list_elem_of_singleton in Hy. simpl in Hy.
    specialize (H4 x Hx). lia.
  - intros q [Hq| ->%list_elem_of_singleton]%elem_of_app; simpl; [specialize (H4 q Hq)|]; lia.
  - intros q [Hq _]%elem_filter_bool. by apply H4.
  - apply NoDup_fmap_replace; [done|]. intros x _ ->. by rewrite String.eqb_refl.
  - apply NoDup_fmap_replace; [done|]. intros x _ ->. by rewrite String.eqb_refl, orb_true_r.
  - apply NoDup_fmap_filter. rewrite fmap_map_same; [done|]. intros x. unfold mark_expired. by destruct (_ && _).
  - apply NoDup_fmap_filter. rewrite fmap_map_same; [done|]. intros x. unfold mark_expired. by destruct (_ && _).
  - apply NoDup_fmap_replace; [done|]. intros x _ [= E1 E2]. unfold same_option.
    by rewrite E1, E2, String.eqb_refl, Z.eqb_refl.
Qed.

Lemma leases_reachable_inv s : leases_reachable s -> leases_inv s.
Proof.
  induction 1 as [|s s' _ IH Hs]; [|by eapply lease_step_inv].
  split; simpl; try apply NoDup_nil_2. intros p Hp. by apply elem_of_nil in Hp.
Qed.

(** A lease lasts, and goes when its time is over. In any table the
    operations lead to, the sweep keeps a current active lease as it is, keeps a
    client's row (marked expired if its time is over) until the reclaim time has
    passed, and otherwise deletes it and reports it, exactly once; what is deleted is
    gone from the table, so that its address is free again. *)
Theorem sweep_exact now reclaim s l :
  leases_reachable s -> is_u 63 reclaim -> l ∈ dhcp_leases s ->
  lease_state l = "active" \/ lease_state l = "expired" \/ lease_state l = "released" ->
  let '(swept, s') := sweep_expired_leases now reclaim s in
  (lease_state l = "active" -> now <= lease_end l -> l ∈ dhcp_leases s') /\
  (now <= lease_end l + reclaim -> get_lease_by_mac (lease_mac l) s' = Some (mark_expired now l)) /\
  (lease_end l + reclaim < now ->
     mark_expired now l ∈ swept /\ get_lease_by_mac (lease_mac l) s' = None /\ get_lease_by_ip (lease_ip l) s' = None).
Proof.
  intros Hr Hu Hl Hst. apply leases_reachable_inv in Hr as [H1 H2 _ _ _].
  unfold sweep_expired_leases. rewrite as_i_id by (unfold is_u in Hu; lia). simpl.
  set (m := mark_expired now). set (ls' := List.filter _ _).
  assert (forall x, lease_mac (m x) = lease_mac x /\ lease_ip (m x) = lease_ip x /\ lease_end (m x) = lease_end x) as Hm.
  { intros x. unfold m, mark_expired. by destruct (_ && _). }
  assert (forall x, x ∈ ls' <-> exists y, y ∈ dhcp_leases s /\ x = m y /\ reclaimable reclaim now (m y) = false) as Hin.
  { intros x. unfold ls'. rewrite elem_filter_bool, list_elem_of_fmap, negb_true_iff. naive_solver. }
  assert (forall (x : DhcpLease), x ∈ dhcp_leases s -> lease_mac x = lease_mac l \/ lease_ip x = lease_ip l -> x = l) as Huniq.
  { intros x Hx [E|E]; [by apply (NoDup_fmap_same lease_mac (dhcp_leases s))|
                        by apply (NoDup_fmap_same lease_ip (dhcp_leases s))]. }
  assert (reclaimable reclaim now (m l) = (lease_end l + reclaim <? now)) as Hrec.
  { unfold reclaimable. destruct (Hm l) as (_ & _ & ->). unfold is_u in Hu. unfold m, mark_expired.
    destruct Hst as [E|[E|E]]; rewrite E; simpl.
    - destruct (Z.ltb_spec (lease_end l) now); simpl; [done|rewrite E; simpl].
      destruct (Z.ltb_spec (lease_end l + reclaim) now); [lia|done].
    - by rewrite E.
    - by rewrite E. }
  split_and!.
  - intros Ha Hn. apply Hin. exists l. unfold is_u in Hu. rewrite Hrec. split_and!; [done| |by apply Z.ltb_ge; lia].
    unfold m, mark_expired. rewrite (proj2 (Z.ltb_ge _ _) Hn), andb_false_r. done.
  - intros Hn. apply find_key_Some; [|apply Hm|].
    + apply Hin. exists l. rewrite Hrec. split_and!; [done|done|by apply Z.ltb_ge].
    + intros x (y & Hy & -> & _)%Hin E. f_equal. apply Huniq; [done|left]. by destruct (Hm y) as [<- _].
  - intros Hlt%Z.ltb_lt.
    assert (forall x, x ∈ ls' -> lease_mac x <> lease_mac l /\ lease_ip x <> lease_ip l) as Hgone.
    { intros x (y & Hy & -> & Hf)%Hin. destruct (Hm y) as (E1 & E2 & _). rewrite E1, E2.
      split; intros E; rewrite (Huniq y Hy) in Hf by tauto; congruence. }
    split_and!.
    + apply elem_filter_bool. split; [by apply list_elem_of_fmap_2|by rewrite Hrec].
    + apply find_key_None. intros x Hx. by apply Hgone.
    + apply find_key_None. intros x Hx. by apply Hgone.
Qed.

(** * Samples *)

Definition home_pool : DhcpPool := mkPool 0 "home" "10.0.0.10" "10.0.0.12" None "255.255.255.0" None.
Definition lease_of (mac ip : string) (start : Z) : DhcpLease := mkLease mac ip "home" None start 3600 "active".
Definition home_table : LeaseStore :=
  create_lease (lease_of "b" "10.0.0.11" 500) (create_lease (lease_of "a" "10.0.0.10" 0)
    (add_dhcp_pool home_pool empty_leases).2).

Lemma home_table_reachable : leases_reachable home_table.
Proof.
  eapply lr_step; [|apply ls_create]. eapply lr_step; [|apply ls_create].
  eapply lr_step; [apply lr_empty|apply ls_add_pool].
Qed.

Lemma allocation_exact_witness :
  Forall pool_wf (list_dhcp_pools (Some "home") home_table) /\ exists r, allocate_ip "home" "c" home_table = Ok r.
Proof.
  assert (Forall pool_wf (list_dhcp_pools (Some "home") home_table)) as Hw.
  { apply Forall_singleton. exists 167772170, 167772172. by split_and!. }
  split; [exact Hw|]. destruct (allocation_exact "home" "c" home_table Hw) as (r & Hr & _). exists r. exact Hr.
Defined.

Example allocates_the_next : allocate_ip "home" "c" home_table = Ok (Some "10.0.0.12").
Proof. vm_compute. reflexivity. Qed.

Lemma sweep_exact_witness :
  get_lease_by_ip "10.0.0.10" (sweep_expired_leases 3700 60 home_table).2 = None.
Proof.
  refine (proj2 (proj2 (proj2 (proj2 (sweep_exact 3700 60 home_table (lease_of "a" "10.0.0.10" 0)
    home_table_reachable _ _ (or_introl eq_refl))) _))).
  - unfold is_u. lia.
  - by left.
  - vm_compute. reflexivity.
Defined.

(** A range whose bounds are swapped is not empty: addresses above both are given
    out, outside of the pool. *)
Theorem reversed_pool_overruns :
  let s := (add_dhcp_pool (mkPool 0 "home" "10.0.0.12" "10.0.0.10" None "255.255.255.0" None) empty_leases).2 in
  let s := create_lease (lease_of "a" "10.0.0.12" 0) s in
  allocate_ip "home" "b" s = Ok (Some "10.0.0.13").
Proof. vm_compute. reflexivity. Qed.
