(* ===== verification/Dhcp.v ===== *)
(** The DHCP server ([src/src/dhcp.rs]): the handling of each message over the lease
    tables, the network scopes and the response cache. A DHCP message is the part of
    it the server reads and writes, its options a map from their codes. [now] is the
    instant in nanoseconds, [wall] the wall clock in seconds. *)

From S2P Require Import Prelude RustStr Names Ip Records DnsCache Scopes Leases.
From stdpp Require Import base gmap sets list option strings.
From Stdlib Require Import ZArith Lia Bool Ascii.

Open Scope Z_scope.
Local Open Scope rolodex_scope.

(** * Messages *)

Inductive MessageType := Discover | Offer | Request | Decline | Ack | Nak | Release | Inform | OtherType (code : Z).

Inductive DhcpOption :=
| OptMessageType (t : MessageType)
| OptRequestedIpAddress (ip : Z)
| OptHostname (name : string)
| OptServerIdentifier (ip : Z)
| OptSubnetMask (mask : Z)
| OptRouter (ips : list Z)
| OptDomainNameServer (ips : list Z)
| OptAddressLeaseTime (secs : Z)
| OptUnknown (code : Z) (data : list Z).

(** The option codes of RFC 2132. *)
Definition OC_SubnetMask : Z := 1.
Definition OC_Router : Z := 3.
Definition OC_DomainNameServer : Z := 6.
Definition OC_Hostname : Z := 12.
Definition OC_RequestedIpAddress : Z := 50.
Definition OC_AddressLeaseTime : Z := 51.
Definition OC_MessageType : Z := 53.
Definition OC_ServerIdentifier : Z := 54.

Definition option_code (o : DhcpOption) : Z :=
  match o with
  | OptMessageType _ => OC_MessageType
  | OptRequestedIpAddress _ => OC_RequestedIpAddress
  | OptHostname _ => OC_Hostname
  | OptServerIdentifier _ => OC_ServerIdentifier
  | OptSubnetMask _ => OC_SubnetMask
  | OptRouter _ => OC_Router
  | OptDomainNameServer _ => OC_DomainNameServer
  | OptAddressLeaseTime _ => OC_AddressLeaseTime
  | OptUnknown code _ => code
  end.

Record DhcpMessage := mkDhcp {
  boot_request : bool;
  xid : Z;
  dhcp_flags : Z;
  ciaddr : Z;
  yiaddr : Z;
  giaddr : Z;
  chaddr : list Z;
  opts : gmap Z DhcpOption;
}.

Definition insert_opt (o : DhcpOption) (m : DhcpMessage) : DhcpMessage :=
  mkDhcp (boot_request m) (xid m) (dhcp_flags m) (ciaddr m) (yiaddr m) (giaddr m) (chaddr m)
    (<[option_code o := o]> (opts m)).

Definition message_type (m : DhcpMessage) : option MessageType :=
  match opts m !! OC_MessageType with Some (OptMessageType t) => Some t | _ => None end.

Definition hostname_of (m : DhcpMessage) : option string :=
  match opts m !! OC_Hostname with Some (OptHostname h) => Some h | _ => None end.

Definition requested_ip (m : DhcpMessage) : Z :=
  match opts m !! OC_RequestedIpAddress with Some (OptRequestedIpAddress ip) => ip | _ => ciaddr m end.

(** [Flags::broadcast]: the top bit. *)
Definition broadcast (flags : Z) : bool := Z.testbit flags 15.

(** * Server *)

Record DhcpRuntimeConfig := mkDhcpConfig {
  default_lease_duration : Z;
  reclaim_timeout : Z;
  sweep_interval : Z;
  tld : string;
}.

(** The part of the database and of the DNS server it works on. *)
Record DhcpState := mkDhcpState {
  ds_leases : LeaseStore;
  ds_scopes : ScopeStore;
  ds_cache : option DnsCache.t;
}.

Definition set_ds_leases (l : LeaseStore) (s : DhcpState) : DhcpState := mkDhcpState l (ds_scopes s) (ds_cache s).
Definition set_ds_scopes (x : ScopeStore) (s : DhcpState) : DhcpState := mkDhcpState (ds_leases s) x (ds_cache s).
Definition flush_cache (s : DhcpState) : DhcpState :=
  mkDhcpState (ds_leases s) (ds_scopes s) (DnsCache.flush <$> ds_cache s).

Definition hex2 (b : Z) : string :=
  String (digit_char (Z.shiftr b 4)) (String (digit_char (Z.land b 15)) "").

Definition format_mac (bytes : list Z) : string := str_join ":" (hex2 <$> take 6 bytes).

Definition ip_in_range (ip start end_ : string) : bool :=
  match parse_v4 ip, parse_v4 start, parse_v4 end_ with
  | Some ip, Some start, Some end_ => (start <=? ip) && (ip <=? end_)
  | _, _, _ => false
  end.

Definition is_alphanumeric (c : ascii) : bool :=
  let n := nat_of_ascii c in
  ((48 <=? n) && (n <=? 57) || (65 <=? n) && (n <=? 90) || (97 <=? n) && (n <=? 122))%nat.

Definition label_char (c : ascii) : bool := is_alphanumeric c || Ascii.eqb c "-".

Definition valid_hostname_label (hostname : string) : option string :=
  let trimmed := str_trim hostname in
  if (trimmed =? "")%string || (63 <? String.length trimmed)%nat then None
  else if negb (str_forall label_char trimmed) then None
  else if starts_with "-" trimmed || ends_with "-" trimmed then None
  else Some (to_lowercase trimmed).

Definition build_reply (request : DhcpMessage) (t : MessageType) (offered_ip : Z) : DhcpMessage :=
  insert_opt (OptServerIdentifier 0) (insert_opt (OptMessageType t)
    (mkDhcp false (xid request) (dhcp_flags request) 0 offered_ip (giaddr request) (chaddr request) ∅)).

Definition add_pool_options (pool : DhcpPool) (lease_duration : Z) (reply : DhcpMessage) : DhcpMessage :=
  let reply := match parse_v4 (pool_subnet_mask pool) with
               | Some m => insert_opt (OptSubnetMask m) reply | None => reply end in
  let reply := match pool_gateway pool ≫= parse_v4 with
               | Some gw => insert_opt (OptRouter [gw]) reply | None => reply end in
  let reply := match pool_dns_servers pool with
               | Some dns =>
                   match omap (fun s => parse_v4 (str_trim s)) (split_on "," dns) with
                   | [] => reply
                   | ips => insert_opt (OptDomainNameServer ips) reply
                   end
               | None => reply end in
  insert_opt (OptAddressLeaseTime (as_u 32 lease_duration)) reply.

Definition add_cert_options (scope_name : string) (s : LeaseStore) (reply : DhcpMessage) : DhcpMessage :=
  foldl (fun r o => insert_opt (OptUnknown (as_u 8 (co_code o)) (co_data o)) r) reply
    (list_dhcp_cert_options scope_name s).

(** Where a reply goes. *)
Definition reply_destination (reply : DhcpMessage) (src : SocketAddr) : SocketAddr :=
  if negb (giaddr reply =? 0) then mkSocket (V4 (giaddr reply)) 67
  else if (ip_bits (so_ip src) =? 0) || broadcast (dhcp_flags reply) then mkSocket (V4 u32_max) 68
  else mkSocket (so_ip src) 68.

Section Server.
Context (cfg : DhcpRuntimeConfig).

Definition fqdn_of (label : string) : string := label +:+ ".lan." +:+ tld cfg +:+ ".".

Definition register_dns_hostname (hostname ip scope_name : string) (ttl : Z) (s : DhcpState) : DhcpState :=
  match valid_hostname_label hostname with
  | None => s
  | Some label =>
      let fqdn := fqdn_of label in
      let sc := (add_scoped_record scope_name (mkRecord None fqdn A ip ttl 0) (ds_scopes s)).2 in
      let sc := match parse_v4 ip with
                | Some addr =>
                    (add_scoped_record scope_name (mkRecord None (reverse_ptr_name (V4 addr)) PTR fqdn ttl 0) sc).2
                | None => sc
                end in
      flush_cache (set_ds_scopes sc s)
  end.

Definition unregister_dns_hostname (hostname ip scope_name : string) (s : DhcpState) : DhcpState :=
  match valid_hostname_label hostname with
  | None => s
  | Some label =>
      let sc := (remove_scoped_records scope_name (fqdn_of label) (Some A) "" (ds_scopes s)).2 in
      let sc := match parse_v4 ip with
                | Some addr => (remove_scoped_records scope_name (reverse_ptr_name (V4 addr)) (Some PTR) "" sc).2
                | None => sc
                end in
      flush_cache (set_ds_scopes sc s)
  end.

Fixpoint allocate_from (pools : list DhcpPool) (mac : string) (s : LeaseStore) : option (string * string) :=
  match pools with
  | [] => None
  | p :: pools' =>
      match allocate_ip (pool_scope p) mac s with
      | Ok (Some ip) => Some (ip, pool_scope p)
      | _ => allocate_from pools' mac s
      end
  end.

Definition handle_discover (msg : DhcpMessage) (mac : string) (s : DhcpState) : result (option DhcpMessage) string :=
  let db := ds_leases s in
  match list_dhcp_pools None db with
  | [] => Ok None
  | pools =>
      match match get_lease_by_mac mac db with
            | Some lease => Some (lease_ip lease, lease_scope lease)
            | None => allocate_from pools mac db
            end with
      | None => Ok None
      | Some (ip, scope_name) =>
          match parse_v4 ip with
          | None => Err "invalid allocated IP"
          | Some offered_ip =>
              match find (fun p => (pool_scope p =? scope_name)%string) pools with
              | None => Err "pool not found for scope"
              | Some pool =>
                  Ok (Some (add_cert_options scope_name db
                    (add_pool_options pool (default_lease_duration cfg) (build_reply msg Offer offered_ip))))
              end
          end
      end
  end.

(** The scope a request is granted in. *)
Definition request_scope (ip_str mac : string) (db : LeaseStore) : option string :=
  match get_lease_by_mac mac db with
  | Some lease => Some (lease_scope lease)
  | None => pool_scope <$> find (fun p => ip_in_range ip_str (range_start p) (range_end p)) (list_dhcp_pools None db)
  end.

Definition handle_request (now wall : Z) (msg : DhcpMessage) (mac : string) (s : DhcpState)
  : result (option DhcpMessage) string * DhcpState :=
  let ip := requested_ip msg in
  if ip =? 0 then (Ok None, s)
  else
    let ip_str := show_v4 ip in
    match request_scope ip_str mac (ds_leases s) with
    | None => (Err "requested IP not in any pool", s)
    | Some scope_name =>
        let hostname := hostname_of msg in
        let duration := as_i 64 (default_lease_duration cfg) in
        let s := set_ds_leases (create_lease (mkLease mac ip_str scope_name hostname wall duration "active")
                   (ds_leases s)) s in
        let s := set_ds_scopes (join_network now wall (mkAssoc ip_str scope_name (as_u 64 duration)) (ds_scopes s)) s in
        let s := match hostname with
                 | Some host => register_dns_hostname host ip_str scope_name (as_u 32 duration) s
                 | None => s
                 end in
        let reply := build_reply msg Ack ip in
        let reply := match list_dhcp_pools (Some scope_name) (ds_leases s) with
                     | p :: _ => add_pool_options p (default_lease_duration cfg) reply
                     | [] => reply
                     end in
        (Ok (Some (add_cert_options scope_name (ds_leases s) reply)), s)
    end.

Definition handle_release (mac : string) (s : DhcpState) : DhcpState :=
  let (released, db) := release_lease mac (ds_leases s) in
  let s := set_ds_leases db s in
  match released with
  | None => s
  | Some lease =>
      let s := match lease_hostname lease with
               | Some host => unregister_dns_hostname host (lease_ip lease) (lease_scope lease) s
               | None => s
               end in
      flush_cache (set_ds_scopes (leave_network (lease_ip lease) (ds_scopes s)).2 s)
  end.

Definition handle_decline (mac : string) (s : DhcpState) : DhcpState :=
  set_ds_leases (release_lease mac (ds_leases s)).2 s.

Definition cleanup_lease (lease : DhcpLease) (s : DhcpState) : DhcpState :=
  let s := match lease_hostname lease with
           | Some host => unregister_dns_hostname host (lease_ip lease) (lease_scope lease) s
           | None => s
           end in
  flush_cache (set_ds_scopes (leave_network (lease_ip lease) (ds_scopes s)).2 s).

(** One turn of [run_lease_sweep]. *)
Definition lease_sweep (wall : Z) (s : DhcpState) : DhcpState :=
  let (swept, db) := sweep_expired_leases wall (reclaim_timeout cfg) (ds_leases s) in
  foldl (fun s lease => cleanup_lease lease s) (set_ds_leases db s) swept.

(** [handle_message]: the reply sent, if any, and its destination. An error is logged
    and nothing is sent. *)
Definition handle_message (now wall : Z) (msg : DhcpMessage) (src : SocketAddr) (s : DhcpState)
  : option (DhcpMessage * SocketAddr) * DhcpState :=
  if negb (boot_request msg) then (None, s)
  else
    let mac := format_mac (chaddr msg) in
    let '(reply, s) :=
      match message_type msg with
      | Some Discover => (handle_discover msg mac s, s)
      | Some Request => handle_request now wall msg mac s
      | Some Release => (Ok None, handle_release mac s)
      | Some Decline => (Ok None, handle_decline mac s)
      | _ => (Ok None, s)
      end in
    match reply with
    | Ok (Some reply) => (Some (reply, reply_destination reply src), s)
    | _ => (None, s)
    end.

End Server.

(** * Hostnames *)

(** A label that cannot leave its place: letters, digits and hyphens, of a length the
    wire allows. *)
Definition plain_label (l : string) : Prop :=
  l <> "" /\ (String.length l <= 63)%nat /\ str_forall label_char l = true /\ to_lowercase l = l.

Lemma label_char_lower c : label_char c = true -> label_char (lower_char c) = true.
Proof. destruct c as [[] [] [] [] [] [] [] []]; vm_compute; done. Qed.

Lemma valid_hostname_plain h l : valid_hostname_label h = Some l -> plain_label l.
Proof.
  unfold valid_hostname_label. set (t := str_trim h).
  destruct (String.eqb_spec t "") as [|Hne]; simpl; [done|].
  destruct (Nat.ltb_spec 63 (String.length t)) as [|Hlen]; simpl; [done|].
  destruct (str_forall label_char t) eqn:Ec; simpl; [|done].
  destruct (_ || _); [done|]. intros [= <-]. split_and!.
  - destruct t; [done|]. done.
  - unfold to_lowercase. by rewrite str_map_length.
  - clear -Ec. induction t as [|c t IH]; [done|]. simpl in *. apply andb_true_iff in Ec as [Hc Ht].
    apply andb_true_iff. split; [by apply label_char_lower|by apply IH].
  - apply to_lowercase_idem.
Qed.

Lemma plain_label_one_label l : plain_label l -> free_of "." l = true /\ free_of "*" l = true.
Proof.
  intros (_ & _ & H & _). split; (eapply str_forall_impl; [|exact H]); intros [[] [] [] [] [] [] [] []]; vm_compute; done.
Qed.

(** * What an acknowledged request leaves *)

Lemma push_scoped_keeps k k' r c x :
  x ∈ default [] (c !! k) -> x ∈ default [] (push_scoped k' r c !! k).
Proof.
  intros H. unfold push_scoped. destruct (decide (k = k')) as [<-|Hk].
  - rewrite lookup_insert_eq. simpl. set_solver.
  - by rewrite lookup_insert_ne.
Qed.

Lemma push_scoped_adds k r c : r ∈ default [] (push_scoped k r c !! k).
Proof. unfold push_scoped. rewrite lookup_insert_eq. simpl. set_solver. Qed.

Section Answers.
Context (cfg : DhcpRuntimeConfig) `{MI : !MapIter}.

(** A scope answers with a record of this value. *)
Definition scope_answers (sc : ScopeStore) (scope name : string) (kind : RecordKind) (value : string) : Prop :=
  exists r, r ∈ lookup_scoped sc scope name (Some kind) /\ r_value r = value.

Lemma exact_answers sc scope name kind value :
  (exists r, r ∈ lookup_scoped_no_wildcard sc scope name (Some kind) /\ r_value r = value) ->
  scope_answers sc scope name kind value.
Proof.
  intros (r & Hr & Hv). exists r. split; [|done]. unfold lookup_scoped_no_wildcard in Hr. unfold lookup_scoped.
  destruct (lookup_scoped_exact _ _ _ _); [by apply elem_of_nil in Hr|done].
Qed.

Lemma added_keeps scope rec scope' name kind r sc :
  r ∈ lookup_scoped_no_wildcard sc scope' name (Some kind) ->
  r ∈ lookup_scoped_no_wildcard (add_scoped_record scope rec sc).2 scope' name (Some kind).
Proof. apply push_scoped_keeps. Qed.

Lemma added_exact scope rec sc :
  exists r, r ∈ lookup_scoped_no_wildcard (add_scoped_record scope rec sc).2 scope (r_name rec) (Some (r_type rec)) /\
    r_value r = r_value rec.
Proof. eexists. split; [apply push_scoped_adds|done]. Qed.

Lemma registered_answers host ip scope ttl label addr s :
  valid_hostname_label host = Some label -> parse_v4 ip = Some addr ->
  let sc := ds_scopes (register_dns_hostname cfg host ip scope ttl s) in
  scope_answers sc scope (fqdn_of cfg label) A ip /\
  scope_answers sc scope (reverse_ptr_name (V4 addr)) PTR (fqdn_of cfg label).
Proof.
  intros Hl Hp. unfold register_dns_hostname. rewrite Hl, Hp. cbn [ds_scopes flush_cache set_ds_scopes]. split.
  - destruct (added_exact scope (mkRecord None (fqdn_of cfg label) A ip ttl 0) (ds_scopes s)) as (r & Hr & Hv).
    apply exact_answers. exists r. split; [by apply added_keeps|done].
  - apply exact_answers, (added_exact scope (mkRecord None (reverse_ptr_name (V4 addr)) PTR (fqdn_of cfg label) ttl 0)).
Qed.

Lemma register_frame host ip scope ttl s :
  let s' := register_dns_hostname cfg host ip scope ttl s in
  ds_leases s' = ds_leases s /\ association_cache (ds_scopes s') = association_cache (ds_scopes s).
Proof.
  unfold register_dns_hostname. destruct (valid_hostname_label host); [|done].
  by destruct (parse_v4 ip).
Qed.

Lemma create_lease_found lease db : get_lease_by_mac (lease_mac lease) (create_lease lease db) = Some lease.
Proof.
  apply find_key_Some; [apply elem_of_app; right; by left|done|].
  intros y [[Hy Hn]%elem_filter_bool| ->%list_elem_of_singleton]%elem_of_app E; [|done].
  by rewrite E, String.eqb_refl in Hn.
Qed.

Lemma yiaddr_cert_options scope db r : yiaddr (add_cert_options scope db r) = yiaddr r.
Proof.
  unfold add_cert_options. revert r. induction (list_dhcp_cert_options scope db) as [|o l IH]; intros r; [done|].
  simpl. by rewrite IH.
Qed.

Lemma yiaddr_pool_options p d r : yiaddr (add_pool_options p d r) = yiaddr r.
Proof.
  unfold add_pool_options. destruct (parse_v4 (pool_subnet_mask p)), (pool_gateway p ≫= parse_v4),
    (pool_dns_servers p) as [dns|]; try done; by destruct (omap _ (split_on "," dns)).
Qed.

(** An acknowledged client is known everywhere. When a request is
    acknowledged, for the address it asked for, the client has the one active lease of
    that address, queries from it are in its scope for the length of the lease, and if
    it named itself validly the scope answers for its name with the address and for
    the address with its name. *)
Theorem ack_makes_client_known now wall msg mac s reply s' :
  is_u 32 (requested_ip msg) -> is_u 31 (default_lease_duration cfg) ->
  handle_request cfg now wall msg mac s = (Ok (Some reply), s') ->
  let ip := show_v4 (requested_ip msg) in
  exists scope, request_scope ip mac (ds_leases s) = Some scope /\ yiaddr reply = requested_ip msg /\
    get_lease_by_mac mac (ds_leases s') =
      Some (mkLease mac ip scope (hostname_of msg) wall (default_lease_duration cfg) "active") /\
    (forall l, l ∈ dhcp_leases (ds_leases s') -> lease_ip l = ip -> lease_mac l = mac) /\
    (forall t, t < now + from_secs (default_lease_duration cfg) ->
       (get_scope_for_ip t ip (ds_scopes s')).1 = Some scope) /\
    (forall host label, hostname_of msg = Some host -> valid_hostname_label host = Some label ->
       scope_answers (ds_scopes s') scope (fqdn_of cfg label) A ip /\
       scope_answers (ds_scopes s') scope (reverse_ptr_name (V4 (requested_ip msg))) PTR (fqdn_of cfg label)).
Proof.
  intros Hip Hd H ip. unfold handle_request in H. destruct (requested_ip msg =? 0); [done|]. fold ip in H.
  destruct (request_scope ip mac (ds_leases s)) as [scope|] eqn:Es; [|done].
  rewrite as_i_id in H by (unfold is_u in Hd; lia). rewrite !as_u_id in H by (unfold is_u in *; lia).
  set (lease := mkLease mac ip scope (hostname_of msg) wall (default_lease_duration cfg) "active") in *.
  set (s1 := set_ds_scopes _ _) in H. set (s2 := match hostname_of msg with Some _ => _ | None => s1 end) in H.
  assert (ds_leases s2 = create_lease lease (ds_leases s) /\
    association_cache (ds_scopes s2) = association_cache (ds_scopes s1)) as [El Ea].
  { unfold s2. destruct (hostname_of msg) as [host|]; [|done].
    match goal with |- context [register_dns_hostname _ _ _ _ ?t _] => by destruct (register_frame host ip scope t s1) as [-> ->] end. }
  injection H as Hr <-. exists scope. split_and!; [done| | | | |].
  - rewrite <- Hr, yiaddr_cert_options.
    destruct (List.filter _ _) as [|p ps]; [done|apply yiaddr_pool_options].
  - rewrite El. apply (create_lease_found lease).
  - rewrite El. intros l [[_ Hn]%elem_filter_bool| ->%list_elem_of_singleton]%elem_of_app E; [|done].
    simpl in Hn. rewrite E, String.eqb_refl, orb_true_r in Hn. done.
  - intros t Ht. unfold get_scope_for_ip. rewrite Ea. simpl. rewrite lookup_insert_eq. simpl.
    by rewrite (proj2 (Z.ltb_lt _ _) Ht).
  - intros host label Eh Hl. unfold s2. rewrite Eh. apply registered_answers; [done|].
    by apply show_v4_parse.
Qed.

End Answers.

(** * Offers *)

Lemma scope_pools_wf db scope : Forall pool_wf (dhcp_pools db) -> Forall pool_wf (list_dhcp_pools (Some scope) db).
Proof.
  rewrite !Forall_forall. intros H p [Hp _]%elem_filter_bool. by apply H.
Qed.

(** What an allocation for a client without a lease returns, from [allocate_in_spec]. *)
Lemma allocate_fresh scope mac db :
  Forall pool_wf (dhcp_pools db) -> get_lease_by_mac mac db = None ->
  match allocate_ip scope mac db with
  | Ok (Some ip) => exists p a, p ∈ dhcp_pools db /\ pool_scope p = scope /\ in_pool p a /\ ip = show_v4 a /\ ~ taken db scope ip
  | Ok None => forall q b, q ∈ dhcp_pools db -> pool_scope q = scope -> in_pool q b -> taken db scope (show_v4 b)
  | Err _ => False
  end.
Proof.
  intros Hw Hn. unfold allocate_ip. rewrite Hn.
  pose proof (leased_ips_taken scope db) as Ht.
  pose proof (allocate_in_spec (leased_ips scope db) _ (scope_pools_wf db scope Hw)) as H.
  destruct (allocate_in _ _) as [[ip|]|]; [| |done].
  - destruct H as (before & p & after & a & H1 & H2 & H3 & H4 & _). exists p, a.
    assert (p ∈ list_dhcp_pools (Some scope) db) as [Hp Hs%String.eqb_eq]%elem_filter_bool.
    { rewrite H1. set_solver. }
    split_and!; try done. by rewrite <- Ht.
  - intros q b Hq Hs Hb. apply Ht, (H q); [|done]. apply elem_filter_bool. split; [done|by apply String.eqb_eq].
Qed.

Lemma allocate_from_fresh mac db pools :
  Forall pool_wf (dhcp_pools db) -> get_lease_by_mac mac db = None -> pools ⊆ dhcp_pools db ->
  match allocate_from pools mac db with
  | Some (ip, scope) => exists p a, p ∈ dhcp_pools db /\ pool_scope p = scope /\ in_pool p a /\ ip = show_v4 a /\ ~ taken db scope ip
  | None => forall q b, q ∈ pools -> in_pool q b -> taken db (pool_scope q) (show_v4 b)
  end.
Proof.
  intros Hw Hn. induction pools as [|p pools IH]; intros Hsub; simpl.
  { intros q b Hq. by apply elem_of_nil in Hq. }
  pose proof (allocate_fresh (pool_scope p) mac db Hw Hn) as Ha. specialize (IH ltac:(set_solver)).
  destruct (allocate_ip (pool_scope p) mac db) as [[ip|]|]; [done| |done].
  destruct (allocate_from pools mac db) as [[ip scope]|]; [done|].
  intros q b [->|Hq]%elem_of_cons Hb; [|by apply IH]. apply (Ha p); [|done|done]. set_solver.
Qed.

(** An offer is the client's own address, or a free one. With pools in order,
    a client whose lease is in the table is offered the address of that lease; any
    other is offered an address of some pool that is not leased in the pool's scope,
    and gets no offer only if every address of every pool is leased there. *)
Theorem discover_offers_free cfg msg mac s :
  Forall pool_wf (dhcp_pools (ds_leases s)) ->
  (forall reply, handle_discover cfg msg mac s = Ok (Some reply) ->
     match get_lease_by_mac mac (ds_leases s) with
     | Some l => parse_v4 (lease_ip l) = Some (yiaddr reply)
     | None => exists p, p ∈ dhcp_pools (ds_leases s) /\ in_pool p (yiaddr reply) /\
                         ~ taken (ds_leases s) (pool_scope p) (show_v4 (yiaddr reply))
     end) /\
  (get_lease_by_mac mac (ds_leases s) = None -> handle_discover cfg msg mac s = Ok None ->
     forall p b, p ∈ dhcp_pools (ds_leases s) -> in_pool p b -> taken (ds_leases s) (pool_scope p) (show_v4 b)) /\
  (get_lease_by_mac mac (ds_leases s) = None -> forall e, handle_discover cfg msg mac s <> Err e).
Proof.
  intros Hw. unfold handle_discover. cbn [list_dhcp_pools]. destruct (dhcp_pools (ds_leases s)) as [|p0 ps] eqn:Ep.
  { split_and!; [done| |done]. intros _ _ p b Hp. by apply elem_of_nil in Hp. }
  rewrite <- Ep in *.
  assert (forall p a, in_pool p a -> parse_v4 (show_v4 a) = Some a) as Hshow.
  { intros p a (lo & hi & Hlo & Hhi & Hr). apply show_v4_parse.
    apply parse_v4_bound in Hlo, Hhi. unfold is_u in *. lia. }
  destruct (get_lease_by_mac mac (ds_leases s)) as [l|] eqn:El.
  { split_and!; [|done|done]. intros reply. destruct (parse_v4 (lease_ip l)) as [a|] eqn:Ea; [|done].
    destruct (find _ _); [|done]. intros [= <-]. by rewrite yiaddr_cert_options, yiaddr_pool_options. }
  pose proof (allocate_from_fresh mac (ds_leases s) (dhcp_pools (ds_leases s)) Hw El ltac:(done)) as Ha.
  destruct (allocate_from _ mac (ds_leases s)) as [[ip scope]|]; [|by split_and!].
  destruct Ha as (p & a & Hp & <- & Hin & -> & Hnt). rewrite (Hshow p a Hin).
  destruct (find (fun q => (pool_scope q =? pool_scope p)%string) (dhcp_pools (ds_leases s))) as [q|] eqn:Ef.
  - split_and!; [|done|done]. intros reply [= <-]. exists p.
    rewrite yiaddr_cert_options, yiaddr_pool_options. by split_and!.
  - exfalso. apply list_elem_of_In in Hp. apply (find_none _ _ Ef) in Hp. by rewrite String.eqb_refl in Hp.
Qed.

(** * A device cannot name itself out of its place *)

Definition confined (cfg : DhcpRuntimeConfig) (rec : DnsRecord) : Prop :=
  exists label, plain_label label /\
    ((r_type rec = A /\ r_name rec = normalize_name (fqdn_of cfg label)) \/
     (r_type rec = PTR /\ r_value rec = fqdn_of cfg label /\
      exists addr, r_name rec = normalize_name (reverse_ptr_name (V4 addr)))).

Definition only_confined (cfg : DhcpRuntimeConfig) (s s' : DhcpState) : Prop :=
  forall row, row ∈ scoped_dns_records (ds_scopes s') ->
    row ∈ scoped_dns_records (ds_scopes s) \/ confined cfg row.2.

Lemma only_confined_refl cfg s : only_confined cfg s s.
Proof. by left. Qed.

Lemma only_confined_trans cfg s1 s2 s3 :
  only_confined cfg s1 s2 -> only_confined cfg s2 s3 -> only_confined cfg s1 s3.
Proof. intros H1 H2 row [H|H]%H2; [by apply H1|by right]. Qed.

Lemma register_confined cfg host ip scope ttl s :
  only_confined cfg s (register_dns_hostname cfg host ip scope ttl s).
Proof.
  unfold register_dns_hostname. destruct (valid_hostname_label host) as [label|] eqn:El; [|apply only_confined_refl].
  apply valid_hostname_plain in El. intros row. cbn [ds_scopes flush_cache set_ds_scopes].
  destruct (parse_v4 ip) as [addr|]; simpl.
  - intros [[H| ->%list_elem_of_singleton]%elem_of_app| ->%list_elem_of_singleton]%elem_of_app;
      [by left|right; exists label; split; [done|by left]|right; exists label; split; [done|right]].
    simpl. split_and!; [done|done|by eexists].
  - intros [H| ->%list_elem_of_singleton]%elem_of_app; [by left|]. right. exists label. split; [done|by left].
Qed.

Lemma unregister_confined cfg host ip scope s :
  only_confined cfg s (unregister_dns_hostname cfg host ip scope s).
Proof.
  unfold unregister_dns_hostname. destruct (valid_hostname_label host) as [label|]; [|apply only_confined_refl].
  intros row. cbn [ds_scopes flush_cache set_ds_scopes]. destruct (parse_v4 ip); simpl.
  - intros [[H _]%elem_filter_bool _]%elem_filter_bool. by left.
  - intros [H _]%elem_filter_bool. by left.
Qed.

Lemma cleanup_confined cfg lease s : only_confined cfg s (cleanup_lease cfg lease s).
Proof.
  unfold cleanup_lease. destruct (lease_hostname lease); [|by left].
  eapply only_confined_trans; [apply unregister_confined|]. intros row Hrow. left. exact Hrow.
Qed.

Lemma release_confined cfg mac s : only_confined cfg s (handle_release cfg mac s).
Proof.
  unfold handle_release. destruct (release_lease mac (ds_leases s)) as [[lease|] db]; [|intros row Hrow; by left].
  eapply (only_confined_trans _ _ (set_ds_leases db s)); [intros row Hrow; by left|].
  exact (cleanup_confined cfg lease (set_ds_leases db s)).
Qed.

Lemma request_confined cfg now wall msg mac s : only_confined cfg s (handle_request cfg now wall msg mac s).2.
Proof.
  unfold handle_request. destruct (requested_ip msg =? 0); [apply only_confined_refl|].
  destruct (request_scope _ _ _) as [scope|]; [|apply only_confined_refl]. cbn [snd].
  destruct (hostname_of msg) as [host|]; [|intros row Hrow; by left].
  eapply only_confined_trans; [|apply register_confined]. intros row Hrow. by left.
Qed.

(** C37: a device cannot name itself out of its place. Whatever messages come,
    from whomever, and whenever leases are swept, the only records that appear in a
    scope are the address of a single plain label (letters, digits and hyphens, of at
    most 63 octets, neither a wildcard nor a name of several labels) directly under
    the [lan] zone of the configured domain, and a pointer from an IPv4 reverse name
    to such a name. *)
Theorem hostnames_confined cfg now wall msg src s :
  only_confined cfg s (handle_message cfg now wall msg src s).2 /\ only_confined cfg s (lease_sweep cfg wall s) /\
  forall rec, confined cfg rec -> exists label, free_of "." label = true /\ free_of "*" label = true /\
    (String.length label <= 63)%nat /\
    (r_name rec = normalize_name (label +:+ ".lan." +:+ tld cfg +:+ ".") \/ r_value rec = label +:+ ".lan." +:+ tld cfg +:+ ".").
Proof.
  split_and!.
  - unfold handle_message. destruct (boot_request msg); simpl; [|apply only_confined_refl].
    pose proof (request_confined cfg now wall msg (format_mac (chaddr msg)) s) as Hreq.
    destruct (message_type msg) as [[]|]; cbn [snd]; try apply only_confined_refl; try apply release_confined.
    + destruct (handle_discover _ _ _ _) as [[]|]; apply only_confined_refl.
    + destruct (handle_request _ _ _ _ _ _) as [[[]|] s']; exact Hreq.
    + intros row Hrow. by left.
  - unfold lease_sweep. destruct (sweep_expired_leases _ _ _) as [swept db].
    assert (forall l s', only_confined cfg s s' -> only_confined cfg s (foldl (fun s lease => cleanup_lease cfg lease s) s' l)) as H.
    { induction l as [|x l IH]; intros s' H; simpl; [done|]. apply IH.
      eapply only_confined_trans; [done|apply cleanup_confined]. }
    apply H. intros row Hrow. by left.
  - intros rec (label & Hl & H). exists label. destruct (plain_label_one_label label Hl) as [H1 H2].
    split_and!; [done|done|by destruct Hl as (_ & ? & _)|]. destruct H as [[_ H]|(_ & H & _)]; [by left|by right].
Qed.

(** * Where the code does other than it says *)

(** A request takes an address from whoever holds it. The address asked for is not
    compared with the leases: any client in the range of a pool, or with a lease of
    its own, is acknowledged for it, and the holder's lease is gone. *)
Theorem request_takes_over_lease cfg now wall msg mac victim s scope l :
  requested_ip msg <> 0 -> request_scope (show_v4 (requested_ip msg)) mac (ds_leases s) = Some scope ->
  leases_reachable (ds_leases s) -> mac <> victim ->
  get_lease_by_mac victim (ds_leases s) = Some l -> lease_ip l = show_v4 (requested_ip msg) ->
  let s' := (handle_request cfg now wall msg mac s).2 in
  get_lease_by_mac victim (ds_leases s') = None /\
  exists l', get_lease_by_mac mac (ds_leases s') = Some l' /\ lease_ip l' = lease_ip l.
Proof.
  intros Hip Hsc Hr Hne Hv El. apply leases_reachable_inv in Hr as [Hm _ _ _ _]. unfold handle_request.
  rewrite (proj2 (Z.eqb_neq _ _) Hip), Hsc. cbn [snd].
  set (lease := mkLease mac _ _ _ _ _ _). set (s1 := set_ds_scopes _ _).
  assert (ds_leases (match hostname_of msg with
    | Some host => register_dns_hostname cfg host (show_v4 (requested_ip msg)) scope
        (as_u 32 (as_i 64 (default_lease_duration cfg))) s1
    | None => s1 end) = create_lease lease (ds_leases s)) as ->.
  { destruct (hostname_of msg) as [host|]; [|done]. by rewrite (proj1 (register_frame cfg host _ _ _ s1)). }
  split; [|exists lease; split; [apply (create_lease_found lease)|done]].
  apply find_has_mac_Some in Hv as [Hin Hmac]. apply find_key_None.
  intros y [[Hy Hn]%elem_filter_bool| ->%list_elem_of_singleton]%elem_of_app E; [|done].
  assert (y = l) as -> by (apply (NoDup_fmap_same lease_mac (dhcp_leases (ds_leases s))); congruence).
  simpl in Hn. by rewrite El, String.eqb_refl, orb_true_r in Hn.
Qed.

(** A declined address is offered again to the client that declined it. *)
Theorem declined_offered_again cfg msg mac s l :
  get_lease_by_mac mac (ds_leases s) = Some l ->
  forall reply, handle_discover cfg msg mac (handle_decline mac s) = Ok (Some reply) ->
  parse_v4 (lease_ip l) = Some (yiaddr reply).
Proof.
  intros El reply.
  assert (exists l', get_lease_by_mac mac (ds_leases (handle_decline mac s)) = Some l' /\ lease_ip l' = lease_ip l)
    as (l' & El' & Hip).
  { unfold handle_decline, get_lease_by_mac in *. simpl. revert El.
    induction (dhcp_leases (ds_leases s)) as [|x ls IH]; [done|]. rewrite fmap_cons. simpl.
    destruct (has_mac mac x) eqn:Ex.
    - intros [= <-]. assert (has_mac mac (with_state "released" x) = true) as -> by done. by eexists.
    - rewrite Ex. apply IH. }
  unfold handle_discover. cbn [list_dhcp_pools]. destruct (dhcp_pools _) as [|p ps]; [done|]. rewrite El', Hip.
  destruct (parse_v4 (lease_ip l)) as [a|]; [|done]. destruct (find _ _); [|done].
  intros [= <-]. by rewrite yiaddr_cert_options, yiaddr_pool_options.
Qed.

(** ** Samples *)

Definition lan_config : DhcpRuntimeConfig := mkDhcpConfig 3600 86400 60 "example.com".

Definition request_for (ip : Z) (last_octet : Z) (host : string) : DhcpMessage :=
  insert_opt (OptHostname host) (insert_opt (OptRequestedIpAddress ip) (insert_opt (OptMessageType Request)
    (mkDhcp true 7 0 0 0 0 [2; 0; 0; 0; 0; last_octet] ∅))).

Definition lan_start : DhcpState :=
  mkDhcpState (add_dhcp_pool home_pool empty_leases).2 empty_scopes None.

Definition nobody : SocketAddr := mkSocket (V4 0) 68.

Definition serve (wall : Z) (msg : DhcpMessage) (s : DhcpState) : DhcpState :=
  (handle_message lan_config (from_secs wall) wall msg nobody s).2.

Lemma ack_makes_client_known_witness :
  let msg := request_for 167772170 1 "NAS" in
  exists scope,
    scope_answers (MI := default_iter) (ds_scopes (handle_request lan_config 0 0 msg "m" lan_start).2) scope
      "nas.lan.example.com." A "10.0.0.10".
Proof.
  set (msg := request_for 167772170 1 "NAS"). cbv zeta.
  assert (match (handle_request lan_config 0 0 msg "m" lan_start).1 with Ok (Some _) => true | _ => false end = true) as Ha
    by (vm_compute; reflexivity).
  destruct (handle_request lan_config 0 0 msg "m" lan_start) as [[[reply|]|] s'] eqn:E; try discriminate Ha.
  destruct (ack_makes_client_known lan_config (MI := default_iter) 0 0 msg "m" lan_start reply s') as (scope & _ & _ & _ & _ & _ & H).
  - split; vm_compute; [discriminate|reflexivity].
  - split; vm_compute; [discriminate|reflexivity].
  - exact E.
  - exists scope. exact (proj1 (H "NAS" "nas" ltac:(vm_compute; reflexivity) ltac:(vm_compute; reflexivity))).
Defined.

Lemma discover_offers_free_witness :
  let msg := request_for 0 1 "x" in
  Forall pool_wf (dhcp_pools (ds_leases lan_start)) /\
  forall e, handle_discover lan_config msg "m" lan_start <> Err e.
Proof.
  assert (Forall pool_wf (dhcp_pools (ds_leases lan_start))) as Hw.
  { apply Forall_singleton. exists 167772170, 167772172. by split_and!. }
  split; [exact Hw|]. exact (proj2 (proj2 (discover_offers_free lan_config (request_for 0 1 "x") "m" lan_start Hw)) eq_refl).
Defined.

Lemma hostnames_confined_witness :
  only_confined lan_config lan_start (serve 0 (request_for 167772170 1 "*.evil") lan_start).
Proof. exact (proj1 (hostnames_confined lan_config 0 0 (request_for 167772170 1 "*.evil") nobody lan_start)). Defined.

(** The wildcard name was not taken. *)
Example wildcard_name_ignored :
  scoped_dns_records (ds_scopes (serve 0 (request_for 167772170 1 "*") lan_start)) = [].
Proof. vm_compute. reflexivity. Qed.

Definition value_rows (s : DhcpState) : list string := r_value <$> (scoped_dns_records (ds_scopes s)).*2.

(** Each renewal adds the records of the client once more. *)
Theorem renewal_duplicates_records :
  value_rows (serve 1800 (request_for 167772170 1 "nas") (serve 0 (request_for 167772170 1 "nas") lan_start)) =
  ["10.0.0.10"; "nas.lan.example.com."; "10.0.0.10"; "nas.lan.example.com."].
Proof. vm_compute. reflexivity. Qed.

(** The sweep of a lease long expired takes down the name of the client that has it
    now: a second device of the same name, with a lease of its own, is not found. *)
Theorem sweep_drops_namesake :
  let s := serve 0 (request_for 167772170 1 "nas") lan_start in
  let s := serve 90000 (request_for 167772171 2 "nas") s in
  let s := lease_sweep lan_config 90001 s in
  get_lease_by_ip "10.0.0.11" (ds_leases s) <> None /\
  lookup_scoped (H := default_iter) (ds_scopes s) "home" "nas.lan.example.com." (Some A) = [].
Proof. split; [vm_compute; discriminate|vm_compute; reflexivity]. Qed.
