(* ===== verification/Forwarder.v ===== *)
(** Upstream forwarders ([src/src/forwarder.rs]): the transports and the text
    form of a forwarder, its circuit breaker, and the split into preference
    tiers. The breakers are shared objects: a forwarder holds a reference into a
    store of them. *)

From S2P Require Import Prelude RustStr Names Ip.
From stdpp Require Import base gmap sets list option strings.
From Stdlib Require Import ZArith Lia Bool Ascii.

Open Scope Z_scope.

Definition FAILURE_THRESHOLD : Z := 3.
Definition OPEN_COOLDOWN_MS : Z := 30000.
Definition DEFAULT_DOH_PATH : string := "/dns-query".

(** * Transports *)

Inductive Transport := Do53Udp | Do53Tcp | Dot | Doh | Doq.

#[export] Instance Transport_eq_dec : EqDecision Transport.
Proof. solve_decision. Defined.

Definition is_encrypted (t : Transport) : bool :=
  match t with Do53Udp | Do53Tcp => false | _ => true end.

Definition needs_server_name (t : Transport) : bool := is_encrypted t.

Definition scheme (t : Transport) : string :=
  match t with
  | Do53Udp => "udp" | Do53Tcp => "tcp" | Dot => "tls" | Doh => "https" | Doq => "quic"
  end.

Definition default_port (t : Transport) : Z :=
  match t with Do53Udp | Do53Tcp => 53 | Dot | Doq => 853 | Doh => 443 end.

Definition one_of (s : string) (l : list string) : bool := existsb (String.eqb s) l.

Definition from_scheme (s : string) : option Transport :=
  let l := to_lowercase s in
  if one_of l ["udp"; "do53"; "dns"] then Some Do53Udp
  else if one_of l ["tcp"] then Some Do53Tcp
  else if one_of l ["tls"; "dot"] then Some Dot
  else if one_of l ["https"; "doh"] then Some Doh
  else if one_of l ["quic"; "doq"] then Some Doq
  else None.

Inductive Preference := Encrypted | PlaintextPrivate | PlaintextPublic.

(** * Health *)

Record Health := mkHealth { consecutive_failures : Z; open_until : Z }.

Definition new_health : Health := mkHealth 0 0.

(** [now] is the millisecond stamp. *)
Definition is_usable (now : Z) (h : Health) : bool :=
  (open_until h =? 0) || (open_until h <=? now).

Definition record_success (h : Health) : Health := mkHealth 0 0.

(** The counter and the value compared with the threshold wrap at 32 bits. *)
Definition record_failure (now : Z) (h : Health) : Health :=
  let failures := as_u 32 (consecutive_failures h + 1) in
  mkHealth failures
    (if FAILURE_THRESHOLD <=? failures then Z.min (now + OPEN_COOLDOWN_MS) u64_max
     else open_until h).

(** * Forwarders *)

(** [health] is the index of the shared breaker. *)
Record Forwarder := mkForwarder {
  transport : Transport;
  addr : SocketAddr;
  server_name : option string;
  hostname : option string;
  path : option string;
  label : string;
  health : nat;
}.

(** The first occurrence of a separator. *)
Fixpoint split_once_str (sep s : string) : option (string * string) :=
  match str_strip_prefix sep s with
  | Some rest => Some ("", rest)
  | None =>
      match s with
      | EmptyString => None
      | String c s' =>
          match split_once_str sep s' with
          | Some (a, b) => Some (String c a, b)
          | None => None
          end
      end
  end.

Definition parse_host_port (spec : string) (default_port : Z) : option SocketAddr :=
  match parse_socket_addr spec with
  | Some a => Some a
  | None =>
      let bare := match str_strip_prefix "[" spec with
                  | Some s => default spec (str_strip_suffix "]" s)
                  | None => spec
                  end in
      (fun ip => mkSocket ip default_port) <$> parse_ip bare
  end.

(** [is_private] of the standard library for IPv4 and the ranges written out for
    IPv6. *)
Definition is_private (ip : IpAddr) : bool :=
  match ip with
  | V4 a =>
      match be_bytes 4 a with
      | [b0; b1; _; _] =>
          (b0 =? 10) || ((b0 =? 172) && (16 <=? b1) && (b1 <=? 31)) || ((b0 =? 192) && (b1 =? 168)) ||
          (b0 =? 127) || ((b0 =? 169) && (b1 =? 254))
      | _ => false
      end
  | V6 a =>
      let seg0 := Z.shiftr a 112 in
      (a =? 1) || (Z.land seg0 65024 =? 64512) || (Z.land seg0 65472 =? 65152)
  end.

Inductive forwarder_error :=
| EmptyForwarder | BadScheme | NoAddress | PathNotDoh | EmptyServerName | InvalidAddress
| InvalidServerName | NameNotEncrypted.

Section Parse.
(** The TLS library's [ServerName::try_from]. *)
Context (valid_server_name : string -> bool).
Local Open Scope rolodex_scope.

(** [parse]; [fresh] is the index of the new breaker. *)
Definition parse_forwarder (fresh : nat) (spec0 : string) : result Forwarder forwarder_error :=
  let spec := str_trim spec0 in
  if (spec =? "")%string then Err EmptyForwarder
  else
    tr <-? match split_once_str "://" spec with
           | Some (s, rest) => match from_scheme s with
                               | Some t => Ok (t, rest)
                               | None => Err BadScheme
                               end
           | None => Ok (Do53Udp, spec)
           end;
    let (t, rest) := tr : Transport * string in
    if (rest =? "")%string then Err NoAddress
    else
      let (authority, pth) := match split_once "/" rest with
                              | Some (a, p) => (a, Some ("/" +:+ p))
                              | None => (rest, None)
                              end in
      if match pth with Some _ => negb (bool_decide (t = Doh)) | None => false end
      then Err PathNotDoh
      else
        let (name, host_port) := match rsplit_once "@" authority with
                                 | Some (n, hp) => (Some n, hp)
                                 | None => (None, authority)
                                 end in
        if match name with Some n => (n =? "")%string | None => false end
        then Err EmptyServerName
        else match parse_host_port host_port (default_port t) with
        | None => Err InvalidAddress
        | Some a =>
            names <-? (if needs_server_name t then
                         let n := default (ip_to_string (so_ip a)) name in
                         if valid_server_name n then Ok (Some n, Some n) else Err InvalidServerName
                       else match name with
                            | Some _ => Err NameNotEncrypted
                            | None => Ok (None, None)
                            end);
            let (sn, hn) := names : option string * option string in
            let lab := match t with
                       | Do53Udp => socket_to_string a
                       | _ => scheme t +:+ "://" +:+ default (socket_to_string a) hn
                       end in
            Ok (mkForwarder t a sn hn
                  (match pth with
                   | Some p => Some p
                   | None => if bool_decide (t = Doh) then Some DEFAULT_DOH_PATH else None
                   end) lab fresh)
        end.

End Parse.

(** [From<SocketAddr>]. *)
Definition forwarder_of_socket (fresh : nat) (a : SocketAddr) : Forwarder :=
  mkForwarder Do53Udp a None None None (socket_to_string a) fresh.

Definition preference (f : Forwarder) : Preference :=
  if is_encrypted (transport f) then Encrypted
  else if is_private (so_ip (addr f)) then PlaintextPrivate else PlaintextPublic.

Definition to_spec (f : Forwarder) : string :=
  match transport f with
  | Do53Udp => socket_to_string (addr f)
  | t =>
      let p := default "" (path f) in
      match hostname f with
      | Some name =>
          if (name =? ip_to_string (so_ip (addr f)))%string
          then scheme t +:+ "://" +:+ socket_to_string (addr f) +:+ p
          else scheme t +:+ "://" +:+ name +:+ "@" +:+ socket_to_string (addr f) +:+ p
      | None => scheme t +:+ "://" +:+ socket_to_string (addr f) +:+ p
      end
  end.

Definition set_health (h : nat) (f : Forwarder) : Forwarder :=
  mkForwarder (transport f) (addr f) (server_name f) (hostname f) (path f) (label f) h.

(** [carry_health]: a replacement with the label of a forwarder in service shares
    its breaker. *)
Definition carry_health (existing incoming : list Forwarder) : list Forwarder :=
  (fun f => match find (fun e => (label e =? label f)%string) existing with
            | Some previous => set_health (health previous) f
            | None => f
            end) <$> incoming.

(** The three tiers. *)
Definition tiers : Type := list Forwarder * list Forwarder * list Forwarder.

Definition push_tier (f : Forwarder) (t : tiers) : tiers :=
  let '(a, b, c) := t in
  match preference f with
  | Encrypted => (a ++ [f], b, c)
  | PlaintextPrivate => (a, b ++ [f], c)
  | PlaintextPublic => (a, b, c ++ [f])
  end.

(** One round of [by_preference], with the labels seen so far. *)
Definition by_preference_step (st : tiers * gset string) (f : Forwarder) : tiers * gset string :=
  let (t, seen) := st in
  if bool_decide (label f ∈ seen) then (t, seen) else (push_tier f t, {[label f]} ∪ seen).

Definition by_preference (forwarders : list Forwarder) : tiers :=
  (foldl by_preference_step (([], [], []), ∅) forwarders).1.

Definition tier_of (t : tiers) (p : Preference) : list Forwarder :=
  match p with Encrypted => t.1.1 | PlaintextPrivate => t.1.2 | PlaintextPublic => t.2 end.

(** ** A tier's attempt *)

Section TierForward.
Context {Resp : Type}.
(** The reply of a forwarder, if the transport got one, and whether a reply is a
    definitive answer. *)
Context (query_forwarder : Forwarder -> option Resp) (response_is_definitive : Resp -> bool).

(** The breakers, by reference. *)
Definition update_health (f : Health -> Health) (i : nat) (hs : list Health) : list Health :=
  alter f i hs.

Definition usable (now : Z) (hs : list Health) (f : Forwarder) : bool :=
  is_usable now (default new_health (hs !! health f)).

(** [tier_forward]: the forwarders are tried in order; [asked] is the ones a query
    was sent to. *)
Fixpoint tier_forward (now : Z) (fs : list Forwarder) (hs : list Health)
  : option Resp * list Health * list Forwarder :=
  match fs with
  | [] => (None, hs, [])
  | f :: fs' =>
      if negb (usable now hs f) then tier_forward now fs' hs
      else match query_forwarder f with
      | Some resp =>
          let hs := update_health record_success (health f) hs in
          if response_is_definitive resp then (Some resp, hs, [f])
          else let '(r, hs, asked) := tier_forward now fs' hs in (r, hs, f :: asked)
      | None =>
          let hs := update_health (record_failure now) (health f) hs in
          let '(r, hs, asked) := tier_forward now fs' hs in (r, hs, f :: asked)
      end
  end.

End TierForward.

(** * Lemmas *)

(** ** The breaker *)

Inductive health_event := Success | Failure (now : Z).

Definition health_step (h : Health) (e : health_event) : Health :=
  match e with Success => record_success h | Failure now => record_failure now h end.

Definition run_health (es : list health_event) : Health := foldl health_step new_health es.

(** The times of the failures since the last success, latest first. *)
Fixpoint failing (rev_es : list health_event) : list Z :=
  match rev_es with Failure now :: es => now :: failing es | _ => [] end.

Lemma run_health_spec es :
  Z.of_nat (length (failing (reverse es))) < 2 ^ 32 ->
  run_health es =
    mkHealth (Z.of_nat (length (failing (reverse es))))
      (match failing (reverse es) with
       | t :: _ :: _ :: _ => Z.min (t + OPEN_COOLDOWN_MS) u64_max
       | _ => 0
       end).
Proof.
  unfold run_health. induction es as [|e es IH] using rev_ind; intros Hlen; [done|].
  rewrite foldl_snoc. rewrite reverse_app in *. simpl in *.
  destruct e as [|now]; [done|]. simpl in *. rewrite IH by lia. simpl. unfold record_failure. simpl.
  set (k := length (failing (reverse es))) in *.
  rewrite as_u_id by (unfold is_u; lia). f_equal; [lia|]. unfold FAILURE_THRESHOLD.
  destruct (failing (reverse es)) as [|t1 [|t2 l]]; simpl in k; subst k; [done|done|].
  destruct (Z.leb_spec 3 (Z.of_nat (S (S (length l))) + 1)); [done|lia].
Qed.

(** ** The split *)

Definition same_pref (p : Preference) (f : Forwarder) : bool :=
  match preference f, p with
  | Encrypted, Encrypted | PlaintextPrivate, PlaintextPrivate
  | PlaintextPublic, PlaintextPublic => true
  | _, _ => false
  end.

Lemma tier_of_push f t p :
  tier_of (push_tier f t) p = if same_pref p f then tier_of t p ++ [f] else tier_of t p.
Proof. destruct t as [[a b] c]. unfold push_tier, same_pref. by destruct (preference f), p. Qed.

(** The first forwarder of each label, in order. *)
Fixpoint first_by_label (seen : gset string) (fs : list Forwarder) : list Forwarder :=
  match fs with
  | [] => []
  | f :: fs' => if bool_decide (label f ∈ seen) then first_by_label seen fs'
                else f :: first_by_label ({[label f]} ∪ seen) fs'
  end.

Lemma by_preference_fold fs t seen p :
  tier_of (foldl by_preference_step (t, seen) fs).1 p =
    tier_of t p ++ List.filter (same_pref p) (first_by_label seen fs).
Proof.
  revert t seen. induction fs as [|f fs IH]; intros t seen; simpl; [by rewrite app_nil_r|].
  case_bool_decide as E; [apply IH|]. rewrite IH, tier_of_push. cbn [List.filter].
  destruct (same_pref p f); by rewrite <- ?app_assoc.
Qed.

Lemma by_preference_tier fs p :
  tier_of (by_preference fs) p = List.filter (same_pref p) (first_by_label ∅ fs).
Proof. unfold by_preference. rewrite by_preference_fold. by destruct p. Qed.

Lemma first_by_label_sub seen fs : first_by_label seen fs `sublist_of` fs.
Proof.
  revert seen. induction fs as [|f fs IH]; intros seen; simpl; [done|].
  case_bool_decide; by constructor.
Qed.

Lemma first_by_label_fresh seen fs f : f ∈ first_by_label seen fs -> label f ∉ seen.
Proof.
  revert seen. induction fs as [|g fs IH]; intros seen; simpl; [intros H; by apply elem_of_nil in H|].
  case_bool_decide as E; [apply IH|]. intros [->|H]%elem_of_cons; [done|].
  apply IH in H. set_solver.
Qed.

Lemma first_by_label_NoDup seen fs : NoDup (label <$> first_by_label seen fs).
Proof.
  revert seen. induction fs as [|g fs IH]; intros seen; simpl; [constructor|].
  case_bool_decide as E; [apply IH|]. rewrite fmap_cons. constructor; [|apply IH].
  intros (f & Hl & Hf)%list_elem_of_fmap. apply first_by_label_fresh in Hf. set_solver.
Qed.

Lemma first_by_label_cover seen fs f :
  f ∈ fs -> label f ∈ seen \/ label f ∈ label <$> first_by_label seen fs.
Proof.
  revert seen. induction fs as [|g fs IH]; intros seen; [intros H; by apply elem_of_nil in H|].
  intros [->|H]%elem_of_cons; simpl; case_bool_decide as E.
  - by left.
  - right. rewrite fmap_cons. by left.
  - by apply IH.
  - rewrite fmap_cons. destruct (IH ({[label g]} ∪ seen) H) as [H1|H1]; [|right; by right].
    apply elem_of_union in H1 as [H1|H1]; [|by left]. apply elem_of_singleton in H1.
    right. rewrite H1. by left.
Qed.

(** The three tiers are the list, rearranged. *)
Lemma tiers_permutation l :
  List.filter (same_pref Encrypted) l ++ List.filter (same_pref PlaintextPrivate) l ++
  List.filter (same_pref PlaintextPublic) l ≡ₚ l.
Proof.
  induction l as [|f l IH]; [done|]. cbn [List.filter].
  assert (forall p, same_pref p f = match preference f, p with
    | Encrypted, Encrypted | PlaintextPrivate, PlaintextPrivate
    | PlaintextPublic, PlaintextPublic => true | _, _ => false end) as H by done.
  rewrite !H. destruct (preference f); simpl.
  - by rewrite IH.
  - by rewrite <- Permutation_middle, IH.
  - by rewrite !app_assoc, <- Permutation_middle, <- app_assoc, IH.
Qed.

Lemma same_pref_refl f : same_pref (preference f) f = true.
Proof. unfold same_pref. by destruct (preference f). Qed.

(** * Properties *)

(** The circuit breaker: a forwarder with fewer than three failures since its
    last success is always tried; from the third on it is skipped until thirty
    seconds after its latest failure and then tried again; one success puts it
    back in service at once. *)
Theorem breaker_behaviour es now :
  let fails := failing (reverse es) in
  Z.of_nat (length fails) < 2 ^ 32 -> Forall (fun t => 0 <= t <= u64_max - OPEN_COOLDOWN_MS) fails ->
  is_usable now (run_health es) =
    match fails with
    | latest :: _ :: _ :: _ => latest + OPEN_COOLDOWN_MS <=? now
    | _ => true
    end /\
  is_usable now (record_success (run_health es)) = true.
Proof.
  cbn zeta. intros Hlen Hr. split; [|done]. rewrite run_health_spec by done.
  unfold is_usable. simpl.
  destruct (failing (reverse es)) as [|t [|t2 [|t3 l]]]; try done.
  apply Forall_cons in Hr as [Ht _]. unfold OPEN_COOLDOWN_MS in *.
  rewrite Z.min_l by lia. destruct (Z.eqb_spec (t + 30000) 0); [lia|done].
Qed.

Lemma breaker_behaviour_witness :
  let es := [Failure 1; Success; Failure 10; Failure 20; Failure 30] in
  is_usable 29999 (run_health es) = false /\ is_usable 30030 (run_health es) = true.
Proof.
  split.
  - destruct (breaker_behaviour [Failure 1; Success; Failure 10; Failure 20; Failure 30] 29999)
      as [H _]; [reflexivity| |exact H].
    repeat constructor; vm_compute; discriminate.
  - destruct (breaker_behaviour [Failure 1; Success; Failure 10; Failure 20; Failure 30] 30030)
      as [H _]; [reflexivity| |exact H].
    repeat constructor; vm_compute; discriminate.
Defined.

(** The split into tiers files every forwarder by what it is, keeps the
    operator's order within a tier, never lists a label twice across the tiers,
    and leaves no label out; and the breaker of a forwarder survives its
    replacement by one of the same label. *)
Theorem by_preference_partition fs p :
  let t := by_preference fs in
  Forall (fun f => same_pref p f = true) (tier_of t p) /\
  tier_of t p `sublist_of` fs /\
  NoDup (label <$> (tier_of t Encrypted ++ tier_of t PlaintextPrivate ++ tier_of t PlaintextPublic)) /\
  (forall f, f ∈ fs -> exists q g, g ∈ tier_of t q /\ label g = label f) /\
  (forall f g, f ∈ fs -> In g (carry_health fs [f]) -> exists e, e ∈ fs /\ label e = label f /\
     g = set_health (health e) f).
Proof.
  cbn zeta. rewrite !by_preference_tier. set (l := first_by_label ∅ fs). repeat split.
  - rewrite Forall_forall. intros f [_ H]%elem_filter_bool. done.
  - transitivity l; [|apply first_by_label_sub]. clearbody l.
    induction l as [|x l IH]; simpl; [done|]. case_match; by constructor.
  - rewrite tiers_permutation. apply first_by_label_NoDup.
  - intros f Hf. destruct (first_by_label_cover ∅ fs f Hf) as [H|H]; [by apply elem_of_empty in H|].
    apply list_elem_of_fmap in H as (g & Hl & Hg). exists (preference g), g.
    rewrite by_preference_tier. split; [|done]. apply elem_filter_bool.
    split; [done|apply same_pref_refl].
  - intros f g Hf [Hg|[]]. destruct (find _ fs) as [e|] eqn:E.
    + apply find_some in E as [He Hl]. bool_hyps. exists e. split; [by apply list_elem_of_In|done].
    + exfalso. pose proof (find_none _ _ E f (proj1 (list_elem_of_In _ _) Hf)) as H.
      simpl in H. by rewrite String.eqb_refl in H.
Qed.

Definition any_name (s : string) : bool := true.

Definition parsed (fresh : nat) (spec : string) : list Forwarder :=
  match parse_forwarder any_name fresh spec with Ok f => [f] | Err _ => [] end.

Lemma by_preference_partition_witness :
  let fs := parsed 0 "8.8.8.8:53" ++ parsed 1 "tls://dns.test@9.9.9.9" ++ parsed 2 "192.168.1.1:53" in
  length fs = 3%nat /\ tier_of (by_preference fs) Encrypted `sublist_of` fs /\
  label <$> tier_of (by_preference fs) PlaintextPrivate = ["192.168.1.1:53"].
Proof.
  split; [vm_compute; reflexivity|]. split; [|vm_compute; reflexivity].
  apply (by_preference_partition
    (parsed 0 "8.8.8.8:53" ++ parsed 1 "tls://dns.test@9.9.9.9" ++ parsed 2 "192.168.1.1:53")
    Encrypted).
Defined.

(** Forwarders are told apart by label, and the label of an encrypted forwarder
    is its server name without the address: of two upstreams that share a name at
    different addresses only the first is kept, so the second is never asked. *)
Theorem same_name_upstreams_collapse :
  let fs := parsed 0 "tls://dns.google@8.8.8.8:853" ++ parsed 1 "tls://dns.google@8.8.4.4:853" in
  addr <$> fs = [mkSocket (V4 134744072) 853; mkSocket (V4 134743044) 853] /\
  addr <$> tier_of (by_preference fs) Encrypted = [mkSocket (V4 134744072) 853] /\
  tier_of (by_preference fs) PlaintextPrivate ++ tier_of (by_preference fs) PlaintextPublic = [].
Proof. vm_compute. repeat split. Qed.
