(* ===== verification/Tiers.v ===== *)
(** The automatic upstream chain of [src/src/dns_server.rs]: the sticky tier, the
    attempt over the tiers from it, the commitment of a change with the flush of
    what was learned before, and the recovery probe; with the validation verdicts
    of [src/src/dnssec_validate.rs] the probe relies on. *)

From S2P Require Import Prelude RustStr Names Ip Hickory ExpiringCache RecordCache KeyCache.
From S2P Require Import DelegationCache DnsCache.
From stdpp Require Import base gmap sets list option strings.
From Stdlib Require Import ZArith Lia Bool Ascii.

Open Scope Z_scope.

(** * Tiers and modes *)

Definition TIER_ROOTS : nat := 0.
Definition TIER_SECURE : nat := 1.
Definition TIER_LOCAL : nat := 2.
Definition TIER_PUBLIC : nat := 3.
Definition TIER_COUNT : nat := 4.

Inductive ResolutionMode := Recursive | Forward | Auto.

(** Response codes, by their wire value. *)
Definition NoError : Z := 0.
Definition FormErr : Z := 1.
Definition ServFail : Z := 2.
Definition NXDomain : Z := 3.
Definition NotImp : Z := 4.
Definition Refused : Z := 5.

Definition definitive_rcode (rcode : Z) : bool := (rcode =? NoError) || (rcode =? NXDomain).

(** * Verdicts *)

Inductive Verdict := VSecure | VInsecure | VBogus (reason : string) | VIndeterminate (reason : string).

Definition verdict_index (v : Verdict) : nat :=
  match v with VSecure => 0 | VInsecure => 1 | VBogus _ => 2 | VIndeterminate _ => 3 end.

Definition withholds_answer (v : Verdict) : bool :=
  match v with VBogus _ | VIndeterminate _ => true | _ => false end.

Definition verdict_rank (v : Verdict) : nat :=
  match v with VSecure => 0 | VInsecure => 1 | VIndeterminate _ => 2 | VBogus _ => 3 end.

(** [merge]: the weaker of two. *)
Definition verdict_merge (a b : Verdict) : Verdict :=
  if (verdict_rank a <? verdict_rank b)%nat then b else a.

Section Chain.
Context {R DNSKEY : Type}.

(** * State *)

(** What was learned from upstream. *)
Record Learned := mkLearned {
  dns_cache : option DnsCache.t;
  delegations : DelegationCache.t;
  records : RecordCache.t R;
  keys : gmap string (KeyCache.Entry DNSKEY);
}.

Record Chain := mkChain {
  resolution_mode : ResolutionMode;
  active_tier : nat;
  deviation_streak : Z;
  switch_grace_failures : Z;
  learned : Learned;
}.

(** [flush_upstream_state]. *)
Definition flush_upstream_state (l : Learned) : Learned :=
  mkLearned (DnsCache.flush <$> dns_cache l) (DelegationCache.flush (delegations l))
    (RecordCache.flush (records l)) (keys l).

Definition set_learned (l : Learned) (c : Chain) : Chain :=
  mkChain (resolution_mode c) (active_tier c) (deviation_streak c) (switch_grace_failures c) l.

(** [set_auto_params], its first half. *)
Definition set_grace (g : Z) (c : Chain) : Chain :=
  mkChain (resolution_mode c) (active_tier c) (deviation_streak c) g (learned c).

(** * Operations *)

Definition note_auto_winner (winner : nat) (c : Chain) : Chain :=
  let active := active_tier c in
  if (winner =? active)%nat then
    mkChain (resolution_mode c) active 0 (switch_grace_failures c) (learned c)
  else if (winner <? active)%nat then
    mkChain (resolution_mode c) winner 0 (switch_grace_failures c)
      (flush_upstream_state (learned c))
  else
    let grace := Z.max (switch_grace_failures c) 1 in
    let streak := as_u 64 (deviation_streak c + 1) in
    if grace <=? streak then
      mkChain (resolution_mode c) winner 0 (switch_grace_failures c)
        (flush_upstream_state (learned c))
    else mkChain (resolution_mode c) active streak (switch_grace_failures c) (learned c).

Definition auto_start_tier (c : Chain) : nat := active_tier c.

(** [for tier in start..TIER_COUNT]: the first tier that answers. An attempt may
    change what was learned and the breakers of the forwarders. *)
Fixpoint first_tier {A St} (try_tier : nat -> St -> option A * St) (start n : nat) (st : St)
  : option (nat * A) * St :=
  match n with
  | O => (None, st)
  | S n' => match try_tier start st with
            | (Some a, st) => (Some (start, a), st)
            | (None, st) => first_tier try_tier (S start) n' st
            end
  end.

(** [auto_resolve] after the message is parsed: [try_tier] is the attempt of a tier
    at this query, [cache_from_wire] stores an answer; no answer is a SERVFAIL. *)
Definition auto_resolve {A X} (try_tier : nat -> Learned * X -> option A * (Learned * X))
    (cache_from_wire : A -> Learned -> Learned) (c : Chain) (x : X) : option A * (Chain * X) :=
  let start := auto_start_tier c in
  match first_tier try_tier start (TIER_COUNT - start) (learned c, x) with
  | (Some (tier, response), (l, x)) =>
      let c := note_auto_winner tier (set_learned l c) in
      (Some response, (set_learned (cache_from_wire response (learned c)) c, x))
  | (None, (l, x)) => (None, (set_learned l c, x))
  end.

(** The outcome of resolving the root's keys within the probe's time. *)
Inductive roots_outcome := ProbeTimeout | ProbeError | ProbeResolved (rcode : Z) (verdict : Verdict).

Definition roots_validate (validating : bool) (o : roots_outcome) : bool :=
  match o with
  | ProbeResolved rcode verdict =>
      if negb validating then definitive_rcode rcode
      else match verdict with VSecure => true | _ => false end
  | _ => false
  end.

(** [recovery_probe_once]; [probe_roots] resolves the root's keys, [try_tier] is the
    attempt of a tier at the canary, whose answer is dropped. *)
Definition recovery_probe_once {X} (validating : bool)
    (probe_roots : Learned * X -> roots_outcome * (Learned * X))
    (try_tier : nat -> Learned * X -> option unit * (Learned * X)) (c : Chain) (x : X) : Chain * X :=
  match resolution_mode c with
  | Auto =>
      if (active_tier c =? TIER_ROOTS)%nat then (c, x)
      else
        let '(roots, (l, x)) := probe_roots (learned c, x) in
        let c := set_learned l c in
        if roots_validate validating roots then (note_auto_winner TIER_ROOTS c, x)
        else match first_tier try_tier (TIER_ROOTS + 1) (active_tier c - (TIER_ROOTS + 1)) (l, x) with
             | (Some (tier, _), (l, x)) => (note_auto_winner tier (set_learned l c), x)
             | (None, (l, x)) => (set_learned l c, x)
             end
  | _ => (c, x)
  end.

(** * Runs *)

(** The chain's life: queries, probes and parameter changes; the mode is set
    at the start. *)
Inductive chain_step (c : Chain) : Chain -> Prop :=
| step_query A X try_tier cache_from_wire x :
    chain_step c (auto_resolve (A := A) (X := X) try_tier cache_from_wire c x).2.1
| step_probe X validating probe_roots try_tier x :
    chain_step c (recovery_probe_once (X := X) validating probe_roots try_tier c x).1
| step_params g : is_u 32 g -> chain_step c (set_grace g c)
| step_learn l : chain_step c (set_learned l c).

Inductive chain_reachable (l0 : Learned) : Chain -> Prop :=
| chain_start : chain_reachable l0 (mkChain Auto TIER_ROOTS 0 3 l0)
| chain_next c c' : chain_reachable l0 c -> chain_step c c' -> chain_reachable l0 c'.

(** Nothing learned is left but the keys. *)
Definition forgotten (l : Learned) : Prop :=
  (forall d, dns_cache l = Some d -> DnsCache.memory d = ∅ /\ DnsCache.negatives d = ∅ /\ DnsCache.db d = []) /\
  DelegationCache.memory (delegations l) = ∅ /\
  (forall rows, DelegationCache.db (delegations l) = Some rows -> rows = []) /\
  RecordCache.entries (records l) = ∅.

(** * Lemmas *)

Lemma flush_forgets l : forgotten (flush_upstream_state l).
Proof.
  split; [|split; [done|split; [|done]]].
  - intros d Hd. unfold flush_upstream_state in Hd. simpl in Hd.
    apply fmap_Some in Hd as (d0 & _ & ->). done.
  - intros rows Hr. simpl in Hr. by apply fmap_Some in Hr as (r & _ & ->).
Qed.

Lemma first_tier_Some {A St} (try_tier : nat -> St -> option A * St) start n st t a st' :
  first_tier try_tier start n st = (Some (t, a), st') ->
  (start <= t < start + n)%nat /\ exists st0, try_tier t st0 = (Some a, st').
Proof.
  revert start st. induction n as [|n IH]; intros start st; simpl; [done|].
  destruct (try_tier start st) as [[b|] st1] eqn:E.
  - intros [= <- <- <-]. split; [lia|by exists st].
  - intros H. apply IH in H as [H1 H2]. split; [lia|done].
Qed.

Definition chain_wf (c : Chain) : Prop :=
  (active_tier c < TIER_COUNT)%nat /\ 0 <= deviation_streak c < 2 ^ 32 /\
  is_u 32 (switch_grace_failures c).

Lemma note_wf w c : chain_wf c -> (w < TIER_COUNT)%nat -> chain_wf (note_auto_winner w c).
Proof.
  intros (H1 & H2 & H3) Hw. unfold note_auto_winner, chain_wf.
  assert (as_u 64 (deviation_streak c + 1) = deviation_streak c + 1) as E
    by (apply as_u_id; unfold is_u; lia).
  rewrite E. unfold is_u in *. repeat case_match; simpl; bool_hyps; repeat split; try done; lia.
Qed.

(** The tier only changes with a flush, and a flush is all that happens. *)
Lemma note_changes w c :
  active_tier (note_auto_winner w c) <> active_tier c ->
  learned (note_auto_winner w c) = flush_upstream_state (learned c) /\
  active_tier (note_auto_winner w c) = w /\ deviation_streak (note_auto_winner w c) = 0.
Proof. unfold note_auto_winner. repeat case_match; simpl; done. Qed.

Lemma note_below_grace w c :
  chain_wf c -> (active_tier c < w)%nat ->
  deviation_streak c + 1 < Z.max (switch_grace_failures c) 1 ->
  note_auto_winner w c =
    mkChain (resolution_mode c) (active_tier c) (deviation_streak c + 1)
      (switch_grace_failures c) (learned c).
Proof.
  intros (H1 & H2 & H3) Hw Hs. unfold note_auto_winner.
  rewrite as_u_id by (unfold is_u; lia).
  destruct (Nat.eqb_spec w (active_tier c)); [lia|]. destruct (Nat.ltb_spec w (active_tier c)); [lia|].
  by rewrite (proj2 (Z.leb_gt _ _)) by lia.
Qed.

Lemma note_at_grace w c :
  chain_wf c -> (active_tier c < w)%nat ->
  Z.max (switch_grace_failures c) 1 <= deviation_streak c + 1 ->
  note_auto_winner w c =
    mkChain (resolution_mode c) w 0 (switch_grace_failures c) (flush_upstream_state (learned c)).
Proof.
  intros (H1 & H2 & H3) Hw Hs. unfold note_auto_winner.
  rewrite as_u_id by (unfold is_u; lia).
  destruct (Nat.eqb_spec w (active_tier c)); [lia|]. destruct (Nat.ltb_spec w (active_tier c)); [lia|].
  by rewrite (proj2 (Z.leb_le _ _)) by lia.
Qed.

Lemma note_run ws c :
  chain_wf c -> Forall (fun w => (active_tier c < w)%nat) ws ->
  deviation_streak c + Z.of_nat (length ws) < Z.max (switch_grace_failures c) 1 ->
  foldl (fun c w => note_auto_winner w c) c ws =
    mkChain (resolution_mode c) (active_tier c) (deviation_streak c + Z.of_nat (length ws))
      (switch_grace_failures c) (learned c).
Proof.
  revert c. induction ws as [|w ws IH]; intros c Hwf Hws Hlen.
  - simpl. rewrite Z.add_0_r. by destruct c.
  - apply Forall_cons in Hws as [Hw Hws]. simpl in Hlen. cbn [foldl].
    rewrite note_below_grace by (done || lia). rewrite IH; simpl.
    + f_equal. lia.
    + destruct Hwf as (H1 & H2 & H3). unfold chain_wf, is_u in *. simpl. lia.
    + done.
    + lia.
Qed.

Lemma set_learned_wf l c : chain_wf c -> chain_wf (set_learned l c).
Proof. done. Qed.

Lemma auto_resolve_tier {A X} try_tier cache c (x : X) :
  chain_wf c ->
  let c' := (auto_resolve (A := A) try_tier cache c x).2.1 in
  (active_tier c <= active_tier c')%nat /\ chain_wf c'.
Proof.
  intros Hwf. unfold auto_resolve, auto_start_tier.
  destruct (first_tier _ _ _ _) as [[[t a]|] [l x']] eqn:E; simpl; [|done].
  apply first_tier_Some in E as [Ht _].
  assert (t < TIER_COUNT)%nat as Ht' by (destruct Hwf; lia).
  split; [|by apply set_learned_wf, note_wf]. unfold note_auto_winner.
  repeat case_match; simpl in *; bool_hyps; lia.
Qed.

(** A more trusted winner. *)
Lemma note_recovery w c :
  chain_wf c -> (w < active_tier c)%nat ->
  active_tier (note_auto_winner w c) = w /\ learned (note_auto_winner w c) = flush_upstream_state (learned c) /\
  chain_wf (note_auto_winner w c).
Proof.
  intros Hwf Hw. assert (active_tier (note_auto_winner w c) = w) as E.
  { unfold note_auto_winner. repeat case_match; simpl; bool_hyps; lia. }
  split; [done|]. split; [|apply note_wf; [done|destruct Hwf; lia]].
  apply note_changes. lia.
Qed.

(** What a probe comes to. *)
Lemma probe_cases {X} validating probe_roots try_tier c (x : X) :
  chain_wf c ->
  let c' := (recovery_probe_once validating probe_roots try_tier c x).1 in
  (active_tier c' = active_tier c /\ chain_wf c') \/
  ((active_tier c' < active_tier c)%nat /\ chain_wf c' /\
   (exists l, learned c' = flush_upstream_state l) /\
   (active_tier c' = TIER_ROOTS -> roots_validate validating (probe_roots (learned c, x)).1 = true)).
Proof.
  intros Hwf. unfold recovery_probe_once. destruct (resolution_mode c); [by left..|].
  destruct (Nat.eqb_spec (active_tier c) TIER_ROOTS) as [|Hne]; [by left|].
  destruct (probe_roots _) as [roots [l x1]] eqn:Ep. simpl.
  destruct (roots_validate validating roots) eqn:Ev.
  - right. destruct (note_recovery TIER_ROOTS (set_learned l c)) as (H1 & H2 & H3);
      [done|simpl; unfold TIER_ROOTS in *; lia|].
    simpl in *. rewrite H1, H2. unfold TIER_ROOTS in *. split; [lia|]. eauto.
  - destruct (first_tier _ _ _ _) as [[[t a]|] [l2 x2]] eqn:E; simpl; [|by left].
    apply first_tier_Some in E as [Ht _]. right.
    destruct (note_recovery t (set_learned l2 (set_learned l c))) as (H1 & H2 & H3);
      [done|simpl; unfold TIER_ROOTS in *; lia|].
    rewrite H1, H2. simpl. split; [lia|]. split; [done|]. split; [eauto|].
    unfold TIER_ROOTS in *. lia.
Qed.

Lemma reachable_wf l0 c : chain_reachable l0 c -> chain_wf c.
Proof.
  induction 1 as [|c c' _ IH Hs]; [unfold chain_wf, is_u, TIER_COUNT, TIER_ROOTS; simpl; lia|].
  destruct Hs as [A X tt' cache x|X v r an x|g Hg|l].
  - by apply auto_resolve_tier.
  - by destruct (probe_cases v r an c x IH) as [[_ H]|(_ & H & _)].
  - destruct IH as (H1 & H2 & _). by unfold chain_wf.
  - done.
Qed.

(** * Properties *)

(** The sticky tier is always one of the four; a client's query never moves it
    to a more trusted tier and a recovery probe never to a less trusted one; and
    whenever either changes it, everything learned from the previous tier (answers,
    denials, delegations, records, in memory and on disk) has been discarded, the
    answer just obtained being stored afterwards. *)
Theorem tier_changes_flush l0 c :
  chain_reachable l0 c ->
  (active_tier c < TIER_COUNT)%nat /\
  (forall A X try_tier cache x,
     let '(r, (c', x')) := auto_resolve (A := A) (X := X) try_tier cache c x in
     (active_tier c <= active_tier c')%nat /\
     (active_tier c' <> active_tier c -> exists a l st, r = Some a /\
        try_tier (active_tier c') st = (Some a, (l, x')) /\
        learned c' = cache a (flush_upstream_state l))) /\
  (forall X validating probe_roots try_tier x,
     let c' := (recovery_probe_once (X := X) validating probe_roots try_tier c x).1 in
     (active_tier c' <= active_tier c)%nat /\
     (active_tier c' <> active_tier c -> exists l, learned c' = flush_upstream_state l)) /\
  forall l, forgotten (flush_upstream_state l).
Proof.
  intros Hr. pose proof (reachable_wf _ _ Hr) as Hwf. split; [apply Hwf|].
  split; [|split; [|apply flush_forgets]].
  - intros A X try_tier cache x. pose proof (auto_resolve_tier try_tier cache c x Hwf) as [Hle _].
    unfold auto_resolve, auto_start_tier in *.
    destruct (first_tier _ _ _ _) as [[[t a]|] [l x']] eqn:E; simpl in *; [|done].
    split; [done|]. intros Hne. apply first_tier_Some in E as (_ & st & Ht).
    apply (note_changes t (set_learned l c)) in Hne as (Hl & Ha & _).
    exists a, l, st. rewrite Ha, Hl. done.
  - intros X validating probe_roots try_tier x. cbn zeta.
    destruct (probe_cases validating probe_roots try_tier c x Hwf) as [[H _]|(H1 & _ & H2 & _)].
    + split; [by rewrite H|]. by rewrite H.
    + split; [cbn zeta in *; lia|done].
Qed.

(** A degrade is committed exactly by the configured number of consecutive
    queries answered below the active tier: fewer leave tier and caches as they
    were, the next one moves to the tier that answered and flushes; an answer from
    the active tier starts the count anew. *)
Theorem degrade_after_grace c ws w :
  chain_wf c -> deviation_streak c = 0 ->
  Forall (fun w => (active_tier c < w < TIER_COUNT)%nat) (ws ++ [w]) ->
  Z.of_nat (length ws) + 1 = Z.max (switch_grace_failures c) 1 ->
  let before := foldl (fun c w => note_auto_winner w c) c ws in
  active_tier before = active_tier c /\ learned before = learned c /\
  deviation_streak (note_auto_winner (active_tier c) before) = 0 /\
  active_tier (note_auto_winner w before) = w /\
  learned (note_auto_winner w before) = flush_upstream_state (learned c).
Proof.
  intros Hwf H0 Hws Hlen. cbn zeta. apply Forall_app in Hws as [Hws Hw].
  rewrite Forall_singleton in Hw.
  rewrite note_run; [|done|by eapply Forall_impl; [exact Hws|simpl; lia]|lia].
  rewrite H0 in *. split; [done|]. split; [done|]. split.
  - unfold note_auto_winner. simpl. by rewrite Nat.eqb_refl.
  - rewrite note_at_grace; simpl; [done| |lia|lia].
    destruct Hwf as (H1 & H2 & H3). unfold chain_wf, is_u in *. simpl. lia.
Qed.

(** The roots are trusted again only on proof: when the probe of a validating
    server moves the chain back to the root tier, the roots' own keys were
    resolved with a verdict of secure. *)
Theorem roots_reclaimed_only_validated {X} probe_roots try_tier c (x : X) :
  chain_wf c -> active_tier c <> TIER_ROOTS ->
  active_tier (recovery_probe_once true probe_roots try_tier c x).1 = TIER_ROOTS ->
  exists rcode, (probe_roots (learned c, x)).1 = ProbeResolved rcode VSecure.
Proof.
  intros Hwf Hne H.
  destruct (probe_cases true probe_roots try_tier c x Hwf) as [[E _]|(_ & _ & _ & Hv)]; [congruence|].
  specialize (Hv H). destruct (probe_roots _).1 as [| |rcode v]; simpl in Hv; try done.
  destruct v; try done. by exists rcode.
Qed.

(** A tier switch does not touch the trust cache: a zone's keys learned through
    the previous upstream stay in force. *)
Theorem tier_switch_keeps_keys w c :
  keys (learned (note_auto_winner w c)) = keys (learned c).
Proof. unfold note_auto_winner. repeat case_match; done. Qed.

End Chain.

(** Merging verdicts keeps the worst: the merge withholds an answer exactly when
    one of its parts would, a bogus part makes the whole bogus, and the order of
    three parts does not matter. *)
Theorem verdict_merge_worst a b c :
  withholds_answer (verdict_merge a b) = withholds_answer a || withholds_answer b /\
  verdict_rank (verdict_merge a b) = Nat.max (verdict_rank a) (verdict_rank b) /\
  verdict_merge (verdict_merge a b) c = verdict_merge a (verdict_merge b c).
Proof. destruct a, b, c; simpl; auto. Qed.

(** * Witnesses *)

Definition empty_learned : @Learned sample_record Z :=
  mkLearned None (DelegationCache.in_memory 300) (RecordCache.new 300) ∅.

Definition start_chain : @Chain sample_record Z := mkChain Auto TIER_ROOTS 0 3 empty_learned.

Lemma tier_changes_flush_witness :
  (active_tier start_chain < TIER_COUNT)%nat /\ forgotten (flush_upstream_state (learned start_chain)).
Proof.
  destruct (tier_changes_flush empty_learned start_chain (chain_start empty_learned))
    as (H1 & _ & _ & H2).
  split; [exact H1|exact (H2 _)].
Defined.

Lemma degrade_after_grace_witness :
  active_tier (foldl (fun c w => note_auto_winner w c) start_chain [1; 2]%nat) = TIER_ROOTS /\
  active_tier (note_auto_winner 1
    (foldl (fun c w => note_auto_winner w c) start_chain [1; 2]%nat)) = 1%nat.
Proof.
  destruct (degrade_after_grace start_chain [1; 2]%nat 1%nat) as (H1 & _ & _ & H2 & _).
  - unfold chain_wf, is_u. vm_compute. repeat split; (discriminate || lia).
  - reflexivity.
  - repeat constructor; vm_compute; lia.
  - reflexivity.
  - split; [exact H1|exact H2].
Defined.

(** A probe of reachable roots that prove themselves. *)
Definition proving_roots (st : @Learned sample_record Z * unit) := (ProbeResolved 0 VSecure, st).

Lemma roots_reclaimed_only_validated_witness :
  active_tier (note_auto_winner 1 (set_grace 0 start_chain)) = 1%nat /\
  exists rcode, ProbeResolved 0 VSecure = ProbeResolved rcode VSecure.
Proof.
  split; [reflexivity|].
  apply (roots_reclaimed_only_validated proving_roots (fun _ st => (None, st))
    (note_auto_winner 1 (set_grace 0 start_chain)) tt).
  - unfold chain_wf, is_u. vm_compute. repeat split; (discriminate || lia).
  - vm_compute. discriminate.
  - reflexivity.
Defined.
