(* ===== verification/Nameservers.v ===== *)
(** Which nameserver is asked ([src/src/resolver.rs], with the latency tracker of
    [src/src/ttl_drift.rs]): back-off after failures, blame of root servers whose
    DNSSEC does not validate, measured latencies, and the order in which the
    candidates are tried. Servers share one port, so an address identifies one.
    Latencies are exact rationals where the program has floating point. *)

From S2P Require Import Prelude RustStr Names Ip.
From stdpp Require Import base gmap list option strings countable sorting.
From Stdlib Require Import ZArith Lia Bool Ascii QArith Qminmax.

Open Scope Z_scope.

(** * State *)

Definition DEFAULT_FAILURE_BACKOFF : Z := from_secs 2.
Definition MAX_FAILURE_BACKOFF : Z := from_secs 300.
Definition DEFAULT_BLAME_BACKOFF : Z := from_secs (15 * 60).
Definition MAX_BLAME_BACKOFF : Z := from_secs (24 * 60 * 60).
Definition LATENCY_EMA_ALPHA : Q := 3 # 10.

Record ServerHealth := mkServerHealth {
  consecutive_failures : Z;
  retry_after : Z;
  blame_count : Z;
  blamed_until : option Z;
}.

Definition clean (now : Z) : ServerHealth := mkServerHealth 0 now 0 None.

Definition health_is_empty (h : ServerHealth) : bool :=
  (consecutive_failures h =? 0) && (blame_count h =? 0) && match blamed_until h with None => true | _ => false end.

(** [LatencyTracker] and the health map. *)
Record Fleet := mkFleet {
  latencies : gmap IpAddr Q;
  counts : gmap IpAddr Z;
  health : gmap IpAddr ServerHealth;
}.

Definition empty_fleet : Fleet := mkFleet ∅ ∅ ∅.

Definition set_health (h : gmap IpAddr ServerHealth) (f : Fleet) : Fleet :=
  mkFleet (latencies f) (counts f) h.

(** * Latency *)

(** [LatencyTracker::record]. *)
Definition record_latency (server : IpAddr) (latency_ms : Q) (f : Fleet) : Fleet :=
  let ema := match latencies f !! server with
             | Some ema => Qred (LATENCY_EMA_ALPHA * latency_ms + (1 - LATENCY_EMA_ALPHA) * ema)
             | None => latency_ms
             end%Q in
  mkFleet (<[server := ema]> (latencies f))
    (<[server := match counts f !! server with Some c => c + 1 | None => 1 end]> (counts f)) (health f).

Definition get_count (f : Fleet) (server : IpAddr) : Z := default 0 (counts f !! server).

Definition get_latency (f : Fleet) (server : IpAddr) : option Q := latencies f !! server.

(** [score_of]. *)
Definition score_of (f : Fleet) (server : IpAddr) : Q :=
  let hits := get_count f server in
  if hits =? 0 then 0%Q
  else (inject_Z hits * Qmax (default 0 (get_latency f server)) 1)%Q.

(** * Health *)

(** [remove_if(|h| h.is_empty())]. *)
Definition remove_if_empty (server : IpAddr) (m : gmap IpAddr ServerHealth) : gmap IpAddr ServerHealth :=
  match m !! server with
  | Some h => if health_is_empty h then delete server m else m
  | None => m
  end.

(** [u32::saturating_add(1)]. *)
Definition sat_incr (n : Z) : Z := Z.min (n + 1) u32_max.

(** [base << min(n - 1, 16)], capped. *)
Definition penalty (base cap n : Z) : Z := Z.min (base * 2 ^ (Z.min (Z.max (n - 1) 0) 16)) cap.

Definition note_success (now : Z) (server : IpAddr) (latency_ms : Q) (f : Fleet) : Fleet :=
  let f := record_latency server latency_ms f in
  let m := match health f !! server with
           | Some h => <[server := mkServerHealth 0 now (blame_count h) (blamed_until h)]> (health f)
           | None => health f
           end in
  set_health (remove_if_empty server m) f.

Definition note_failure (backoff_base now : Z) (server : IpAddr) (f : Fleet) : Fleet :=
  let h := default (clean now) (health f !! server) in
  let n := sat_incr (consecutive_failures h) in
  set_health (<[server := mkServerHealth n (now + penalty backoff_base MAX_FAILURE_BACKOFF n)
                            (blame_count h) (blamed_until h)]> (health f)) f.

Definition blame_root (blame_base blame_cap now : Z) (server : IpAddr) (f : Fleet) : Fleet :=
  let h := default (clean now) (health f !! server) in
  let n := sat_incr (blame_count h) in
  set_health (<[server := mkServerHealth (consecutive_failures h) (retry_after h) n
                            (Some (now + penalty blame_base blame_cap n))]> (health f)) f.

Definition clear_blame (server : IpAddr) (f : Fleet) : Fleet :=
  let m := match health f !! server with
           | Some h => <[server := mkServerHealth (consecutive_failures h) (retry_after h) 0 None]> (health f)
           | None => health f
           end in
  set_health (remove_if_empty server m) f.

Definition blamed_root (now : Z) (f : Fleet) (server : IpAddr) : bool :=
  match health f !! server with
  | Some h => match blamed_until h with Some until => now <? until | None => false end
  | None => false
  end.

Definition blamed_root_count (now : Z) (f : Fleet) : nat :=
  size (filter (fun kv => match blamed_until kv.2 with Some until => now <? until | None => false end = true)
          (health f)).

Definition backed_off (now : Z) (f : Fleet) (server : IpAddr) : bool :=
  match health f !! server with Some h => now <? retry_after h | None => false end.

Definition usable_roots (now : Z) (f : Fleet) (servers : list IpAddr) : list IpAddr :=
  match servers with
  | [] => servers
  | _ =>
      match List.filter (fun s => negb (blamed_root now f s)) servers with
      | [] => servers
      | usable => usable
      end
  end.

(** * Order *)

Definition is_ipv4 (ip : IpAddr) : bool := match ip with V4 _ => true | V6 _ => false end.
Definition is_ipv6 (ip : IpAddr) : bool := negb (is_ipv4 ip).

(** The comparison of [rank]: backed-off servers last, then by score. *)
Definition rank_le (now : Z) (f : Fleet) (a b : IpAddr) : bool :=
  match backed_off now f a, backed_off now f b with
  | false, true => true
  | true, false => false
  | _, _ => Qle_bool (score_of f a) (score_of f b)
  end.

(** [sort_by] is stable. *)
Fixpoint insert_by (le : IpAddr -> IpAddr -> bool) (x : IpAddr) (l : list IpAddr) : list IpAddr :=
  match l with
  | [] => [x]
  | y :: l' => if le x y then x :: l else y :: insert_by le x l'
  end.

Definition sort_by (le : IpAddr -> IpAddr -> bool) (l : list IpAddr) : list IpAddr :=
  foldr (insert_by le) [] l.

Definition rank (shuffle : list IpAddr -> list IpAddr) (now : Z) (f : Fleet) (group : list IpAddr)
  : list IpAddr := sort_by (rank_le now f) (shuffle group).

Definition order_servers (shuffle : list IpAddr -> list IpAddr) (now : Z) (f : Fleet)
    (servers : list IpAddr) : list IpAddr :=
  rank shuffle now f (List.filter is_ipv4 servers) ++ rank shuffle now f (List.filter is_ipv6 servers).

(** * Lives of a fleet *)

Inductive fleet_op :=
| Answered (now : Z) (server : IpAddr) (latency_ms : Q)
| Failed (now : Z) (server : IpAddr)
| Lied (now : Z) (server : IpAddr)
| Validated (server : IpAddr).

Section Lives.
Context (backoff_base blame_base blame_cap : Z).

Definition apply_fleet_op (f : Fleet) (o : fleet_op) : Fleet :=
  match o with
  | Answered now s ms => note_success now s ms f
  | Failed now s => note_failure backoff_base now s f
  | Lied now s => blame_root blame_base blame_cap now s f
  | Validated s => clear_blame s f
  end.

Definition run_fleet (ops : list fleet_op) : Fleet := foldl apply_fleet_op empty_fleet ops.
End Lives.

(** * Lemmas *)

Lemma insert_by_perm le x l : insert_by le x l ≡ₚ x :: l.
Proof.
  induction l as [|y l IH]; simpl; [done|]. destruct (le x y); [done|]. rewrite IH. constructor.
Qed.

Lemma sort_by_perm le l : sort_by le l ≡ₚ l.
Proof. induction l as [|x l IH]; simpl; [done|]. by rewrite insert_by_perm, IH. Qed.

Section Sorting.
Context (le : IpAddr -> IpAddr -> bool).
Context (le_total : forall a b, le a b = true \/ le b a = true).
Context (le_trans : forall a b c, le a b = true -> le b c = true -> le a c = true).

Lemma insert_by_sorted x l :
  StronglySorted (fun a b => le a b = true) l -> StronglySorted (fun a b => le a b = true) (insert_by le x l).
Proof.
  induction l as [|y l IH]; intros H; simpl; [by repeat constructor|].
  inversion_clear H as [|?? Hs Hf]. destruct (le x y) eqn:E.
  - constructor; [by constructor|]. constructor; [done|].
    eapply Forall_impl; [done|]. intros z Hz. by eapply le_trans.
  - constructor; [by apply IH|]. rewrite insert_by_perm. constructor; [|done].
    destruct (le_total x y); congruence.
Qed.

Lemma sort_by_sorted l : StronglySorted (fun a b => le a b = true) (sort_by le l).
Proof. induction l as [|x l IH]; simpl; [constructor|]. by apply insert_by_sorted. Qed.
End Sorting.

Lemma rank_le_total now f a b : rank_le now f a b = true \/ rank_le now f b a = true.
Proof.
  unfold rank_le. destruct (backed_off now f a), (backed_off now f b); auto;
    rewrite !Qle_bool_iff; destruct (Qlt_le_dec (score_of f a) (score_of f b)); auto using Qlt_le_weak.
Qed.

Lemma rank_le_trans now f a b c :
  rank_le now f a b = true -> rank_le now f b c = true -> rank_le now f a c = true.
Proof.
  unfold rank_le. destruct (backed_off now f a), (backed_off now f b), (backed_off now f c); try done;
    rewrite !Qle_bool_iff; apply Qle_trans.
Qed.

Lemma filter_split_perm {A} (p : A -> bool) (l : list A) :
  List.filter p l ++ List.filter (fun x => negb (p x)) l ≡ₚ l.
Proof.
  induction l as [|x l IH]; simpl; [done|]. destruct (p x); simpl; [by rewrite IH|].
  rewrite <- Permutation_middle. by rewrite IH.
Qed.

Lemma order_servers_perm shuffle now f servers :
  (forall l, shuffle l ≡ₚ l) -> order_servers shuffle now f servers ≡ₚ servers.
Proof. intros Hsh. unfold order_servers, rank. rewrite !sort_by_perm, !Hsh. apply filter_split_perm. Qed.

(** ** A server on its own *)

(** What is held against one server: failures and the end of its back-off, lies
    and the end of its omission. *)
Record Standing := mkStanding {
  fails : Z;
  off_until : option Z;
  lies : Z;
  omit_until : option Z;
}.

Definition op_server (o : fleet_op) : IpAddr :=
  match o with Answered _ s _ | Failed _ s | Lied _ s | Validated s => s end.

Definition op_before (T : Z) (o : fleet_op) : Prop :=
  match o with Answered now _ _ | Failed now _ | Lied now _ => now <= T | Validated _ => True end.

(** A time doubled [n] times. *)
Fixpoint doubled (n : nat) (time : Z) : Z := match n with O => time | S n => 2 * doubled n time end.

(** What the [n]-th time in a row costs: the base, doubled for each time before it,
    sixteen times at most, up to a cap. *)
Definition nth_time (base cap n : Z) : Z := Z.min (doubled (Z.to_nat (Z.min (n - 1) 16)) base) cap.

Lemma doubled_pow n time : doubled n time = time * 2 ^ Z.of_nat n.
Proof. induction n as [|n IH]; cbn [doubled]; [lia|]. rewrite IH, Nat2Z.inj_succ, Z.pow_succ_r by lia. lia. Qed.

Lemma penalty_nth base cap n : 1 <= n -> penalty base cap n = nth_time base cap n.
Proof. intros H. unfold penalty, nth_time. rewrite doubled_pow, Z2Nat.id, Z.max_l by lia. done. Qed.

Section Standings.
Context (backoff_base blame_base blame_cap : Z).

(** The two records of a server do not touch each other. *)
Definition standing_step (s : IpAddr) (a : Standing) (o : fleet_op) : Standing :=
  if decide (op_server o = s) then
    match o with
    | Answered _ _ _ => mkStanding 0 None (lies a) (omit_until a)
    | Failed now _ =>
        let n := Z.min (fails a + 1) (2 ^ 32 - 1) in
        mkStanding n (Some (now + nth_time backoff_base (from_secs 300) n)) (lies a) (omit_until a)
    | Lied now _ =>
        let n := Z.min (lies a + 1) (2 ^ 32 - 1) in
        mkStanding (fails a) (off_until a) n (Some (now + nth_time blame_base blame_cap n))
    | Validated _ => mkStanding (fails a) (off_until a) 0 None
    end
  else a.

Definition standing (s : IpAddr) (ops : list fleet_op) : Standing :=
  foldl (standing_step s) (mkStanding 0 None 0 None) ops.

(** The entry of a server represents its standing, up to time [T]. *)
Definition represents (T : Z) (e : option ServerHealth) (a : Standing) : Prop :=
  match e with
  | None => a = mkStanding 0 None 0 None
  | Some h =>
      consecutive_failures h = fails a /\ blame_count h = lies a /\ blamed_until h = omit_until a /\
      match off_until a with
      | Some u => retry_after h = u
      | None => retry_after h <= T /\ fails a = 0
      end
  end.

Lemma represents_remove T s (m : gmap IpAddr ServerHealth) a :
  (off_until a = None -> fails a = 0) -> (forall u, off_until a = Some u -> 1 <= fails a) ->
  represents T (m !! s) a -> represents T (remove_if_empty s m !! s) a.
Proof.
  intros H1 H2 H. unfold remove_if_empty. destruct (m !! s) as [h|] eqn:E; [|by rewrite E].
  destruct (health_is_empty h) eqn:Eh; [|by rewrite E].
  rewrite lookup_delete_eq. unfold health_is_empty in Eh. bool_hyps.
  destruct H as (Hf & Hl & Ho & Hu). destruct a as [n o l u]; simpl in *.
  destruct o as [o|]; [specialize (H2 o eq_refl); lia|]. destruct (blamed_until h); [done|]. f_equal; congruence.
Qed.

Lemma remove_if_empty_ne s s' (m : gmap IpAddr ServerHealth) :
  s <> s' -> remove_if_empty s m !! s' = m !! s'.
Proof. intros H. unfold remove_if_empty. by repeat case_match; rewrite ?lookup_delete_ne. Qed.

(** Back-off is recorded exactly when there are failures. *)
Definition standing_wf (a : Standing) : Prop :=
  (off_until a = None -> fails a = 0) /\ (forall u, off_until a = Some u -> 1 <= fails a) /\
  0 <= fails a <= u32_max /\ 0 <= lies a <= u32_max /\ (lies a = 0 <-> omit_until a = None).

Lemma sat_incr_bounds n : 0 <= n <= u32_max -> 1 <= sat_incr n <= u32_max.
Proof. unfold sat_incr, u32_max. lia. Qed.

Lemma sat_incr_min n : sat_incr n = Z.min (n + 1) (2 ^ 32 - 1).
Proof. done. Qed.

Lemma standing_step_wf s a o : standing_wf a -> standing_wf (standing_step s a o).
Proof.
  intros (H1 & H2 & H3 & H4 & H5). unfold standing_step. rewrite <- !sat_incr_min. case_decide; [|done].
  pose proof (sat_incr_bounds _ H3). pose proof (sat_incr_bounds _ H4).
  destruct o; unfold standing_wf; simpl; split_and!; try done; try lia;
    try (intros u [= <-]; lia); split; intros ?; first [done|exfalso; lia].
Qed.

Lemma step_represents T f s a o :
  op_before T o -> standing_wf a -> represents T (health f !! s) a ->
  represents T (health (apply_fleet_op backoff_base blame_base blame_cap f o) !! s)
    (standing_step s a o).
Proof.
  intros Ho Hw H. unfold standing_step. rewrite <- !sat_incr_min. case_decide as Hs.
  2:{ destruct o; simpl in *; unfold note_success, note_failure, blame_root, clear_blame; simpl;
      rewrite ?remove_if_empty_ne, ?lookup_insert_ne by done; repeat case_match;
      by rewrite ?lookup_insert_ne. }
  pose proof Hw as (H1 & H2 & H3 & H4 & _). subst s.
  rewrite <- !penalty_nth by (by apply sat_incr_bounds). pose proof (fun n => sat_incr_bounds n) as Hb0.
  destruct o as [now s ms|now s|now s|s]; simpl in *.
  - unfold note_success. simpl. destruct (health f !! s) as [h|] eqn:E.
    + apply represents_remove; [done|done|]. rewrite lookup_insert_eq. simpl in *. naive_solver.
    + unfold remove_if_empty. rewrite E. rewrite E. simpl in H. by subst.
  - unfold note_failure. simpl. rewrite lookup_insert_eq. destruct (health f !! s) as [h|]; simpl in *.
    + destruct H as (-> & -> & -> & _). by split_and!.
    + subst. simpl. by split_and!.
  - unfold blame_root. simpl. rewrite lookup_insert_eq. destruct (health f !! s) as [h|]; simpl in *.
    + destruct H as (-> & -> & Hb & Hu). by split_and!.
    + subst. simpl. by split_and!.
  - unfold clear_blame. simpl. destruct (health f !! s) as [h|] eqn:E.
    + apply represents_remove; [done|done|]. rewrite lookup_insert_eq. simpl in *. naive_solver.
    + unfold remove_if_empty. rewrite E. rewrite E. simpl in H. by subst.
Qed.

Lemma run_represents T s ops :
  Forall (op_before T) ops ->
  standing_wf (standing s ops) /\
  represents T (health (run_fleet backoff_base blame_base blame_cap ops) !! s) (standing s ops).
Proof.
  unfold run_fleet, standing. induction ops as [|o ops IH] using rev_ind; intros H.
  - simpl. rewrite lookup_empty. split; [|done].
    unfold standing_wf, u32_max; simpl. split_and!; try done; lia.
  - apply Forall_app in H as [H Ho]. rewrite Forall_singleton in Ho. destruct (IH H) as [Hw Hr].
    rewrite !foldl_snoc. split; [by apply standing_step_wf|by apply step_represents].
Qed.

(** * Properties *)

(** C39: back-off and blame are two separate records of a server. After any calls,
    what the shared map holds about a server is what that server's own history says:
    a reply clears its failures and nothing else, so that a root that lied cannot
    clear its blame by answering promptly, and only an answer that validates clears
    blame. A failure after n in a row backs it off for the base doubled n times, but
    no more than sixteen times, and at most five minutes; a lie after n omits it
    likewise, up to the blame cap; the counts fit in 32 bits. *)
Theorem fleet_refines_standings s ops T :
  Forall (op_before T) ops ->
  let f := run_fleet backoff_base blame_base blame_cap ops in
  let a := standing s ops in
  backed_off T f s = match off_until a with Some u => T <? u | None => false end /\
  blamed_root T f s = match omit_until a with Some u => T <? u | None => false end /\
  0 <= fails a <= u32_max /\ 0 <= lies a <= u32_max /\
  (forall now, standing_step s a (Failed now s) =
     mkStanding (Z.min (fails a + 1) u32_max)
       (Some (now + Z.min (doubled (Z.to_nat (Z.min (fails a) 16)) backoff_base) (from_secs 300))) (lies a) (omit_until a)) /\
  (forall now, standing_step s a (Lied now s) =
     mkStanding (fails a) (off_until a) (Z.min (lies a + 1) u32_max)
       (Some (now + Z.min (doubled (Z.to_nat (Z.min (lies a) 16)) blame_base) blame_cap))).
Proof.
  intros Hops f a. destruct (run_represents T s ops Hops) as [Hw Hr]. fold f a in Hr, Hw.
  destruct Hw as (_ & _ & Hf & Hl & _). unfold backed_off, blamed_root.
  assert (forall n, 0 <= n <= u32_max -> Z.min (Z.min (n + 1) (2 ^ 32 - 1) - 1) 16 = Z.min n 16) as Hmin
    by (unfold u32_max; lia).
  split_and!; try lia.
  - destruct (health f !! s) as [h|]; simpl in Hr; [|by rewrite Hr].
    destruct Hr as (_ & _ & _ & Hu). destruct (off_until a); [by rewrite Hu|].
    apply Z.ltb_ge. lia.
  - destruct (health f !! s) as [h|]; simpl in Hr; [|by rewrite Hr]. by destruct Hr as (_ & _ & -> & _).
  - intros now. unfold standing_step, nth_time. rewrite decide_True, Hmin by done. done.
  - intros now. unfold standing_step, nth_time. rewrite decide_True, Hmin by done. done.
Qed.

End Standings.

(** The order in which servers are tried. Whatever the shuffle, every candidate
    is tried, each once; all IPv4 servers come before all IPv6 ones; within a family
    a server in back-off never comes before one that is not, and among the others
    the score (answers so far times latency) ascends, so that a server never asked
    before, whose score is zero, leads. *)
Theorem servers_tried_in_order shuffle now f servers :
  (forall l, shuffle l ≡ₚ l) ->
  exists v4 v6,
    order_servers shuffle now f servers = v4 ++ v6 /\ v4 ++ v6 ≡ₚ servers /\
    Forall (fun s => is_ipv4 s = true) v4 /\ Forall (fun s => is_ipv6 s = true) v6 /\
    forall family, family = v4 \/ family = v6 ->
      StronglySorted (fun a b => (backed_off now f a = true -> backed_off now f b = true) /\
        (backed_off now f a = backed_off now f b -> score_of f a <= score_of f b)%Q) family.
Proof.
  intros Hsh. eexists _, _. split; [done|]. split; [by apply order_servers_perm|]. unfold rank. split_and!.
  - rewrite sort_by_perm, Hsh. apply List.Forall_forall. by intros x [_ H]%filter_In.
  - rewrite sort_by_perm, Hsh. apply List.Forall_forall. by intros x [_ H]%filter_In.
  - intros family Hfam.
    assert (StronglySorted (fun a b => rank_le now f a b = true) family) as H.
    { destruct Hfam as [->| ->]; apply sort_by_sorted; eauto using rank_le_total, rank_le_trans. }
    clear Hfam. induction H as [|a l Hs IH Hall]; [constructor|]. constructor; [done|].
    eapply Forall_impl; [done|]. intros b Hab. unfold rank_le in Hab.
    destruct (backed_off now f a), (backed_off now f b); try done; apply Qle_bool_iff in Hab; by split.
Qed.

(** Blame never empties the root set. The candidates kept are the ones not
    blamed, as long as there is one; when every root is blamed none is dropped, so
    that the lookup still reaches a root and fails by its signatures instead of
    being passed to an upstream that does not validate. *)
Theorem root_set_never_empties now f servers :
  servers <> [] ->
  usable_roots now f servers <> [] /\ usable_roots now f servers ⊆ servers /\
  ((exists s, s ∈ servers /\ blamed_root now f s = false) ->
     forall s, s ∈ usable_roots now f servers <-> s ∈ servers /\ blamed_root now f s = false) /\
  ((forall s, s ∈ servers -> blamed_root now f s = true) -> usable_roots now f servers = servers).
Proof.
  intros Hne. unfold usable_roots. destruct servers as [|s0 servers]; [done|].
  set (l := s0 :: servers) in *.
  assert (forall s, s ∈ List.filter (fun s => negb (blamed_root now f s)) l <->
                    s ∈ l /\ blamed_root now f s = false) as Hf.
  { intros s. by rewrite elem_filter_bool, negb_true_iff. }
  destruct (List.filter _ l) as [|u usable] eqn:E.
  - split_and!; [done|done| |done]. intros (s & Hs). apply Hf in Hs. by apply elem_of_nil in Hs.
  - split_and!; [done| |done|].
    + intros s Hs. by apply Hf in Hs as [? _].
    + intros Hall. destruct (proj1 (Hf u)) as [Hu Hb]; [by left|]. by rewrite Hall in Hb.
Qed.

(** * Witnesses *)

Definition root_a : IpAddr := V4 3324575748.
Definition root_b : IpAddr := V4 2868357634.
Definition root_c : IpAddr := V6 1.

Definition liar_ops : list fleet_op :=
  [Lied 0 root_a; Answered 5 root_a 20%Q; Failed 6 root_b; Answered 7 root_c 1%Q].

Lemma fleet_refines_standings_witness :
  let f := run_fleet DEFAULT_FAILURE_BACKOFF DEFAULT_BLAME_BACKOFF MAX_BLAME_BACKOFF liar_ops in
  blamed_root 10 f root_a = true /\ backed_off 10 f root_b = true.
Proof.
  assert (Forall (op_before 10) liar_ops) as H by (repeat constructor; simpl; lia).
  pose proof (fleet_refines_standings DEFAULT_FAILURE_BACKOFF DEFAULT_BLAME_BACKOFF MAX_BLAME_BACKOFF
    root_a liar_ops 10 H) as (_ & Ha & _).
  pose proof (fleet_refines_standings DEFAULT_FAILURE_BACKOFF DEFAULT_BLAME_BACKOFF MAX_BLAME_BACKOFF
    root_b liar_ops 10 H) as (Hb & _).
  simpl. split; [rewrite Ha; vm_compute; reflexivity|rewrite Hb; vm_compute; reflexivity].
Defined.

Lemma servers_tried_in_order_witness :
  let f := run_fleet DEFAULT_FAILURE_BACKOFF DEFAULT_BLAME_BACKOFF MAX_BLAME_BACKOFF liar_ops in
  order_servers (fun l => l) 10 f [root_c; root_b; root_a] = [root_a; root_b; root_c] /\
  [root_a; root_b; root_c] ≡ₚ [root_c; root_b; root_a].
Proof.
  intros f.
  assert (order_servers (fun l => l) 10 f [root_c; root_b; root_a] = [root_a; root_b; root_c]) as E
    by (vm_compute; reflexivity).
  split; [exact E|].
  destruct (servers_tried_in_order (fun l => l) 10 f [root_c; root_b; root_a]) as (v4 & v6 & Ho & Hp & _);
    [reflexivity|]. rewrite <- E, Ho. exact Hp.
Defined.

Lemma root_set_never_empties_witness :
  let f := run_fleet DEFAULT_FAILURE_BACKOFF DEFAULT_BLAME_BACKOFF MAX_BLAME_BACKOFF liar_ops in
  usable_roots 10 f [root_a; root_b] = [root_b] /\ usable_roots 10 f [root_a] = [root_a].
Proof.
  intros f. split; [vm_compute; reflexivity|].
  apply (proj2 (proj2 (proj2 (root_set_never_empties 10 f [root_a] ltac:(discriminate))))).
  intros s Hs. apply list_elem_of_singleton in Hs as ->. vm_compute. reflexivity.
Defined.
