(* ===== verification/Wire.v ===== *)
(** What [src/src/dns_server.rs] reads off and writes onto the wire form of a
    message without parsing it: the question's type and name, the [arpa.] gate,
    query-case randomisation, header fields, and DNS64 addresses. A byte is a [Z]
    in [0, 256). *)

From S2P Require Import Prelude RustStr Names Ip.
From stdpp Require Import base gmap sets list option strings.
From Stdlib Require Import ZArith Lia Bool Ascii.

Open Scope Z_scope.

(** * Readers *)

(** The label walk of [wire_qtype]: the position after the name. Every round
    moves forward, so the length of the message is enough fuel. *)
Fixpoint skip_labels (fuel : nat) (query : list Z) (pos : nat) : option nat :=
  match fuel with
  | O => None
  | S f =>
      match query !! pos with
      | None => None
      | Some label_len =>
          if negb (Z.land label_len 192 =? 0) then None
          else if label_len =? 0 then Some (S pos)
          else skip_labels f query (S pos + Z.to_nat label_len)
      end
  end.

Definition wire_qtype (query : list Z) : option Z :=
  match skip_labels (S (length query)) query 12 with
  | None => None
  | Some pos =>
      match query !! pos, query !! S pos with
      | Some hi, Some lo => Some (Z.lor (Z.shiftl hi 8) lo)
      | _, _ => None
      end
  end.

(** [slice.get(pos..pos + n)]. *)
Definition get_slice (l : list Z) (pos n : nat) : option (list Z) :=
  if (pos + n <=? length l)%nat then Some (take n (drop pos l)) else None.

(** [u8::to_ascii_lowercase] on a byte. *)
Definition lower_byte (b : Z) : Z := if (65 <=? b) && (b <=? 90) then b + 32 else b.

Definition eq_ignore_ascii_case (a b : list Z) : bool :=
  bool_decide (lower_byte <$> a = lower_byte <$> b).

(** The bytes of [arpa]. *)
Definition arpa : list Z := [97; 114; 112; 97].

(** The walk of [wire_question_is_arpa], with the last label seen. *)
Fixpoint last_label (fuel : nat) (query : list Z) (pos : nat) (last : option (list Z))
  : option (option (list Z)) :=
  match fuel with
  | O => None
  | S f =>
      match query !! pos with
      | None => None
      | Some label_len =>
          if negb (Z.land label_len 192 =? 0) then None
          else if label_len =? 0 then Some last
          else match get_slice query (S pos) (Z.to_nat label_len) with
               | None => None
               | Some label => last_label f query (S pos + Z.to_nat label_len) (Some label)
               end
      end
  end.

Definition wire_question_is_arpa (query : list Z) : bool :=
  match last_label (S (length query)) query 12 None with
  | Some (Some label) => eq_ignore_ascii_case label arpa
  | _ => false
  end.

Definition wire_rcode (response : list Z) : Z :=
  match response !! 3%nat with Some b => Z.land b 15 | None => 0 end.

Definition wire_truncated (response : list Z) : bool :=
  match response !! 2%nat with Some b => negb (Z.land b 2 =? 0) | None => false end.

Definition wire_ancount (response : list Z) : Z :=
  match response !! 6%nat, response !! 7%nat with
  | Some hi, Some lo => Z.lor (Z.shiftl hi 8) lo
  | _, _ => 0
  end.

(** [extract_qname]: one character a byte; the name is built as its bytes. *)
Fixpoint extract_loop (fuel : nat) (data : list Z) (pos : nat) (name : list Z)
  : option (list Z) :=
  match fuel with
  | O => None
  | S f =>
      match data !! pos with
      | None => None
      | Some label_len =>
          if label_len =? 0 then Some (name ++ [46])
          else if (length data <? pos + 1 + Z.to_nat label_len)%nat then None
          else
            let name := match name with [] => [] | _ => name ++ [46] end in
            extract_loop f data (pos + Z.to_nat label_len + 1)
              (name ++ take (Z.to_nat label_len) (drop (S pos) data))
      end
  end.

Definition extract_qname (data : list Z) : option (list Z) :=
  extract_loop (S (length data)) data 0 [].

(** * Case randomisation *)

Definition is_ascii_alphabetic (b : Z) : bool :=
  ((65 <=? b) && (b <=? 90)) || ((97 <=? b) && (b <=? 122)).

(** The random draws, by position. *)
Definition flip (coin : nat -> bool) (i : nat) (b : Z) : Z :=
  if is_ascii_alphabetic b && coin i then Z.lxor b 32 else b.

(** The bytes of one label, flipped in place. *)
Definition flip_range (coin : nat -> bool) (from n : nat) (l : list Z) : list Z :=
  imap (fun i b => if (from <=? i)%nat && (i <? from + n)%nat then flip coin i b else b) l.

Fixpoint randomize_loop (coin : nat -> bool) (fuel : nat) (modified : list Z) (pos : nat)
  : option (list Z) :=
  match fuel with
  | O => None
  | S f =>
      match modified !! pos with
      | None => None
      | Some label_len =>
          if label_len =? 0 then Some modified
          else if (length modified <? pos + 1 + Z.to_nat label_len)%nat then None
          else randomize_loop coin f (flip_range coin (S pos) (Z.to_nat label_len) modified)
                 (pos + Z.to_nat label_len + 1)
      end
  end.

Definition randomize_qname_case (coin : nat -> bool) (query_data : list Z)
  : option (list Z * list Z * list Z) :=
  if (length query_data <? 13)%nat then None
  else match extract_qname (drop 12 query_data) with
       | None => None
       | Some original_name =>
           match randomize_loop coin (S (length query_data)) query_data 12 with
           | None => None
           | Some modified =>
               match extract_qname (drop 12 modified) with
               | Some randomized_name => Some (modified, original_name, randomized_name)
               | None => None
               end
           end
       end.

(** * DNS64 *)

(** [synthesize_dns64_address], on the octets. *)
Definition synthesize_dns64_address (prefix ipv4 : Z) : Z :=
  of_be_bytes (take 12 (be_bytes 16 prefix) ++ be_bytes 4 ipv4).

(** * Names on the wire *)

(** A label as bytes: one to sixty-three of them. *)
Definition wire_label (l : list Z) : Prop := (1 <= length l <= 63)%nat.

Fixpoint encode_labels (ls : list (list Z)) : list Z :=
  match ls with
  | [] => [0]
  | l :: ls' => Z.of_nat (length l) :: l ++ encode_labels ls'
  end.

(** A query: twelve header bytes, the name, the rest. *)
Definition wire_query (header : list Z) (ls : list (list Z)) (rest : list Z) : list Z :=
  header ++ encode_labels ls ++ rest.

(** The dotted bytes of a name. *)
Fixpoint dotted (ls : list (list Z)) : list Z :=
  match ls with
  | [] => []
  | [l] => l
  | l :: ls' => l ++ 46 :: dotted ls'
  end.

(** * Lemmas *)

Lemma label_len_ok l : wire_label l -> Z.land (Z.of_nat (length l)) 192 = 0 /\ Z.of_nat (length l) <> 0.
Proof.
  intros Hl. unfold wire_label in Hl. split; [|lia].
  assert (forallb (fun n => Z.land n 192 =? 0) (seqZ 0 64) = true) as Hall by (vm_compute; reflexivity).
  rewrite forallb_forall in Hall. apply Z.eqb_eq, Hall, list_elem_of_In, elem_of_seqZ. lia.
Qed.

Lemma lookup_at (pre : list Z) x post : (pre ++ x :: post) !! length pre = Some x.
Proof. rewrite lookup_app_r by lia. by rewrite Nat.sub_diag. Qed.

Lemma skip_labels_encode ls pre rest fuel :
  Forall wire_label ls -> (length ls < fuel)%nat ->
  skip_labels fuel (pre ++ encode_labels ls ++ rest) (length pre) =
    Some (length pre + length (encode_labels ls))%nat.
Proof.
  intros Hls. revert pre fuel. induction Hls as [|l ls Hl _ IH]; intros pre fuel Hf;
    (destruct fuel as [|f]; [simpl in Hf; lia|]).
  - cbn [skip_labels encode_labels app]. rewrite lookup_at. simpl. f_equal. lia.
  - cbn [skip_labels encode_labels app]. rewrite lookup_at.
    destruct (label_len_ok l Hl) as [H1 H2]. rewrite H1. cbn [Z.eqb negb].
    rewrite (proj2 (Z.eqb_neq _ _) H2), Nat2Z.id.
    assert (pre ++ Z.of_nat (length l) :: (l ++ encode_labels ls) ++ rest =
      (pre ++ Z.of_nat (length l) :: l) ++ encode_labels ls ++ rest) as E
      by (by rewrite <- !app_assoc).
    rewrite E. simpl in Hf.
    replace (S (length pre) + length l)%nat with (length (pre ++ Z.of_nat (length l) :: l))
      by (rewrite length_app; simpl; lia).
    rewrite IH by lia. f_equal. rewrite length_app. simpl. rewrite length_app. lia.
Qed.

Lemma get_slice_at (pre l post : list Z) : get_slice (pre ++ l ++ post) (length pre) (length l) = Some l.
Proof.
  unfold get_slice. rewrite !length_app. rewrite (proj2 (Nat.leb_le _ _)) by lia.
  rewrite drop_app_length, take_app_length. done.
Qed.

Lemma last_label_encode ls pre rest fuel acc :
  Forall wire_label ls -> (length ls < fuel)%nat ->
  last_label fuel (pre ++ encode_labels ls ++ rest) (length pre) acc =
    Some (match last ls with Some l => Some l | None => acc end).
Proof.
  intros Hls. revert pre fuel acc. induction Hls as [|l ls Hl _ IH]; intros pre fuel acc Hf;
    (destruct fuel as [|f]; [simpl in Hf; lia|]).
  - cbn [last_label encode_labels app]. by rewrite lookup_at.
  - cbn [last_label encode_labels app]. rewrite lookup_at.
    destruct (label_len_ok l Hl) as [H1 H2]. rewrite H1. cbn [Z.eqb negb].
    rewrite (proj2 (Z.eqb_neq _ _) H2), Nat2Z.id.
    assert (pre ++ Z.of_nat (length l) :: (l ++ encode_labels ls) ++ rest =
      (pre ++ [Z.of_nat (length l)]) ++ l ++ (encode_labels ls ++ rest)) as E
      by (by rewrite <- !app_assoc).
    rewrite E. replace (S (length pre)) with (length (pre ++ [Z.of_nat (length l)]))
      by (rewrite length_app; simpl; lia).
    rewrite get_slice_at. simpl in Hf.
    rewrite (app_assoc (pre ++ _) l). rewrite <- (length_app (pre ++ _) l).
    rewrite IH by lia. f_equal. rewrite last_cons. by destruct (last ls).
Qed.

Lemma length_encode ls : (length ls <= length (encode_labels ls))%nat.
Proof. induction ls as [|l ls IH]; simpl; [lia|]. rewrite length_app. lia. Qed.

Lemma land_shiftl_byte hi lo : is_u 8 hi -> is_u 8 lo -> Z.lor (Z.shiftl hi 8) lo = hi * 256 + lo.
Proof. intros _ Hl. rewrite Z.shiftl_mul_pow2 by lia. by apply lor_low. Qed.

(** ** Extraction *)

Lemma extract_loop_encode ls pre rest fuel name :
  Forall wire_label ls -> (length ls < fuel)%nat ->
  extract_loop fuel (pre ++ encode_labels ls ++ rest) (length pre) name =
    Some (match ls, name with
          | [], _ => name ++ [46]
          | _, [] => dotted ls ++ [46]
          | _, _ => name ++ 46 :: dotted ls ++ [46]
          end).
Proof.
  intros Hls. revert pre fuel name. induction Hls as [|l ls Hl _ IH]; intros pre fuel name Hf;
    (destruct fuel as [|f]; [simpl in Hf; lia|]).
  - cbn [extract_loop encode_labels app]. by rewrite lookup_at.
  - cbn [extract_loop encode_labels app]. rewrite lookup_at.
    destruct (label_len_ok l Hl) as [_ H2]. rewrite (proj2 (Z.eqb_neq _ _) H2), Nat2Z.id.
    assert (pre ++ Z.of_nat (length l) :: (l ++ encode_labels ls) ++ rest =
      (pre ++ [Z.of_nat (length l)]) ++ l ++ (encode_labels ls ++ rest)) as E
      by (by rewrite <- !app_assoc).
    rewrite E. rewrite (proj2 (Nat.ltb_ge _ _)) by (rewrite !length_app; simpl; lia).
    replace (S (length pre)) with (length (pre ++ [Z.of_nat (length l)]))
      by (rewrite length_app; simpl; lia).
    rewrite drop_app_length, take_app_length. rewrite (app_assoc (pre ++ _) l).
    replace (length pre + length l + 1)%nat with (length ((pre ++ [Z.of_nat (length l)]) ++ l))
      by (rewrite !length_app; simpl; lia).
    simpl in Hf. rewrite IH by lia. f_equal. unfold wire_label in Hl.
    destruct ls as [|l' ls]; destruct name as [|c name]; cbn [dotted app].
    + done.
    + by rewrite <- !app_assoc.
    + destruct l; [simpl in Hl; lia|]. simpl. by rewrite <- !app_assoc.
    + destruct l; [simpl in Hl; lia|]. simpl. rewrite <- ?app_assoc. simpl.
      by rewrite <- ?app_assoc.
Qed.

Lemma extract_qname_encode ls rest :
  Forall wire_label ls -> extract_qname (encode_labels ls ++ rest) = Some (dotted ls ++ [46]).
Proof.
  intros Hls. unfold extract_qname.
  pose proof (extract_loop_encode ls [] rest (S (length (encode_labels ls ++ rest))) [] Hls) as H.
  cbn [app length] in H. rewrite H.
  - by destruct ls.
  - pose proof (length_encode ls). rewrite length_app. lia.
Qed.

(** ** Flipping *)

Lemma flip_lower coin i b : is_u 8 b -> lower_byte (flip coin i b) = lower_byte b /\ is_u 8 (flip coin i b).
Proof.
  intros Hb.
  assert (forallb (fun b => (lower_byte (if is_ascii_alphabetic b then Z.lxor b 32 else b) =? lower_byte b) &&
    (0 <=? (if is_ascii_alphabetic b then Z.lxor b 32 else b)) &&
    ((if is_ascii_alphabetic b then Z.lxor b 32 else b) <? 256)) (seqZ 0 256) = true) as Hall
    by (vm_compute; reflexivity).
  pose proof (byte_forall _ Hall b Hb) as H. simpl in H. unfold flip.
  destruct (is_ascii_alphabetic b); simpl; [|done].
  destruct (coin i); [|done]. bool_hyps. split; [done|]. unfold is_u. lia.
Qed.

(** Two labels equal but for letter case. *)
Definition same_case_label (l l' : list Z) : Prop :=
  length l' = length l /\ lower_byte <$> l' = lower_byte <$> l.

Lemma imap_same {A} (f : nat -> A -> A) (l : list A) :
  (forall i x, l !! i = Some x -> f i x = x) -> imap f l = l.
Proof.
  revert f. induction l as [|a l IH]; intros f H; [done|]. rewrite imap_cons. f_equal.
  - by apply (H 0%nat).
  - apply IH. intros i x Hx. by apply (H (S i)).
Qed.

Lemma flip_range_at coin (pre l post : list Z) :
  flip_range coin (length pre) (length l) (pre ++ l ++ post) =
    pre ++ imap (fun i => flip coin (length pre + i)) l ++ post.
Proof.
  unfold flip_range. rewrite !imap_app. f_equal; [|f_equal].
  - apply imap_same. intros i x Hx. apply lookup_lt_Some in Hx.
    by rewrite (proj2 (Nat.leb_gt _ _)) by lia.
  - apply imap_ext. intros i x Hx. apply lookup_lt_Some in Hx. simpl.
    rewrite (proj2 (Nat.leb_le _ _)), (proj2 (Nat.ltb_lt _ _)) by lia. done.
  - apply imap_same. intros i x Hx. simpl.
    rewrite (proj2 (Nat.ltb_ge _ _)) by lia. by rewrite andb_false_r.
Qed.

Lemma flip_label coin k l :
  Forall (is_u 8) l ->
  same_case_label l (imap (fun i => flip coin (k + i)) l) /\
  Forall (is_u 8) (imap (fun i => flip coin (k + i)) l).
Proof.
  intros Hl. revert k. induction Hl as [|b l Hb _ IH]; intros k; [done|].
  assert (imap (fun i => flip coin (k + i)) (b :: l) =
    flip coin k b :: imap (fun i => flip coin (S k + i)) l) as ->.
  { rewrite imap_cons. f_equal; [by rewrite Nat.add_0_r|]. apply imap_ext. intros i x _. simpl.
    f_equal. lia. }
  destruct (IH (S k)) as [[H1 H2] H3]. destruct (flip_lower coin k b Hb) as [H4 H5].
  split; [split; [cbn [length]; by rewrite H1|]|by constructor].
  rewrite !fmap_cons. by rewrite H4, H2.
Qed.

Lemma randomize_loop_encode coin ls pre rest fuel :
  Forall wire_label ls -> Forall (Forall (is_u 8)) ls -> (length ls < fuel)%nat ->
  exists ls', randomize_loop coin fuel (pre ++ encode_labels ls ++ rest) (length pre) =
      Some (pre ++ encode_labels ls' ++ rest) /\
    Forall2 same_case_label ls ls' /\ Forall wire_label ls'.
Proof.
  intros Hls. revert pre fuel. induction Hls as [|l ls Hl _ IH]; intros pre fuel Hb Hf;
    (destruct fuel as [|f]; [simpl in Hf; lia|]).
  - exists []. cbn [randomize_loop encode_labels app]. rewrite lookup_at. by simpl.
  - apply Forall_cons in Hb as [Hb1 Hb]. cbn [randomize_loop encode_labels app]. rewrite lookup_at.
    destruct (label_len_ok l Hl) as [_ H2]. rewrite (proj2 (Z.eqb_neq _ _) H2), Nat2Z.id.
    assert (pre ++ Z.of_nat (length l) :: (l ++ encode_labels ls) ++ rest =
      (pre ++ [Z.of_nat (length l)]) ++ l ++ (encode_labels ls ++ rest)) as E
      by (by rewrite <- !app_assoc).
    rewrite E. rewrite (proj2 (Nat.ltb_ge _ _)) by (rewrite !length_app; simpl; lia).
    replace (S (length pre)) with (length (pre ++ [Z.of_nat (length l)]))
      by (rewrite length_app; simpl; lia).
    rewrite flip_range_at. set (k := length (pre ++ [Z.of_nat (length l)])).
    destruct (flip_label coin k l Hb1) as [Hs Hu].
    set (l' := imap (fun i => flip coin (k + i)) l) in *.
    rewrite (app_assoc (pre ++ _) l').
    replace (length pre + length l + 1)%nat with (length ((pre ++ [Z.of_nat (length l)]) ++ l'))
      by (rewrite !length_app; destruct Hs as [-> _]; simpl; lia).
    simpl in Hf. destruct (IH ((pre ++ [Z.of_nat (length l)]) ++ l') f Hb ltac:(lia))
      as (ls' & -> & H3 & H4).
    exists (l' :: ls'). split; [|split; [by constructor|constructor; [|done]]].
    + f_equal. cbn [encode_labels]. destruct Hs as [-> _]. rewrite <- !app_assoc. simpl.
      by rewrite <- !app_assoc.
    + unfold wire_label in *. by destruct Hs as [-> _].
Qed.

Lemma same_case_dotted ls ls' :
  Forall2 same_case_label ls ls' -> lower_byte <$> dotted ls' = lower_byte <$> dotted ls.
Proof.
  induction 1 as [|l l' ls ls' [_ Hl] H IH]; [done|].
  destruct H as [|m m' ls ls' Hm H]; [done|].
  change (dotted (l' :: m' :: ls')) with (l' ++ 46 :: dotted (m' :: ls')).
  change (dotted (l :: m :: ls)) with (l ++ 46 :: dotted (m :: ls)).
  rewrite !fmap_app, !fmap_cons, Hl. by rewrite IH.
Qed.

Lemma wire_qtype_query header ls hi lo rest :
  length header = 12%nat -> Forall wire_label ls -> is_u 8 hi -> is_u 8 lo ->
  wire_qtype (wire_query header ls (hi :: lo :: rest)) = Some (hi * 256 + lo).
Proof.
  intros Hh Hls H1 H2. unfold wire_qtype, wire_query. rewrite <- Hh.
  pose proof (length_encode ls).
  rewrite skip_labels_encode by (done || (rewrite !length_app; lia)).
  rewrite app_assoc. rewrite lookup_app_r by (rewrite length_app; lia).
  rewrite lookup_app_r by (rewrite length_app; lia).
  rewrite length_app. rewrite Nat.sub_diag.
  replace (S (length header + length (encode_labels ls)) - (length header + length (encode_labels ls)))%nat
    with 1%nat by lia.
  simpl. f_equal. by apply land_shiftl_byte.
Qed.

Lemma wire_arpa_query header ls rest :
  length header = 12%nat -> Forall wire_label ls ->
  wire_question_is_arpa (wire_query header ls rest) =
    match last ls with Some l => eq_ignore_ascii_case l arpa | None => false end.
Proof.
  intros Hh Hls. unfold wire_question_is_arpa, wire_query. pose proof (length_encode ls).
  rewrite <- Hh, last_label_encode by (done || (rewrite !length_app; lia)). by destruct (last ls).
Qed.

Lemma of_be_bytes_app l k :
  of_be_bytes (l ++ k) = of_be_bytes l * 256 ^ Z.of_nat (length k) + of_be_bytes k.
Proof. unfold of_be_bytes at 1. rewrite foldl_app. by rewrite of_be_bytes_acc. Qed.

Lemma take_be_bytes m k z : take m (be_bytes (m + k) z) = be_bytes m (z / 256 ^ Z.of_nat k).
Proof.
  induction m as [|m IH]; [done|]. cbn [be_bytes Nat.add take]. f_equal; [|done].
  rewrite Z.div_div by lia. do 2 f_equal. rewrite <- Z.pow_add_r by lia. f_equal. lia.
Qed.

(** * Properties *)

(** The byte-level readers agree with the message: on a query that spells out a
    name of well-formed labels, the type read is the two bytes after the name and
    the [arpa.] gate fires exactly when the last label is [arpa] in any letter
    case, so [notarpa.] and [arpa.example.com.] pass. *)
Theorem wire_readers_exact header ls hi lo rest :
  length header = 12%nat -> Forall wire_label ls -> is_u 8 hi -> is_u 8 lo ->
  let q := wire_query header ls (hi :: lo :: rest) in
  wire_qtype q = Some (hi * 256 + lo) /\
  (wire_question_is_arpa q = true <-> exists l, last ls = Some l /\ lower_byte <$> l = arpa) /\
  extract_qname (drop 12 q) = Some (dotted ls ++ [46]).
Proof.
  intros Hh Hls H1 H2. cbn zeta. split; [by apply wire_qtype_query|]. split.
  - rewrite wire_arpa_query by done. destruct (last ls) as [l|].
    + unfold eq_ignore_ascii_case. rewrite bool_decide_eq_true.
      change (lower_byte <$> arpa) with arpa. split; [by eauto|]. by intros (l' & [= ->] & ->).
    + split; [done|]. by intros (l & ? & _).
  - unfold wire_query. rewrite <- Hh, drop_app_length. by apply extract_qname_encode.
Qed.

(** Randomising the letter case of a query always succeeds on a well-formed
    one and changes nothing but letter case: header, length, type and the rest are
    kept byte for byte, the two names returned are those of the original and of
    the query sent, equal but for case, and the [arpa.] gate decides the same. *)
Theorem randomize_keeps_question coin header ls hi lo rest :
  length header = 12%nat -> Forall wire_label ls -> Forall (Forall (is_u 8)) ls ->
  is_u 8 hi -> is_u 8 lo ->
  let q := wire_query header ls (hi :: lo :: rest) in
  exists ls', Forall2 same_case_label ls ls' /\
    let q' := wire_query header ls' (hi :: lo :: rest) in
    randomize_qname_case coin q = Some (q', dotted ls ++ [46], dotted ls' ++ [46]) /\
    lower_byte <$> dotted ls' = lower_byte <$> dotted ls /\
    wire_qtype q' = wire_qtype q /\ wire_question_is_arpa q' = wire_question_is_arpa q.
Proof.
  intros Hh Hls Hb H1 H2. cbn zeta. pose proof (length_encode ls) as Hlen.
  destruct (randomize_loop_encode coin ls header (hi :: lo :: rest)
    (S (length (wire_query header ls (hi :: lo :: rest)))) Hls Hb) as (ls' & E & Hs & Hw).
  { unfold wire_query. rewrite !length_app. lia. }
  exists ls'. split; [done|]. split; [|split; [by apply same_case_dotted|split]].
  - unfold randomize_qname_case.
    assert (length (wire_query header ls (hi :: lo :: rest)) <? 13 = false)%nat as ->.
    { apply Nat.ltb_ge. unfold wire_query. rewrite !length_app. simpl.
      destruct ls; simpl; lia. }
    unfold wire_query in *. rewrite <- Hh in *. rewrite drop_app_length, extract_qname_encode by done.
    rewrite E, drop_app_length, extract_qname_encode by done. done.
  - by rewrite !wire_qtype_query.
  - rewrite !wire_arpa_query by done. clear - Hs.
    assert (match last ls, last ls' with
            | Some l, Some l' => same_case_label l l'
            | None, None => True | _, _ => False end) as H.
    { induction Hs as [|l l' ls ls' Hl Hs IH]; [done|]. rewrite !last_cons.
      by destruct (last ls), (last ls'). }
    destruct (last ls) as [l|], (last ls') as [l'|]; try done.
    unfold eq_ignore_ascii_case. destruct H as [_ ->]. done.
Qed.

(** The DNS64 address of an IPv4 address carries it in its low 32 bits under the
    prefix's high 96, whatever the prefix's own low bits. *)
Theorem dns64_embeds prefix ipv4 :
  is_u 128 prefix -> is_u 32 ipv4 ->
  synthesize_dns64_address prefix ipv4 = (prefix / 2 ^ 32) * 2 ^ 32 + ipv4 /\
  is_u 128 (synthesize_dns64_address prefix ipv4).
Proof.
  intros Hp H4.
  assert (synthesize_dns64_address prefix ipv4 = (prefix / 2 ^ 32) * 2 ^ 32 + ipv4) as E.
  { unfold synthesize_dns64_address. rewrite of_be_bytes_app.
    change 16%nat with (12 + 4)%nat. rewrite take_be_bytes, !of_be_bytes_be_bytes.
    rewrite length_be_bytes. unfold is_u in *. change (256 ^ Z.of_nat 4) with (2 ^ 32).
    change (256 ^ Z.of_nat 12) with (2 ^ 96).
    rewrite (Z.mod_small ipv4) by lia. rewrite (Z.mod_small (prefix / 2 ^ 32)); [done|].
    split; [apply Z.div_pos; lia|]. apply Z.div_lt_upper_bound; lia. }
  split; [done|]. rewrite E. unfold is_u in *.
  pose proof (Z.div_mod prefix (2 ^ 32)). pose proof (Z.mod_pos_bound prefix (2 ^ 32)).
  assert (0 <= prefix / 2 ^ 32 < 2 ^ 96).
  { split; [apply Z.div_pos; lia|]. apply Z.div_lt_upper_bound; lia. }
  lia.
Qed.

(** * Witnesses *)

(** [1.aRpA.], asking for type 12. *)
Definition sample_header : list Z := repeat 0 12.
Definition sample_labels : list (list Z) := [[49]; [97; 82; 112; 65]].

Lemma sample_labels_ok : Forall wire_label sample_labels /\ Forall (Forall (is_u 8)) sample_labels.
Proof. unfold wire_label, is_u. split; repeat constructor; simpl; lia. Defined.

Lemma wire_readers_exact_witness :
  wire_question_is_arpa (wire_query sample_header sample_labels [0; 12; 0; 1]) = true /\
  wire_qtype (wire_query sample_header sample_labels [0; 12; 0; 1]) = Some 12.
Proof.
  destruct (wire_readers_exact sample_header sample_labels 0 12 [0; 1] eq_refl
    (proj1 sample_labels_ok)) as (H1 & H2 & _); [unfold is_u; lia..|].
  split; [|exact H1]. apply H2. exists [97; 82; 112; 65]. split; reflexivity.
Defined.

Lemma randomize_keeps_question_witness :
  exists ls', Forall2 same_case_label sample_labels ls' /\
    randomize_qname_case Nat.even (wire_query sample_header sample_labels [0; 12; 0; 1]) =
      Some (wire_query sample_header ls' [0; 12; 0; 1], dotted sample_labels ++ [46], dotted ls' ++ [46]).
Proof.
  destruct (randomize_keeps_question Nat.even sample_header sample_labels 0 12 [0; 1] eq_refl
    (proj1 sample_labels_ok) (proj2 sample_labels_ok)) as (ls' & H1 & H2 & _);
    [unfold is_u; lia..|].
  exists ls'. split; [exact H1|exact H2].
Defined.

Lemma dns64_embeds_witness :
  synthesize_dns64_address (100 * 2 ^ 112 + 65435 * 2 ^ 96) 3221226241 =
  (100 * 2 ^ 112 + 65435 * 2 ^ 96) / 2 ^ 32 * 2 ^ 32 + 3221226241.
Proof. apply dns64_embeds; unfold is_u; lia. Defined.
