(* ===== verification/Nsec.v ===== *)
(** Authenticated denial of existence ([src/src/dnssec.rs]): canonical name order,
    the NSEC chain of a zone and the range each of its links proves empty. The
    chain is shown to tile the name space: a name is either an owner of the chain
    or covered by exactly one link. *)

From S2P Require Import Prelude RustStr Names Ip Records Rrsig Scopes.
From stdpp Require Import base gmap sets list option strings sorting.
From Stdlib Require Import ZArith Lia Bool Ascii.

Local Open Scope rolodex_scope.

(** * Canonical order *)

(** The loop over the labels both names have. *)
Fixpoint cmp_common (a b : list string) : comparison :=
  match a, b with
  | x :: a', y :: b' =>
      match String.compare (to_lowercase x) (to_lowercase y) with
      | Eq => cmp_common a' b'
      | c => c
      end
  | _, _ => Eq
  end.

Definition canonical_labels (n : string) : list string :=
  reverse (split_on "." (trim_end_matches "." n)).

(** [canonical_name_cmp]: labels from the right, case folded. *)
Definition canonical_name_cmp (a b : string) : comparison :=
  let a_labels := canonical_labels a in
  let b_labels := canonical_labels b in
  match cmp_common a_labels b_labels with
  | Eq => Nat.compare (length a_labels) (length b_labels)
  | c => c
  end.

Definition cmp_is (c d : comparison) : bool :=
  match c, d with Eq, Eq | Lt, Lt | Gt, Gt => true | _, _ => false end.

(** [nsec_covers]: the open range from [owner] to [next], wrapping at the end. *)
Definition nsec_covers (owner next name : string) : bool :=
  if cmp_is (canonical_name_cmp next owner) Gt
  then cmp_is (canonical_name_cmp owner name) Lt && cmp_is (canonical_name_cmp name next) Lt
  else cmp_is (canonical_name_cmp owner name) Lt || cmp_is (canonical_name_cmp name next) Lt.

(** * The records *)

Record Nsec := mkNsec { next_owner : string; types : list RecordKind }.

Inductive nsec_error := EmptyNsec | UnknownNsecType.

Fixpoint parse_kinds (fields : list string) : result (list RecordKind) nsec_error :=
  match fields with
  | [] => Ok []
  | f :: fs =>
      match parse_kind f with
      | None => Err UnknownNsecType
      | Some k => ks <-? parse_kinds fs; Ok (k :: ks)
      end
  end.

Definition nsec_parse (value : string) : result Nsec nsec_error :=
  match split_ws value with
  | [] => Err EmptyNsec
  | owner :: fields => ks <-? parse_kinds fields; Ok (mkNsec owner ks)
  end.

(** [Vec::dedup]: consecutive repetitions collapse. *)
Fixpoint dedup {A} `{EqDecision A} (l : list A) : list A :=
  match l with
  | x :: ((y :: _) as l') => if decide (x = y) then dedup l' else x :: dedup l'
  | _ => l
  end.

Definition wire_le (a b : RecordKind) : bool := (wire_type a <=? wire_type b)%Z.

Definition nsec_to_value (n : Nsec) : string :=
  foldl (fun out t => out +:+ " " +:+ as_str t) (next_owner n)
    (dedup (merge_sort wire_le (types n))).

(** * The chain *)

(** One record's contribution to the types present at each name. *)
Definition chain_record (apex : string) (by_name : gmap string (list RecordKind)) (r : DnsRecord)
  : gmap string (list RecordKind) :=
  let name := normalize_name (r_name r) in
  let at_name := default [] (by_name !! name) in
  if negb (name_in_zone name apex) then by_name
  else match r_type r with
       | RRSIG | NSEC => by_name
       | ANAME => <[name := at_name]> by_name
       | kind => <[name := at_name ++ [kind]]> by_name
       end.

Definition chain_names (zone : string) (records : list DnsRecord) : gmap string (list RecordKind) :=
  let apex := normalize_name zone in
  let by_name := foldl (chain_record apex) ∅ records in
  <[apex := default [] (by_name !! apex)]> by_name.

Definition canonical_le (a b : string) : bool := negb (cmp_is (canonical_name_cmp a b) Gt).

Definition ordered_names (names : gmap string (list RecordKind)) : list string :=
  merge_sort canonical_le (sort_text (map_to_list names).*1).

Definition build_nsec_chain (zone : string) (records : list DnsRecord) : list (string * Nsec) :=
  let names := chain_names zone records in
  let ordered := ordered_names names in
  imap (fun i owner =>
    (owner, mkNsec (match ordered !! S i with Some n => n | None => default "" (ordered !! O) end)
                   (default [] (names !! owner) ++ [NSEC; RRSIG]))) ordered.

(** * Canonical order is a strict total order *)

Section Lex.
Context {A : Type} (cmp : A -> A -> comparison).
Context (cmp_eq : forall x y, cmp x y = Eq <-> x = y).
Context (cmp_opp : forall x y, cmp x y = CompOpp (cmp y x)).
Context (cmp_trans : forall x y z, cmp x y = Lt -> cmp y z = Lt -> cmp x z = Lt).

Fixpoint lex (a b : list A) : comparison :=
  match a, b with
  | [], [] => Eq
  | [], _ => Lt
  | _, [] => Gt
  | x :: a', y :: b' => match cmp x y with Eq => lex a' b' | c => c end
  end.

Lemma lex_eq a b : lex a b = Eq <-> a = b.
Proof.
  revert b. induction a as [|x a IH]; intros [|y b]; simpl; try done.
  destruct (cmp x y) eqn:E; [apply cmp_eq in E; subst; rewrite IH; split; congruence| |];
    (split; [done|]); intros [= -> ->]; by rewrite (proj2 (cmp_eq y y)) in E.
Qed.

Lemma lex_opp a b : lex a b = CompOpp (lex b a).
Proof.
  revert b. induction a as [|x a IH]; intros [|y b]; simpl; try done.
  rewrite (cmp_opp x y). destruct (cmp y x); simpl; [apply IH|done|done].
Qed.

Lemma lex_trans a b c : lex a b = Lt -> lex b c = Lt -> lex a c = Lt.
Proof.
  revert b c. induction a as [|x a IH]; intros [|y b] [|z c]; simpl; try done.
  destruct (cmp x y) eqn:E1, (cmp y z) eqn:E2; try done.
  - apply cmp_eq in E1, E2. subst. rewrite (proj2 (cmp_eq z z)) by done. eauto.
  - apply cmp_eq in E1 as ->. by rewrite E2.
  - apply cmp_eq in E2 as ->. by rewrite E1.
  - by rewrite (cmp_trans _ _ _ E1 E2).
Qed.

Definition lex_le (a b : list A) : bool := match lex a b with Gt => false | _ => true end.

Lemma lex_le_total : Total (fun a b => lex_le a b).
Proof. intros a b. unfold lex_le. rewrite (lex_opp b a). destruct (lex a b); naive_solver. Qed.

Lemma lex_le_trans : Transitive (fun a b => lex_le a b).
Proof.
  intros a b c. unfold lex_le. destruct (lex a b) eqn:E1; [apply lex_eq in E1 as ->; done| |done].
  destruct (lex b c) eqn:E2; [apply lex_eq in E2 as <-; by rewrite E1| |done].
  by rewrite (lex_trans a b c).
Qed.

Lemma lex_le_antisym : AntiSymm (=) (fun a b => lex_le a b).
Proof.
  intros a b. unfold lex_le. rewrite (lex_opp b a).
  destruct (lex a b) eqn:E; [by apply lex_eq in E|done..].
Qed.
End Lex.

Lemma ascii_cmp_trans x y z : Ascii.compare x y = Lt -> Ascii.compare y z = Lt -> Ascii.compare x z = Lt.
Proof. unfold Ascii.compare. rewrite !N.compare_lt_iff. lia. Qed.

Lemma ascii_cmp_eq x y : Ascii.compare x y = Eq <-> x = y.
Proof.
  split; [apply Ascii.compare_eq_iff|intros ->]. unfold Ascii.compare. by apply N.compare_eq_iff.
Qed.

Lemma string_cmp_lex s t :
  String.compare s t = lex Ascii.compare (String.list_ascii_of_string s) (String.list_ascii_of_string t).
Proof. revert t. induction s as [|c s IH]; intros [|d t]; simpl; try done. by rewrite IH. Qed.

Lemma string_cmp_eq s t : String.compare s t = Eq <-> s = t.
Proof.
  split; [apply String.compare_eq_iff|intros ->]. rewrite string_cmp_lex.
  by apply (lex_eq _ ascii_cmp_eq).
Qed.

Lemma string_cmp_trans s t u :
  String.compare s t = Lt -> String.compare t u = Lt -> String.compare s u = Lt.
Proof. rewrite !string_cmp_lex. by apply lex_trans; [apply ascii_cmp_eq|apply ascii_cmp_trans]. Qed.

(** The order is the lexicographic one on case-folded labels from the right. *)
Definition canonical_key (n : string) : list string := to_lowercase <$> canonical_labels n.

Lemma canonical_cmp_lex a b :
  canonical_name_cmp a b = lex String.compare (canonical_key a) (canonical_key b).
Proof.
  unfold canonical_name_cmp, canonical_key. generalize (canonical_labels a), (canonical_labels b).
  induction l as [|x l IH]; intros [|y k]; simpl; try done. rewrite <- IH.
  by destruct (String.compare _ _).
Qed.

Definition canonical_lt (a b : string) : Prop := canonical_name_cmp a b = Lt.

Lemma canonical_lt_trans : Transitive canonical_lt.
Proof.
  intros a b c. unfold canonical_lt. rewrite !canonical_cmp_lex.
  apply lex_trans; [apply string_cmp_eq|apply string_cmp_trans].
Qed.

Lemma canonical_cmp_opp a b : canonical_name_cmp a b = CompOpp (canonical_name_cmp b a).
Proof. rewrite !canonical_cmp_lex. apply lex_opp, String.compare_antisym. Qed.

Lemma canonical_cmp_Eq a b : canonical_name_cmp a b = Eq <-> canonical_key a = canonical_key b.
Proof. rewrite canonical_cmp_lex. apply lex_eq, string_cmp_eq. Qed.

Lemma canonical_lt_irrefl a : ~ canonical_lt a a.
Proof. unfold canonical_lt. by rewrite (proj2 (canonical_cmp_Eq a a)). Qed.

Lemma canonical_key_split n :
  canonical_key n = reverse (split_on "." (trim_end_matches "." (normalize_name n))).
Proof.
  unfold canonical_key, canonical_labels, normalize_name.
  rewrite fmap_reverse, <- split_on_lower, <- trim_end_lower.
  destruct (ends_with_char "." (to_lowercase n)); [done|]. by rewrite trim_end_snoc.
Qed.

Lemma canonical_key_inj a b :
  valid_name a = true -> valid_name b = true -> canonical_key a = canonical_key b ->
  normalize_name a = normalize_name b.
Proof.
  intros [Ha Hla]%valid_name_spec [Hb Hlb]%valid_name_spec.
  rewrite !canonical_key_split, Ha, Hb, !trim_fqdn by done.
  assert (forall ls, Forall label ls -> ls <> [] -> split_on "." (str_join "." ls) = ls) as Hs
    by (intros ls H1 H2; by apply split_join; [|apply label_free]).
  intros E%(inj reverse).
  destruct (labels_of a) as [|x l] eqn:Ea, (labels_of b) as [|y k] eqn:Eb; [done| | |].
  - rewrite (Hs (y :: k)) in E by done. simplify_eq/=. by inversion_clear Hlb as [|?? (? & _) _].
  - rewrite (Hs (x :: l)) in E by done. simplify_eq/=. by inversion_clear Hla as [|?? (? & _) _].
  - rewrite !Hs in E by done. by rewrite E.
Qed.

(** * Links of a sorted list *)

(** The link from the [i]th name. *)
Definition link_next (names : list string) (i : nat) : string :=
  match names !! S i with Some n => n | None => default "" (names !! O) end.

Lemma sorted_lookup_lt (names : list string) i j a b :
  StronglySorted canonical_lt names -> (i < j)%nat -> names !! i = Some a -> names !! j = Some b ->
  canonical_lt a b.
Proof.
  intros Hs. revert i j. induction Hs as [|x l Hs IH Hx]; intros i j Hij Hi Hj; [done|].
  destruct i as [|i], j as [|j]; simpl in *; [lia| |lia|apply (IH i j); [lia|done..]].
  simplify_eq. rewrite Forall_forall in Hx. apply Hx. by eapply list_elem_of_lookup_2.
Qed.

(** [x] precedes nothing that comes before what it precedes. *)
Lemma sorted_lt_later (names : list string) i j a b x :
  StronglySorted canonical_lt names -> (i <= j)%nat -> names !! i = Some a -> names !! j = Some b ->
  canonical_lt x a -> canonical_lt x b.
Proof.
  intros Hs Hij Ha Hb Hx. destruct (decide (i = j)) as [->|]; [congruence|].
  eapply canonical_lt_trans; [done|]. eapply (sorted_lookup_lt names i j); eauto; lia.
Qed.

Lemma canonical_lt_asym a b : canonical_lt a b -> ~ canonical_lt b a.
Proof. unfold canonical_lt. intros H. rewrite canonical_cmp_opp, H. done. Qed.

Lemma cmp_is_Lt a b : cmp_is (canonical_name_cmp a b) Lt = true <-> canonical_lt a b.
Proof. unfold canonical_lt. by destruct (canonical_name_cmp a b). Qed.

Lemma nsec_covers_cases o n x :
  nsec_covers o n x = true <->
  (canonical_lt o n /\ canonical_lt o x /\ canonical_lt x n) \/
  (~ canonical_lt o n /\ (canonical_lt o x \/ canonical_lt x n)).
Proof.
  unfold nsec_covers. rewrite canonical_cmp_opp.
  assert (canonical_lt o n <-> canonical_name_cmp o n = Lt) as Hon by done.
  destruct (canonical_name_cmp o n) eqn:E; simpl;
    rewrite ?andb_true_iff, ?orb_true_iff, !cmp_is_Lt, Hon; naive_solver.
Qed.

Lemma link_covers (names : list string) i o x :
  StronglySorted canonical_lt names -> names !! i = Some o ->
  nsec_covers o (link_next names i) x = true <->
  match names !! S i with
  | Some n => canonical_lt o x /\ canonical_lt x n
  | None => canonical_lt o x \/ canonical_lt x (default "" (names !! O))
  end.
Proof.
  intros Hs Hi. rewrite nsec_covers_cases. unfold link_next. destruct (names !! S i) as [n|] eqn:En.
  - assert (canonical_lt o n) by (eapply (sorted_lookup_lt names i (S i)); eauto). naive_solver.
  - destruct (names !! O) as [f|] eqn:Ef; [|apply lookup_ge_None in Ef; apply lookup_lt_Some in Hi; lia].
    simpl. assert (~ canonical_lt o f); [|naive_solver]. intros Hof. destruct i as [|i].
    + simplify_eq. by eapply canonical_lt_irrefl.
    + eapply (canonical_lt_asym o f); [done|]. eapply (sorted_lookup_lt names 0 (S i)); eauto; lia.
Qed.

(** A name that is none of the sorted names falls in one gap. *)
Lemma sorted_gap (names : list string) x :
  StronglySorted canonical_lt names -> names <> [] ->
  Forall (fun o => canonical_name_cmp o x <> Eq) names ->
  (exists f, names !! O = Some f /\ canonical_lt x f) \/
  (exists i o, names !! i = Some o /\ canonical_lt o x /\
    forall n, names !! S i = Some n -> canonical_lt x n).
Proof.
  induction 1 as [|o l Hs IH Hx]; intros Hne Hall; [done|]. inversion_clear Hall as [|?? Ho Hl].
  destruct (canonical_name_cmp o x) eqn:E; [done| |].
  - right. destruct l as [|r l]; [by exists O, o|].
    destruct IH as [(f & Hf & Hlt)|(i & p & Hi & H1 & H2)]; [done..| |].
    + exists O, o. split_and!; [done|done|]. intros n Hn. simpl in *. congruence.
    + by exists (S i), p.
  - left. exists o. split; [done|]. unfold canonical_lt. by rewrite canonical_cmp_opp, E.
Qed.

Lemma links_tile (names : list string) x :
  StronglySorted canonical_lt names -> names <> [] ->
  Forall (fun o => canonical_name_cmp o x <> Eq) names ->
  exists i o, names !! i = Some o /\ nsec_covers o (link_next names i) x = true /\
    forall j p, names !! j = Some p -> nsec_covers p (link_next names j) x = true -> j = i.
Proof.
  intros Hs Hne Hall.
  assert (forall i j o p, (i < j)%nat -> names !! i = Some o -> names !! j = Some p ->
    nsec_covers o (link_next names i) x = true -> nsec_covers p (link_next names j) x = true -> False)
    as Hone.
  { intros i j o p Hij Hi Hj. rewrite !link_covers by done.
    destruct (names !! S i) as [n|] eqn:En;
      [|apply lookup_ge_None in En; apply lookup_lt_Some in Hj; lia].
    intros [Hox Hxn] Hjc. assert (~ canonical_lt p x) as Hpx.
    { apply canonical_lt_asym. eapply (sorted_lt_later names (S i) j); eauto; lia. }
    destruct (names !! S j) as [m|] eqn:Em; [by destruct Hjc|].
    destruct Hjc as [|Hxf]; [done|].
    destruct (names !! O) as [f|] eqn:Ef; [|apply lookup_ge_None in Ef; apply lookup_lt_Some in Hi; lia].
    eapply (canonical_lt_asym o x); [done|]. eapply (sorted_lt_later names 0 i); eauto; lia. }
  assert (exists i o, names !! i = Some o /\ nsec_covers o (link_next names i) x = true)
    as (i & o & Hi & Hc).
  { destruct (sorted_gap names x Hs Hne Hall) as [(f & Hf & Hlt)|(i & o & Hi & H1 & H2)].
    - destruct (lookup_lt_is_Some_2 names (length names - 1)) as [o Ho].
      { apply lookup_lt_Some in Hf. lia. }
      exists (length names - 1)%nat, o. split; [done|]. rewrite link_covers by done.
      rewrite lookup_ge_None_2 by lia. rewrite Hf. by right.
    - exists i, o. split; [done|]. rewrite link_covers by done.
      destruct (names !! S i); [split; [done|by apply H2]|by left]. }
  exists i, o. split_and!; [done..|]. intros j p Hj Hcj.
  destruct (Nat.lt_trichotomy i j) as [Hlt|[->|Hlt]]; [exfalso|done|exfalso];
    [by apply (Hone i j o p)|by apply (Hone j i p o)].
Qed.

(** No link covers one of the names itself. *)
Lemma links_skip_owners (names : list string) i j o p :
  StronglySorted canonical_lt names -> names !! i = Some o -> names !! j = Some p ->
  nsec_covers o (link_next names i) p = false.
Proof.
  intros Hs Hi Hj. apply not_true_iff_false. rewrite link_covers by done.
  assert (forall a b x y, names !! a = Some x -> names !! b = Some y -> canonical_lt x y -> (a < b)%nat)
    as Hlt.
  { intros a b x y Ha Hb Hxy. destruct (Nat.lt_trichotomy a b) as [|[->|Hba]]; [done| |]; exfalso.
    - simplify_eq. by eapply canonical_lt_irrefl.
    - eapply (canonical_lt_asym x y); [done|]. by eapply (sorted_lookup_lt names b a). }
  destruct (names !! S i) as [n|] eqn:En.
  - intros [H1%(Hlt i j) H2%(Hlt j (S i))]; [lia|done..].
  - intros [H1|H2].
    + apply (Hlt i j) in H1; [|done..]. apply lookup_ge_None in En. apply lookup_lt_Some in Hj. lia.
    + destruct (names !! O) as [f|] eqn:Ef; [|apply lookup_ge_None in Ef; apply lookup_lt_Some in Hi; lia].
      apply (Hlt j 0%nat) in H2; [lia|done..].
Qed.

(** * The names of the chain *)

Lemma canonical_le_Prop a b : canonical_le a b <-> ~ canonical_lt b a.
Proof.
  unfold canonical_le, canonical_lt. rewrite canonical_cmp_opp.
  by destruct (canonical_name_cmp b a).
Qed.

Lemma canonical_le_lex a b :
  canonical_le a b = lex_le String.compare (canonical_key a) (canonical_key b).
Proof. unfold canonical_le, lex_le. rewrite canonical_cmp_lex. by destruct (lex _ _ _). Qed.

#[local] Instance canonical_le_total : Total (fun a b => canonical_le a b).
Proof.
  intros a b. rewrite !canonical_le_lex.
  apply lex_le_total; [apply string_cmp_eq|apply String.compare_antisym].
Qed.

#[local] Instance canonical_le_trans : Transitive (fun a b => canonical_le a b).
Proof.
  intros a b c. rewrite !canonical_le_lex. apply lex_le_trans; [apply string_cmp_eq|].
  apply string_cmp_trans.
Qed.

Lemma ordered_names_perm names : ordered_names names ≡ₚ (map_to_list names).*1.
Proof. unfold ordered_names, sort_text. by rewrite !merge_sort_Permutation. Qed.

Lemma elem_ordered names o : o ∈ ordered_names names <-> is_Some (names !! o).
Proof.
  rewrite ordered_names_perm. rewrite list_elem_of_fmap. split.
  - intros ([o' ks] & -> & H%elem_of_map_to_list). eauto.
  - intros [ks H]. exists (o, ks). by rewrite elem_of_map_to_list.
Qed.

(** Names in normal form are ordered strictly. *)
Lemma ordered_names_sorted names :
  (forall o, is_Some (names !! o) -> valid_name o = true /\ normalize_name o = o) ->
  StronglySorted canonical_lt (ordered_names names).
Proof.
  intros Hv.
  assert (Forall (fun o => valid_name o = true /\ normalize_name o = o) (ordered_names names)) as Hall
    by (rewrite Forall_forall; intros o Ho%elem_ordered; by apply Hv).
  assert (NoDup (ordered_names names)) as Hnd
    by (rewrite ordered_names_perm; apply NoDup_fst_map_to_list).
  assert (StronglySorted (fun a b => canonical_le a b) (ordered_names names)) as Hs
    by (apply (Sorted_StronglySorted (fun a b => canonical_le a b)), Sorted_merge_sort, _).
  clear Hv. induction Hs as [|x l Hs IH Hx]; constructor.
  - inversion_clear Hall. inversion_clear Hnd. by apply IH.
  - apply NoDup_cons in Hnd as [Hnin _]. inversion_clear Hall as [|?? [Hvx Hnx] Hl].
    rewrite Forall_forall in Hx, Hl |- *. intros y Hy. destruct (Hl y Hy) as [Hvy Hny].
    specialize (Hx y Hy). rewrite canonical_le_Prop in Hx. unfold canonical_lt in *.
    destruct (canonical_name_cmp x y) eqn:E; [|done|].
    + exfalso. apply canonical_cmp_Eq, canonical_key_inj in E; [|done..].
      rewrite Hnx, Hny in E. by subst.
    + exfalso. apply Hx. by rewrite canonical_cmp_opp, E.
Qed.

(** The kinds a record puts into the bitmap of its owner. *)
Definition chained_at (apex o : string) (r : DnsRecord) : bool :=
  (normalize_name (r_name r) =? o)%string && name_in_zone o apex &&
  match r_type r with RRSIG | NSEC => false | _ => true end.

Definition bitmap_kinds (apex o : string) (records : list DnsRecord) : list RecordKind :=
  r_type <$> List.filter (fun r => chained_at apex o r && negb (bool_decide (r_type r = ANAME))) records.

Lemma chain_record_spec apex m r o :
  (is_Some (chain_record apex m r !! o) <-> is_Some (m !! o) \/ chained_at apex o r = true) /\
  default [] (chain_record apex m r !! o) = default [] (m !! o) ++ bitmap_kinds apex o [r].
Proof.
  unfold chain_record, bitmap_kinds, chained_at. cbn zeta. cbn [List.filter].
  destruct (String.eqb_spec (normalize_name (r_name r)) o) as [<-|Hne]; simpl.
  - destruct (name_in_zone _ apex); simpl; [|by rewrite app_nil_r; naive_solver].
    destruct (r_type r) eqn:E; simpl; rewrite ?lookup_insert_eq, ?app_nil_r; simpl;
      rewrite ?E; (split; [|done]); naive_solver.
  - rewrite app_nil_r. destruct (name_in_zone _ apex); simpl; [|naive_solver].
    destruct (r_type r); rewrite ?lookup_insert_ne by done; naive_solver.
Qed.

Lemma chain_fold_spec apex records m o :
  (is_Some (foldl (chain_record apex) m records !! o) <->
   is_Some (m !! o) \/ exists r, r ∈ records /\ chained_at apex o r = true) /\
  default [] (foldl (chain_record apex) m records !! o) =
    default [] (m !! o) ++ bitmap_kinds apex o records.
Proof.
  revert m. induction records as [|r rs IH]; intros m; simpl.
  { rewrite app_nil_r. split; [|done]. split; [by left|]. intros [?|(r & Hr & _)]; [done|set_solver]. }
  destruct (IH (chain_record apex m r)) as [IH1 IH2], (chain_record_spec apex m r o) as [H1 H2].
  rewrite IH1, IH2, H1, H2, <- app_assoc. split.
  - set_solver.
  - f_equal. unfold bitmap_kinds. simpl. by destruct (_ && _).
Qed.

Lemma chain_names_spec zone records o :
  let apex := normalize_name zone in
  (is_Some (chain_names zone records !! o) <->
   o = apex \/ exists r, r ∈ records /\ chained_at apex o r = true) /\
  default [] (chain_names zone records !! o) = bitmap_kinds apex o records.
Proof.
  intros apex. unfold chain_names. fold apex. cbn zeta.
  destruct (chain_fold_spec apex records ∅ o) as [H1 H2].
  destruct (decide (o = apex)) as [->|Hne].
  - rewrite lookup_insert_eq, H2. simpl. split; [|done]. split; eauto.
  - rewrite lookup_insert_ne by done. rewrite H1, H2, lookup_empty. simpl. split; [|done].
    split; [intros [[? ?]|?]; [done|by right]|intros [?|?]; [done|by right]].
Qed.

Lemma chained_at_valid apex o r :
  valid_name (r_name r) = true -> chained_at apex o r = true -> valid_name o = true /\ normalize_name o = o.
Proof.
  intros Hv. unfold chained_at. intros H. bool_hyps. subst.
  apply valid_name_spec in Hv as [-> Hl]. by rewrite fqdn_valid, normalize_fqdn.
Qed.

Lemma nsec_covers_normalize o n x : nsec_covers o n (normalize_name x) = nsec_covers o n x.
Proof.
  unfold nsec_covers. rewrite !canonical_cmp_lex.
  by rewrite !(canonical_key_split (normalize_name x)), normalize_name_idem, <- canonical_key_split.
Qed.

Lemma chain_lookup zone records i :
  build_nsec_chain zone records !! i =
  (fun o => (o, mkNsec (link_next (ordered_names (chain_names zone records)) i)
                  (bitmap_kinds (normalize_name zone) o records ++ [NSEC; RRSIG]))) <$>
  ordered_names (chain_names zone records) !! i.
Proof.
  unfold build_nsec_chain. cbn zeta. rewrite list_lookup_imap.
  destruct (_ !! i) as [o|]; simpl; [|done]. by rewrite (proj2 (chain_names_spec zone records o)).
Qed.

Lemma chain_owners zone records :
  (build_nsec_chain zone records).*1 = ordered_names (chain_names zone records).
Proof.
  apply list_eq. intros i. rewrite list_lookup_fmap, chain_lookup.
  by destruct (ordered_names _ !! i).
Qed.

Lemma chain_sorted zone records :
  valid_name zone = true -> Forall (fun r => valid_name (r_name r) = true) records ->
  StronglySorted canonical_lt (ordered_names (chain_names zone records)).
Proof.
  intros Hz Hr. apply ordered_names_sorted. intros o Ho.
  apply (proj1 (chain_names_spec zone records o)) in Ho as [->|(r & Hin & Hc)].
  - apply valid_name_spec in Hz as [-> Hl]. by rewrite fqdn_valid, normalize_fqdn.
  - rewrite Forall_forall in Hr. eapply chained_at_valid; [|done]. by apply Hr.
Qed.

(** * Properties *)

(** C28: the NSEC chain of a zone tiles the name space. Its owners are the apex and
    the names of the zone that hold records other than signatures and NSECs, each
    with the types present there; a name that is an owner is covered by no link;
    every other name is covered by exactly one link, so that a denial can always
    be proved and no name that exists can ever be denied. *)
Theorem nsec_chain_tiles zone records name :
  valid_name zone = true -> Forall (fun r => valid_name (r_name r) = true) records ->
  valid_name name = true ->
  let chain := build_nsec_chain zone records in
  let apex := normalize_name zone in
  (forall o, o ∈ chain.*1 <-> o = apex \/ exists r, r ∈ records /\ chained_at apex o r = true) /\
  Forall (fun l => types l.2 = bitmap_kinds apex l.1 records ++ [NSEC; RRSIG]) chain /\
  (normalize_name name ∈ chain.*1 ->
     Forall (fun l => nsec_covers l.1 (next_owner l.2) name = false) chain) /\
  (normalize_name name ∉ chain.*1 ->
     exists i l, chain !! i = Some l /\ nsec_covers l.1 (next_owner l.2) name = true /\
       forall j k, chain !! j = Some k -> nsec_covers k.1 (next_owner k.2) name = true -> j = i).
Proof.
  intros Hz Hr Hn chain apex. pose proof (chain_sorted zone records Hz Hr) as Hs.
  unfold chain. rewrite chain_owners. set (names := ordered_names _) in *. split_and!.
  - intros o. unfold names. rewrite elem_ordered. apply chain_names_spec.
  - apply Forall_lookup. intros i l. rewrite chain_lookup. fold names.
    destruct (names !! i); [|done]. by intros [= <-].
  - intros [j Hj]%list_elem_of_lookup. apply Forall_lookup. intros i l. rewrite chain_lookup.
    fold names. destruct (names !! i) as [o|] eqn:Hi; [|done]. intros [= <-]. simpl.
    rewrite <- nsec_covers_normalize. by eapply links_skip_owners.
  - intros Hnin.
    destruct (links_tile names name) as (i & o & Hi & Hc & Hu); [done| | |].
    + intros E. assert (apex ∈ names) as Hin; [|by rewrite E in Hin; apply elem_of_nil in Hin].
      unfold names. rewrite elem_ordered. apply chain_names_spec. by left.
    + rewrite Forall_forall. intros o Ho E%canonical_cmp_Eq.
      assert (valid_name o = true /\ normalize_name o = o) as [Hvo Hno].
      { unfold names in Ho. apply elem_ordered, chain_names_spec in Ho as [->|(r & Hin & Hch)].
        - apply valid_name_spec in Hz as [-> Hl]. by rewrite fqdn_valid, normalize_fqdn.
        - rewrite Forall_forall in Hr. eapply chained_at_valid; [|done]. by apply Hr. }
      apply canonical_key_inj in E; [|done..]. rewrite Hno in E. by subst.
    + eexists i, _. rewrite chain_lookup. fold names. rewrite Hi. split_and!; [done|done|].
      intros j k. rewrite chain_lookup. fold names. destruct (names !! j) as [p|] eqn:Hj; [|done].
      intros [= <-]. simpl. by apply Hu.
Qed.

Definition sample_zone : list DnsRecord :=
  [mkRecord None "Example.com." SOA "" 300 0; mkRecord None "www.example.com" A "192.0.2.1" 300 0;
   mkRecord None "www.example.com." RRSIG "" 300 0; mkRecord None "a.b.example.com." TXT "x" 300 0;
   mkRecord None "other.org." A "192.0.2.2" 300 0].

Lemma nsec_chain_tiles_witness :
  (build_nsec_chain "example.com" sample_zone).*1 =
    ["example.com."; "a.b.example.com."; "www.example.com."] /\
  exists i l, build_nsec_chain "example.com" sample_zone !! i = Some l /\
    nsec_covers l.1 (next_owner l.2) "mail.EXAMPLE.com" = true /\
    forall j k, build_nsec_chain "example.com" sample_zone !! j = Some k ->
      nsec_covers k.1 (next_owner k.2) "mail.EXAMPLE.com" = true -> j = i.
Proof.
  split; [vm_compute; reflexivity|].
  refine (proj2 (proj2 (proj2 (nsec_chain_tiles "example.com" sample_zone "mail.EXAMPLE.com" _ _ _))) _).
  - vm_compute; reflexivity.
  - repeat constructor.
  - vm_compute; reflexivity.
  - vm_compute. intros H. repeat (apply elem_of_cons in H as [H|H]; [discriminate|]).
    by apply elem_of_nil in H.
Defined.
