(* ===== verification/Rdata.v ===== *)
(** Canonical record data, signatures and key tags ([src/src/dnssec.rs]): the bytes
    a record is signed over, the bytes a signature covers, signing and verifying an
    RRset, and the DS text of a key. The cryptography, hexadecimal and base64 are
    interfaces with the laws their libraries document. *)

From S2P Require Import Prelude RustStr Names Ip Records Rrsig Scopes Nsec.
From stdpp Require Import base gmap sets list option strings sorting.
From Stdlib Require Import ZArith Lia Bool Ascii.

Open Scope Z_scope.
Local Open Scope rolodex_scope.

(** * Libraries *)

(** The [hex] crate. *)
Class Hex := {
  hex_enc : list Z -> string;
  hex_dec : string -> option (list Z);
}.

Class HexLaws `{!Hex} := {
  hex_dec_enc bs : Forall (is_u 8) bs -> hex_dec (hex_enc bs) = Some bs;
  hex_dec_odd s : Nat.odd (String.length s) = true -> hex_dec s = None;
  hex_no_space bs : str_forall (fun c => negb (is_space c)) (hex_enc bs) = true;
}.

(** [ring]'s key pairs, signatures and their verification. *)
Class Ring := {
  KeyPair : Type;
  kp_from_pkcs8 : DnssecAlgorithm -> list Z -> option KeyPair;
  kp_public_key : KeyPair -> list Z;
  kp_sign : KeyPair -> list Z -> option (list Z);
  ring_verify : DnssecAlgorithm -> list Z -> list Z -> list Z -> bool;
}.

(** A signature made with a key verifies under its public key. *)
Class RingLaws `{!Ring} := {
  ring_verify_sign alg bs kp msg sig :
    kp_from_pkcs8 alg bs = Some kp -> kp_sign kp msg = Some sig ->
    ring_verify alg (kp_public_key kp) msg sig = true;
  ring_sign_bytes kp msg sig : kp_sign kp msg = Some sig -> sig <> [] /\ Forall (is_u 8) sig;
}.

(** * Names and strings on the wire *)

Definition str_bytes (s : string) : list Z :=
  (fun c => Z.of_N (N_of_ascii c)) <$> String.list_ascii_of_string s.

Definition wire_labels (ls : list string) : list Z :=
  ls ≫= (fun l => as_u 8 (Z.of_nat (String.length l)) :: str_bytes l).

Definition canonical_name (name : string) : option (list Z) :=
  let lower := to_lowercase (str_trim name) in
  let trimmed := trim_end_matches "." lower in
  if (trimmed =? "")%string then Some [0]
  else
    let labels := split_on "." trimmed in
    if existsb (fun l => (l =? "")%string || (63 <? String.length l)%nat) labels then None
    else Some (wire_labels labels ++ [0]).

Definition label_count (name : string) : Z :=
  let lower := to_lowercase (str_trim name) in
  let trimmed := trim_end_matches "." lower in
  if (trimmed =? "")%string then 0
  else
    let labels := split_on "." trimmed in
    let labels := match labels with "*" :: ls => ls | _ => labels end in
    Z.of_nat (Nat.min (length labels) 255).

(** [chunks(255)], with the length octet of each chunk. *)
Fixpoint chunk_strings (fuel : nat) (bytes : list Z) : list Z :=
  match fuel, bytes with
  | S f, _ :: _ =>
      let chunk := take 255 bytes in
      as_u 8 (Z.of_nat (length chunk)) :: chunk ++ chunk_strings f (drop 255 bytes)
  | _, _ => []
  end.

Definition character_strings (value : string) : list Z :=
  let bytes := str_bytes value in
  match bytes with [] => [0] | _ => chunk_strings (length bytes) bytes end.

(** * Type bit maps *)

Definition empty_block : list Z := repeat 0 32.

Definition set_type (windows : gmap Z (list Z)) (code : Z) : gmap Z (list Z) :=
  let window := as_u 8 (Z.shiftr code 8) in
  let lo := as_u 8 (Z.land code 255) in
  let block := default empty_block (windows !! window) in
  let i := Z.to_nat (lo / 8) in
  <[window := <[i := Z.lor (default 0 (block !! i)) (Z.shiftr 128 (lo mod 8))]> block]> windows.

(** One past the last byte that is not zero. *)
Fixpoint used_length (block : list Z) : nat :=
  match block with
  | [] => 0
  | b :: bs =>
      match used_length bs with
      | O => if b =? 0 then 0 else 1
      | S n => S (S n)
      end
  end.

(** The windows, which a [BTreeMap] yields in order. *)
Definition encode_type_bitmap (codes : list Z) : list Z :=
  let windows := foldl set_type ∅ codes in
  merge_sort Z.le (map_to_list windows).*1 ≫= (fun window =>
    let block := default [] (windows !! window) in
    match used_length block with
    | O => []
    | len => window :: as_u 8 (Z.of_nat len) :: take len block
    end).

(** * Record data *)

Definition nsec_rdata (n : Nsec) : option (list Z) :=
  let codes := dedup (merge_sort Z.le (wire_type <$> types n)) in
  out ← canonical_name (next_owner n);
  Some (out ++ encode_type_bitmap codes).

Definition signed_prefix (r : Rrsig) : option (list Z) :=
  signer ← canonical_name (signer_name r);
  Some (be_bytes 2 (wire_type (type_covered r)) ++ [algorithm_u8 (algorithm r); labels r] ++
        be_bytes 4 (original_ttl r) ++ be_bytes 4 (expiration r) ++ be_bytes 4 (inception r) ++
        be_bytes 2 (key_tag r) ++ signer).

Definition rrsig_rdata (r : Rrsig) : option (list Z) :=
  out ← signed_prefix r; Some (out ++ signature r).

(** [parse::<uN>] of a decimal field. *)
Definition parse_u8 : string -> option Z := parse_uint 10 u8_max.
Definition parse_u16 : string -> option Z := parse_uint 10 u16_max.
Definition parse_u32 : string -> option Z := parse_uint 10 u32_max.

Definition u8_field (s : string) : option (list Z) := n ← parse_u8 s; Some [n].
Definition u16_field (s : string) : option (list Z) := n ← parse_u16 s; Some (be_bytes 2 n).
Definition u32_field (s : string) : option (list Z) := n ← parse_u32 s; Some (be_bytes 4 n).

(** [u16::try_from] of the priority column. *)
Definition try_u16 (n : Z) : option (list Z) := if n <=? u16_max then Some (be_bytes 2 n) else None.

(** The text from the first occurrence of [p] on. *)
Fixpoint find_from (p s : string) : option string :=
  if String.prefix p s then Some s
  else match s with String _ s' => find_from p s' | EmptyString => None end.

(** Fields in order, [None] where one does not encode. *)
Fixpoint concat_fields (l : list (option (list Z))) : option (list Z) :=
  match l with
  | [] => Some []
  | x :: l' => a ← x; b ← concat_fields l'; Some (a ++ b)
  end.

Section Rdata.
Context `{!Base64, !Hex}.
(** [svcb::canonical_rdata]. *)
Context (svcb_canonical_rdata : string -> option (list Z)).

Definition canonical_rdata (record : DnsRecord) : option (list Z) :=
  let value := str_trim (r_value record) in
  let fields := split_ws value in
  match r_type record with
  | A => ip ← parse_v4 value; Some (octets (V4 ip))
  | AAAA => ip ← parse_v6 value; Some (octets (V6 ip))
  | CNAME | NS | PTR | DNAME => canonical_name value
  | MX => concat_fields [try_u16 (r_priority record); canonical_name value]
  | TXT => Some (character_strings value)
  | SOA =>
      match fields with
      | mname :: rname :: f2 :: f3 :: f4 :: f5 :: f6 :: _ =>
          concat_fields [canonical_name mname; canonical_name rname;
            u32_field f2; u32_field f3; u32_field f4; u32_field f5; u32_field f6]
      | _ => None
      end
  | SRV =>
      match fields with
      | weight :: port :: target :: _ =>
          concat_fields [try_u16 (r_priority record); u16_field weight; u16_field port;
            canonical_name target]
      | _ => None
      end
  | SSHFP =>
      match fields with
      | f0 :: f1 :: f2 :: _ => concat_fields [u8_field f0; u8_field f1; hex_dec f2]
      | _ => None
      end
  | TLSA =>
      match fields with
      | f0 :: f1 :: f2 :: f3 :: _ => concat_fields [u8_field f0; u8_field f1; u8_field f2; hex_dec f3]
      | _ => None
      end
  | SVCB | HTTPS => svcb_canonical_rdata value
  | CERT =>
      match fields with
      | f0 :: f1 :: f2 :: f3 :: _ =>
          concat_fields [u16_field f0; u16_field f1; u8_field f2; b64_decode f3]
      | _ => None
      end
  | URI =>
      match fields with
      | f0 :: f1 :: f2 :: _ =>
          concat_fields [u16_field f0; u16_field f1;
            t ← find_from f2 value; Some (str_bytes (str_trim t))]
      | _ => None
      end
  | ZONEMD =>
      match fields with
      | f0 :: f1 :: f2 :: f3 :: _ =>
          concat_fields [u32_field f0; u8_field f1; u8_field f2; hex_dec f3]
      | _ => None
      end
  | DNSKEY =>
      match fields with
      | f0 :: f1 :: f2 :: f3 :: _ =>
          concat_fields [u16_field f0; u8_field f1; u8_field f2; b64_decode f3]
      | _ => None
      end
  | DS =>
      match fields with
      | f0 :: f1 :: f2 :: f3 :: _ =>
          concat_fields [u16_field f0; u8_field f1; u8_field f2; hex_dec f3]
      | _ => None
      end
  | RRSIG => match rrsig_parse value with Ok r => rrsig_rdata r | Err _ => None end
  | NSEC => match nsec_parse value with Ok n => nsec_rdata n | Err _ => None end
  | ANAME | NSEC3 | NSEC3PARAM => None
  end.

(** * Signing *)

Inductive sign_error :=
  NotEncodable | BadOwner | BadSigner | RdataTooLong | EmptyRrset | SignsRrsig | SignFailed
| UnsupportedAlgorithm | BadKeyMaterial | BadKeyLength | ParseFailed | VerifyFailed.

(** The order of [Vec<u8>]. *)
Definition bytes_le (a b : list Z) : bool := lex_le Z.compare a b.

Fixpoint encode_all (rrset : list DnsRecord) : result (list (list Z)) sign_error :=
  match rrset with
  | [] => Ok []
  | r :: rs =>
      rdata <-? ok_or (canonical_rdata r) NotEncodable;
      rest <-? encode_all rs;
      Ok (rdata :: rest)
  end.

Fixpoint append_rrs (rrsig : Rrsig) (owner_wire : list Z) (rdatas : list (list Z)) (input : list Z)
  : result (list Z) sign_error :=
  match rdatas with
  | [] => Ok input
  | rdata :: rest =>
      len <-? (if Z.of_nat (length rdata) <=? u16_max then Ok (Z.of_nat (length rdata))
               else Err RdataTooLong);
      append_rrs rrsig owner_wire rest
        (input ++ owner_wire ++ be_bytes 2 (wire_type (type_covered rrsig)) ++ be_bytes 2 1 ++
         be_bytes 4 (original_ttl rrsig) ++ be_bytes 2 len ++ rdata)
  end.

Definition signing_input (rrsig : Rrsig) (owner : string) (rrset : list DnsRecord)
  : result (list Z) sign_error :=
  rdatas <-? encode_all rrset;
  let rdatas := dedup (merge_sort (fun a b => bytes_le a b) rdatas) in
  owner_wire <-? ok_or (canonical_name owner) BadOwner;
  input <-? ok_or (signed_prefix rrsig) BadSigner;
  append_rrs rrsig owner_wire rdatas input.

Inductive KeyType := ZSK | KSK.

Definition key_flags (k : KeyType) : Z := match k with ZSK => 256 | KSK => 257 end.

(** [compute_key_tag]: a sum of the DNSKEY data in 16-bit words, in a [u32]. *)
Definition dnskey_rdata (alg : DnssecAlgorithm) (kt : KeyType) (public_key : list Z) : list Z :=
  be_bytes 2 (key_flags kt) ++ [3; algorithm_u8 alg] ++ public_key.

Definition tag_step (acc : Z * bool) (byte : Z) : Z * bool :=
  let (ac, even) := acc in
  (as_u 32 (ac + (if even : bool then Z.shiftl byte 8 else byte)), negb even).

Definition compute_key_tag (alg : DnssecAlgorithm) (kt : KeyType) (public_key : list Z) : Z :=
  let ac := (foldl tag_step (0, true) (dnskey_rdata alg kt public_key)).1 in
  let ac := as_u 32 (ac + Z.land (Z.shiftr ac 16) 65535) in
  as_u 16 (Z.land ac 65535).

Context `{!Ring}.

Record SigningKey := mkKey {
  sk_algorithm : DnssecAlgorithm;
  sk_key_type : KeyType;
  sk_key_tag : Z;
  sk_public_key : list Z;
  sk_material : KeyPair;
}.

Definition from_pkcs8 (alg : DnssecAlgorithm) (kt : KeyType) (pkcs8 : list Z)
  : result SigningKey sign_error :=
  if negb (signing_supported alg) then Err UnsupportedAlgorithm
  else
    loaded <-? match alg with
               | Ed25519 =>
                   kp <-? ok_or (kp_from_pkcs8 alg pkcs8) BadKeyMaterial;
                   Ok (kp, kp_public_key kp)
               | EcdsaP256Sha256 | EcdsaP384Sha384 =>
                   kp <-? ok_or (kp_from_pkcs8 alg pkcs8) BadKeyMaterial;
                   match kp_public_key kp with
                   | 4 :: xy => Ok (kp, xy)
                   | _ => Err BadKeyMaterial
                   end
               | RsaSha256 => Err UnsupportedAlgorithm
               end;
    let (material, public_key) := loaded : KeyPair * list Z in
    if bool_decide (public_key_len alg = Some (Z.of_nat (length public_key)))
    then Ok (mkKey alg kt (compute_key_tag alg kt public_key) public_key material)
    else Err BadKeyLength.

Record RrsetToSign := mkSet {
  signer_zone : string;
  set_owner : string;
  set_type_covered : RecordKind;
  set_original_ttl : Z;
  set_rrset : list DnsRecord;
  set_inception : Z;
  set_expiration : Z;
}.

Definition unsigned (key : SigningKey) (set : RrsetToSign) : Rrsig :=
  mkRrsig (set_type_covered set) (sk_algorithm key) (label_count (set_owner set))
    (set_original_ttl set) (set_expiration set) (set_inception set) (sk_key_tag key)
    (normalize_name (signer_zone set)) [].

Definition with_signature (r : Rrsig) (sig : list Z) : Rrsig :=
  mkRrsig (type_covered r) (algorithm r) (labels r) (original_ttl r) (expiration r) (inception r)
    (key_tag r) (signer_name r) sig.

Definition sign_rrset (key : SigningKey) (set : RrsetToSign) : result string sign_error :=
  if bool_decide (set_rrset set = []) then Err EmptyRrset
  else if bool_decide (set_type_covered set = RRSIG) then Err SignsRrsig
  else
    input <-? signing_input (unsigned key set) (set_owner set) (set_rrset set);
    sig <-? ok_or (kp_sign (sk_material key) input) SignFailed;
    Ok (to_value (with_signature (unsigned key set) sig)).

Definition verify_rrsig (rrsig_value owner : string) (rrset : list DnsRecord) (public_key : list Z)
  : result unit sign_error :=
  match rrsig_parse rrsig_value with
  | Err _ => Err ParseFailed
  | Ok rrsig =>
      input <-? signing_input rrsig owner rrset;
      match algorithm rrsig with
      | Ed25519 =>
          if ring_verify Ed25519 public_key input (signature rrsig) then Ok tt else Err VerifyFailed
      | EcdsaP256Sha256 | EcdsaP384Sha384 =>
          if ring_verify (algorithm rrsig) (4 :: public_key) input (signature rrsig)
          then Ok tt else Err VerifyFailed
      | RsaSha256 => Err UnsupportedAlgorithm
      end
  end.

(** [compute_ds_sha256]. *)
Context (sha256 : list Z -> list Z).

Definition compute_ds_sha256 (zone : string) (tag : Z) (alg : DnssecAlgorithm) (public_key : list Z)
    (kt : KeyType) : string :=
  let input := wire_labels (split_on "." (trim_end_matches "." zone)) ++ [0] ++
               dnskey_rdata alg kt public_key in
  str_join " " [show_dec tag; show_dec (algorithm_u8 alg); show_dec 1; "1"; hex_enc (sha256 input)].

End Rdata.

(** * Signing covers a set, not a sequence *)

Lemma z_cmp_eq x y : Z.compare x y = Eq <-> x = y.
Proof. apply Z.compare_eq_iff. Qed.

Lemma z_cmp_trans x y z : Z.compare x y = Lt -> Z.compare y z = Lt -> Z.compare x z = Lt.
Proof. rewrite !Z.compare_lt_iff. lia. Qed.

#[local] Instance bytes_le_total : Total (fun a b => bytes_le a b).
Proof. apply lex_le_total; [apply z_cmp_eq|]. intros x y. apply Z.compare_antisym. Qed.

#[local] Instance bytes_le_trans : Transitive (fun a b => bytes_le a b).
Proof. apply lex_le_trans; [apply z_cmp_eq|apply z_cmp_trans]. Qed.

#[local] Instance bytes_le_antisym : AntiSymm (=) (fun a b => bytes_le a b).
Proof. apply lex_le_antisym; [apply z_cmp_eq|]. intros x y. apply Z.compare_antisym. Qed.

Lemma sort_bytes_perm l k :
  l ≡ₚ k -> merge_sort (fun a b => bytes_le a b) l = merge_sort (fun a b => bytes_le a b) k.
Proof.
  intros H. apply (Sorted_unique (fun a b => bytes_le a b));
    [by apply Sorted_merge_sort; apply _..|]. by rewrite !merge_sort_Permutation.
Qed.

Section Signing.
Context `{B64 : !Base64, B64L : !Base64Laws, HX : !Hex, RG : !Ring, RGL : !RingLaws}.
Context (svcb_canonical_rdata : string -> option (list Z)).

Local Abbreviation canonical_rdata := (canonical_rdata svcb_canonical_rdata).
Local Abbreviation encode_all := (encode_all svcb_canonical_rdata).
Local Abbreviation signing_input := (signing_input svcb_canonical_rdata).
Local Abbreviation sign_rrset := (sign_rrset svcb_canonical_rdata).
Local Abbreviation verify_rrsig := (verify_rrsig svcb_canonical_rdata).

Lemma encode_all_ok rs ds : encode_all rs = Ok ds <-> canonical_rdata <$> rs = Some <$> ds.
Proof.
  revert ds. induction rs as [|r rs IH]; intros ds; simpl.
  { split; [by intros [= <-]|]. by destruct ds. }
  destruct (canonical_rdata r) as [d|]; simpl; [|by destruct ds].
  destruct (encode_all rs) as [ds'|]; simpl.
  - pose proof (proj1 (IH ds') eq_refl) as IH'. split; [intros [= <-]; simpl; by f_equal|].
    destruct ds as [|d2 ds]; [done|]. simpl. intros [= -> E]. do 2 f_equal.
    apply IH in E. by injection E.
  - split; [done|]. destruct ds as [|d2 ds]; [done|]. simpl. intros [= -> E].
    apply IH in E. done.
Qed.

Lemma encode_all_perm rs rs' ds :
  rs ≡ₚ rs' -> encode_all rs = Ok ds -> exists ds', encode_all rs' = Ok ds' /\ ds ≡ₚ ds'.
Proof.
  intros Hp H%encode_all_ok.
  assert (canonical_rdata <$> rs' ≡ₚ Some <$> ds) as Hp' by (rewrite <- H; by apply fmap_Permutation).
  apply (Permutation_map_inv Some) in Hp' as (ds' & H1 & H2).
  exists ds'. by rewrite encode_all_ok.
Qed.

Lemma signing_input_perm rrsig owner rs rs' input :
  rs ≡ₚ rs' -> signing_input rrsig owner rs = Ok input -> signing_input rrsig owner rs' = Ok input.
Proof.
  intros Hp. unfold Rdata.signing_input.
  destruct (encode_all rs) as [ds|] eqn:E; [|done].
  destruct (encode_all_perm rs rs' ds Hp E) as (ds' & -> & Hp').
  cbn [result_bind]. by rewrite (sort_bytes_perm ds ds').
Qed.

(** The signature is not part of what is signed. *)
Lemma signing_input_signature r sig owner rs :
  signing_input (with_signature r sig) owner rs = signing_input r owner rs.
Proof.
  assert (forall ow ds input, append_rrs (with_signature r sig) ow ds input = append_rrs r ow ds input)
    as Happ by (intros ow ds; induction ds; intros; simpl; [done|by destruct (_ <=? _); simpl]).
  unfold Rdata.signing_input. change (signed_prefix (with_signature r sig)) with (signed_prefix r).
  destruct (encode_all rs); [|done]. cbn [result_bind].
  destruct (canonical_name owner); [|done]. cbn [ok_or result_bind].
  destruct (signed_prefix r); [|done]. cbn [ok_or result_bind]. apply Happ.
Qed.

Lemma dedup_Forall {A} `{EqDecision A} (P : A -> Prop) (l : list A) : Forall P l -> Forall P (dedup l).
Proof.
  induction 1 as [|x l Hx Hl IH]; [done|]. destruct l as [|y l]; [by repeat constructor|].
  cbn [dedup]. destruct (decide (x = y)); [done|]. by constructor.
Qed.

Lemma append_rrs_total r ow ds input :
  Forall (fun d => Z.of_nat (length d) <= u16_max) ds -> exists out, append_rrs r ow ds input = Ok out.
Proof.
  intros H. revert input. induction H as [|d l Hd Hl IH]; intros input; simpl; [eauto|].
  rewrite (proj2 (Z.leb_le _ _) Hd). apply IH.
Qed.

Lemma signing_input_total r owner rs ow pre ds :
  canonical_name owner = Some ow -> signed_prefix r = Some pre -> encode_all rs = Ok ds ->
  Forall (fun d => Z.of_nat (length d) <= u16_max) ds ->
  exists input, signing_input r owner rs = Ok input.
Proof.
  intros Ho Hp He Hl. unfold Rdata.signing_input. rewrite He, Ho, Hp. cbn [ok_or result_bind].
  apply append_rrs_total, dedup_Forall.
  by rewrite (merge_sort_Permutation (fun a b => bytes_le a b) ds).
Qed.

Lemma from_pkcs8_key alg kt pkcs8 key :
  from_pkcs8 alg kt pkcs8 = Ok key ->
  sk_algorithm key = alg /\ alg <> RsaSha256 /\ kp_from_pkcs8 alg pkcs8 = Some (sk_material key) /\
  kp_public_key (sk_material key) =
    match alg with Ed25519 => sk_public_key key | _ => 4 :: sk_public_key key end /\
  sk_key_tag key = compute_key_tag alg kt (sk_public_key key).
Proof.
  unfold from_pkcs8. destruct (signing_supported alg) eqn:Es; [|done]. simpl.
  destruct alg; try done; destruct (kp_from_pkcs8 _ pkcs8) as [kp|] eqn:Ek; try done;
    cbn [ok_or result_bind]; [destruct (kp_public_key kp) as [|z xy] eqn:Ep; [done|]..|];
    try (destruct (decide (z = 4)) as [->|Hz]; [|by destruct z as [|[[]|[[]|[]|]|]|]]; cbn [result_bind]);
    (destruct (bool_decide _); [|done]); intros [= <-]; done.
Qed.

Lemma is_u_key_tag alg kt pk : is_u 16 (compute_key_tag alg kt pk).
Proof. apply as_u_is_u. lia. Qed.

Lemma label_count_u8 n : is_u 8 (label_count n).
Proof. unfold label_count, is_u. cbn zeta. case_match; [lia|]. destruct (split_on _ _) as [|[] ?]; lia. Qed.

Lemma normalize_word n :
  str_forall (fun c => negb (is_space c)) n = true -> word (normalize_name n).
Proof.
  intros H. assert (str_forall (fun c => negb (is_space c)) (to_lowercase n) = true) as Hl.
  { clear -H. unfold to_lowercase. induction n as [|c n IH]; [done|]. simpl in *. bool_hyps. rewrite IH by done.
    rewrite andb_true_r. unfold lower_char. destruct c as [[] [] [] [] [] [] [] []]; vm_compute in H |- *; congruence. }
  unfold normalize_name. cbn zeta. destruct (ends_with_char "." (to_lowercase n)) eqn:E.
  - split; [|done]. intros E'. by rewrite E' in E.
  - split; [by destruct (to_lowercase n)|]. by rewrite str_forall_app, Hl.
Qed.

(** Whatever was signed with a loaded key verifies, in any order of the records. *)
Lemma signed_verifies alg kt pkcs8 key set v rrset :
  from_pkcs8 alg kt pkcs8 = Ok key ->
  str_forall (fun c => negb (is_space c)) (signer_zone set) = true ->
  is_u 32 (set_original_ttl set) -> is_u 32 (set_inception set) -> is_u 32 (set_expiration set) ->
  sign_rrset key set = Ok v -> rrset ≡ₚ set_rrset set ->
  verify_rrsig v (set_owner set) rrset (sk_public_key key) = Ok tt.
Proof.
  intros Hk Hsp Ht Hi He Hs Hp. apply from_pkcs8_key in Hk as (Ha & Hrsa & Hkp & Hpub & Htag).
  unfold Rdata.sign_rrset in Hs. destruct (bool_decide (set_rrset set = [])); [done|].
  destruct (bool_decide (set_type_covered set = RRSIG)); [done|].
  destruct (signing_input (unsigned key set) (set_owner set) (set_rrset set)) as [input|] eqn:Hin; [|done].
  cbn [result_bind] in Hs. destruct (kp_sign (sk_material key) input) as [sig|] eqn:Hsig; [|done].
  injection Hs as <-. destruct (ring_sign_bytes _ _ _ Hsig) as [Hsne Hsb].
  unfold Rdata.verify_rrsig. destruct (normalize_word _ Hsp) as [Hw1 Hw2].
  rewrite rrsig_parse_to_value; [|split_and!; simpl; try done; [apply label_count_u8|rewrite Htag; apply is_u_key_tag]].
  rewrite signing_input_signature, (signing_input_perm _ _ _ _ input (symmetry Hp)) by done.
  cbn [result_bind with_signature unsigned algorithm signature]. rewrite Ha.
  pose proof (ring_verify_sign alg pkcs8 _ input sig Hkp Hsig) as Hv. rewrite Hpub in Hv.
  by destruct alg; simpl in *; rewrite ?Hv.
Qed.

(** Only the canonical data of the records counts. *)
Lemma verify_rrsig_ext v owner rs rs' pk :
  canonical_rdata <$> rs = canonical_rdata <$> rs' -> verify_rrsig v owner rs pk = verify_rrsig v owner rs' pk.
Proof.
  intros E. assert (encode_all rs = encode_all rs') as He.
  { revert rs' E. induction rs as [|r rs IH]; intros [|r' rs'] E; try done.
    injection E as E1 E2. simpl. by rewrite E1, (IH rs'). }
  unfold Rdata.verify_rrsig, Rdata.signing_input. by rewrite He.
Qed.

(** C29: what is signed verifies. With a key loaded from storage, signing a non-empty
    RRset whose records all have canonical data, under names that have a wire form,
    succeeds; the stored signature then verifies under the key's DNSKEY form for
    the same records in any order. *)
Theorem sign_verify_roundtrip alg kt pkcs8 key set ow sw :
  from_pkcs8 alg kt pkcs8 = Ok key ->
  (forall msg, is_Some (kp_sign (sk_material key) msg)) ->
  set_rrset set <> [] -> set_type_covered set <> RRSIG ->
  str_forall (fun c => negb (is_space c)) (signer_zone set) = true ->
  is_u 32 (set_original_ttl set) -> is_u 32 (set_inception set) -> is_u 32 (set_expiration set) ->
  canonical_name (set_owner set) = Some ow ->
  canonical_name (normalize_name (signer_zone set)) = Some sw ->
  Forall (fun r => exists d, canonical_rdata r = Some d /\ Z.of_nat (length d) <= u16_max)
    (set_rrset set) ->
  exists v, sign_rrset key set = Ok v /\
    forall rrset, rrset ≡ₚ set_rrset set ->
      verify_rrsig v (set_owner set) rrset (sk_public_key key) = Ok tt.
Proof.
  intros Hk Hsign Hne Hty Hsp Ht Hi He Ho Hz Hr.
  assert (exists ds, encode_all (set_rrset set) = Ok ds /\
    Forall (fun d => Z.of_nat (length d) <= u16_max) ds) as (ds & Hds & Hlen).
  { clear -Hr. induction Hr as [|r rs (d & Hd & Hl) _ (ds & He & Hf)]; [by exists []|].
    exists (d :: ds). simpl. rewrite Hd, He. split; [done|]. by constructor. }
  destruct (signing_input_total (unsigned key set) (set_owner set) (set_rrset set) ow
    (be_bytes 2 (wire_type (set_type_covered set)) ++
     [algorithm_u8 (sk_algorithm key); label_count (set_owner set)] ++
     be_bytes 4 (set_original_ttl set) ++ be_bytes 4 (set_expiration set) ++
     be_bytes 4 (set_inception set) ++ be_bytes 2 (sk_key_tag key) ++ sw) ds)
    as [input Hin]; [done| |done..|].
  { unfold signed_prefix. simpl. by rewrite Hz. }
  destruct (Hsign input) as [sig Hsig].
  assert (sign_rrset key set = Ok (to_value (with_signature (unsigned key set) sig))) as Hs.
  { unfold Rdata.sign_rrset. rewrite !bool_decide_false by done. by rewrite Hin; simpl; rewrite Hsig. }
  eexists. split; [exact Hs|]. intros rrset Hp. by eapply signed_verifies.
Qed.
End Signing.

(** * Reading a type bit map *)

(** What a validator reads (RFC 4034, section 4.1.2): blocks of a window number, a
    length and that many octets, the most significant bit first. *)
Fixpoint bitmap_has (fuel : nat) (bytes : list Z) (code : Z) : bool :=
  match fuel, bytes with
  | S f, window :: len :: rest =>
      if window =? code / 256
      then bool_decide (code mod 256 / 8 < len) &&
           Z.testbit (default 0 (rest !! Z.to_nat (code mod 256 / 8))) (7 - code mod 256 mod 8)
      else bitmap_has f (drop (Z.to_nat len) rest) code
  | _, _ => false
  end.

Definition block_bit (block : list Z) (lo : Z) : bool :=
  Z.testbit (default 0 (block !! Z.to_nat (lo / 8))) (7 - lo mod 8).

Definition window_bit (m : gmap Z (list Z)) (code : Z) : bool :=
  block_bit (default [] (m !! (code / 256))) (code mod 256).

Definition windows_wf (m : gmap Z (list Z)) : Prop :=
  forall w b, m !! w = Some b -> is_u 8 w /\ length b = 32%nat /\ used_length b <> O.

Lemma code_parts code : is_u 16 code ->
  as_u 8 (Z.shiftr code 8) = code / 256 /\ as_u 8 (Z.land code 255) = code mod 256 /\
  is_u 8 (code / 256) /\ 0 <= code mod 256 < 256.
Proof.
  unfold is_u. intros H. rewrite Z.shiftr_div_pow2 by lia.
  change 255 with (Z.ones 8). rewrite Z.land_ones by lia. change (2 ^ 8) with 256.
  assert (0 <= code / 256 < 256) by (split; [apply Z.div_pos; lia|apply Z.div_lt_upper_bound; lia]).
  pose proof (Z.mod_pos_bound code 256). rewrite !as_u_id by (unfold is_u; lia). split_and!; [done|done|unfold is_u; lia..].
Qed.

Lemma bit_of_mask a j k :
  0 <= j < 8 -> 0 <= k < 8 -> Z.testbit (Z.lor a (Z.shiftr 128 k)) (7 - j) = Z.testbit a (7 - j) || (j =? k).
Proof.
  intros Hj Hk. rewrite Z.lor_spec, Z.shiftr_spec by lia. f_equal.
  change 128 with (2 ^ 7). rewrite Z.pow2_bits_eqb by lia.
  destruct (Z.eqb_spec 7 (7 - j + k)), (Z.eqb_spec j k); lia.
Qed.

Lemma lo_parts lo : 0 <= lo < 256 -> 0 <= lo / 8 < 32 /\ 0 <= lo mod 8 < 8.
Proof.
  intros H. split; [split; [apply Z.div_pos; lia|apply Z.div_lt_upper_bound; lia]|].
  apply Z.mod_pos_bound. lia.
Qed.

Lemma block_bit_set block lo lo' :
  length block = 32%nat -> 0 <= lo < 256 -> 0 <= lo' < 256 ->
  block_bit (<[Z.to_nat (lo / 8) := Z.lor (default 0 (block !! Z.to_nat (lo / 8)))
               (Z.shiftr 128 (lo mod 8))]> block) lo' = block_bit block lo' || (lo' =? lo).
Proof.
  intros Hl Hlo Hlo'. destruct (lo_parts lo Hlo), (lo_parts lo' Hlo'). unfold block_bit.
  destruct (decide (lo / 8 = lo' / 8)) as [E|E].
  - rewrite E, list_lookup_insert_eq by lia. simpl. rewrite bit_of_mask by done. f_equal.
    pose proof (Z.div_mod lo 8). pose proof (Z.div_mod lo' 8).
    destruct (Z.eqb_spec (lo' mod 8) (lo mod 8)), (Z.eqb_spec lo' lo); lia.
  - rewrite list_lookup_insert_ne by lia.
    destruct (Z.eqb_spec lo' lo); [congruence|]. by rewrite orb_false_r.
Qed.

Lemma block_bit_used b lo : block_bit b lo = true -> 0 <= lo < 256 -> (Z.to_nat (lo / 8) < used_length b)%nat.
Proof.
  unfold block_bit. intros H Hlo. destruct (lo_parts lo Hlo) as [_ Hj].
  generalize dependent (Z.to_nat (lo / 8)). induction b as [|x b IH]; intros n H.
  { rewrite lookup_nil in H. simpl in H. by rewrite Z.testbit_0_l in H. }
  simpl. destruct n as [|n].
  - simpl in H. destruct (used_length b); [|lia].
    destruct (Z.eqb_spec x 0) as [->|]; [by rewrite Z.testbit_0_l in H|lia].
  - apply IH in H. destruct (used_length b); lia.
Qed.

Lemma used_length_le b : (used_length b <= length b)%nat.
Proof. induction b as [|x b IH]; simpl; [done|]. destruct (used_length b), (x =? 0); lia. Qed.

Lemma empty_block_zero i : default 0 (empty_block !! i) = 0.
Proof. by do 32 (destruct i as [|i]; [done|]). Qed.

Lemma set_type_spec m c :
  windows_wf m -> is_u 16 c -> windows_wf (set_type m c) /\
  forall code, is_u 16 code -> window_bit (set_type m c) code = window_bit m code || (c =? code).
Proof.
  intros Hm Hc. destruct (code_parts c Hc) as (E1 & E2 & Hw & Hlo).
  unfold set_type. rewrite E1, E2. cbn zeta.
  assert (length (default empty_block (m !! (c / 256))) = 32%nat) as Hlen.
  { destruct (m !! (c / 256)) as [b|] eqn:E; [by apply (Hm _ _ E)|done]. }
  pose proof (block_bit_set _ (c mod 256) (c mod 256) Hlen Hlo Hlo) as Hset.
  rewrite Z.eqb_refl, orb_true_r in Hset. split.
  - intros w b. destruct (decide (w = c / 256)) as [->|Hne].
    + rewrite lookup_insert_eq. intros [= <-]. split_and!; [done|by rewrite length_insert|].
      intros E. apply block_bit_used in Hset; [|done]. rewrite E in Hset. lia.
    + rewrite lookup_insert_ne by done. apply Hm.
  - intros code Hcode. destruct (code_parts code Hcode) as (_ & _ & _ & Hlo').
    pose proof (Z.div_mod c 256). pose proof (Z.div_mod code 256). unfold window_bit.
    destruct (decide (code / 256 = c / 256)) as [E|Hne].
    + rewrite E, lookup_insert_eq. simpl. rewrite block_bit_set by done.
      assert (block_bit (default empty_block (m !! (c / 256))) (code mod 256) =
              block_bit (default [] (m !! (c / 256))) (code mod 256)) as ->.
      { destruct (m !! (c / 256)); [done|]. cbn [default from_option]. unfold block_bit.
        by rewrite empty_block_zero. }
      f_equal. destruct (Z.eqb_spec (code mod 256) (c mod 256)), (Z.eqb_spec c code); lia.
    + rewrite lookup_insert_ne by done. destruct (Z.eqb_spec c code) as [->|]; [done|].
      by rewrite orb_false_r.
Qed.

Lemma set_types_spec codes m :
  windows_wf m -> Forall (is_u 16) codes -> windows_wf (foldl set_type m codes) /\
  forall code, is_u 16 code ->
    window_bit (foldl set_type m codes) code = window_bit m code || bool_decide (code ∈ codes).
Proof.
  intros Hm Hc. revert m Hm. induction Hc as [|c cs Hc Hcs IH]; intros m Hm; simpl.
  { split; [done|]. intros code _. by rewrite orb_false_r. }
  destruct (set_type_spec m c Hm Hc) as [Hw Hb]. destruct (IH _ Hw) as [Hw' Hb'].
  split; [done|]. intros code Hcode. rewrite Hb', Hb by done. rewrite <- orb_assoc. f_equal.
  destruct (Z.eqb_spec c code) as [->|Hne]; simpl; [by rewrite bool_decide_true by set_solver|].
  apply bool_decide_ext. set_solver.
Qed.

Definition window_block (m : gmap Z (list Z)) (window : Z) : list Z :=
  let block := default [] (m !! window) in
  match used_length block with
  | O => []
  | len => window :: as_u 8 (Z.of_nat len) :: take len block
  end.

Lemma window_block_eq m w b :
  windows_wf m -> m !! w = Some b ->
  window_block m w = w :: Z.of_nat (used_length b) :: take (used_length b) b.
Proof.
  intros Hm Hw. destruct (Hm w b Hw) as (_ & Hl & Hu). unfold window_block. rewrite Hw. simpl.
  pose proof (used_length_le b). destruct (used_length b) as [|n] eqn:E; [done|].
  rewrite as_u_id; [done|]. unfold is_u. lia.
Qed.

Lemma bitmap_has_blocks m ws code fuel :
  windows_wf m -> is_u 16 code -> Forall (fun w => is_Some (m !! w)) ws -> (length ws <= fuel)%nat ->
  bitmap_has fuel (ws ≫= window_block m) code =
  bool_decide (code / 256 ∈ ws) && window_bit m code.
Proof.
  intros Hm Hc Hws. revert fuel. induction Hws as [|w ws [b Hw] Hws IH]; intros fuel Hf.
  { by destruct fuel. }
  destruct fuel as [|fuel]; [simpl in Hf; lia|]. cbn [mbind list_bind].
  rewrite (window_block_eq m w b) by done. cbn [app bitmap_has].
  pose proof (used_length_le b) as Hul. destruct (code_parts code Hc) as (_ & _ & _ & Hlo).
  destruct (lo_parts _ Hlo) as [Hi Hj].
  destruct (Z.eqb_spec w (code / 256)) as [->|Hne].
  - clear IH. rewrite (bool_decide_true (_ ∈ _)) by set_solver. simpl andb. unfold window_bit. rewrite Hw. simpl.
    case_bool_decide as Hlt.
    + unfold block_bit. rewrite lookup_app_l by (rewrite length_take; lia).
      by rewrite lookup_take_lt by lia.
    + simpl. destruct (block_bit b (code mod 256)) eqn:E; [|done].
      apply block_bit_used in E; [lia|done].
  - rewrite Nat2Z.id, drop_app_length' by (rewrite length_take; lia).
    change (ws ≫= window_block m) with (ws ≫= window_block m). rewrite IH by (simpl in Hf; lia).
    f_equal. apply bool_decide_ext. set_solver.
Qed.

(** The type bit map of an NSEC record lists exactly the types it is made
    from: reading the encoded octets, window by window, finds a type code when
    and only when it is in the list. *)
Theorem type_bitmap_exact codes code :
  Forall (is_u 16) codes -> is_u 16 code ->
  bitmap_has (length (encode_type_bitmap codes)) (encode_type_bitmap codes) code =
  bool_decide (code ∈ codes).
Proof.
  intros Hcs Hc. destruct (set_types_spec codes ∅) as [Hw Hb]; [done|done|].
  set (m := foldl set_type ∅ codes) in *.
  assert (Forall (fun w => is_Some (m !! w)) (merge_sort Z.le (map_to_list m).*1)) as Hall.
  { rewrite merge_sort_Permutation. rewrite Forall_fmap. apply Forall_forall.
    intros [w b] H%elem_of_map_to_list. by eexists. }
  change (encode_type_bitmap codes) with (merge_sort Z.le (map_to_list m).*1 ≫= window_block m).
  rewrite bitmap_has_blocks; [|done|done|done|].
  - rewrite Hb by done. unfold window_bit at 1. rewrite lookup_empty. simpl.
    unfold block_bit at 1. rewrite lookup_nil. simpl. rewrite Z.testbit_0_l. simpl.
    destruct (bool_decide (code ∈ codes)) eqn:E; [|by rewrite andb_false_r].
    rewrite andb_true_r. apply bool_decide_true. rewrite merge_sort_Permutation.
    specialize (Hb code Hc). rewrite E, orb_true_r in Hb. unfold window_bit, block_bit in Hb.
    destruct (m !! (code / 256)) as [b|] eqn:Em; [|cbn in Hb; rewrite ?lookup_nil in Hb; cbn in Hb; by rewrite Z.testbit_0_l in Hb].
    apply list_elem_of_fmap. exists (code / 256, b). by rewrite elem_of_map_to_list.
  - clear Hb. induction Hall as [|w ws [b Hb] _ IH]; [simpl; lia|]. cbn [mbind list_bind].
    rewrite (window_block_eq m w b) by done. simpl. rewrite length_app. simpl in *. lia.
Qed.

Lemma type_bitmap_exact_witness :
  encode_type_bitmap [1; 47; 46; 257] = [0; 6; 64; 0; 0; 0; 0; 3; 1; 1; 64] /\
  bitmap_has 11 (encode_type_bitmap [1; 47; 46; 257]) 46 = true /\
  bitmap_has 11 (encode_type_bitmap [1; 47; 46; 257]) 28 = false.
Proof.
  split; [vm_compute; reflexivity|].
  split; (refine (type_bitmap_exact [1; 47; 46; 257] _ _ _); [repeat constructor; unfold is_u; lia|unfold is_u; lia]).
Defined.

(** * The text of a DS record *)

Lemma split_ws_trim_end s : split_ws (trim_end s) = split_ws s.
Proof.
  induction s as [|c s IH]; [done|]. simpl trim_end.
  destruct (trim_end s) as [|d t] eqn:E.
  - destruct (is_space c) eqn:Ec; [cbn [split_ws]; by rewrite Ec, <- IH|].
    cbn [split_ws]. rewrite Ec. destruct s as [|d s]; [done|].
    destruct (is_space d) eqn:Ed; [by rewrite <- IH|].
    simpl in E. destruct (trim_end s); [by rewrite Ed in E|done].
  - assert (exists s', s = String d s') as [s' ->].
    { destruct s as [|d' s']; [done|]. simpl in E. exists s'.
      destruct (trim_end s'); [destruct (is_space d'); congruence|congruence]. }
    cbn [split_ws] in IH |- *. destruct (is_space c); [done|]. destruct (is_space d) eqn:Ed.
    + by rewrite IH.
    + by rewrite IH.
Qed.

Lemma split_ws_trim s : split_ws (str_trim s) = split_ws s.
Proof.
  unfold str_trim. rewrite split_ws_trim_end. induction s as [|c s IH]; [done|]. simpl.
  destruct (is_space c) eqn:E; [done|]. simpl. by rewrite E.
Qed.

(** The DS text handed to the operator for the parent zone has a
    field too many and names digest type 1 for a SHA-256 digest: whatever the key,
    the server's own reader of DS data rejects it, because the fourth field is
    the digit 1 where the digest belongs. *)
Theorem ds_text_unusable `{B64 : !Base64, HX : !Hex, HXL : !HexLaws} svcb sha256 zone tag alg pk kt r :
  is_u 16 tag -> r_type r = DS -> r_value r = compute_ds_sha256 sha256 zone tag alg pk kt ->
  (exists digest, split_ws (r_value r) =
     show_dec tag :: show_dec (algorithm_u8 alg) :: "1" :: "1" :: split_ws (hex_enc digest)) /\
  canonical_rdata svcb r = None.
Proof.
  unfold is_u. intros Ht Hr Hv.
  assert (exists digest, split_ws (r_value r) =
     show_dec tag :: show_dec (algorithm_u8 alg) :: "1" :: "1" :: split_ws (hex_enc digest)) as Hs.
  { eexists. rewrite Hv. unfold compute_ds_sha256. cbn [str_join String.concat].
    rewrite split_ws_cons by (apply word_number; lia).
    rewrite split_ws_cons by (apply word_number, algorithm_u8_range).
    assert (word "1") as Hone by (split; done). by rewrite !split_ws_cons by done. }
  split; [done|]. destruct Hs as [d Hd]. unfold canonical_rdata. cbn zeta.
  rewrite Hr, split_ws_trim, Hd. cbn [concat_fields]. rewrite (hex_dec_odd "1") by done.
  destruct (u16_field (show_dec tag)); [|done]. destruct (u8_field (show_dec (algorithm_u8 alg))); [|done].
  by destruct (u8_field "1").
Qed.

(** * A library that meets the laws *)

(** The two-digits-a-byte codec, and a checksum for a signature. *)
#[local] Instance sample_hex : Hex := { hex_enc := hex_encode; hex_dec := hex_decode }.
#[local] Instance sample_base64 : Base64 := hex_codec.
#[local] Instance sample_base64_laws : Base64Laws := hex_codec_laws.

#[local] Instance sample_hex_laws : HexLaws.
Proof.
  split; [exact (@b64_decode_encode hex_codec hex_codec_laws)| |exact (@b64_no_space hex_codec hex_codec_laws)].
  fix IH 1. intros [|c [|d s]]; [done|done|]. intros H. cbn [hex_dec sample_hex hex_decode].
  pose proof (IH s H : hex_decode s = None) as E. rewrite E. by destruct (digit_value c), (digit_value d).
Qed.

Definition checksum (msg : list Z) : list Z := [as_u 8 (foldl Z.add 0 msg)].

#[local] Instance sample_ring : Ring := {
  KeyPair := list Z;
  kp_from_pkcs8 _ bs := Some bs;
  kp_public_key kp := kp;
  kp_sign _ msg := Some (checksum msg);
  ring_verify _ _ msg sig := bool_decide (sig = checksum msg);
}.

#[local] Instance sample_ring_laws : RingLaws.
Proof.
  split; simpl.
  - intros alg bs kp msg sig _ [= <-]. by rewrite bool_decide_true.
  - intros kp msg sig [= <-]. split; [done|]. constructor; [by apply as_u_is_u|constructor].
Qed.

Definition sample_rrset : list DnsRecord :=
  [mkRecord None "www.example.com." A "192.0.2.7" 300 0;
   mkRecord None "www.example.com." A "192.0.2.1" 300 0].

Definition sample_set : RrsetToSign :=
  mkSet "example.com." "www.example.com." A 300 sample_rrset 1700000000 1702000000.

Lemma sign_verify_roundtrip_witness :
  exists key v, from_pkcs8 Ed25519 ZSK (repeat 7 32) = Ok key /\
    sign_rrset (fun _ => None) key sample_set = Ok v /\
    verify_rrsig (fun _ => None) v "www.example.com." (reverse sample_rrset) (repeat 7 32) = Ok tt.
Proof.
  destruct (from_pkcs8 Ed25519 ZSK (repeat 7 32)) as [key|] eqn:E; [|by vm_compute in E].
  destruct (sign_verify_roundtrip (fun _ => None) Ed25519 ZSK (repeat 7 32) key sample_set
    [3; 119; 119; 119; 7; 101; 120; 97; 109; 112; 108; 101; 3; 99; 111; 109; 0]
    [7; 101; 120; 97; 109; 112; 108; 101; 3; 99; 111; 109; 0] E) as (v & H1 & H2).
  - intros msg. by eexists.
  - done.
  - done.
  - done.
  - unfold is_u. simpl. lia.
  - unfold is_u. simpl. lia.
  - unfold is_u. simpl. lia.
  - vm_compute. reflexivity.
  - vm_compute. reflexivity.
  - constructor; [|constructor; [|constructor]];
      [exists [192; 0; 2; 7]|exists [192; 0; 2; 1]]; (split; [vm_compute; reflexivity|simpl; unfold u16_max; lia]).
  - exists key, v. split; [done|]. split; [exact H1|].
    replace (repeat 7 32) with (sk_public_key key) by (vm_compute in E; by injection E as <-).
    apply H2. apply reverse_Permutation.
Defined.

Definition sample_ds : DnsRecord :=
  mkRecord None "example.com." DS
    (compute_ds_sha256 (fun _ => [171; 205]) "example.com." 4660 Ed25519 (repeat 7 32) KSK) 300 0.

Lemma ds_text_unusable_witness :
  r_value sample_ds = "4660 15 1 1 abcd" /\ canonical_rdata (fun _ => None) sample_ds = None.
Proof.
  split; [vm_compute; reflexivity|].
  refine (proj2 (ds_text_unusable (fun _ => None) (fun _ => [171; 205]) "example.com." 4660 Ed25519
    (repeat 7 32) KSK sample_ds _ eq_refl eq_refl)).
  unfold is_u. lia.
Defined.
