(* ===== verification/Svcb.v ===== *)
(** SVCB and HTTPS values ([src/src/svcb.rs]): reading the stored line, the order of
    its parameters, and the designation records of a resolver. The library's names
    and its wire encoder are parameters. *)

From S2P Require Import Prelude RustStr Ip Rrsig Rdata.
From stdpp Require Import base gmap sets list option strings sorting.
From Stdlib Require Import ZArith Lia Bool Ascii.

Open Scope Z_scope.
Local Open Scope rolodex_scope.

Definition DDR_DESIGNATION_NAME : string := "_dns.resolver.arpa.".
Definition SVC_PARAM_KEY_DOHPATH : Z := 7.

(** The keys and values the parser makes. *)
Inductive SvcParamKey := KAlpn | KNoDefaultAlpn | KPort | KUnknown (n : Z).

Inductive SvcParamValue := PAlpn (tokens : list string) | PNoDefaultAlpn | PPort (port : Z) | PUnknown (bytes : list Z).

(** [u16::from] of a key. *)
Definition key_u16 (k : SvcParamKey) : Z :=
  match k with KAlpn => 1 | KNoDefaultAlpn => 2 | KPort => 3 | KUnknown n => n end.

Definition SvcParam : Type := SvcParamKey * SvcParamValue.

Inductive SvcbError :=
  | NoPriority | BadPriority | NoTarget | BadTarget | NoValue (key : string) | NoProtocol | HasValue | BadPort
  | NotAPath | UnknownParam (key : string) | BadKeyNumber | AliasWithParams | DuplicateKey.

Record SvcbData {Name : Type} := mkSvcb { svc_priority : Z; target_name : Name; svc_params : list SvcParam }.
Arguments SvcbData : clear implicits.
Arguments mkSvcb {_}.

#[export] Instance svcb_key_eq : EqDecision SvcParamKey.
Proof. solve_decision. Defined.
#[export] Instance svcb_value_eq : EqDecision SvcParamValue.
Proof. solve_decision. Defined.
#[export] Instance svcb_eq {Name} `{!EqDecision Name} : EqDecision (SvcbData Name).
Proof. solve_decision. Defined.

Definition param_key (p : SvcParam) : Z := key_u16 p.1.

Definition param_le (a b : SvcParam) : bool := param_key a <=? param_key b.

(** [windows(2)] with two equal keys. *)
Fixpoint adjacent_equal (ps : list SvcParam) : bool :=
  match ps with
  | a :: ((b :: _) as ps') => (param_key a =? param_key b) || adjacent_equal ps'
  | _ => false
  end.

Definition parse_param (key : string) (val : option string) : result SvcParam SvcbError :=
  if (key =? "alpn")%string then
    match val with
    | None => Err (NoValue key)
    | Some v =>
        match List.filter (fun t => negb (t =? "")%string) (split_on "," v) with
        | [] => Err NoProtocol
        | tokens => Ok (KAlpn, PAlpn tokens)
        end
    end
  else if (key =? "no-default-alpn")%string then
    match val with Some _ => Err HasValue | None => Ok (KNoDefaultAlpn, PNoDefaultAlpn) end
  else if (key =? "port")%string then
    match val with
    | None => Err (NoValue key)
    | Some v => match parse_u16 v with Some port => Ok (KPort, PPort port) | None => Err BadPort end
    end
  else if (key =? "dohpath")%string then
    match val with
    | None => Err (NoValue key)
    | Some v => if starts_with "/" v then Ok (KUnknown SVC_PARAM_KEY_DOHPATH, PUnknown (str_bytes v)) else Err NotAPath
    end
  else
    match str_strip_prefix "key" key with
    | None => Err (UnknownParam key)
    | Some num =>
        match parse_u16 num with
        | None => Err BadKeyNumber
        | Some n => Ok (KUnknown n, PUnknown (match val with Some v => str_bytes v | None => [] end))
        end
    end.

(** One field after the target. *)
Definition parse_field (field : string) : result SvcParam SvcbError :=
  match split_once "=" field with
  | Some (k, v) => parse_param k (Some v)
  | None => parse_param field None
  end.

Fixpoint parse_fields (fields : list string) : result (list SvcParam) SvcbError :=
  match fields with
  | [] => Ok []
  | f :: fs => p <-? parse_field f; ps <-? parse_fields fs; Ok (p :: ps)
  end.

Section Svcb.
Context {Name : Type} (name_root : Name) (name_from_utf8 : string -> option Name).
Context (svcb_emit : SvcbData Name -> option (list Z)).

Definition parse_target (raw : string) : option Name :=
  if (raw =? ".")%string then Some name_root else name_from_utf8 raw.

Definition svcb_parse (value : string) : result (SvcbData Name) SvcbError :=
  match split_ws value with
  | [] => Err NoPriority
  | p :: fields =>
      match parse_u16 p with
      | None => Err BadPriority
      | Some priority =>
          match fields with
          | [] => Err NoTarget
          | raw :: fields =>
              match parse_target raw with
              | None => Err BadTarget
              | Some target =>
                  params <-? parse_fields fields;
                  if (priority =? 0) && negb (bool_decide (params = [])) then Err AliasWithParams
                  else
                    let params := merge_sort (fun a b => param_le a b) params in
                    if adjacent_equal params then Err DuplicateKey
                    else Ok (mkSvcb priority target params)
              end
          end
      end
  end.

(** [canonical_rdata]: the wire form of what is served. *)
Definition svcb_rdata (value : string) : option (list Z) :=
  match svcb_parse value with Ok svcb => svcb_emit svcb | Err _ => None end.

Definition designation (name : string) (doh : option (Z * string * bool)) (dot doq : option Z) : list string :=
  let '(out, priority) :=
    match doh with
    | Some (port, path, http3) =>
        ([show_dec 1 +:+ " " +:+ name +:+ " alpn=" +:+ (if http3 then "h2,h3" else "h2") +:+ " port=" +:+ show_dec port +:+
          " dohpath=" +:+ path], 2)
    | None => ([], 1)
    end in
  let '(out, priority) :=
    match dot with
    | Some port => (out ++ [show_dec priority +:+ " " +:+ name +:+ " alpn=dot port=" +:+ show_dec port], priority + 1)
    | None => (out, priority)
    end in
  match doq with
  | Some port => out ++ [show_dec priority +:+ " " +:+ name +:+ " alpn=doq port=" +:+ show_dec port]
  | None => out
  end.
End Svcb.

(** * Lemmas *)

Definition param_lt (a b : SvcParam) : Prop := param_key a < param_key b.

#[local] Instance param_le_total : Total (fun a b => param_le a b).
Proof. intros a b. unfold param_le. rewrite !Is_true_true. destruct (Z.leb_spec (param_key a) (param_key b)); lia. Qed.

#[local] Instance param_le_trans : Transitive (fun a b => param_le a b).
Proof. intros a b c. unfold param_le. rewrite !Is_true_true. lia. Qed.

Lemma adjacent_equal_strict ps :
  StronglySorted (fun a b => param_le a b) ps -> adjacent_equal ps = false <-> StronglySorted param_lt ps.
Proof.
  induction 1 as [|a ps Hs IH Ha]; [split; [constructor|done]|]. destruct ps as [|b ps].
  { split; [repeat constructor|done]. }
  cbn [adjacent_equal]. rewrite orb_false_iff, IH, Z.eqb_neq. split.
  - intros [Hne Hst]. constructor; [done|]. inversion_clear Hst as [|?? _ Hb]. inversion_clear Ha as [|?? Hab _].
    assert (param_lt a b) as Hlt by (unfold param_lt; unfold param_le in Hab; rewrite Is_true_true in Hab; lia).
    constructor; [done|]. eapply Forall_impl; [exact Hb|]. unfold param_lt in *. intros x Hx. lia.
  - intros Hst. inversion_clear Hst as [|?? Hst' Hf]. split; [|done]. inversion_clear Hf as [|?? Hab _]. unfold param_lt in Hab. lia.
Qed.

Lemma strict_sorted ps : StronglySorted param_lt ps -> StronglySorted (fun a b => param_le a b) ps.
Proof.
  induction 1 as [|a ps _ IH Ha]; constructor; [done|]. eapply Forall_impl; [exact Ha|].
  intros b. unfold param_lt, param_le. rewrite Is_true_true. lia.
Qed.

(** Sorting by key and refusing equal neighbours finds the one increasing order. *)
Lemma sorted_params params ps :
  adjacent_equal (merge_sort (fun a b => param_le a b) params) = false /\ ps = merge_sort (fun a b => param_le a b) params <->
  ps ≡ₚ params /\ StronglySorted param_lt ps.
Proof.
  assert (StronglySorted (fun a b => param_le a b) (merge_sort (fun a b => param_le a b) params)) as Hs
    by (apply (StronglySorted_merge_sort (fun a b => param_le a b))).
  split.
  - intros [E ->]. split; [apply merge_sort_Permutation|]. by apply adjacent_equal_strict.
  - intros [Hp Hst]. assert (ps = merge_sort (fun a b => param_le a b) params) as ->.
    { apply (StronglySorted_unique_strong (fun a b => param_le a b)); [|by apply strict_sorted|done|].
      - intros a b Ha Hb. unfold param_le. rewrite !Is_true_true. intros H1 H2.
        rewrite (merge_sort_Permutation (fun a b => param_le a b)), <- Hp in Hb. clear -Hst Ha Hb H1 H2.
        induction Hst as [|x ps Hst IH Hx]; [by apply elem_of_nil in Ha|]. rewrite Forall_forall in Hx. unfold param_lt in Hx.
        apply elem_of_cons in Ha as [->|Ha], Hb as [->|Hb]; [done| | |by apply IH].
        + specialize (Hx b Hb). lia.
        + specialize (Hx a Ha). lia.
      - by rewrite (merge_sort_Permutation (fun a b => param_le a b)). }
    split; [by apply adjacent_equal_strict|done].
Qed.

Lemma parse_u16_range s n : parse_u16 s = Some n -> is_u 16 n.
Proof. intros H. apply parse_uint_bound in H; [|lia]. unfold is_u, u16_max in *. lia. Qed.

(** ** What may be written

    The fields that are accepted and the parameters they stand for. A parameter written
    by its name has the kind of value of its key; one written by number is a string of
    bytes that nothing examines, whatever the number is. *)

Definition protocols (ts : list string) : Prop := ts <> [] /\ Forall (fun t => t <> "" /\ free_of "," t = true) ts.

Inductive written : string -> SvcParam -> Prop :=
| written_alpn v ts :
    protocols ts -> List.filter (fun t => negb (t =? "")%string) (split_on "," v) = ts -> written ("alpn=" +:+ v) (KAlpn, PAlpn ts)
| written_no_default : written "no-default-alpn" (KNoDefaultAlpn, PNoDefaultAlpn)
| written_port v n : is_u 16 n -> parse_u16 v = Some n -> written ("port=" +:+ v) (KPort, PPort n)
| written_path v : written ("dohpath=/" +:+ v) (KUnknown 7, PUnknown (str_bytes ("/" +:+ v)))
| written_number t n v :
    free_of "=" t = true -> is_u 16 n -> parse_u16 t = Some n -> written ("key" +:+ t +:+ "=" +:+ v) (KUnknown n, PUnknown (str_bytes v))
| written_bare t n : free_of "=" t = true -> is_u 16 n -> parse_u16 t = Some n -> written ("key" +:+ t) (KUnknown n, PUnknown []).

Lemma parse_field_eq k v : free_of "=" k = true -> parse_field (k +:+ "=" +:+ v) = parse_param k (Some v).
Proof. intros H. unfold parse_field. change ("=" +:+ v) with (String "=" v). by rewrite split_once_cons. Qed.

Lemma numbered_param t val :
  parse_param ("key" +:+ t) val =
  match parse_u16 t with
  | None => Err BadKeyNumber
  | Some n => Ok (KUnknown n, PUnknown (match val with Some v => str_bytes v | None => [] end))
  end.
Proof. reflexivity. Qed.

Lemma written_parses f p : written f p -> parse_field f = Ok p.
Proof.
  intros [v ts [Hne _] E| |v n _ E|v|t n v Ht _ E|t n Ht _ E].
  - change ("alpn=" +:+ v) with ("alpn" +:+ "=" +:+ v). rewrite parse_field_eq by done. unfold parse_param. simpl. rewrite E.
    by destruct ts.
  - reflexivity.
  - change ("port=" +:+ v) with ("port" +:+ "=" +:+ v). rewrite parse_field_eq by done. unfold parse_param. simpl. by rewrite E.
  - change ("dohpath=/" +:+ v) with ("dohpath" +:+ "=" +:+ ("/" +:+ v)). rewrite parse_field_eq by done.
    assert (starts_with "/" ("/" +:+ v) = true) as E by (apply starts_with_spec; by exists v).
    unfold parse_param. cbn [String.eqb Ascii.eqb Bool.eqb]. by rewrite E.
  - rewrite <- app_assoc_str, parse_field_eq by done. by rewrite numbered_param, E.
  - unfold parse_field. by rewrite split_once_free, numbered_param, E.
Qed.

Lemma parse_param_written k v p :
  free_of "=" k = true -> parse_param k v = Ok p -> written (match v with Some v => k +:+ "=" +:+ v | None => k end) p.
Proof.
  intros Hk. unfold parse_param.
  destruct (String.eqb_spec k "alpn") as [->|_]; [|destruct (String.eqb_spec k "no-default-alpn") as [->|_];
    [|destruct (String.eqb_spec k "port") as [->|_]; [|destruct (String.eqb_spec k "dohpath") as [->|_]]]].
  - destruct v as [v|]; [|done]. destruct (List.filter _ _) as [|t ts] eqn:E; [done|]. intros [= <-].
    apply (written_alpn v); [|done]. split; [done|]. rewrite <- E. apply Forall_forall.
    intros u [Hu Hne]%elem_filter_bool. bool_hyps. split; [done|].
    pose proof (split_on_pieces "," v) as Hp. rewrite Forall_forall in Hp. by apply Hp.
  - destruct v; [done|]. intros [= <-]. apply written_no_default.
  - destruct v as [v|]; [|done]. destruct (parse_u16 v) as [n|] eqn:E; [|done]. intros [= <-].
    apply (written_port v); [by eapply parse_u16_range|done].
  - destruct v as [v|]; [|done]. destruct (starts_with "/" v) eqn:E; [|done]. intros [= <-].
    apply starts_with_spec in E as [u ->]. apply (written_path u).
  - destruct (str_strip_prefix "key" k) as [t|] eqn:E; [|done]. apply str_strip_prefix_spec in E as ->.
    destruct (parse_u16 t) as [n|] eqn:En; [|done]. intros [= <-]. pose proof (parse_u16_range _ _ En).
    destruct v as [v|]; [rewrite app_assoc_str; by apply written_number|by apply written_bare].
Qed.

Lemma parse_fields_written fields ps : parse_fields fields = Ok ps <-> Forall2 written fields ps.
Proof.
  assert (forall f p, parse_field f = Ok p <-> written f p) as Hf.
  { intros f p. split; [|apply written_parses]. unfold parse_field.
    pose proof (split_once_spec "=" f) as E. destruct (split_once "=" f) as [[k v]|].
    - destruct E as [-> Hk]. by apply (parse_param_written k (Some v)).
    - by apply (parse_param_written f None). }
  revert ps. induction fields as [|f fields IH]; intros ps; cbn [parse_fields].
  - split; [by intros [= <-]|by inversion_clear 1].
  - split.
    + destruct (parse_field f) as [p|] eqn:Ef; [|done]. cbn [result_bind].
      destruct (parse_fields fields) as [qs|]; [|done]. intros [= <-]. constructor; [by apply Hf|by apply IH].
    + inversion_clear 1 as [|? p ? qs Hp Hq]. apply Hf in Hp as ->. apply IH in Hq as ->. done.
Qed.

Lemma written_keys fields ps : Forall2 written fields ps -> Forall (fun q => is_u 16 (param_key q)) ps.
Proof.
  induction 1 as [|f p fields ps Hp _ IH]; constructor; [|done].
  destruct Hp; try done; unfold is_u, param_key; simpl; lia.
Qed.

Section Properties.
Context {Name : Type} (name_root : Name) (name_from_utf8 : string -> option Name).

Local Abbreviation svcb_parse := (svcb_parse name_root name_from_utf8).
Local Abbreviation parse_target := (parse_target name_root name_from_utf8).

Lemma parse_target_spec t n :
  parse_target t = Some n <-> t = "." /\ n = name_root \/ t <> "." /\ name_from_utf8 t = Some n.
Proof. unfold Svcb.parse_target. destruct (String.eqb_spec t "."); naive_solver. Qed.

Lemma svcb_parse_spec v r :
  svcb_parse v = Ok r <->
  exists p t fields params, split_ws v = p :: t :: fields /\ parse_u16 p = Some (svc_priority r) /\
    parse_target t = Some (target_name r) /\ parse_fields fields = Ok params /\
    svc_params r ≡ₚ params /\ StronglySorted param_lt (svc_params r) /\ (svc_priority r = 0 -> svc_params r = []).
Proof.
  unfold Svcb.svcb_parse. split.
  - destruct (split_ws v) as [|p [|t fields]] eqn:Ev; [done| |]; destruct (parse_u16 p) as [priority|] eqn:Ep; try done.
    destruct (parse_target t) as [target|] eqn:Et; [|done]. destruct (parse_fields fields) as [params|] eqn:Ef; [|done].
    cbn [result_bind]. destruct ((priority =? 0) && _) eqn:Ea; [done|].
    destruct (adjacent_equal _) eqn:Ed; [done|]. intros [= <-]. exists p, t, fields, params. simpl.
    destruct (proj1 (sorted_params params _) (conj Ed eq_refl)) as [H1 H2]. split_and!; try done.
    intros ->. apply andb_false_iff in Ea as [Ea|Ea]; [done|]. apply negb_false_iff, bool_decide_eq_true in Ea. by subst.
  - intros (p & t & fields & params & -> & -> & -> & -> & Hp & Hs & Ha). cbn [result_bind].
    destruct (proj2 (sorted_params params _) (conj Hp Hs)) as [Hd E]. rewrite Hd, <- E. destruct r as [priority target ps]. simpl in *.
    destruct (Z.eqb_spec priority 0) as [->|_]; [|done]. rewrite Ha in Hp by done. apply Permutation_nil in Hp as ->.
    by rewrite Ha.
Qed.

(** C40: the values that are accepted, exactly, and what they are accepted as. A value is
    a 16-bit priority, a target and fields, each one of these: [alpn=] with at least one
    protocol, [no-default-alpn] alone, [port=] with a 16-bit number, [dohpath=] with a rooted
    path, or [keyNNNNN] with a 16-bit number. The record has the parameters of the fields and
    no other, in strictly increasing order of their keys whatever order they were written in, so
    that no key is given twice, under its name and under its number included; and an alias has
    none. A parameter written by its name has the kind of value of its key. One written by
    number is carried as the bytes that were written, which nothing examines, also when the
    number is that of a named key or the reserved 65535. *)
Theorem svcb_wire_ready v r :
  svcb_parse v = Ok r <->
  exists p t fields params, split_ws v = p :: t :: fields /\
    parse_u16 p = Some (svc_priority r) /\ is_u 16 (svc_priority r) /\
    (t = "." /\ target_name r = name_root \/ t <> "." /\ name_from_utf8 t = Some (target_name r)) /\
    Forall2 written fields params /\ svc_params r ≡ₚ params /\
    StronglySorted param_lt (svc_params r) /\ Forall (fun q => is_u 16 (param_key q)) (svc_params r) /\
    (svc_priority r = 0 -> svc_params r = []).
Proof.
  rewrite svcb_parse_spec. setoid_rewrite parse_fields_written. setoid_rewrite parse_target_spec. split.
  - intros (p & t & fields & params & H1 & H2 & H3 & H4 & H5 & H6 & H7). exists p, t, fields, params.
    split_and!; try done; [by eapply parse_u16_range|]. rewrite H5. by eapply written_keys.
  - intros (p & t & fields & params & H1 & H2 & _ & H3 & H4 & H5 & H6 & _ & H7). by exists p, t, fields, params.
Qed.

(** ** Designations *)

Lemma parse_port n : is_u 16 n -> parse_u16 (show_dec n) = Some n.
Proof. intros H. unfold is_u in H. apply parse_show_dec; unfold u16_max; lia. Qed.

Lemma word_field k v : word k -> str_forall (fun c => negb (is_space c)) v = true -> word (k +:+ v).
Proof. intros [Hne Hk] Hv. split; [by destruct k|]. by rewrite str_forall_app, Hk, Hv. Qed.

(** The record a transport is designated by. *)
Definition designates (priority : Z) (target : Name) (alpn : list string) (port : Z) (path : option string) : SvcbData Name :=
  mkSvcb priority target ([(KAlpn, PAlpn alpn); (KPort, PPort port)] ++
    match path with Some p => [(KUnknown SVC_PARAM_KEY_DOHPATH, PUnknown (str_bytes p))] | None => [] end).

Lemma designation_line priority name target alpn tokens port path :
  1 <= priority < 65536 -> word name -> parse_target name = Some target ->
  str_forall (fun c => negb (is_space c)) alpn = true ->
  parse_param "alpn" (Some alpn) = Ok (KAlpn, PAlpn tokens) -> is_u 16 port ->
  (forall p, path = Some p -> str_forall (fun c => negb (is_space c)) p = true /\ starts_with "/" p = true) ->
  svcb_parse (show_dec priority +:+ " " +:+ name +:+ " alpn=" +:+ alpn +:+ " port=" +:+ show_dec port +:+
    match path with Some p => " dohpath=" +:+ p | None => "" end) =
  Ok (designates priority target tokens port path).
Proof.
  intros Hp Hname Htarget Hal Halpn Hport Hpath. apply svcb_parse_spec. unfold is_u in Hport.
  assert (word (show_dec priority)) as Hw1 by (apply word_number; lia).
  assert (word ("alpn=" +:+ alpn)) as Hw2 by (by apply word_field).
  assert (word ("port=" +:+ show_dec port)) as Hw3 by (apply word_field; [done|apply word_number; lia]).
  assert (parse_field ("alpn=" +:+ alpn) = Ok (KAlpn, PAlpn tokens)) as Hf1
    by (change ("alpn=" +:+ alpn) with ("alpn" +:+ "=" +:+ alpn); by rewrite parse_field_eq).
  assert (parse_field ("port=" +:+ show_dec port) = Ok (KPort, PPort port)) as Hf2.
  { change ("port=" +:+ show_dec port) with ("port" +:+ "=" +:+ show_dec port). rewrite parse_field_eq by done.
    unfold parse_param. simpl. by rewrite parse_port. }
  exists (show_dec priority), name, (["alpn=" +:+ alpn; "port=" +:+ show_dec port] ++
    match path with Some p => ["dohpath=" +:+ p] | None => [] end), (svc_params (designates priority target tokens port path)).
  split_and!; [|apply parse_show_dec; cbn [svc_priority designates]; unfold u16_max; lia|done| |done| |simpl; intros ->; lia].
  - match goal with |- split_ws ?v = ?ws => replace v with (str_join " " ws); [apply split_ws_join|] end.
    + repeat (constructor; [done|]). destruct path as [p|]; [|constructor]. constructor; [|constructor].
      apply word_field; [done|]. by apply Hpath.
    + destruct path; unfold str_join; cbn [app String.concat]; rewrite !app_assoc_str, ?app_nil_r_str; reflexivity.
  - cbn [app parse_fields]. rewrite Hf1, Hf2. cbn [result_bind]. destruct path as [p|]; [|done].
    destruct (Hpath p eq_refl) as [_ Hs]. cbn [parse_fields].
    change ("dohpath=" +:+ p) with ("dohpath" +:+ "=" +:+ p). rewrite parse_field_eq by done.
    unfold parse_param. cbn [String.eqb]. simpl. by rewrite Hs.
  - unfold designates. simpl. destruct path; repeat constructor; unfold param_lt, param_key; simpl; unfold SVC_PARAM_KEY_DOHPATH; lia.
Qed.

(** A resolver's own designation is always served. For a name that is one word and a
    name of the library, ports, and a rooted path without blanks, the stored values
    parse, one per transport in the order of preference, to records that name the
    endpoint, the protocol and the port. *)
Theorem designation_parses name target doh dot doq :
  word name -> parse_target name = Some target ->
  (forall port path h3, doh = Some (port, path, h3) ->
     is_u 16 port /\ str_forall (fun c => negb (is_space c)) path = true /\ starts_with "/" path = true) ->
  (forall port, dot = Some port \/ doq = Some port -> is_u 16 port) ->
  let after_doh := if doh is Some _ then 2 else 1 in
  let after_dot := if dot is Some _ then after_doh + 1 else after_doh in
  svcb_parse <$> designation name doh dot doq =
  Ok <$> (match doh with
          | Some (port, path, h3) => [designates 1 target (if h3 : bool then ["h2"; "h3"] else ["h2"]) port (Some path)]
          | None => []
          end ++
          match dot with Some port => [designates after_doh target ["dot"] port None] | None => [] end ++
          match doq with Some port => [designates after_dot target ["doq"] port None] | None => [] end).
Proof.
  intros Hn Ht Hdoh Hports.
  assert (forall priority port path h3, is_u 16 port -> 1 <= priority < 65536 ->
    str_forall (fun c => negb (is_space c)) path = true -> starts_with "/" path = true ->
    svcb_parse (show_dec priority +:+ " " +:+ name +:+ " alpn=" +:+ (if h3 : bool then "h2,h3" else "h2") +:+ " port=" +:+
      show_dec port +:+ " dohpath=" +:+ path) =
    Ok (designates priority target (if h3 then ["h2"; "h3"] else ["h2"]) port (Some path))) as H1.
  { intros. apply (designation_line priority name target (if h3 then "h2,h3" else "h2") _ port (Some path)); try done;
      [by destruct h3|by destruct h3|]. intros p [= <-]. done. }
  assert (forall priority port alpn, is_u 16 port -> 1 <= priority < 65536 -> alpn = "dot" \/ alpn = "doq" ->
    svcb_parse (show_dec priority +:+ " " +:+ name +:+ (" alpn=" +:+ alpn +:+ " port=") +:+ show_dec port) =
    Ok (designates priority target [alpn] port None)) as H2.
  { intros priority port alpn Hp Hpr Ha.
    rewrite <- (designation_line priority name target alpn [alpn] port None); try done;
      [by rewrite !app_assoc_str, app_nil_r_str|by destruct Ha as [-> | ->]|by destruct Ha as [-> | ->]]. }
  unfold designation.
  destruct doh as [[[port path] h3]|], dot as [p1|], doq as [p2|]; cbn [fmap list_fmap app]; repeat f_equal;
    try (destruct (Hdoh _ _ _ eq_refl) as (Hd1 & Hd2 & Hd3); apply H1; [done|lia|done|done]);
    try (apply (H2 _ _ "dot"); [by apply Hports; left|lia|by left]);
    try (apply (H2 _ _ "doq"); [by apply Hports; right|lia|by right]).
Qed.
End Properties.

(** * Samples *)

Lemma svcb_wire_ready_witness :
  let r := mkSvcb 1 "dns.home." [(KAlpn, PAlpn ["dot"]); (KPort, PPort 853)] in
  svcb_parse "." Some "1 dns.home. port=853 alpn=dot" = Ok r /\ StronglySorted param_lt (svc_params r).
Proof.
  cbv zeta. assert (svcb_parse "." Some "1 dns.home. port=853 alpn=dot" =
    Ok (mkSvcb 1 "dns.home." [(KAlpn, PAlpn ["dot"]); (KPort, PPort 853)])) as E by (vm_compute; reflexivity).
  split; [exact E|]. destruct (proj1 (svcb_wire_ready "." Some _ _) E) as (? & ? & ? & ? & _ & _ & _ & _ & _ & _ & H & _). exact H.
Defined.

(** Numbers are not read as the keys they are: [alpn] and [port] by number are accepted
    with values that no client reads as a list of protocols or a port, and the reserved
    number is accepted too. *)
Theorem numbered_keys_unexamined :
  svcb_parse "." Some "1 dns.home. key1=h2 key3=x key65535=y" =
  Ok (mkSvcb 1 "dns.home." [(KUnknown 1, PUnknown [104; 50]); (KUnknown 3, PUnknown [120]); (KUnknown 65535, PUnknown [121])]).
Proof. vm_compute. reflexivity. Qed.

Lemma designation_parses_witness :
  svcb_parse "." Some <$> designation "dns.home." (Some (443, "/dns-query{?dns}", true)) None (Some 853) =
  [Ok (designates 1 "dns.home." ["h2"; "h3"] 443 (Some "/dns-query{?dns}")); Ok (designates 2 "dns.home." ["doq"] 853 None)].
Proof.
  apply (designation_parses "." Some "dns.home." "dns.home." (Some (443, "/dns-query{?dns}", true)) None (Some 853)).
  - split; done.
  - vm_compute. reflexivity.
  - intros port path h3 [= <- <- <-]. split_and!; [unfold is_u; lia|vm_compute; reflexivity..].
  - intros port [[=]|[= <-]]. unfold is_u. lia.
Defined.
