(* ===== verification/ZoneSigner.v ===== *)
(** The zone signer ([src/src/zone_signer.rs]) and the pass of the re-sign loop
    ([src/src/dns_server.rs]) over the record store: publication of the DNSKEYs, the
    NSEC chain, and a signature on every RRset of the zone. Key material, base64 and
    hex are parameters; the reasons of failures are kept as their fixed part. *)

From S2P Require Import Prelude RustStr Names Ip Records Rrsig Sql DnsCache ZoneStore Scopes Nsec Rdata.
From stdpp Require Import base gmap sets list option strings sorting.
From Stdlib Require Import ZArith Lia Bool Ascii.

Open Scope Z_scope.
Local Open Scope rolodex_scope.

Definition DNSKEY_TTL : Z := 3600.
Definition NSEC_FALLBACK_TTL : Z := 300.
Definition RRSIG_INCEPTION_BACKDATE_SECS : Z := 3600.
Definition RRSIG_VALIDITY_SECS : Z := 30 * 86400.

(** [KeyType::parse]. *)
Definition parse_key_type (s : string) : option KeyType :=
  let u := to_uppercase s in
  if (u =? "ZSK")%string then Some ZSK else if (u =? "KSK")%string then Some KSK else None.

Record SignSummary := mkSummary {
  su_keys : nat;
  su_signed_rrsets : nat;
  su_nsec_records : nat;
  su_skipped : list string;
  su_warnings : list string;
}.

Inductive SignOutcome := NotSigned (why : string) | Signed (summary : SignSummary).

(** An RRset under its owner and type. *)
Definition Group : Type := (string * RecordKind) * list DnsRecord.

(** [rrsets.entry(key).or_default().push(record)]. *)
Fixpoint push_group (key : string * RecordKind) (r : DnsRecord) (groups : list Group) : list Group :=
  match groups with
  | [] => [(key, [r])]
  | (k, rs) :: groups' => if bool_decide (k = key) then (k, rs ++ [r]) :: groups' else (k, rs) :: push_group key r groups'
  end.

(** One candidate: names that may hold a signature, and the RRsets to sign. *)
Definition collect_record (zone : string) (acc : list Group * gmap string unit) (r : DnsRecord)
  : list Group * gmap string unit :=
  let '(groups, names) := acc in
  if negb (name_in_zone (r_name r) zone) then (groups, names)
  else
    let names := <[r_name r := tt]> names in
    match r_type r with
    | RRSIG | NSEC => (groups, names)
    | kind => (push_group (r_name r, kind) r groups, names)
    end.

Definition key_le (a b : string * RecordKind) : bool :=
  match String.compare a.1 b.1 with
  | Lt => true
  | Eq => wire_type a.2 <=? wire_type b.2
  | Gt => false
  end.

Definition group_le (a b : Group) : bool := key_le a.1 b.1.

Definition min_row_ttl (records : list DnsRecord) : Z :=
  match records with
  | [] => DNSKEY_TTL
  | r :: rs => foldl (fun m x => Z.min m (r_ttl x)) (r_ttl r) rs
  end.

Definition apex_negative_ttl (records : list DnsRecord) (zone : string) : Z :=
  let apex := normalize_name zone in
  default NSEC_FALLBACK_TTL
    (soa ← find (fun r => bool_decide (r_type r = SOA) && (normalize_name (r_name r) =? apex)%string) records;
     minimum ← (split_ws (r_value soa) !! 6%nat) ≫= parse_u32;
     Some (Z.min minimum (r_ttl soa))).

Section Signer.
Context `{B64 : !Base64, HX : !Hex, RG : !Ring, MI : !MapIter}.
Context (svcb_canonical_rdata : string -> option (list Z)).

Local Abbreviation canonical_rdata := (canonical_rdata svcb_canonical_rdata).
Local Abbreviation sign_rrset := (sign_rrset svcb_canonical_rdata).

(** Each active key, or why it cannot be used. *)
Definition load_key (row : DnssecKeyRow) : result SigningKey string :=
  match parse_algorithm (kr_algorithm row) with
  | None => Err ("key " +:+ show_dec (kr_id row) +:+ " has unknown algorithm " +:+ kr_algorithm row)
  | Some algo =>
      match parse_key_type (kr_key_type row) with
      | None => Err ("key " +:+ show_dec (kr_id row) +:+ " has unknown key type " +:+ kr_key_type row)
      | Some kt =>
          match from_pkcs8 algo kt (kr_private_key row) with
          | Ok loaded => Ok loaded
          | Err _ => Err ("key " +:+ show_dec (kr_id row) +:+ " (" +:+ kr_algorithm row +:+ ") unusable")
          end
      end
  end.

Definition load_keys (rows : list DnssecKeyRow) : list SigningKey * list string :=
  let loaded := load_key <$> List.filter kr_active rows in
  (omap (fun r => match r with Ok k => Some k | Err _ => None end) loaded,
   omap (fun r => match r with Err w => Some w | Ok _ => None end) loaded).

Definition dnskey_value (key : SigningKey) : string :=
  show_dec (key_flags (sk_key_type key)) +:+ " 3 " +:+ show_dec (algorithm_u8 (sk_algorithm key)) +:+ " " +:+
  b64_encode (sk_public_key key).

Definition dnskey_record (zone : string) (key : SigningKey) : DnsRecord :=
  mkRecord None zone DNSKEY (dnskey_value key) DNSKEY_TTL 0.

(** The DNSKEY RRset from scratch. *)
Definition publish_keys (zone : string) (keys : list SigningKey) (s : ZoneStore) : ZoneStore :=
  foldl (fun s key => (add_record (dnskey_record zone key) s).2) (remove_records zone (Some DNSKEY) "" s).2 keys.

(** The signatures and NSEC records of the pass before. *)
Definition clear_signatures (names : gmap string unit) (s : ZoneStore) : ZoneStore :=
  foldl (fun s (kv : string * unit) =>
    (remove_records kv.1 (Some NSEC) "" (remove_records kv.1 (Some RRSIG) "" s).2).2) s (map_iter _ names).

Definition nsec_record (ttl : Z) (link : string * Nsec) : DnsRecord :=
  mkRecord None link.1 NSEC (nsec_to_value link.2) ttl 0.

Definition publish_chain (records : list DnsRecord) (s : ZoneStore) : ZoneStore :=
  foldl (fun s r => (add_record r s).2) s records.

Definition signers_for (zone : string) (keys : list SigningKey) (key : string * RecordKind) : list SigningKey :=
  let wanted := if bool_decide (key.2 = DNSKEY) && (key.1 =? zone)%string then KSK else ZSK in
  match List.filter (fun k => match sk_key_type k, wanted with KSK, KSK | ZSK, ZSK => true | _, _ => false end) keys with
  | [] => keys
  | signers => signers
  end.

Definition set_to_sign (zone : string) (inception expiration : Z) (g : Group) : RrsetToSign :=
  mkSet zone g.1.1 g.1.2 (min_row_ttl g.2) g.2 inception expiration.

Definition rrsig_record (g : Group) (value : string) : DnsRecord :=
  mkRecord None g.1.1 RRSIG value (min_row_ttl g.2) 0.

(** One signature per key; an error returns early and keeps what was stored. *)
Fixpoint sign_with (zone : string) (inception expiration : Z) (g : Group) (signers : list SigningKey) (s : ZoneStore)
  : result unit string * ZoneStore :=
  match signers with
  | [] => (Ok tt, s)
  | key :: signers' =>
      match sign_rrset key (set_to_sign zone inception expiration g) with
      | Err _ => (Err "failed to sign", s)
      | Ok value => sign_with zone inception expiration g signers' (add_record (rrsig_record g value) s).2
      end
  end.

Definition encodable (g : Group) : bool :=
  negb (existsb (fun r => bool_decide (canonical_rdata r = None)) g.2).

(** The signing loop: how many RRsets were signed and which were skipped. *)
Fixpoint sign_groups (zone : string) (inception expiration : Z) (keys : list SigningKey) (groups : list Group)
    (signed : nat) (skipped : list string) (s : ZoneStore) : result (nat * list string) string * ZoneStore :=
  match groups with
  | [] => (Ok (signed, skipped), s)
  | g :: groups' =>
      if negb (encodable g)
      then sign_groups zone inception expiration keys groups' signed (skipped ++ [g.1.1 +:+ " " +:+ as_str g.1.2]) s
      else match sign_with zone inception expiration g (signers_for zone keys g.1) s with
           | (Err e, s) => (Err e, s)
           | (Ok _, s) => sign_groups zone inception expiration keys groups' (S signed) skipped s
           end
  end.

(** The pass between the two marks. [clock] is [now_secs]. *)
Definition sign_pass (clock : option Z) (zone : string) (s : ZoneStore) : result SignOutcome string * ZoneStore :=
  match list_dnssec_keys zone (signing s) with
  | [] => (Ok (NotSigned "no DNSSEC keys found for zone"), s)
  | all_keys =>
      let '(keys, warnings) := load_keys all_keys in
      match keys with
      | [] => (Ok (NotSigned ("no usable DNSSEC keys for zone: " +:+ str_join "; " warnings)), s)
      | _ =>
          let s := publish_keys zone keys s in
          let s := set_signing (clear_zone_resign_pending zone) s in
          let candidates := list_records ("*." +:+ zone) None s in
          let chain := build_nsec_chain zone candidates in
          let nsecs := nsec_record (apex_negative_ttl candidates zone) <$> chain in
          let '(groups, names) := foldl (collect_record zone) ([], ∅) candidates in
          match clock with
          | None => (Err "cannot read the clock", s)
          | Some now =>
              let inception := Z.max 0 (now - RRSIG_INCEPTION_BACKDATE_SECS) in
              let expiration := Z.min u32_max (now + RRSIG_VALIDITY_SECS) in
              let s := publish_chain nsecs (clear_signatures names s) in
              let ordered := merge_sort group_le (groups ++ ((fun r => ((r_name r, NSEC), [r])) <$> nsecs)) in
              match sign_groups zone inception expiration keys ordered 0 [] s with
              | (Err e, s) => (Err e, s)
              | (Ok (signed, skipped), s) =>
                  (Ok (Signed (mkSummary (length keys) signed (length chain) skipped warnings)), s)
              end
          end
      end
  end.

(** [sign_zone]: the mark is set over the whole pass and taken back on every exit. *)
Definition sign_zone (clock : option Z) (zone : string) (s : ZoneStore) : result SignOutcome string * ZoneStore :=
  let zone := normalize_name zone in
  let (outcome, s) := sign_pass clock zone (set_signing (begin_zone_resign zone) s) in
  (outcome, set_signing (end_zone_resign zone) s).

(** [resign_once]: each zone that awaits a pass; the response cache is dropped after
    a zone was signed. *)
Definition resign_zone (clock : option Z) (sc : ZoneStore * option DnsCache.t) (zone : string)
  : ZoneStore * option DnsCache.t :=
  let (s, cache) := sc in
  match sign_zone clock zone s with
  | (Ok (Signed _), s) => (s, DnsCache.flush <$> cache)
  | (Ok (NotSigned _), s) => (set_signing (clear_zone_resign_pending zone) s, cache)
  | (Err _, s) => (set_signing (force_zone_resign_pending zone) s, cache)
  end.

Definition resign_once (clock : option Z) (s : ZoneStore) (cache : option DnsCache.t) : ZoneStore * option DnsCache.t :=
  foldl (resign_zone clock) (s, cache) (zones_awaiting_resign (signing s)).
End Signer.

(** * Rows *)

(** A row stores a record under the normal form of its name. *)
Definition stores (r row : DnsRecord) : Prop :=
  r_name row = normalize_name (r_name r) /\ r_type row = r_type r /\ r_value row = r_value r /\
  r_ttl row = r_ttl r /\ r_priority row = r_priority r.

Fixpoint add_all (rs : list DnsRecord) (s : ZoneStore) : ZoneStore :=
  match rs with [] => s | r :: rs' => add_all rs' (add_record r s).2 end.

Lemma add_all_rows rs s :
  exists rows, dns_records (add_all rs s) = dns_records s ++ rows /\ Forall2 stores rs rows.
Proof.
  revert s. induction rs as [|r rs IH]; intros s; cbn [add_all]; [exists []; by rewrite app_nil_r|].
  destruct (IH (add_record r s).2) as (rows & Hr & Hf). rewrite (proj1 (add_record_state r s)) in Hr.
  exists (mkRecord (Some (next_id s)) (normalize_name (r_name r)) (r_type r) (r_value r) (r_ttl r) (r_priority r) :: rows).
  split; [by rewrite Hr, <- app_assoc|]. by constructor.
Qed.

Lemma add_record_signing r s : is_zone_content (r_type r) = false -> signing (add_record r s).2 = signing s.
Proof. intros H. unfold add_record. simpl. by rewrite H. Qed.

Lemma remove_records_signing n rt v s :
  is_zone_content rt = false -> signing (remove_records n (Some rt) v s).2 = signing s.
Proof. intros H. unfold remove_records. simpl. by rewrite H, andb_false_r. Qed.

Lemma add_all_signing rs s :
  Forall (fun r => is_zone_content (r_type r) = false) rs -> signing (add_all rs s) = signing s.
Proof.
  intros H. revert s. induction H as [|r rs Hr _ IH]; intros s; cbn [add_all]; [done|].
  by rewrite IH, add_record_signing.
Qed.

Lemma publish_keys_all `{!Base64, !Ring} zone keys s :
  publish_keys zone keys s = add_all (dnskey_record zone <$> keys) (remove_records zone (Some DNSKEY) "" s).2.
Proof.
  unfold publish_keys. generalize (remove_records zone (Some DNSKEY) "" s).2.
  induction keys as [|k keys IH]; intros s'; [done|]. exact (IH _).
Qed.

(** A product of signing under one of the names. *)
Definition signature_at (names : list string) (r : DnsRecord) : bool :=
  match r_type r with RRSIG | NSEC => existsb (String.eqb (r_name r)) names | _ => false end.

Fixpoint clear_names (names : list string) (s : ZoneStore) : ZoneStore :=
  match names with
  | [] => s
  | n :: names' => clear_names names' (remove_records n (Some NSEC) "" (remove_records n (Some RRSIG) "" s).2).2
  end.

Lemma clear_names_rows names s :
  Forall (fun n => normalize_name n = n) names ->
  dns_records (clear_names names s) = List.filter (fun r => negb (signature_at names r)) (dns_records s) /\
  signing (clear_names names s) = signing s.
Proof.
  intros H. revert s. induction H as [|n names Hn _ IH]; intros s; cbn [clear_names].
  { split; [|done]. symmetry. apply filter_all_true. intros r _. unfold signature_at. by destruct (r_type r). }
  destruct (IH (remove_records n (Some NSEC) "" (remove_records n (Some RRSIG) "" s).2).2) as [E1 E2].
  rewrite E1, E2, !remove_records_signing, !remove_records_rows, Hn by done. split; [|done].
  rewrite !filter_filter_and. apply filter_ext. intros r. unfold signature_at, delete_matches. simpl.
  destruct (String.eqb_spec (r_name r) n); destruct (r_type r); simpl; try done;
    by destruct (existsb _ names).
Qed.

Lemma publish_chain_all rs s : publish_chain rs s = add_all rs s.
Proof. revert s. induction rs as [|r rs IH]; intros s; [done|]. exact (IH _). Qed.

Lemma clear_signatures_names `{MI : !MapIter} names s :
  clear_signatures names s = clear_names (map_iter _ names).*1 s.
Proof.
  unfold clear_signatures. generalize (map_iter unit names). intros l. revert s.
  induction l as [|kv l IH]; intros s; [done|]. exact (IH _).
Qed.

(** * Candidates *)

(** A row the pass signs as it stands. *)
Definition to_sign (zone : string) (r : DnsRecord) : bool :=
  name_in_zone (r_name r) zone && match r_type r with RRSIG | NSEC => false | _ => true end.

Fixpoint group_at (groups : list Group) (k : string * RecordKind) : option (list DnsRecord) :=
  match groups with
  | [] => None
  | (k', rs) :: groups' => if bool_decide (k' = k) then Some rs else group_at groups' k
  end.

Lemma group_at_push key r groups k :
  group_at (push_group key r groups) k =
    if bool_decide (k = key) then Some (default [] (group_at groups key) ++ [r]) else group_at groups k.
Proof.
  induction groups as [|[k0 rs0] groups IH]; simpl.
  - destruct (decide (k = key)) as [->|Hk]; [by rewrite !bool_decide_true|].
    rewrite !bool_decide_false by done. done.
  - destruct (decide (k0 = key)) as [->|Hk0].
    + rewrite !(bool_decide_true (key = key)) by done. simpl.
      destruct (decide (k = key)) as [->|Hk]; [by rewrite !bool_decide_true|].
      by rewrite !bool_decide_false by congruence.
    + rewrite (bool_decide_false (k0 = key)) by done. simpl. rewrite IH.
      destruct (decide (k = key)) as [->|Hk]; [by rewrite !(bool_decide_true (key = key)), (bool_decide_false (k0 = key))|].
      by rewrite (bool_decide_false (k = key)).
Qed.

Lemma group_at_Some groups k rs : group_at groups k = Some rs -> (k, rs) ∈ groups.
Proof.
  induction groups as [|[k0 rs0] groups IH]; simpl; [done|].
  case_bool_decide as E; [intros [= ->]; subst; by left|]. intros H. right. by apply IH.
Qed.

Lemma group_at_elem groups k rs : NoDup (groups.*1) -> (k, rs) ∈ groups -> group_at groups k = Some rs.
Proof.
  induction groups as [|[k0 rs0] groups IH]; intros Hnd Hin; [by apply elem_of_nil in Hin|].
  rewrite fmap_cons in Hnd. apply NoDup_cons in Hnd as [Hk Hnd]. simpl in *.
  apply elem_of_cons in Hin as [E|Hin]; [injection E as -> ->; by rewrite bool_decide_true|].
  rewrite bool_decide_false; [by apply IH|]. intros ->. apply Hk. by apply (list_elem_of_fmap_2 fst _ (k, rs)).
Qed.

Lemma push_group_keys key r groups :
  NoDup (groups.*1) -> NoDup ((push_group key r groups).*1) /\
  forall k, k ∈ (push_group key r groups).*1 -> k ∈ groups.*1 \/ k = key.
Proof.
  induction groups as [|[k0 rs0] groups IH]; intros Hnd; simpl.
  { split; [apply NoDup_singleton|]. intros k Hk. right. set_solver. }
  rewrite fmap_cons in Hnd. apply NoDup_cons in Hnd as [Hk0 Hnd]. simpl in Hk0.
  case_bool_decide as E; rewrite !fmap_cons; simpl.
  - split; [by apply NoDup_cons|]. intros k Hk. by left.
  - destruct (IH Hnd) as [H1 H2]. split.
    + apply NoDup_cons. split; [|done]. intros [H|H]%H2; [done|by subst].
    + intros k [->|Hk]%elem_of_cons; [left; by left|]. destruct (H2 k Hk); [left; by right|by right].
Qed.

Definition key_of (r : DnsRecord) : string * RecordKind := (r_name r, r_type r).

(** The RRset of a key among the rows the pass signs. *)
Definition signed_set (zone : string) (k : string * RecordKind) (rows : list DnsRecord) : list DnsRecord :=
  List.filter (fun r => to_sign zone r && bool_decide (key_of r = k)) rows.

Lemma collect_spec zone rows :
  let out := foldl (collect_record zone) ([], ∅) rows in
  NoDup (out.1.*1) /\
  (forall k, group_at out.1 k = match signed_set zone k rows with [] => None | l => Some l end) /\
  forall n, is_Some (out.2 !! n) <-> exists r, r ∈ rows /\ r_name r = n /\ name_in_zone n zone = true.
Proof.
  induction rows as [|r rows IH] using rev_ind.
  { simpl. split_and!; [by apply NoDup_nil_2|done|]. intros n. rewrite lookup_empty. split; [by intros []|].
    intros (r & Hr & _). by apply elem_of_nil in Hr. }
  rewrite foldl_app. cbn [foldl]. destruct (foldl (collect_record zone) ([], ∅) rows) as [groups names].
  destruct IH as (H1 & H2 & H3). cbn [fst snd] in *.
  assert (forall k, signed_set zone k (rows ++ [r]) =
    signed_set zone k rows ++ if to_sign zone r && bool_decide (key_of r = k) then [r] else []) as Hs.
  { intros k. unfold signed_set. rewrite List.filter_app. simpl. by destruct (_ && _). }
  unfold collect_record. destruct (name_in_zone (r_name r) zone) eqn:Ez; cbn [negb].
  2:{ cbn [fst snd]. split_and!; [done| |].
      - intros k. rewrite Hs. unfold to_sign. rewrite Ez. simpl. by rewrite app_nil_r.
      - intros n. rewrite H3. split; [intros (x & Hx & Hn); exists x; set_solver|].
        intros (x & [Hx| ->%list_elem_of_singleton]%elem_of_app & <- & Hn); [by exists x|congruence]. }
  assert (forall n, is_Some (<[r_name r := tt]> names !! n) <->
    exists x, x ∈ rows ++ [r] /\ r_name x = n /\ name_in_zone n zone = true) as H3'.
  { intros n. destruct (decide (r_name r = n)) as [<-|Hn].
    - rewrite lookup_insert_eq. split; [intros _; exists r; set_solver|by eexists].
    - rewrite lookup_insert_ne by done. rewrite H3. split; [intros (x & Hx & Hx'); exists x; set_solver|].
      intros (x & [Hx| ->%list_elem_of_singleton]%elem_of_app & E & Hz); [by exists x|done]. }
  assert (to_sign zone r = false -> forall k, signed_set zone k (rows ++ [r]) = signed_set zone k rows) as Hno
    by (intros E k; rewrite Hs, E; simpl; by rewrite app_nil_r).
  assert (to_sign zone r = true -> NoDup ((push_group (key_of r) r groups).*1) /\
    forall k, group_at (push_group (key_of r) r groups) k =
      match signed_set zone k (rows ++ [r]) with [] => None | l => Some l end) as Hyes.
  { intros E. split; [by apply push_group_keys|]. intros k. rewrite group_at_push, Hs, E. cbn [andb].
    destruct (decide (k = key_of r)) as [->|Hk].
    - rewrite !bool_decide_true by done. rewrite H2. destruct (signed_set zone (key_of r) rows); done.
    - rewrite !bool_decide_false by congruence. by rewrite app_nil_r, H2. }
  unfold to_sign, key_of in Hno, Hyes. rewrite Ez in Hno, Hyes. simpl in Hno, Hyes.
  destruct (r_type r); cbn [fst snd];
    first [ destruct (Hyes eq_refl) as [Hy1 Hy2]; split_and!; [exact Hy1|exact Hy2|exact H3']
          | split_and!; [done|intros k; rewrite (Hno eq_refl); apply H2|exact H3'] ].
Qed.

Lemma add_all_app rs rs' s : add_all (rs ++ rs') s = add_all rs' (add_all rs s).
Proof. revert s. induction rs as [|r rs IH]; intros s; [done|]. apply IH. Qed.

(** * The signing loop *)

Section Loop.
Context `{B64 : !Base64, HX : !Hex, RG : !Ring}.
Context (svcb_canonical_rdata : string -> option (list Z)).
Context (zone : string) (inception expiration : Z).

Local Abbreviation canonical_rdata := (canonical_rdata svcb_canonical_rdata).
Local Abbreviation sign_rrset := (sign_rrset svcb_canonical_rdata).
Local Abbreviation encodable := (encodable svcb_canonical_rdata).

Lemma sign_with_spec g signers s s' :
  sign_with svcb_canonical_rdata zone inception expiration g signers s = (Ok tt, s') ->
  exists values, Forall2 (fun key v => sign_rrset key (set_to_sign zone inception expiration g) = Ok v) signers values /\
    s' = add_all (rrsig_record g <$> values) s.
Proof.
  revert s. induction signers as [|key signers IH]; intros s; simpl; [intros [= <-]; by exists []|].
  destruct (sign_rrset key _) as [v|] eqn:Ev; [|done]. intros (values & Hf & ->)%IH.
  exists (v :: values). split; [by constructor|done].
Qed.

(** The signatures of a group under the keys that sign it. *)
Definition signature_of (keys : list SigningKey) (g : Group) (r : DnsRecord) : Prop :=
  exists key v, key ∈ signers_for zone keys g.1 /\
    sign_rrset key (set_to_sign zone inception expiration g) = Ok v /\ r = rrsig_record g v.

Lemma sign_groups_spec keys groups n sk out s s' :
  sign_groups svcb_canonical_rdata zone inception expiration keys groups n sk s = (Ok out, s') ->
  exists recs, s' = add_all recs s /\
    (forall r, r ∈ recs -> exists g, g ∈ groups /\ encodable g = true /\ signature_of keys g r) /\
    (forall g key, g ∈ groups -> encodable g = true -> key ∈ signers_for zone keys g.1 ->
       exists v, sign_rrset key (set_to_sign zone inception expiration g) = Ok v /\ rrsig_record g v ∈ recs).
Proof.
  revert n sk s. induction groups as [|g groups IH]; intros n sk s; simpl.
  { intros [= _ <-]. exists []. split_and!; [done|intros r Hr; by apply elem_of_nil in Hr|].
    intros g key Hg. by apply elem_of_nil in Hg. }
  destruct (encodable g) eqn:Ee; simpl.
  - destruct (sign_with _ _ _ _ g (signers_for zone keys g.1) s) as [[[]|e] s1] eqn:Ew; [|done].
    apply sign_with_spec in Ew as (values & Hf & ->). intros (recs & -> & H1 & H2)%IH.
    exists ((rrsig_record g <$> values) ++ recs). split_and!; [by rewrite add_all_app| |].
    + intros r [(v & -> & Hv)%list_elem_of_fmap|Hr]%elem_of_app.
      * exists g. split_and!; [by left|done|]. apply list_elem_of_lookup in Hv as [i Hi].
        destruct (Forall2_lookup_r _ _ _ _ _ Hf Hi) as (key & Hk & Hs). exists key, v.
        split_and!; [by eapply list_elem_of_lookup_2|done|done].
      * destruct (H1 r Hr) as (g' & Hg & H). exists g'. split; [by right|done].
    + intros g' key [->|Hg]%elem_of_cons He Hk.
      * apply list_elem_of_lookup in Hk as [i Hi]. destruct (Forall2_lookup_l _ _ _ _ _ Hf Hi) as (v & Hv & Hs).
        exists v. split; [done|]. apply elem_of_app. left. apply list_elem_of_fmap_2. by eapply list_elem_of_lookup_2.
      * destruct (H2 g' key Hg He Hk) as (v & Hv & Hin). exists v. split; [done|]. apply elem_of_app. by right.
  - intros (recs & -> & H1 & H2)%IH. exists recs. split_and!; [done| |].
    + intros r Hr. destruct (H1 r Hr) as (g' & Hg & H). exists g'. split; [by right|done].
    + intros g' key [->|Hg]%elem_of_cons He Hk; [congruence|by apply H2].
Qed.

Lemma signers_for_keys keys key k : k ∈ signers_for zone keys key -> k ∈ keys.
Proof.
  unfold signers_for. destruct (List.filter _ keys) as [|x l] eqn:E; [done|]. rewrite <- E.
  by intros [H _]%elem_filter_bool.
Qed.

Lemma signers_for_nonempty keys key : keys <> [] -> exists k, k ∈ signers_for zone keys key.
Proof.
  intros H. unfold signers_for. destruct (List.filter _ keys) as [|x l].
  - destruct keys as [|k keys]; [done|]. exists k. by left.
  - exists x. by left.
Qed.

End Loop.

(** * Candidates are the whole zone *)

Lemma candidates_zone zone s k :
  normalize_name zone = zone -> zone <> "." ->
  Forall (fun r => normalize_name (r_name r) = r_name r) (dns_records s) ->
  (forall r, r ∈ dns_records s -> name_in_zone (r_name r) zone = true -> r ∈ list_records ("*." +:+ zone) None s) /\
  signed_set zone k (list_records ("*." +:+ zone) None s) = signed_set zone k (dns_records s) /\
  forall r, r ∈ list_records ("*." +:+ zone) None s -> r ∈ dns_records s.
Proof.
  intros Hz Hroot Hn.
  assert (forall r, r ∈ dns_records s -> name_in_zone (r_name r) zone = true ->
    sql_like_plain ("%" +:+ zone) (r_name r) = true) as Hlike.
  { intros r Hr Hin. rewrite Forall_forall in Hn. specialize (Hn r Hr).
    assert (exists p, r_name r = p +:+ zone) as [p ->]; [|apply sql_like_plain_suffix].
    unfold name_in_zone in Hin. rewrite Hn, Hz in Hin.
    destruct (String.eqb_spec (r_name r) zone) as [->|_]; [by exists ""|].
    destruct (String.eqb_spec zone ".") as [|_]; [done|].
    apply ends_with_spec in Hin as [p Hp]. exists (p +:+ "."). rewrite Hp. by rewrite app_assoc_str. }
  assert (list_records ("*." +:+ zone) None s =
    List.filter (fun r => sql_like_plain ("%" +:+ zone) (r_name r)) (dns_records s)) as E.
  { unfold list_records. simpl. rewrite Hz. apply filter_ext. intros r. apply andb_true_r. }
  rewrite E. split_and!.
  - intros r Hr Hin. apply elem_filter_bool. split; [done|by apply Hlike].
  - unfold signed_set. rewrite filter_filter_and. apply filter_ext_in. intros r Hr%list_elem_of_In.
    unfold to_sign. destruct (name_in_zone (r_name r) zone) eqn:Ez; cbn [andb]; [|by rewrite andb_false_r].
    by rewrite (Hlike r Hr Ez).
  - intros r [H _]%elem_filter_bool. done.
Qed.

(** * The zone after a pass *)

(** The RRset of an owner and type among rows. *)
Definition rrset_at (k : string * RecordKind) (rows : list DnsRecord) : list DnsRecord :=
  List.filter (fun r => bool_decide (key_of r = k)) rows.

(** The rows a pass replaces. *)
Definition produced (zone : string) (r : DnsRecord) : bool :=
  match r_type r with
  | DNSKEY => (r_name r =? zone)%string
  | RRSIG | NSEC => name_in_zone (r_name r) zone
  | _ => false
  end.

Lemma rrset_at_app k rows rows' : rrset_at k (rows ++ rows') = rrset_at k rows ++ rrset_at k rows'.
Proof. apply List.filter_app. Qed.

Lemma rrset_at_other k kind rows :
  Forall (fun r => r_type r = kind) rows -> kind <> k.2 -> rrset_at k rows = [].
Proof.
  intros H Hk. unfold rrset_at. induction H as [|r rows Hr _ IH]; [done|]. simpl.
  rewrite bool_decide_false; [done|]. unfold key_of. destruct k. intros [= _ E]. simpl in Hk. congruence.
Qed.

Lemma stores_type kind rs rows :
  Forall2 stores rs rows -> Forall (fun r => r_type r = kind) rs -> Forall (fun r => r_type r = kind) rows.
Proof.
  intros H. induction H as [|r row rs rows (_ & Ht & _) _ IH]; intros Hk; [constructor|].
  inversion_clear Hk. constructor; [by rewrite Ht|by apply IH].
Qed.

Lemma stores_elem rs rows row : Forall2 stores rs rows -> row ∈ rows -> exists r, r ∈ rs /\ stores r row.
Proof.
  intros H [i Hi]%list_elem_of_lookup. destruct (Forall2_lookup_r _ _ _ _ _ H Hi) as (r & Hr & Hs).
  exists r. split; [by eapply list_elem_of_lookup_2|done].
Qed.

Lemma stores_elem_l rs rows r : Forall2 stores rs rows -> r ∈ rs -> exists row, row ∈ rows /\ stores r row.
Proof.
  intros H [i Hi]%list_elem_of_lookup. destruct (Forall2_lookup_l _ _ _ _ _ H Hi) as (row & Hr & Hs).
  exists row. split; [by eapply list_elem_of_lookup_2|done].
Qed.

(** What a successful pass leaves: the rows it does not replace, the keys, the chain
    and the signatures, over the groups it signed. *)
Record signed_shape `{!Base64, !Hex, !Ring} (svcb : string -> option (list Z)) (zone : string) (clock : option Z)
    (s s' : ZoneStore) (keys : list SigningKey) (groups : list Group) (nsecs keyrows nsecrows sigs sigrows : list DnsRecord)
  : Prop := {
  sh_now : exists now, clock = Some now /\
    let inception := Z.max 0 (now - RRSIG_INCEPTION_BACKDATE_SECS) in
    let expiration := Z.min u32_max (now + RRSIG_VALIDITY_SECS) in
    (forall r, r ∈ sigs -> exists g, g ∈ groups /\ encodable svcb g = true /\
       signature_of svcb zone inception expiration keys g r) /\
    (forall g key, g ∈ groups -> encodable svcb g = true -> key ∈ signers_for zone keys g.1 ->
       exists v, sign_rrset svcb key (set_to_sign zone inception expiration g) = Ok v /\ rrsig_record g v ∈ sigs);
  sh_keys : keys = (load_keys (list_dnssec_keys zone (signing s))).1;
  sh_some : keys <> [];
  sh_keyrows : Forall2 stores (dnskey_record zone <$> keys) keyrows;
  sh_nsecrows : Forall2 stores nsecs nsecrows;
  sh_sigrows : Forall2 stores sigs sigrows;
  sh_rows : dns_records s' = List.filter (fun r => negb (produced zone r)) (dns_records s) ++ keyrows ++ nsecrows ++ sigrows;
  sh_chain : exists candidates, (forall r, r ∈ candidates -> r ∈ dns_records s \/ r ∈ keyrows) /\
    nsecs = nsec_record (apex_negative_ttl candidates zone) <$> build_nsec_chain zone candidates;
  sh_groups : forall g, g ∈ groups <->
    (g.2 = signed_set zone g.1 (dns_records s') /\ g.2 <> []) \/ exists r, r ∈ nsecs /\ g = ((r_name r, NSEC), [r]);
  sh_marks : signing s' = end_zone_resign zone (clear_zone_resign_pending zone (begin_zone_resign zone (signing s)));
}.
Arguments sh_now {_ _ _ _ _ _ _ _ _ _ _ _ _ _ _} _.
Arguments sh_keys {_ _ _ _ _ _ _ _ _ _ _ _ _ _ _} _.
Arguments sh_some {_ _ _ _ _ _ _ _ _ _ _ _ _ _ _} _.
Arguments sh_keyrows {_ _ _ _ _ _ _ _ _ _ _ _ _ _ _} _.
Arguments sh_nsecrows {_ _ _ _ _ _ _ _ _ _ _ _ _ _ _} _.
Arguments sh_sigrows {_ _ _ _ _ _ _ _ _ _ _ _ _ _ _} _.
Arguments sh_rows {_ _ _ _ _ _ _ _ _ _ _ _ _ _ _} _.
Arguments sh_chain {_ _ _ _ _ _ _ _ _ _ _ _ _ _ _} _.
Arguments sh_groups {_ _ _ _ _ _ _ _ _ _ _ _ _ _ _} _.
Arguments sh_marks {_ _ _ _ _ _ _ _ _ _ _ _ _ _ _} _.

Lemma signed_set_app zone k rows rows' : signed_set zone k (rows ++ rows') = signed_set zone k rows ++ signed_set zone k rows'.
Proof. apply List.filter_app. Qed.

Lemma signed_set_none zone k rows :
  Forall (fun r => r_type r = NSEC \/ r_type r = RRSIG) rows -> signed_set zone k rows = [].
Proof.
  intros H. unfold signed_set. induction H as [|r rows Hr _ IH]; [done|]. simpl. rewrite IH.
  unfold to_sign. destruct Hr as [-> | ->]; by rewrite andb_false_r.
Qed.

(** The rows left after the keys are replaced and the signatures cleared. *)
Lemma cleared_rows zone names rows keyrows :
  (forall r, r ∈ rows -> r_type r = RRSIG \/ r_type r = NSEC -> name_in_zone (r_name r) zone = true -> r_name r ∈ names) ->
  (forall n, n ∈ names -> name_in_zone n zone = true) ->
  Forall (fun r => r_type r = DNSKEY) keyrows ->
  List.filter (fun r => negb (signature_at names r))
    (List.filter (fun r => negb (delete_matches zone (Some DNSKEY) "" r)) rows ++ keyrows) =
  List.filter (fun r => negb (produced zone r)) rows ++ keyrows.
Proof.
  intros Hn1 Hn2 Hk. rewrite List.filter_app, filter_filter_and. f_equal.
  - apply filter_ext_in. intros r Hr%list_elem_of_In. unfold delete_matches, signature_at, produced. simpl.
    assert (r_type r = RRSIG \/ r_type r = NSEC -> existsb (String.eqb (r_name r)) names = name_in_zone (r_name r) zone) as E.
    { intros Ht. apply eq_true_iff_eq. rewrite existsb_exists. split.
      - intros (n & Hin%list_elem_of_In & ->%String.eqb_eq). by apply Hn2.
      - intros Hz. exists (r_name r). split; [apply list_elem_of_In; by apply Hn1|by apply String.eqb_eq]. }
    destruct (r_type r); simpl; rewrite ?E, ?andb_true_r, ?andb_false_r by auto; done.
  - apply filter_all_true. rewrite Forall_forall in Hk. intros r Hr. unfold signature_at. by rewrite (Hk r Hr).
Qed.

Lemma dnskey_records_type `{!Base64, !Ring} zone keys : Forall (fun r => r_type r = DNSKEY) (dnskey_record zone <$> keys).
Proof. apply Forall_fmap, Forall_true. done. Qed.

Lemma nsec_records_type ttl chain : Forall (fun r => r_type r = NSEC) (nsec_record ttl <$> chain).
Proof. apply Forall_fmap, Forall_true. done. Qed.

Lemma signature_of_type `{!Base64, !Hex, !Ring} svcb zone i e keys g r :
  signature_of svcb zone i e keys g r -> r_type r = RRSIG.
Proof. by intros (? & ? & _ & _ & ->). Qed.

Lemma content_free kind rs :
  is_zone_content kind = false -> Forall (fun r => r_type r = kind) rs -> Forall (fun r => is_zone_content (r_type r) = false) rs.
Proof. intros H Hf. eapply Forall_impl; [exact Hf|]. by intros r ->. Qed.

Section Shape.
Context `{B64 : !Base64, HX : !Hex, RG : !Ring, MI : !MapIter, ML : !MapIterLaws}.
Context (svcb : string -> option (list Z)).

(** The groups of the loop: the RRsets of the zone with the chain's records. *)
Lemma pass_groups zone rows nsecs nsecrows sigrows g :
  Forall (fun r => r_type r = NSEC) nsecrows -> Forall (fun r => r_type r = RRSIG) sigrows ->
  forall candidates, (forall k, signed_set zone k candidates = signed_set zone k rows) ->
  g ∈ merge_sort group_le ((foldl (collect_record zone) ([], ∅) candidates).1 ++ ((fun r => ((r_name r, NSEC), [r])) <$> nsecs)) <->
  (g.2 = signed_set zone g.1 (rows ++ nsecrows ++ sigrows) /\ g.2 <> []) \/ exists r, r ∈ nsecs /\ g = ((r_name r, NSEC), [r]).
Proof.
  intros Hn Hs candidates Hc. destruct (collect_spec zone candidates) as (H1 & H2 & _).
  set (groups := (foldl _ _ candidates).1) in *.
  rewrite (merge_sort_Permutation group_le), elem_of_app, list_elem_of_fmap.
  rewrite !signed_set_app, (signed_set_none zone _ nsecrows), (signed_set_none zone _ sigrows), !app_nil_r.
  2:{ eapply Forall_impl; [exact Hs|]. by right. } 2:{ eapply Forall_impl; [exact Hn|]. by left. }
  rewrite <- Hc. destruct g as [k rs]. simpl. split.
  - intros [Hg|(r & -> & Hr)]; [left|right; eauto]. apply (group_at_elem _ _ _ H1) in Hg. rewrite H2 in Hg.
    destruct (signed_set zone k candidates); [done|]. injection Hg as <-. done.
  - intros [[E Hne]|(r & Hr & E)]; [left|right; eauto]. apply group_at_Some. rewrite H2, <- E. by destruct rs.
Qed.

(** The DNSKEY RRset is the keys', and nothing else changed. *)
Lemma publish_keys_rows zone keys s :
  normalize_name zone = zone -> Forall (fun r => normal (r_name r)) (dns_records s) ->
  exists keyrows,
    dns_records (publish_keys zone keys s) =
      List.filter (fun r => negb (delete_matches zone (Some DNSKEY) "" r)) (dns_records s) ++ keyrows /\
    Forall2 stores (dnskey_record zone <$> keys) keyrows /\
    signing (publish_keys zone keys s) = signing s /\
    Forall (fun r => normalize_name (r_name r) = r_name r) (dns_records (publish_keys zone keys s)).
Proof.
  intros Hz Hn. rewrite publish_keys_all.
  destruct (add_all_rows (dnskey_record zone <$> keys) (remove_records zone (Some DNSKEY) "" s).2) as (keyrows & Hkr & Hkf).
  rewrite remove_records_rows, Hz in Hkr. exists keyrows. split_and!; [done|done| |].
  - rewrite add_all_signing, remove_records_signing; try done. apply (content_free DNSKEY), dnskey_records_type. done.
  - rewrite Hkr. apply Forall_app. split.
    + rewrite Forall_forall in Hn |- *. intros r [Hr _]%elem_filter_bool. by apply normal_valid, Hn.
    + rewrite Forall_forall. intros r Hr. destruct (stores_elem _ _ _ Hkf Hr) as (x & _ & -> & _).
      apply normalize_name_idem.
Qed.

(** Clearing takes out the signatures and the chain of the zone, whole. *)
Lemma clear_signatures_rows zone s rows keyrows :
  normalize_name zone = zone -> zone <> "." ->
  Forall (fun r => normalize_name (r_name r) = r_name r) (dns_records s) ->
  Forall (fun r => r_type r = DNSKEY) keyrows ->
  dns_records s = List.filter (fun r => negb (delete_matches zone (Some DNSKEY) "" r)) rows ++ keyrows ->
  let candidates := list_records ("*." +:+ zone) None s in
  let names := (foldl (collect_record zone) ([], ∅) candidates).2 in
  dns_records (clear_signatures names s) = List.filter (fun r => negb (produced zone r)) rows ++ keyrows /\
  signing (clear_signatures names s) = signing s.
Proof.
  intros Hz Hroot Hn Hkt Hrows candidates names. rewrite clear_signatures_names.
  destruct (candidates_zone zone s (zone, A) Hz Hroot Hn) as (Hc1 & _ & Hc3). fold candidates in Hc1, Hc3.
  assert (forall n, n ∈ (map_iter unit names).*1 <-> exists r, r ∈ candidates /\ r_name r = n /\ name_in_zone n zone = true) as Hcl.
  { intros n. rewrite <- (proj2 (proj2 (collect_spec zone candidates)) n). fold names.
    rewrite (map_iter_perm unit names), list_elem_of_fmap. split.
    - intros ([n' u] & -> & Hu%elem_of_map_to_list). by exists u.
    - intros [u Hu]. exists (n, u). split; [done|by apply elem_of_map_to_list]. }
  destruct (clear_names_rows (map_iter unit names).*1 s) as [-> ->].
  { apply Forall_forall. intros n (r & Hr & <- & _)%Hcl. rewrite Forall_forall in Hn. by apply Hn, Hc3. }
  split; [|done]. rewrite Hrows. apply cleared_rows; [|by intros n (r & _ & _ & E)%Hcl|done].
  intros r Hr Ht Hin. apply Hcl. exists r. split_and!; try done. apply Hc1; [|done]. rewrite Hrows.
  apply elem_of_app. left. apply elem_filter_bool. split; [done|]. unfold delete_matches.
  destruct Ht as [-> | ->]; simpl; by rewrite andb_false_r.
Qed.

Lemma signed_set_produced zone k rows :
  signed_set zone k (List.filter (fun r => negb (produced zone r)) rows) =
  signed_set zone k (List.filter (fun r => negb (delete_matches zone (Some DNSKEY) "" r)) rows).
Proof.
  unfold signed_set. rewrite !filter_filter_and. apply filter_ext. intros r.
  unfold produced, delete_matches, to_sign. destruct (r_type r); simpl; rewrite ?andb_false_r, ?andb_true_r; done.
Qed.

Lemma sign_zone_shape clock zone s sm s' :
  normalize_name zone = zone -> zone <> "." ->
  Forall (fun r => normal (r_name r)) (dns_records s) ->
  sign_zone svcb clock zone s = (Ok (Signed sm), s') ->
  exists keys groups nsecs keyrows nsecrows sigs sigrows,
    signed_shape svcb zone clock s s' keys groups nsecs keyrows nsecrows sigs sigrows.
Proof.
  intros Hz Hroot Hn. unfold sign_zone. rewrite Hz. unfold sign_pass.
  destruct (list_dnssec_keys zone _) as [|row rows] eqn:El; [done|]. rewrite <- El.
  change (list_dnssec_keys zone (signing (set_signing (begin_zone_resign zone) s)))
    with (list_dnssec_keys zone (signing s)) in *.
  destruct (load_keys (list_dnssec_keys zone (signing s))) as [keys warnings] eqn:Ek.
  destruct keys as [|key0 keys0]; [done|]. set (keys := key0 :: keys0) in *.
  destruct (publish_keys_rows zone keys (set_signing (begin_zone_resign zone) s) Hz Hn) as (keyrows & Hkr & Hkf & Hks & Hn1).
  set (s1 := publish_keys zone keys _) in *. set (s2 := set_signing (clear_zone_resign_pending zone) s1).
  pose proof (stores_type DNSKEY _ _ Hkf (dnskey_records_type zone keys)) as Hkt.
  destruct (clear_signatures_rows zone s2 (dns_records s) keyrows Hz Hroot Hn1 Hkt Hkr) as [Hcr Hcs].
  assert (forall k, signed_set zone k (list_records ("*." +:+ zone) None s2) = signed_set zone k (dns_records s2)) as Hc
    by (intros k; apply candidates_zone; done).
  destruct (candidates_zone zone s2 (zone, A) Hz Hroot Hn1) as (_ & _ & Hc3).
  set (candidates := list_records ("*." +:+ zone) None s2) in *.
  set (nsecs := nsec_record (apex_negative_ttl candidates zone) <$> build_nsec_chain zone candidates).
  pose proof (pass_groups zone (List.filter (fun r => negb (produced zone r)) (dns_records s) ++ keyrows) nsecs) as Hg.
  destruct (foldl (collect_record zone) ([], ∅) candidates) as [groups names] eqn:Ec. cbn [fst snd] in Hcr, Hcs.
  destruct clock as [now|]; [|done]. rewrite publish_chain_all.
  destruct (add_all_rows nsecs (clear_signatures names s2)) as (nsecrows & Hnr & Hnf).
  pose proof (stores_type NSEC _ _ Hnf (nsec_records_type _ _)) as Hnt.
  destruct (sign_groups _ _ _ _ _ _ _ _ _) as [[[signed skipped]|e] s4] eqn:Eg; [|done]. intros [= _ <-].
  apply sign_groups_spec in Eg as (sigs & -> & Hg1 & Hg2).
  destruct (add_all_rows sigs (add_all nsecs (clear_signatures names s2))) as (sigrows & Hsr & Hsf).
  assert (Forall (fun r => r_type r = RRSIG) sigs) as Hst.
  { apply Forall_forall. intros r Hr. destruct (Hg1 r Hr) as (g & _ & _ & H). by eapply signature_of_type. }
  rewrite Hnr, Hcr, <- !app_assoc in Hsr.
  eexists keys, _, nsecs, keyrows, nsecrows, sigs, sigrows.
  split; [exists now; split; [done|split; [exact Hg1|exact Hg2]]|by rewrite Ek|done|exact Hkf|exact Hnf|exact Hsf|exact Hsr|..].
  - exists candidates. split; [|done]. intros r Hr%Hc3. change (dns_records s2) with (dns_records s1) in Hr.
    rewrite Hkr in Hr. apply elem_of_app in Hr as [[Hr _]%elem_filter_bool|Hr]; [by left|by right].
  - intros g. specialize (Hg nsecrows sigrows g Hnt (stores_type RRSIG _ _ Hsf Hst) candidates). rewrite Ec in Hg.
    simpl in *. rewrite Hsr, <- !app_assoc in *. apply Hg. intros k. rewrite Hc. change (dns_records s2) with (dns_records s1).
    rewrite Hkr, !signed_set_app. f_equal. symmetry. apply signed_set_produced.
  - simpl. rewrite !add_all_signing, Hcs by (first [by apply (content_free RRSIG)|by apply (content_free NSEC), nsec_records_type]).
    simpl. by rewrite Hks.
Qed.
End Shape.

(** * Every RRset of the zone is signed *)

Lemma stored_single kind rs rows r :
  Forall2 stores rs rows -> Forall (fun x => r_type x = kind /\ normalize_name (r_name x) = r_name x) rs ->
  NoDup (r_name <$> rs) -> r ∈ rs -> exists row, rrset_at (r_name r, kind) rows = [row] /\ stores r row.
Proof.
  intros H. induction H as [|x row rs rows Hx Hf IH]; intros Hk Hnd Hr; [by apply elem_of_nil in Hr|].
  inversion_clear Hk as [|?? [Ht Hn] Hk']. rewrite fmap_cons in Hnd. apply NoDup_cons in Hnd as [Hnin Hnd].
  assert (key_of row = (r_name x, kind)) as Ek.
  { destruct Hx as (E1 & E2 & _). unfold key_of. by rewrite E1, E2, Hn, Ht. }
  unfold rrset_at. cbn [List.filter]. rewrite Ek. apply elem_of_cons in Hr as [->|Hr].
  - rewrite bool_decide_true by done. exists row. split; [|done]. f_equal.
    destruct (List.filter _ rows) as [|y l] eqn:E; [done|]. exfalso.
    assert (y ∈ y :: l) as Hy by left. rewrite <- E in Hy. apply elem_filter_bool in Hy as [Hy Hk].
    apply bool_decide_eq_true in Hk. destruct (stores_elem _ _ _ Hf Hy) as (z & Hz & En & _).
    apply Hnin. rewrite Forall_forall in Hk'. destruct (Hk' z Hz) as [_ Hzn]. unfold key_of in Hk.
    injection Hk as Hk _. rewrite <- Hk, En, Hzn. by apply list_elem_of_fmap_2.
  - rewrite bool_decide_false; [by apply IH|]. intros [= E]. apply Hnin. rewrite E. by apply list_elem_of_fmap_2.
Qed.

Lemma canonical_rdata_stores `{!Base64, !Hex} svcb r row : stores r row -> canonical_rdata svcb row = canonical_rdata svcb r.
Proof. intros (_ & Ht & Hv & _ & Hp). unfold canonical_rdata. by rewrite Ht, Hv, Hp. Qed.

Lemma min_row_ttl_u32 rs : Forall (fun r => is_u 32 (r_ttl r)) rs -> is_u 32 (min_row_ttl rs).
Proof.
  destruct rs as [|r rs]; [intros _; vm_compute; split; congruence|]. intros H. inversion_clear H as [|?? Hr Hrs].
  simpl. revert Hr. generalize (r_ttl r). induction Hrs as [|x xs Hx _ IH]; intros m Hm; [done|].
  simpl. apply IH. unfold is_u in *. lia.
Qed.

Lemma apex_negative_ttl_u32 candidates zone :
  Forall (fun r => is_u 32 (r_ttl r)) candidates -> is_u 32 (apex_negative_ttl candidates zone).
Proof.
  intros H. unfold apex_negative_ttl. cbn zeta. destruct (find _ candidates) as [soa|] eqn:Ef; [|vm_compute; split; congruence].
  simpl. destruct (_ ≫= parse_u32) as [m|] eqn:Em; [|vm_compute; split; congruence]. simpl.
  apply find_some in Ef as [Hin%list_elem_of_In _]. rewrite Forall_forall in H. specialize (H _ Hin).
  apply bind_Some in Em as (t & _ & Ht). apply parse_uint_bound in Ht; [|lia]. unfold is_u, u32_max in *. lia.
Qed.

Section Groups.
Context `{B64 : !Base64, HX : !Hex, RG : !Ring}.
Context (svcb : string -> option (list Z)) (zone : string) (clock : option Z) (s s' : ZoneStore).
Context (keys : list SigningKey) (groups : list Group) (nsecs keyrows nsecrows sigs sigrows : list DnsRecord).
Context (Hz : valid_name zone = true) (Hzn : normalize_name zone = zone).
Context (Hn : Forall (fun r => normal (r_name r)) (dns_records s)).
Context (Ht : Forall (fun r => is_u 32 (r_ttl r)) (dns_records s)).
Context (Sh : signed_shape svcb zone clock s s' keys groups nsecs keyrows nsecrows sigs sigrows).

Lemma zone_in_zone : name_in_zone zone zone = true.
Proof using Type. unfold name_in_zone. by rewrite String.eqb_refl. Qed.

Lemma keyrow_facts r : r ∈ keyrows -> r_name r = zone /\ r_type r = DNSKEY /\ is_u 32 (r_ttl r).
Proof using Hzn Sh.
  intros Hr. destruct (stores_elem _ _ _ (sh_keyrows Sh) Hr) as (x & Hx & E1 & E2 & _ & E4 & _).
  apply list_elem_of_fmap in Hx as (k & -> & _). simpl in *. rewrite E1, E2, E4, Hzn. split_and!; [done..|].
  vm_compute. split; congruence.
Qed.

(** The chain's records: normal owners of the zone, no owner twice. *)
Lemma nsecs_facts :
  Forall (fun r => r_type r = NSEC /\ normalize_name (r_name r) = r_name r) nsecs /\ NoDup (r_name <$> nsecs) /\
  Forall (fun r => name_in_zone (r_name r) zone = true /\ is_u 32 (r_ttl r)) nsecs.
Proof using Hz Hzn Hn Ht Sh.
  destruct (sh_chain Sh) as (candidates & Hc & E).
  assert (forall r, r ∈ candidates -> valid_name (r_name r) = true /\ is_u 32 (r_ttl r)) as Hcand.
  { rewrite Forall_forall in Hn, Ht. intros r [Hr|Hr]%Hc.
    - split; [by apply normal_valid, Hn|by apply Ht].
    - apply keyrow_facts in Hr as (-> & _ & ?). done. }
  pose proof (apex_negative_ttl_u32 candidates zone) as Httl.
  assert (forall o, o ∈ (build_nsec_chain zone candidates).*1 ->
    normalize_name o = o /\ name_in_zone o zone = true) as Ho.
  { intros o. rewrite chain_owners, elem_ordered. intros [->|(r & Hr & Hch)]%(proj1 (chain_names_spec zone candidates o)).
    - rewrite Hzn. split; [done|apply zone_in_zone].
    - destruct (chained_at_valid _ _ _ (proj1 (Hcand r Hr)) Hch) as [_ ?]. split; [done|].
      unfold chained_at in Hch. rewrite Hzn in Hch. by bool_hyps. }
  rewrite E. split_and!.
  - apply Forall_fmap, Forall_forall. intros l Hl. split; [done|].
    apply (Ho l.1). by apply list_elem_of_fmap_2.
  - rewrite <- list_fmap_compose. change (r_name ∘ nsec_record (apex_negative_ttl candidates zone)) with (@fst string Nsec).
    rewrite chain_owners, ordered_names_perm. apply NoDup_fst_map_to_list.
  - apply Forall_fmap, Forall_forall. intros l Hl. split; [apply (Ho l.1); by apply list_elem_of_fmap_2|]. simpl.
    apply Httl, Forall_forall. intros r Hr. by apply Hcand.
Qed.

Lemma sigs_type : Forall (fun r => r_type r = RRSIG) sigs.
Proof using Sh.
  destruct (sh_now Sh) as (now & _ & Hg & _). apply Forall_forall. intros r Hr.
  destruct (Hg r Hr) as (g & _ & _ & H). by eapply signature_of_type.
Qed.

(** The rows of the zone after the pass, by kind. *)
Lemma rrset_at_signed k :
  name_in_zone k.1 zone = true ->
  (k.2 <> NSEC -> k.2 <> RRSIG -> rrset_at k (dns_records s') = signed_set zone k (dns_records s')) /\
  (k.2 = NSEC -> rrset_at k (dns_records s') = rrset_at k nsecrows) /\
  (k.2 = RRSIG -> rrset_at k (dns_records s') = rrset_at k sigrows).
Proof using Hz Hzn Hn Ht Sh.
  intros Hk. destruct nsecs_facts as [Hnf _].
  assert (Forall (fun r => r_type r = DNSKEY) keyrows) as H1 by (apply Forall_forall; intros r Hr; by apply keyrow_facts).
  assert (Forall (fun r => r_type r = NSEC) nsecrows) as H2.
  { eapply stores_type; [apply (sh_nsecrows Sh)|]. eapply Forall_impl; [exact Hnf|]. by intros r []. }
  pose proof (stores_type RRSIG _ _ (sh_sigrows Sh) sigs_type) as H3.
  assert (k.2 = NSEC \/ k.2 = RRSIG -> rrset_at k (List.filter (fun r => negb (produced zone r)) (dns_records s)) = []) as Hb.
  { intros Hk2. unfold rrset_at. rewrite filter_filter_and. apply filter_none. intros r _. 
    destruct (decide (key_of r = k)) as [E|E]; [|rewrite (bool_decide_false _ E); apply andb_false_r].
    destruct k as [o t]. injection E as E1 E2. simpl in *. unfold produced. rewrite E1, E2, Hk.
    by destruct Hk2 as [-> | ->]. }
  rewrite (sh_rows Sh). split_and!; intros Hk2.
  - intros Hk3. apply filter_ext. intros r. destruct (decide (key_of r = k)) as [E|E].
    + rewrite !(bool_decide_true _ E), andb_true_r. destruct k as [o t]. injection E as E1 E2. simpl in *.
      unfold to_sign. rewrite E1, E2, Hk. by destruct t.
    + rewrite !(bool_decide_false _ E). by rewrite andb_false_r.
  - rewrite !rrset_at_app, Hb by (by left). rewrite (rrset_at_other k DNSKEY keyrows), (rrset_at_other k RRSIG sigrows) by congruence.
    by rewrite app_nil_r.
  - rewrite !rrset_at_app, Hb by (by right). rewrite (rrset_at_other k DNSKEY keyrows), (rrset_at_other k NSEC nsecrows) by congruence.
    done.
Qed.

Lemma group_facts g : g ∈ groups ->
  name_in_zone g.1.1 zone = true /\ normalize_name g.1.1 = g.1.1 /\ g.1.2 <> RRSIG /\
  rrset_at g.1 (dns_records s') <> [] /\
  canonical_rdata svcb <$> rrset_at g.1 (dns_records s') = canonical_rdata svcb <$> g.2 /\ is_u 32 (min_row_ttl g.2).
Proof using Hz Hzn Hn Ht Sh.
  intros Hg. destruct nsecs_facts as (Hf1 & Hf2 & Hf3). apply (sh_groups Sh) in Hg as [[E Hne]|(r & Hr & ->)].
  - assert (forall r, r ∈ g.2 -> r ∈ dns_records s' /\ key_of r = g.1 /\ to_sign zone r = true) as Hel.
    { intros r. rewrite E. intros [Hr Hb]%elem_filter_bool. bool_hyps. done. }
    assert (forall r, r ∈ g.2 -> normalize_name (r_name r) = r_name r /\ is_u 32 (r_ttl r)) as Hnt.
    { intros r Hr. destruct (Hel r Hr) as (Hin & _ & Hs). rewrite (sh_rows Sh) in Hin.
      rewrite !elem_of_app in Hin. rewrite Forall_forall in Hn, Ht.
      destruct Hin as [[Hin _]%elem_filter_bool|[Hin|[Hin|Hin]]]; [split; [by apply normal_valid, Hn|by apply Ht]| | |].
      - apply keyrow_facts in Hin as (-> & _ & ?). done.
      - exfalso. destruct (stores_elem _ _ _ (sh_nsecrows Sh) Hin) as (x & Hx & _ & E2 & _).
        rewrite Forall_forall in Hf1. destruct (Hf1 x Hx) as [Hxt _]. unfold to_sign in Hs.
        rewrite E2, Hxt, andb_false_r in Hs. done.
      - exfalso. destruct (stores_elem _ _ _ (sh_sigrows Sh) Hin) as (x & Hx & _ & E2 & _).
        pose proof sigs_type as Hst. rewrite Forall_forall in Hst. unfold to_sign in Hs.
        rewrite E2, (Hst x Hx), andb_false_r in Hs. done. }
    assert (exists r, r ∈ g.2) as [r Hr] by (destruct g.2 as [|r l]; [done|exists r; left]).
    destruct (Hel r Hr) as (_ & Ek & Hs), (Hnt r Hr) as [Hnm _]. destruct g as [[o t] rs]. simpl in *.
    injection Ek as Eo Et. unfold to_sign in Hs. rewrite Eo, Et in *. apply andb_true_iff in Hs as [Hs1 Hs2].
    assert (t <> NSEC /\ t <> RRSIG) as [Ht1 Ht2] by (by destruct t).
    rewrite (proj1 (rrset_at_signed (o, t) Hs1)) by done. rewrite <- E.
    split_and!; try done. apply min_row_ttl_u32, Forall_forall. intros x Hx. by apply Hnt.
  - destruct (stored_single NSEC nsecs nsecrows r (sh_nsecrows Sh) Hf1 Hf2 Hr) as (row & Er & Hst).
    rewrite Forall_forall in Hf1, Hf3. destruct (Hf1 r Hr) as [_ Hnr], (Hf3 r Hr) as [Hin Httl]. simpl.
    rewrite (proj1 (proj2 (rrset_at_signed (r_name r, NSEC) Hin))) by done. rewrite Er. simpl.
    rewrite (canonical_rdata_stores _ _ _ Hst). split_and!; done.
Qed.

(** Nothing of the zone is left out of the groups. *)
Lemma group_of k : name_in_zone k.1 zone = true -> k.2 <> RRSIG -> rrset_at k (dns_records s') <> [] ->
  exists rs, (k, rs) ∈ groups.
Proof using Hz Hzn Hn Ht Sh.
  intros Hk Hr Hne. destruct (decide (k.2 = NSEC)) as [E|E].
  - rewrite (proj1 (proj2 (rrset_at_signed k Hk)) E) in Hne.
    destruct (rrset_at k nsecrows) as [|row l] eqn:El; [done|]. assert (row ∈ row :: l) as Hin by left.
    rewrite <- El in Hin. apply elem_filter_bool in Hin as [Hin Hkey]. apply bool_decide_eq_true in Hkey.
    destruct (stores_elem _ _ _ (sh_nsecrows Sh) Hin) as (x & Hx & En & Et & _).
    destruct nsecs_facts as (Hf & _). rewrite Forall_forall in Hf. destruct (Hf x Hx) as [Hxt Hxn].
    exists [x]. apply (sh_groups Sh). right. exists x. split; [done|].
    rewrite <- Hkey. unfold key_of. by rewrite En, Et, Hxn, Hxt.
  - rewrite (proj1 (rrset_at_signed k Hk)) in Hne by done. exists (signed_set zone k (dns_records s')). apply (sh_groups Sh). by left.
Qed.

(** What is not a product of signing stays. *)
Lemma shape_untouched :
  List.filter (fun r => negb (produced zone r)) (dns_records s') = List.filter (fun r => negb (produced zone r)) (dns_records s).
Proof using Hz Hzn Hn Ht Sh.
  destruct nsecs_facts as (Hf1 & _ & Hf3). rewrite (sh_rows Sh), !List.filter_app.
  rewrite filter_filter_and, !(filter_none _ keyrows), !(filter_none _ nsecrows), !(filter_none _ sigrows), !app_nil_r.
  - apply filter_ext. intros r. apply andb_diag.
  - intros r Hr. destruct (stores_elem _ _ _ (sh_sigrows Sh) Hr) as (x & Hx & E1 & E2 & _).
    destruct (sh_now Sh) as (now & _ & Hg1 & _). destruct (Hg1 x Hx) as (g & Hg & _ & key & v & _ & _ & ->).
    destruct (group_facts g Hg) as (Hin & Hgn & _). unfold produced. rewrite E1, E2. simpl. by rewrite Hgn, Hin.
  - intros r Hr. destruct (stores_elem _ _ _ (sh_nsecrows Sh) Hr) as (x & Hx & E1 & E2 & _).
    rewrite Forall_forall in Hf1, Hf3. destruct (Hf1 x Hx) as [Hxt Hxn], (Hf3 x Hx) as [Hxz _].
    unfold produced. by rewrite E1, E2, Hxt, Hxn, Hxz.
  - intros r (E1 & E2 & _)%keyrow_facts. unfold produced. by rewrite E1, E2, String.eqb_refl.
Qed.
End Groups.

Lemma encodable_of `{!Base64, !Hex} svcb rows (g : Group) :
  canonical_rdata svcb <$> rows = canonical_rdata svcb <$> g.2 -> Forall (fun r => is_Some (canonical_rdata svcb r)) rows ->
  encodable svcb g = true.
Proof.
  intros E Hall. unfold encodable. apply negb_true_iff, not_true_is_false. rewrite existsb_exists.
  intros (r & Hr%list_elem_of_In & Hnone). apply bool_decide_eq_true in Hnone.
  apply (list_elem_of_fmap_2 (canonical_rdata svcb)) in Hr. rewrite <- E, Hnone in Hr.
  apply list_elem_of_fmap in Hr as (x & Ex & Hx). rewrite Forall_forall in Hall. destruct (Hall x Hx) as [d Hd]. congruence.
Qed.

Lemma load_keys_from_pkcs8 `{!Ring} rows key : key ∈ (load_keys rows).1 ->
  exists row alg kt, row ∈ rows /\ kr_active row = true /\ from_pkcs8 alg kt (kr_private_key row) = Ok key.
Proof.
  unfold load_keys. simpl. intros (x & Hx & E)%list_elem_of_omap. apply list_elem_of_fmap in Hx as (row & -> & Hr).
  apply elem_filter_bool in Hr as [Hr Ha]. unfold load_key in E.
  destruct (parse_algorithm _) as [alg|]; [|done]. destruct (parse_key_type _) as [kt|]; [|done].
  destruct (from_pkcs8 alg kt _) as [k|] eqn:Ek; [|done]. injection E as <-. by exists row, alg, kt.
Qed.

(** * Properties *)

(** A stored signature of an RRset under a key the apex publishes. *)
Definition signed_by `{!Base64, !Hex, !Ring} (svcb : string -> option (list Z)) (apex : string) (rows : list DnsRecord)
    (k : string * RecordKind) (sig : DnsRecord) : Prop :=
  sig ∈ rows /\ key_of sig = (k.1, RRSIG) /\
  exists key dnskey, dnskey ∈ rows /\ key_of dnskey = (apex, DNSKEY) /\ r_value dnskey = dnskey_value key /\
    verify_rrsig svcb (r_value sig) k.1 (rrset_at k rows) (sk_public_key key) = Ok tt.

Section Properties.
Context `{B64 : !Base64, HX : !Hex, RG : !Ring, MI : !MapIter, BL : !Base64Laws, RL : !RingLaws, ML : !MapIterLaws}.
Context (svcb : string -> option (list Z)).

Lemma shape_signed_by zone clock s s' keys groups nsecs keyrows nsecrows sigs sigrows g row :
  valid_name zone = true -> normalize_name zone = zone -> str_forall (fun c => negb (is_space c)) zone = true ->
  (forall now, clock = Some now -> is_u 32 now) ->
  Forall (fun r => normal (r_name r)) (dns_records s) -> Forall (fun r => is_u 32 (r_ttl r)) (dns_records s) ->
  signed_shape svcb zone clock s s' keys groups nsecs keyrows nsecrows sigs sigrows ->
  g ∈ groups -> row ∈ sigrows ->
  (exists now key v, clock = Some now /\ key ∈ signers_for zone keys g.1 /\
    sign_rrset svcb key (set_to_sign zone (Z.max 0 (now - RRSIG_INCEPTION_BACKDATE_SECS))
      (Z.min u32_max (now + RRSIG_VALIDITY_SECS)) g) = Ok v /\ stores (rrsig_record g v) row) ->
  signed_by svcb zone (dns_records s') g.1 row.
Proof.
  intros Hz Hzn Hsp Hclock Hn Ht Sh Hg Hrow (now & key & v & Hnow & Hkey & Hv & Hst).
  destruct (group_facts svcb zone clock s s' keys groups nsecs keyrows nsecrows sigs sigrows Hz Hzn Hn Ht Sh g Hg)
    as (_ & Hgn & _ & _ & Hcan & Httl).
  destruct Hst as (E1 & E2 & E3 & _). simpl in *. rewrite Hgn in E1.
  apply signers_for_keys in Hkey. split_and!.
  - rewrite (sh_rows Sh), !elem_of_app. by right; right; right.
  - unfold key_of. by rewrite E1, E2.
  - destruct (stores_elem_l _ _ _ (sh_keyrows Sh) (list_elem_of_fmap_2 (dnskey_record zone) _ _ Hkey)) as (dk & Hdk & D1 & D2 & D3 & _).
    simpl in *. exists key, dk. split_and!; [|unfold key_of; by rewrite D1, D2, Hzn|done|].
    { rewrite (sh_rows Sh), !elem_of_app. by right; left. }
    rewrite (sh_keys Sh) in Hkey. apply load_keys_from_pkcs8 in Hkey as (krow & alg & kt & _ & _ & Hpk).
    rewrite E3, (verify_rrsig_ext _ _ _ _ _ _ Hcan). specialize (Hclock now Hnow).
    refine (signed_verifies svcb alg kt _ key (set_to_sign zone _ _ g) v g.2 Hpk Hsp Httl _ _ Hv _); [..|done].
    + unfold is_u in *. simpl. unfold RRSIG_INCEPTION_BACKDATE_SECS. lia.
    + unfold is_u in *. simpl. unfold RRSIG_VALIDITY_SECS, u32_max. lia.
Qed.

(** C31: a pass that succeeds leaves a zone every validator can follow. Each RRset at or
    beneath the apex whose records have a wire form, the new chain and the DNSKEYs
    included, has a signature that verifies under a key the apex publishes; no
    signature is left that does not cover an RRset of the zone; records that are
    not products of signing, and everything outside the zone, are as they were; and
    the zone is neither awaiting a pass nor in one. *)
Theorem signed_zone_verifies clock zone s sm s' :
  let apex := normalize_name zone in
  store_reachable s -> Forall (fun r => is_u 32 (r_ttl r)) (dns_records s) ->
  valid_name zone = true -> labels_of zone <> [] -> str_forall (fun c => negb (is_space c)) apex = true ->
  (forall now, clock = Some now -> is_u 32 now) ->
  sign_zone svcb clock zone s = (Ok (Signed sm), s') ->
  (forall k, name_in_zone k.1 apex = true -> k.2 <> RRSIG -> rrset_at k (dns_records s') <> [] ->
     Forall (fun r => is_Some (canonical_rdata svcb r)) (rrset_at k (dns_records s')) ->
     exists sig, signed_by svcb apex (dns_records s') k sig) /\
  (forall sig, sig ∈ dns_records s' -> r_type sig = RRSIG -> name_in_zone (r_name sig) apex = true ->
     exists kind, kind <> RRSIG /\ rrset_at (r_name sig, kind) (dns_records s') <> [] /\
       signed_by svcb apex (dns_records s') (r_name sig, kind) sig) /\
  List.filter (fun r => negb (produced apex r)) (dns_records s') =
    List.filter (fun r => negb (produced apex r)) (dns_records s) /\
  apex ∉ resign_pending (signing s') /\ apex ∉ resign_active (signing s').
Proof.
  intros apex Hreach Httl Hv Hl Hsp Hclock Hs. destruct (reachable_inv s Hreach) as [Hn _].
  pose proof (proj1 (normal_valid apex (normal_normalize zone Hv))) as Hva.
  assert (normalize_name apex = apex) as Hap by apply normalize_name_idem.
  assert (apex <> ".") as Hroot.
  { intros E. apply Hl. unfold labels_of. fold apex. by rewrite E. }
  assert (sign_zone svcb clock apex s = (Ok (Signed sm), s')) as Hs' by (unfold sign_zone in *; by rewrite Hap).
  destruct (sign_zone_shape svcb clock apex s sm s' Hap Hroot Hn Hs') as (keys & groups & nsecs & keyrows & nsecrows & sigs & sigrows & Sh).
  pose proof (group_facts svcb apex clock s s' _ _ _ _ _ _ _ Hva Hap Hn Httl Sh) as Hgf.
  destruct (sh_now Sh) as (now & Hnow & Hg1 & Hg2). split_and!.
  - intros k Hk Hk2 Hne Henc. destruct (group_of svcb apex clock s s' _ _ _ _ _ _ _ Hva Hap Hn Httl Sh k Hk Hk2 Hne) as [rs Hg].
    destruct (Hgf _ Hg) as (_ & _ & _ & _ & Hcan & _). destruct (signers_for_nonempty apex keys k (sh_some Sh)) as [key Hkey].
    destruct (Hg2 _ key Hg) as (v & Hval & Hin); [|done|].
    { eapply encodable_of; [exact Hcan|done]. }
    destruct (stores_elem_l _ _ _ (sh_sigrows Sh) Hin) as (row & Hrow & Hst). exists row.
    apply (shape_signed_by apex clock s s' keys groups nsecs keyrows nsecrows sigs sigrows (k, rs) row); try done.
    by exists now, key, v.
  - intros sig Hsig Ht Hin.
    assert (sig ∈ rrset_at (r_name sig, RRSIG) sigrows) as Hrow.
    { rewrite <- (proj2 (proj2 (rrset_at_signed svcb apex clock s s' _ _ _ _ _ _ _ Hva Hap Hn Httl Sh (r_name sig, RRSIG) Hin)) eq_refl).
      apply elem_filter_bool. split; [done|]. apply bool_decide_true. unfold key_of. by rewrite Ht. }
    apply elem_filter_bool in Hrow as [Hrow _]. destruct (stores_elem _ _ _ (sh_sigrows Sh) Hrow) as (rec & Hrec & Hst).
    destruct (Hg1 rec Hrec) as (g & Hg & _ & key & v & Hkey & Hval & ->). destruct (Hgf g Hg) as (_ & Hgn & Hg3 & Hg4 & _).
    assert ((r_name sig, g.1.2) = g.1) as Ek by (destruct Hst as [-> _]; simpl; rewrite Hgn; by destruct g as [[] ]).
    exists g.1.2. rewrite Ek. split_and!; [done..|].
    apply (shape_signed_by apex clock s s' keys groups nsecs keyrows nsecrows sigs sigrows g sig); try done.
    by exists now, key, v.
  - by eapply (shape_untouched svcb apex clock s s').
  - rewrite (sh_marks Sh). simpl. rewrite Hap. set_solver.
  - rewrite (sh_marks Sh). simpl. rewrite Hap. set_solver.
Qed.
End Properties.

(** ** The marks *)

Section Marks.
Context `{B64 : !Base64, HX : !Hex, RG : !Ring, MI : !MapIter}.
Context (svcb : string -> option (list Z)).

Lemma sign_with_signing zone i e g signers s : signing (sign_with svcb zone i e g signers s).2 = signing s.
Proof.
  revert s. induction signers as [|key signers IH]; intros s; [done|]. simpl.
  by destruct (sign_rrset _ key _); [rewrite IH|].
Qed.

Lemma sign_groups_signing zone i e keys groups n sk s :
  signing (sign_groups svcb zone i e keys groups n sk s).2 = signing s.
Proof.
  revert n sk s. induction groups as [|g groups IH]; intros n sk s; [done|]. simpl.
  destruct (encodable svcb g); simpl; [|apply IH].
  pose proof (sign_with_signing zone i e g (signers_for zone keys g.1) s) as E.
  destruct (sign_with _ _ _ _ _ _ s) as [[]]; simpl in *; [|done]. by rewrite IH.
Qed.

Lemma clear_names_signing names s : signing (clear_names names s) = signing s.
Proof.
  revert s. induction names as [|n names IH]; intros s; cbn [clear_names]; [done|].
  by rewrite IH, !remove_records_signing.
Qed.

(** A pass touches no mark but the pending one of its zone. *)
Lemma sign_pass_signing clock zone s :
  match sign_pass svcb clock zone s with
  | (Ok (NotSigned _), s') => signing s' = signing s
  | (_, s') => signing s' = clear_zone_resign_pending zone (signing s)
  end.
Proof.
  unfold sign_pass. destruct (list_dnssec_keys zone (signing s)) as [|row rows]; [done|].
  destruct (load_keys _) as [[|key keys] warnings]; [done|].
  assert (signing (publish_keys zone (key :: keys) s) = signing s) as E.
  { rewrite publish_keys_all, add_all_signing, remove_records_signing; try done.
    apply (content_free DNSKEY), dnskey_records_type. done. }
  cbv zeta. destruct (foldl (collect_record zone) ([], ∅) _) as [groups names].
  destruct clock as [now|]; [|by simpl; rewrite E].
  match goal with |- context [sign_groups svcb zone ?i ?e ?k ?g ?n ?sk ?s0] =>
    pose proof (sign_groups_signing zone i e k g n sk s0) as Eg; destruct (sign_groups svcb zone i e k g n sk s0) as [[[]|] s4] end;
    simpl in Eg; rewrite Eg, publish_chain_all, clear_signatures_names, add_all_signing, clear_names_signing
      by (by apply (content_free NSEC), nsec_records_type); simpl; by rewrite E.
Qed.

(** The marks settle on every outcome: the in-progress mark of the zone is taken
    back even when the pass fails, the pending mark is dropped by a pass that
    signed or found nothing to sign with and kept by one that failed, so that it is
    tried again; no other zone's marks, and no key, change. Only a pass that signed
    drops the response cache. *)
Theorem resign_settles clock zone s cache :
  let apex := normalize_name zone in
  let outcome := (sign_zone svcb clock zone s).1 in
  let '(s', cache') := resign_zone svcb clock (s, cache) zone in
  resign_active (signing s') = resign_active (signing s) ∖ {[apex]} /\
  resign_pending (signing s') =
    match outcome with Err _ => {[apex]} ∪ resign_pending (signing s) | Ok _ => resign_pending (signing s) ∖ {[apex]} end /\
  signed_zones_cache (signing s') = signed_zones_cache (signing s) /\ dnssec_keys (signing s') = dnssec_keys (signing s) /\
  cache' = match outcome with Ok (Signed _) => DnsCache.flush <$> cache | _ => cache end.
Proof.
  cbn zeta. unfold resign_zone, sign_zone.
  pose proof (sign_pass_signing clock (normalize_name zone) (set_signing (begin_zone_resign (normalize_name zone)) s)) as H.
  destruct (sign_pass _ _ _ _) as [[[w|sm]|e] s1]; simpl in *; rewrite H; simpl;
    rewrite !normalize_name_idem; split_and!; try done; apply set_eq; intros z; try set_solver.
  - rewrite elem_of_union, elem_of_union, elem_of_difference. destruct (decide (z = normalize_name zone)); set_solver.
Qed.
End Marks.

(** * Samples *)

#[local] Existing Instance sample_hex.
#[local] Existing Instance sample_base64.
#[local] Existing Instance sample_base64_laws.
#[local] Existing Instance sample_ring.
#[local] Existing Instance sample_ring_laws.

Definition sample_key (id : Z) (zone : string) (byte : Z) : SigningState -> SigningState :=
  store_dnssec_key id 1700000000 (mkKeyParams zone "" "ED25519" "ZSK" (repeat byte 32) (repeat byte 32) 0).

Definition sample_records : list DnsRecord :=
  [mkRecord None "Example.com" SOA "ns.example.com. root.example.com. 1 7200 900 1209600 60" 3600 0;
   mkRecord None "www.example.com" A "192.0.2.7" 300 0;
   mkRecord None "www.example.com" A "192.0.2.1" 200 0;
   mkRecord None "lab.example.com" A "192.0.2.9" 300 0;
   mkRecord None "notexample.com" A "192.0.2.2" 300 0].

Definition sample_unsigned : ZoneStore :=
  add_all sample_records (set_signing (sample_key 1 "example.com" 7) empty_store).

Lemma add_all_reachable rs s :
  store_reachable s -> Forall (fun r => valid_name (r_name r) = true) rs -> store_reachable (add_all rs s).
Proof.
  intros Hs H. revert s Hs. induction H as [|r rs Hr _ IH]; intros s Hs; [done|]. cbn [add_all].
  apply IH. eapply reach_step; [exact Hs|by constructor].
Qed.

Lemma ttls_u32_dec rows :
  forallb (fun r => (0 <=? r_ttl r) && (r_ttl r <? 2 ^ 32)) rows = true -> Forall (fun r => is_u 32 (r_ttl r)) rows.
Proof.
  rewrite forallb_forall, Forall_forall. intros H r Hr%list_elem_of_In. specialize (H r Hr). unfold is_u. lia.
Qed.

Lemma sample_unsigned_reachable : store_reachable sample_unsigned.
Proof.
  apply add_all_reachable; [eapply reach_step; [constructor|apply step_signing]|].
  repeat constructor.
Qed.

Local Abbreviation sample_pass := (sign_zone (fun _ => None) (Some 1700000000) "example.com" sample_unsigned).

Definition sample_summary : SignSummary := mkSummary 1 7 3 [] [].

Lemma outcome_pair {A B} (p : A * B) a : p.1 = a -> p = (a, p.2).
Proof. destruct p. by intros <-. Qed.

Lemma sample_pass_signs : sample_pass = (Ok (Signed sample_summary), sample_pass.2).
Proof. apply outcome_pair. vm_compute. reflexivity. Qed.

Lemma sample_www :
  rrset_at ("www.example.com.", A) (dns_records sample_pass.2) <> [] /\
  Forall (fun r => is_Some (canonical_rdata (fun _ => None) r)) (rrset_at ("www.example.com.", A) (dns_records sample_pass.2)).
Proof.
  split; [|apply (bool_decide_unpack _); vm_compute; exact I].
  assert (length (rrset_at ("www.example.com.", A) (dns_records sample_pass.2)) = 2%nat) as E by (vm_compute; reflexivity).
  intros E'. rewrite E' in E. discriminate E.
Qed.

Lemma signed_zone_verifies_witness :
  sample_pass = (Ok (Signed sample_summary), sample_pass.2) /\
  exists sig, signed_by (fun _ => None) (normalize_name "example.com") (dns_records sample_pass.2) ("www.example.com.", A) sig.
Proof.
  split; [exact sample_pass_signs|].
  refine (proj1 (signed_zone_verifies (fun _ => None) (Some 1700000000) "example.com" sample_unsigned sample_summary sample_pass.2
    sample_unsigned_reachable _ _ _ _ _ sample_pass_signs) ("www.example.com.", A) _ _ (proj1 sample_www) (proj2 sample_www)).
  - apply ttls_u32_dec. vm_compute. reflexivity.
  - vm_compute. reflexivity.
  - vm_compute. congruence.
  - vm_compute. reflexivity.
  - intros now [= <-]. unfold is_u. lia.
  - vm_compute. reflexivity.
  - done.
Defined.

(** * A signed zone inside a signed zone *)

Definition nested : ZoneStore := set_signing (sample_key 2 "lab.example.com" 9) sample_unsigned.

(** The signer named in each signature of an owner. *)
Definition signers_at (name : string) (s : ZoneStore) : list (option string) :=
  (fun r => match rrsig_parse (r_value r) with Ok sig => Some (signer_name sig) | Err _ => None end) <$>
  rrset_at (name, RRSIG) (dns_records s).

(** A pass over a zone takes in a signed zone beneath it: the child's signatures are
    replaced by the parent's, over the child's own DNSKEYs too, and the child is not
    marked for another pass. *)
Theorem parent_pass_strips_child :
  let child := (sign_zone (fun _ => None) (Some 1700000000) "lab.example.com" nested).2 in
  let both := (sign_zone (fun _ => None) (Some 1700000000) "example.com" child).2 in
  signers_at "lab.example.com." child = replicate 3 (Some "lab.example.com.") /\
  signers_at "lab.example.com." both = replicate 3 (Some "example.com.") /\
  zone_signatures_stale (signing both) "lab.example.com." = false.
Proof. vm_compute. split_and!; reflexivity. Qed.
