(* ===== verification/Message.v ===== *)
(** DNS messages and the replies built from them ([src/src/dns_server.rs],
    [src/src/edns.rs]): stored records to wire records and back, the response
    builders with their DNSSEC filter, the address-family filter and UDP
    truncation. The wire format itself belongs to the DNS library and is an
    interface, [WireCodec]. *)

From S2P Require Import Prelude RustStr Names Ip Records Rrsig Scopes Nsec Rdata Tiers.
From stdpp Require Import base gmap sets list option strings.
From Stdlib Require Import ZArith Lia Bool Ascii.

Open Scope Z_scope.
Local Open Scope rolodex_scope.

(** * Names of the DNS library *)

(** [Name::from_ascii], its [Display], and the labels it iterates over. *)
Class WireName (Name : Type) := {
  from_ascii : string -> option Name;
  name_to_string : Name -> string;
  name_iter : Name -> list string;
}.

(** * Records *)

Section Messages.
Context {Name Svcb : Type}.

(** DNSSEC data as the library hands it out, a field per accessor. *)
Record DnskeyData := mkDnskey {
  k_zone_key : bool;
  k_revoke : bool;
  k_algorithm : Z;
  k_public_key : list Z;
}.

Record DsData := mkDs { d_key_tag : Z; d_algorithm : Z; d_digest_type : Z; d_digest : list Z }.

Record RrsigData := mkRrsig {
  g_type_covered : Z;
  g_algorithm : Z;
  g_num_labels : Z;
  g_expiration : Z;
  g_inception : Z;
  g_key_tag : Z;
  g_signer_name : Name;
  g_signature : list Z;
}.

Record NsecData := mkNsec { n_next_domain_name : Name; n_type_bit_maps : list Z }.

Record Nsec3Data := mkNsec3 {
  n3_hash_algorithm : Z;
  n3_opt_out : bool;
  n3_iterations : Z;
  n3_salt : list Z;
  n3_next_hashed_owner_name : list Z;
  n3_type_bit_maps : list Z;
}.

Inductive DnssecData :=
| DD_DNSKEY (k : DnskeyData)
| DD_DS (d : DsData)
| DD_RRSIG (s : RrsigData)
| DD_NSEC (n : NsecData)
| DD_NSEC3 (n : Nsec3Data)
| DD_Other (code : Z) (rdata : list Z).

Inductive RData :=
| RD_A (ip : Z)
| RD_AAAA (ip : Z)
| RD_CNAME (target : Name)
| RD_MX (preference : Z) (exchange : Name)
| RD_TXT (strings : list string)
| RD_NS (target : Name)
| RD_SOA (mname rname : Name) (serial refresh retry expire minimum : Z)
| RD_SRV (priority weight port : Z) (target : Name)
| RD_PTR (target : Name)
| RD_SSHFP (algorithm fp_type : Z) (fingerprint : list Z)
| RD_TLSA (usage selector matching : Z) (data : list Z)
| RD_CERT (cert_type key_tag algorithm : Z) (data : list Z)
| RD_SVCB (svcb : Svcb)
| RD_HTTPS (svcb : Svcb)
| RD_DNSSEC (d : DnssecData)
| RD_Unknown (code : Z) (rdata : list Z).

Record WireRecord := mkWire { w_name : Name; w_ttl : Z; w_data : RData }.

Definition dnssec_type (d : DnssecData) : Z :=
  match d with
  | DD_DNSKEY _ => 48 | DD_DS _ => 43 | DD_RRSIG _ => 46 | DD_NSEC _ => 47 | DD_NSEC3 _ => 50
  | DD_Other code _ => code
  end.

Definition record_type (r : WireRecord) : Z :=
  match w_data r with
  | RD_A _ => 1 | RD_AAAA _ => 28 | RD_CNAME _ => 5 | RD_MX _ _ => 15 | RD_TXT _ => 16
  | RD_NS _ => 2 | RD_SOA _ _ _ _ _ _ _ => 6 | RD_SRV _ _ _ _ => 33 | RD_PTR _ => 12
  | RD_SSHFP _ _ _ => 44 | RD_TLSA _ _ _ _ => 52 | RD_CERT _ _ _ _ => 37
  | RD_SVCB _ => 64 | RD_HTTPS _ => 65 | RD_DNSSEC d => dnssec_type d | RD_Unknown code _ => code
  end.

(** [rrsig_covered_type]: from a signature the library has parsed, or from the
    first two octets of the opaque form the server writes. *)
Definition rrsig_covered_type (r : WireRecord) : option Z :=
  match w_data r with
  | RD_DNSSEC (DD_RRSIG sig) => Some (g_type_covered sig)
  | RD_Unknown _ (b0 :: b1 :: _) => Some (of_be_bytes [b0; b1])
  | _ => None
  end.

Definition set_wire_name (n : Name) (r : WireRecord) : WireRecord := mkWire n (w_ttl r) (w_data r).

(** * Messages *)

Record EdnsContext := mkEdns { version : Z; max_payload : Z; dnssec_ok : bool }.

Definition is_unsupported_version (e : EdnsContext) : bool := 0 <? version e.

Record Question := mkQuestion { qd_name : Name; qd_type : Z; qd_class : Z }.

(** [DNSClass::IN]. *)
Definition class_in : Z := 1.

Record Message := mkMessage {
  m_id : Z;
  is_response : bool;
  op_code : Z;
  response_code : Z;
  recursion_desired : bool;
  recursion_available : bool;
  authoritative : bool;
  truncated : bool;
  authentic_data : bool;
  queries : list Question;
  answers : list WireRecord;
  name_servers : list WireRecord;
  additionals : list WireRecord;
  extensions : option EdnsContext;
}.

(** Serialisation, which may fail either way. *)
Class WireCodec := {
  to_bytes : Message -> option (list Z);
  from_bytes : list Z -> option Message;
}.

(** A record as it reads back: the library parses natively some data that the
    server writes in opaque form. *)
Definition same_record (r r' : WireRecord) : Prop :=
  w_name r' = w_name r /\ w_ttl r' = w_ttl r /\ record_type r' = record_type r /\
  (record_type r = 46 -> rrsig_covered_type r' = rrsig_covered_type r).

(** A message that was written reads back. *)
Definition same_message (m m' : Message) : Prop :=
  m_id m' = m_id m /\ is_response m' = is_response m /\ op_code m' = op_code m /\
  response_code m' = response_code m /\ authoritative m' = authoritative m /\
  truncated m' = truncated m /\ authentic_data m' = authentic_data m /\
  queries m' = queries m /\ Forall2 same_record (answers m) (answers m') /\
  Forall2 same_record (name_servers m) (name_servers m') /\
  Forall2 same_record (additionals m) (additionals m') /\ extensions m' = extensions m.

Class WireCodecLaws `{!WireCodec} :=
  from_to_bytes m bs : is_u 4 (response_code m) -> to_bytes m = Some bs ->
    exists m', from_bytes bs = Some m' /\ same_message m m'.

Context `{WN : !WireName Name, WC : !WireCodec, B64 : !Base64, HX : !Hex}.
(** [svcb::parse] and [svcb::canonical_rdata]. *)
Context (svcb_parse : string -> option Svcb) (svcb_canonical_rdata : string -> option (list Z)).

(** [parse::<i32>]. *)
Definition parse_i32 (s : string) : option Z :=
  match s with
  | String c s' =>
      if Ascii.eqb c "-"
      then match s' with
           | EmptyString => None
           | _ => n ← read_digits 10 0 s'; if n <=? 2147483648 then Some (- n) else None
           end
      else parse_uint 10 2147483647 s
  | EmptyString => None
  end.

Definition opaque_rdata (r : DnsRecord) : option RData :=
  rdata ← canonical_rdata svcb_canonical_rdata r;
  match rdata with [] => None | _ => Some (RD_Unknown (wire_type (r_type r)) rdata) end.

Definition rdata_of (r : DnsRecord) : option RData :=
  let value := r_value r in
  let parts := split_ws value in
  match r_type r with
  | A => ip ← parse_v4 value; Some (RD_A ip)
  | AAAA => ip ← parse_v6 value; Some (RD_AAAA ip)
  | CNAME => target ← from_ascii value; Some (RD_CNAME target)
  | MX => target ← from_ascii value; Some (RD_MX (as_u 16 (r_priority r)) target)
  | TXT => Some (RD_TXT [value])
  | NS => target ← from_ascii value; Some (RD_NS target)
  | SOA =>
      match parts with
      | p0 :: p1 :: p2 :: p3 :: p4 :: p5 :: p6 :: _ =>
          mname ← from_ascii p0; rname ← from_ascii p1;
          serial ← parse_u32 p2; refresh ← parse_i32 p3; retry ← parse_i32 p4;
          expire ← parse_i32 p5; minimum ← parse_u32 p6;
          Some (RD_SOA mname rname serial refresh retry expire minimum)
      | _ => None
      end
  | SRV =>
      match parts with
      | p0 :: p1 :: p2 :: _ =>
          weight ← parse_u16 p0; port ← parse_u16 p1; target ← from_ascii p2;
          Some (RD_SRV (as_u 16 (r_priority r)) weight port target)
      | _ => None
      end
  | PTR => target ← from_ascii value; Some (RD_PTR target)
  | DNAME => target ← from_ascii value; Some (RD_CNAME target)
  | SSHFP =>
      match parts with
      | p0 :: p1 :: p2 :: _ =>
          alg ← parse_u8 p0; fp ← parse_u8 p1; data ← hex_dec p2; Some (RD_SSHFP alg fp data)
      | _ => None
      end
  | ANAME => Some (RD_TXT [value])
  | URI | ZONEMD => opaque_rdata r
  | TLSA =>
      match parts with
      | p0 :: p1 :: p2 :: p3 :: _ =>
          usage ← parse_u8 p0; selector ← parse_u8 p1; matching ← parse_u8 p2;
          data ← hex_dec p3; Some (RD_TLSA usage selector matching data)
      | _ => None
      end
  | CERT =>
      match parts with
      | p0 :: p1 :: p2 :: p3 :: _ =>
          cert_type ← parse_u16 p0; tag ← parse_u16 p1; alg ← parse_u8 p2;
          data ← b64_decode p3; Some (RD_CERT cert_type tag alg data)
      | _ => None
      end
  | SVCB => svcb ← svcb_parse value; Some (RD_SVCB svcb)
  | HTTPS => svcb ← svcb_parse value; Some (RD_HTTPS svcb)
  | DNSKEY | DS | RRSIG | NSEC => opaque_rdata r
  | NSEC3 | NSEC3PARAM => None
  end.

Definition db_record_to_dns_record (r : DnsRecord) : option WireRecord :=
  name ← from_ascii (r_name r);
  rdata ← rdata_of r;
  Some (mkWire name (r_ttl r) rdata).

(** [filter_map(db_record_to_dns_record)]. *)
Definition to_dns_records : list DnsRecord -> list WireRecord := omap db_record_to_dns_record.

(** The other way, for the answers put into the cache. *)
Definition dns_record_to_db_record (r : WireRecord) : option DnsRecord :=
  let out kind value priority :=
    Some (mkRecord None (name_to_string (w_name r)) kind value (w_ttl r) priority) in
  match w_data r with
  | RD_A ip => out A (ip_to_string (V4 ip)) 0
  | RD_AAAA ip => out AAAA (ip_to_string (V6 ip)) 0
  | RD_CNAME target => out CNAME (name_to_string target) 0
  | RD_MX preference exchange => out MX (name_to_string exchange) preference
  | RD_TXT strings => out TXT (str_join "" strings) 0
  | RD_NS target => out NS (name_to_string target) 0
  | RD_PTR target => out PTR (name_to_string target) 0
  | _ => None
  end.

(** The per-TLD ingress rewrite. *)
Definition rewrite_ingress (override_ip : option IpAddr) (r : DnsRecord) : DnsRecord :=
  match override_ip, r_type r with
  | Some (V4 v4), A => set_value (ip_to_string (V4 v4)) r
  | Some (V6 v6), AAAA => set_value (ip_to_string (V6 v6)) r
  | _, _ => r
  end.

Definition build_scoped_answers (records : list DnsRecord) (override_ip : option IpAddr)
  : list WireRecord :=
  omap (fun r => db_record_to_dns_record (rewrite_ingress override_ip r)) records.

(** * Responses *)

Definition encode_message (m : Message) : list Z := default [] (to_bytes m).

Definition dnssec_records_wanted (r : WireRecord) (qtype : option Z) (dnssec_ok : bool) : bool :=
  if dnssec_ok then true
  else
    let rtype := record_type r in
    if (rtype =? 46) || (rtype =? 47) || (rtype =? 50) then bool_decide (qtype = Some rtype) else true.

Definition response_edns_auth (query : Message) (rcode : Z) (ans auth : list WireRecord) (aa : bool)
    (edns : option EdnsContext) : Message :=
  let qtype := qd_type <$> head (queries query) in
  let ok := match edns with Some e => dnssec_ok e | None => false end in
  let wanted r := dnssec_records_wanted r qtype ok in
  mkMessage (m_id query) true 0 rcode (recursion_desired query) true aa false false
    (queries query) (List.filter wanted ans) (List.filter wanted auth) []
    ((fun e => mkEdns 0 (max_payload e) (dnssec_ok e)) <$> edns).

Definition build_response_edns_auth (query : Message) (rcode : Z) (ans auth : list WireRecord)
    (aa : bool) (edns : option EdnsContext) : list Z :=
  encode_message (response_edns_auth query rcode ans auth aa edns).

Definition build_response_edns (query : Message) (rcode : Z) (ans : list WireRecord) (aa : bool)
    (edns : option EdnsContext) : list Z :=
  build_response_edns_auth query rcode ans [] aa edns.

Definition build_response_ex (query : Message) (rcode : Z) (ans : list WireRecord) (aa : bool)
  : list Z :=
  encode_message (mkMessage (m_id query) true 0 rcode (recursion_desired query) true aa false false
    (queries query) ans [] [] None).

Definition make_error_response (query_data : list Z) (rcode : Z) : list Z :=
  match query_data with
  | b0 :: b1 :: _ =>
      encode_message (mkMessage (of_be_bytes [b0; b1]) true 0 rcode false false false false false [] [] [] [] None)
  | _ => []
  end.

Definition set_authentic_data (m : Message) : Message :=
  mkMessage (m_id m) (is_response m) (op_code m) (response_code m) (recursion_desired m)
    (recursion_available m) (authoritative m) (truncated m) true (queries m) (answers m)
    (name_servers m) (additionals m) (extensions m).

Definition build_response_validated (query : Message) (rcode : Z) (ans : list WireRecord)
    (edns : option EdnsContext) (verdict : Verdict) : list Z :=
  let bytes := build_response_edns query rcode ans false edns in
  let client_asked := authentic_data query || match edns with Some e => dnssec_ok e | None => false end in
  if negb client_asked || match verdict with VSecure => false | _ => true end then bytes
  else match from_bytes bytes with
       | Some response => default bytes (to_bytes (set_authentic_data response))
       | None => bytes
       end.

Definition build_query_for_type (name : string) (qtype id : Z) (root : Name) : list Z :=
  encode_message (mkMessage id false 0 0 true false false false false
    [mkQuestion (default root (from_ascii name)) qtype class_in] [] [] [] None).

(** * Filters at the exit *)

Definition family_keeps (v4 v6 : bool) (r : WireRecord) : bool :=
  let rtype := record_type r in
  if rtype =? 1 then v4
  else if rtype =? 28 then v6
  else if rtype =? 46 then
    match rrsig_covered_type r with
    | Some t => if t =? 1 then v4 else if t =? 28 then v6 else true
    | None => true
    end
  else true.

Definition set_answers (ans : list WireRecord) (m : Message) : Message :=
  mkMessage (m_id m) (is_response m) (op_code m) (response_code m) (recursion_desired m)
    (recursion_available m) (authoritative m) (truncated m) (authentic_data m) (queries m) ans
    (name_servers m) (additionals m) (extensions m).

Definition apply_family_filter (v4 v6 : bool) (response : list Z) : list Z :=
  if v4 && v6 then response
  else match from_bytes response with
       | None => response
       | Some msg =>
           let kept := List.filter (family_keeps v4 v6) (answers msg) in
           if (length kept =? length (answers msg))%nat then response
           else default response (to_bytes (set_answers kept msg))
       end.

Definition shed (m : Message) : Message :=
  mkMessage (m_id m) (is_response m) (op_code m) (response_code m) (recursion_desired m)
    (recursion_available m) (authoritative m) true (authentic_data m) (queries m) (answers m)
    [] (additionals m) (extensions m).

Definition udp_budget (query_data : list Z) : Z :=
  match q ← from_bytes query_data; extensions q with
  | Some ctx => Z.max (max_payload ctx) 512
  | None => 512
  end.

Definition truncate_for_udp (response query_data : list Z) : list Z :=
  if Z.of_nat (length response) <=? udp_budget query_data then response
  else match from_bytes response with
       | None => response
       | Some msg => default response (to_bytes (shed msg))
       end.

(** * Lemmas *)

Lemma same_record_trans r s t : same_record r s -> same_record s t -> same_record r t.
Proof. unfold same_record. intros (? & ? & E & ?) (? & ? & E' & ?). rewrite E in *. naive_solver congruence. Qed.

Lemma same_records_refl (l : list WireRecord) : Forall2 same_record l l.
Proof. induction l; constructor; [unfold same_record|]; auto. Qed.

Lemma same_records_trans (l k j : list WireRecord) :
  Forall2 same_record l k -> Forall2 same_record k j -> Forall2 same_record l j.
Proof.
  intros H. revert j. induction H as [|x y l k Hxy Hl IH]; intros j; inversion_clear 1; constructor;
    [by eapply same_record_trans|by apply IH].
Qed.

Lemma family_keeps_same v4 v6 r r' : same_record r r' -> family_keeps v4 v6 r' = family_keeps v4 v6 r.
Proof.
  intros (_ & _ & Ht & Hc). unfold family_keeps. rewrite Ht. cbn zeta.
  destruct (record_type r =? 1); [done|]. destruct (record_type r =? 28); [done|].
  destruct (Z.eqb_spec (record_type r) 46); [|done]. by rewrite Hc.
Qed.

Lemma filter_same v4 v6 l k :
  Forall2 same_record l k ->
  Forall2 same_record (List.filter (family_keeps v4 v6) l) (List.filter (family_keeps v4 v6) k).
Proof.
  induction 1 as [|x y l k Hxy Hl IH]; simpl; [constructor|].
  rewrite (family_keeps_same v4 v6 x y) by done. destruct (family_keeps v4 v6 x); [by constructor|done].
Qed.

Lemma filter_full {A} (p : A -> bool) l : length (List.filter p l) = length l -> List.filter p l = l.
Proof.
  induction l as [|x l IH]; simpl; [done|]. destruct (p x); simpl.
  - intros [= H]. f_equal. auto.
  - intros H. pose proof (List.filter_length_le p l). lia.
Qed.

Lemma family_keeps_all r : family_keeps true true r = true.
Proof.
  unfold family_keeps. cbn zeta.
  destruct (record_type r =? 1), (record_type r =? 28), (record_type r =? 46); try done.
  destruct (rrsig_covered_type r) as [t|]; [|done]. by destruct (t =? 1), (t =? 28).
Qed.

Lemma filter_keeps_all l : List.filter (family_keeps true true) l = l.
Proof. induction l as [|x l IH]; [done|]. simpl. by rewrite family_keeps_all, IH. Qed.

(** * Properties *)

(** What leaves the server is filtered exactly. Reading back a reply after the
    address-family filter gives the records of the reply that the configured
    families allow, in order, an RRSIG going with the family of the set it
    covers; the response code is unchanged. Over UDP, a reply larger than the
    budget of the client reads back with TC set, an empty authority section and
    the same answers, and a smaller one is sent as it is. *)
Theorem exit_filters_exact `{WCL : !WireCodecLaws} v4 v6 m bs query_data :
  is_u 4 (response_code m) -> to_bytes m = Some bs ->
  (forall m', from_bytes bs = Some m' ->
     is_Some (to_bytes (set_answers (List.filter (family_keeps v4 v6) (answers m')) m')) /\
     is_Some (to_bytes (shed m'))) ->
  (exists m', from_bytes (apply_family_filter v4 v6 bs) = Some m' /\
     response_code m' = response_code m /\
     Forall2 same_record (List.filter (family_keeps v4 v6) (answers m)) (answers m')) /\
  (if Z.of_nat (length bs) <=? udp_budget query_data then truncate_for_udp bs query_data = bs
   else exists m', from_bytes (truncate_for_udp bs query_data) = Some m' /\
     truncated m' = true /\ name_servers m' = [] /\ response_code m' = response_code m /\
     Forall2 same_record (answers m) (answers m')).
Proof.
  intros Hr Hb Hw. destruct (from_to_bytes m bs Hr Hb) as (m1 & Hm1 & Hs1).
  destruct (Hw m1 Hm1) as [[b1 Hb1] [b2 Hb2]].
  destruct Hs1 as (_ & _ & _ & Hrc & _ & _ & _ & _ & Ha & _). rewrite <- Hrc in Hr. split.
  - unfold apply_family_filter. destruct (v4 && v6) eqn:E.
    { bool_hyps. subst. exists m1. by rewrite filter_keeps_all. }
    rewrite Hm1. apply (filter_same v4 v6) in Ha.
    destruct (Nat.eqb_spec (length (List.filter (family_keeps v4 v6) (answers m1)))
                (length (answers m1))) as [El|El].
    + exists m1. apply filter_full in El. rewrite El in Ha. done.
    + rewrite Hb1. destruct (from_to_bytes (set_answers _ m1) b1 Hr Hb1) as (m2 & Hm2 & Hs2).
      destruct Hs2 as (_ & _ & _ & Hrc2 & _ & _ & _ & _ & Ha2 & _). simpl in *.
      exists m2. split_and!; [done|congruence|by eapply same_records_trans].
  - unfold truncate_for_udp. destruct (_ <=? _); [done|]. rewrite Hm1, Hb2.
    destruct (from_to_bytes (shed m1) b2 Hr Hb2) as (m2 & Hm2 & Hs2).
    destruct Hs2 as (_ & _ & _ & Hrc2 & _ & Ht2 & _ & _ & Ha2 & Hn2 & _). simpl in *.
    exists m2. split_and!; [done|done| |congruence|by eapply same_records_trans].
    by inversion Hn2.
Qed.

(** The AD bit says what was asked and proven. Reading back the reply to a
    resolved question, AD is set exactly when the client asked for it (AD or DO in
    the query) and the verdict is secure; the identifier, the question, the response
    code and the records the client may see are those of the resolution. *)
Theorem ad_bit_exact `{WCL : !WireCodecLaws} query rcode ans edns verdict bs :
  is_u 4 rcode ->
  to_bytes (response_edns_auth query rcode ans [] false edns) = Some bs ->
  (forall m', from_bytes bs = Some m' -> is_Some (to_bytes (set_authentic_data m'))) ->
  let asked := authentic_data query || match edns with Some e => dnssec_ok e | None => false end in
  exists m', from_bytes (build_response_validated query rcode ans edns verdict) = Some m' /\
    authentic_data m' = asked && match verdict with VSecure => true | _ => false end /\
    m_id m' = m_id query /\ queries m' = queries query /\ response_code m' = rcode /\
    Forall2 same_record (answers (response_edns_auth query rcode ans [] false edns)) (answers m').
Proof.
  intros Hr Hb Hw asked. set (m := response_edns_auth query rcode ans [] false edns) in *.
  destruct (from_to_bytes m bs Hr Hb) as (m1 & Hm1 & Hi1 & _ & _ & Hrc1 & _ & _ & Had1 & Hq1 & Ha1 & _).
  unfold build_response_validated, build_response_edns, build_response_edns_auth, encode_message.
  fold m. rewrite Hb. simpl default. fold asked.
  destruct asked; simpl; [|by exists m1; split_and!].
  destruct verdict; simpl; try by exists m1; split_and!.
  rewrite Hm1. destruct (Hw m1 Hm1) as [b2 Hb2]. rewrite Hb2. simpl default.
  assert (is_u 4 (response_code (set_authentic_data m1))) as Hr2 by (simpl; by rewrite Hrc1).
  destruct (from_to_bytes _ b2 Hr2 Hb2) as (m2 & Hm2 & Hi2 & _ & _ & Hrc2 & _ & _ & Had2 & Hq2 & Ha2 & _).
  simpl in *. exists m2. split_and!; [done|done|congruence|congruence|congruence|by eapply same_records_trans].
Qed.

End Messages.

Arguments RrsigData : clear implicits.
Arguments NsecData : clear implicits.
Arguments DnssecData : clear implicits.
Arguments Question : clear implicits.
Arguments RData : clear implicits.
Arguments WireRecord : clear implicits.
Arguments Message : clear implicits.
Arguments WireCodec : clear implicits.
Arguments WireCodecLaws Name Svcb {_}.

(** * A library that meets the laws *)

(** Names by their text, and a wire format that writes the messages of a table by
    their position. *)
#[export] Instance sample_name : WireName string := {
  from_ascii n := Some n;
  name_to_string n := n;
  name_iter n := split_on "." (trim_end_matches "." n);
}.

#[export] Instance dnskey_eq : EqDecision DnskeyData.
Proof. solve_decision. Defined.
#[export] Instance ds_eq : EqDecision DsData.
Proof. solve_decision. Defined.
#[export] Instance nsec3_eq : EqDecision Nsec3Data.
Proof. solve_decision. Defined.
#[export] Instance sample_edns_eq : EqDecision EdnsContext.
Proof. solve_decision. Defined.

Section Table.
Context {Name Svcb : Type} `{!EqDecision Name, !EqDecision Svcb}.

#[export] Instance sample_rrsig_eq : EqDecision (RrsigData Name).
Proof. solve_decision. Defined.
#[export] Instance sample_nsec_eq : EqDecision (NsecData Name).
Proof. solve_decision. Defined.
#[export] Instance sample_dnssec_eq : EqDecision (DnssecData Name).
Proof. solve_decision. Defined.
#[export] Instance sample_rdata_eq : EqDecision (RData Name Svcb).
Proof. solve_decision. Defined.
#[export] Instance sample_wire_eq : EqDecision (WireRecord Name Svcb).
Proof. solve_decision. Defined.
#[export] Instance sample_question_eq : EqDecision (Question Name).
Proof. solve_decision. Defined.
#[export] Instance sample_message_eq : EqDecision (Message Name Svcb).
Proof. solve_decision. Defined.

Fixpoint index_of (m : Message Name Svcb) (tbl : list (Message Name Svcb)) : option nat :=
  match tbl with
  | [] => None
  | m' :: tbl' => if decide (m = m') then Some O else S <$> index_of m tbl'
  end.

Definition table_codec (tbl : list (Message Name Svcb)) : WireCodec Name Svcb := {|
  to_bytes m := (fun i => [Z.of_nat i]) <$> index_of m tbl;
  from_bytes bs := match bs with [z] => if 0 <=? z then tbl !! Z.to_nat z else None | _ => None end;
|}.

Lemma index_of_lookup m tbl i : index_of m tbl = Some i -> tbl !! i = Some m.
Proof.
  revert i. induction tbl as [|m' tbl IH]; intros i; simpl; [done|].
  destruct (decide (m = m')) as [->|_]; [by intros [= <-]|].
  destruct (index_of m tbl) as [j|]; simpl; [|done]. intros [= <-]. by apply IH.
Qed.

Lemma table_codec_laws tbl : @WireCodecLaws Name Svcb (table_codec tbl).
Proof.
  intros m bs _ H. simpl in H. destruct (index_of m tbl) as [i|] eqn:E; [|done].
  injection H as <-. exists m. simpl. rewrite (proj2 (Z.leb_le _ _) (Nat2Z.is_nonneg i)), Nat2Z.id.
  split; [by apply index_of_lookup|]. repeat split; apply same_records_refl.
Qed.

End Table.

Definition dual_stack_reply : Message string unit :=
  mkMessage 7 true 0 NoError true true true false false [mkQuestion "nas.home." 255 class_in]
    [mkWire "nas.home." 300 (RD_A 167772169); mkWire "nas.home." 300 (RD_AAAA 1);
     mkWire "nas.home." 300 (RD_DNSSEC (DD_RRSIG (mkRrsig 28 13 2 0 0 1 "home." [1])))]
    [mkWire "home." 300 (RD_NS "ns.home.")] [] None.

Definition sample_table : list (Message string unit) :=
  [dual_stack_reply;
   set_answers (List.filter (family_keeps true false) (answers dual_stack_reply)) dual_stack_reply;
   shed dual_stack_reply].

Lemma exit_filters_exact_witness :
  exists m', @from_bytes _ _ (table_codec sample_table)
      (@apply_family_filter _ _ (table_codec sample_table) true false [0]) = Some m' /\
    response_code m' = NoError /\
    Forall2 same_record [mkWire "nas.home." 300 (RD_A 167772169)] (answers m').
Proof.
  refine (proj1 (@exit_filters_exact string unit (table_codec sample_table)
    (table_codec_laws sample_table) true false dual_stack_reply [0] [] _ _ _)).
  - unfold is_u. simpl. unfold NoError. lia.
  - vm_compute. reflexivity.
  - intros m' H. vm_compute in H. injection H as <-. by split; vm_compute; eexists.
Defined.

Definition ad_query : Message string unit :=
  mkMessage 7 false 0 0 true false false false true [mkQuestion "nas.home." 1 class_in] [] [] [] None.

Definition ad_reply : Message string unit :=
  response_edns_auth ad_query NoError [mkWire "nas.home." 300 (RD_A 5)] [] false None.

Definition ad_codec : WireCodec string unit := table_codec [ad_reply; set_authentic_data ad_reply].

Lemma ad_bit_exact_witness :
  exists m', @from_bytes _ _ ad_codec
      (@build_response_validated _ _ ad_codec ad_query NoError [mkWire "nas.home." 300 (RD_A 5)] None VSecure)
      = Some m' /\ authentic_data m' = true.
Proof.
  destruct (@ad_bit_exact string unit ad_codec (table_codec_laws _) ad_query NoError
    [mkWire "nas.home." 300 (RD_A 5)] None VSecure [0]) as (m' & H1 & H2 & _).
  - unfold is_u. simpl. unfold NoError. lia.
  - vm_compute. reflexivity.
  - intros m' H. vm_compute in H. injection H as <-. vm_compute. by eexists.
  - exists m'. split; [exact H1|exact H2].
Defined.
