(* ===== verification/Validate.v ===== *)
(** DNSSEC validation ([src/src/dnssec_validate.rs]): trust anchors, signatures over
    RRsets, DNSKEY sets against their anchors, and the denial proofs from NSEC and
    NSEC3. Pure functions of records and the time. The cryptography belongs to the
    DNS library and is an interface, [DnssecCrypto]. A failure carries the fixed
    part of its message. *)

From S2P Require Import Prelude RustStr Names Ip Rrsig Rdata Hickory Tiers Svcb Message.
From stdpp Require Import base gmap sets list option strings.
From Stdlib Require Import ZArith Lia Bool Ascii.

Open Scope Z_scope.
Local Open Scope rolodex_scope.

(** * The cryptography of the library *)

Class DnssecCrypto (Name R : Type) := {
  alg_supported : Z -> bool;
  calculate_key_tag : DnskeyData -> option Z;
  lib_verify_rrsig : DnskeyData -> Name -> RrsigData Name -> list R -> bool;
  ds_covers : DsData -> Name -> DnskeyData -> option bool;
  nsec3_hash : Z -> list Z -> Name -> Z -> option (list Z);
}.

(** Record types. *)
Definition T_NS : Z := 2.
Definition T_CNAME : Z := 5.
Definition T_SOA : Z := 6.
Definition T_DS : Z := 43.
Definition T_RRSIG : Z := 46.
Definition T_NSEC : Z := 47.
Definition T_DNSKEY : Z := 48.
Definition T_NSEC3 : Z := 50.
Definition T_NSEC3PARAM : Z := 51.

Definition mem_Z (x : Z) (l : list Z) : bool := existsb (Z.eqb x) l.

(** * Trust anchors *)

(** [TrustAnchors]: public keys with their algorithms. *)
Definition Anchors : Type := list (list Z * Z).

Definition anchors_contains (a : Anchors) (key : list Z) (alg : Z) : bool :=
  existsb (fun e => bool_decide (e = (key, alg))) a.

Definition anchors_insert (key : list Z) (alg : Z) (a : Anchors) : Anchors :=
  if anchors_contains a key alg then a else a ++ [(key, alg)].

(** [fixed_public_key_len]: Ed25519, ECDSA P-256 and P-384. *)
Definition fixed_public_key_len (alg : Z) : option nat :=
  if alg =? 15 then Some 32%nat
  else if alg =? 13 then Some 64%nat
  else if alg =? 14 then Some 96%nat
  else None.

(** [serial_lt]: RFC 1982 on 32 bits. *)
Definition serial_lt (a b : Z) : bool := negb (a =? b) && (as_u 32 (b - a) <? 2147483648).

(** [base32hex]: eight characters for five bytes, fewer for a short last chunk. *)
Definition base32hex_char (d : Z) : ascii :=
  if d <? 10 then ascii_of_nat (48 + Z.to_nat d) else ascii_of_nat (55 + Z.to_nat d).

Definition chunk_bits (b0 b1 b2 b3 b4 : Z) : Z :=
  Z.lor (Z.lor (Z.lor (Z.lor (Z.shiftl b0 32) (Z.shiftl b1 24)) (Z.shiftl b2 16)) (Z.shiftl b3 8)) b4.

Fixpoint chunk_chars (bits : Z) (i chars : nat) : string :=
  match chars with
  | O => ""
  | S chars' =>
      String (base32hex_char (Z.land (Z.shiftr bits (35 - 5 * Z.of_nat i)) 31))
        (chunk_chars bits (S i) chars')
  end.

Fixpoint base32hex (bytes : list Z) : string :=
  match bytes with
  | [] => ""
  | [b0] => chunk_chars (chunk_bits b0 0 0 0 0) 0 2
  | [b0; b1] => chunk_chars (chunk_bits b0 b1 0 0 0) 0 4
  | [b0; b1; b2] => chunk_chars (chunk_bits b0 b1 b2 0 0) 0 5
  | [b0; b1; b2; b3] => chunk_chars (chunk_bits b0 b1 b2 b3 0) 0 7
  | b0 :: b1 :: b2 :: b3 :: b4 :: rest =>
      chunk_chars (chunk_bits b0 b1 b2 b3 b4) 0 8 +:+ base32hex rest
  end.

Section Validate.
Context {Name Svcb : Type} `{DN : !DnsName Name, NO : !NameOrder Name, WN : !WireName Name}.
Context `{CR : !DnssecCrypto Name (WireRecord Name Svcb), B64 : !Base64}.

Abbreviation WireRecord := (WireRecord Name Svcb).

Fixpoint from_dnskey_loop (entries : list string) (anchors : Anchors) : result Anchors string :=
  match entries with
  | [] => Ok anchors
  | entry :: entries' =>
      match split_ws (str_trim entry) with
      | f0 :: f1 :: f2 :: ((_ :: _) as f3) =>
          flags <-? ok_or (parse_u16 f0) "non-numeric flags";
          if Z.land flags 256 =? 0 then Err "does not have the zone-key flag set"
          else
            protocol <-? ok_or (parse_u8 f1) "non-numeric protocol";
            if negb (protocol =? 3) then Err "protocol must be 3"
            else
              algorithm <-? ok_or (parse_u8 f2) "non-numeric algorithm";
              if negb (alg_supported algorithm) then Err "algorithm cannot be verified"
              else
                key <-? ok_or (b64_decode (str_join "" f3)) "undecodable key";
                if (length key =? 0)%nat then Err "empty key"
                else if match fixed_public_key_len algorithm with
                        | Some expected => negb (length key =? expected)%nat
                        | None => false
                        end
                then Err "key length"
                else from_dnskey_loop entries' (anchors_insert key algorithm anchors)
      | _ => Err "expected four fields"
      end
  end.

(** [from_dnskey_strings]. *)
Definition from_dnskey_strings (entries : list string) : result Anchors string :=
  anchors <-? from_dnskey_loop entries [];
  match anchors with [] => Err "no trust anchors were parsed" | _ => Ok anchors end.

(** * Records *)

Definition as_dnskey (r : WireRecord) : option DnskeyData :=
  match w_data r with RD_DNSSEC (DD_DNSKEY k) => Some k | _ => None end.
Definition as_ds (r : WireRecord) : option DsData :=
  match w_data r with RD_DNSSEC (DD_DS d) => Some d | _ => None end.
Definition as_rrsig (r : WireRecord) : option (RrsigData Name) :=
  match w_data r with RD_DNSSEC (DD_RRSIG s) => Some s | _ => None end.
Definition as_nsec (r : WireRecord) : option (NsecData Name) :=
  match w_data r with RD_DNSSEC (DD_NSEC n) => Some n | _ => None end.
Definition as_nsec3 (r : WireRecord) : option Nsec3Data :=
  match w_data r with RD_DNSSEC (DD_NSEC3 n) => Some n | _ => None end.

Definition records_at (records : list WireRecord) (owner : Name) (rtype : Z) : list WireRecord :=
  List.filter (fun r => name_eqb (w_name r) owner && (record_type r =? rtype)) records.

Definition zone_keys (records : list WireRecord) (zone : Name) : list DnskeyData :=
  List.filter (fun k => k_zone_key k && negb (k_revoke k))
    (omap as_dnskey (records_at records zone T_DNSKEY)).

Definition ds_records (records : list WireRecord) (child : Name) : list DsData :=
  omap as_ds (records_at records child T_DS).

Definition ds_algorithms_supported (ds : list DsData) : bool :=
  existsb (fun d => alg_supported (d_algorithm d)) ds.

(** [records.iter().map(Record::ttl).min().unwrap_or(fallback)]. *)
Definition min_ttl (records : list WireRecord) (fallback : Z) : Z :=
  match records with [] => fallback | r :: rs => foldl Z.min (w_ttl r) (w_ttl <$> rs) end.

Definition is_dnssec_type (rtype : Z) : bool :=
  mem_Z rtype [T_RRSIG; T_DNSKEY; T_DS; T_NSEC; T_NSEC3; T_NSEC3PARAM].

Definition has_any_rrsig (records : list WireRecord) : bool :=
  existsb (fun r => match w_data r with RD_DNSSEC _ => true | _ => false end && (record_type r =? T_RRSIG))
    records.

(** [dnskey_algorithms]: sorted, without repetition. *)
Fixpoint insert_sorted (a : Z) (l : list Z) : list Z :=
  match l with [] => [a] | b :: l' => if a <=? b then a :: l else b :: insert_sorted a l' end.

Fixpoint dedup_adjacent (l : list Z) : list Z :=
  match l with
  | a :: ((b :: _) as l') => if a =? b then dedup_adjacent l' else a :: dedup_adjacent l'
  | _ => l
  end.

Definition dnskey_algorithms (keys : list DnskeyData) : list Z :=
  dedup_adjacent (foldr insert_sorted [] (k_algorithm <$> keys)).

(** ** RRsets *)

Definition Rrset : Type := Name * Z * list WireRecord.

(** The record joins the first set of its owner and type, or starts one. *)
Fixpoint join_set (r : WireRecord) (sets : list Rrset) : list Rrset :=
  match sets with
  | [] => [(w_name r, record_type r, [r])]
  | (name, t, group) :: sets' =>
      if (t =? record_type r) && name_eqb name (w_name r)
      then (name, t, group ++ [r]) :: sets'
      else (name, t, group) :: join_set r sets'
  end.

Definition group_step (acc : list Rrset * list WireRecord) (r : WireRecord)
  : list Rrset * list WireRecord :=
  let (sets, sigs) := acc in
  if record_type r =? T_RRSIG then (sets, sigs ++ [r]) else (join_set r sets, sigs).

Definition group_rrsets (records : list WireRecord) : list Rrset * list WireRecord :=
  foldl group_step ([], []) records.

(** * Signatures *)

Record SignatureFacts := mkFacts { wildcard_closest_encloser : option Name }.

(** The candidates of [verify_one]: every key of the signature's algorithm and tag. *)
Fixpoint try_keys (owner : Name) (rrset : list WireRecord) (sig : RrsigData Name)
    (keys : list DnskeyData) (tried : nat) (last : string) : result SignatureFacts string :=
  match keys with
  | [] => if (tried =? 0)%nat then Err "names a key that is not in the DNSKEY RRset" else Err last
  | key :: keys' =>
      if negb (k_algorithm key =? g_algorithm sig) then try_keys owner rrset sig keys' tried last
      else match calculate_key_tag key with
           | None => try_keys owner rrset sig keys' tried "could not compute key tag"
           | Some tag =>
               if negb (tag =? g_key_tag sig) then try_keys owner rrset sig keys' tried last
               else if lib_verify_rrsig key owner sig rrset
               then Ok (mkFacts (if g_num_labels sig <? num_labels owner
                                 then Some (trim_to (Z.to_nat (g_num_labels sig)) owner) else None))
               else try_keys owner rrset sig keys' (S tried) "signature did not verify"
           end
  end.

Definition verify_one (owner : Name) (rtype : Z) (rrset : list WireRecord) (sig : RrsigData Name)
    (keys : list DnskeyData) (zone : Name) (now : Z) : result SignatureFacts string :=
  if negb (name_eqb (g_signer_name sig) zone) then Err "is signed by another zone"
  else if serial_lt now (g_inception sig) then Err "is not valid yet"
  else if serial_lt (g_expiration sig) now then Err "expired"
  else if num_labels owner <? g_num_labels sig then Err "claims more labels than the name has"
  else if negb (alg_supported (g_algorithm sig)) then Err "uses an unsupported algorithm"
  else try_keys owner rrset sig keys 0 "no key matched the RRSIG's tag and algorithm".

Definition covering_sigs (owner : Name) (rtype : Z) (sigs : list WireRecord) : list (RrsigData Name) :=
  List.filter (fun s => g_type_covered s =? rtype)
    (omap as_rrsig (List.filter (fun r => name_eqb (w_name r) owner) sigs)).

Fixpoint verify_any (owner : Name) (rtype : Z) (rrset : list WireRecord) (covering : list (RrsigData Name))
    (keys : list DnskeyData) (zone : Name) (now : Z) : result SignatureFacts string :=
  match covering with
  | [] => Err "no RRSIG validated"
  | sig :: covering' =>
      match verify_one owner rtype rrset sig keys zone now with
      | Ok facts => Ok facts
      | Err _ => verify_any owner rtype rrset covering' keys zone now
      end
  end.

(** [verify_rrset], [verify_rrset_inner]. *)
Definition verify_rrset (owner : Name) (rtype : Z) (rrset sigs : list WireRecord)
    (keys : list DnskeyData) (zone : Name) (now : Z) : result SignatureFacts string :=
  match rrset with
  | [] => Err "nothing to verify"
  | _ =>
      match keys with
      | [] => Err "no DNSKEYs available"
      | _ =>
          match covering_sigs owner rtype sigs with
          | [] => Err "no RRSIG covers"
          | covering => verify_any owner rtype rrset covering keys zone now
          end
      end
  end.

Inductive KeySource := FromAnchors (anchors : Anchors) | FromDs (ds : list DsData).

Definition anchored_by (source : KeySource) (zone : Name) (k : DnskeyData) : bool :=
  match source with
  | FromAnchors anchors => anchors_contains anchors (k_public_key k) (k_algorithm k)
  | FromDs ds_set =>
      existsb (fun ds => alg_supported (d_algorithm ds) && default false (ds_covers ds zone k)) ds_set
  end.

Definition validate_dnskey_rrset (zone : Name) (records sigs : list WireRecord) (source : KeySource)
    (now : Z) : result (list DnskeyData) string :=
  let keys := zone_keys records zone in
  match keys with
  | [] => Err "returned no usable DNSKEY records"
  | _ =>
      match List.filter (anchored_by source zone) keys with
      | [] => Err "no DNSKEY is anchored"
      | anchored =>
          match verify_rrset zone T_DNSKEY (records_at records zone T_DNSKEY) sigs anchored zone now with
          | Ok _ => Ok keys
          | Err _ => Err "DNSKEY RRset is not signed by an anchored key"
          end
      end
  end.

(** * Denial of existence *)

Record Denial := mkDenial { d_nsec : list (Name * NsecData Name); d_nsec3 : list (Name * Nsec3Data) }.

Definition denial_of (r : WireRecord) (d : Denial) : Denial :=
  match as_nsec r with
  | Some nsec => mkDenial (d_nsec d ++ [(w_name r, nsec)]) (d_nsec3 d)
  | None =>
      match as_nsec3 r with
      | Some nsec3 => mkDenial (d_nsec d) (d_nsec3 d ++ [(w_name r, nsec3)])
      | None => d
      end
  end.

(** [Denial::from_records]. *)
Definition from_records (records : list WireRecord) : Denial :=
  foldl (fun d r => denial_of r d) (mkDenial [] []) records.

Definition denial_is_empty (d : Denial) : bool :=
  match d_nsec d, d_nsec3 d with [], [] => true | _, _ => false end.

Inductive Denied := Proven | OptedOut.

Definition nsec_at (d : Denial) (name : Name) : option (Name * NsecData Name) :=
  find (fun e => name_eqb (fst e) name) (d_nsec d).

Definition nsec_covers (owner next name : Name) : bool :=
  if name_ltb owner next then name_ltb owner name && name_ltb name next
  else name_ltb owner name || name_ltb name next.

Definition nsec_covers_name (d : Denial) (name : Name) : bool :=
  existsb (fun e => nsec_covers (fst e) (n_next_domain_name (snd e)) name) (d_nsec d).

Definition prepend_wildcard (name : Name) : Name := default name (star_dot name).

Definition wildcard_of (qname zone : Name) : Name :=
  let parent := base_name qname in
  prepend_wildcard (if zone_of zone parent then parent else zone).

Definition next_closer_name (qname encloser : Name) : option Name :=
  let q := Z.to_nat (num_labels qname) in
  let e := Z.to_nat (num_labels encloser) in
  if (q <=? e)%nat then None else Some (trim_to (S e) qname).

(** ** NSEC3 *)

Definition MAX_NSEC3_ITERATIONS : Z := 100.

Definition hashed (n3 : Nsec3Data) (name : Name) : result string string :=
  if MAX_NSEC3_ITERATIONS <? n3_iterations n3 then Err "NSEC3 iteration count"
  else digest <-? ok_or (nsec3_hash (n3_hash_algorithm n3) (n3_salt n3) name (n3_iterations n3))
                    "NSEC3 hashing failed";
       Ok (base32hex digest).

Definition owner_hash (owner : Name) : option string := to_uppercase <$> head (name_iter owner).

Fixpoint matching_loop (entries : list (Name * Nsec3Data)) (name : Name)
  : result (option (Name * Nsec3Data)) string :=
  match entries with
  | [] => Ok None
  | (owner, n3) :: entries' =>
      match owner_hash owner with
      | None => matching_loop entries' name
      | Some oh =>
          h <-? hashed n3 name;
          if (h =? oh)%string then Ok (Some (owner, n3)) else matching_loop entries' name
      end
  end.

Definition nsec3_matching (d : Denial) (name : Name) : result (option (Name * Nsec3Data)) string :=
  matching_loop (d_nsec3 d) name.

Definition hash_covers (owner next target : string) : bool :=
  if String.ltb owner next then String.ltb owner target && String.ltb target next
  else String.ltb owner target || String.ltb target next.

Fixpoint covering_loop (entries : list (Name * Nsec3Data)) (name : Name)
  : result (option (Name * Nsec3Data)) string :=
  match entries with
  | [] => Ok None
  | (owner, n3) :: entries' =>
      match owner_hash owner with
      | None => covering_loop entries' name
      | Some oh =>
          let next := base32hex (n3_next_hashed_owner_name n3) in
          target <-? hashed n3 name;
          if hash_covers oh next target then Ok (Some (owner, n3)) else covering_loop entries' name
      end
  end.

Definition nsec3_covering (d : Denial) (name : Name) : result (option (Name * Nsec3Data)) string :=
  covering_loop (d_nsec3 d) name.

(** The candidates of [closest_encloser], from [take] labels down to none. *)
Fixpoint encloser_from (qname : Name) (d : Denial) (take : nat) : result (option (Name * Name)) string :=
  let candidate := trim_to take qname in
  m <-? nsec3_matching d candidate;
  match m with
  | Some _ => Ok (Some (candidate, default candidate (next_closer_name qname candidate)))
  | None => match take with O => Ok None | S take' => encloser_from qname d take' end
  end.

Definition closest_encloser (qname : Name) (d : Denial) : result (option (Name * Name)) string :=
  encloser_from qname d (Z.to_nat (num_labels qname)).

(** ** The proofs *)

(** The type bit map of a delegation point without DS. *)
Definition delegation_without_ds (types : list Z) : result Denied string :=
  if mem_Z T_DS types then Err "asserts a DS exists, but none was delivered"
  else if mem_Z T_SOA types then Err "is the child apex, not the parent's delegation point"
  else if negb (mem_Z T_NS types) then Err "does not assert a delegation"
  else Ok Proven.

Definition prove_no_ds (child : Name) (d : Denial) : result Denied string :=
  let unproven := Err "no NSEC or NSEC3 record proves the delegation has no DS" in
  if denial_is_empty d then Err "the delegation carried neither a DS record nor a proof"
  else match nsec_at d child with
       | Some (_, nsec) => delegation_without_ds (n_type_bit_maps nsec)
       | None =>
           match d_nsec3 d with
           | [] => unproven
           | _ =>
               m <-? nsec3_matching d child;
               match m with
               | Some (_, n3) => delegation_without_ds (n3_type_bit_maps n3)
               | None =>
                   e <-? closest_encloser child d;
                   match e with
                   | None => unproven
                   | Some (ce, next_closer) =>
                       c <-? nsec3_covering d next_closer;
                       match c with
                       | None => unproven
                       | Some (_, n3) => if n3_opt_out n3 then Ok OptedOut else Err "is not opt-out"
                       end
                   end
               end
           end
       end.

Definition prove_nxdomain (qname zone : Name) (d : Denial) : result Denied string :=
  match d_nsec d, d_nsec3 d with
  | _ :: _, _ =>
      if existsb (fun e => name_eqb (fst e) qname) (d_nsec d) then Err "an NSEC asserts the name exists"
      else if negb (nsec_covers_name d qname) then Err "no NSEC covers the name"
      else
        let wildcard := wildcard_of qname zone in
        if negb (nsec_covers_name d wildcard) && negb (existsb (fun e => name_eqb (fst e) wildcard) (d_nsec d))
        then Err "no NSEC rules out the wildcard"
        else Ok Proven
  | [], _ :: _ =>
      e <-? closest_encloser qname d;
      match e with
      | None => Err "no NSEC3 closest encloser found"
      | Some (ce, next_closer) =>
          c <-? nsec3_covering d next_closer;
          match c with
          | None => Err "no NSEC3 covers the next closer name"
          | Some (_, covering) =>
              let wildcard := prepend_wildcard ce in
              w <-? nsec3_covering d wildcard;
              m <-? match w with Some _ => Ok None | None => nsec3_matching d wildcard end;
              match w, m with
              | None, None => Err "no NSEC3 rules out the wildcard"
              | _, _ => Ok (if n3_opt_out covering then OptedOut else Proven)
              end
          end
      end
  | [], [] => Err "no NSEC or NSEC3 record accompanies the NXDOMAIN"
  end.

(** The type bit map of the name that was asked for. *)
Definition denies_type (qtype : Z) (types : list Z) : result Denied string :=
  if mem_Z qtype types then Err "asserts the type exists"
  else if mem_Z T_CNAME types then Err "asserts a CNAME, which should have been followed"
  else Ok Proven.

Definition prove_nodata (qname : Name) (qtype : Z) (zone : Name) (d : Denial) : result Denied string :=
  match d_nsec d, d_nsec3 d with
  | _ :: _, _ =>
      match nsec_at d qname with
      | Some (_, nsec) => denies_type qtype (n_type_bit_maps nsec)
      | None =>
          match nsec_at d (wildcard_of qname zone) with
          | Some (_, nsec) =>
              if mem_Z qtype (n_type_bit_maps nsec) then Err "the wildcard NSEC asserts the type exists"
              else if negb (nsec_covers_name d qname) then Err "nothing shows the name does not exist"
              else Ok Proven
          | None => Err "no NSEC at or covering the name denies the type"
          end
      end
  | [], _ :: _ =>
      m <-? nsec3_matching d qname;
      match m with
      | Some (_, n3) => denies_type qtype (n3_type_bit_maps n3)
      | None =>
          e <-? closest_encloser qname d;
          match e with
          | None => Err "no NSEC3 matches or encloses the name"
          | Some (ce, next_closer) =>
              w <-? nsec3_matching d (prepend_wildcard ce);
              match w with
              | Some (_, n3) =>
                  if mem_Z qtype (n3_type_bit_maps n3) then Err "the wildcard NSEC3 asserts the type exists"
                  else Ok Proven
              | None =>
                  c <-? nsec3_covering d next_closer;
                  match c with
                  | Some (_, covering) =>
                      if n3_opt_out covering then Ok OptedOut else Err "no NSEC3 denies the type"
                  | None => Err "no NSEC3 denies the type"
                  end
              end
          end
      end
  | [], [] => Err "no NSEC or NSEC3 record accompanies the NODATA"
  end.

Definition prove_wildcard_expansion (qname encloser : Name) (d : Denial) : result Denied string :=
  if denial_is_empty d then Err "answered from a wildcard without a proof"
  else match d_nsec d with
       | _ :: _ => if nsec_covers_name d qname then Ok Proven else Err "no NSEC shows the name is absent"
       | [] =>
           next_closer <-? ok_or (next_closer_name qname encloser) "does not enclose";
           c <-? nsec3_covering d next_closer;
           match c with
           | Some (_, n3) => Ok (if n3_opt_out n3 then OptedOut else Proven)
           | None => Err "no NSEC3 covers the next closer name"
           end
       end.

(** * Zone cuts without a referral *)

Fixpoint signer_loop (records : list WireRecord) (zone : Name) (signer : option Name) : option Name :=
  match records with
  | [] => signer
  | r :: records' =>
      match as_rrsig r with
      | None => signer_loop records' zone signer
      | Some sig =>
          let candidate := g_signer_name sig in
          if name_eqb candidate zone || negb (zone_of zone candidate) then None
          else if negb (zone_of candidate (w_name r)) then None
          else match signer with
               | Some seen => if negb (name_eqb seen candidate) then None
                              else signer_loop records' zone signer
               | None => signer_loop records' zone (Some candidate)
               end
      end
  end.

Definition signer_below (records : list WireRecord) (zone : Name) : option Name :=
  signer_loop records zone None.

Definition soa_below (records : list WireRecord) (zone : Name) : option Name :=
  w_name <$> find (fun r => (record_type r =? T_SOA) && zone_of zone (w_name r) &&
                            negb (name_eqb (w_name r) zone)) records.

(** * Lemmas *)

Definition is_ok {A E} (r : result A E) : Prop := exists a, r = Ok a.

(** A key a signature may be checked with. *)
Definition candidate_key (owner : Name) (rrset : list WireRecord) (sig : RrsigData Name)
    (key : DnskeyData) : Prop :=
  k_algorithm key = g_algorithm sig /\ calculate_key_tag key = Some (g_key_tag sig) /\
  lib_verify_rrsig key owner sig rrset = true.

Lemma try_keys_ok owner rrset sig keys tried last :
  is_ok (try_keys owner rrset sig keys tried last) <->
  exists key, key ∈ keys /\ candidate_key owner rrset sig key.
Proof.
  revert tried last. induction keys as [|k keys IH]; intros tried last; simpl.
  - split; [|intros (key & H & _); by apply elem_of_nil in H].
    intros [a H]. by destruct (tried =? 0)%nat.
  - transitivity (candidate_key owner rrset sig k \/
                  exists key, key ∈ keys /\ candidate_key owner rrset sig key).
    2:{ setoid_rewrite elem_of_cons. naive_solver. }
    unfold candidate_key at 1.
    destruct (k_algorithm k =? g_algorithm sig) eqn:Ea; simpl; bool_hyps.
    2:{ rewrite IH. naive_solver. }
    destruct (calculate_key_tag k) as [tag|]; [|rewrite IH; naive_solver].
    destruct (tag =? g_key_tag sig) eqn:Et; simpl; bool_hyps; [|rewrite IH; naive_solver].
    destruct (lib_verify_rrsig k owner sig rrset); [|rewrite IH; naive_solver].
    split; [|intros _; by eexists]. intros _. left. naive_solver.
Qed.

(** A signature that counts. *)
Definition good_sig (owner : Name) (rrset : list WireRecord) (keys : list DnskeyData) (zone : Name)
    (now : Z) (sig : RrsigData Name) : Prop :=
  name_eqb (g_signer_name sig) zone = true /\
  serial_lt now (g_inception sig) = false /\ serial_lt (g_expiration sig) now = false /\
  g_num_labels sig <= num_labels owner /\ alg_supported (g_algorithm sig) = true /\
  exists key, key ∈ keys /\ candidate_key owner rrset sig key.

Lemma verify_one_ok owner rtype rrset sig keys zone now :
  is_ok (verify_one owner rtype rrset sig keys zone now) <-> good_sig owner rrset keys zone now sig.
Proof.
  unfold verify_one, good_sig, is_ok.
  destruct (name_eqb (g_signer_name sig) zone); simpl; [|naive_solver].
  destruct (serial_lt now (g_inception sig)); [naive_solver|].
  destruct (serial_lt (g_expiration sig) now); [naive_solver|].
  destruct (num_labels owner <? g_num_labels sig) eqn:El; bool_hyps; [naive_solver lia|].
  destruct (alg_supported (g_algorithm sig)); simpl; [|naive_solver].
  pose proof (try_keys_ok owner rrset sig keys 0 "no key matched the RRSIG's tag and algorithm") as H.
  unfold is_ok in H. rewrite H. naive_solver.
Qed.

Lemma verify_any_ok owner rtype rrset sigs keys zone now :
  is_ok (verify_any owner rtype rrset sigs keys zone now) <->
  exists sig, sig ∈ sigs /\ good_sig owner rrset keys zone now sig.
Proof.
  induction sigs as [|sig sigs IH]; simpl.
  - unfold is_ok. split; [naive_solver|]. intros (s & H & _). by apply elem_of_nil in H.
  - setoid_rewrite elem_of_cons. pose proof (verify_one_ok owner rtype rrset sig keys zone now) as H1.
    destruct (verify_one owner rtype rrset sig keys zone now) as [f|e].
    + split; [|by eexists]. intros _. exists sig. split; [by left|]. apply H1. by eexists.
    + rewrite IH. assert (~ good_sig owner rrset keys zone now sig) as Hn.
      { intros H%H1. by destruct H. }
      naive_solver.
Qed.

Lemma covering_sigs_elem owner rtype sigs sig :
  sig ∈ covering_sigs owner rtype sigs <->
  g_type_covered sig = rtype /\
  exists r, r ∈ sigs /\ name_eqb (w_name r) owner = true /\ as_rrsig r = Some sig.
Proof.
  unfold covering_sigs. rewrite elem_filter_bool, list_elem_of_omap, Z.eqb_eq.
  setoid_rewrite elem_filter_bool. naive_solver.
Qed.

Lemma verify_rrset_ok owner rtype rrset sigs keys zone now :
  is_ok (verify_rrset owner rtype rrset sigs keys zone now) <->
  rrset <> [] /\ exists sig, sig ∈ covering_sigs owner rtype sigs /\ good_sig owner rrset keys zone now sig.
Proof.
  unfold verify_rrset. destruct rrset as [|r rrset]; [unfold is_ok; naive_solver|].
  destruct keys as [|k keys].
  { unfold is_ok, good_sig. split; [naive_solver|].
    intros (_ & sig & _ & _ & _ & _ & _ & _ & key & H & _). by apply elem_of_nil in H. }
  destruct (covering_sigs owner rtype sigs) as [|s l] eqn:E.
  - unfold is_ok. split; [naive_solver|]. intros (_ & s & H & _). by apply elem_of_nil in H.
  - rewrite verify_any_ok. naive_solver.
Qed.

Lemma filter_nonempty {A} (p : A -> bool) (l : list A) x : x ∈ l -> p x = true -> List.filter p l <> [].
Proof. intros Hx Hp E. assert (x ∈ List.filter p l) as H by (by apply elem_filter_bool). rewrite E in H. by apply elem_of_nil in H. Qed.

Lemma validate_dnskey_ok zone records sigs source now keys :
  validate_dnskey_rrset zone records sigs source now = Ok keys <->
  keys = zone_keys records zone /\
  exists sig, sig ∈ covering_sigs zone T_DNSKEY sigs /\
    good_sig zone (records_at records zone T_DNSKEY)
      (List.filter (anchored_by source zone) (zone_keys records zone)) zone now sig.
Proof.
  unfold validate_dnskey_rrset.
  pose proof (verify_rrset_ok zone T_DNSKEY (records_at records zone T_DNSKEY) sigs
    (List.filter (anchored_by source zone) (zone_keys records zone)) zone now) as Hv.
  destruct (zone_keys records zone) as [|k ks] eqn:Ek.
  { split; [done|]. intros (_ & sig & _ & _ & _ & _ & _ & _ & key & H & _). by apply elem_of_nil in H. }
  destruct (List.filter (anchored_by source zone) (k :: ks)) as [|a anchored] eqn:Ea.
  { split; [done|]. intros (_ & sig & _ & _ & _ & _ & _ & _ & key & H & _). by apply elem_of_nil in H. }
  destruct (verify_rrset _ _ _ _ _ _ _) as [f|e] eqn:E.
  - assert (is_ok (E := string) (Ok f)) as Hf by (by eexists). apply Hv in Hf as [_ Hf].
    split; [intros [= <-]; done|]. by intros [-> _].
  - split; [done|]. intros [_ H]. exfalso.
    assert (is_ok (A := SignatureFacts) (E := string) (Err e)) as He; [|by destruct He].
    apply Hv. split; [|done]. intros En. unfold zone_keys in Ek. rewrite En in Ek. done.
Qed.

(** ** Signatures and keys *)

(** C12: a signature counts exactly when it should. An RRset is accepted under a
    zone's keys iff it is not empty and some signature at its owner covers its type,
    names that zone as signer, is inside its validity window, claims no more labels
    than the owner has, uses a supported algorithm, and verifies under a key of the
    set with that algorithm and tag. One good signature is enough, whatever the
    others are, and several keys may share the tag. *)
Theorem signature_accepted_iff owner rtype rrset sigs keys zone now :
  is_ok (verify_rrset owner rtype rrset sigs keys zone now) <->
  rrset <> [] /\
  exists r sig key,
    r ∈ sigs /\ name_eqb (w_name r) owner = true /\ as_rrsig r = Some sig /\ g_type_covered sig = rtype /\
    name_eqb (g_signer_name sig) zone = true /\
    serial_lt now (g_inception sig) = false /\ serial_lt (g_expiration sig) now = false /\
    g_num_labels sig <= num_labels owner /\ alg_supported (g_algorithm sig) = true /\
    key ∈ keys /\ k_algorithm key = g_algorithm sig /\ calculate_key_tag key = Some (g_key_tag sig) /\
    lib_verify_rrsig key owner sig rrset = true.
Proof.
  rewrite verify_rrset_ok. setoid_rewrite covering_sigs_elem. unfold good_sig, candidate_key.
  split.
  - intros (Hr & sig & (Ht & r & H1 & H2 & H3) & H4 & H5 & H6 & H7 & H8 & key & H9).
    split; [done|]. exists r, sig, key. naive_solver.
  - intros (Hr & r & sig & key & ?). destruct_and!. split; [done|]. exists sig.
    split; [by split; [|exists r]|]. repeat (split; [done|]). by exists key.
Qed.

(** Trust passes to a DNSKEY set only through an anchored key that signed it.
    The set is accepted iff a zone key of it (zone flag set, not revoked) matches a
    configured anchor, or a DS record of the parent with a supported algorithm, and
    that same key made a valid signature over the set; then exactly the zone keys of
    the set are trusted. A key an attacker appends, or a signature by a key that is
    not anchored, gains nothing. *)
Theorem dnskey_set_needs_anchor zone records sigs source now keys :
  validate_dnskey_rrset zone records sigs source now = Ok keys <->
  keys = zone_keys records zone /\
  exists r sig key,
    r ∈ sigs /\ name_eqb (w_name r) zone = true /\ as_rrsig r = Some sig /\
    g_type_covered sig = T_DNSKEY /\ name_eqb (g_signer_name sig) zone = true /\
    serial_lt now (g_inception sig) = false /\ serial_lt (g_expiration sig) now = false /\
    g_num_labels sig <= num_labels zone /\ alg_supported (g_algorithm sig) = true /\
    key ∈ keys /\ k_zone_key key = true /\ k_revoke key = false /\ anchored_by source zone key = true /\
    k_algorithm key = g_algorithm sig /\ calculate_key_tag key = Some (g_key_tag sig) /\
    lib_verify_rrsig key zone sig (records_at records zone T_DNSKEY) = true.
Proof.
  rewrite validate_dnskey_ok. setoid_rewrite covering_sigs_elem. unfold good_sig, candidate_key.
  assert (forall key, key ∈ zone_keys records zone -> k_zone_key key = true /\ k_revoke key = false) as Hz.
  { intros key [_ H]%elem_filter_bool. bool_hyps. done. }
  split.
  - intros (-> & sig & (Ht & r & H1 & H2 & H3) & H4 & H5 & H6 & H7 & H8 & key & [H9 H10]%elem_filter_bool & H11).
    split; [done|]. exists r, sig, key. destruct (Hz _ H9). naive_solver.
  - intros (-> & r & sig & key & ?). destruct_and!. split; [done|]. exists sig.
    split; [by split; [|exists r]|]. repeat (split; [done|]). exists key. by rewrite elem_filter_bool.
Qed.

(** What an anchor has to be to match a DNSKEY record. *)
Definition anchor_usable (e : list Z * Z) : Prop :=
  alg_supported e.2 = true /\ e.1 <> [] /\
  match fixed_public_key_len e.2 with Some n => length e.1 = n | None => True end.

Lemma from_dnskey_loop_usable entries a0 a :
  Forall anchor_usable a0 -> from_dnskey_loop entries a0 = Ok a ->
  Forall anchor_usable a /\ (entries <> [] -> a <> []) /\ (a0 <> [] -> a <> []).
Proof.
  revert a0. induction entries as [|entry entries IH]; intros a0 H0 H; simpl in H.
  { injection H as <-. by split_and!. }
  destruct (split_ws (str_trim entry)) as [|f0 [|f1 [|f2 [|f3 fs]]]]; try done.
  apply result_bind_ok in H as (flags & _ & H). destruct (Z.land flags 256 =? 0); [done|].
  apply result_bind_ok in H as (protocol & _ & H). destruct (protocol =? 3); [|done].
  apply result_bind_ok in H as (alg & _ & H). destruct (alg_supported alg) eqn:Ea; [|done].
  apply result_bind_ok in H as (key & _ & H). destruct (length key =? 0)%nat eqn:Ek; [done|].
  destruct (match fixed_public_key_len alg with Some _ => _ | None => _ end) eqn:El; [done|].
  assert (anchor_usable (key, alg)) as Hu.
  { split_and!; simpl; [done|intros ->; done|]. destruct (fixed_public_key_len alg); [|done].
    by bool_hyps. }
  assert (anchors_insert key alg a0 <> []) as Hne.
  { unfold anchors_insert. destruct (anchors_contains a0 key alg) eqn:E; [by intros ->|by destruct a0]. }
  apply IH in H as (H1 & _ & H3); [by auto|].
  unfold anchors_insert. destruct (anchors_contains a0 key alg); [exact H0|].
  by apply Forall_app_2, Forall_singleton.
Qed.

Lemma accepted_usable entries a : from_dnskey_strings entries = Ok a -> a <> [] /\ Forall anchor_usable a.
Proof.
  unfold from_dnskey_strings. intros (a' & H & E)%result_bind_ok.
  apply from_dnskey_loop_usable in H as (H & _); [|by constructor].
  by destruct a'; simplify_eq/=.
Qed.

(** A configured set of trust anchors is one that can validate something. When
    the anchors are accepted there is at least one, and each is of an algorithm this
    build verifies, with a key that is not empty and has the length its algorithm
    fixes; an entry that is not makes the whole configuration an error. *)
Theorem accepted_anchors_usable entries a :
  from_dnskey_strings entries = Ok a -> a <> [] /\ Forall anchor_usable a.
Proof.
  apply accepted_usable.
Qed.

(** ** What a truthful denial proves *)

Section Truthful.

(** A zone as the validator may learn of it: the names it has and their types. *)
Variable present : Name -> bool.
Variable types_at : Name -> list Z.

(** Every NSEC and NSEC3 record tells the truth about the zone: nothing it has
    sorts into the gap, and the types at the owner are those listed. *)
Definition truthful (d : Denial) : Prop :=
  (forall o n x, (o, n) ∈ d_nsec d -> present x = true ->
     nsec_covers o (n_next_domain_name n) x = false) /\
  (forall o n x, (o, n) ∈ d_nsec d -> name_eqb o x = true -> n_type_bit_maps n = types_at x) /\
  (forall o n oh x h, (o, n) ∈ d_nsec3 d -> owner_hash o = Some oh -> present x = true ->
     hashed n x = Ok h -> hash_covers oh (base32hex (n3_next_hashed_owner_name n)) h = false) /\
  (forall o n oh x h, (o, n) ∈ d_nsec3 d -> owner_hash o = Some oh ->
     hashed n x = Ok h -> h = oh -> n3_type_bit_maps n = types_at x).

Lemma nsec_covered_absent d name :
  truthful d -> nsec_covers_name d name = true -> present name = false.
Proof.
  intros (Hc & _) H. apply existsb_exists in H as ([o n] & Hin & H). simpl in H.
  apply list_elem_of_In in Hin. destruct (present name) eqn:E; [|done].
  by rewrite (Hc o n name) in H.
Qed.

Lemma nsec_at_types d name o n :
  truthful d -> nsec_at d name = Some (o, n) -> n_type_bit_maps n = types_at name.
Proof.
  intros (_ & Ht & _) H. apply find_some in H as [Hin H]. apply list_elem_of_In in Hin.
  by apply (Ht o).
Qed.

Lemma covering_absent d name e :
  truthful d -> nsec3_covering d name = Ok (Some e) -> present name = false.
Proof.
  intros (_ & _ & Hc & _) H. unfold nsec3_covering in H.
  destruct (present name) eqn:E; [exfalso|done].
  assert (forall l, (forall x, x ∈ l -> x ∈ d_nsec3 d) -> covering_loop l name <> Ok (Some e)) as Hl.
  { induction l as [|[o n] l IH]; intros Hsub; simpl; [done|].
    destruct (owner_hash o) as [oh|] eqn:Eo; [|set_solver].
    destruct (hashed n name) as [h|] eqn:Eh; simpl; [|done].
    rewrite (Hc o n oh name h) by (try done; set_solver). set_solver. }
  by apply (Hl (d_nsec3 d)).
Qed.

Lemma matching_types d name o n :
  truthful d -> nsec3_matching d name = Ok (Some (o, n)) -> n3_type_bit_maps n = types_at name.
Proof.
  intros (_ & _ & _ & Ht) H. unfold nsec3_matching in H.
  assert (forall l, (forall x, x ∈ l -> x ∈ d_nsec3 d) -> matching_loop l name = Ok (Some (o, n)) ->
    n3_type_bit_maps n = types_at name) as Hl; [|by apply (Hl (d_nsec3 d))].
  induction l as [|[o' n'] l IH]; intros Hsub; simpl; [done|].
  destruct (owner_hash o') as [oh|] eqn:Eo; [|set_solver].
  destruct (hashed n' name) as [h|] eqn:Eh; simpl; [|done].
  destruct (h =? oh)%string eqn:E; [|set_solver].
  intros [= <- <-]. apply (Ht o' n' oh name h); [set_solver|done|done|by apply String.eqb_eq].
Qed.

(** The next closer names a proof may rest on: ancestors of the name, or the name. *)
Definition next_closers (d : Denial) (qname encloser nc : Name) : Prop :=
  (exists ce, closest_encloser qname d = Ok (Some (ce, nc))) \/ next_closer_name qname encloser = Some nc.

Lemma no_ds_types types : delegation_without_ds types = Ok Proven ->
  mem_Z T_DS types = false /\ mem_Z T_SOA types = false /\ mem_Z T_NS types = true.
Proof. unfold delegation_without_ds. intros H. by repeat case_match; bool_hyps. Qed.

Lemma denies_type_spec qtype types : denies_type qtype types = Ok Proven ->
  mem_Z qtype types = false /\ mem_Z T_CNAME types = false.
Proof. unfold denies_type. intros H. by repeat case_match. Qed.

Lemma nxdomain_absent d qname zone encloser :
  truthful d -> (forall nc, next_closers d qname encloser nc -> present nc = false -> present qname = false) ->
  prove_nxdomain qname zone d = Ok Proven -> present qname = false.
Proof.
  intros Ht Hup H. unfold prove_nxdomain in H. destruct (d_nsec d) eqn:En.
  - destruct (d_nsec3 d); [done|].
    apply result_bind_ok in H as ([[ce nc]|] & He & H); [|done].
    apply result_bind_ok in H as ([e|] & Hc & H); [|done].
    apply (Hup nc); [by left; exists ce|]. by eapply covering_absent.
  - rewrite <- En in H. destruct (existsb _ _); [done|].
    destruct (nsec_covers_name d qname) eqn:E; [|done]. by eapply nsec_covered_absent.
Qed.

Lemma expansion_absent d qname encloser :
  truthful d -> (forall nc, next_closers d qname encloser nc -> present nc = false -> present qname = false) ->
  prove_wildcard_expansion qname encloser d = Ok Proven -> present qname = false.
Proof.
  intros Ht Hup H. unfold prove_wildcard_expansion in H. destruct (denial_is_empty d); [done|].
  destruct (d_nsec d).
  - apply result_bind_ok in H as (nc & Hn & H). apply result_bind_ok in H as ([e|] & Hc & H'); [|done].
    destruct (next_closer_name qname encloser) as [nc'|] eqn:En; [|done]. injection Hn as ->.
    apply (Hup nc); [by right|]. by eapply covering_absent.
  - destruct (nsec_covers_name d qname) eqn:E; [|done]. by eapply nsec_covered_absent.
Qed.

Lemma no_ds_here d child :
  truthful d -> prove_no_ds child d = Ok Proven ->
  mem_Z T_DS (types_at child) = false /\ mem_Z T_SOA (types_at child) = false /\
  mem_Z T_NS (types_at child) = true.
Proof.
  intros Ht H. unfold prove_no_ds in H. destruct (denial_is_empty d); [done|].
  destruct (nsec_at d child) as [[o n]|] eqn:En.
  - rewrite <- (nsec_at_types d child o n) by done. by apply no_ds_types.
  - destruct (d_nsec3 d); [done|]. apply result_bind_ok in H as ([[o n]|] & Hm & H).
    + rewrite <- (matching_types d child o n) by done. by apply no_ds_types.
    + apply result_bind_ok in H as ([[ce nc]|] & _ & H); [|done].
      apply result_bind_ok in H as ([[o n]|] & _ & H); [|done]. by destruct (n3_opt_out n).
Qed.

Lemma nodata_absent d qname qtype zone :
  truthful d -> prove_nodata qname qtype zone d = Ok Proven ->
  mem_Z qtype (types_at qname) = false /\ mem_Z T_CNAME (types_at qname) = false \/
  exists base, mem_Z qtype (types_at (prepend_wildcard base)) = false /\
    (d_nsec d <> [] -> present qname = false).
Proof.
  intros Ht H. unfold prove_nodata in H. destruct (d_nsec d) as [|x l] eqn:Ed.
  - destruct (d_nsec3 d); [done|]. apply result_bind_ok in H as ([[o n]|] & Hm & H).
    + left. rewrite <- (matching_types d qname o n) by done. by apply denies_type_spec.
    + apply result_bind_ok in H as ([[ce nc]|] & _ & H); [|done].
      apply result_bind_ok in H as ([[o n]|] & Hw & H).
      * right. exists ce. split; [|done]. rewrite <- (matching_types d (prepend_wildcard ce) o n) by done.
        by destruct (mem_Z qtype (n3_type_bit_maps n)).
      * apply result_bind_ok in H as ([[o n]|] & _ & H); [|done]. by destruct (n3_opt_out n).
  - destruct (nsec_at d qname) as [[o n]|] eqn:En.
    + left. rewrite <- (nsec_at_types d qname o n) by done. by apply denies_type_spec.
    + right. unfold wildcard_of in H. eexists.
      destruct (nsec_at d (prepend_wildcard _)) as [[o n]|] eqn:Ew in H; [|done].
      rewrite <- (nsec_at_types d _ o n) by done.
      destruct (mem_Z qtype (n_type_bit_maps n)); [done|]. split; [done|]. intros _.
      destruct (nsec_covers_name d qname) eqn:Ec; [|done]. by eapply nsec_covered_absent.
Qed.

(** * Properties *)

(** C13: a denial that is proven from truthful records is true. When every NSEC and
    NSEC3 record of the proof tells the truth about the zone (nothing it has sorts
    into their gaps, the types listed are the types there) and a name of the zone has
    its next closer name in it, then: a proven NXDOMAIN, and a proven wildcard expansion, are about a
    name the zone does not have; a proven absence of a DS is about a delegation
    point of the zone without one; and a proven NODATA is about a name without that
    type and without an alias, or else rests on a wildcard without that type, the
    name itself being absent when the proof is by NSEC. *)
Theorem denial_proofs_sound d qname qtype zone encloser :
  truthful d ->
  (forall nc, next_closers d qname encloser nc -> present qname = true -> present nc = true) ->
  (prove_nxdomain qname zone d = Ok Proven -> present qname = false) /\
  (prove_wildcard_expansion qname encloser d = Ok Proven -> present qname = false) /\
  (prove_no_ds qname d = Ok Proven ->
     mem_Z T_DS (types_at qname) = false /\ mem_Z T_SOA (types_at qname) = false /\
     mem_Z T_NS (types_at qname) = true) /\
  (prove_nodata qname qtype zone d = Ok Proven ->
     mem_Z qtype (types_at qname) = false /\ mem_Z T_CNAME (types_at qname) = false \/
     exists base, mem_Z qtype (types_at (prepend_wildcard base)) = false /\
       (d_nsec d <> [] -> present qname = false)).
Proof.
  intros Ht Hanc.
  assert (forall nc, next_closers d qname encloser nc -> present nc = false -> present qname = false) as Hup.
  { intros nc Hnc Hk. destruct (present qname) eqn:E; [|done]. by rewrite (Hanc nc) in Hk. }
  split; [by eapply nxdomain_absent|]. split; [by eapply expansion_absent|].
  split; [by apply no_ds_here|by apply nodata_absent].
Qed.

(** Two denials are accepted without what they need. By NSEC, an NXDOMAIN is
    proven by the record at the very wildcard that would have answered: one NSEC that
    covers the name and is owned by the wildcard, which asserts that the wildcard
    exists, is accepted as ruling it out. By NSEC3, a NODATA is proven by a wildcard
    record without the type whether or not anything shows that the name itself does
    not exist: the next closer name need not be covered. *)
Theorem wildcard_denials_forgeable d qname qtype zone w n ce nc o n3 :
  (d_nsec d = [(w, n)] -> name_eqb w (wildcard_of qname zone) = true -> name_eqb w qname = false ->
   nsec_covers w (n_next_domain_name n) qname = true -> prove_nxdomain qname zone d = Ok Proven) /\
  (d_nsec d = [] -> nsec3_matching d qname = Ok None -> closest_encloser qname d = Ok (Some (ce, nc)) ->
   nsec3_covering d nc = Ok None ->
   nsec3_matching d (prepend_wildcard ce) = Ok (Some (o, n3)) -> mem_Z qtype (n3_type_bit_maps n3) = false ->
   prove_nodata qname qtype zone d = Ok Proven).
Proof.
  split.
  - intros Hd Hw Hq Hc. unfold prove_nxdomain, nsec_covers_name. rewrite Hd. simpl.
    by rewrite Hq, Hc, Hw, andb_false_r.
  - intros Hd Hm He Hc Hw Ht. unfold prove_nodata. rewrite Hd, Hm. destruct (d_nsec3 d) eqn:E.
    + unfold nsec3_matching in Hw. by rewrite E in Hw.
    + simpl. rewrite He. simpl. rewrite Hw. simpl. by rewrite Ht.
Qed.

End Truthful.

End Validate.

(** * Base32hex keeps the order of digests *)

(** Byte strings in lexicographic order. *)
Fixpoint bytes_compare (a b : list Z) : comparison :=
  match a, b with
  | [], [] => Eq
  | [], _ :: _ => Lt
  | _ :: _, [] => Gt
  | x :: a', y :: b' => match x ?= y with Eq => bytes_compare a' b' | c => c end
  end.

Definition then_compare (c d : comparison) : comparison := match c with Eq => d | _ => c end.

Lemma base32hex_char_compare d e :
  is_u 5 d -> is_u 5 e -> Ascii.compare (base32hex_char d) (base32hex_char e) = (d ?= e).
Proof.
  unfold is_u. change (2 ^ 5) with 32. intros Hd He.
  assert (forall x, 0 <= x < 32 ->
    N_of_ascii (base32hex_char x) = Z.to_N (if x <? 10 then 48 + x else 55 + x)) as Hn.
  { intros x Hx. unfold base32hex_char.
    destruct (x <? 10) eqn:E; bool_hyps; unfold ascii_of_nat; rewrite N_ascii_embedding; lia. }
  unfold Ascii.compare. rewrite !Hn by done.
  destruct (d <? 10) eqn:E1, (e <? 10) eqn:E2; bool_hyps; rewrite <- N2Z.inj_compare, !Z2N.id by lia;
    destruct (Z.compare_spec d e); [rewrite Z.compare_eq_iff|rewrite Z.compare_lt_iff|rewrite Z.compare_gt_iff|..]; try lia;
    try (rewrite Z.compare_eq_iff; lia); try (rewrite Z.compare_lt_iff; lia); try (rewrite Z.compare_gt_iff; lia).
Qed.

Lemma string_app_compare a b x y :
  String.length a = String.length b ->
  String.compare (a +:+ x) (b +:+ y) = then_compare (String.compare a b) (String.compare x y).
Proof.
  revert b. induction a as [|c a IH]; intros [|d b] H; try done. simpl.
  destruct (Ascii.compare c d); [|done|done]. apply IH. by injection H.
Qed.

Lemma chunk_chars_length v i n : String.length (chunk_chars v i n) = n.
Proof. revert i. induction n as [|n IH]; intros i; simpl; [done|]. by rewrite IH. Qed.

Lemma digit_div v s : 0 <= s -> Z.land (Z.shiftr v s) 31 = (v / 2 ^ s) mod 32.
Proof.
  intros Hs. rewrite Z.shiftr_div_pow2 by done. change 31 with (Z.ones 5).
  by rewrite Z.land_ones.
Qed.

(** The top digits of two numbers that agree above them, compared. *)
Lemma chunk_chars_compare v w i n :
  (i + n <= 8)%nat -> v / 2 ^ (40 - 5 * Z.of_nat i) = w / 2 ^ (40 - 5 * Z.of_nat i) ->
  String.compare (chunk_chars v i n) (chunk_chars w i n) =
  (v / 2 ^ (40 - 5 * Z.of_nat (i + n)) ?= w / 2 ^ (40 - 5 * Z.of_nat (i + n))).
Proof.
  revert i. induction n as [|n IH]; intros i Hi Heq.
  - simpl. rewrite Nat.add_0_r, Heq. by rewrite Z.compare_refl.
  - simpl chunk_chars. simpl String.compare.
    set (s := 35 - 5 * Z.of_nat i) in *.
    assert (0 <= s) as Hs by lia.
    rewrite !digit_div by done.
    rewrite base32hex_char_compare by (apply Z.mod_pos_bound; lia).
    replace (40 - 5 * Z.of_nat i) with (s + 5) in Heq by lia.
    rewrite Z.pow_add_r in Heq by lia. change (2 ^ 5) with 32 in Heq.
    rewrite <- !Z.div_div in Heq by lia.
    pose proof (Z.div_mod (v / 2 ^ s) 32 ltac:(lia)) as Hv.
    pose proof (Z.div_mod (w / 2 ^ s) 32 ltac:(lia)) as Hw.
    replace (i + S n)%nat with (S i + n)%nat by lia.
    destruct (Z.compare_spec ((v / 2 ^ s) mod 32) ((w / 2 ^ s) mod 32)) as [E|E|E].
    + apply IH; [lia|]. replace (40 - 5 * Z.of_nat (S i)) with s by lia. lia.
    + symmetry. apply Z.compare_lt_iff. assert (v / 2 ^ s < w / 2 ^ s) as Hlt by lia.
      set (u := 40 - 5 * Z.of_nat (S i + n)). assert (0 <= u <= s) as Hu by lia.
      replace s with (u + (s - u)) in Hlt by lia. rewrite Z.pow_add_r, <- !Z.div_div in Hlt by lia.
      apply Z.nle_gt. intros Hle. apply (Z.div_le_mono _ _ (2 ^ (s - u))) in Hle; lia.
    + symmetry. apply Z.compare_gt_iff. assert (w / 2 ^ s < v / 2 ^ s) as Hlt by lia.
      set (u := 40 - 5 * Z.of_nat (S i + n)). assert (0 <= u <= s) as Hu by lia.
      replace s with (u + (s - u)) in Hlt by lia. rewrite Z.pow_add_r, <- !Z.div_div in Hlt by lia.
      apply Z.nle_gt. intros Hle. apply (Z.div_le_mono _ _ (2 ^ (s - u))) in Hle; lia.
Qed.

Lemma chunk_bits_value b0 b1 b2 b3 b4 :
  Forall (is_u 8) [b0; b1; b2; b3; b4] ->
  chunk_bits b0 b1 b2 b3 b4 = (((b0 * 256 + b1) * 256 + b2) * 256 + b3) * 256 + b4.
Proof.
  intros H. decompose_Forall_hyps. unfold is_u in *. change (2 ^ 8) with 256 in *.
  unfold chunk_bits. rewrite !Z.shiftl_mul_pow2 by lia.
  replace (b0 * 2 ^ 32) with (b0 * 2 ^ 8 * 2 ^ 24) by lia.
  replace (b1 * 2 ^ 24) with (b1 * 2 ^ 24) by lia.
  replace (Z.lor (b0 * 2 ^ 8 * 2 ^ 24) (b1 * 2 ^ 24)) with ((b0 * 256 + b1) * 2 ^ 24).
  2:{ rewrite <- !(Z.shiftl_mul_pow2 _ 24), <- Z.shiftl_lor by lia. rewrite lor_low by lia. done. }
  replace ((b0 * 256 + b1) * 2 ^ 24) with ((b0 * 256 + b1) * 2 ^ 8 * 2 ^ 16) by lia.
  replace (Z.lor ((b0 * 256 + b1) * 2 ^ 8 * 2 ^ 16) (b2 * 2 ^ 16)) with (((b0 * 256 + b1) * 256 + b2) * 2 ^ 16).
  2:{ rewrite <- !(Z.shiftl_mul_pow2 _ 16), <- Z.shiftl_lor by lia. rewrite lor_low by lia. done. }
  replace (((b0 * 256 + b1) * 256 + b2) * 2 ^ 16) with (((b0 * 256 + b1) * 256 + b2) * 2 ^ 8 * 2 ^ 8) by lia.
  rewrite <- !(Z.shiftl_mul_pow2 (((b0 * 256 + b1) * 256 + b2) * 2 ^ 8) 8) by lia.
  rewrite <- (Z.shiftl_mul_pow2 b3 8), <- Z.shiftl_lor by lia.
  rewrite lor_low, Z.shiftl_mul_pow2, lor_low by lia. lia.
Qed.

Lemma digit_compare a b x y :
  is_u 8 x -> is_u 8 y -> (a * 256 + x ?= b * 256 + y) = then_compare (a ?= b) (x ?= y).
Proof.
  unfold is_u. intros Hx Hy. destruct (Z.compare_spec a b) as [->|H|H]; simpl.
  - by rewrite Z.add_compare_mono_l.
  - apply Z.compare_lt_iff. lia.
  - apply Z.compare_gt_iff. lia.
Qed.

(** One chunk, padded with zeros: the characters written compare as the bytes do. *)
Lemma chunk_order b0 b1 b2 b3 b4 c0 c1 c2 c3 c4 n z :
  Forall (is_u 8) [b0; b1; b2; b3; b4] -> Forall (is_u 8) [c0; c1; c2; c3; c4] ->
  (n <= 8)%nat ->
  (z | chunk_bits b0 b1 b2 b3 b4) -> (z | chunk_bits c0 c1 c2 c3 c4) -> z = 2 ^ (40 - 5 * Z.of_nat n) ->
  String.compare (chunk_chars (chunk_bits b0 b1 b2 b3 b4) 0 n) (chunk_chars (chunk_bits c0 c1 c2 c3 c4) 0 n) =
  bytes_compare [b0; b1; b2; b3; b4] [c0; c1; c2; c3; c4].
Proof.
  intros Hb Hc Hn [v Hv] [w Hw] ->. set (s := 40 - 5 * Z.of_nat n) in *.
  pose proof (chunk_bits_value _ _ _ _ _ Hb) as Eb. pose proof (chunk_bits_value _ _ _ _ _ Hc) as Ec.
  decompose_Forall_hyps. unfold is_u in *. change (2 ^ 8) with 256 in *.
  rewrite chunk_chars_compare; [|lia|].
  2:{ rewrite !Z.div_small; [done| |]; change (2 ^ (40 - 5 * Z.of_nat 0)) with 1099511627776; lia. }
  rewrite Nat.add_0_l. fold s. rewrite Hv, Hw, !Z.div_mul by (apply Z.pow_nonzero; lia).
  rewrite (Zmult_compare_compat_r v w (2 ^ s)) by (apply Z.lt_gt, Z.pow_pos_nonneg; lia).
  rewrite <- Hv, <- Hw, Eb, Ec. rewrite !digit_compare by (unfold is_u; change (2 ^ 8) with 256; lia).
  simpl. destruct (b0 ?= c0); simpl; [|done|done]. destruct (b1 ?= c1); simpl; [|done|done].
  destruct (b2 ?= c2); simpl; [|done|done]. destruct (b3 ?= c3); simpl; [|done|done].
  by destruct (b4 ?= c4).
Qed.

Lemma bytes_compare_app a b x y :
  length a = length b -> bytes_compare (a ++ x) (b ++ y) = then_compare (bytes_compare a b) (bytes_compare x y).
Proof.
  revert b. induction a as [|c a IH]; intros [|d b] H; try done. simpl.
  destruct (c ?= d); [|done|done]. apply IH. by injection H.
Qed.

Lemma byte_zero : is_u 8 0. Proof. by unfold is_u. Qed.

Lemma chunk_divides b0 b1 b2 b3 b4 m k :
  Forall (is_u 8) [b0; b1; b2; b3; b4] ->
  (((b0 * 256 + b1) * 256 + b2) * 256 + b3) * 256 + b4 = k * m -> (m | chunk_bits b0 b1 b2 b3 b4).
Proof. intros H E. exists k. by rewrite chunk_bits_value. Qed.

(** A chunk of five bytes, of which the last ones are padding. *)
Ltac short_chunk m :=
  rewrite (chunk_order _ _ _ _ _ _ _ _ _ _ _ m);
  [|by repeat apply Forall_cons_2|by repeat apply Forall_cons_2|lia
   |eapply (chunk_divides _ _ _ _ _ m); [by repeat apply Forall_cons_2|..]
   |eapply (chunk_divides _ _ _ _ _ m); [by repeat apply Forall_cons_2|..]
   |reflexivity].

Lemma base32hex_compare a b :
  Forall (is_u 8) a -> Forall (is_u 8) b -> length a = length b ->
  String.compare (base32hex a) (base32hex b) = bytes_compare a b.
Proof.
  remember (length a) as n eqn:Hn. revert a b Hn.
  induction (lt_wf n) as [n _ IH]. intros a b -> Ha Hb Hl. pose proof byte_zero as H0.
  destruct a as [|a0 [|a1 [|a2 [|a3 [|a4 a]]]]], b as [|b0 [|b1 [|b2 [|b3 [|b4 b]]]]]; try discriminate Hl;
    rewrite ?Forall_cons in Ha; rewrite ?Forall_cons in Hb; destruct_and?; cbn [base32hex].
  - done.
  - short_chunk (2 ^ 30).
    + simpl. by destruct (_ ?= _).
    + instantiate (1 := a0 * 4). lia.
    + instantiate (1 := b0 * 4). lia.
  - short_chunk (2 ^ 20).
    + simpl. by repeat destruct (_ ?= _).
    + instantiate (1 := (a0 * 256 + a1) * 16). lia.
    + instantiate (1 := (b0 * 256 + b1) * 16). lia.
  - short_chunk (2 ^ 15).
    + simpl. by repeat destruct (_ ?= _).
    + instantiate (1 := ((a0 * 256 + a1) * 256 + a2) * 2). lia.
    + instantiate (1 := ((b0 * 256 + b1) * 256 + b2) * 2). lia.
  - short_chunk (2 ^ 5).
    + simpl. by repeat destruct (_ ?= _).
    + instantiate (1 := (((a0 * 256 + a1) * 256 + a2) * 256 + a3) * 8). lia.
    + instantiate (1 := (((b0 * 256 + b1) * 256 + b2) * 256 + b3) * 8). lia.
  - rewrite string_app_compare by (by rewrite !chunk_chars_length).
    change (a0 :: a1 :: a2 :: a3 :: a4 :: a) with ([a0; a1; a2; a3; a4] ++ a).
    change (b0 :: b1 :: b2 :: b3 :: b4 :: b) with ([b0; b1; b2; b3; b4] ++ b).
    rewrite bytes_compare_app by done. f_equal.
    + short_chunk (2 ^ 0); [done|..]; rewrite Z.mul_1_r; reflexivity.
    + apply (IH (length a)); simpl in *; [lia|done|done|done|lia].
Qed.

Lemma bytes_compare_eq a b : bytes_compare a b = Eq -> a = b.
Proof.
  revert b. induction a as [|x a IH]; intros [|y b]; simpl; try done.
  destruct (Z.compare_spec x y) as [->|?|?]; try done. intros H. by rewrite (IH b).
Qed.

(** * Serial numbers *)

Lemma as_u_32 z : as_u 32 z = z mod 4294967296. Proof. done. Qed.

(** Validity windows are the ones of RFC 1982. Serial order never holds both
    ways; on times less than half the space apart it is the order of the integers,
    and around the wrap of 2106 a signature is inside its window, neither early nor
    expired, exactly when the time since inception, modulo 2^32, does not exceed the
    window's length. *)
Theorem validity_window_wraps a b inc exp now :
  is_u 32 a -> is_u 32 b -> is_u 32 inc -> is_u 32 exp -> is_u 32 now ->
  0 < as_u 32 (exp - inc) < 2147483648 ->
  (serial_lt a b = true -> serial_lt b a = false) /\
  (Z.abs (a - b) < 2147483648 -> serial_lt a b = (a <? b)) /\
  (serial_lt now inc = false /\ serial_lt exp now = false <->
   as_u 32 (now - inc) <= as_u 32 (exp - inc)).
Proof.
  unfold is_u, serial_lt. rewrite !as_u_32. change (2 ^ 32) with 4294967296.
  intros Ha Hb Hi He Hn Hw.
  assert (forall x y, 0 <= x < 4294967296 -> 0 <= y < 4294967296 ->
    (x - y) mod 4294967296 = if y <=? x then x - y else x - y + 4294967296) as Hm.
  { intros x y Hx Hy. destruct (y <=? x) eqn:E; bool_hyps; [apply Z.mod_small; lia|].
    rewrite <- (Z.mod_add _ 1) by lia. apply Z.mod_small. lia. }
  rewrite !Hm in * by done. repeat split.
  - intros H. bool_hyps. apply andb_false_iff. right. apply Z.ltb_ge. repeat case_match; bool_hyps; lia.
  - intros H. apply eq_true_iff_eq. rewrite andb_true_iff, negb_true_iff, Z.eqb_neq, !Z.ltb_lt.
    repeat case_match; bool_hyps; lia.
  - intros [H1 H2]. bool_hyps; repeat case_match; bool_hyps; lia.
  - apply andb_false_iff. rewrite negb_false_iff, Z.eqb_eq, Z.ltb_ge. repeat case_match; bool_hyps; lia.
  - apply andb_false_iff. rewrite negb_false_iff, Z.eqb_eq, Z.ltb_ge. repeat case_match; bool_hyps; lia.
Qed.

Lemma validity_window_wraps_witness :
  serial_lt 4294967290 20 = true /\ serial_lt 20 4294967290 = false.
Proof.
  split; [reflexivity|].
  destruct (validity_window_wraps 4294967290 20 4294967000 100 20) as (H & _ & _);
    [unfold is_u; lia..|vm_compute; split; reflexivity|]. apply H. reflexivity.
Defined.

(** Comparing encoded hashes is comparing digests. On digests of one length,
    base32hex keeps the byte order and loses nothing, so that the gap of an NSEC3
    record, tested on encoded text, is the gap on the digests themselves. *)
Theorem base32hex_keeps_order owner next target :
  Forall (is_u 8) owner -> Forall (is_u 8) next -> Forall (is_u 8) target ->
  length owner = length next -> length owner = length target ->
  String.compare (base32hex owner) (base32hex target) = bytes_compare owner target /\
  (base32hex owner = base32hex target -> owner = target) /\
  hash_covers (base32hex owner) (base32hex next) (base32hex target) =
    let lt a b := match bytes_compare a b with Lt => true | _ => false end in
    if lt owner next then lt owner target && lt target next else lt owner target || lt target next.
Proof.
  intros Ho Hn Ht Hl Hl'. pose proof (base32hex_compare owner target Ho Ht Hl') as Hot.
  split; [done|]. split.
  - intros E. rewrite E, string_compare_refl in Hot. by apply bytes_compare_eq.
  - unfold hash_covers, String.ltb. rewrite Hot, (base32hex_compare owner next Ho Hn Hl).
    by rewrite (base32hex_compare target next Ht Hn) by congruence.
Qed.

Lemma base32hex_keeps_order_witness :
  hash_covers (base32hex [1; 255]) (base32hex [3; 0]) (base32hex [2; 7]) = true /\
  hash_covers (base32hex [9; 255]) (base32hex [3; 0]) (base32hex [2; 7]) = true.
Proof.
  assert (forall x, In x [1; 255; 3; 0; 2; 7; 9] -> is_u 8 x) as H.
  { intros x Hx. unfold is_u. simpl in Hx. lia. }
  assert (Forall (is_u 8) [1; 255] /\ Forall (is_u 8) [3; 0] /\ Forall (is_u 8) [2; 7] /\
    Forall (is_u 8) [9; 255]) as (H1 & H2 & H3 & H4).
  { repeat split; repeat (apply Forall_cons_2; [apply H; simpl; tauto|]); apply Forall_nil_2. }
  split.
  - rewrite (proj2 (proj2 (base32hex_keeps_order _ _ _ H1 H2 H3 eq_refl eq_refl))). reflexivity.
  - rewrite (proj2 (proj2 (base32hex_keeps_order _ _ _ H4 H2 H3 eq_refl eq_refl))). reflexivity.
Defined.

(** * Sample instances *)

#[export] Instance label_list_wire : WireName (list string) := {
  from_ascii s :=
    let t := trim_end_matches "." s in Some (if (t =? "")%string then [] else split_on "." t);
  name_to_string := fqdn;
  name_iter ls := ls;
}.

(** Keys sign with their own bytes and the number of records; names hash to the sum
    of their octets. *)
#[export] Instance toy_crypto : DnssecCrypto (list string) (WireRecord (list string) (SvcbData (list string))) := {
  alg_supported a := a =? 13;
  calculate_key_tag k := Some (as_u 16 (foldl Z.add 0 (k_public_key k)));
  lib_verify_rrsig k owner sig rrset :=
    bool_decide (g_signature sig = k_public_key k ++ [Z.of_nat (length rrset)]);
  ds_covers d zone k := Some (bool_decide (d_digest d = k_public_key k));
  nsec3_hash alg salt name it := Some [as_u 8 (foldl Z.add 0 (str_bytes (to_lowercase (fqdn name))))];
}.

Definition toy_key : DnskeyData := mkDnskey true false 13 [7; 9].

Definition toy_record (owner : list string) (data : RData (list string) (SvcbData (list string)))
  : WireRecord (list string) (SvcbData (list string)) := mkWire owner 300 data.

Definition toy_sig (owner signer : list string) (covered n : Z) : WireRecord (list string) (SvcbData (list string)) :=
  toy_record owner (RD_DNSSEC (DD_RRSIG
    (mkRrsig covered 13 (num_labels owner) 2000 1000 16 signer [7; 9; n]))).

Lemma signature_accepted_iff_witness :
  let owner := ["www"; "Example"; "com"] in
  is_ok (verify_rrset owner 1 [toy_record owner (RD_A 1)] [toy_sig owner ["example"; "com"] 1 1]
           [toy_key] ["example"; "com"] 1500).
Proof.
  intros owner. apply (proj2 (signature_accepted_iff _ _ _ _ _ _ _)). split; [done|].
  exists (toy_sig owner ["example"; "com"] 1 1). eexists. exists toy_key.
  repeat (split; [first [reflexivity|by left|vm_compute; discriminate]|]). reflexivity.
Defined.

Definition toy_dnskey_set (zone : list string) : list (WireRecord (list string) (SvcbData (list string))) :=
  [toy_record zone (RD_DNSSEC (DD_DNSKEY toy_key)); toy_sig zone zone T_DNSKEY 1].

Lemma dnskey_set_needs_anchor_witness :
  validate_dnskey_rrset [] (toy_dnskey_set []) (toy_dnskey_set []) (FromAnchors [([7; 9], 13)]) 1500
    = Ok [toy_key].
Proof.
  apply (proj2 (dnskey_set_needs_anchor _ _ _ _ _ _)). split; [reflexivity|].
  exists (toy_sig [] [] T_DNSKEY 1). eexists. exists toy_key.
  repeat (split; [first [reflexivity|by left|by right; left|vm_compute; discriminate]|]). reflexivity.
Defined.

(** A zone with an apex, a wildcard and a host. *)
Definition star_zone : list (list string * list Z) :=
  [(["example"; "com"], [T_SOA; T_NS]); (["*"; "example"; "com"], [1]); (["z"; "example"; "com"], [1])].

Definition in_zone (zone : list (list string * list Z)) (n : list string) : bool :=
  existsb (fun e => name_eqb (fst e) n) zone.

Definition zone_types (zone : list (list string * list Z)) (n : list string) : list Z :=
  match find (fun e => name_eqb (fst e) n) zone with Some (_, ts) => ts | None => [] end.

Definition nsec_rec (owner next : list string) (types : list Z) : list string * NsecData (list string) :=
  (owner, mkNsec next types).

Lemma in_zone_elem zone x : in_zone zone x = true -> exists e ts, (e, ts) ∈ zone /\ name_eqb e x = true.
Proof. intros ([e ts] & Hin & H)%existsb_exists. exists e, ts. by rewrite list_elem_of_In. Qed.

Lemma zone_types_eq zone o x :
  folded_labels o = folded_labels x -> zone_types zone o = zone_types zone x.
Proof.
  intros H. unfold zone_types.
  assert (forall e, name_eqb e o = name_eqb e x) as He.
  2:{ induction zone as [|[e ts] l IH]; [done|]. cbn [find fst]. rewrite He.
      by destruct (name_eqb e x). }
  intros e. apply eq_true_iff_eq. rewrite !name_eqb_labels. by rewrite H.
Qed.

(** The records of a chain over a zone are truthful when no name of it sorts into a
    gap: a finite check. *)
Lemma truthful_chain zone nsec :
  forallb (fun r => forallb (fun e => negb (nsec_covers (fst r) (n_next_domain_name (snd r)) (fst e))) zone &&
                    bool_decide (n_type_bit_maps (snd r) = zone_types zone (fst r))) nsec = true ->
  truthful (Svcb := SvcbData (list string)) (in_zone zone) (zone_types zone) (mkDenial nsec []).
Proof.
  intros H. rewrite forallb_forall in H. unfold truthful. simpl. repeat split.
  - intros o n x Hin (e & ts & He & Hex)%in_zone_elem. apply list_elem_of_In in Hin.
    specialize (H _ Hin). apply andb_true_iff in H as [H _]. rewrite forallb_forall in H.
    apply list_elem_of_In in He. specialize (H (e, ts) He). apply negb_true_iff in H. cbn [fst snd] in H.
    unfold nsec_covers in *. rewrite <- (name_ltb_eq_r e x o Hex).
    rewrite <- (name_ltb_eq_l e x (n_next_domain_name n) Hex). exact H.
  - intros o n x Hin Hox. apply list_elem_of_In in Hin. specialize (H _ Hin). apply andb_true_iff in H as [_ H].
    apply bool_decide_eq_true in H. cbn [fst snd] in H. rewrite H. by apply zone_types_eq, name_eqb_labels.
  - intros o n oh x h Hin. by apply elem_of_nil in Hin.
  - intros o n oh x h Hin. by apply elem_of_nil in Hin.
Qed.

Definition star_chain : list (list string * NsecData (list string)) :=
  [nsec_rec ["example"; "com"] ["*"; "example"; "com"] [T_SOA; T_NS];
   nsec_rec ["*"; "example"; "com"] ["z"; "example"; "com"] [1];
   nsec_rec ["z"; "example"; "com"] ["example"; "com"] [1]].

Definition star_denial : Denial := mkDenial star_chain [].

Lemma denial_proofs_sound_witness :
  prove_nxdomain (Svcb := SvcbData (list string)) ["a"; "b"; "example"; "com"] ["example"; "com"] star_denial = Ok Proven /\
  in_zone star_zone ["a"; "b"; "example"; "com"] = false.
Proof.
  assert (prove_nxdomain (Svcb := SvcbData (list string)) ["a"; "b"; "example"; "com"] ["example"; "com"] star_denial = Ok Proven)
    as E by (vm_compute; reflexivity).
  split; [exact E|].
  refine (proj1 (denial_proofs_sound (in_zone star_zone) (zone_types star_zone) star_denial
    ["a"; "b"; "example"; "com"] 1 ["example"; "com"] ["example"; "com"] _ _) E).
  - apply truthful_chain. vm_compute. reflexivity.
  - intros nc _ H. vm_compute in H. discriminate H.
Defined.

(** The wildcard's own record denies the name the wildcard answers for. *)
Lemma wildcard_denials_forgeable_witness :
  in_zone star_zone ["*"; "example"; "com"] = true /\
  prove_nxdomain (Svcb := SvcbData (list string)) ["a"; "example"; "com"] ["example"; "com"]
    (mkDenial [nsec_rec ["*"; "example"; "com"] ["z"; "example"; "com"] [1]] []) = Ok Proven.
Proof.
  split; [vm_compute; reflexivity|].
  apply (proj1 (wildcard_denials_forgeable (Svcb := SvcbData (list string)) (mkDenial [nsec_rec ["*"; "example"; "com"] ["z"; "example"; "com"] [1]] [])
    ["a"; "example"; "com"] 1 ["example"; "com"] ["*"; "example"; "com"]
    (mkNsec ["z"; "example"; "com"] [1]) [] [] [] (mkNsec3 1 false 0 [] [] []))); vm_compute; reflexivity.
Defined.

Lemma accepted_anchors_usable_witness :
  let a := [(repeat 16 64, 13)] in
  @from_dnskey_strings _ _ toy_crypto hex_codec ["257 3 13 " +:+ hex_encode (repeat 16 64)] = Ok a /\
  a <> [] /\ Forall (@anchor_usable _ _ toy_crypto) a.
Proof.
  intros a.
  assert (@from_dnskey_strings _ _ toy_crypto hex_codec ["257 3 13 " +:+ hex_encode (repeat 16 64)] = Ok a)
    as E by (vm_compute; reflexivity).
  split; [exact E|]. exact (@accepted_anchors_usable _ _ toy_crypto hex_codec _ _ E).
Defined.
