(* ===== verification/Negative.v ===== *)
(** Authoritative answers that are not data ([src/src/dns_server.rs]): which
    negative a name is owed in which namespace, the SOA and the denial proof that
    go with it, the signatures beside positive answers, and DNAME synthesis. *)

From S2P Require Import Prelude RustStr Names Ip Records Rrsig Sql ZoneStore Scopes Database.
From S2P Require Import Tiers Nsec Rdata Svcb Message.
From stdpp Require Import base gmap sets list option strings.
From Stdlib Require Import ZArith Lia Bool Ascii.

Open Scope Z_scope.
Local Open Scope rolodex_scope.

(** The libraries the server is linked with; [rcode_from] is [ResponseCode::from],
    which joins the extended and the header part of a response code. *)
Class DnsLib := {
  Name : Type;
  lib_names :: WireName Name;
  lib_codec :: WireCodec Name (SvcbData Name);
  lib_base64 :: Base64;
  lib_hex :: Hex;
  lib_iter :: MapIter;
  root_name : Name;
  from_utf8 : string -> option Name;
  svcb_emit : SvcbData Name -> option (list Z);
  rcode_from : Z -> Z -> Z;
}.

Abbreviation Svcb := (SvcbData Name).

(** The parser of [src/src/svcb.rs] over the library's names. *)
Definition svcb_parse {L : DnsLib} (value : string) : option Svcb :=
  match Svcb.svcb_parse root_name from_utf8 value with Ok r => Some r | Err _ => None end.

Definition svcb_canonical_rdata {L : DnsLib} : string -> option (list Z) := svcb_rdata root_name from_utf8 svcb_emit.

(** [AnswerSource] of [src/src/metrics.rs]: the stage that answered. *)
Inductive AnswerSource :=
  SrcLocal | SrcScoped | SrcScopeFallback | SrcTldPeer | SrcCache | SrcUpstream
| SrcAuthoritativeNxdomain | SrcAuthoritativeNodata | SrcReverseBlocklist | SrcBlocklist
| SrcRefused | SrcDns64 | SrcError.

Inductive Presence := Real | Wildcard (owner : string) | Absent.

Definition exists_name (p : Presence) : bool := match p with Absent => false | _ => true end.

Inductive Namespace := Global | Scope (scope : string) | LanFallback (scope : string).

Section Answers.
Context {L : DnsLib}.

Abbreviation WireRecord := (WireRecord Name Svcb).
Abbreviation Message := (Message Name Svcb).

Definition to_wire (rs : list DnsRecord) : list WireRecord :=
  to_dns_records svcb_parse svcb_canonical_rdata rs.

Definition wants_dnssec (edns : option EdnsContext) : bool :=
  match edns with Some e => dnssec_ok e | None => false end.

Definition answer_signatures (db : Database) (qname : string) (kind : RecordKind)
    (edns : option EdnsContext) : list WireRecord :=
  if negb (wants_dnssec edns) then []
  else match find_signed_zone (signing (zones db)) qname with
       | None => []
       | Some _ =>
           if zone_signatures_stale (signing (zones db)) qname then []
           else to_wire (rrsigs_covering (zones db) qname kind)
       end.

Definition negative_soa (db : Database) (qname : string) (ns : Namespace) : list WireRecord :=
  let global := closest_soa (zones db) qname in
  let scoped scope := closest_scoped_soa (scopes db) scope qname in
  to_wire (match ns with
           | Global => global
           | Scope scope => scoped scope
           | LanFallback scope => match scoped scope with [] => global | found => found end
           end).

(** [closest_encloser]: each round shortens [rest], so its length is fuel enough. *)
Fixpoint encloser_loop (fuel : nat) (s : ZoneStore) (apex rest : string) : string :=
  match fuel with
  | O => apex
  | S f =>
      match split_once "." rest with
      | None => apex
      | Some (_, parent) =>
          if (parent =? "")%string then apex
          else
            let candidate := parent +:+ "." in
            if negb (name_in_zone candidate apex) then apex
            else if name_occupied s candidate then candidate
            else encloser_loop f s apex parent
      end
  end.

Definition closest_encloser (s : ZoneStore) (qname zone : string) : string :=
  let apex := normalize_name zone in
  let rest := trim_end_matches "." (normalize_name qname) in
  encloser_loop (String.length rest) s apex rest.

(** The first link of the chain that covers a name. *)
Definition covering (chain : list DnsRecord) (name : string) : option string :=
  r_name <$> List.find (fun r =>
    match nsec_parse (r_value r) with
    | Ok nsec => nsec_covers (r_name r) (next_owner nsec) name
    | Err _ => false
    end) chain.

Definition chained (chain : list DnsRecord) (name : string) : bool :=
  existsb (fun r => (r_name r =? name)%string) chain.

(** The owners whose NSEC records make up the proof; [None] when it cannot be
    completed. *)
Definition required_owners (s : ZoneStore) (zone qname : string) (presence : Presence)
    (chain : list DnsRecord) : option (list string) :=
  let normalized := normalize_name qname in
  match presence with
  | Real =>
      if chained chain normalized then Some [normalized]
      else (fun c => [c]) <$> covering chain normalized
  | Wildcard owner => (fun closer => [owner; closer]) <$> covering chain normalized
  | Absent =>
      let wildcard := "*." +:+ closest_encloser s qname zone in
      if chained chain wildcard then None
      else match covering chain normalized, covering chain wildcard with
           | Some a, Some b => Some [a; b]
           | _, _ => None
           end
  end.

Definition push_unseen (seen : list string) (o : string) : list string :=
  if existsb (String.eqb o) seen then seen else seen ++ [o].

(** The NSEC of each owner with its signatures, or nothing. *)
Fixpoint proof_records (db : Database) (edns : option EdnsContext) (owners : list string)
    (out : list WireRecord) : list WireRecord :=
  match owners with
  | [] => out
  | owner :: rest =>
      let nsec := lookup_no_wildcard (zones db) owner (Some NSEC) in
      let sigs := answer_signatures db owner NSEC edns in
      match nsec, sigs with
      | [], _ | _, [] => []
      | _, _ => proof_records db edns rest (out ++ to_wire nsec ++ sigs)
      end
  end.

Definition denial_proof (db : Database) (qname : string) (presence : Presence)
    (edns : option EdnsContext) : list WireRecord :=
  if negb (wants_dnssec edns) then []
  else match find_signed_zone (signing (zones db)) qname with
       | None => []
       | Some zone =>
           if zone_signatures_stale (signing (zones db)) qname then []
           else
             let chain := zone_nsec_records (zones db) zone in
             match required_owners (zones db) zone qname presence chain with
             | None => []
             | Some owners => proof_records db edns (foldl push_unseen [] (dedup owners)) []
             end
       end.

Definition presence_of (db : Database) (qname : string) (ns : Namespace) : Presence :=
  let or_absent w := match w with Some owner => Wildcard owner | None => Absent end in
  let global_occupied := name_occupied (zones db) qname in
  let global_wildcard := wildcard_owner_for (zones db) qname in
  match ns with
  | Global => if global_occupied then Real else or_absent global_wildcard
  | Scope scope =>
      if scoped_name_occupied (scopes db) scope qname then Real
      else or_absent (scoped_wildcard_owner_for (scopes db) scope qname)
  | LanFallback scope =>
      if scoped_name_occupied (scopes db) scope qname || global_occupied then Real
      else or_absent (match scoped_wildcard_owner_for (scopes db) scope qname with
                      | Some owner => Some owner
                      | None => global_wildcard
                      end)
  end.

(** The message of a negative, and the source it is attributed to. *)
Definition negative_message (db : Database) (message : Message) (qname : string) (ns : Namespace)
    (edns : option EdnsContext) : AnswerSource * Message :=
  let presence := presence_of db qname ns in
  let occupied := exists_name presence in
  let (rcode, source) := if occupied then (NoError, SrcAuthoritativeNodata)
                         else (NXDomain, SrcAuthoritativeNxdomain) in
  let soa := negative_soa db qname ns in
  let authority :=
    match ns, find_signed_zone (signing (zones db)) qname with
    | Global, Some zone_apex =>
        let soa_owner := match soa with r :: _ => name_to_string (w_name r) | [] => zone_apex end in
        soa ++ answer_signatures db soa_owner SOA edns ++ denial_proof db qname presence edns
    | _, _ => soa
    end in
  (source, response_edns_auth message rcode [] authority true edns).

Definition authoritative_negative (db : Database) (message : Message) (qname : string)
    (ns : Namespace) (edns : option EdnsContext) : AnswerSource * list Z :=
  let (source, m) := negative_message db message qname ns edns in (source, encode_message m).

(** ** DNAME *)

(** [check_dname_global] and [check_dname_scoped] walk the parents of the name in
    the same way over their own lookup. *)
Fixpoint dname_walk (lookup_dname : string -> list DnsRecord) (normalized : string)
    (before after : list string) : option (list DnsRecord) :=
  match after with
  | [] => None
  | part :: rest =>
      match rest with
      | [] => None
      | _ =>
          let before := before ++ [part] in
          let parent := str_join "." rest +:+ "." in
          match lookup_dname parent with
          | [] => dname_walk lookup_dname normalized before rest
          | dname :: _ =>
              let synth_target := str_join "." before +:+ "." +:+ trim_end_matches "." (r_value dname) in
              Some [dname; mkRecord None normalized CNAME (normalize_name synth_target) (r_ttl dname) 0]
          end
      end
  end.

Definition check_dname (lookup_dname : string -> list DnsRecord) (qname : string) (message : Message)
  : option (list Z) :=
  let normalized := normalize_name qname in
  rs ← dname_walk lookup_dname normalized [] (split_on "." (trim_end_matches "." normalized));
  Some (build_response_ex message NoError (to_wire rs) true).

Definition check_dname_global (db : Database) : string -> Message -> option (list Z) :=
  check_dname (fun parent => ZoneStore.lookup (zones db) parent (Some DNAME)).

Definition check_dname_scoped (db : Database) (scope : string) : string -> Message -> option (list Z) :=
  check_dname (fun parent => lookup_scoped (scopes db) scope parent (Some DNAME)).

(** * Lemmas *)

Lemma wildcard_normal n w : make_wildcard_name (normalize_name n) = Some w -> normalize_name w = w.
Proof.
  unfold make_wildcard_name. intros H.
  destruct (split_once "." (trim_end_matches "." (normalize_name n))) as [[l rest]|] eqn:E; [|done].
  assert (w = "*." +:+ rest +:+ ".") as -> by congruence. assert (to_lowercase rest = rest) as Hr.
  { rewrite <- normalize_lower, trim_end_lower in E.
    revert E. generalize (trim_end_matches "." (normalize_name n)). clear. intros t. revert l.
    induction t as [|c t IH]; intros l; [done|]. unfold to_lowercase in *. simpl. rewrite lower_char_dot.
    destruct (Ascii.eqb c "."); [intros [= <- <-]; apply to_lowercase_idem|].
    destruct (split_once "." (str_map lower_char t)) as [[a b]|]; [|done].
    intros [= <- <-]. by eapply IH. }
  unfold normalize_name. rewrite !to_lowercase_app, Hr.
  change (to_lowercase "*.") with "*.". change (to_lowercase ".") with ".". cbn zeta.
  by rewrite <- app_assoc_str, ends_with_char_app.
Qed.

(** A type that has an answer in the global namespace. *)
Definition answers_globally (db : Database) (qname : string) : Prop :=
  exists kind, ZoneStore.lookup (zones db) qname (Some kind) <> [].

Definition answers_in_scope (db : Database) (scope qname : string) : Prop :=
  exists kind, lookup_scoped (scopes db) scope qname (Some kind) <> [].

Lemma lookup_exact_any rows n kind r :
  r ∈ lookup_exact rows n (Some kind) -> r ∈ lookup_exact rows n None /\ r_name r = n.
Proof.
  unfold lookup_exact. rewrite !elem_filter_bool. intros [Hin H]. bool_hyps. subst.
  split; [|done]. split; [done|]. by rewrite String.eqb_refl.
Qed.

Lemma answers_globally_present db qname :
  answers_globally db qname ->
  name_occupied (zones db) qname = true \/ is_Some (wildcard_owner_for (zones db) qname).
Proof.
  intros [kind Hk]. unfold ZoneStore.lookup in Hk. cbn zeta in Hk.
  destruct (lookup_exact _ (normalize_name qname) (Some kind)) as [|r rs] eqn:E.
  - right. unfold wildcard_owner_for. destruct (make_wildcard_name _) as [w|]; [|done].
    destruct (lookup_exact (dns_records (zones db)) w (Some kind)) as [|r rs] eqn:Ew; [done|].
    destruct (lookup_exact_any (dns_records (zones db)) w kind r) as [Hin _]; [rewrite Ew; by left|].
    destruct (lookup_exact (dns_records (zones db)) w None); [by apply elem_of_nil in Hin|by eexists].
  - left. destruct (lookup_exact_any (dns_records (zones db)) (normalize_name qname) kind r) as [Hin Hn];
      [rewrite E; by left|].
    unfold name_occupied, zone_has_records_conn. cbn zeta. apply existsb_exists. exists r.
    unfold lookup_exact in Hin. apply elem_filter_bool in Hin as [Hin _].
    split; [by apply list_elem_of_In|]. by rewrite Hn, String.eqb_refl.
Qed.

Lemma answers_in_scope_present `{ML : !MapIterLaws} db sc qname :
  answers_in_scope db sc qname ->
  scoped_name_occupied (scopes db) sc qname = true \/
  is_Some (scoped_wildcard_owner_for (scopes db) sc qname).
Proof.
  intros [kind Hk]. unfold lookup_scoped in Hk. cbn zeta in Hk.
  assert (forall n, lookup_scoped_exact (scopes db) sc n (Some kind) <> [] ->
    exists rs, scoped_record_cache (scopes db) !! (sc +:+ ":" +:+ n +:+ ":" +:+ as_str kind) = Some rs /\
      rs <> []) as Hcache.
  { intros n. unfold lookup_scoped_exact. simpl. destruct (_ !! _) as [rs|]; [|done]. eauto. }
  assert (forall n, starts_with (sc +:+ ":" +:+ n +:+ ":") (sc +:+ ":" +:+ n +:+ ":" +:+ as_str kind) = true)
    as Hpre.
  { intros n. apply starts_with_spec. exists (as_str kind). by rewrite !app_assoc_str. }
  destruct (lookup_scoped_exact _ sc (normalize_name qname) (Some kind)) as [|r rs] eqn:E.
  - right. unfold scoped_wildcard_owner_for.
    destruct (make_wildcard_name (normalize_name qname)) as [w|] eqn:Ew; [|done].
    unfold lookup_scoped_no_wildcard. rewrite (wildcard_normal qname w) by done.
    destruct (Hcache w) as (rs & Hrs & Hne); [by destruct (lookup_scoped_exact _ sc w (Some kind))|].
    destruct (lookup_scoped_exact (scopes db) sc w None) eqn:En; [|by eexists].
    exfalso. destruct rs as [|r rs]; [done|].
    assert (r ∈ lookup_scoped_exact (scopes db) sc w None) as Hin; [|by rewrite En in Hin; apply elem_of_nil in Hin].
    unfold lookup_scoped_exact. apply list_elem_of_In, in_flat_map.
    exists (sc +:+ ":" +:+ w +:+ ":" +:+ as_str kind, r :: rs). split.
    + apply list_elem_of_In. rewrite map_iter_perm. by apply elem_of_map_to_list.
    + cbn [fst snd]. rewrite Hpre. by left.
  - left. destruct (Hcache (normalize_name qname)) as (rs' & Hrs & _); [by rewrite E|].
    apply scoped_name_occupied_iff. eexists _, _. split; [done|].
    unfold key_occupies. by rewrite Hpre.
Qed.

Lemma negative_rcode db message qname ns edns :
  response_code (negative_message db message qname ns edns).2 =
    if exists_name (presence_of db qname ns) then NoError else NXDomain.
Proof. unfold negative_message. cbn zeta. by destruct (exists_name _). Qed.

Lemma presence_global db qname :
  exists_name (presence_of db qname Global) =
  name_occupied (zones db) qname || bool_decide (is_Some (wildcard_owner_for (zones db) qname)).
Proof.
  unfold presence_of. cbn zeta. destruct (name_occupied _ _); [done|].
  by destruct (wildcard_owner_for _ _).
Qed.

(** The wildcard that covers a name, in the table. *)
Lemma wildcard_owner_rows s qname :
  is_Some (wildcard_owner_for s qname) <->
  exists r w, r ∈ dns_records s /\ make_wildcard_name (normalize_name qname) = Some w /\ r_name r = w.
Proof.
  unfold wildcard_owner_for. destruct (make_wildcard_name _) as [w|]; [|split; [by intros [? ?]|naive_solver]].
  assert (forall r, r ∈ lookup_exact (dns_records s) w None <-> r ∈ dns_records s /\ r_name r = w) as Hx.
  { intros r. unfold lookup_exact. rewrite elem_filter_bool. simpl. rewrite andb_true_r.
    by rewrite String.eqb_eq. }
  destruct (lookup_exact _ w None) as [|r rs].
  - split; [by intros [? ?]|]. intros (r & w' & Hin & [= <-] & Hr).
    exfalso. apply (not_elem_of_nil r). by apply Hx.
  - split; [|by eexists]. intros _. exists r, w. destruct (proj1 (Hx r)) as [H1 H2]; [by left|done].
Qed.

Lemma global_nxdomain_rows db qname :
  store_reachable (zones db) -> valid_name qname = true -> labels_of qname <> [] ->
  exists_name (presence_of db qname Global) = false <->
  (forall r, r ∈ dns_records (zones db) -> ~ labels_of qname `suffix_of` labels_of (r_name r)) /\
  (forall r w, r ∈ dns_records (zones db) -> make_wildcard_name (normalize_name qname) = Some w ->
     r_name r <> w).
Proof.
  intros [Hn _]%reachable_inv [En Hl]%valid_name_spec Hne. rewrite presence_global.
  assert (name_occupied (zones db) qname = true <->
    exists r, r ∈ dns_records (zones db) /\ labels_of qname `suffix_of` labels_of (r_name r)) as Ho
    by (unfold name_occupied; rewrite En; by apply zone_has_records_spec).
  pose proof (wildcard_owner_rows (zones db) qname) as Hw.
  case_bool_decide as Ew; [rewrite orb_true_r|rewrite orb_false_r].
  - split; [done|]. intros [_ H]. apply Hw in Ew as (r & w & H1 & H2 & H3). by destruct (H r w).
  - rewrite <- not_true_iff_false, Ho. split.
    + intros H. split; [naive_solver|]. intros r w H1 H2 H3. apply Ew, Hw. eauto.
    + intros [H _] (r & H1 & H2). by apply (H r).
Qed.

(** A proof of denial, record by record. *)
Lemma proof_records_all db edns owners out :
  proof_records db edns owners out <> [] -> owners <> [] ->
  Forall (fun o => lookup_no_wildcard (zones db) o (Some NSEC) <> [] /\
                   answer_signatures db o NSEC edns <> []) owners /\
  proof_records db edns owners out =
    out ++ (owners ≫= (fun o => to_wire (lookup_no_wildcard (zones db) o (Some NSEC)) ++
                                answer_signatures db o NSEC edns)).
Proof.
  revert out. induction owners as [|o os IH]; intros out Hne Hos; [done|]. cbn [proof_records] in *.
  destruct (lookup_no_wildcard (zones db) o (Some NSEC)) as [|n ns] eqn:En; [done|].
  destruct (answer_signatures db o NSEC edns) as [|g gs] eqn:Eg; [done|].
  destruct os as [|o' os].
  - split; [by repeat constructor; rewrite ?En, ?Eg|]. cbn [proof_records mbind list_bind].
    rewrite En, Eg. by rewrite app_nil_r.
  - destruct (IH _ Hne) as [H1 H2]; [done|]. split.
    + constructor; [by rewrite En, Eg|done].
    + rewrite H2. cbn [mbind list_bind]. rewrite En, Eg. by rewrite <- !app_assoc.
Qed.

Lemma covering_spec chain name o :
  covering chain name = Some o ->
  exists r nsec, r ∈ chain /\ r_name r = o /\ nsec_parse (r_value r) = Ok nsec /\
    nsec_covers o (next_owner nsec) name = true.
Proof.
  unfold covering. destruct (List.find _ chain) as [r|] eqn:E; [|done]. intros [= <-].
  apply List.find_some in E as [Hin H]. destruct (nsec_parse (r_value r)) as [nsec|] eqn:Ep; [|done].
  exists r, nsec. split; [by apply list_elem_of_In|done].
Qed.

Lemma push_unseen_elem seen o x : x ∈ push_unseen seen o <-> x ∈ seen \/ x = o.
Proof.
  unfold push_unseen. destruct (existsb (String.eqb o) seen) eqn:E.
  - split; [by left|]. intros [?| ->]; [done|]. apply existsb_exists in E as (y & Hy & E).
    apply String.eqb_eq in E as ->. by apply list_elem_of_In.
  - set_solver.
Qed.

Lemma dedup_elem {A} `{EqDecision A} (l : list A) x : x ∈ dedup l <-> x ∈ l.
Proof.
  induction l as [|y [|z l] IH]; [done|done|]. cbn [dedup]. destruct (decide (y = z)) as [->|]; set_solver.
Qed.

Lemma unseen_elem owners x : x ∈ foldl push_unseen [] (dedup owners) <-> x ∈ owners.
Proof.
  rewrite <- (dedup_elem owners). generalize (dedup owners). intros l.
  assert (forall acc, x ∈ foldl push_unseen acc l <-> x ∈ acc \/ x ∈ l) as H; [|rewrite H; set_solver].
  induction l as [|o l IH]; intros acc; simpl; [set_solver|]. rewrite IH, push_unseen_elem. set_solver.
Qed.

(** * Properties *)

(** C26: a negative never contradicts a positive. In each namespace (global, a
    scope, or the two together for the local network), NXDOMAIN is given only if
    no type whatever has an answer at the name there, wildcards included; and in
    the global namespace exactly if no record sits at or beneath the name and no
    wildcard covers it. The reply is authoritative and has no answers. *)
Theorem negative_never_contradicts `{ML : !MapIterLaws} db message qname ns edns :
  let m := (negative_message db message qname ns edns).2 in
  answers m = [] /\ authoritative m = true /\
  (response_code m = NXDomain -> match ns with
   | Global => ~ answers_globally db qname
   | Scope sc => ~ answers_in_scope db sc qname
   | LanFallback sc => ~ answers_globally db qname /\ ~ answers_in_scope db sc qname
   end) /\
  (store_reachable (zones db) -> valid_name qname = true -> labels_of qname <> [] -> ns = Global ->
   response_code m = NXDomain <->
   (forall r, r ∈ dns_records (zones db) -> ~ labels_of qname `suffix_of` labels_of (r_name r)) /\
   (forall r w, r ∈ dns_records (zones db) -> make_wildcard_name (normalize_name qname) = Some w ->
      r_name r <> w)).
Proof.
  cbn zeta. rewrite negative_rcode. split_and!.
  - unfold negative_message. cbn zeta. by destruct (exists_name _).
  - unfold negative_message. cbn zeta. by destruct (exists_name _).
  - intros H. assert (exists_name (presence_of db qname ns) = false) as E
      by (by destruct (exists_name _)). clear H.
    pose proof (answers_globally_present db qname) as Hg. unfold presence_of in E. cbn zeta in E.
    destruct ns as [|sc|sc].
    + intros [H|[w H]]%Hg; rewrite H in E; [done|]. by destruct (name_occupied _ _).
    + intros [H|[w H]]%answers_in_scope_present; rewrite H in E; [done|].
      by destruct (scoped_name_occupied _ _ _).
    + split.
      * intros [H|[w H]]%Hg; rewrite H in E; [by rewrite orb_true_r in E|].
        destruct (_ || _); [done|]. by destruct (scoped_wildcard_owner_for _ _ _).
      * intros [H|[w H]]%answers_in_scope_present; rewrite H in E; [done|]. by destruct (_ || _).
  - intros Hr Hv Hne ->. rewrite <- global_nxdomain_rows by done. by destruct (exists_name _).
Qed.

(** C27: a denial is proved completely or not at all. A reply carries a proof of
    denial only to a client that set DO, for a zone with keys whose signatures are
    not stale; it then consists of the NSEC records and their signatures of
    exactly the required owners, none of them missing; and for a name that does
    not exist the required owners are links of the stored chain that cover the
    name itself and the wildcard at its closest encloser, a wildcard the chain
    does not contain. *)
Theorem denial_proof_complete db qname presence edns :
  denial_proof db qname presence edns <> [] ->
  wants_dnssec edns = true /\
  exists zone owners, find_signed_zone (signing (zones db)) qname = Some zone /\
    zone_signatures_stale (signing (zones db)) qname = false /\
    required_owners (zones db) zone qname presence (zone_nsec_records (zones db) zone) = Some owners /\
    (forall o, o ∈ owners -> lookup_no_wildcard (zones db) o (Some NSEC) <> [] /\
                             answer_signatures db o NSEC edns <> []) /\
    denial_proof db qname presence edns =
      foldl push_unseen [] (dedup owners) ≫= (fun o =>
        to_wire (lookup_no_wildcard (zones db) o (Some NSEC)) ++ answer_signatures db o NSEC edns) /\
    (presence = Absent ->
     let wildcard := "*." +:+ closest_encloser (zones db) qname zone in
     chained (zone_nsec_records (zones db) zone) wildcard = false /\
     forall n, n = normalize_name qname \/ n = wildcard ->
       exists r nsec, r ∈ zone_nsec_records (zones db) zone /\ r_name r ∈ owners /\
         nsec_parse (r_value r) = Ok nsec /\ nsec_covers (r_name r) (next_owner nsec) n = true).
Proof.
  unfold denial_proof. destruct (wants_dnssec edns) eqn:Ed; [|done]. simpl negb. cbn iota.
  destruct (find_signed_zone _ qname) as [zone|]; [|done].
  destruct (zone_signatures_stale _ qname); [done|]. cbn zeta.
  destruct (required_owners _ zone qname presence _) as [owners|] eqn:Er; [|done]. intros Hne.
  destruct (decide (foldl push_unseen [] (dedup owners) = [])) as [E|Hos]; [by rewrite E in Hne|].
  destruct (proof_records_all db edns _ [] Hne Hos) as [Hall Heq].
  split; [done|]. exists zone, owners. split_and!; [done|done|done| |done|].
  { rewrite Forall_forall in Hall. intros o Ho. apply Hall. by apply unseen_elem. }
  intros ->. cbn zeta. unfold required_owners in Er. cbn zeta in Er.
  destruct (chained _ ("*." +:+ _)); [done|]. split; [done|].
  destruct (covering _ (normalize_name qname)) as [a|] eqn:Ea; [|done].
  destruct (covering _ ("*." +:+ _)) as [b|] eqn:Eb; [|done]. injection Er as <-.
  apply covering_spec in Ea as (ra & na & Ha1 & <- & Ha3 & Ha4).
  apply covering_spec in Eb as (rb & nb & Hb1 & <- & Hb3 & Hb4).
  intros n [->| ->]; [exists ra, na|exists rb, nb]; (split_and!; [done|set_solver|done|done]).
Qed.

(** A DNAME leaves the server as a CNAME. What is sent for a name
    under a DNAME is two CNAME records, one of them at the owner of the DNAME,
    which tells the client that the owner itself is an alias; the DNAME type never
    appears. *)
Theorem dname_sent_as_cname (look : string -> list DnsRecord) qname rs :
  (forall p r, r ∈ look p -> r_type r = DNAME) ->
  dname_walk look (normalize_name qname) [] (split_on "." (trim_end_matches "." (normalize_name qname))) = Some rs ->
  (exists dname synth, rs = [dname; synth] /\ r_type dname = DNAME /\ r_type synth = CNAME) /\
  Forall (fun w => record_type w = 5 /\ record_type w <> wire_type DNAME) (to_wire rs).
Proof.
  intros Hd. generalize (normalize_name qname) at 1, (split_on "." (trim_end_matches "." (normalize_name qname))).
  intros n parts Hw.
  assert (exists dname synth, rs = [dname; synth] /\ r_type dname = DNAME /\ r_type synth = CNAME) as Hrs.
  { revert Hw. generalize (@nil string). induction parts as [|p [|p' ps] IH]; intros before Hw; [done|done|].
    cbn [dname_walk] in Hw. destruct (look _) as [|d ds] eqn:E; [by eapply IH|].
    injection Hw as <-. eexists _, _. split; [done|]. split; [|done].
    apply (Hd (str_join "." (p' :: ps) +:+ ".")). cbn [str_join String.concat] in *. rewrite E. by left. }
  split; [done|]. destruct Hrs as (d & c & -> & H1 & H2).
  assert (forall r w, r_type r = DNAME \/ r_type r = CNAME ->
    db_record_to_dns_record svcb_parse svcb_canonical_rdata r = Some w ->
    record_type w = 5 /\ record_type w <> wire_type DNAME) as Hc.
  { intros r w Hr. unfold db_record_to_dns_record, rdata_of.
    destruct (from_ascii (r_name r)); [|done]. simpl.
    destruct Hr as [-> | ->]; (destruct (from_ascii (r_value r)); [|done]); simpl; by intros [= <-]. }
  unfold to_wire, to_dns_records. apply Forall_forall. intros w Hin.
  apply list_elem_of_omap in Hin as (r & Hr & Hw'). apply (Hc r w); [|done].
  apply elem_of_cons in Hr as [->|Hr]; [by left|]. apply list_elem_of_singleton in Hr as ->. by right.
Qed.
End Answers.

(** * Instances *)

(** The sample libraries, with a wire format for a table of messages. *)
Definition sample_lib (tbl : list (Message.Message string (SvcbData string))) : DnsLib := {|
  Name := string;
  lib_names := sample_name;
  lib_codec := table_codec tbl;
  lib_base64 := hex_codec;
  lib_hex := {| hex_enc := hex_encode; hex_dec := hex_decode |};
  lib_iter := default_iter;
  root_name := ".";
  from_utf8 := Some;
  svcb_emit _ := None;
  rcode_from high low := high * 16 + low;
|}.

Definition sample_question (name : string) (qtype : Z) : Message.Message string (SvcbData string) :=
  mkMessage 7 false 0 0 true false false false false [mkQuestion name qtype class_in] [] [] [] (Some (mkEdns 0 1232 true)).

Definition do_bit : option EdnsContext := Some (mkEdns 0 1232 true).

(** A signed zone of two names. *)
Definition signed_rows : list DnsRecord :=
  let sig := "NSEC 15 2 300 1999999999 1700000000 1 example.com. 01ff" in
  [mkRecord None "example.com." NSEC "www.example.com. SOA RRSIG NSEC" 300 0;
   mkRecord None "www.example.com." NSEC "example.com. A RRSIG NSEC" 300 0;
   mkRecord None "example.com." RRSIG sig 300 0; mkRecord None "www.example.com." RRSIG sig 300 0;
   mkRecord None "www.example.com." A "192.0.2.7" 300 0].

Definition signed_db : Database :=
  mkDb (mkStore signed_rows 9 {["example.com."]} (mkSigning [] {["example.com."]} ∅ ∅))
    empty_scopes empty_lists.

Definition sample_db : Database := mkDb sample_store empty_scopes empty_lists.

Lemma negative_never_contradicts_witness :
  response_code (@negative_message (sample_lib []) sample_db
    (sample_question "printer.home." 28) "printer.home." Global None).2 = NXDomain /\
  forall r, r ∈ dns_records (zones sample_db) ->
    ~ labels_of "printer.home." `suffix_of` labels_of (r_name r).
Proof.
  assert (response_code (@negative_message (sample_lib []) sample_db
    (sample_question "printer.home." 28) "printer.home." Global None).2 = NXDomain) as E
    by (vm_compute; reflexivity).
  split; [exact E|].
  destruct (@negative_never_contradicts (sample_lib []) default_iter_laws sample_db
    (sample_question "printer.home." 28) "printer.home." Global None) as (_ & _ & _ & H).
  apply (H sample_store_reachable eq_refl ltac:(done) eq_refl). exact E.
Defined.

Lemma denial_proof_complete_witness :
  exists zone owners,
    find_signed_zone (signing (zones signed_db)) "mail.example.com." = Some zone /\
    @required_owners (zones signed_db) zone "mail.example.com." Absent
      (zone_nsec_records (zones signed_db) zone) = Some owners.
Proof.
  destruct (@denial_proof_complete (sample_lib []) signed_db "mail.example.com." Absent do_bit)
    as (_ & zone & owners & H1 & _ & H2 & _).
  - vm_compute. discriminate.
  - exists zone, owners. split; [exact H1|exact H2].
Defined.

Definition sample_dname (parent : string) : list DnsRecord :=
  if (parent =? "old.home.")%string then [mkRecord None "old.home." DNAME "new.home." 60 0] else [].

Lemma dname_sent_as_cname_witness :
  Forall (fun w => record_type w = 5 /\ record_type w <> wire_type DNAME)
    (@to_wire (sample_lib [])
       [mkRecord None "old.home." DNAME "new.home." 60 0;
        mkRecord None "a.old.home." CNAME "a.new.home." 60 0]).
Proof.
  refine (proj2 (@dname_sent_as_cname (sample_lib []) sample_dname "a.old.home" _ _ _)).
  - intros p r. unfold sample_dname. destruct (p =? "old.home.")%string; [|set_solver].
    by intros ->%list_elem_of_singleton.
  - vm_compute. reflexivity.
Defined.
