(* ===== verification/Upstream.v ===== *)
(** Upstream resolution ([src/src/dns_server.rs]): the three resolution modes over
    the state they share, with the answers and denials they put into the response
    cache; [Resolution] of [src/src/resolver.rs]. The walk from the roots and the
    transports are an interface, [Outside]. *)

From S2P Require Import Prelude RustStr Names Ip Records Hickory RecordCache KeyCache.
From S2P Require Import DelegationCache DnsCache Forwarder Tiers Wire Message Negative.
From stdpp Require Import base gmap sets list option strings.
From Stdlib Require Import ZArith Lia Bool Ascii.

Open Scope Z_scope.
Local Open Scope rolodex_scope.

(** * The outside *)

(** What leaves the box. *)
Inductive Event :=
| PeerQuery (peer : SocketAddr) (query : list Z)
| ProviderQuery (name : string)
| ForwarderQuery (label : string) (query : list Z)
| RootWalk (name : string) (qtype : Z).

Section Resolution.
Context {L : DnsLib}.

(** A walk's outcome. *)
Record Resolution := mkResolution {
  res_rcode : Z;
  res_answers : list (WireRecord Name Svcb);
  res_soa : option (WireRecord Name Svcb);
  res_verdict : Verdict;
}.

Definition negative_ttl (default_ttl : Z) (res : Resolution) : option Z :=
  match res_answers res with
  | _ :: _ => None
  | [] =>
      match res_soa res with
      | None => Some default_ttl
      | Some soa =>
          match w_data soa with
          | RD_SOA _ _ _ _ _ _ minimum => Some (Z.min minimum (w_ttl soa))
          | _ => Some default_ttl
          end
      end
  end.

(** [is_arpa_subtree] of [src/src/resolver.rs]: the last label, ignoring case. *)
Definition is_arpa_subtree (n : Name) : bool :=
  match last (name_iter n) with
  | Some l => (to_lowercase l =? "arpa")%string
  | None => false
  end.

(** What a walk may change. *)
Definition resolver_state (Key : Type) : Type :=
  DelegationCache.t * RecordCache.t (WireRecord Name Svcb) * gmap string (KeyCache.Entry Key).

(** Peers, transports, blocklist providers and the walk from the roots, each of
    which may depend on everything that was asked before. A walk runs until its
    deadline, if it has one; [None] is an error or a timeout. *)
Class Outside := {
  Key : Type;
  forward_one : list Event -> list Z -> SocketAddr -> option (list Z);
  forward_tcp : list Event -> list Z -> SocketAddr -> option (list Z);
  secure_query : list Event -> list Z -> Forwarder -> option (list Z);
  is_name_listed : list Event -> string -> bool;
  resolve : list Event -> option Z -> Name -> Z -> Z -> resolver_state Key ->
            option Resolution * resolver_state Key;
}.
End Resolution.

Arguments Resolution L : clear implicits.
Arguments Outside L : clear implicits.

(** * State *)

Section Upstream.
Context {L : DnsLib} {Out : Outside L}.

Abbreviation WireRecord := (WireRecord Name Svcb).
Abbreviation Message := (Message Name Svcb).
Abbreviation Learned := (@Learned WireRecord Key).
Abbreviation Chain := (@Chain WireRecord Key).

Record Upstreams := mkUpstreams {
  u_chain : Chain;
  u_health : list Health;
  u_secure_upstreams : list Forwarder;
  u_forwarders : list Forwarder;
  u_public_fallback : list Forwarder;
  u_forwarder_tiers : tiers;
  u_default_ttl : Z;
}.

Definition set_chain (c : Chain) (u : Upstreams) : Upstreams :=
  mkUpstreams c (u_health u) (u_secure_upstreams u) (u_forwarders u) (u_public_fallback u)
    (u_forwarder_tiers u) (u_default_ttl u).

Definition set_u_health (h : list Health) (u : Upstreams) : Upstreams :=
  mkUpstreams (u_chain u) h (u_secure_upstreams u) (u_forwarders u) (u_public_fallback u)
    (u_forwarder_tiers u) (u_default_ttl u).

(** The response cache, if there is one. *)
Definition u_cache (u : Upstreams) : option DnsCache.t := dns_cache (learned (u_chain u)).

Definition set_l_cache (c : option DnsCache.t) (l : Learned) : Learned :=
  mkLearned c (delegations l) (Tiers.records l) (keys l).

Definition set_u_cache (c : option DnsCache.t) (u : Upstreams) : Upstreams :=
  set_chain (set_learned (set_l_cache c (learned (u_chain u))) (u_chain u)) u.

(** [rebuild_forwarder_tiers]. *)
Definition rebuild_forwarder_tiers (u : Upstreams) : Upstreams :=
  mkUpstreams (u_chain u) (u_health u) (u_secure_upstreams u) (u_forwarders u) (u_public_fallback u)
    (by_preference (u_secure_upstreams u ++ u_forwarders u ++ u_public_fallback u)) (u_default_ttl u).

(** [store_forwarders] for the slot of the configured forwarders. *)
Definition set_typed_forwarders (incoming : list Forwarder) (u : Upstreams) : Upstreams :=
  rebuild_forwarder_tiers
    (mkUpstreams (u_chain u) (u_health u) (u_secure_upstreams u) (carry_health (u_forwarders u) incoming)
       (u_public_fallback u) (u_forwarder_tiers u) (u_default_ttl u)).

Definition set_secure_upstreams (incoming : list Forwarder) (u : Upstreams) : Upstreams :=
  rebuild_forwarder_tiers
    (mkUpstreams (u_chain u) (u_health u) (carry_health (u_secure_upstreams u) incoming) (u_forwarders u)
       (u_public_fallback u) (u_forwarder_tiers u) (u_default_ttl u)).

Definition set_typed_public_fallback (incoming : list Forwarder) (u : Upstreams) : Upstreams :=
  rebuild_forwarder_tiers
    (mkUpstreams (u_chain u) (u_health u) (u_secure_upstreams u) (u_forwarders u)
       (carry_health (u_public_fallback u) incoming) (u_forwarder_tiers u) (u_default_ttl u)).

(** * Filling the response cache *)

(** The clock of the caches and the millisecond stamp of the breakers. *)
Context (now now_ms : Z).

Definition response_is_definitive (response : list Z) : bool :=
  match from_bytes response with
  | Some msg => definitive_rcode (response_code msg)
  | None => false
  end.

(** [min().unwrap_or(300)]. *)
Definition min_ttl (ans : list WireRecord) : Z :=
  match ans with [] => 300 | r :: rs => foldl (fun m r => Z.min m (w_ttl r)) (w_ttl r) rs end.

Definition cache_answers (question : Question Name) (ans : list WireRecord) (c : option DnsCache.t)
  : option DnsCache.t :=
  (fun cache =>
     match omap dns_record_to_db_record ans with
     | [] => cache
     | cache_records =>
         DnsCache.insert now (name_to_string (qd_name question)) (map_query_type_to_kind (qd_type question))
           cache_records (min_ttl ans) cache
     end) <$> c.

Definition cache_negative (question : Question Name) (rcode ttl : Z) (c : option DnsCache.t)
  : option DnsCache.t :=
  (fun cache =>
     let insert kind :=
       DnsCache.insert_negative now (name_to_string (qd_name question)) (map_query_type_to_kind (qd_type question))
         kind ttl cache in
     if rcode =? NXDomain then insert DnsCache.NxDomain
     else if rcode =? NoError then insert DnsCache.NoData
     else cache) <$> c.

Definition cache_from_wire (response : list Z) (c : option DnsCache.t) : option DnsCache.t :=
  match from_bytes response with
  | Some msg =>
      if response_code msg =? NoError then
        match answers msg, queries msg with
        | _ :: _, question :: _ => cache_answers question (answers msg) c
        | _, _ => c
        end
      else c
  | None => c
  end.

(** * The modes *)

(** The walk, over the caches of the resolver. *)
Definition run_resolver (log : list Event) (deadline : option Z) (name : Name) (qtype qclass : Z) (l : Learned)
  : option (Resolution L) * Learned :=
  let '(res, (d, r, k)) := resolve log deadline name qtype qclass (delegations l, Tiers.records l, keys l) in
  (res, mkLearned (dns_cache l) d r k).

Definition query_forwarder (log : list Event) (query_data : list Z) (f : Forwarder) : option (list Z) :=
  match transport f with
  | Do53Udp => forward_one log query_data (addr f)
  | Do53Tcp => forward_tcp log query_data (addr f)
  | Dot | Doh | Doq => secure_query log query_data f
  end.

(** What an attempt of a tier changes besides the caches: the breakers, the log. *)
Definition attempt_state : Type := Learned * (list Health * list Event).

Definition ROOTS_TIER_TIMEOUT : Z := from_secs 8.
Definition ROOTS_PROBE_TIMEOUT : Z := from_secs 2.

Definition tier_roots (message : Message) (edns : option EdnsContext) (st : attempt_state)
  : option (list Z) * attempt_state :=
  let '(l, (hs, log)) := st in
  match queries message with
  | [] => (None, st)
  | mkQuestion name qtype qclass :: _ =>
      let (resolved, l) := run_resolver log (Some ROOTS_TIER_TIMEOUT) name qtype qclass l in
      let st := (l, (hs, log ++ [RootWalk (name_to_string name) qtype])) in
      match resolved with
      | None => (None, st)
      | Some res =>
          if withholds_answer (res_verdict res)
          then (Some (build_response_validated message ServFail [] edns (res_verdict res)), st)
          else if definitive_rcode (res_rcode res)
          then (Some (build_response_validated message (res_rcode res) (res_answers res) edns
                        (res_verdict res)), st)
          else (None, st)
      end
  end.

(** A tier of forwarders: the ones asked are added to the log. *)
Definition tier_forwarders (query_data : list Z) (fs : list Forwarder) (st : attempt_state)
  : option (list Z) * attempt_state :=
  let '(l, (hs, log)) := st in
  let '(r, hs, asked) := tier_forward (query_forwarder log query_data) response_is_definitive now_ms fs hs in
  (r, (l, (hs, log ++ ((fun f => ForwarderQuery (label f) query_data) <$> asked)))).

Definition try_tier (u : Upstreams) (query_data : list Z) (message : Message) (edns : option EdnsContext)
    (tier : nat) (st : attempt_state) : option (list Z) * attempt_state :=
  let '(secure, local, public) := u_forwarder_tiers u in
  if (tier =? TIER_ROOTS)%nat then tier_roots message edns st
  else if (tier =? TIER_SECURE)%nat then tier_forwarders query_data secure st
  else if (tier =? TIER_LOCAL)%nat then tier_forwarders query_data local st
  else if (tier =? TIER_PUBLIC)%nat then tier_forwarders query_data public st
  else (None, st).

Abbreviation Step := (option (list Z) * (Upstreams * list Event))%type.

(** [auto_resolve] on the wire query; the chain itself is [Tiers.auto_resolve]. *)
Definition auto_query (query_data : list Z) (edns : option EdnsContext) (u : Upstreams) (log : list Event)
  : Step :=
  match from_bytes query_data with
  | None => (Some (make_error_response query_data FormErr), (u, log))
  | Some message =>
      match queries message with
      | [] => (Some (make_error_response query_data FormErr), (u, log))
      | _ =>
          let '(r, (c, (hs, log))) :=
            auto_resolve (try_tier u query_data message edns)
              (fun response l => set_l_cache (cache_from_wire response (dns_cache l)) l)
              (u_chain u) (u_health u, log) in
          (Some (default (make_error_response query_data ServFail) r),
           (set_u_health hs (set_chain c u), log))
      end
  end.

(** The loop of [forward_query]: every forwarder in order, its breaker ignored but
    kept up to date. *)
Fixpoint forward_loop (query_data : list Z) (fs : list Forwarder) (hs : list Health) (log : list Event)
  : option (list Z) * (list Health * list Event) :=
  match fs with
  | [] => (None, (hs, log))
  | f :: fs' =>
      let log' := log ++ [ForwarderQuery (label f) query_data] in
      match query_forwarder log query_data f with
      | Some response => (Some response, (update_health record_success (health f) hs, log'))
      | None => forward_loop query_data fs' (update_health (record_failure now_ms) (health f) hs) log'
      end
  end.

Definition forward_query (query_data : list Z) (u : Upstreams) (log : list Event) : Step :=
  match u_forwarders u with
  | [] => (Some (make_error_response query_data ServFail), (u, log))
  | fs =>
      match forward_loop query_data fs (u_health u) log with
      | (Some response, (hs, log)) =>
          let u := set_u_health hs u in
          (Some response, (set_u_cache (cache_from_wire response (u_cache u)) u, log))
      | (None, (hs, log)) => (Some (make_error_response query_data ServFail), (set_u_health hs u, log))
      end
  end.

Definition iterative_query (query_data : list Z) (edns : option EdnsContext) (u : Upstreams)
    (log : list Event) : Step :=
  match from_bytes query_data with
  | None => (Some (make_error_response query_data FormErr), (u, log))
  | Some message =>
      match queries message with
      | [] => (Some (make_error_response query_data FormErr), (u, log))
      | (mkQuestion name qtype qclass as question) :: _ =>
          let (resolved, l) := run_resolver log None name qtype qclass (learned (u_chain u)) in
          let u := set_chain (set_learned l (u_chain u)) u in
          let log := log ++ [RootWalk (name_to_string name) qtype] in
          match resolved with
          | None => (Some (make_error_response query_data ServFail), (u, log))
          | Some res =>
              if withholds_answer (res_verdict res)
              then (Some (build_response_validated message ServFail [] edns (res_verdict res)), (u, log))
              else
                let c := u_cache u in
                let c := if (res_rcode res =? NoError) && negb (length (res_answers res) =? 0)%nat
                         then cache_answers question (res_answers res) c
                         else match negative_ttl (u_default_ttl u) res with
                              | Some ttl => cache_negative question (res_rcode res) ttl c
                              | None => c
                              end in
                (Some (build_response_validated message (res_rcode res) (res_answers res) edns
                         (res_verdict res)), (set_u_cache c u, log))
          end
      end
  end.

Definition upstream_resolve (query_data : list Z) (edns : option EdnsContext) (u : Upstreams)
    (log : list Event) : Step :=
  if wire_question_is_arpa query_data then (Some (make_error_response query_data Refused), (u, log))
  else match resolution_mode (u_chain u) with
       | Forward => forward_query query_data u log
       | Recursive => iterative_query query_data edns u log
       | Auto => auto_query query_data edns u log
       end.

(** ** The canary *)

Definition build_canary_query : option (list Z) :=
  name ← from_ascii "one.one.one.one.";
  to_bytes (mkMessage 0 false 0 0 true false false false false [mkQuestion name 1 class_in] [] [] [] None).

(** The rounds of [prewarm_auto]: until a tier is committed. *)
Fixpoint prewarm_rounds (n : nat) (query : list Z) (u : Upstreams) (log : list Event)
  : Upstreams * list Event :=
  match n with
  | O => (u, log)
  | S n' =>
      if negb (active_tier (u_chain u) =? TIER_ROOTS)%nat then (u, log)
      else let '(_, (u, log)) := upstream_resolve query None u log in prewarm_rounds n' query u log
  end.

Definition prewarm_auto (u : Upstreams) (log : list Event) : Upstreams * list Event :=
  match resolution_mode (u_chain u), build_canary_query with
  | Auto, Some query =>
      let grace := Z.max (switch_grace_failures (u_chain u)) 1 in
      prewarm_rounds (Z.to_nat (Z.min (grace + 1) u32_max)) query u log
  | _, _ => (u, log)
  end.

(** The root's own keys, type DNSKEY. *)
Definition probe_roots (st : attempt_state) : roots_outcome * attempt_state :=
  let '(l, (hs, log)) := st in
  let (resolved, l) := run_resolver log (Some ROOTS_PROBE_TIMEOUT) root_name 48 class_in l in
  (match resolved with
   | Some res => ProbeResolved (res_rcode res) (res_verdict res)
   | None => ProbeError
   end, (l, (hs, log ++ [RootWalk (name_to_string root_name) 48]))).

(** The attempt of a tier at the canary. *)
Definition try_canary (u : Upstreams) (tier : nat) (st : attempt_state) : option unit * attempt_state :=
  match build_canary_query with
  | None => (None, st)
  | Some canary =>
      match from_bytes canary with
      | None => (None, st)
      | Some message =>
          let (r, st) := try_tier u canary message None tier st in ((fun _ => tt) <$> r, st)
      end
  end.

(** [recovery_probe_once]; [validating] is whether the resolver has anchors. *)
Definition recovery_probe (validating : bool) (u : Upstreams) (log : list Event) : Upstreams * list Event :=
  let '(c, (hs, log)) :=
    recovery_probe_once validating probe_roots (try_canary u) (u_chain u) (u_health u, log) in
  (set_u_health hs (set_chain c u), log).

(** * Every mode replies *)

Lemma upstream_replies query_data edns u log : is_Some (upstream_resolve query_data edns u log).1.
Proof.
  unfold upstream_resolve. destruct (wire_question_is_arpa query_data); [by eexists|].
  destruct (resolution_mode (u_chain u)).
  - unfold iterative_query. destruct (from_bytes query_data) as [message|]; [|by eexists].
    destruct (queries message) as [|[name qtype qclass] rest]; [by eexists|].
    destruct (run_resolver _ _ _ _ _ _) as [[res|] l]; [|by eexists]. by destruct (withholds_answer _); eexists.
  - unfold forward_query. destruct (u_forwarders u); [by eexists|].
    destruct (forward_loop _ _ _ _) as [[r|] [hs log']]; by eexists.
  - unfold auto_query. destruct (from_bytes query_data) as [message|]; [|by eexists].
    destruct (queries message); [by eexists|]. destruct (auto_resolve _ _ _ _) as [r [c [hs log']]].
    by eexists.
Qed.

End Upstream.

(** * Sample instances *)

(** An outside that never answers. *)
Definition quiet_outside (L : DnsLib) : Outside L := {|
  Key := unit;
  forward_one _ _ _ := None;
  forward_tcp _ _ _ := None;
  secure_query _ _ _ := None;
  is_name_listed _ _ := false;
  resolve _ _ _ _ _ st := (None, st);
|}.

Definition idle_upstreams {L : DnsLib} {Out : Outside L} (mode : ResolutionMode) (cache : option DnsCache.t)
  : Upstreams :=
  mkUpstreams (mkChain mode TIER_ROOTS 0 3
    (mkLearned cache (DelegationCache.in_memory 300) (RecordCache.new 300) ∅)) [] [] [] [] ([], [], []) 300.
