(* ===== verification/Resolver.v ===== *)
(** The iterative resolver ([src/src/resolver.rs]): one lookup walks the delegations
    from the roots, or from the deepest cached delegation, to an answer, extending
    the chain of trust as it goes down. Its state is the three caches, the standing
    of the nameservers, the query allowance of the lookup and a log of what was sent
    and learned; the network, the clocks and the random choices are an interface,
    [Network]. *)

From S2P Require Import Prelude RustStr Names Ip Records Hickory ExpiringCache RecordCache KeyCache.
From S2P Require Import DelegationCache DnsCache Forwarder Nameservers Tiers Wire Svcb Message Validate Negative Upstream.
From stdpp Require Import base gmap sets list option strings.
From Stdlib Require Import ZArith Lia Bool Ascii QArith.

Open Scope Z_scope.
Local Open Scope rolodex_scope.

(** * Interfaces and state *)

Definition MAX_REFERRALS : nat := 30.
Definition MAX_CNAME_CHAIN : nat := 16.
Definition MAX_HIDDEN_CUTS : nat := 4.
Definition MAX_RESOLUTION_DEPTH : nat := 16.
Definition MAX_GLUELESS_NS : nat := 4.
Definition MAX_QUERIES_PER_RESOLUTION : nat := 64.
Definition VALIDATION_QUERY_BUDGET : nat := 32.
Definition EDNS_UDP_PAYLOAD : Z := 1232.

Definition T_A : Z := 1.
Definition T_ANY : Z := 255.

(** What a lookup did: packets sent, and what it put into its caches, with the
    address whose reply it took it from. *)
Inductive REvent {Name : Type} :=
| Sent (server : IpAddr) (tcp : bool) (name : Name) (qtype : Z)
| GotDelegation (source : IpAddr) (zone name : Name) (servers : list IpAddr)
| GotGlue (source : IpAddr) (owner : Name) (rtype : Z) (records : list (Message.WireRecord Name (SvcbData Name)))
| GotAnswer (source : IpAddr) (name : Name) (qtype : Z) (records : list (Message.WireRecord Name (SvcbData Name))).
Arguments REvent : clear implicits.

Inductive RErr := Unreachable | Failure (reason : string) | OutOfFuel.

(** Each answer may depend on all that happened before; an exchange takes time. *)
Class Network (Name : Type) := {
  udp_exchange : list (REvent Name) -> IpAddr -> list Z -> option (list Z) * Z;
  tcp_exchange : list (REvent Name) -> IpAddr -> list Z -> option (list Z) * Z;
  random_id : list (REvent Name) -> Z;
  shuffled : list (REvent Name) -> list IpAddr -> list IpAddr;
  now_secs : list (REvent Name) -> option Z;
}.

Record Config := mkConfig {
  root_hints : list IpAddr;
  c_default_ttl : Z;
  c_backoff_base : Z;
  c_blame_base : Z;
  c_blame_cap : Z;
  c_anchors : option Anchors;
}.

Definition ROOT_HINTS : list IpAddr :=
  V4 <$> [3324575748; 2868357634; 3223389196; 3339148045; 3234588170; 3221554673; 3228574724;
          3328294453; 3223622673; 3225059358; 3238006401; 3339146026; 3389791009].

(** [with_delegations]: the hints given, or the built-in ones. *)
Definition with_hints (hints : list IpAddr) : list IpAddr :=
  match hints with [] => ROOT_HINTS | _ => hints end.

Definition validating (cfg : Config) : bool := match c_anchors cfg with Some _ => true | None => false end.

#[export] Instance wire_ttl {Name Svcb} : TtlRecord (WireRecord Name Svcb) := {
  rec_ttl := w_ttl;
  rec_set_ttl t r := mkWire (w_name r) t (w_data r);
}.

Section Resolver.
Context {L : DnsLib} `{DN : !DnsName Name, NO : !NameOrder Name, NW : !Network Name}.
Context `{CR : !DnssecCrypto Name (WireRecord Name Svcb), ST : !ShowType Z}.
Context `{VD : !VictimChoice DelegationCache.CachedDelegation, VK : !VictimChoice (KeyCache.Entry DnskeyData)}.
Context `{VR : !VictimChoice (RecordCache.CachedRecords (WireRecord Name Svcb))}.
Context (cfg : Config).

Abbreviation WireRecord := (WireRecord Name Svcb).
Abbreviation Message := (Message Name Svcb).
Abbreviation TrustState := (KeyCache.TrustState DnskeyData).
Abbreviation Resolution := (Resolution L).
Abbreviation Event := (REvent Name).

Record RState := mkRState {
  r_delegations : DelegationCache.t;
  r_records : RecordCache.t WireRecord;
  r_keys : gmap string (KeyCache.Entry DnskeyData);
  r_fleet : Fleet;
  r_primed : bool;
  r_clock : Z;
  r_remaining : nat;
  r_log : list Event;
}.

(** ** State-passing with errors *)

Definition M (A : Type) : Type := RState -> result A RErr * RState.

Definition ret {A} (a : A) : M A := fun s => (Ok a, s).
Definition bail {A} (e : RErr) : M A := fun s => (Err e, s).

Definition bind {A B} (m : M A) (k : A -> M B) : M B := fun s =>
  match m s with (Ok a, s) => k a s | (Err e, s) => (Err e, s) end.

Notation "'let!' x := m 'in' k" := (bind m (fun x => k))
  (at level 100, x pattern, m at level 99, k at level 200, right associativity).
Notation "m ;;! k" := (bind m (fun _ => k)) (at level 100, k at level 200, right associativity).

(** An error as a value. *)
Definition attempt {A} (m : M A) : M (result A RErr) := fun s => let (r, s) := m s in (Ok r, s).

Definition get {A} (f : RState -> A) : M A := fun s => (Ok (f s), s).
Definition modify (f : RState -> RState) : M unit := fun s => (Ok tt, f s).

Definition set_delegations (d : DelegationCache.t) (s : RState) : RState :=
  mkRState d (r_records s) (r_keys s) (r_fleet s) (r_primed s) (r_clock s) (r_remaining s) (r_log s).
Definition set_records (r : RecordCache.t WireRecord) (s : RState) : RState :=
  mkRState (r_delegations s) r (r_keys s) (r_fleet s) (r_primed s) (r_clock s) (r_remaining s) (r_log s).
Definition set_keys (k : gmap string (KeyCache.Entry DnskeyData)) (s : RState) : RState :=
  mkRState (r_delegations s) (r_records s) k (r_fleet s) (r_primed s) (r_clock s) (r_remaining s) (r_log s).
Definition set_fleet (f : Fleet) (s : RState) : RState :=
  mkRState (r_delegations s) (r_records s) (r_keys s) f (r_primed s) (r_clock s) (r_remaining s) (r_log s).
Definition set_primed (s : RState) : RState :=
  mkRState (r_delegations s) (r_records s) (r_keys s) (r_fleet s) true (r_clock s) (r_remaining s) (r_log s).
Definition set_remaining (n : nat) (s : RState) : RState :=
  mkRState (r_delegations s) (r_records s) (r_keys s) (r_fleet s) (r_primed s) (r_clock s) n (r_log s).
Definition add_event (e : Event) (s : RState) : RState :=
  mkRState (r_delegations s) (r_records s) (r_keys s) (r_fleet s) (r_primed s) (r_clock s) (r_remaining s)
    (r_log s ++ [e]).
Definition pass_time (dt : Z) (s : RState) : RState :=
  mkRState (r_delegations s) (r_records s) (r_keys s) (r_fleet s) (r_primed s) (r_clock s + dt) (r_remaining s)
    (r_log s).

(** ** The caches, at the time of the clock *)

Definition keys_get (zone : Name) : M (option TrustState) := fun s =>
  let (r, k) := KeyCache.get (r_clock s) zone (r_keys s) in (Ok r, set_keys k s).

Definition keys_insert (zone : Name) (st : TrustState) (ttl : Z) : M unit :=
  modify (fun s => set_keys (KeyCache.insert (r_clock s) zone st ttl (r_keys s)) s).

Definition best_match (name : Name) : M (option (string * list IpAddr)) := fun s =>
  let (r, d) := DelegationCache.best_match (r_clock s) name (r_delegations s) in
  (Ok r, set_delegations d s).

(** [source] and [name] are for the log. *)
Definition delegations_insert (source : IpAddr) (name zone : Name) (servers : list IpAddr) (ttl : Z) : M unit :=
  modify (fun s => add_event (GotDelegation source zone name servers)
    (set_delegations (DelegationCache.insert (r_clock s) zone servers ttl (r_delegations s)) s)).

Definition delegations_invalidate (zone : string) : M unit :=
  modify (fun s => set_delegations
    (DelegationCache.invalidate (default 0 (now_secs (r_log s))) zone (r_delegations s)) s).

Definition records_get_with_proof (name : Name) (qtype : Z) : M (option (list WireRecord * bool)) := fun s =>
  let (r, c) := RecordCache.get_with_proof (r_clock s) name qtype (r_records s) in (Ok r, set_records c s).

Definition records_get (name : Name) (qtype : Z) : M (option (list WireRecord)) := fun s =>
  let (r, c) := RecordCache.get (r_clock s) name qtype (r_records s) in (Ok r, set_records c s).

Definition records_insert_with_proof (source : IpAddr) (name : Name) (qtype : Z) (rs : list WireRecord)
    (secure : bool) : M unit :=
  modify (fun s => add_event (GotAnswer source name qtype rs)
    (set_records (RecordCache.insert_with_proof (r_clock s) name qtype rs secure (r_records s)) s)).

(** [QueryBudget::claim]. *)
Definition claim : M bool := fun s =>
  match r_remaining s with
  | O => (Ok false, s)
  | S n => (Ok true, set_remaining n s)
  end.

(** * Messages *)

Definition names_equal (a b : Name) : bool :=
  (to_lowercase (to_ascii a) =? to_lowercase (to_ascii b))%string.

Definition build_query (id : Z) (name : Name) (qtype qclass : Z) : option (list Z) :=
  to_bytes (mkMessage id false 0 0 false false false false false [mkQuestion name qtype qclass] [] [] []
    (if validating cfg then Some (mkEdns 0 EDNS_UDP_PAYLOAD true) else None)).

Definition validate_question (msg : Message) (qname : Name) (qtype qclass : Z) : bool :=
  match queries msg with
  | q :: _ => names_equal (qd_name q) qname && (qd_type q =? qtype) && (qd_class q =? qclass)
  | [] => false
  end.

Definition find_soa (response : Message) : option WireRecord :=
  find (fun r => match w_data r with RD_SOA _ _ _ _ _ _ _ => true | _ => false end) (name_servers response).

Definition is_address (r : WireRecord) : bool :=
  match w_data r with RD_A _ | RD_AAAA _ => true | _ => false end.

Definition collect_glue_records (response : Message) (ns_targets : list Name) : list WireRecord :=
  List.filter is_address
    (List.filter (fun r => existsb (fun t => names_equal t (w_name r)) ns_targets) (additionals response)).

Definition a_address (r : WireRecord) : option IpAddr :=
  match w_data r with RD_A ip => Some (V4 ip) | _ => None end.
Definition aaaa_address (r : WireRecord) : option IpAddr :=
  match w_data r with RD_AAAA ip => Some (V6 ip) | _ => None end.

Definition glue_addresses (glue_records : list WireRecord) : list IpAddr :=
  omap a_address glue_records ++ omap aaaa_address glue_records.

Definition referral_in_bailiwick (current zone qname : Name) : bool :=
  zone_of current zone && negb (name_eqb zone current) && zone_of zone qname.

Definition ns_target (r : WireRecord) : option Name :=
  match w_data r with RD_NS t => Some t | _ => None end.
Definition cname_target (r : WireRecord) : option Name :=
  match w_data r with RD_CNAME t => Some t | _ => None end.

Inductive Step :=
| SAnswer (records : list WireRecord)
| SCname (target : Name) (records : list WireRecord)
| SReferral (zone : Name) (glue_records : list WireRecord) (ns_targets : list Name) (ttl : Z)
| SNegative (rcode : Z) (soa : option WireRecord).

Definition min_ttl_of (rs : list WireRecord) : option Z := RecordCache.min_of (w_ttl <$> rs).

Definition classify (response : Message) (qtype : Z) : Step :=
  let ans := answers response in
  match ans with
  | _ :: _ =>
      if existsb (fun r => record_type r =? qtype) ans || (qtype =? T_CNAME) || (qtype =? T_ANY)
      then SAnswer ans
      else match omap cname_target ans with
           | target :: _ => SCname target ans
           | [] => SAnswer ans
           end
  | [] =>
      if response_code response =? NXDomain then SNegative NXDomain (find_soa response)
      else
        let ns_records := List.filter (fun r => match ns_target r with Some _ => true | None => false end)
                            (name_servers response) in
        match ns_records with
        | [] => SNegative (response_code response) (find_soa response)
        | first :: _ =>
            let ns_targets := omap ns_target ns_records in
            let glue_records := collect_glue_records response ns_targets in
            let ns_ttl := default 0 (min_ttl_of ns_records) in
            SReferral (w_name first) glue_records ns_targets
              (match min_ttl_of glue_records with Some g => Z.min ns_ttl g | None => ns_ttl end)
        end
  end.

(** * Queries *)

(** A reply is accepted when it carries the identifier and the question. *)
Definition accept_reply (bytes : option (list Z)) (id : Z) : option Message :=
  bs ← bytes;
  msg ← from_bytes bs;
  if m_id msg =? id then Some msg else None.

(** [query_one], with [query_tcp] after a truncated reply. *)
Definition query_one (server : IpAddr) (query : list Z) (id : Z) (qname : Name) (qtype qclass : Z)
  : M Message := fun s =>
  let (reply, dt) := udp_exchange (r_log s) server query in
  let s := pass_time dt (add_event (Sent server false qname qtype) s) in
  match accept_reply reply id with
  | None => (Err (Failure "no usable reply"), s)
  | Some msg =>
      if truncated msg then
        let (reply, dt) := tcp_exchange (r_log s) server query in
        let s := pass_time dt (add_event (Sent server true qname qtype) s) in
        match accept_reply reply id with
        | None => (Err (Failure "no usable reply over TCP"), s)
        | Some msg =>
            if validate_question msg qname qtype qclass then (Ok msg, s)
            else (Err (Failure "another question"), s)
        end
      else if validate_question msg qname qtype qclass then (Ok msg, s)
      else (Err (Failure "another question"), s)
  end.

(** [started.elapsed().as_secs_f64() * 1000.0]. *)
Definition millis (d : Z) : Q := (d # 1000000)%Q.

Fixpoint query_each (order : list IpAddr) (query : list Z) (id : Z) (name : Name) (qtype qclass : Z)
  : M (Message * IpAddr) :=
  match order with
  | [] => bail Unreachable
  | server :: order' =>
      let! claimed := claim in
      if negb claimed then bail (Failure "query budget exhausted")
      else
        let! started := get r_clock in
        let! reply := attempt (query_one server query id name qtype qclass) in
        match reply with
        | Ok msg =>
            modify (fun s => set_fleet (note_success (r_clock s) server (millis (r_clock s - started)) (r_fleet s)) s) ;;!
            ret (msg, server)
        | Err _ =>
            modify (fun s => set_fleet (note_failure (c_backoff_base cfg) (r_clock s) server (r_fleet s)) s) ;;!
            query_each order' query id name qtype qclass
        end
  end.

Definition query_servers (servers : list IpAddr) (name : Name) (qtype qclass : Z) : M (Message * IpAddr) :=
  let! id := get (fun s => random_id (r_log s)) in
  match build_query id name qtype qclass with
  | None => bail (Failure "query does not encode")
  | Some query =>
      let! order := get (fun s => order_servers (shuffled (r_log s)) (r_clock s) (r_fleet s) servers) in
      query_each order query id name qtype qclass
  end.

Definition usable (servers : list IpAddr) : M (list IpAddr) :=
  get (fun s => usable_roots (r_clock s) (r_fleet s) servers).

(** * Trust *)

Inductive TrustOutcome := Trusted (state : option TrustState) | Broken (verdict : Verdict).

Inductive RootTrust := RootTrusted (state : TrustState) | RootBroken (verdict : Verdict).

Inductive DnskeyError := DnskeyUnreachable (e : RErr) | DnskeyInvalid (from : IpAddr) (reason : string).

Record ValidatedKeys := mkValidated { v_keys : list DnskeyData; v_ttl : Z; v_from : IpAddr }.

Definition fetch_dnskeys (zone : Name) (servers : list IpAddr) (source : KeySource) (qclass : Z)
  : M (result ValidatedKeys DnskeyError) :=
  let! answered := attempt (query_servers servers zone T_DNSKEY qclass) in
  match answered with
  | Err e => ret (Err (DnskeyUnreachable e))
  | Ok (message, from) =>
      let! clock := get (fun s => now_secs (r_log s)) in
      match clock with
      | None => ret (Err (DnskeyUnreachable (Failure "no clock")))
      | Some now =>
          match validate_dnskey_rrset zone (answers message) (answers message) source now with
          | Err reason => ret (Err (DnskeyInvalid from reason))
          | Ok keys => ret (Ok (mkValidated keys (Validate.min_ttl (answers message) (c_default_ttl cfg)) from))
          end
      end
  end.

Definition root_trust (anchors : Anchors) (qclass : Z) : M RootTrust :=
  let! cached := keys_get root_name in
  match cached with
  | Some state => ret (RootTrusted state)
  | None =>
      let! d := best_match root_name in
      let! servers := usable (match d with Some (_, (_ :: _) as servers) => servers | _ => root_hints cfg end) in
      let! fetched := fetch_dnskeys root_name servers (FromAnchors anchors) qclass in
      match fetched with
      | Ok v =>
          modify (fun s => set_fleet (clear_blame (v_from v) (r_fleet s)) s) ;;!
          let state := KeyCache.Secure (v_keys v) in
          keys_insert root_name state (v_ttl v) ;;!
          ret (RootTrusted state)
      | Err (DnskeyInvalid from reason) =>
          modify (fun s => set_fleet
            (blame_root (c_blame_base cfg) (c_blame_cap cfg) (r_clock s) from (r_fleet s)) s) ;;!
          ret (RootBroken (VBogus "the root zone's DNSKEY RRset did not validate"))
      | Err (DnskeyUnreachable e) => bail e
      end
  end.

(** [verified_denial]: the NSEC and NSEC3 sets whose signatures verify. *)
Definition verified_records (zone : Name) (keys : list DnskeyData) (now : Z) (sigs : list WireRecord)
    (sets : list Rrset) : list WireRecord :=
  concat ((fun '(owner, rtype, rs) =>
    if (rtype =? T_NSEC) || (rtype =? T_NSEC3) then
      match verify_rrset owner rtype rs sigs keys zone now with Ok _ => rs | Err _ => [] end
    else []) <$> sets).

Definition verified_denial (authority : list WireRecord) (zone : Name) (keys : list DnskeyData) (now : Z)
  : Denial :=
  let (sets, sigs) := group_rrsets authority in from_records (verified_records zone keys now sigs sets).

(** The step from a parent's keys to a child, given the DS records and the section
    that carries the absence proof: shared by [extend_trust] and [descend_to]. *)
Definition cross_cut (parent child : Name) (parent_keys : list DnskeyData) (now : Z)
    (ds_section denial_section : list WireRecord) (servers : list IpAddr) (qclass : Z) : M TrustOutcome :=
  let insecure ttl :=
    keys_insert child KeyCache.Insecure ttl ;;! ret (Trusted (Some KeyCache.Insecure)) in
  match records_at ds_section child T_DS with
  | [] =>
      match prove_no_ds child (verified_denial denial_section parent parent_keys now) with
      | Ok _ => insecure (Validate.min_ttl denial_section (c_default_ttl cfg))
      | Err _ => ret (Broken (VBogus "the delegation cannot be shown to be unsigned"))
      end
  | ds_rrset =>
      match verify_rrset child T_DS ds_rrset ds_section parent_keys parent now with
      | Err _ => ret (Broken (VBogus "the DS RRset did not validate"))
      | Ok _ =>
          let ds := ds_records ds_rrset child in
          if negb (ds_algorithms_supported (Svcb := Svcb) ds)
          then insecure (Validate.min_ttl ds_rrset (c_default_ttl cfg))
          else
            let! fetched := fetch_dnskeys child servers (FromDs ds) qclass in
            match fetched with
            | Ok v =>
                let state := KeyCache.Secure (v_keys v) in
                keys_insert child state (v_ttl v) ;;! ret (Trusted (Some state))
            | Err _ => ret (Broken (VBogus "has a DS but its DNSKEY RRset did not validate"))
            end
      end
  end.

Definition extend_trust (parent child : Name) (parent_trust : option TrustState)
    (authority : list WireRecord) (child_servers : list IpAddr) (qclass : Z) : M TrustOutcome :=
  match parent_trust with
  | None => ret (Trusted None)
  | Some trust =>
      match KeyCache.keys trust with
      | None =>
          keys_insert child KeyCache.Insecure (c_default_ttl cfg) ;;!
          ret (Trusted (Some KeyCache.Insecure))
      | Some parent_keys =>
          let! cached := keys_get child in
          match cached with
          | Some state => ret (Trusted (Some state))
          | None =>
              let! clock := get (fun s => now_secs (r_log s)) in
              match clock with
              | None => ret (Broken (VIndeterminate "no clock"))
              | Some now => cross_cut parent child parent_keys now authority authority child_servers qclass
              end
          end
      end
  end.

(** The cuts of [descend_to] from the innermost: labels are stripped off [cursor]
    until it is [from]. *)
Fixpoint cuts_up (fuel : nat) (from cursor : Name) : list Name :=
  match fuel with
  | O => []
  | S f => if name_eqb cursor from then [] else cursor :: cuts_up f from (base_name cursor)
  end.

Fixpoint descend_loop (cuts : list Name) (parent : Name) (state : TrustState) (servers : list IpAddr)
    (qclass : Z) : M TrustOutcome :=
  match cuts with
  | [] => ret (Trusted (Some state))
  | cut :: cuts' =>
      let! cached := keys_get cut in
      match cached with
      | Some state => descend_loop cuts' cut state servers qclass
      | None =>
          match KeyCache.keys state with
          | None =>
              keys_insert cut KeyCache.Insecure (c_default_ttl cfg) ;;!
              descend_loop cuts' cut KeyCache.Insecure servers qclass
          | Some parent_keys =>
              let! clock := get (fun s => now_secs (r_log s)) in
              match clock with
              | None => ret (Broken (VIndeterminate "no clock"))
              | Some now =>
                  let! answered := attempt (query_servers servers cut T_DS qclass) in
                  match answered with
                  | Err _ => ret (Broken (VIndeterminate "could not fetch the DS RRset"))
                  | Ok (response, _) =>
                      let! outcome := cross_cut parent cut parent_keys now (answers response)
                                        (name_servers response) servers qclass in
                      match outcome with
                      | Trusted (Some state) => descend_loop cuts' cut state servers qclass
                      | Trusted None => ret (Trusted None)
                      | Broken verdict => ret (Broken verdict)
                      end
                  end
              end
          end
      end
  end.

Definition descend_to (from to : Name) (trust : option TrustState) (servers : list IpAddr) (qclass : Z)
  : M TrustOutcome :=
  match trust with
  | None => ret (Trusted None)
  | Some start =>
      match KeyCache.keys start with
      | None => ret (Trusted (Some KeyCache.Insecure))
      | Some _ =>
          if name_eqb from to || negb (zone_of from to) then ret (Trusted trust)
          else
            let cuts := rev (cuts_up (S (length (name_labels to))) from to) in
            if (MAX_HIDDEN_CUTS <? length cuts)%nat
            then ret (Broken (VIndeterminate "too many zone cuts"))
            else descend_loop cuts from start servers qclass
      end
  end.

Definition keys_for (current_zone : Name) (records : list WireRecord) (trust : option TrustState)
    (servers : list IpAddr) (qclass : Z) : M (result (Name * option TrustState) Verdict) :=
  match trust with
  | None => ret (Ok (current_zone, None))
  | Some _ =>
      match signer_below records current_zone with
      | None => ret (Ok (current_zone, trust))
      | Some signer =>
          let! outcome := descend_to current_zone signer trust servers qclass in
          match outcome with
          | Trusted state => ret (Ok (signer, state))
          | Broken verdict => ret (Err verdict)
          end
      end
  end.

(** * Verdicts *)

(** Every RRset must verify; the ones that came from a wildcard are collected. *)
Fixpoint verify_sets (sets : list Rrset) (sigs : list WireRecord) (keys : list DnskeyData) (zone : Name)
    (now : Z) : option (list (Name * Name)) :=
  match sets with
  | [] => Some []
  | (owner, rtype, rrset) :: sets' =>
      match verify_rrset owner rtype rrset sigs keys zone now with
      | Err _ => None
      | Ok facts =>
          wildcards ← verify_sets sets' sigs keys zone now;
          Some (match wildcard_closest_encloser facts with
                | Some encloser => (owner, encloser) :: wildcards
                | None => wildcards
                end)
      end
  end.

Fixpoint verify_wildcards (wildcards : list (Name * Name)) (d : Denial) : Verdict :=
  match wildcards with
  | [] => VSecure
  | (owner, encloser) :: wildcards' =>
      match prove_wildcard_expansion owner encloser d with
      | Ok Proven => verify_wildcards wildcards' d
      | Ok OptedOut => VInsecure
      | Err _ => VBogus "wildcard answer is unsubstantiated"
      end
  end.

Definition validate_answer (clock : option Z) (records : list WireRecord) (response : Message)
    (zone : Name) (trust : option TrustState) : Verdict :=
  match trust ≫= KeyCache.keys with
  | None => VInsecure
  | Some keys =>
      match clock with
      | None => VIndeterminate "no clock"
      | Some now =>
          let (sets, sigs) := group_rrsets records in
          match sets with
          | [] => VSecure
          | _ =>
              match verify_sets sets sigs keys zone now with
              | None => VBogus "answer is bogus"
              | Some [] => VSecure
              | Some wildcards =>
                  verify_wildcards wildcards (verified_denial (name_servers response) zone keys now)
              end
          end
      end
  end.

Definition validate_negative (clock : option Z) (qname : Name) (qtype rcode : Z) (response : Message)
    (zone : Name) (trust : option TrustState) : Verdict :=
  match trust ≫= KeyCache.keys with
  | None => VInsecure
  | Some keys =>
      match clock with
      | None => VIndeterminate "no clock"
      | Some now =>
          let d := verified_denial (name_servers response) zone keys now in
          if denial_is_empty d then VBogus "no validated proof"
          else match (if rcode =? NXDomain then prove_nxdomain qname zone d
                      else prove_nodata qname qtype zone d) with
               | Ok Proven => VSecure
               | Ok OptedOut => VInsecure
               | Err _ => VBogus "unproven"
               end
      end
  end.

(** * The walk *)

Definition answer (rcode : Z) (ans : list WireRecord) (v : Verdict) : Resolution := mkResolution rcode ans None v.

Definition withheld (v : Verdict) : Resolution := answer ServFail [] v.

(** [cache_glue]: by owner and type. *)
Fixpoint join_glue (r : WireRecord) (sets : list Rrset) : list Rrset :=
  match sets with
  | [] => [(w_name r, record_type r, [r])]
  | (name, t, group) :: sets' =>
      if (t =? record_type r) && names_equal name (w_name r)
      then (name, t, group ++ [r]) :: sets'
      else (name, t, group) :: join_glue r sets'
  end.

Fixpoint insert_glue (source : IpAddr) (sets : list Rrset) : M unit :=
  match sets with
  | [] => ret tt
  | (owner, rtype, rs) :: sets' =>
      modify (fun s => add_event (GotGlue source owner rtype rs)
        (set_records (RecordCache.insert (r_clock s) owner rtype rs (r_records s)) s)) ;;!
      insert_glue source sets'
  end.

Definition cache_glue (source : IpAddr) (glue_records : list WireRecord) : M unit :=
  insert_glue source (foldl (fun sets r => join_glue r sets) [] glue_records).

(** [warm_start]. *)
Definition warm_start (name : Name) : M (option (string * list IpAddr * option TrustState)) :=
  let! d := best_match name in
  match d with
  | None => ret None
  | Some (zone, servers) =>
      if negb (validating cfg) then ret (Some (zone, servers, None))
      else match from_ascii zone with
           | None => ret None
           | Some zone_name =>
               let! trust := keys_get zone_name in
               ret ((fun t => (zone, servers, Some t)) <$> trust)
           end
  end.

Section Walk.
(** The recursion into [resolve_inner]: question, class, depth and aliases seen. *)
Variable resolve_rec : Name -> Z -> Z -> nat -> list Name -> M (Resolution * list Name).

(** [resolve_ns_addresses] over the targets it tries. *)
Fixpoint ns_addresses (targets : list Name) (qclass : Z) (depth : nat) : M (list IpAddr) :=
  match targets with
  | [] => ret []
  | ns :: targets' =>
      let! cached := records_get ns T_A in
      match omap a_address (default [] cached) with
      | (_ :: _) as addrs => ret addrs
      | [] =>
          let! res := attempt (resolve_rec ns T_A qclass depth []) in
          match (match res with Ok (r, _) => omap a_address (res_answers r) | Err _ => [] end) with
          | (_ :: _) as addrs => ret addrs
          | [] => ns_addresses targets' qclass depth
          end
      end
  end.

Definition resolve_ns_addresses (ns_targets : list Name) (qclass : Z) (depth : nat) : M (list IpAddr) :=
  ns_addresses (take MAX_GLUELESS_NS ns_targets) qclass depth.

Fixpoint walk_loop (hops : nat) (name : Name) (qtype qclass : Z) (depth : nat) (seen : list Name)
    (servers : list IpAddr) (current_zone : Name) (trust : option TrustState) (visited : list string)
  : M (Resolution * list Name) :=
  match hops with
  | O => bail (Failure "too many referrals")
  | S hops' =>
      let! answered := query_servers servers name qtype qclass in
      let response := answered.1 in
      match classify response qtype with
      | SAnswer records =>
          let! keyed := keys_for current_zone records trust servers qclass in
          match keyed with
          | Err verdict => ret (withheld verdict, seen)
          | Ok (zone, zone_trust) =>
              let! clock := get (fun s => now_secs (r_log s)) in
              let verdict := validate_answer clock records response zone zone_trust in
              if withholds_answer verdict then ret (withheld verdict, seen)
              else
                (if response_code response =? NoError
                 then records_insert_with_proof answered.2 name qtype records
                        (match verdict with VSecure => true | _ => false end)
                 else ret tt) ;;!
                ret (answer (response_code response) records verdict, seen)
          end
      | SCname target records =>
          if existsb (fun n => name_eqb n target) seen then bail (Failure "CNAME loop")
          else if (MAX_CNAME_CHAIN <=? length seen)%nat then bail (Failure "CNAME chain too long")
          else
            let! keyed := keys_for current_zone records trust servers qclass in
            match keyed with
            | Err verdict => ret (withheld verdict, seen)
            | Ok (zone, zone_trust) =>
                let! clock := get (fun s => now_secs (r_log s)) in
                let hop_verdict := validate_answer clock records response zone zone_trust in
                if withholds_answer hop_verdict then ret (withheld hop_verdict, seen)
                else
                  let! sub := resolve_rec target qtype qclass (S depth) (seen ++ [target]) in
                  let verdict := verdict_merge hop_verdict (res_verdict sub.1) in
                  if withholds_answer verdict then ret (withheld verdict, sub.2)
                  else ret (answer (res_rcode sub.1) (records ++ res_answers sub.1) verdict, sub.2)
            end
      | SNegative rcode soa =>
          let! keyed := keys_for current_zone (name_servers response) trust servers qclass in
          match keyed with
          | Err verdict => ret (withheld verdict, seen)
          | Ok (zone, zone_trust) =>
              let! clock := get (fun s => now_secs (r_log s)) in
              let verdict := validate_negative clock name qtype rcode response zone zone_trust in
              if withholds_answer verdict then ret (withheld verdict, seen)
              else ret (mkResolution rcode [] soa verdict, seen)
          end
      | SReferral zone glue_records ns_targets ttl =>
          if negb (referral_in_bailiwick current_zone zone name) then bail (Failure "out-of-bailiwick referral")
          else
            let zone_key := to_lowercase (to_ascii zone) in
            if bool_decide (zone_key ∈ visited) then bail (Failure "delegation loop")
            else
              let in_bailiwick := List.filter (fun r => zone_of current_zone (w_name r)) glue_records in
              let! servers := match glue_addresses in_bailiwick with
                              | (_ :: _) as glue => ret glue
                              | [] => resolve_ns_addresses ns_targets qclass (S depth)
                              end in
              match servers with
              | [] => bail (Failure "no reachable nameservers")
              | _ =>
                  let! outcome := extend_trust current_zone zone trust (name_servers response) servers qclass in
                  match outcome with
                  | Broken verdict => ret (withheld verdict, seen)
                  | Trusted state =>
                      delegations_insert answered.2 name zone servers ttl ;;!
                      cache_glue answered.2 in_bailiwick ;;!
                      walk_loop hops' name qtype qclass depth seen servers zone state (zone_key :: visited)
                  end
              end
      end
  end.

Definition walk (name : Name) (qtype qclass : Z) (depth : nat) (seen : list Name) (servers : list IpAddr)
    (start_zone : Name) (start_trust : option TrustState) : M (Resolution * list Name) :=
  walk_loop MAX_REFERRALS name qtype qclass depth seen servers start_zone start_trust [].

(** [resolve_inner] from the roots: their keys first, when validating. *)
Definition from_the_roots (name : Name) (qtype qclass : Z) (depth : nat) (seen : list Name)
  : M (Resolution * list Name) :=
  let! trust := match c_anchors cfg with
                | None => ret (Ok None)
                | Some anchors =>
                    let! t := root_trust anchors qclass in
                    ret (match t with RootTrusted state => Ok (Some state) | RootBroken v => Err v end)
                end in
  match trust with
  | Err verdict => ret (withheld verdict, seen)
  | Ok trust =>
      let! roots := usable (root_hints cfg) in
      walk name qtype qclass depth seen roots root_name trust
  end.

Definition resolve_step (name : Name) (qtype qclass : Z) (depth : nat) (seen : list Name)
  : M (Resolution * list Name) :=
  if (MAX_RESOLUTION_DEPTH <? depth)%nat then bail (Failure "maximum resolution depth exceeded")
  else if is_arpa_subtree name then ret (answer Refused [] VInsecure, seen)
  else
    let! cached := records_get_with_proof name qtype in
    match cached with
    | Some (records, secure) =>
        ret (answer NoError records (if secure then VSecure else VInsecure), seen)
    | None =>
        let! start := warm_start name in
        match start with
        | None => from_the_roots name qtype qclass depth seen
        | Some (zone, servers, trust) =>
            let start_zone := default root_name (from_ascii zone) in
            let! servers := if is_root start_zone then usable servers else ret servers in
            let! walked := attempt (walk name qtype qclass depth seen servers start_zone trust) in
            match walked with
            | Ok resolution => ret resolution
            | Err Unreachable =>
                delegations_invalidate zone ;;! from_the_roots name qtype qclass depth seen
            | Err e => bail e
            end
        end
    end.
End Walk.

(** [resolve_inner]; depth 17 returns at once, so 18 turns are enough. *)
Fixpoint resolve_inner (fuel : nat) (name : Name) (qtype qclass : Z) (depth : nat) (seen : list Name)
  : M (Resolution * list Name) :=
  match fuel with
  | O => bail OutOfFuel
  | S f => resolve_step (resolve_inner f) name qtype qclass depth seen
  end.

Definition resolve_fuel : nat := MAX_RESOLUTION_DEPTH + 2.

Definition budget : nat :=
  if validating cfg then MAX_QUERIES_PER_RESOLUTION + VALIDATION_QUERY_BUDGET else MAX_QUERIES_PER_RESOLUTION.

(** [resolve]: a fresh allowance for each lookup. *)
Definition resolve (name : Name) (qtype qclass : Z) : M Resolution :=
  modify (set_remaining budget) ;;!
  let! r := resolve_inner resolve_fuel name qtype qclass 0 [] in
  ret r.1.

(** [prime_roots]. *)
Definition prime_roots (qclass : Z) : M unit :=
  let! d := best_match root_name in
  match d with
  | Some _ => ret tt
  | None =>
      let! primed := get r_primed in
      modify set_primed ;;!
      if (primed : bool) then ret tt
      else
        modify (set_remaining MAX_QUERIES_PER_RESOLUTION) ;;!
        let! hints := usable (root_hints cfg) in
        let! answered := attempt (query_servers hints root_name T_NS qclass) in
        match answered with
        | Err _ => ret tt
        | Ok (response, from) =>
            match omap ns_target (answers response) with
            | [] => ret tt
            | ns_names =>
                let ttl := Validate.min_ttl (answers response) (c_default_ttl cfg) in
                let glue := collect_glue_records response ns_names in
                match glue_addresses glue with
                | [] => ret tt
                | addrs =>
                    cache_glue from glue ;;!
                    delegations_insert from root_name root_name addrs ttl
                end
            end
        end
  end.

End Resolver.

Notation "'let!' x := m 'in' k" := (bind m (fun x => k))
  (at level 100, x pattern, m at level 99, k at level 200, right associativity) : rolodex_scope.

(** * The resolver behind the server *)

(** What the server sees of the outside when it walks itself: a lookup without a
    deadline is [resolve] on the caches it shares with the server; what the network
    and the other state of the resolver are then may depend on all that was asked
    before. The transports, and lookups cut off by a deadline, stay arguments. *)
Section Behind.
Context {L : DnsLib} `{DN : !DnsName Name, NO : !NameOrder Name}.
Context `{CR : !DnssecCrypto Name (WireRecord Name Svcb), ST : !ShowType Z}.
Context `{VD : !VictimChoice DelegationCache.CachedDelegation, VK : !VictimChoice (KeyCache.Entry DnskeyData)}.
Context `{VR : !VictimChoice (RecordCache.CachedRecords (WireRecord Name Svcb))}.
Context (cfg : Config).
Context (net_of : list Upstream.Event -> Network Name) (fleet_of : list Upstream.Event -> Fleet).
Context (clock_of : list Upstream.Event -> Z).
Context (udp tcp : list Upstream.Event -> list Z -> SocketAddr -> option (list Z)).
Context (secure : list Upstream.Event -> list Z -> Forwarder -> option (list Z)).
Context (listed : list Upstream.Event -> string -> bool).
Context (timed : list Upstream.Event -> Z -> Name -> Z -> Z -> resolver_state DnskeyData ->
                 option (Resolution L) * resolver_state DnskeyData).

Definition lookup_state (log : list Upstream.Event) (st : resolver_state DnskeyData) : RState :=
  let '(d, r, k) := st in mkRState d r k (fleet_of log) false (clock_of log) 0 [].

Definition own_lookup (log : list Upstream.Event) (name : Name) (qtype qclass : Z)
    (st : resolver_state DnskeyData) : option (Resolution L) * resolver_state DnskeyData :=
  let (res, s) := resolve (NW := net_of log) cfg name qtype qclass (lookup_state log st) in
  (match res with Ok r => Some r | Err _ => None end, (r_delegations s, r_records s, r_keys s)).

Definition resolver_outside : Outside L := {|
  Key := DnskeyData;
  forward_one := udp;
  forward_tcp := tcp;
  secure_query := secure;
  is_name_listed := listed;
  Upstream.resolve log deadline name qtype qclass st :=
    match deadline with
    | None => own_lookup log name qtype qclass st
    | Some d => timed log d name qtype qclass st
    end;
|}.
End Behind.
