(* ===== verification/ResolverProofs.v ===== *)
(** What a lookup of the iterative resolver guarantees ([src/src/resolver.rs]): it
    ends, within its query allowance; what it calls secure hangs on a trust anchor.
    The chain of trust is specified by [justified];
    one pass over the operations of [Resolver] shows that they implement it. *)

From S2P Require Import Prelude RustStr Names Ip Records Hickory ExpiringCache RecordCache KeyCache.
From S2P Require Import DelegationCache DnsCache Forwarder Nameservers Tiers Wire Message Validate Negative Upstream.
From S2P Require Import Rrsig Rdata Svcb Scopes Resolver.
From stdpp Require Import base gmap sets list option strings.
From Stdlib Require Import ZArith Lia Bool Ascii QArith.

Open Scope Z_scope.
Local Open Scope rolodex_scope.

(** Lemmas on single operations of a lookup. *)
Create HintDb resolver discriminated.

Section Proofs.
Context {L : DnsLib} `{DN : !DnsName Name, NO : !NameOrder Name, NW : !Network Name}.
Context `{CR : !DnssecCrypto Name (WireRecord Name Svcb), ST : !ShowType Z}.
Context `{VD : !VictimChoice DelegationCache.CachedDelegation, VK : !VictimChoice (KeyCache.Entry DnskeyData)}.
Context `{VR : !VictimChoice (RecordCache.CachedRecords (WireRecord Name Svcb))}.
Context (cfg : Config).

Abbreviation WireRecord := (WireRecord Name Svcb).
Abbreviation Message := (Message Name Svcb).
Abbreviation TrustState := (KeyCache.TrustState DnskeyData).
Abbreviation Resolution := (Resolution L).
Abbreviation Event := (REvent Name).
Abbreviation RState := (RState (L := L)).
Abbreviation M := (M (L := L)).
Abbreviation Rrset := (@Rrset Name Svcb).

(** * The chain of trust, as a specification *)

(** A verdict about a zone (by the key it is cached under): its keys are trusted, or
    it is known to be unsigned. *)
Inductive justified : string -> TrustState -> Prop :=
| J_root anchors records now keys :
    c_anchors cfg = Some anchors ->
    validate_dnskey_rrset root_name records records (FromAnchors anchors) now = Ok keys ->
    justified (KeyCache.key root_name) (KeyCache.Secure keys)
| J_signed parent child pk section now records now' keys :
    justified (KeyCache.key parent) (KeyCache.Secure pk) -> zone_of parent child = true ->
    is_ok (verify_rrset child T_DS (records_at section child T_DS) section pk parent now) ->
    validate_dnskey_rrset child records records
      (FromDs (ds_records (records_at section child T_DS) child)) now' = Ok keys ->
    justified (KeyCache.key child) (KeyCache.Secure keys)
| J_unknown_algorithm parent child pk section now :
    justified (KeyCache.key parent) (KeyCache.Secure pk) -> zone_of parent child = true ->
    is_ok (verify_rrset child T_DS (records_at section child T_DS) section pk parent now) ->
    ds_algorithms_supported (Svcb := Svcb) (ds_records (records_at section child T_DS) child) = false ->
    justified (KeyCache.key child) KeyCache.Insecure
| J_no_ds parent child pk section now :
    justified (KeyCache.key parent) (KeyCache.Secure pk) -> zone_of parent child = true ->
    is_ok (prove_no_ds child (verified_denial section parent pk now)) ->
    justified (KeyCache.key child) KeyCache.Insecure
| J_below parent child :
    justified (KeyCache.key parent) KeyCache.Insecure -> zone_of parent child = true ->
    justified (KeyCache.key child) KeyCache.Insecure.

(** A record, whatever its TTL, of an RRset that trusted keys signed. *)
Definition proven (r : WireRecord) : Prop :=
  exists zone keys owner rtype rrset sigs now r',
    justified (KeyCache.key zone) (KeyCache.Secure keys) /\
    is_ok (verify_rrset owner rtype rrset sigs keys zone now) /\
    r' ∈ rrset /\ w_name r' = w_name r /\ w_data r' = w_data r.

(** Signatures travel with what they sign and are not signed themselves. *)
Definition sound_record (r : WireRecord) : Prop := record_type r = T_RRSIG \/ proven r.

(** * What the log may say *)

Definition ok_event (e : Event) : Prop :=
  match e with
  | Sent _ _ name qtype => is_arpa_subtree name = true -> qtype = T_DS \/ qtype = T_DNSKEY
  | _ => True
  end.

Definition is_udp (e : Event) : bool := match e with Sent _ false _ _ => true | _ => false end.
Definition is_tcp (e : Event) : bool := match e with Sent _ true _ _ => true | _ => false end.

Definition udp_count (l : list Event) : nat := length (List.filter is_udp l).
Definition tcp_count (l : list Event) : nat := length (List.filter is_tcp l).

(** * The invariant of a lookup *)

(** [l0] is the log when the lookup starts, [allowance] what it may send. The facts
    about trust hold when the caches started sound. *)
Context (l0 : list Event) (allowance : nat) (sound : Prop).

Definition trust_ok (zone : Name) (t : option TrustState) : Prop :=
  sound -> match t with
           | None => validating cfg = false
           | Some st => justified (KeyCache.key zone) st
           end.

Definition keys_ok (m : gmap string (KeyCache.Entry DnskeyData)) : Prop :=
  forall k e, m !! k = Some e -> justified k (KeyCache.state e).

Definition records_ok (m : gmap string (RecordCache.CachedRecords WireRecord)) : Prop :=
  forall k e, m !! k = Some e -> RecordCache.secure e = true -> Forall sound_record (RecordCache.records e).

Definition delegations_ok (m : gmap string DelegationCache.CachedDelegation) : Prop :=
  validating cfg = true -> forall k d, m !! k = Some d ->
    k = KeyCache.key root_name \/ exists st, justified k st.

(** The caches hold nothing that is not justified. *)
Definition caches_ok (s : RState) : Prop :=
  keys_ok (r_keys s) /\ records_ok (RecordCache.entries (r_records s)) /\
  delegations_ok (DelegationCache.memory (r_delegations s)).

Definition log_ok (s : RState) : Prop :=
  exists new, r_log s = l0 ++ new /\ Forall ok_event new /\
    (udp_count new + r_remaining s <= allowance)%nat /\ (tcp_count new <= udp_count new)%nat.

Definition Inv (s : RState) : Prop := log_ok s /\ (sound -> caches_ok s).

(** The invariant is kept, a result is as promised, and fuel does not run out. *)
Definition triple {A} (m : M A) (Q : A -> Prop) : Prop :=
  forall s, Inv s -> Inv (m s).2 /\ match (m s).1 with Ok a => Q a | Err e => e <> OutOfFuel end.

Lemma triple_ret {A} (a : A) Q : Q a -> triple (ret a) Q.
Proof. by intros H s Hs. Qed.

Lemma triple_bail {A} e (Q : A -> Prop) : e <> OutOfFuel -> triple (bail e) Q.
Proof. by intros H s Hs. Qed.

Lemma triple_bind {A B} (m : M A) (k : A -> M B) Q R :
  triple m Q -> (forall a, Q a -> triple (k a) R) -> triple (bind m k) R.
Proof.
  intros Hm Hk s Hs. unfold bind. specialize (Hm s Hs). destruct (m s) as [[a|e] s']; simpl in *.
  - destruct Hm as [Hs' Ha]. by apply Hk.
  - done.
Qed.

Lemma triple_weaken {A} (m : M A) (Q R : A -> Prop) :
  triple m Q -> (forall a, Q a -> R a) -> triple m R.
Proof. intros Hm H s Hs. specialize (Hm s Hs). destruct (m s) as [[a|e] s']; naive_solver. Qed.

Lemma triple_attempt {A} (m : M A) Q :
  triple m Q -> triple (attempt m) (fun r => match r with Ok a => Q a | Err e => e <> OutOfFuel end).
Proof. intros Hm s Hs. unfold attempt. specialize (Hm s Hs). by destruct (m s) as [r s']. Qed.

Lemma triple_get {A} (f : RState -> A) : triple (get f) (fun _ => True).
Proof. by intros s Hs. Qed.

Lemma triple_modify (f : RState -> RState) :
  (forall s, Inv s -> Inv (f s)) -> triple (modify f) (fun _ => True).
Proof. intros H s Hs. split; [by apply H|done]. Qed.

(** Binding a step whose result does not matter. *)
Lemma triple_seq {A B} (m : M A) (k : A -> M B) R :
  triple m (fun _ => True) -> (forall a, triple (k a) R) -> triple (bind m k) R.
Proof. intros Hm Hk. eapply triple_bind; [done|]. by intros a _. Qed.

(** ** Single operations *)

Lemma inv_fleet f s : Inv s -> Inv (set_fleet f s). Proof. done. Qed.

Lemma inv_event e s : ok_event e -> is_udp e = false -> is_tcp e = false -> Inv s -> Inv (add_event e s).
Proof.
  intros He Hu Ht [(new & Hl & Hf & Hb & Htc) Hs]. split; [|done].
  exists (new ++ [e]). simpl. rewrite Hl, app_assoc.
  unfold udp_count, tcp_count in *. rewrite !List.filter_app. simpl. rewrite Hu, Ht, !app_nil_r.
  split_and!; try done. by apply Forall_app_2, Forall_singleton.
Qed.

Lemma caches_keys s k : caches_ok s -> keys_ok k -> caches_ok (set_keys k s).
Proof. by intros (_ & ? & ?) ?. Qed.
Lemma caches_records s r : caches_ok s -> records_ok (RecordCache.entries r) -> caches_ok (set_records r s).
Proof. by intros (? & _ & ?) ?. Qed.
Lemma caches_delegations s d :
  caches_ok s -> delegations_ok (DelegationCache.memory d) -> caches_ok (set_delegations d s).
Proof. by intros (? & ? & _) ?. Qed.

Lemma keys_ok_sub m m' : m' ⊆ m -> keys_ok m -> keys_ok m'.
Proof. intros Hsub H k e Hk. apply (H k). by eapply lookup_weaken. Qed.
Lemma records_ok_sub m m' : m' ⊆ m -> records_ok m -> records_ok m'.
Proof. intros Hsub H k e Hk. apply (H k). by eapply lookup_weaken. Qed.
Lemma delegations_ok_sub m m' : m' ⊆ m -> delegations_ok m -> delegations_ok m'.
Proof. intros Hsub H Hv k e Hk. apply (H Hv k e). by eapply lookup_weaken. Qed.

Lemma keys_get_triple zone :
  triple (keys_get zone) (fun r => forall st, r = Some st -> trust_ok zone (Some st)).
Proof.
  intros s [Hl Hs]. unfold keys_get, KeyCache.get.
  destruct (get_live _ _ _ _) as [e m] eqn:E. simpl.
  assert (m ⊆ r_keys s) as Hsub.
  { change m with (e, m).2. rewrite <- E. apply get_live_subseteq. }
  split; [split; [done|]|].
  - intros Hsound. apply caches_keys; [by apply Hs|]. eapply keys_ok_sub; [done|]. by apply Hs.
  - intros st. destruct e as [e|]; [|done]. intros [= <-] Hsound. simpl.
    assert ((get_live KeyCache.expires_at (r_clock s) (KeyCache.key zone) (r_keys s)).1 = Some e) as He
      by (by rewrite E).
    apply get_live_Some in He as [He _]. destruct (Hs Hsound) as (Hk & _). by apply (Hk _ _ He).
Qed.

Lemma keys_insert_triple zone st ttl :
  trust_ok zone (Some st) -> triple (keys_insert zone st ttl) (fun _ => True).
Proof.
  intros Ht. apply triple_modify. intros s [Hl Hs]. split; [done|]. intros Hsound.
  apply caches_keys; [by apply Hs|]. intros k e. unfold KeyCache.insert; cbv zeta.
  rewrite lookup_insert_Some. intros [[<- <-]|[_ Hk]]; [by apply Ht|].
  destruct (Hs Hsound) as (Hko & _). eapply (Hko k). eapply lookup_weaken; [done|apply reap_subseteq].
Qed.

Lemma best_match_sub fuel now n m : (DelegationCache.best_match_loop fuel now n m).2 ⊆ m.
Proof.
  revert n m. induction fuel as [|f IH]; intros n m; simpl; [done|].
  destruct (get_live _ _ _ _) as [e m'] eqn:E.
  assert (m' ⊆ m) as Hsub.
  { change m' with (e, m').2. rewrite <- E. apply get_live_subseteq. }
  destruct e; [done|]. destruct (is_root n); [done|]. etrans; [apply IH|done].
Qed.

Lemma best_match_triple name : triple (best_match name) (fun _ => True).
Proof.
  intros s [Hl Hs]. unfold best_match, DelegationCache.best_match.
  pose proof (best_match_sub (S (length (name_labels name))) (r_clock s) name
    (DelegationCache.memory (r_delegations s))) as Hsub.
  destruct (DelegationCache.best_match_loop _ _ _ _) as [r m]. simpl in *.
  split; [split; [done|]|done]. intros Hsound. apply caches_delegations; [by apply Hs|].
  eapply delegations_ok_sub; [done|]. by apply Hs.
Qed.

Lemma delegation_memory_insert now z srv ttl c k d :
  DelegationCache.memory (DelegationCache.insert now z srv ttl c) !! k = Some d ->
  k = KeyCache.key z \/ DelegationCache.memory c !! k = Some d.
Proof.
  unfold DelegationCache.insert. case_match; [by right|]. cbv zeta.
  set (m := <[_ := _]> _). intros Hin. assert (m !! k = Some d) as Hm.
  { unfold DelegationCache.try_send in Hin. by repeat case_match. }
  unfold m in Hm. rewrite lookup_insert_Some in Hm. destruct Hm as [[<- _]|[_ Hm]]; [by left|right].
  eapply lookup_weaken; [done|apply reap_subseteq].
Qed.

Lemma delegations_insert_triple source name zone srv ttl t :
  trust_ok zone t -> triple (delegations_insert source name zone srv ttl) (fun _ => True).
Proof.
  intros Ht. apply triple_modify. intros s [Hl Hs]. apply inv_event; [done..|]. split; [done|].
  intros Hsound. apply caches_delegations; [by apply Hs|]. intros Hv k d Hk.
  apply delegation_memory_insert in Hk as [->|Hk]; [right|].
  - specialize (Ht Hsound). destruct t as [st|]; [by exists st|]. congruence.
  - destruct (Hs Hsound) as (_ & _ & Hd). by eapply Hd.
Qed.

Lemma delegations_invalidate_triple zone : triple (delegations_invalidate zone) (fun _ => True).
Proof.
  apply triple_modify. intros s [Hl Hs]. split; [done|].
  intros Hsound. apply caches_delegations; [by apply Hs|]. simpl. eapply delegations_ok_sub; [apply delete_subseteq|].
  by apply Hs.
Qed.

Lemma sound_set_ttl t r : sound_record r -> sound_record (rec_set_ttl t r).
Proof. intros [H|H]; [by left|right]. done. Qed.

Lemma records_get_triple name qtype :
  triple (records_get_with_proof name qtype)
    (fun r => forall rs, r = Some (rs, true) -> sound -> Forall sound_record rs).
Proof.
  intros s [Hl Hs]. unfold records_get_with_proof, RecordCache.get_with_proof.
  destruct (get_live _ _ _ _) as [e m] eqn:E.
  assert (m ⊆ RecordCache.entries (r_records s)) as Hsub.
  { change m with (e, m).2. rewrite <- E. apply get_live_subseteq. }
  assert (Inv (set_records (RecordCache.mk m (RecordCache.default_ttl (r_records s))) s)) as HI.
  { split; [done|]. intros Hsound. apply caches_records; [by apply Hs|].
    eapply records_ok_sub; [done|]. by apply Hs. }
  destruct e as [e|]; simpl; [|done]. split; [done|]. intros rs [= <- He] Hsound.
  assert ((get_live RecordCache.expires_at (r_clock s) (RecordCache.key name qtype)
            (RecordCache.entries (r_records s))).1 = Some e) as Hg by (by rewrite E).
  apply get_live_Some in Hg as [Hg _]. destruct (Hs Hsound) as (_ & Hr & _).
  apply Forall_fmap. eapply Forall_impl; [by apply (Hr _ _ Hg)|]. intros r. apply sound_set_ttl.
Qed.

Lemma records_get_plain_triple name qtype : triple (records_get name qtype) (fun _ => True).
Proof.
  intros s Hs. pose proof (records_get_triple name qtype s Hs) as [H _].
  unfold records_get, RecordCache.get, records_get_with_proof in *.
  destruct (RecordCache.get_with_proof _ _ _ _) as [r c]. done.
Qed.

Lemma records_insert_ok now name qtype rs secure c :
  (secure = true -> Forall sound_record rs) -> records_ok (RecordCache.entries c) ->
  records_ok (RecordCache.entries (RecordCache.insert_with_proof now name qtype rs secure c)).
Proof.
  intros Hrs H. unfold RecordCache.insert_with_proof. case_match; [done|]. cbv zeta. case_match; [done|].
  intros k e. simpl. rewrite lookup_insert_Some. intros [[<- <-]|[_ Hk]]; [done|].
  eapply (H k). eapply lookup_weaken; [done|apply reap_subseteq].
Qed.

Lemma records_insert_triple source name qtype rs secure :
  (sound -> secure = true -> Forall sound_record rs) ->
  triple (records_insert_with_proof source name qtype rs secure) (fun _ => True).
Proof.
  intros Hrs. apply triple_modify. intros s [Hl Hs]. apply inv_event; [done..|]. split; [done|]. intros Hsound.
  apply caches_records; [by apply Hs|]. apply records_insert_ok; [by apply Hrs|by apply Hs].
Qed.

Lemma insert_glue_triple source sets : triple (insert_glue source sets) (fun _ => True).
Proof.
  induction sets as [|[[owner rtype] rs] sets IH]; simpl; [by apply triple_ret|].
  apply triple_seq; [|intros _; apply IH].
  apply triple_modify. intros s [Hl Hs]. apply inv_event; [done..|]. split; [done|]. intros Hsound.
  apply caches_records; [by apply Hs|]. apply records_insert_ok; [done|by apply Hs].
Qed.

(** ** Queries *)

Lemma inv_time dt s : Inv s -> Inv (pass_time dt s). Proof. done. Qed.

(** A claimed packet: the allowance pays for the datagram and its TCP retry. *)
Definition paid (s : RState) : Prop :=
  (exists new, r_log s = l0 ++ new /\ Forall ok_event new /\
     (S (udp_count new) + r_remaining s <= allowance)%nat /\ (tcp_count new <= udp_count new)%nat) /\
  (sound -> caches_ok s).

Lemma paid_inv s : paid s -> Inv s.
Proof. intros [(new & H1 & H2 & H3 & H4) Hs]. split; [|done]. exists new. split_and!; try done. lia. Qed.

Lemma paid_query s server name qtype dt :
  paid s -> ok_event (Sent server false name qtype) ->
  let s' := pass_time dt (add_event (Sent server false name qtype) s) in
  Inv s' /\ forall dt' , Inv (pass_time dt' (add_event (Sent server true name qtype) s')).
Proof.
  intros [(new & H1 & H2 & H3 & H4) Hs] He s'. split; [|intros dt'].
  - split; [|done]. exists (new ++ [Sent server false name qtype]). simpl. rewrite H1, app_assoc.
    unfold udp_count, tcp_count in *. rewrite !List.filter_app, !length_app. simpl.
    split_and!; [done|by apply Forall_app_2, Forall_singleton|lia|lia].
  - split; [|done]. exists (new ++ [Sent server false name qtype; Sent server true name qtype]).
    simpl. rewrite H1, <- !app_assoc. unfold udp_count, tcp_count in *.
    rewrite !List.filter_app, !length_app. simpl.
    split_and!; [done| |lia|lia]. apply Forall_app_2; [done|]. by repeat apply Forall_cons_2.
Qed.

Lemma query_one_inv server query id name qtype qclass s :
  paid s -> ok_event (Sent server false name qtype) ->
  Inv (query_one server query id name qtype qclass s).2 /\
  match (query_one server query id name qtype qclass s).1 with Ok _ => True | Err e => e <> OutOfFuel end.
Proof.
  intros Hp He. unfold query_one. destruct (udp_exchange _ _ _) as [reply dt].
  destruct (paid_query s server name qtype dt Hp He) as [H1 H2].
  destruct (accept_reply reply id) as [msg|]; [|done].
  destruct (truncated msg).
  - destruct (tcp_exchange _ _ _) as [reply' dt']. specialize (H2 dt').
    destruct (accept_reply reply' id) as [msg'|]; [|done]. by destruct (validate_question _ _ _ _).
  - by destruct (validate_question _ _ _ _).
Qed.

Lemma query_each_cons server order query id name qtype qclass s :
  query_each cfg (server :: order) query id name qtype qclass s =
  match r_remaining s with
  | O => (Err (Failure "query budget exhausted"), s)
  | S n =>
      match query_one server query id name qtype qclass (set_remaining n s) with
      | (Ok msg, s') =>
          (Ok (msg, server),
           set_fleet (note_success (r_clock s') server (millis (r_clock s' - r_clock s)) (r_fleet s')) s')
      | (Err _, s') =>
          query_each cfg order query id name qtype qclass
            (set_fleet (note_failure (c_backoff_base cfg) (r_clock s') server (r_fleet s')) s')
      end
  end.
Proof.
  cbn [query_each]. cbv [bind claim get attempt modify ret bail].
  destruct (r_remaining s); [done|]. cbn [negb]. by destruct (query_one _ _ _ _ _ _ _) as [[msg|e] s'].
Qed.

Lemma query_each_triple order query id name qtype qclass :
  (is_arpa_subtree name = true -> qtype = T_DS \/ qtype = T_DNSKEY) ->
  triple (query_each cfg order query id name qtype qclass) (fun _ => True).
Proof.
  intros He. induction order as [|server order IH]; intros s Hs; [by split|].
  rewrite query_each_cons. destruct (r_remaining s) as [|n] eqn:Er; [by split|].
  assert (paid (set_remaining n s)) as Hp.
  { destruct Hs as [(new & H1 & H2 & H3 & H4) Hs]. split; [|done]. exists new. simpl.
    split_and!; try done. lia. }
  pose proof (query_one_inv server query id name qtype qclass _ Hp He) as [Hq _].
  destruct (query_one _ _ _ _ _ _ _) as [[msg|e] s']; [by split|]. apply IH. by apply inv_fleet.
Qed.

Lemma query_servers_triple servers name qtype qclass :
  (is_arpa_subtree name = true -> qtype = T_DS \/ qtype = T_DNSKEY) ->
  triple (query_servers cfg servers name qtype qclass) (fun _ => True).
Proof.
  intros He. unfold query_servers. apply triple_seq; [apply triple_get|]. intros id.
  destruct (build_query cfg id name qtype qclass); [|by apply triple_bail].
  apply triple_seq; [apply triple_get|]. intros order. by apply query_each_triple.
Qed.

(** ** Trust *)

Definition fetched_ok (zone : Name) (source : KeySource) (r : result ValidatedKeys DnskeyError) : Prop :=
  match r with
  | Ok v => exists (records : list WireRecord) now,
              validate_dnskey_rrset zone records records source now = Ok (v_keys v)
  | Err (DnskeyUnreachable e) => e <> OutOfFuel
  | Err (DnskeyInvalid _ _) => True
  end.

Lemma fetch_dnskeys_triple zone servers source qclass :
  triple (fetch_dnskeys cfg zone servers source qclass) (fetched_ok zone source).
Proof.
  unfold fetch_dnskeys. eapply triple_bind; [apply triple_attempt, query_servers_triple; by right|].
  intros [[message from]|e] Ha; [|by apply triple_ret].
  apply triple_seq; [apply triple_get|]. intros [now|]; [|by apply triple_ret].
  destruct (validate_dnskey_rrset _ _ _ _ _) as [keys|reason] eqn:E; apply triple_ret; [|done].
  by exists (answers message), now.
Qed.

Lemma triple_fleet (f : RState -> Fleet) : triple (modify (fun s => set_fleet (f s) s)) (fun _ => True).
Proof. apply triple_modify. intros s. apply inv_fleet. Qed.

Lemma root_trust_triple anchors qclass :
  c_anchors cfg = Some anchors ->
  triple (root_trust cfg anchors qclass)
    (fun t => match t with RootTrusted st => trust_ok root_name (Some st) | RootBroken _ => True end).
Proof.
  intros Ha. unfold root_trust. eapply triple_bind; [apply keys_get_triple|].
  intros [state|] Hst; [apply triple_ret; by apply Hst|].
  apply triple_seq; [apply best_match_triple|]. intros d. apply triple_seq; [apply triple_get|].
  intros servers. eapply triple_bind; [apply fetch_dnskeys_triple|]. intros [v|[e|from reason]] Hv.
  - apply triple_seq; [apply triple_fleet|]. intros _.
    assert (trust_ok root_name (Some (KeyCache.Secure (v_keys v)))) as Ht.
    { intros _. destruct Hv as (records & now & Hv). by eapply J_root. }
    apply triple_seq; [by apply keys_insert_triple|]. intros _. by apply triple_ret.
  - by apply triple_bail.
  - apply triple_seq; [apply triple_fleet|]. intros _. by apply triple_ret.
Qed.

Definition outcome_ok (zone : Name) (o : TrustOutcome) : Prop :=
  match o with
  | Trusted t => trust_ok zone t
  | Broken v => withholds_answer v = true
  end.

Lemma keys_insert_outcome child st ttl :
  trust_ok child (Some st) ->
  triple (bind (keys_insert child st ttl) (fun _ => ret (Trusted (Some st)))) (outcome_ok child).
Proof. intros Ht. apply triple_seq; [by apply keys_insert_triple|]. intros _. by apply triple_ret. Qed.

Lemma cross_cut_triple parent child pk now ds_section denial_section servers qclass :
  trust_ok parent (Some (KeyCache.Secure pk)) -> zone_of parent child = true ->
  triple (cross_cut cfg parent child pk now ds_section denial_section servers qclass) (outcome_ok child).
Proof.
  intros Hp Hz. unfold cross_cut. cbv zeta.
  destruct (records_at ds_section child T_DS) as [|r rs] eqn:Eds.
  - destruct (prove_no_ds child _) as [d|] eqn:E; [|by apply triple_ret].
    apply keys_insert_outcome. intros Hs. eapply (J_no_ds parent); [by apply Hp|done|]. eexists. apply E.
  - rewrite <- Eds. destruct (verify_rrset _ _ _ _ _ _ _) as [facts|] eqn:Ev; [|by apply triple_ret].
    destruct (ds_algorithms_supported _) eqn:Ea; simpl.
    + eapply triple_bind; [apply fetch_dnskeys_triple|]. intros [v|e] Hv; [|by apply triple_ret].
      apply keys_insert_outcome. intros Hs. destruct Hv as (records & now' & Hv).
      eapply (J_signed parent); [by apply Hp|done|by eexists|done].
    + apply keys_insert_outcome. intros Hs.
      eapply (J_unknown_algorithm parent); [by apply Hp|done|by eexists|done].
Qed.

Lemma extend_trust_triple parent child trust authority servers qclass :
  trust_ok parent trust -> zone_of parent child = true ->
  triple (extend_trust cfg parent child trust authority servers qclass) (outcome_ok child).
Proof.
  intros Ht Hz. unfold extend_trust. destruct trust as [[pk|]|]; simpl.
  - eapply triple_bind; [apply keys_get_triple|].
    intros [state|] Hst; [apply triple_ret; by apply Hst|].
    apply triple_seq; [apply triple_get|]. intros [now|]; [|by apply triple_ret].
    by apply cross_cut_triple.
  - apply keys_insert_outcome. intros Hs. eapply (J_below parent); [by apply Ht|done].
  - by apply triple_ret.
Qed.

(** Each cut lies in the zone before it. *)
Fixpoint chained (parent : Name) (cuts : list Name) : Prop :=
  match cuts with [] => True | cut :: cuts' => zone_of parent cut = true /\ chained cut cuts' end.

Lemma descend_loop_triple cuts parent state servers qclass :
  trust_ok parent (Some state) -> chained parent cuts ->
  triple (descend_loop cfg cuts parent state servers qclass) (outcome_ok (default parent (last cuts))).
Proof.
  revert parent state. induction cuts as [|cut cuts IH]; intros parent state Ht Hc; [by apply triple_ret|].
  destruct Hc as [Hz Hc]. cbn [descend_loop].
  assert (default parent (last (cut :: cuts)) = default cut (last cuts)) as ->
    by (rewrite last_cons; by destruct (last cuts)).
  eapply triple_bind; [apply keys_get_triple|].
  intros [st|] Hst; [apply IH; [by apply Hst|done]|].
  destruct state as [pk|]; simpl.
  - apply triple_seq; [apply triple_get|]. intros [now|]; [|by apply triple_ret].
    eapply triple_bind; [apply triple_attempt, query_servers_triple; by left|].
    intros [[response from]|e] _; [|by apply triple_ret].
    eapply triple_bind; [by apply cross_cut_triple|]. intros [[st|]|v] Ho; simpl in Ho.
    + by apply IH.
    + apply triple_ret. intros Hs. by apply Ho.
    + by apply triple_ret.
  - assert (trust_ok cut (Some KeyCache.Insecure)) as Ht'.
    { intros Hs. eapply (J_below parent); [by apply Ht|done]. }
    apply triple_seq; [by apply keys_insert_triple|]. intros _. by apply IH.
Qed.

Context `{DL : !DnsNameLaws Name, OL : !NameOrderLaws Name}.

Lemma folded_base n : folded_labels (base_name n) = drop 1 (folded_labels n).
Proof. unfold folded_labels. by rewrite base_name_labels, fmap_drop. Qed.

Lemma zone_of_base n : zone_of (base_name n) n = true.
Proof.
  apply zone_of_labels. rewrite folded_base. exists (take 1 (folded_labels n)). by rewrite take_drop.
Qed.

Lemma chained_snoc parent l c :
  chained parent (l ++ [c]) <-> chained parent l /\ zone_of (default parent (last l)) c = true.
Proof.
  revert parent. induction l as [|x l IH]; intros parent; [simpl; tauto|].
  cbn [app chained]. rewrite IH.
  assert (default parent (last (x :: l)) = default x (last l)) as ->
    by (rewrite last_cons; by destruct (last l)).
  tauto.
Qed.

(** The loop of [descend_to] reaches [from]: the fuel is enough. *)
Lemma cuts_up_spec fuel from cursor :
  zone_of from cursor = true ->
  (length (folded_labels cursor) < length (folded_labels from) + fuel)%nat ->
  chained from (rev (cuts_up fuel from cursor)) /\
  (name_eqb cursor from = false -> head (cuts_up fuel from cursor) = Some cursor).
Proof.
  revert cursor. induction fuel as [|f IH]; intros cursor Hz Hf.
  { apply zone_of_labels in Hz. apply suffix_length in Hz. lia. }
  cbn [cuts_up]. destruct (name_eqb cursor from) eqn:E; [done|]. split; [|done].
  cbn [rev]. apply chained_snoc.
  assert (zone_of from (base_name cursor) = true /\
    (length (folded_labels (base_name cursor)) < length (folded_labels from) + f)%nat) as [Hb Hl].
  { apply zone_of_labels in Hz as [pre Hz]. rewrite folded_base, Hz. destruct pre as [|x pre].
    - exfalso. assert (name_eqb cursor from = true); [apply name_eqb_labels; by rewrite Hz|congruence].
    - simpl. rewrite drop_0. split.
      + apply zone_of_labels. rewrite folded_base, Hz. simpl. rewrite drop_0. by exists pre.
      + rewrite Hz in Hf. simpl in Hf. lia. }
  destruct (IH _ Hb Hl) as [Hc Hh]. split; [done|].
  destruct (name_eqb (base_name cursor) from) eqn:Eb.
  - assert (cuts_up f from (base_name cursor) = []) as ->; [|done]. destruct f; [done|]. simpl. by rewrite Eb.
  - specialize (Hh eq_refl). destruct (cuts_up f from (base_name cursor)) as [|c cs]; [done|].
    injection Hh as ->. cbn [rev]. rewrite last_snoc. apply zone_of_base.
Qed.

Lemma name_eqb_sym a b : name_eqb a b = name_eqb b a.
Proof. apply eq_true_iff_eq. rewrite !name_eqb_labels. split; congruence. Qed.

Lemma descend_to_triple from to trust servers qclass :
  trust_ok from trust -> name_eqb to from = false -> zone_of from to = true ->
  triple (descend_to cfg from to trust servers qclass) (outcome_ok to).
Proof.
  intros Ht He Hz. unfold descend_to. destruct trust as [start|]; [|by apply triple_ret].
  destruct start as [pk|]; cbn [KeyCache.keys].
  2:{ apply triple_ret. intros Hs. eapply (J_below from); [by apply Ht|done]. }
  rewrite name_eqb_sym, He, Hz. cbn [orb negb].
  destruct (MAX_HIDDEN_CUTS <? _)%nat; [by apply triple_ret|].
  destruct (cuts_up_spec (S (length (name_labels to))) from to Hz) as [Hc Hh].
  { unfold folded_labels at 1. rewrite length_fmap. lia. }
  specialize (Hh He). revert Hc Hh.
  destruct (cuts_up _ from to) as [|c cs]; intros Hc Hh; [done|]. injection Hh as ->.
  eapply triple_weaken; [by apply descend_loop_triple|]. intros o. cbn [rev]. by rewrite last_snoc.
Qed.

Lemma signer_loop_below (records : list WireRecord) zone signer s0 :
  (forall s, s0 = Some s -> name_eqb s zone = false /\ zone_of zone s = true) ->
  signer_loop records zone s0 = Some signer ->
  name_eqb signer zone = false /\ zone_of zone signer = true.
Proof.
  revert s0. induction records as [|r records IH]; intros s0 H0; simpl; [by apply H0|].
  destruct (as_rrsig r) as [sig|]; [|by apply IH].
  destruct (name_eqb (g_signer_name sig) zone) eqn:E1; [done|].
  destruct (zone_of zone (g_signer_name sig)) eqn:E2; [|done]. simpl.
  destruct (negb _); [done|]. destruct s0 as [seen|].
  - destruct (negb _); [done|by apply IH].
  - apply IH. by intros s [= <-].
Qed.

Definition keyed_ok (r : result (Name * option TrustState) Verdict) : Prop :=
  match r with Ok (zone, t) => trust_ok zone t | Err v => withholds_answer v = true end.

Lemma keys_for_triple current records trust servers qclass :
  trust_ok current trust -> triple (keys_for cfg current records trust servers qclass) keyed_ok.
Proof.
  intros Ht. unfold keys_for. destruct trust as [st|]; [|by apply triple_ret].
  destruct (signer_below records current) as [signer|] eqn:E; [|by apply triple_ret].
  apply signer_loop_below in E as [He Hz]; [|done].
  eapply triple_bind; [by apply descend_to_triple|]. intros [t|v] Ho; by apply triple_ret.
Qed.

(** ** Verdicts *)

Lemma join_set_elem (r x : WireRecord) sets :
  (exists o t g, (o, t, g) ∈ join_set r sets /\ x ∈ g) <->
  x = r \/ exists o t g, (o, t, g) ∈ sets /\ x ∈ g.
Proof.
  induction sets as [|[[o t] g] sets IH]; simpl.
  - split.
    + intros (o & t & g & Hin & Hx). apply list_elem_of_singleton in Hin. simplify_eq.
      left. by apply list_elem_of_singleton.
    + intros [->|(o & t & g & Hin & _)]; [|by apply elem_of_nil in Hin].
      eexists _, _, _. split; [by left|by left].
  - destruct (_ && _).
    + setoid_rewrite elem_of_cons. split.
      * intros (o' & t' & g' & [E|Hin] & Hx); [|right; naive_solver].
        simplify_eq. apply elem_of_app in Hx as [Hx|Hx%list_elem_of_singleton]; naive_solver.
      * intros [->|(o' & t' & g' & [E|Hin] & Hx)].
        -- exists o, t, (g ++ [r]). split; [by left|]. set_solver.
        -- simplify_eq. exists o, t, (g ++ [r]). split; [by left|]. set_solver.
        -- naive_solver.
    + setoid_rewrite elem_of_cons. split.
      * intros (o' & t' & g' & [E|Hin] & Hx); [right; naive_solver|].
        destruct (proj1 IH) as [|(o2 & t2 & g2 & ?)]; naive_solver.
      * intros [->|(o' & t' & g' & [E|Hin] & Hx)].
        -- destruct (proj2 IH) as (o2 & t2 & g2 & ?); [by left|]. naive_solver.
        -- naive_solver.
        -- destruct (proj2 IH) as (o2 & t2 & g2 & ?); naive_solver.
Qed.

(** Grouping loses no record that is not a signature. *)
Lemma group_rrsets_elem (records : list WireRecord) x :
  x ∈ records -> record_type x <> T_RRSIG ->
  exists o t g, (o, t, g) ∈ (group_rrsets records).1 /\ x ∈ g.
Proof.
  intros Hx Ht. unfold group_rrsets. induction records as [|r records IH] using rev_ind;
    [by apply elem_of_nil in Hx|].
  rewrite foldl_snoc. destruct (foldl group_step ([], []) records) as [sets sigs]. simpl in *.
  apply elem_of_app in Hx as [Hx|Hx%list_elem_of_singleton].
  - destruct (record_type r =? T_RRSIG); simpl; [by apply IH|]. apply join_set_elem. right. by apply IH.
  - subst r. destruct (record_type x =? T_RRSIG) eqn:E; bool_hyps; [done|]. simpl.
    apply join_set_elem. by left.
Qed.

Lemma verify_sets_all sets sigs keys zone now ws :
  verify_sets sets sigs keys zone now = Some ws ->
  forall o t g, (o, t, g) ∈ sets -> is_ok (verify_rrset o t g sigs keys zone now).
Proof.
  revert ws. induction sets as [|[[o t] g] sets IH]; intros ws H o' t' g' Hin; [by apply elem_of_nil in Hin|].
  simpl in H. destruct (verify_rrset o t g sigs keys zone now) as [f|] eqn:E; [|done].
  destruct (verify_sets sets sigs keys zone now) as [ws'|] eqn:Es; [|done].
  apply elem_of_cons in Hin as [[= -> -> ->]|Hin]; [by eexists|]. by eapply IH.
Qed.

Lemma validate_answer_secure clock records response zone trust :
  trust_ok zone trust -> validate_answer clock records response zone trust = VSecure ->
  sound -> Forall sound_record records.
Proof.
  intros Ht H Hs. specialize (Ht Hs). unfold validate_answer in H.
  destruct trust as [[keys|]|]; [|done|done]. simpl in H. destruct clock as [now|]; [|done].
  pose proof (group_rrsets_elem records) as Hg. destruct (group_rrsets records) as [sets sigs]. simpl in Hg.
  assert (forall o t g, (o, t, g) ∈ sets -> is_ok (verify_rrset o t g sigs keys zone now)) as Hv.
  { destruct sets as [|x sets]; [intros o t g Hin; by apply elem_of_nil in Hin|].
    destruct (verify_sets (x :: sets) sigs keys zone now) as [ws|] eqn:E; [|done].
    by eapply verify_sets_all. }
  apply Forall_forall. intros r Hr. destruct (Z.eq_dec (record_type r) T_RRSIG) as [Et|Et]; [by left|right].
  destruct (Hg r Hr Et) as (o & t & g & Hin & Hrg).
  exists zone, keys, o, t, g, sigs, now, r. split_and!; try done. by eapply Hv.
Qed.

Definition res_ok (r : Resolution) : Prop :=
  sound -> res_verdict r = VSecure -> Forall sound_record (res_answers r).

Lemma withheld_ok v : withholds_answer v = true -> res_ok (withheld v).
Proof. intros _ _ _. by apply Forall_nil_2. Qed.

Lemma merge_secure a b : verdict_merge a b = VSecure -> a = VSecure /\ b = VSecure.
Proof. by destruct a, b. Qed.

(** ** The walk *)

Section Rec.
Context (rec : Name -> Z -> Z -> nat -> list Name -> M (Resolution * list Name)) (depth : nat).
Context (rec_ok : forall name qtype qclass seen,
  triple (rec name qtype qclass (S depth) seen) (fun r => res_ok r.1)).

Lemma ns_addresses_triple targets qclass :
  triple (ns_addresses rec targets qclass (S depth)) (fun _ => True).
Proof.
  induction targets as [|ns targets IH]; simpl; [by apply triple_ret|].
  apply triple_seq; [apply records_get_plain_triple|]. intros cached.
  destruct (omap a_address (default [] cached)); [|by apply triple_ret].
  eapply triple_bind; [apply triple_attempt, rec_ok|]. intros res _.
  destruct (match res with Ok _ => _ | Err _ => _ end); [done|by apply triple_ret].
Qed.

Lemma referral_below current zone name :
  referral_in_bailiwick current zone name = true -> zone_of current zone = true.
Proof. unfold referral_in_bailiwick. intros H. by bool_hyps. Qed.

Lemma walk_loop_triple hops name qtype qclass seen servers current trust visited :
  is_arpa_subtree name = false -> trust_ok current trust ->
  triple (walk_loop cfg rec hops name qtype qclass depth seen servers current trust visited)
    (fun r => res_ok r.1).
Proof.
  intros Harpa. revert servers current trust visited.
  induction hops as [|hops IH]; intros servers current trust visited Ht; [by apply triple_bail|].
  cbn [walk_loop]. apply triple_seq; [apply query_servers_triple; congruence|]. intros [response from].
  cbn [fst]. destruct (classify response qtype) as [records|target records|zone glue targets ttl|rcode soa].
  - eapply triple_bind; [by apply keys_for_triple|]. intros [[zone zt]|v] Hz; simpl in Hz.
    2:{ apply triple_ret. by apply withheld_ok. }
    apply triple_seq; [apply triple_get|]. intros clock.
    destruct (withholds_answer _) eqn:Ew; [apply triple_ret; by apply withheld_ok|].
    apply triple_seq.
    + destruct (_ =? NoError); [|by apply triple_ret]. apply records_insert_triple. intros Hs Hv.
      destruct (validate_answer clock records response zone zt) eqn:Ev; try done.
      by eapply validate_answer_secure.
    + intros _. apply triple_ret. intros Hs Hv. simpl in Hv. by eapply validate_answer_secure.
  - destruct (existsb _ _); [by apply triple_bail|]. destruct (_ <=? _)%nat; [by apply triple_bail|].
    eapply triple_bind; [by apply keys_for_triple|]. intros [[zone zt]|v] Hz; simpl in Hz.
    2:{ apply triple_ret. by apply withheld_ok. }
    apply triple_seq; [apply triple_get|]. intros clock.
    destruct (withholds_answer _) eqn:Ew; [apply triple_ret; by apply withheld_ok|].
    eapply triple_bind; [apply rec_ok|]. intros sub Hsub.
    destruct (withholds_answer (verdict_merge _ _)) eqn:Em; [apply triple_ret; by apply withheld_ok|].
    apply triple_ret. intros Hs Hv. simpl in Hv. apply merge_secure in Hv as [Hv1 Hv2].
    apply Forall_app_2; [by eapply validate_answer_secure|by apply Hsub].
  - destruct (referral_in_bailiwick current zone name) eqn:Eb; [|by apply triple_bail].
    cbn [negb]. case_bool_decide; [by apply triple_bail|].
    apply triple_seq.
    { destruct (glue_addresses _); [apply ns_addresses_triple|by apply triple_ret]. }
    intros [|ip servers']; [by apply triple_bail|].
    eapply triple_bind; [apply extend_trust_triple; [done|by eapply referral_below]|].
    intros [t|v] Ho; simpl in Ho.
    2:{ apply triple_ret. by apply withheld_ok. }
    apply triple_seq; [by eapply delegations_insert_triple|]. intros _.
    apply triple_seq; [apply insert_glue_triple|intros _; by apply IH].
  - eapply triple_bind; [by apply keys_for_triple|]. intros [[zone zt]|v] Hz; simpl in Hz.
    2:{ apply triple_ret. by apply withheld_ok. }
    apply triple_seq; [apply triple_get|]. intros clock.
    destruct (withholds_answer _) eqn:Ew; [apply triple_ret; by apply withheld_ok|].
    apply triple_ret. intros Hs Hv. by apply Forall_nil_2.
Qed.

Lemma from_the_roots_triple name qtype qclass seen :
  is_arpa_subtree name = false ->
  triple (from_the_roots cfg rec name qtype qclass depth seen) (fun r => res_ok r.1).
Proof.
  intros Harpa. unfold from_the_roots.
  eapply (triple_bind _ _ (fun t => match t with Ok t => trust_ok root_name t | Err _ => True end)).
  - destruct (c_anchors cfg) as [anchors|] eqn:Ea.
    + eapply triple_bind; [by apply root_trust_triple|]. intros [st|v] Hst; by apply triple_ret.
    + apply triple_ret. intros Hs. unfold validating. by rewrite Ea.
  - intros [t|v] Ht; [|apply triple_ret; intros _ _; by apply Forall_nil_2].
    apply triple_seq; [apply triple_get|]. intros roots. by apply walk_loop_triple.
Qed.

Lemma warm_start_triple name :
  triple (warm_start cfg name)
    (fun r => forall zone servers t, r = Some (zone, servers, t) ->
       trust_ok (default root_name (from_ascii zone)) t).
Proof.
  unfold warm_start. apply triple_seq; [apply best_match_triple|].
  intros [[zone servers]|]; [|by apply triple_ret].
  destruct (validating cfg) eqn:Ev; cbn [negb].
  - destruct (from_ascii zone) as [n|] eqn:En; [|by apply triple_ret].
    eapply triple_bind; [apply keys_get_triple|]. intros [st|] Hst; apply triple_ret; [|done].
    intros z srv t [= <- <- <-]. rewrite En. by apply Hst.
  - apply triple_ret. intros z srv t [= <- <- <-] Hs. done.
Qed.

Lemma resolve_step_triple name qtype qclass seen :
  triple (resolve_step cfg rec name qtype qclass depth seen) (fun r => res_ok r.1).
Proof.
  unfold resolve_step. destruct (_ <? _)%nat; [by apply triple_bail|].
  destruct (is_arpa_subtree name) eqn:Ea; [by apply triple_ret|].
  eapply triple_bind; [apply records_get_triple|]. intros [[records secure]|] Hr.
  { apply triple_ret. intros Hs Hv. destruct secure; [|done]. by apply (Hr records). }
  eapply triple_bind; [apply warm_start_triple|]. intros [[[zone servers] t]|] Hw;
    [|by apply from_the_roots_triple].
  specialize (Hw zone servers t eq_refl).
  apply triple_seq; [destruct (is_root _); [apply triple_get|by apply triple_ret]|]. intros servers'.
  eapply triple_bind; [apply triple_attempt; by apply walk_loop_triple|].
  intros [r|[|reason|]] He; [by apply triple_ret| | |done].
  - apply triple_seq; [apply delegations_invalidate_triple|]. intros _. by apply from_the_roots_triple.
  - by apply triple_bail.
Qed.

End Rec.

Lemma resolve_inner_triple fuel name qtype qclass depth seen :
  (depth <= MAX_RESOLUTION_DEPTH + 1)%nat -> (MAX_RESOLUTION_DEPTH + 2 <= depth + fuel)%nat ->
  triple (resolve_inner cfg fuel name qtype qclass depth seen) (fun r => res_ok r.1).
Proof.
  revert name qtype qclass depth seen.
  induction fuel as [|f IH]; intros name qtype qclass depth seen Hd Hf; [lia|]. cbn [resolve_inner].
  destruct (decide (depth <= MAX_RESOLUTION_DEPTH)%nat) as [Hle|Hgt].
  - apply resolve_step_triple. intros n t c sn. apply IH; lia.
  - unfold resolve_step. rewrite (proj2 (Nat.ltb_lt _ _)) by lia. by apply triple_bail.
Qed.

Lemma resolve_fuel_ok name qtype qclass seen :
  triple (resolve_inner cfg resolve_fuel name qtype qclass 0 seen) (fun r => res_ok r.1).
Proof. apply resolve_inner_triple; unfold resolve_fuel; lia. Qed.

End Proofs.

(** * Fuel does not matter *)

Section Fuel.
Context {L : DnsLib} `{DN : !DnsName Name, NO : !NameOrder Name, NW : !Network Name}.
Context `{CR : !DnssecCrypto Name (WireRecord Name Svcb), ST : !ShowType Z}.
Context `{VD : !VictimChoice DelegationCache.CachedDelegation, VK : !VictimChoice (KeyCache.Entry DnskeyData)}.
Context `{VR : !VictimChoice (RecordCache.CachedRecords (WireRecord Name Svcb))}.
Context (cfg : Config).

Abbreviation M := (M (L := L)).

Lemma bind_ext {A B} (m m' : M A) (k k' : A -> M B) s :
  (forall s, m s = m' s) -> (forall a s, k a s = k' a s) -> bind m k s = bind m' k' s.
Proof. intros Hm Hk. unfold bind. rewrite Hm. destruct (m' s) as [[a|e] s']; [apply Hk|done]. Qed.

Lemma attempt_ext {A} (m m' : M A) s : (forall s, m s = m' s) -> attempt m s = attempt m' s.
Proof. intros H. unfold attempt. by rewrite H. Qed.

Section Ext.
Context (rec rec' : Name -> Z -> Z -> nat -> list Name -> M (Resolution L * list Name)) (depth : nat).
Context (Hrec : forall name qtype qclass seen s,
  rec name qtype qclass (S depth) seen s = rec' name qtype qclass (S depth) seen s).

Lemma ns_addresses_ext targets qclass s :
  ns_addresses rec targets qclass (S depth) s = ns_addresses rec' targets qclass (S depth) s.
Proof.
  revert s. induction targets as [|ns targets IH]; intros s; simpl; [done|].
  apply bind_ext; [done|]. intros cached s1. destruct (omap a_address _); [|done].
  apply bind_ext; [intros; by apply attempt_ext|]. intros res s2.
  by destruct (match res with Ok _ => _ | Err _ => _ end).
Qed.

Lemma walk_loop_ext hops name qtype qclass seen servers current trust visited s :
  walk_loop cfg rec hops name qtype qclass depth seen servers current trust visited s =
  walk_loop cfg rec' hops name qtype qclass depth seen servers current trust visited s.
Proof.
  revert servers current trust visited s.
  induction hops as [|hops IH]; intros servers current trust visited s; [done|]. cbn [walk_loop].
  apply bind_ext; [done|]. intros answered s1.
  destruct (classify answered.1 qtype) as [records|target records|zone glue targets ttl|rcode soa].
  - done.
  - destruct (existsb _ _); [done|]. destruct (_ <=? _)%nat; [done|].
    apply bind_ext; [done|]. intros [[zone zt]|v] s2; [|done].
    apply bind_ext; [done|]. intros clock s3. destruct (withholds_answer _); [done|].
    by apply bind_ext.
  - destruct (negb _); [done|]. case_bool_decide; [done|].
    apply bind_ext; [intros s2; destruct (glue_addresses _); [apply ns_addresses_ext|done]|].
    intros [|ip servers'] s2; [done|]. apply bind_ext; [done|]. intros [t|v] s3; [|done].
    apply bind_ext; [done|]. intros _ s4. apply bind_ext; [done|]. intros _ s5. apply IH.
  - done.
Qed.

Lemma from_the_roots_ext name qtype qclass seen s :
  from_the_roots cfg rec name qtype qclass depth seen s = from_the_roots cfg rec' name qtype qclass depth seen s.
Proof.
  apply bind_ext; [done|]. intros [t|v] s1; [|done]. apply bind_ext; [done|]. intros roots s2.
  apply walk_loop_ext.
Qed.

Lemma resolve_step_ext name qtype qclass seen s :
  resolve_step cfg rec name qtype qclass depth seen s = resolve_step cfg rec' name qtype qclass depth seen s.
Proof.
  unfold resolve_step. destruct (_ <? _)%nat; [done|]. destruct (is_arpa_subtree name); [done|].
  apply bind_ext; [done|]. intros [[records secure]|] s1; [done|].
  apply bind_ext; [done|]. intros [[[zone servers] t]|] s2; [|apply from_the_roots_ext].
  apply bind_ext; [done|]. intros servers' s3.
  apply bind_ext; [intros; apply attempt_ext, walk_loop_ext|]. intros [r|[|reason|]] s4; [done| |done|done].
  apply bind_ext; [done|]. intros _ s5. apply from_the_roots_ext.
Qed.
End Ext.

Lemma resolve_inner_fuel fuel extra name qtype qclass depth seen s :
  (depth <= MAX_RESOLUTION_DEPTH + 1)%nat -> (MAX_RESOLUTION_DEPTH + 2 <= depth + fuel)%nat ->
  resolve_inner cfg (fuel + extra) name qtype qclass depth seen s =
  resolve_inner cfg fuel name qtype qclass depth seen s.
Proof.
  revert name qtype qclass depth seen s.
  induction fuel as [|f IH]; intros name qtype qclass depth seen s Hd Hf; [lia|]. cbn [Nat.add resolve_inner].
  destruct (decide (depth <= MAX_RESOLUTION_DEPTH)%nat) as [Hle|Hgt].
  - apply resolve_step_ext. intros n t c sn s'. apply IH; lia.
  - unfold resolve_step. assert ((MAX_RESOLUTION_DEPTH <? depth)%nat = true) as -> by (apply Nat.ltb_lt; lia).
    reflexivity.
Qed.

End Fuel.

(** * Properties of a lookup *)

Section Lookup.
Context {L : DnsLib} `{DN : !DnsName Name, NO : !NameOrder Name, NW : !Network Name}.
Context `{CR : !DnssecCrypto Name (WireRecord Name Svcb), ST : !ShowType Z}.
Context `{VD : !VictimChoice DelegationCache.CachedDelegation, VK : !VictimChoice (KeyCache.Entry DnskeyData)}.
Context `{VR : !VictimChoice (RecordCache.CachedRecords (WireRecord Name Svcb))}.
Context `{DL : !DnsNameLaws Name, OL : !NameOrderLaws Name}.
Context (cfg : Config).

Abbreviation RState := (RState (L := L)).

Lemma lookup_inv (sound : Prop) name qtype qclass (s : RState) :
  (sound -> caches_ok cfg s) ->
  let r := resolve cfg name qtype qclass s in
  Inv cfg (r_log s) (budget cfg) sound r.2 /\
  match r.1 with Ok res => res_ok cfg sound res | Err e => e <> OutOfFuel end.
Proof.
  intros Hs r.
  change r with (bind (resolve_inner cfg resolve_fuel name qtype qclass 0 []) (fun r => ret r.1)
    (set_remaining (budget cfg) s)). clear r.
  assert (Inv cfg (r_log s) (budget cfg) sound
            (set_remaining (budget cfg) s)) as HI.
  { split; [|done]. exists [].
    split_and!; [by rewrite app_nil_r|by apply Forall_nil_2|apply Nat.le_refl|apply Nat.le_refl]. }
  assert (triple cfg (r_log s) (budget cfg) sound
    (bind (resolve_inner cfg resolve_fuel name qtype qclass 0 []) (fun r => ret r.1))
    (res_ok cfg sound)) as HT.
  { eapply triple_bind; [by apply resolve_fuel_ok|]. intros a Ha. by apply triple_ret. }
  exact (HT _ HI).
Qed.

(** C9: every lookup ends. Whatever the network answers, a lookup returns a
    resolution or an error of its own: the turns allowed by the depth limit are
    enough, and allowing more changes neither the result nor the state. *)
Theorem every_lookup_ends name qtype qclass (s : RState) extra :
  (resolve cfg name qtype qclass s).1 <> Err OutOfFuel /\
  resolve_inner cfg (resolve_fuel + extra) name qtype qclass 0 [] s =
    resolve_inner cfg resolve_fuel name qtype qclass 0 [] s.
Proof.
  split.
  - destruct (lookup_inv False name qtype qclass s) as [_ H]; [done|].
    intros E. by rewrite E in H.
  - apply resolve_inner_fuel; unfold resolve_fuel; lia.
Qed.

(** C10: a lookup is bounded in what it sends. Aliases, delegations without glue and
    chain validation included, one lookup sends at most 64 datagrams (96 when it
    validates), each followed by at most one retry over TCP. *)
Theorem lookup_within_budget name qtype qclass (s : RState) :
  exists new, r_log (resolve cfg name qtype qclass s).2 = r_log s ++ new /\
    (udp_count new <= if validating cfg then 96 else 64)%nat /\ (tcp_count new <= udp_count new)%nat.
Proof.
  destruct (lookup_inv False name qtype qclass s) as [[(new & H1 & _ & H3 & H4) _] _]; [done|].
  exists new. split_and!; try done. unfold budget, MAX_QUERIES_PER_RESOLUTION, VALIDATION_QUERY_BUDGET in H3.
  destruct (validating cfg); lia.
Qed.

(** The reverse tree is not walked. A lookup under [arpa.] is refused without a
    packet and without a change of state; and in no lookup, whatever aliases and
    nameserver names it runs into, is a name under [arpa.] asked for, but for the DS
    and DNSKEY records of a zone that claims to have signed an answer. *)
Theorem arpa_not_walked name qtype qclass (s : RState) :
  (is_arpa_subtree name = true ->
     resolve cfg name qtype qclass s =
       (Ok (answer Refused [] VInsecure), set_remaining (budget cfg) s)) /\
  exists new, r_log (resolve cfg name qtype qclass s).2 = r_log s ++ new /\
    forall server tcp n t, Sent server tcp n t ∈ new -> is_arpa_subtree n = true -> t = T_DS \/ t = T_DNSKEY.
Proof.
  split.
  - intros Ha. change (resolve cfg name qtype qclass s) with
      (bind (resolve_step cfg (resolve_inner cfg (MAX_RESOLUTION_DEPTH + 1)) name qtype qclass 0 [])
        (fun r => ret r.1) (set_remaining (budget cfg) s)).
    unfold bind, resolve_step. by rewrite Ha.
  - destruct (lookup_inv False name qtype qclass s) as [[(new & H1 & H2 & _) _] _]; [done|].
    rewrite Forall_forall in H2. exists new. split; [done|]. intros server tcp n t Hin. by apply (H2 _ Hin).
Qed.

(** C3: what the resolver calls secure hangs on a trust anchor. Starting from caches
    that hold nothing unjustified (none at all, or what lookups left there), a
    lookup leaves them so: every trust state recorded for a zone is derived, cut by
    cut, from a configured anchor ([justified]), and no delegation is kept below a
    cut whose trust was not settled. When the verdict is secure, every record of the
    answer, the followed aliases and what came from the cache included, other than
    the signatures themselves, belongs to an RRset whose signature verifies under
    keys so derived. *)
Theorem secure_hangs_on_anchor name qtype qclass (s : RState) :
  caches_ok cfg s ->
  caches_ok cfg (resolve cfg name qtype qclass s).2 /\
  forall res, (resolve cfg name qtype qclass s).1 = Ok res -> res_verdict res = VSecure ->
    forall r, r ∈ res_answers res -> record_type r = T_RRSIG \/
      exists zone keys owner rtype rrset sigs now r',
        justified cfg (KeyCache.key zone) (KeyCache.Secure keys) /\
        is_ok (verify_rrset owner rtype rrset sigs keys zone now) /\
        r' ∈ rrset /\ w_name r' = w_name r /\ w_data r' = w_data r.
Proof.
  intros Hs. destruct (lookup_inv True name qtype qclass s) as [[_ Hc] Hr]; [done|].
  split; [by apply Hc|]. intros res E Hv r Hin. rewrite E in Hr.
  specialize (Hr I Hv). rewrite Forall_forall in Hr. by apply Hr.
Qed.

(** A server that answers the question, whatever happened before. *)
Definition answers_always (server : IpAddr) (id : Z) (q : list Z) (name : Name) (qtype qclass : Z) : Prop :=
  forall log, exists bs dt msg,
    udp_exchange log server q = (Some bs, dt) /\ accept_reply (Some bs) id = Some msg /\
    truncated msg = false /\ validate_question msg name qtype qclass = true.

Lemma query_one_remaining server q id name qtype qclass (s : RState) :
  r_remaining (query_one server q id name qtype qclass s).2 = r_remaining s.
Proof.
  unfold query_one. destruct (udp_exchange _ _ _) as [reply dt].
  destruct (accept_reply reply id) as [msg|]; [|done]. destruct (truncated msg).
  - destruct (tcp_exchange _ _ _) as [reply' dt']. destruct (accept_reply reply' id); [|done].
    by destruct (validate_question _ _ _ _).
  - by destruct (validate_question _ _ _ _).
Qed.

Lemma query_each_answers server order q id name qtype qclass (s : RState) :
  answers_always server id q name qtype qclass -> server ∈ order -> (length order <= r_remaining s)%nat ->
  exists r, (query_each cfg order q id name qtype qclass s).1 = Ok r.
Proof.
  intros Ha. revert s. induction order as [|x order IH]; intros s Hin Hl; [by apply elem_of_nil in Hin|].
  rewrite query_each_cons. simpl in Hl. destruct (r_remaining s) as [|n] eqn:Er; [lia|].
  pose proof (query_one_remaining x q id name qtype qclass (set_remaining n s)) as Hrem.
  destruct (query_one x q id name qtype qclass (set_remaining n s)) as [[msg|e] s'] eqn:Eq; [by eexists|].
  apply elem_of_cons in Hin as [<-|Hin].
  - exfalso. destruct (Ha (r_log (set_remaining n s))) as (bs & dt & msg & H1 & H2 & H3 & H4).
    unfold query_one in Eq. rewrite H1, H2, H3, H4 in Eq. done.
  - apply IH; [done|]. simpl in *. lia.
Qed.

(** C11: one live server is enough. If any of a zone's servers answers the question,
    a query to the zone succeeds, whichever of the others are dead, forging or in
    back-off and in whatever order they are tried, as long as the allowance covers
    them. *)
Theorem one_live_server_suffices server servers name qtype qclass q (s : RState) :
  (forall log l, shuffled log l ≡ₚ l) ->
  build_query cfg (random_id (r_log s)) name qtype qclass = Some q ->
  answers_always server (random_id (r_log s)) q name qtype qclass ->
  server ∈ servers -> (length servers <= r_remaining s)%nat ->
  exists r, (query_servers cfg servers name qtype qclass s).1 = Ok r.
Proof.
  intros Hsh Hq Ha Hin Hl. unfold query_servers, bind, get. rewrite Hq.
  apply (query_each_answers server); [done| |]; by rewrite order_servers_perm.
Qed.

End Lookup.

(** * Sample networks *)

Abbreviation labels := (list string).
Abbreviation sample_msg := (Message.Message labels (SvcbData labels)).

(** The library with label lists for names and a wire format for a table. *)
Definition label_lib (tbl : list sample_msg) : DnsLib := {|
  Name := labels;
  lib_names := label_list_wire;
  lib_codec := table_codec tbl;
  lib_base64 := hex_codec;
  lib_hex := {| hex_enc := hex_encode; hex_dec := hex_decode |};
  lib_iter := default_iter;
  root_name := [];
  from_utf8 n := Some (labels_of n);
  svcb_emit _ := None;
  rcode_from high low := high * 16 + low;
|}.

#[export] Instance show_type_dec : ShowType Z := show_dec.

(** A network by a table of who answers what with what, each after a millisecond. *)
Definition table_network (replies : list (IpAddr * list Z * list Z)) : Network labels := {|
  udp_exchange _ server q :=
    ((fun e => e.2) <$> find (fun e => bool_decide (e.1 = (server, q))) replies, 1000000);
  tcp_exchange _ _ _ := (None, 1000000);
  random_id _ := 7;
  shuffled _ l := l;
  now_secs _ := Some 1500;
|}.

Definition sample_query (edns : option EdnsContext) (name : labels) (qtype : Z) : sample_msg :=
  mkMessage 7 false 0 0 false false false false false [mkQuestion name qtype class_in] [] [] [] edns.

Definition sample_reply (name : labels) (qtype : Z) (ans auth add : list (Message.WireRecord labels (SvcbData labels))) : sample_msg :=
  mkMessage 7 true 0 0 false false true false false [mkQuestion name qtype class_in] ans auth add None.

(** ** A signed root that answers for its own names *)

Definition www : labels := ["www"].
Definition edns_do : option EdnsContext := Some (mkEdns 0 EDNS_UDP_PAYLOAD true).

Definition signed_table : list sample_msg :=
  [sample_query edns_do [] T_DNSKEY; sample_reply [] T_DNSKEY (toy_dnskey_set []) [] [];
   sample_query edns_do www T_A;
   sample_reply www T_A [toy_record www (RD_A 1); toy_sig www [] T_A 1] [] []].

Definition signed_lib : DnsLib := label_lib signed_table.
Definition signed_net : Network labels := table_network [(V4 1, [0], [1]); (V4 1, [2], [3])].
Definition signed_cfg : Config :=
  mkConfig [V4 1] 300 DEFAULT_FAILURE_BACKOFF DEFAULT_BLAME_BACKOFF MAX_BLAME_BACKOFF (Some [([7; 9], 13)]).

Definition fresh {L : DnsLib} (d : DelegationCache.t) : RState :=
  mkRState d (RecordCache.new 300) ∅ empty_fleet false 0 0 [].

Definition signed_run :=
  @resolve signed_lib label_list_name label_list_order signed_net toy_crypto show_type_dec _ _ _
    signed_cfg www T_A class_in (fresh (DelegationCache.in_memory 300)).

Example signed_run_secure :
  match signed_run.1 with Ok res => Some (res_rcode res, length (res_answers res), res_verdict res) | Err _ => None end
  = Some (0, 2%nat, VSecure).
Proof. vm_compute. reflexivity. Qed.

Lemma fresh_caches_ok {L : DnsLib} `{!DnsName Name, !NameOrder Name, !DnssecCrypto Name (WireRecord Name Svcb)}
    cfg ttl : caches_ok cfg (fresh (DelegationCache.in_memory ttl)).
Proof.
  split_and!.
  - intros k e H. cbn in H. by rewrite lookup_empty in H.
  - intros k e H. cbn in H. by rewrite lookup_empty in H.
  - intros _ k e H. cbn in H. by rewrite lookup_empty in H.
Qed.

Lemma every_lookup_ends_witness : signed_run.1 <> Err OutOfFuel.
Proof. exact (proj1 (every_lookup_ends (L := signed_lib) signed_cfg www T_A class_in _ 0)). Defined.

Lemma lookup_within_budget_witness :
  exists new, r_log signed_run.2 = [] ++ new /\ (udp_count new <= 96)%nat.
Proof.
  destruct (lookup_within_budget (L := signed_lib) (NW := signed_net) signed_cfg www T_A class_in
    (fresh (DelegationCache.in_memory 300))) as (new & H1 & H2 & _).
  exists new. split; [exact H1|exact H2].
Defined.

Lemma arpa_not_walked_witness :
  @resolve signed_lib label_list_name label_list_order signed_net toy_crypto show_type_dec _ _ _
    signed_cfg ["1"; "in-addr"; "Arpa"] 12 class_in (fresh (DelegationCache.in_memory 300)) =
  (Ok (answer Refused [] VInsecure), set_remaining 96 (fresh (DelegationCache.in_memory 300))).
Proof.
  refine (proj1 (arpa_not_walked (L := signed_lib) (NW := signed_net) signed_cfg ["1"; "in-addr"; "Arpa"] 12
    class_in (fresh (DelegationCache.in_memory 300))) _).
  vm_compute. reflexivity.
Defined.

Lemma secure_hangs_on_anchor_witness :
  exists zone keys, justified (L := signed_lib) signed_cfg (KeyCache.key zone) (KeyCache.Secure keys).
Proof.
  pose proof signed_run_secure as Hs. destruct signed_run.1 as [res|e] eqn:E; [|discriminate Hs].
  assert (res_answers res = [toy_record www (RD_A 1); toy_sig www [] T_A 1]) as Ha.
  { assert (match signed_run.1 with Ok res => res_answers res | Err _ => [] end =
      [toy_record www (RD_A 1); toy_sig www [] T_A 1]) as Ha by (vm_compute; reflexivity).
    rewrite E in Ha. exact Ha. }
  pose proof (proj2 (secure_hangs_on_anchor (L := signed_lib) (NW := signed_net) signed_cfg www T_A class_in
    (fresh (DelegationCache.in_memory 300)) (fresh_caches_ok (L := signed_lib) signed_cfg 300)) res E) as H.
  destruct (H ltac:(by injection Hs) (toy_record www (RD_A 1))) as [Hr|(zone & keys & Hr)].
  - rewrite Ha. by left.
  - vm_compute in Hr. discriminate Hr.
  - destruct Hr as (? & ? & ? & ? & ? & ? & Hj & _). exists zone, keys. exact Hj.
Defined.

(** ** A delegation from the root *)

Definition host : labels := ["www"; "example"; "com"].

Definition plain_table : list sample_msg :=
  [sample_query None host T_A;
   sample_reply host T_A [] [toy_record ["com"] (RD_NS ["ns"; "com"])] [toy_record ["ns"; "com"] (RD_A 2)];
   sample_reply host T_A [] [toy_record ["example"; "com"] (RD_NS ["ns"; "example"; "com"])]
     [toy_record ["ns"; "example"; "com"] (RD_A 3); toy_record ["ns"; "com"] (RD_A 4)];
   sample_reply host T_A [toy_record host (RD_A 5)] [] []].

Definition plain_lib : DnsLib := label_lib plain_table.
Definition plain_cfg : Config :=
  mkConfig [V4 1] 300 DEFAULT_FAILURE_BACKOFF DEFAULT_BLAME_BACKOFF MAX_BLAME_BACKOFF None.

Definition plain_run (net : Network labels) (d : DelegationCache.t) :=
  @resolve plain_lib label_list_name label_list_order net toy_crypto show_type_dec _ _ _
    plain_cfg host T_A class_in (fresh d).

Definition live_net : Network labels :=
  table_network [(V4 1, [0], [1]); (V4 2, [0], [2]); (V4 3, [0], [3])].

Lemma one_live_server_suffices_witness :
  exists r, (query_servers (L := plain_lib) (NW := live_net) plain_cfg [V4 9; V4 3] host T_A class_in
    (set_remaining 64 (fresh (DelegationCache.in_memory 300)))).1 = Ok r.
Proof.
  apply (one_live_server_suffices (L := plain_lib) (NW := live_net) plain_cfg (V4 3) _ _ _ _ [0]).
  - intros log l. reflexivity.
  - vm_compute. reflexivity.
  - intros log. exists [3], 1000000. eexists. split; [vm_compute; reflexivity|].
    split; [vm_compute; reflexivity|]. split; vm_compute; reflexivity.
  - right. left.
  - vm_compute. lia.
Defined.

(** * Where the code does other than it says *)

(** An answer of nothing but signatures is secure, whoever made them: a question of
    type RRSIG is answered as authenticated without a check. *)
Theorem signatures_alone_are_secure {L : DnsLib}
    `{!DnsName Name, !NameOrder Name, !DnssecCrypto Name (WireRecord Name Svcb)}
    now records response zone keys :
  Forall (fun r => record_type r = T_RRSIG) records ->
  validate_answer (L := L) (Some now) records response zone (Some (KeyCache.Secure keys)) = VSecure.
Proof.
  intros H. unfold validate_answer. simpl.
  assert (forall sigs, foldl group_step ([], sigs) records = ([], sigs ++ records)) as Hg.
  { induction H as [|r records Hr H IH]; intros sigs; simpl; [by rewrite app_nil_r|].
    rewrite Hr. simpl. rewrite IH. by rewrite <- app_assoc. }
  unfold group_rrsets. by rewrite Hg.
Qed.

Lemma signatures_alone_are_secure_witness :
  validate_answer (L := signed_lib) (Some 9) [toy_sig www ["forged"] 1 0] (sample_reply www 46 [] [] []) []
    (Some (KeyCache.Secure [toy_key])) = VSecure.
Proof. apply signatures_alone_are_secure. by apply Forall_singleton. Defined.

(** One unreachable zone costs its parent's cached delegation: the servers of [com.]
    answer, those of the zone below do not, and [com.] is dropped from the cache. *)
Definition child_dead_net : Network labels := table_network [(V4 2, [0], [2])].
Definition warm_com : DelegationCache.t :=
  DelegationCache.insert 0 ["com"] [V4 2] 3600 (DelegationCache.in_memory 300).

Theorem dead_child_evicts_parent :
  let before := DelegationCache.memory warm_com !! "com." in
  let run := plain_run child_dead_net warm_com in
  is_Some before /\ DelegationCache.memory (r_delegations run.2) !! "com." = None /\
  run.1 = Err Unreachable.
Proof.
  assert (match (plain_run child_dead_net warm_com).1 with Err Unreachable => true | _ => false end = true) as H
    by (vm_compute; reflexivity).
  split; [vm_compute; by eexists|]. split; [vm_compute; reflexivity|].
  by destruct (plain_run child_dead_net warm_com).1 as [|[]].
Qed.

(** A secure answer need not be about the name asked for: the records of another
    name of the zone, properly signed, are returned as the answer. *)
Definition other : labels := ["other"].

Definition other_table : list sample_msg :=
  [sample_query edns_do [] T_DNSKEY; sample_reply [] T_DNSKEY (toy_dnskey_set []) [] [];
   sample_query edns_do www T_A;
   sample_reply www T_A [toy_record other (RD_A 1); toy_sig other [] T_A 1] [] []].

Definition signed_lookup (tbl : list sample_msg) (net : Network labels) :=
  @resolve (label_lib tbl) label_list_name label_list_order net toy_crypto show_type_dec _ _ _
    signed_cfg www T_A class_in (fresh (DelegationCache.in_memory 300)).

Theorem secure_answer_for_another_name :
  match (signed_lookup other_table signed_net).1 with
  | Ok res => Some (res_verdict res, bool_decide (www ∈ w_name <$> res_answers res))
  | Err _ => None
  end = Some (VSecure, false).
Proof. vm_compute. reflexivity. Qed.

(** A signature in an answer can send the resolver into the reverse tree: it asks the
    root servers for the DS records of [arpa.]. *)
Definition arpa_table : list sample_msg :=
  [sample_query edns_do [] T_DNSKEY; sample_reply [] T_DNSKEY (toy_dnskey_set []) [] [];
   sample_query edns_do www T_A;
   sample_reply www T_A [toy_record www (RD_A 1); toy_sig ["x"; "arpa"] ["arpa"] T_A 1] [] [];
   sample_query edns_do ["arpa"] T_DS].

Theorem arpa_asked_for_its_ds :
  existsb (fun e => match e with Sent _ _ n t => is_arpa_subtree (L := label_lib arpa_table) n && (t =? T_DS) | _ => false end)
    (r_log (signed_lookup arpa_table signed_net).2) = true.
Proof. vm_compute. reflexivity. Qed.
