(* ===== verification/Bailiwick.v ===== *)
(** Where what a lookup learns comes from ([src/src/resolver.rs]): every delegation,
    glue record and answer that [Resolver] puts into its caches is traced to the
    reply that gave it and to the zone that the replying server serves, a server
    being known for a zone by the root hints, by the cache or by an earlier
    delegation that is itself traced. *)

From S2P Require Import Prelude RustStr Names Ip Records Hickory ExpiringCache RecordCache KeyCache.
From S2P Require Import DelegationCache DnsCache Forwarder Nameservers Tiers Wire Message Validate Negative Upstream.
From S2P Require Import Rrsig Rdata Svcb Scopes Resolver ResolverProofs.
From stdpp Require Import base gmap sets list option strings.
From Stdlib Require Import ZArith Lia Bool Ascii QArith.

Open Scope Z_scope.
Local Open Scope rolodex_scope.

Lemma fqdn_lowercase l : to_lowercase (fqdn l) = fqdn (to_lowercase <$> l).
Proof. destruct l as [|x l]; [done|]. unfold fqdn. rewrite to_lowercase_app, to_lowercase_join. done. Qed.

(** Documented behaviour of the library: a name that was written out, its letters
    folded, is read back as the same name. *)
Class NameReads {L : DnsLib} `{!DnsName Name} :=
  key_reads (n : Name) : exists n', from_ascii (KeyCache.key n) = Some n' /\ folded_labels n' = folded_labels n.

Section Provenance.
Context {L : DnsLib} `{DN : !DnsName Name, NO : !NameOrder Name, NW : !Network Name}.
Context `{CR : !DnssecCrypto Name (WireRecord Name Svcb), ST : !ShowType Z}.
Context `{VD : !VictimChoice DelegationCache.CachedDelegation, VK : !VictimChoice (KeyCache.Entry DnskeyData)}.
Context `{VR : !VictimChoice (RecordCache.CachedRecords (WireRecord Name Svcb))}.
Context (cfg : Config).

Abbreviation WireRecord := (WireRecord Name Svcb).
Abbreviation Message := (Message Name Svcb).
Abbreviation Resolution := (Resolution L).
Abbreviation Event := (REvent Name).
Abbreviation RState := (RState (L := L)).
Abbreviation M := (M (L := L)).

(** * The specification *)

(** The log, the delegations and the records when the lookup starts. *)
Context (l0 : list Event) (m0 : gmap string DelegationCache.CachedDelegation).
Context (e0 : gmap string (RecordCache.CachedRecords WireRecord)).

(** After [log], [ip] is known as a server of [zone]. *)
Definition serves (log : list Event) (zone : Name) (ip : IpAddr) : Prop :=
  (zone = root_name /\ ip ∈ root_hints cfg) \/
  (exists d, m0 !! KeyCache.key zone = Some d /\ ip ∈ DelegationCache.servers d) \/
  (exists source z n srv, GotDelegation source z n srv ∈ log /\ KeyCache.key z = KeyCache.key zone /\ ip ∈ srv).

(** [ip] sent the message. *)
Definition replied (ip : IpAddr) (msg : Message) : Prop :=
  exists log query id bs, ((udp_exchange log ip query).1 = Some bs \/ (tcp_exchange log ip query).1 = Some bs) /\
    accept_reply (Some bs) id = Some msg.

(** What may be taken from whom: a delegation from a server of a zone strictly above
    it, on the way to a name inside it, with addresses that are glue of that zone or
    were looked up; glue of a zone from a server of that zone; an answer from a
    server of a zone that holds the name asked for. *)
Definition given (log : list Event) (e : Event) : Prop :=
  match e with
  | Sent _ _ _ _ => True
  | GotDelegation source zone name srv =>
      exists from msg qtype glue targets ttl,
        serves log from source /\ replied source msg /\
        classify msg qtype = SReferral zone glue targets ttl /\
        zone_of from zone = true /\ name_eqb zone from = false /\ zone_of zone name = true /\
        let usable := glue_addresses (List.filter (fun r => zone_of from (w_name r)) glue) in
        srv = usable \/ usable = []
  | GotGlue source owner rtype rs =>
      exists from msg, serves log from source /\ replied source msg /\ zone_of from owner = true /\
        forall r, r ∈ rs -> r ∈ additionals msg /\ zone_of from (w_name r) = true
  | GotAnswer source name qtype rs =>
      exists from msg, serves log from source /\ replied source msg /\ zone_of from name = true /\
        rs = answers msg
  end.

(** Every event is accounted for by those before it. *)
Inductive traced : list Event -> Prop :=
| T_nil : traced []
| T_snoc log e : traced log -> given log e -> traced (log ++ [e]).

(** Every delegation and every record set was there before or is one the log tells of. *)
Definition delegations_from (log : list Event) (m : gmap string DelegationCache.CachedDelegation) : Prop :=
  forall k d, m !! k = Some d ->
    m0 !! k = Some d \/
    exists source zone name, GotDelegation source zone name (DelegationCache.servers d) ∈ log /\ KeyCache.key zone = k.

Definition records_from (log : list Event) (m : gmap string (RecordCache.CachedRecords WireRecord)) : Prop :=
  forall k e, m !! k = Some e ->
    e0 !! k = Some e \/
    exists source name t, RecordCache.key name t = k /\
      (GotGlue source name t (RecordCache.records e) ∈ log \/ GotAnswer source name t (RecordCache.records e) ∈ log).

(** * The invariant *)

Definition Prov (s : RState) : Prop :=
  exists log, r_log s = l0 ++ log /\ traced log /\
    delegations_from log (DelegationCache.memory (r_delegations s)) /\
    records_from log (RecordCache.entries (r_records s)).

Definition grows (s s' : RState) : Prop := r_log s `prefix_of` r_log s'.

(** [servers] are known for [zone]. *)
Definition serving (zone : Name) (servers : list IpAddr) (s : RState) : Prop :=
  exists log, r_log s = l0 ++ log /\ forall ip, ip ∈ servers -> serves log zone ip.

(** The invariant is kept, the log only grows, and a result is as promised. *)
Definition spec {A} (P : RState -> Prop) (m : M A) (Q : A -> RState -> Prop) : Prop :=
  forall s, Prov s -> P s ->
    Prov (m s).2 /\ grows s (m s).2 /\ forall a, (m s).1 = Ok a -> Q a (m s).2.

Definition any {A} : A -> RState -> Prop := fun _ _ => True.
Definition anyst : RState -> Prop := fun _ => True.

Definition stable (P : RState -> Prop) : Prop := forall s s', grows s s' -> P s -> P s'.

Lemma serves_mono log log' zone ip : log `prefix_of` log' -> serves log zone ip -> serves log' zone ip.
Proof.
  intros [ext ->] [H|[H|(source & z & n & srv & Hin & Hz)]]; [by left|right; by left|right; right].
  exists source, z, n, srv. split; [set_solver +Hin|done].
Qed.

Lemma serving_stable zone servers : stable (serving zone servers).
Proof.
  intros s s' [ext Hext] (log & Hl & H). exists (log ++ ext). split; [by rewrite Hext, Hl, app_assoc|].
  intros ip Hip. eapply serves_mono; [|by apply H]. by exists ext.
Qed.

Lemma serving_sub zone servers servers' s :
  servers' ⊆ servers -> serving zone servers s -> serving zone servers' s.
Proof. intros Hsub (log & Hl & H). exists log. split; [done|]. intros ip Hip. by apply H, Hsub. Qed.

(** ** Rules *)

Lemma grows_same s s' : r_log s' = r_log s -> grows s s'.
Proof. unfold grows. by intros ->. Qed.
#[local] Hint Extern 0 (grows _ _) => apply grows_same; reflexivity : core.

Lemma spec_ret {A} (a : A) P (Q : A -> RState -> Prop) : (forall s, P s -> Q a s) -> spec P (ret a) Q.
Proof. intros H s Hs HP. split_and!; [done|done|]. intros a' [= <-]. by apply H. Qed.

Lemma spec_bail {A} e P (Q : A -> RState -> Prop) : spec P (bail e) Q.
Proof. intros s Hs HP. by split_and!. Qed.

(** What is stable stays known across a step. *)
Lemma spec_bind {A B} P (m : M A) (k : A -> M B) Q R :
  stable P -> spec P m Q -> (forall a, spec (fun s => P s /\ Q a s) (k a) R) -> spec P (bind m k) R.
Proof.
  intros HS Hm Hk s Hs HP. unfold bind. destruct (Hm s Hs HP) as (H1 & H2 & H3).
  destruct (m s) as [[a|e] s']; simpl in *; [|by split_and!].
  destruct (Hk a s' H1) as (H4 & H5 & H6); [split; [by eapply HS|by apply H3]|].
  split_and!; [done|unfold grows in *; by etrans|done].
Qed.

Lemma spec_pre {A} (P P' : RState -> Prop) (m : M A) Q : (forall s, P s -> P' s) -> spec P' m Q -> spec P m Q.
Proof. intros H Hm s Hs HP. apply Hm; auto. Qed.

Lemma spec_inv {A} (P P' : RState -> Prop) (m : M A) Q :
  (forall s, Prov s -> P s -> P' s) -> spec P' m Q -> spec P m Q.
Proof. intros H Hm s Hs HP. apply Hm; auto. Qed.

Lemma spec_pure {A} P (H : Prop) (m : M A) Q : (H -> spec P m Q) -> spec (fun s => P s /\ H) m Q.
Proof. intros Hm s Hs [HP HH]. by apply Hm. Qed.

Lemma spec_quiet {A} P (m : M A) : spec anyst m any -> spec P m any.
Proof. by apply spec_pre. Qed.

Lemma spec_seq {A B} P (m : M A) (k : A -> M B) R :
  stable P -> spec anyst m any -> (forall a, spec P (k a) R) -> spec P (bind m k) R.
Proof.
  intros HS Hm Hk. eapply spec_bind; [done|by apply spec_quiet|]. intros a. eapply spec_pre; [|apply Hk]. by intros s [].
Qed.

Lemma spec_attempt {A} P (m : M A) Q :
  spec P m Q -> spec P (attempt m) (fun r s => forall a, r = Ok a -> Q a s).
Proof.
  intros Hm s Hs HP. unfold attempt. destruct (Hm s Hs HP) as (H1 & H2 & H3). destruct (m s) as [r s'].
  simpl in *. split_and!; [done|done|]. by intros a [= <-].
Qed.

Lemma spec_get {A} P (f : RState -> A) : spec P (get f) any.
Proof. intros s Hs HP. by split_and!. Qed.

Lemma spec_modify P (f : RState -> RState) :
  (forall s, Prov s -> P s -> Prov (f s) /\ grows s (f s)) -> spec P (modify f) any.
Proof. intros H s Hs HP. destruct (H s Hs HP). by split_and!. Qed.

Lemma stable_any : stable anyst. Proof. done. Qed.

(** ** Changes to the state *)

Lemma delegations_mono log e m : delegations_from log m -> delegations_from (log ++ [e]) m.
Proof.
  intros H k d Hk. destruct (H k d Hk) as [?|(so & z & n & Hin & Hz)]; [by left|right].
  exists so, z, n. split; [set_solver +Hin|done].
Qed.

Lemma records_mono log e m : records_from log m -> records_from (log ++ [e]) m.
Proof.
  intros H k d Hk. destruct (H k d Hk) as [?|(so & n & t & Hz & Hin)]; [by left|right].
  exists so, n, t. split; [done|]. rewrite !elem_of_app. tauto.
Qed.

Lemma prov_event e s log :
  r_log s = l0 ++ log -> traced log -> given log e ->
  delegations_from (log ++ [e]) (DelegationCache.memory (r_delegations s)) ->
  records_from (log ++ [e]) (RecordCache.entries (r_records s)) -> Prov (add_event e s).
Proof.
  intros H1 H2 H3 H4 H5. exists (log ++ [e]). simpl. rewrite H1, app_assoc. split_and!; [done|by constructor|done|done].
Qed.

Lemma prov_delegations d s :
  DelegationCache.memory d ⊆ DelegationCache.memory (r_delegations s) -> Prov s -> Prov (set_delegations d s).
Proof.
  intros Hsub (log & H1 & H2 & H3 & H4). exists log. split_and!; try done.
  intros k e Hk. apply (H3 k e). by eapply lookup_weaken.
Qed.

Lemma prov_records r s :
  RecordCache.entries r ⊆ RecordCache.entries (r_records s) -> Prov s -> Prov (set_records r s).
Proof.
  intros Hsub (log & H1 & H2 & H3 & H4). exists log. split_and!; try done.
  intros k e Hk. apply (H4 k e). by eapply lookup_weaken.
Qed.

Lemma grows_event e s s' : r_log s' = r_log s -> grows s (add_event e s').
Proof. intros H. exists [e]. simpl. by rewrite H. Qed.

(** ** Operations that learn nothing *)

Lemma fleet_quiet (f : RState -> Fleet) : spec anyst (modify (fun s => set_fleet (f s) s)) any.
Proof. apply spec_modify. intros s Hs _. by split. Qed.

Lemma keys_get_quiet zone : spec anyst (keys_get zone) any.
Proof. intros s Hs _. unfold keys_get. destruct (KeyCache.get _ _ _). by split_and!. Qed.

Lemma keys_insert_quiet zone st ttl : spec anyst (keys_insert zone st ttl) any.
Proof. apply spec_modify. intros s Hs _. by split. Qed.

Lemma best_match_quiet name : spec anyst (best_match name) any.
Proof.
  intros s Hs _. unfold best_match, DelegationCache.best_match.
  pose proof (best_match_sub (S (length (name_labels name))) (r_clock s) name
    (DelegationCache.memory (r_delegations s))) as Hsub.
  destruct (DelegationCache.best_match_loop _ _ _ _) as [r m]. simpl in *.
  split_and!; [by apply prov_delegations|done|done].
Qed.

Lemma delegations_invalidate_quiet zone : spec anyst (delegations_invalidate zone) any.
Proof.
  apply spec_modify. intros s Hs _. split; [|done]. apply prov_delegations; [apply delete_subseteq|done].
Qed.

Lemma records_get_with_proof_quiet name qtype : spec anyst (records_get_with_proof name qtype) any.
Proof.
  intros s Hs _. unfold records_get_with_proof, RecordCache.get_with_proof.
  destruct (get_live _ _ _ _) as [e m] eqn:E.
  assert (m ⊆ RecordCache.entries (r_records s)) as Hsub.
  { change m with (e, m).2. rewrite <- E. apply get_live_subseteq. }
  destruct e as [e|]; simpl; (split_and!; [by apply prov_records|done|done]).
Qed.

Lemma records_get_quiet name qtype : spec anyst (records_get name qtype) any.
Proof.
  intros s Hs Ha. destruct (records_get_with_proof_quiet name qtype s Hs Ha) as (H1 & H2 & _).
  unfold records_get, RecordCache.get, records_get_with_proof in *.
  destruct (RecordCache.get_with_proof _ _ _ _) as [r c]. by split_and!.
Qed.

(** ** Queries *)

Context (shuffle_perm : forall log l, shuffled log l ≡ₚ l).

Lemma prov_sent server tcp name qtype dt s :
  Prov s -> Prov (pass_time dt (add_event (Sent server tcp name qtype) s)).
Proof.
  intros (log & H1 & H2 & H3 & H4). eapply (prov_event (Sent server tcp name qtype) s log); try done;
    [by apply delegations_mono|by apply records_mono].
Qed.

Lemma query_one_spec server query id name qtype qclass :
  spec anyst (query_one server query id name qtype qclass) (fun msg _ => replied server msg).
Proof.
  intros s Hs _. unfold query_one. destruct (udp_exchange (r_log s) server query) as [reply dt] eqn:Eu.
  pose proof (prov_sent server false name qtype dt s Hs) as H1.
  set (s1 := pass_time dt (add_event (Sent server false name qtype) s)) in *.
  assert (grows s s1) as G1 by by apply grows_event.
  destruct (accept_reply reply id) as [msg|] eqn:Ea; [|by split_and!].
  assert (replied server msg) as Hr.
  { destruct reply as [bs|]; [|done]. exists (r_log s), query, id, bs. rewrite Eu. split; [by left|done]. }
  destruct (truncated msg).
  - destruct (tcp_exchange (r_log s1) server query) as [reply' dt'] eqn:Et.
    pose proof (prov_sent server true name qtype dt' s1 H1) as H2.
    assert (grows s (pass_time dt' (add_event (Sent server true name qtype) s1))) as G2.
    { unfold grows in *. etrans; [done|]. by apply grows_event. }
    destruct (accept_reply reply' id) as [msg'|] eqn:Ea'; [|by split_and!].
    destruct (validate_question _ _ _ _); (split_and!; [done|done|]); [|done].
    intros a [= <-]. destruct reply' as [bs|]; [|done].
    exists (r_log s1), query, id, bs. rewrite Et. split; [by right|done].
  - destruct (validate_question _ _ _ _); (split_and!; [done|done|]); [|done]. by intros a [= <-].
Qed.

Lemma query_each_spec order query id name qtype qclass :
  spec anyst (query_each cfg order query id name qtype qclass) (fun r _ => r.2 ∈ order /\ replied r.2 r.1).
Proof.
  induction order as [|server order IH]; intros s Hs Ha; [by split_and!|].
  rewrite query_each_cons. destruct (r_remaining s) as [|n] eqn:Er; [by split_and!|].
  destruct (query_one_spec server query id name qtype qclass (set_remaining n s) Hs Ha) as (H1 & H2 & H3).
  destruct (query_one _ _ _ _ _ _ _) as [[msg|e] s']; simpl in *.
  - split_and!; [done|done|]. intros a [= <-]. simpl. split; [by left|by apply H3].
  - match goal with |- context [query_each _ _ _ _ _ _ _ ?x] => destruct (IH x H1 Ha) as (H4 & H5 & H6) end.
    split_and!; [done|unfold grows in *; by etrans|]. intros a E. destruct (H6 a E). split; [by right|done].
Qed.

Lemma query_servers_spec servers name qtype qclass :
  spec anyst (query_servers cfg servers name qtype qclass) (fun r _ => r.2 ∈ servers /\ replied r.2 r.1).
Proof.
  unfold query_servers. apply spec_seq; [done|apply spec_get|]. intros id.
  destruct (build_query cfg id name qtype qclass) as [query|]; [|by apply spec_bail].
  intros s Hs Ha. unfold bind, get.
  destruct (query_each_spec (order_servers (shuffled (r_log s)) (r_clock s) (r_fleet s) servers)
    query id name qtype qclass s Hs Ha) as (H1 & H2 & H3).
  split_and!; [done|done|]. intros a E. destruct (H3 a E) as [Hin Hr]. split; [|done].
  rewrite order_servers_perm in Hin; [done|]. intros l. apply shuffle_perm.
Qed.

Lemma spec_post {A} P (m : M A) Q : spec P m Q -> spec P m any.
Proof. intros H s Hs HP. destruct (H s Hs HP) as (? & ? & _). by split_and!. Qed.

Lemma query_servers_quiet servers name qtype qclass : spec anyst (query_servers cfg servers name qtype qclass) any.
Proof. eapply spec_post, query_servers_spec. Qed.

Lemma attempt_quiet {A} (m : M A) : spec anyst m any -> spec anyst (attempt m) any.
Proof. intros H. by eapply spec_post, spec_attempt. Qed.

(** ** Trust *)

(** Runs a sequence of steps that learn nothing. *)
Ltac quiet :=
  repeat first
    [ progress cbv zeta
    | apply spec_bail
    | by apply spec_ret
    | apply spec_get
    | apply fleet_quiet | apply keys_get_quiet | apply keys_insert_quiet | apply best_match_quiet
    | apply delegations_invalidate_quiet | apply records_get_quiet | apply records_get_with_proof_quiet
    | apply query_servers_quiet | apply attempt_quiet
    | apply spec_seq; [done| |intros ?]
    | match goal with |- spec _ (match ?x with _ => _ end) _ => destruct x end ].

Lemma fetch_dnskeys_quiet zone servers source qclass : spec anyst (fetch_dnskeys cfg zone servers source qclass) any.
Proof. unfold fetch_dnskeys. quiet. Qed.

Lemma root_trust_quiet anchors qclass : spec anyst (root_trust cfg anchors qclass) any.
Proof. unfold root_trust, usable. quiet; apply fetch_dnskeys_quiet. Qed.

Lemma cross_cut_quiet parent child pk now ds_section denial_section servers qclass :
  spec anyst (cross_cut cfg parent child pk now ds_section denial_section servers qclass) any.
Proof. unfold cross_cut. quiet; apply fetch_dnskeys_quiet. Qed.

Lemma extend_trust_quiet parent child trust authority servers qclass :
  spec anyst (extend_trust cfg parent child trust authority servers qclass) any.
Proof. unfold extend_trust. quiet; apply cross_cut_quiet. Qed.

Lemma descend_loop_quiet cuts parent state servers qclass :
  spec anyst (descend_loop cfg cuts parent state servers qclass) any.
Proof.
  revert parent state. induction cuts as [|cut cuts IH]; intros parent state; [by apply spec_ret|].
  cbn [descend_loop]. quiet; first [apply IH|apply cross_cut_quiet].
Qed.

Lemma keys_for_quiet current records trust servers qclass :
  spec anyst (keys_for cfg current records trust servers qclass) any.
Proof. unfold keys_for, descend_to. quiet. apply descend_loop_quiet. Qed.

(** ** Operations that learn *)

(** The event is accounted for now. *)
Definition gave (e : Event) (s : RState) : Prop := exists log, r_log s = l0 ++ log /\ given log e.

Lemma given_mono log log' e : log `prefix_of` log' -> given log e -> given log' e.
Proof.
  intros Hp. destruct e as [|source zone name srv|source owner t rs|source name t rs]; [done|..].
  - intros (from & msg & qt & glue & ts & ttl & Hs & H). exists from, msg, qt, glue, ts, ttl.
    split; [by eapply serves_mono|done].
  - intros (from & msg & Hs & H). exists from, msg. split; [by eapply serves_mono|done].
  - intros (from & msg & Hs & H). exists from, msg. split; [by eapply serves_mono|done].
Qed.

Lemma gave_stable e : stable (gave e).
Proof.
  intros s s' [ext Hext] (log & Hl & H). exists (log ++ ext). split; [by rewrite Hext, Hl, app_assoc|].
  eapply given_mono; [|done]. by exists ext.
Qed.

Lemma delegation_entry now z srv ttl c k d :
  DelegationCache.memory (DelegationCache.insert now z srv ttl c) !! k = Some d ->
  (k = KeyCache.key z /\ DelegationCache.servers d = srv) \/ DelegationCache.memory c !! k = Some d.
Proof.
  unfold DelegationCache.insert. case_match; [by right|]. cbv zeta.
  set (m := <[_ := _]> _). intros Hin. assert (m !! k = Some d) as Hm.
  { unfold DelegationCache.try_send in Hin. by repeat case_match. }
  unfold m in Hm. rewrite lookup_insert_Some in Hm. destruct Hm as [[<- <-]|[_ Hm]]; [by left|right].
  eapply lookup_weaken; [done|apply reap_subseteq].
Qed.

Lemma record_entry now name t rs secure (c : RecordCache.t WireRecord) k e :
  RecordCache.entries (RecordCache.insert_with_proof now name t rs secure c) !! k = Some e ->
  (k = RecordCache.key name t /\ RecordCache.records e = rs) \/ RecordCache.entries c !! k = Some e.
Proof.
  unfold RecordCache.insert_with_proof. case_match; [by right|]. cbv zeta. case_match; [by right|]. simpl.
  rewrite lookup_insert_Some. intros [[<- <-]|[_ Hm]]; [by left|right].
  eapply lookup_weaken; [done|apply reap_subseteq].
Qed.

Lemma delegations_insert_spec source name zone srv ttl :
  spec (gave (GotDelegation source zone name srv)) (delegations_insert source name zone srv ttl) any.
Proof.
  apply spec_modify. intros s (log & H1 & H2 & H3 & H4) (log' & Hl & Hg).
  assert (log' = log) as -> by (apply (app_inv_head l0); congruence).
  split; [|by apply grows_event]. eapply (prov_event _ _ log); [done..| |by apply records_mono].
  intros k d Hk. apply delegation_entry in Hk as [[-> <-]|Hk].
  - right. exists source, zone, name. split; [|done]. apply elem_of_app. right. by left.
  - exact (delegations_mono _ _ _ H3 k d Hk).
Qed.

(** Storing a record set, with the event that tells of it. *)
Lemma store_spec source name t rs secure e :
  e = GotGlue source name t rs \/ e = GotAnswer source name t rs ->
  spec (gave e) (modify (fun s => add_event e
    (set_records (RecordCache.insert_with_proof (r_clock s) name t rs secure (r_records s)) s))) any.
Proof.
  intros He. apply spec_modify. intros s (log & H1 & H2 & H3 & H4) (log' & Hl & Hg).
  assert (log' = log) as -> by (apply (app_inv_head l0); congruence).
  split; [|by apply grows_event]. eapply (prov_event _ _ log); [done|done|done|by apply delegations_mono|].
  intros k r Hk. apply record_entry in Hk as [[-> Hr]|Hk].
  - right. exists source, name, t. split; [done|]. rewrite !elem_of_app, !list_elem_of_singleton.
    subst rs. destruct He as [->| ->]; [left|right]; by right.
  - exact (records_mono _ _ _ H4 k r Hk).
Qed.

Definition glue_given (from : Name) (msg : Message) (set : @Rrset Name Svcb) : Prop :=
  let '(owner, _, rs) := set in
  zone_of from owner = true /\ forall r, r ∈ rs -> r ∈ additionals msg /\ zone_of from (w_name r) = true.

Lemma insert_glue_spec from source msg sets :
  replied source msg -> Forall (glue_given from msg) sets ->
  spec (serving from [source]) (insert_glue source sets) any.
Proof.
  intros Hr. induction sets as [|[[owner rtype] rs] sets IH]; intros H; simpl; [by apply spec_ret|].
  apply Forall_cons in H as [[Ho Hrs] H]. eapply spec_bind; [apply serving_stable| |].
  - eapply spec_pre; [|by eapply (store_spec source owner rtype rs false); left].
    intros s (log & Hl & Hserv). exists log. split; [done|]. exists from, msg.
    split_and!; [apply Hserv; by left|done|done|done].
  - intros []. eapply spec_pre; [|by apply IH]. by intros s [].
Qed.

Lemma join_glue_given from msg r sets :
  r ∈ additionals msg -> zone_of from (w_name r) = true ->
  Forall (glue_given from msg) sets -> Forall (glue_given from msg) (join_glue r sets).
Proof.
  intros Hr Hz. induction sets as [|[[owner rtype] rs] sets IH]; intros H; simpl.
  - apply Forall_singleton. split; [done|]. intros x Hx. apply list_elem_of_singleton in Hx as ->. done.
  - apply Forall_cons in H as [[Ho Hrs] H]. case_match; constructor; auto; [|by split].
    split; [done|]. intros x Hx. apply elem_of_app in Hx as [Hx|Hx]; [by apply Hrs|].
    apply list_elem_of_singleton in Hx as ->. done.
Qed.

Lemma cache_glue_spec from source msg glue :
  replied source msg -> (forall r, r ∈ glue -> r ∈ additionals msg /\ zone_of from (w_name r) = true) ->
  spec (serving from [source]) (cache_glue source glue) any.
Proof.
  intros Hr Hg. unfold cache_glue. apply (insert_glue_spec from source msg); [done|].
  assert (Forall (glue_given from msg) []) as H0 by apply Forall_nil_2. revert H0.
  generalize ([] : list (@Rrset Name Svcb)). induction glue as [|r glue IH]; intros sets H0; simpl; [done|].
  apply IH; [intros x Hx; apply Hg; by right|]. destruct (Hg r) as [? ?]; [by left|]. by apply join_glue_given.
Qed.

(** ** The walk *)

Context `{DL : !DnsNameLaws Name, OL : !NameOrderLaws Name, NR : !NameReads}.
Context (root_is_root : folded_labels root_name = []).

Lemma zone_of_root n : zone_of root_name n = true.
Proof. apply zone_of_labels. rewrite root_is_root. apply suffix_nil. Qed.

Lemma classify_answer (msg : Message) qtype records : classify msg qtype = SAnswer records -> records = answers msg.
Proof. unfold classify. cbv zeta. repeat case_match; congruence. Qed.

Lemma classify_glue (msg : Message) qtype zone glue targets ttl :
  classify msg qtype = SReferral zone glue targets ttl -> forall r, r ∈ glue -> r ∈ additionals msg.
Proof.
  unfold classify. cbv zeta. destruct (answers msg); [|by repeat case_match].
  destruct (_ =? NXDomain); [done|]. destruct (List.filter _ (name_servers msg)); [done|].
  intros [= _ <- _ _] r. unfold collect_glue_records. rewrite !list_elem_of_In, !filter_In. by intros [[? _] _].
Qed.

(** The cached delegation a walk starts from is of the name or of a zone above it. *)
Lemma best_match_ancestor fuel now name current m k srv :
  zone_of current name = true -> (DelegationCache.best_match_loop fuel now current m).1 = Some (k, srv) ->
  exists z d, k = KeyCache.key z /\ zone_of z name = true /\ m !! k = Some d /\ DelegationCache.servers d = srv.
Proof.
  revert current m. induction fuel as [|f IH]; intros current m Hz; simpl; [done|].
  destruct (get_live _ _ _ _) as [e m'] eqn:E. destruct e as [e|].
  - intros [= <- <-]. exists current, e. split_and!; try done.
    assert ((get_live DelegationCache.expires_at now (DelegationCache.zone_key current) m).1 = Some e) as He
      by (by rewrite E).
    by apply get_live_Some in He as [He _].
  - destruct (is_root current); [done|]. intros H. apply IH in H as (z & d & H1 & H2 & H3 & H4).
    + exists z, d. split_and!; try done. eapply lookup_weaken; [done|].
      change m' with (@None DelegationCache.CachedDelegation, m').2. rewrite <- E. apply get_live_subseteq.
    + apply zone_of_labels. apply zone_of_labels in Hz. etrans; [|done]. apply zone_of_labels, zone_of_base.
Qed.

Lemma zone_of_refl n : zone_of n n = true.
Proof. by apply zone_of_labels. Qed.

Lemma key_folded a b : folded_labels a = folded_labels b -> KeyCache.key a = KeyCache.key b.
Proof.
  intros H. unfold KeyCache.key. rewrite !to_ascii_labels. unfold folded_labels in H.
  by rewrite !fqdn_lowercase, H.
Qed.

Lemma best_match_serving name :
  spec anyst (best_match name) (fun r s => forall k srv, r = Some (k, srv) ->
    let zone := default root_name (from_ascii k) in zone_of zone name = true /\ serving zone srv s).
Proof.
  intros s Hs Ha. destruct (best_match_quiet name s Hs Ha) as (H1 & H2 & _). split_and!; [done|done|].
  intros r Hr k srv ->. unfold best_match, DelegationCache.best_match in *.
  destruct (DelegationCache.best_match_loop _ _ _ _) as [r m] eqn:E. simpl in Hr. injection Hr as ->.
  destruct (best_match_ancestor (S (length (name_labels name))) (r_clock s) name name
    (DelegationCache.memory (r_delegations s)) k srv) as (z & d & -> & Hz & Hk & <-);
    [apply zone_of_refl|by rewrite E|].
  destruct (key_reads z) as (z' & Hz' & Hf). rewrite Hz'. simpl. split.
  { apply zone_of_labels. rewrite Hf. by apply zone_of_labels. }
  destruct Hs as (log & Hl & _ & Hd & _). exists log. split; [done|]. intros ip Hip.
  assert (KeyCache.key z' = KeyCache.key z) as Hkey by by apply key_folded.
  right. rewrite Hkey. destruct (Hd _ _ Hk) as [H0|(so & zn & n & Hin & Hzn)]; [left; by exists d|right].
  by exists so, zn, n, (DelegationCache.servers d).
Qed.

Lemma usable_sub now f l : usable_roots now f l ⊆ l.
Proof.
  unfold usable_roots. destruct l as [|x l]; [done|]. destruct (List.filter _ _) as [|y u] eqn:E; [done|].
  rewrite <- E. intros ip. rewrite list_elem_of_In, filter_In, <- list_elem_of_In. by intros [].
Qed.

Lemma usable_spec zone servers :
  spec (serving zone servers) (usable servers) (fun u s => serving zone u s).
Proof.
  intros s Hs HP. split_and!; [done|done|]. intros a [= <-]. eapply serving_sub; [apply usable_sub|done].
Qed.

Lemma warm_start_spec name :
  spec anyst (warm_start cfg name) (fun r s => forall k srv t, r = Some (k, srv, t) ->
    let zone := default root_name (from_ascii k) in zone_of zone name = true /\ serving zone srv s).
Proof.
  unfold warm_start. eapply spec_bind; [done|apply best_match_serving|].
  intros [[k srv]|]; [|by apply spec_ret; intros s _ k srv t].
  destruct (negb _). { apply spec_ret. intros s [_ H] k' srv' t [= <- <- <-]. by apply H. }
  destruct (from_ascii k) as [n|] eqn:En; [|by apply spec_ret; intros s _ k' srv' t].
  eapply spec_bind; [|apply spec_quiet, keys_get_quiet|].
  - intros s s' Hg [_ H]. split; [done|]. intros k' srv' E. destruct (H k' srv' E) as [H1 H2].
    split; [done|]. by eapply serving_stable.
  - intros [st|]; apply spec_ret; [|done]. intros s [[_ H] _] k' srv' t [= <- <- <-]. by apply H.
Qed.

Section Rec.
Context (rec : Name -> Z -> Z -> nat -> list Name -> M (Resolution * list Name)) (depth : nat).
Context (rec_ok : forall name qtype qclass seen, spec anyst (rec name qtype qclass (S depth) seen) any).

Lemma ns_addresses_quiet targets qclass : spec anyst (ns_addresses rec targets qclass (S depth)) any.
Proof.
  induction targets as [|ns targets IH]; cbn [ns_addresses]; [by apply spec_ret|].
  quiet; first [apply rec_ok|apply IH].
Qed.

(** A referral that passes the check, in a reply of a server of [current]. *)
Lemma referral_gives current source msg qtype zone name glue targets ttl srv s :
  serving current [source] s -> replied source msg ->
  classify msg qtype = SReferral zone glue targets ttl ->
  referral_in_bailiwick current zone name = true ->
  (let usable := glue_addresses (List.filter (fun r => zone_of current (w_name r)) glue) in
   srv = usable \/ usable = []) ->
  gave (GotDelegation source zone name srv) s.
Proof.
  intros (log & Hl & Hs) Hr Hc Hb Hsrv. exists log. split; [done|].
  unfold referral_in_bailiwick in Hb. bool_hyps.
  exists current, msg, qtype, glue, targets, ttl. split_and!; try done. apply Hs. by left.
Qed.

(** After the delegation was stored, its servers are known for it. *)
Lemma delegations_insert_serving source name zone srv ttl :
  spec (gave (GotDelegation source zone name srv)) (delegations_insert source name zone srv ttl)
    (fun _ s => serving zone srv s).
Proof.
  intros s Hs HP. destruct (delegations_insert_spec source name zone srv ttl s Hs HP) as (H1 & H2 & _).
  split_and!; [done|done|]. intros _ _. destruct HP as (log & Hl & _).
  exists (log ++ [GotDelegation source zone name srv]). simpl. rewrite Hl, app_assoc. split; [done|].
  intros ip Hip. right. right. exists source, zone, name, srv. split; [|done]. apply elem_of_app. right. by left.
Qed.

Lemma walk_referral_spec hops name qtype qclass seen response source current zone glue targets ttl srv state visited :
  (forall servers current trust visited, zone_of current name = true ->
     spec (serving current servers)
       (walk_loop cfg rec hops name qtype qclass depth seen servers current trust visited) any) ->
  replied source response -> classify response qtype = SReferral zone glue targets ttl ->
  referral_in_bailiwick current zone name = true ->
  let in_bailiwick := List.filter (fun r => zone_of current (w_name r)) glue in
  srv = glue_addresses in_bailiwick \/ glue_addresses in_bailiwick = [] ->
  spec (serving current [source])
    (bind (delegations_insert source name zone srv ttl) (fun _ =>
     bind (cache_glue source in_bailiwick) (fun _ =>
     walk_loop cfg rec hops name qtype qclass depth seen srv zone state visited))) any.
Proof.
  intros IH Hr Hc Hb in_bailiwick Hsrv. eapply spec_bind; [apply serving_stable| |].
  { eapply spec_pre; [|apply delegations_insert_serving]. intros s Hs. by eapply referral_gives. }
  intros []. eapply (spec_bind _ _ _ any).
  - intros s s' Hg [H1 H2]. split; by eapply serving_stable.
  - eapply spec_pre; [|apply (cache_glue_spec current source response); [done|]]; [by intros s []|].
    intros r. unfold in_bailiwick. rewrite list_elem_of_In, filter_In, <- list_elem_of_In.
    intros [Hin Hz]. split; [by eapply classify_glue|done].
  - intros []. eapply spec_pre; [|apply IH]; [by intros s [[_ H] _]|].
    unfold referral_in_bailiwick in Hb. by bool_hyps.
Qed.

(** An answer to the question, from a server of a zone that holds the name. *)
Lemma walk_answer_spec current source name qtype response secure :
  zone_of current name = true -> replied source response ->
  spec (serving current [source]) (records_insert_with_proof source name qtype (answers response) secure) any.
Proof.
  intros Hz Hr. eapply spec_pre; [|by eapply store_spec; right].
  intros s (log & Hl & Hs). exists log. split; [done|]. exists current, response.
  split_and!; [apply Hs; by left|done|done|done].
Qed.

Lemma walk_loop_spec hops name qtype qclass seen servers current trust visited :
  zone_of current name = true ->
  spec (serving current servers)
    (walk_loop cfg rec hops name qtype qclass depth seen servers current trust visited) any.
Proof.
  revert servers current trust visited.
  induction hops as [|hops IH]; intros servers current trust visited Hz; [by apply spec_bail|].
  cbn [walk_loop]. eapply spec_bind; [apply serving_stable|by eapply spec_pre, query_servers_spec|].
  intros [response source]. cbn [fst snd].
  eapply (spec_pre _ (fun s => serving current [source] s /\ replied source response)).
  { intros s (H1 & H2 & H3). split; [|done]. eapply serving_sub; [|done]. by intros ip ->%list_elem_of_singleton. }
  apply spec_pure. intros Hr.
  destruct (classify response qtype) as [records|target records|zone glue targets ttl|rcode soa] eqn:Ec.
  - apply spec_seq; [apply serving_stable|apply keys_for_quiet|]. intros [[zone zt]|v]; [|by apply spec_ret].
    apply spec_seq; [apply serving_stable|apply spec_get|]. intros clock.
    destruct (withholds_answer _); [by apply spec_ret|]. apply classify_answer in Ec as ->.
    eapply (spec_bind _ _ _ any); [apply serving_stable| |by intros; apply spec_ret].
    destruct (_ =? NoError); [by apply walk_answer_spec|by apply spec_ret].
  - apply spec_quiet. quiet; first [apply keys_for_quiet|apply rec_ok].
  - destruct (referral_in_bailiwick current zone name) eqn:Eb; [|by apply spec_bail].
    cbn [negb]. case_bool_decide; [by apply spec_bail|].
    set (inb := List.filter _ glue).
    eapply (spec_bind _ _ _ (fun srv _ => srv = glue_addresses inb \/ glue_addresses inb = []));
      [apply serving_stable| |].
    { destruct (glue_addresses inb) as [|ip l] eqn:Eg; [|apply spec_ret; by left].
      intros s Hs HP. destruct (ns_addresses_quiet (take MAX_GLUELESS_NS targets) qclass s Hs I) as (? & ? & _).
      split_and!; [done|done|]. intros; by right. }
    intros srv. apply spec_pure. intros Hsrv. destruct srv as [|ip srv]; [by apply spec_bail|].
    apply spec_seq; [apply serving_stable|apply extend_trust_quiet|]. intros [state|v]; [|by apply spec_ret].
    by eapply walk_referral_spec.
  - apply spec_quiet. quiet; apply keys_for_quiet.
Qed.

Lemma hints_serve s : Prov s -> serving root_name (root_hints cfg) s.
Proof. intros (log & Hl & _). exists log. split; [done|]. intros ip Hip. by left. Qed.

Lemma from_the_roots_quiet name qtype qclass seen :
  spec anyst (from_the_roots cfg rec name qtype qclass depth seen) any.
Proof.
  unfold from_the_roots. apply spec_seq; [done|quiet; apply root_trust_quiet|].
  intros [t|v]; [|by apply spec_ret].
  eapply (spec_inv _ (serving root_name (root_hints cfg))); [intros s Hs _; by apply hints_serve|].
  eapply spec_bind; [apply serving_stable|apply usable_spec|]. intros roots.
  eapply spec_pre; [|apply walk_loop_spec, zone_of_root]. by intros s [].
Qed.

Lemma resolve_step_quiet name qtype qclass seen :
  spec anyst (resolve_step cfg rec name qtype qclass depth seen) any.
Proof.
  unfold resolve_step. destruct (_ <? _)%nat; [by apply spec_bail|].
  destruct (is_arpa_subtree name); [by apply spec_ret|].
  apply spec_seq; [done|apply records_get_with_proof_quiet|].
  intros [[records secure]|]; [by apply spec_ret|].
  eapply spec_bind; [done|apply warm_start_spec|].
  intros [[[k srv] t]|]; [|apply spec_quiet, from_the_roots_quiet]. cbv zeta.
  set (zone := default root_name (from_ascii k)).
  eapply (spec_pre _ (fun s => serving zone srv s /\ zone_of zone name = true)).
  { intros s [_ H]. destruct (H k srv t eq_refl). by split. }
  apply spec_pure. intros Hz. eapply spec_bind; [apply serving_stable| |].
  { destruct (is_root zone); [apply usable_spec|by apply spec_ret]. }
  intros srv'. eapply (spec_pre _ (serving zone srv')); [by intros s [_ ?]|].
  eapply spec_bind; [apply serving_stable|by apply spec_attempt, walk_loop_spec|].
  intros [r|[|reason|]]; [by apply spec_ret| |by apply spec_bail..].
  apply spec_quiet, spec_seq; [done|apply delegations_invalidate_quiet|]. intros _. apply from_the_roots_quiet.
Qed.

End Rec.

Lemma resolve_inner_quiet fuel name qtype qclass depth seen :
  spec anyst (resolve_inner cfg fuel name qtype qclass depth seen) any.
Proof.
  revert name qtype qclass depth seen.
  induction fuel as [|f IH]; intros name qtype qclass depth seen; [by apply spec_bail|].
  apply resolve_step_quiet. intros n t c sn. apply IH.
Qed.

Lemma traced_given log pre e post : traced log -> log = pre ++ e :: post -> given pre e.
Proof.
  intros H. revert post. induction H as [|log e' H IH Hg]; intros post E; [by destruct pre|].
  destruct post as [|x post _] using rev_ind.
  - apply app_inj_tail in E as [-> ->]. done.
  - rewrite app_comm_cons, app_assoc in E. apply app_inj_tail in E as [E _]. by apply (IH post).
Qed.

End Provenance.

Section Lookup.
Context {L : DnsLib} `{DN : !DnsName Name, NO : !NameOrder Name, NW : !Network Name}.
Context `{CR : !DnssecCrypto Name (WireRecord Name Svcb), ST : !ShowType Z}.
Context `{VD : !VictimChoice DelegationCache.CachedDelegation, VK : !VictimChoice (KeyCache.Entry DnskeyData)}.
Context `{VR : !VictimChoice (RecordCache.CachedRecords (WireRecord Name Svcb))}.
Context `{DL : !DnsNameLaws Name, OL : !NameOrderLaws Name, NR : !NameReads}.
Context (cfg : Config).

(** C4: nothing is learned out of bailiwick. An address counts as a server of a zone
    when the root hints list it (for the root), when the delegation cache listed it
    for that zone before the lookup, or when the lookup stored a delegation of that
    zone to it earlier ([serves]). Every delegation cached after a lookup was cached
    before, or its zone and addresses were stored in the course of it; the zone was
    then named by a referral in a message that came from an address known by then as
    a server of a zone strictly above it, on the way to a name inside it, and its
    addresses are the glue of that message that lies inside the referring zone,
    unless there was none such. Every record set in the record cache was there before,
    or is glue inside the zone of the server that sent it, or is the answer of a
    server of a zone that holds the name it is stored under. So a server can redirect
    only what lies below the zones it was delegated. The shuffle is taken to return
    what it was given, and names to survive being written and read. *)
Theorem learns_only_in_bailiwick name qtype qclass (s : RState (L := L)) :
  (forall log l, shuffled log l ≡ₚ l) -> folded_labels root_name = [] ->
  let m0 := DelegationCache.memory (r_delegations s) in
  let after := (resolve cfg name qtype qclass s).2 in
  exists new, r_log after = r_log s ++ new /\
    (forall k d, DelegationCache.memory (r_delegations after) !! k = Some d ->
       m0 !! k = Some d \/
       exists source zone n, GotDelegation source zone n (DelegationCache.servers d) ∈ new /\ KeyCache.key zone = k) /\
    (forall k e, RecordCache.entries (r_records after) !! k = Some e ->
       RecordCache.entries (r_records s) !! k = Some e \/
       exists source n t, RecordCache.key n t = k /\
         (GotGlue source n t (RecordCache.records e) ∈ new \/ GotAnswer source n t (RecordCache.records e) ∈ new)) /\
    (forall pre post source zone n srv, new = pre ++ GotDelegation source zone n srv :: post ->
       exists from msg qt glue targets ttl,
         serves cfg m0 pre from source /\ replied source msg /\ classify msg qt = SReferral zone glue targets ttl /\
         zone_of from zone = true /\ name_eqb zone from = false /\ zone_of zone n = true /\
         let usable := glue_addresses (List.filter (fun r => zone_of from (w_name r)) glue) in
         srv = usable \/ usable = []) /\
    (forall pre post source owner t rs, new = pre ++ GotGlue source owner t rs :: post ->
       exists from msg, serves cfg m0 pre from source /\ replied source msg /\ zone_of from owner = true /\
         forall r, r ∈ rs -> r ∈ additionals msg /\ zone_of from (w_name r) = true) /\
    (forall pre post source n t rs, new = pre ++ GotAnswer source n t rs :: post ->
       exists from msg, serves cfg m0 pre from source /\ replied source msg /\ zone_of from n = true /\
         rs = answers msg).
Proof.
  intros Hsh Hroot m0 after. set (e0 := RecordCache.entries (r_records s)).
  assert (Prov cfg (r_log s) m0 e0 (set_remaining (budget cfg) s)) as H0.
  { exists []. rewrite app_nil_r. split_and!; [done|constructor|by left|by left]. }
  destruct (resolve_inner_quiet cfg (r_log s) m0 e0 Hsh Hroot resolve_fuel name qtype qclass 0 [] _ H0 I)
    as ((new & H1 & H2 & H3 & H4) & _).
  assert (after = (resolve_inner cfg resolve_fuel name qtype qclass 0 [] (set_remaining (budget cfg) s)).2) as Ha.
  { unfold after, resolve, bind, modify, ret. by destruct (resolve_inner _ _ _ _ _ _ _ _) as [[]]. }
  rewrite <- Ha in *. pose proof (fun pre e post => traced_given cfg m0 new pre e post H2) as Hg.
  exists new. split_and!; [done|done|done|..].
  - intros pre post source zone n srv E. exact (Hg _ _ _ E).
  - intros pre post source owner t rs E. exact (Hg _ _ _ E).
  - intros pre post source n t rs E. exact (Hg _ _ _ E).
Qed.

End Lookup.

(** * A library whose names survive being written *)

(** Labels in normal form; what is not a label becomes one. *)
Definition clean (l : string) : string :=
  let l' := to_lowercase l in if negb (l' =? "")%string && free_of "." l' then l' else "x".

Lemma clean_label l : Names.label (clean l).
Proof.
  unfold clean, Names.label. destruct (negb _ && _) eqn:E; [|done]. apply andb_true_iff in E as [E1 E2].
  apply negb_true_iff, String.eqb_neq in E1. split_and!; [done|done|apply to_lowercase_idem].
Qed.

Lemma clean_id l : Names.label l -> clean l = l.
Proof. intros (H1 & H2 & H3). unfold clean. rewrite H3, H2. by apply String.eqb_neq in H1 as ->. Qed.

Definition clean_name : DnsName (list string) := {|
  name_labels ls := clean <$> ls;
  to_ascii ls := fqdn (clean <$> ls);
  is_root ls := if ls is [] then true else false;
  base_name ls := drop 1 ls;
|}.

Definition clean_order : NameOrder (list string) := {|
  name_eqb a b := name_eqb (clean <$> a) (clean <$> b);
  name_ltb a b := name_ltb (clean <$> a) (clean <$> b);
  zone_of z n := zone_of (clean <$> z) (clean <$> n);
  num_labels := num_labels;
  trim_to := trim_to;
  star_dot := star_dot;
|}.

Lemma clean_name_laws : @DnsNameLaws _ clean_name.
Proof.
  split; simpl; [done| |].
  - by intros [|l ls].
  - intros n. by rewrite fmap_drop.
Qed.

Lemma clean_order_laws : @NameOrderLaws _ clean_name clean_order.
Proof.
  pose proof label_list_order_laws as [H1 H2 H3 H4 H5 H6 H7]. split.
  - intros a b. exact (H1 (clean <$> a) (clean <$> b)).
  - intros z n. exact (H2 (clean <$> z) (clean <$> n)).
  - intros a. exact (H3 (clean <$> a)).
  - intros a b c. exact (H4 (clean <$> a) (clean <$> b) (clean <$> c)).
  - intros a b. exact (H5 (clean <$> a) (clean <$> b)).
  - intros a b c. exact (H6 (clean <$> a) (clean <$> b) (clean <$> c)).
  - intros a b c. exact (H7 (clean <$> a) (clean <$> b) (clean <$> c)).
Qed.

Lemma clean_reads tbl : @NameReads (label_lib tbl) clean_name.
Proof.
  intros n. set (ls := clean <$> n).
  assert (Forall Names.label ls) as Hl by (apply Forall_fmap, Forall_true; intros l; apply clean_label).
  assert (clean <$> ls = ls) as Hid.
  { unfold ls. rewrite <- list_fmap_compose. apply list_fmap_ext. intros _ l _. apply clean_id, clean_label. }
  exists ls. split; [|by change (to_lowercase <$> (clean <$> ls) = to_lowercase <$> ls); rewrite Hid].
  change (@from_ascii _ label_list_wire (to_lowercase (fqdn ls)) = Some ls).
  rewrite fqdn_lowercase, fmap_label_lower by done. rewrite <- (labels_of_fqdn ls Hl) at 2.
  unfold labels_of. by rewrite normalize_fqdn.
Qed.

(** A walk from the root over two delegations. *)
Definition clean_run :=
  @resolve plain_lib clean_name clean_order live_net toy_crypto show_type_dec _ _ _
    plain_cfg host T_A class_in (ResolverProofs.fresh (DelegationCache.in_memory 300)).

Lemma learns_only_in_bailiwick_witness :
  exists pre post from,
    r_log clean_run.2 = pre ++ GotDelegation (V4 2) ["example"; "com"] host [V4 3] :: post /\
    serves (L := plain_lib) (DN := clean_name) plain_cfg ∅ pre from (V4 2) /\
    zone_of (NameOrder := clean_order) from ["example"; "com"] = true.
Proof.
  destruct (learns_only_in_bailiwick (L := plain_lib) (DN := clean_name) (NO := clean_order) (NW := live_net)
    (DL := clean_name_laws) (OL := clean_order_laws) (NR := clean_reads _) plain_cfg host T_A class_in
    (ResolverProofs.fresh (DelegationCache.in_memory 300)) (fun log l => Permutation_refl l) eq_refl)
    as (new & H1 & _ & _ & H2 & _).
  assert (r_log clean_run.2 = take 4 (r_log clean_run.2) ++
    GotDelegation (V4 2) ["example"; "com"] host [V4 3] :: drop 5 (r_log clean_run.2)) as E
    by (vm_compute; reflexivity).
  assert (new = r_log clean_run.2) as Hn by (symmetry; exact H1).
  rewrite <- Hn in E at 1. destruct (H2 _ _ _ _ _ _ E) as (from & msg & qt & glue & ts & ttl & Hs & _ & _ & Hz & _).
  exists (take 4 (r_log clean_run.2)), (drop 5 (r_log clean_run.2)), from.
  split; [rewrite <- Hn at 1; exact E|]. split; [exact Hs|exact Hz].
Defined.
