(* ===== verification/Recursion.v ===== *)
(** The server in recursive mode over its own resolver: [iterative_query] of
    [src/src/dns_server.rs] composed with [resolve] of [src/src/resolver.rs]. *)

From S2P Require Import Prelude RustStr Names Ip Records Hickory ExpiringCache RecordCache KeyCache.
From S2P Require Import DelegationCache DnsCache Forwarder Nameservers Tiers Wire Message Validate Negative Upstream.
From S2P Require Import Resolver ResolverProofs.
From stdpp Require Import base gmap sets list option strings.
From Stdlib Require Import ZArith Lia Bool Ascii.

Open Scope Z_scope.
Local Open Scope rolodex_scope.

Section Recursion.
Context {L : DnsLib} `{DN : !DnsName Name, NO : !NameOrder Name}.
Context `{CR : !DnssecCrypto Name (WireRecord Name Svcb), ST : !ShowType Z}.
Context `{VD : !VictimChoice DelegationCache.CachedDelegation, VK : !VictimChoice (KeyCache.Entry DnskeyData)}.
Context `{VR : !VictimChoice (RecordCache.CachedRecords (WireRecord Name Svcb))}.
Context `{DL : !DnsNameLaws Name, OL : !NameOrderLaws Name}.
Context (cfg : Config).
Context (net_of : list Event -> Network Name) (fleet_of : list Event -> Fleet) (clock_of : list Event -> Z).
Context (udp tcp : list Event -> list Z -> SocketAddr -> option (list Z)).
Context (secure : list Event -> list Z -> Forwarder -> option (list Z)) (listed : list Event -> string -> bool).
Context (timed : list Event -> Z -> Name -> Z -> Z -> resolver_state DnskeyData ->
                 option (Resolution L) * resolver_state DnskeyData).

Definition own : Outside L :=
  resolver_outside cfg net_of fleet_of clock_of udp tcp secure listed timed.
#[local] Existing Instance own.

(** The caches of the server hold nothing unjustified. *)
Definition learned_ok (u : Upstreams) : Prop :=
  let l := learned (u_chain u) in
  caches_ok cfg (lookup_state fleet_of clock_of [] (delegations l, Tiers.records l, keys l)).

Lemma own_lookup_ok log name qtype qclass st :
  caches_ok cfg (lookup_state fleet_of clock_of [] st) ->
  let out := own_lookup cfg net_of fleet_of clock_of log name qtype qclass st in
  caches_ok cfg (lookup_state fleet_of clock_of [] out.2) /\
  forall res, out.1 = Some res -> res_verdict res = VSecure -> Forall (sound_record cfg) (res_answers res).
Proof.
  destruct st as [[d r] k]. intros H out. unfold out, own_lookup.
  destruct (lookup_inv (NW := net_of log) cfg True name qtype qclass
    (lookup_state fleet_of clock_of log (d, r, k))) as [[_ Hc] Hr]; [done|].
  destruct (resolve _ _ _ _ _) as [[res|e] s]; simpl in *; (split; [by apply Hc|]); [|done].
  intros res' [= <-] Hv. by apply Hr.
Qed.

(** The caches the server keeps for its resolver. *)
Definition resolver_caches (u : Upstreams) : resolver_state DnskeyData :=
  let l := learned (u_chain u) in (delegations l, Tiers.records l, keys l).

(** C8: recursion serves what it can vouch for, end to end. In recursive mode a
    question leads to one lookup of the server's own resolver, on the caches they
    share, and its outcome decides the reply: a lookup that fails gives SERVFAIL; a
    bogus or indeterminate verdict gives SERVFAIL with no records; in both cases the
    response cache stays as it was. Any other resolution is replied with its code,
    its records and its verdict, and when that verdict is secure every record,
    signatures apart, was signed by keys that descend from a configured trust anchor.
    The resolver's caches become those the lookup left, and if they held only what
    is justified before, they do so after. *)
Theorem recursion_serves_verdicts now now_ms query_data edns u log message name qtype qclass rest :
  resolution_mode (u_chain u) = Recursive -> wire_question_is_arpa query_data = false ->
  from_bytes query_data = Some message -> queries message = mkQuestion name qtype qclass :: rest ->
  learned_ok u ->
  let lookup := own_lookup cfg net_of fleet_of clock_of log name qtype qclass (resolver_caches u) in
  let out := upstream_resolve now now_ms query_data edns u log in
  learned_ok out.2.1 /\ resolver_caches out.2.1 = lookup.2 /\
  out.2.2 = log ++ [RootWalk (name_to_string name) qtype] /\
  match lookup.1 with
  | None => out.1 = Some (make_error_response query_data ServFail) /\ u_cache out.2.1 = u_cache u
  | Some res =>
      match res_verdict res with
      | VBogus _ | VIndeterminate _ =>
          out.1 = Some (build_response_validated message ServFail [] edns (res_verdict res)) /\
          u_cache out.2.1 = u_cache u
      | VSecure =>
          out.1 = Some (build_response_validated message (res_rcode res) (res_answers res) edns VSecure) /\
          forall r, r ∈ res_answers res -> record_type r = T_RRSIG \/ proven cfg r
      | VInsecure =>
          out.1 = Some (build_response_validated message (res_rcode res) (res_answers res) edns VInsecure)
      end
  end.
Proof.
  intros Hm Ha Hb Hq Hl lookup out. unfold out, upstream_resolve. rewrite Ha, Hm. unfold iterative_query.
  rewrite Hb, Hq. unfold run_resolver. simpl.
  pose proof (own_lookup_ok log name qtype qclass (resolver_caches u) Hl) as [Hc Hs].
  change (own_lookup _ _ _ _ _ _ _ _ _) with lookup. fold lookup in Hc, Hs.
  destruct lookup as [[res|] [[d r] k]]; simpl in Hc, Hs; simpl; [|by split_and!].
  destruct (res_verdict res) eqn:Ev; simpl; split_and!; try done.
  specialize (Hs res eq_refl Ev). by apply Forall_forall.
Qed.

End Recursion.

(** * A recursive server over a signed root *)

Definition client_query : sample_msg :=
  mkMessage 9 false 0 0 false false true false false [mkQuestion www T_A class_in] [] [] [] None.

Definition served_lib : DnsLib := label_lib (signed_table ++ [client_query]).

(** The resolver of the sample behind the server, with nobody else to ask. *)
Definition served_outside : Outside served_lib :=
  @own served_lib label_list_name label_list_order toy_crypto show_type_dec _ _ _ signed_cfg
    (fun _ => signed_net) (fun _ => empty_fleet) (fun _ => 0)
    (fun _ _ _ => None) (fun _ _ _ => None) (fun _ _ _ => None) (fun _ _ => false) (fun _ _ _ _ _ st => (None, st)).

Definition served_state : @Upstreams served_lib served_outside :=
  @idle_upstreams served_lib served_outside Recursive None.

Lemma served_state_ok :
  @learned_ok served_lib _ _ toy_crypto show_type_dec _ _ _ signed_cfg (fun _ => signed_net) (fun _ => empty_fleet)
    (fun _ => 0) (fun _ _ _ => None) (fun _ _ _ => None) (fun _ _ _ => None) (fun _ _ => false)
    (fun _ _ _ _ _ st => (None, st)) served_state.
Proof. exact (fresh_caches_ok (L := served_lib) signed_cfg 300). Qed.

(** The sample's reply is the signed answer, and it hangs on the anchor. *)
Lemma recursion_serves_verdicts_witness :
  exists res,
    (own_lookup (L := served_lib) signed_cfg (fun _ => signed_net) (fun _ => empty_fleet) (fun _ => 0) [] www T_A
      class_in (@resolver_caches served_lib _ _ toy_crypto show_type_dec _ _ _ signed_cfg (fun _ => signed_net)
        (fun _ => empty_fleet) (fun _ => 0) (fun _ _ _ => None) (fun _ _ _ => None) (fun _ _ _ => None)
        (fun _ _ => false) (fun _ _ _ _ _ st => (None, st)) served_state)).1 = Some res /\
    (@upstream_resolve served_lib served_outside 0 0 [4] None served_state []).1 =
      Some (build_response_validated (Name := @Name served_lib) client_query (res_rcode res) (res_answers res) None VSecure) /\
    forall r, r ∈ res_answers res -> record_type r = T_RRSIG \/ proven (L := served_lib) signed_cfg r.
Proof.
  destruct (@recursion_serves_verdicts served_lib _ _ toy_crypto show_type_dec _ _ _ _ _ signed_cfg
    (fun _ => signed_net) (fun _ => empty_fleet) (fun _ => 0)
    (fun _ _ _ => None) (fun _ _ _ => None) (fun _ _ _ => None) (fun _ _ => false) (fun _ _ _ _ _ st => (None, st))
    0 0 [4] None served_state [] client_query www T_A class_in [] ltac:(vm_compute; reflexivity)
    ltac:(vm_compute; reflexivity) ltac:(vm_compute; reflexivity) ltac:(vm_compute; reflexivity) served_state_ok)
    as (_ & _ & _ & H).
  match type of H with match ?x with _ => _ end => assert (res_verdict <$> x = Some VSecure) as E
    by (vm_compute; reflexivity); destruct x as [res|] end; [|discriminate E].
  injection E as E. exists res. split; [reflexivity|]. rewrite E in H. exact H.
Defined.
