(* ===== verification/Dnsbl.v ===== *)
(** Blocklist providers ([src/src/dnsbl.rs]): refusal codes, the verdict cache with
    its background fills, rotation of providers that refuse, and the lookup of a
    provider's zone through the resolver. Time is in nanoseconds; a background fill
    is a task of the state, which records its verdict in one step and leaves the set
    of running lookups in another, so that checks, reconfigurations and other fills
    run between them. *)

From S2P Require Import Prelude RustStr Names Ip Records Hickory ExpiringCache RecordCache KeyCache.
From S2P Require Import DelegationCache DnsCache Database Forwarder Nameservers Tiers Wire Message Validate Negative Upstream.
From S2P Require Import Resolver ResolverProofs.
From stdpp Require Import base gmap sets list option strings.
From Stdlib Require Import ZArith Lia Bool Ascii.

Open Scope Z_scope.
Local Open Scope rolodex_scope.

(** * Refusal codes *)

Definition DEFAULT_REFUSAL_COOLDOWN_SECS : Z := 3600.
Definition REFUSAL_CODES_NONE : string := "none".
Definition DEFAULT_REFUSAL_CODES : list string :=
  ["127.255.255.0/24"; "127.0.1.255"; "127.0.2.255"; "127.0.0.1"; "127.0.0.255"].

Record RefusalCode := mkCode { rc_base : Z; rc_prefix : Z }.

#[export] Instance RefusalCode_eq_dec : EqDecision RefusalCode.
Proof. solve_decision. Defined.

Definition mask_v4 (ip prefix : Z) : Z :=
  let m := if prefix =? 0 then 0 else as_u 32 (Z.shiftl u32_max (32 - prefix)) in
  Z.land ip m.

(** [RefusalCode::parse]. *)
Definition refusal_parse (spec : string) : result RefusalCode string :=
  let s := str_trim spec in
  parsed <-?
    match split_once "/" s with
    | Some (a, p) =>
        match parse_uint 10 u8_max (str_trim p) with
        | None => Err "invalid prefix in refusal code"
        | Some prefix => if 32 <? prefix then Err "prefix too long in refusal code" else Ok (a, prefix)
        end
    | None => Ok (s, 32)
    end;
  let (addr_str, prefix) := parsed : string * Z in
  match parse_v4 (str_trim addr_str) with
  | None => Err "invalid IPv4 address in refusal code"
  | Some addr => Ok (mkCode (mask_v4 addr prefix) prefix)
  end.

Definition refusal_matches (c : RefusalCode) (ip : Z) : bool := mask_v4 ip (rc_prefix c) =? rc_base c.

(** [Display] of a code. *)
Definition show_code (c : RefusalCode) : string :=
  if rc_prefix c =? 32 then show_v4 (rc_base c)
  else show_v4 (rc_base c) +:+ "/" +:+ show_dec (rc_prefix c).

(** [collect] into a [Result]: the first error wins. *)
Fixpoint parse_all (specs : list string) : result (list RefusalCode) string :=
  match specs with
  | [] => Ok []
  | s :: specs' => c <-? refusal_parse s; cs <-? parse_all specs'; Ok (c :: cs)
  end.

Definition is_none_word (s : string) : bool := (to_lowercase (str_trim s) =? REFUSAL_CODES_NONE)%string.

Definition resolve_refusal_codes (specs : list string) : result (list RefusalCode) string :=
  match specs with
  | [] => parse_all DEFAULT_REFUSAL_CODES
  | _ =>
      if (length specs =? 1)%nat && is_none_word (default EmptyString (specs !! 0%nat)) then Ok []
      else if existsb is_none_word specs then Err "must be the only entry"
      else parse_all specs
  end.

Definition default_refusal_codes : list RefusalCode :=
  omap (fun s => match refusal_parse s with Ok c => Some c | Err _ => None end) DEFAULT_REFUSAL_CODES.

(** * Providers and answers *)

Record DnsblProvider := mkProvider {
  p_zone : string;
  p_enabled : bool;
  p_refusal_codes : list RefusalCode;
  p_cooldown : option Z;
}.

Definition new_provider (zone : string) (enabled : bool) : DnsblProvider :=
  mkProvider zone enabled default_refusal_codes None.

Definition refusal_code_strings (p : DnsblProvider) : list string :=
  match p_refusal_codes p with
  | [] => [REFUSAL_CODES_NONE]
  | codes => show_code <$> codes
  end.

Record DnsblAnswer := mkAnswer { an_codes : list Z; an_ttl : Z }.

Inductive DnsblVerdict := Listed | NotListed | RefusedWith (code : Z).

Definition classify (answer : option DnsblAnswer) (refusal_codes : list RefusalCode) : DnsblVerdict :=
  match answer with
  | None => NotListed
  | Some a =>
      match List.find (fun c => existsb (fun r => refusal_matches r c) refusal_codes) (an_codes a) with
      | Some code => RefusedWith code
      | None => match an_codes a with [] => NotListed | _ => Listed end
      end
  end.

(** * The checker *)

Definition STALE_POSITIVE_GRACE : Z := from_secs 600.

Inductive CachedVerdict := Fresh (listed : bool) | StalePositive | Miss.

Record CacheEntry := mkEntry { listed : bool; expires_at : Z }.

Record RotatedOut := mkRotated { ro_code : Z; ro_until : Z }.

Record ProviderLookup := mkLookup {
  l_cache_key : string;
  l_query : string;
  l_zone : string;
  l_refusal_codes : list RefusalCode;
  l_cooldown : Z;
}.

(** A background fill waits for its answer, then has recorded it and is about to
    leave the set of running lookups. *)
Inductive Phase := Asking | Recorded.

#[export] Instance Phase_eq_dec : EqDecision Phase.
Proof. solve_decision. Defined.

Record DnsblChecker := mkChecker {
  c_enabled : bool;
  c_providers : list DnsblProvider;
  c_cache : gmap string CacheEntry;
  c_resolver_available : bool;
  c_inflight : gset string;
  c_rotated : gmap string RotatedOut;
  c_refusal_cooldown_secs : Z;
  c_tasks : list (ProviderLookup * Phase);
}.

Definition new_checker : DnsblChecker := mkChecker false [] ∅ true ∅ ∅ DEFAULT_REFUSAL_COOLDOWN_SECS [].

Definition set_bl_cache (c : gmap string CacheEntry) (s : DnsblChecker) : DnsblChecker :=
  mkChecker (c_enabled s) (c_providers s) c (c_resolver_available s) (c_inflight s) (c_rotated s)
    (c_refusal_cooldown_secs s) (c_tasks s).
Definition set_rotated (r : gmap string RotatedOut) (s : DnsblChecker) : DnsblChecker :=
  mkChecker (c_enabled s) (c_providers s) (c_cache s) (c_resolver_available s) (c_inflight s) r
    (c_refusal_cooldown_secs s) (c_tasks s).
Definition set_tasks (i : gset string) (t : list (ProviderLookup * Phase)) (s : DnsblChecker) : DnsblChecker :=
  mkChecker (c_enabled s) (c_providers s) (c_cache s) (c_resolver_available s) i (c_rotated s)
    (c_refusal_cooldown_secs s) t.

Definition set_refusal_cooldown (secs : Z) (s : DnsblChecker) : DnsblChecker :=
  mkChecker (c_enabled s) (c_providers s) (c_cache s) (c_resolver_available s) (c_inflight s) (c_rotated s)
    (if secs =? 0 then DEFAULT_REFUSAL_COOLDOWN_SECS else secs) (c_tasks s).

Definition refusal_cooldown (s : DnsblChecker) : Z := from_secs (c_refusal_cooldown_secs s).

Definition set_resolver_available (available : bool) (s : DnsblChecker) : DnsblChecker :=
  mkChecker (c_enabled s) (c_providers s) (c_cache s) available (c_inflight s) (c_rotated s)
    (c_refusal_cooldown_secs s) (c_tasks s).

(** [rotated_out]: what is out of rotation, after dropping what has returned. *)
Definition rotated_out (now : Z) (s : DnsblChecker) : list (string * string * Z) * DnsblChecker :=
  let r := filter (fun kv => now < ro_until kv.2) (c_rotated s) in
  ((fun kv => (kv.1, show_v4 (ro_code kv.2), as_secs (duration_since (ro_until kv.2) now))) <$> map_to_list r,
   set_rotated r s).

Definition rotated_out_count (now : Z) (s : DnsblChecker) : nat :=
  size (filter (fun kv => now < ro_until kv.2) (c_rotated s)).

Definition rotated_out_for (now : Z) (zone : string) (s : DnsblChecker) : option Z * DnsblChecker :=
  match c_rotated s !! zone with
  | Some entry =>
      if now <? ro_until entry then (Some (duration_since (ro_until entry) now), s)
      else (None, set_rotated (delete zone (c_rotated s)) s)
  | None => (None, s)
  end.

Definition cached_verdict (now : Z) (cache_key : string) (s : DnsblChecker) : CachedVerdict * DnsblChecker :=
  match c_cache s !! cache_key with
  | Some entry =>
      if now <? expires_at entry then (Fresh (listed entry), s)
      else if listed entry && (now <? expires_at entry + STALE_POSITIVE_GRACE) then (StalePositive, s)
      else (Miss, set_bl_cache (delete cache_key (c_cache s)) s)
  | None => (Miss, s)
  end.

(** [fill_cache_async] up to the [spawn]: one task per key. *)
Definition fill_cache_async (l : ProviderLookup) (s : DnsblChecker) : DnsblChecker :=
  if bool_decide (l_cache_key l ∈ c_inflight s) then s
  else set_tasks ({[l_cache_key l]} ∪ c_inflight s) (c_tasks s ++ [(l, Asking)]) s.

(** The first loop of [check_cached_or_fill]: [None] when a warm positive returns
    at once. *)
Fixpoint scan_cached (now : Z) (lookups : list ProviderLookup) (stale : bool) (misses : list ProviderLookup)
    (s : DnsblChecker) : option (bool * list ProviderLookup) * DnsblChecker :=
  match lookups with
  | [] => (Some (stale, misses), s)
  | l :: lookups' =>
      match cached_verdict now (l_cache_key l) s with
      | (Fresh true, s) => (None, s)
      | (Fresh false, s) => scan_cached now lookups' stale misses s
      | (StalePositive, s) => scan_cached now lookups' true (misses ++ [l]) s
      | (Miss, s) => scan_cached now lookups' stale (misses ++ [l]) s
      end
  end.

Fixpoint fill_misses (now : Z) (misses : list ProviderLookup) (s : DnsblChecker) : DnsblChecker :=
  match misses with
  | [] => s
  | l :: misses' =>
      match rotated_out_for now (l_zone l) s with
      | (Some _, s) => fill_misses now misses' s
      | (None, s) => fill_misses now misses' (fill_cache_async l s)
      end
  end.

Definition check_cached_or_fill (now : Z) (lookups : list ProviderLookup) (s : DnsblChecker)
  : bool * DnsblChecker :=
  match scan_cached now lookups false [] s with
  | (None, s) => (true, s)
  | (Some (stale_block, misses), s) => (stale_block, fill_misses now misses s)
  end.

Definition name_lookup (normalized : string) (provider : DnsblProvider) (default_cooldown : Z) : ProviderLookup :=
  mkLookup (normalized +:+ "/" +:+ p_zone provider) (normalized +:+ "." +:+ p_zone provider) (p_zone provider)
    (p_refusal_codes provider) (default default_cooldown (p_cooldown provider)).

Definition lookups_of (normalized : string) (s : DnsblChecker) : list ProviderLookup :=
  (fun p => name_lookup normalized p (refusal_cooldown s)) <$> List.filter p_enabled (c_providers s).

Definition is_name_listed (now : Z) (name : string) (s : DnsblChecker) : bool * DnsblChecker :=
  if negb (c_enabled s) then (false, s)
  else if negb (c_resolver_available s) then (false, s)
  else
    let normalized := normalize_blocklist_name name in
    if (normalized =? "")%string then (false, s)
    else check_cached_or_fill now (lookups_of normalized s) s.

(** [rotate_out]. *)
Definition rotate_out (now : Z) (zone : string) (code cooldown : Z) (s : DnsblChecker) : DnsblChecker :=
  set_rotated (<[zone := mkRotated code (now + cooldown)]> (c_rotated s)) s.

(** The spawned task once [lookup] has returned; [None] is an error. *)
Definition record_answer (now : Z) (l : ProviderLookup) (reply : option (option DnsblAnswer)) (s : DnsblChecker)
  : DnsblChecker :=
  match reply with
  | Some answer =>
      match classify answer (l_refusal_codes l) with
      | Listed =>
          let ttl := match answer with Some a => an_ttl a | None => 300 end in
          set_bl_cache (<[l_cache_key l := mkEntry true (now + from_secs ttl)]> (c_cache s)) s
      | NotListed => set_bl_cache (<[l_cache_key l := mkEntry false (now + from_secs 300)]> (c_cache s)) s
      | RefusedWith code => rotate_out now (l_zone l) code (l_cooldown l) s
      end
  | None => s
  end.

(** The answer of the [i]th task arrives. *)
Definition fill_answered (now : Z) (i : nat) (reply : option (option DnsblAnswer)) (s : DnsblChecker)
  : DnsblChecker :=
  match c_tasks s !! i with
  | Some (l, Asking) =>
      let s := record_answer now l reply s in
      set_tasks (c_inflight s) (<[i := (l, Recorded)]> (c_tasks s)) s
  | _ => s
  end.

(** The [i]th task leaves the set of running lookups and ends. *)
Definition fill_done (i : nat) (s : DnsblChecker) : DnsblChecker :=
  match c_tasks s !! i with
  | Some (l, Recorded) => set_tasks (c_inflight s ∖ {[l_cache_key l]}) (delete i (c_tasks s)) s
  | _ => s
  end.

Definition set_config (enabled : bool) (providers : list DnsblProvider) (s : DnsblChecker) : DnsblChecker :=
  mkChecker enabled providers ∅ (c_resolver_available s) (c_inflight s) ∅
    (c_refusal_cooldown_secs s) (c_tasks s).

Definition get_config (s : DnsblChecker) : bool * list DnsblProvider := (c_enabled s, c_providers s).

Definition flush_cache (s : DnsblChecker) : DnsblChecker := set_rotated ∅ (set_bl_cache ∅ s).

(** One turn of [run_resolver_availability_loop]. *)
Definition availability_turn (probe : bool) (s : DnsblChecker) : DnsblChecker :=
  if negb (c_enabled s) then s else set_resolver_available probe s.

(** * Resolving a provider's zone *)

Section Lookup.
Context {L : DnsLib} `{DN : !DnsName Name, NO : !NameOrder Name, NW : !Network Name}.
Context `{CR : !DnssecCrypto Name (WireRecord Name Svcb), ST : !ShowType Z}.
Context `{VD : !VictimChoice DelegationCache.CachedDelegation, VK : !VictimChoice (KeyCache.Entry DnskeyData)}.
Context `{VR : !VictimChoice (RecordCache.CachedRecords (WireRecord Name Svcb))}.
(** The resolver's settings, the forwarders, the identifier of a new message and what
    arrives on the socket within the timeout. *)
Context (cfg : Config) (forwarders : list SocketAddr) (new_id : Z).
Context (arrives : list (REvent Name) -> SocketAddr -> list Z -> option (list Z)).

Definition a_answer (answers : list (WireRecord Name Svcb)) : option DnsblAnswer :=
  let '(codes, ttl) :=
    foldl (fun '(codes, ttl) rec =>
      match w_data rec with
      | RD_A ip => (codes ++ [ip], match codes with [] => w_ttl rec | _ => ttl end)
      | _ => (codes, ttl)
      end) ([], 0) answers in
  match codes with [] => None | _ => Some (mkAnswer codes ttl) end.

Definition query_forwarder_a (name : Name) (forwarder : SocketAddr) : M (option DnsblAnswer) := fun s =>
  match to_bytes (mkMessage new_id false 0 0 true false false false false
                    [mkQuestion name T_A class_in] [] [] [] None) with
  | None => (Err (Failure "query does not encode"), s)
  | Some query =>
      let s' := add_event (Sent (so_ip forwarder) false name T_A) s in
      match arrives (r_log s) forwarder query ≫= from_bytes with
      | None => (Err (Failure "no usable reply"), s')
      | Some resp =>
          if response_code resp =? NoError then (Ok (a_answer (answers resp)), s')
          else if response_code resp =? NXDomain then (Ok None, s')
          else (Err (Failure "forwarder returned an error"), s')
      end
  end.

Fixpoint try_forwarders (name : Name) (fwds : list SocketAddr) : M (option DnsblAnswer) :=
  match fwds with
  | [] => ret None
  | fwd :: fwds' =>
      let! asked := attempt (query_forwarder_a name fwd) in
      match asked with
      | Ok result => ret result
      | Err _ => try_forwarders name fwds'
      end
  end.

(** [RecursiveDnsblResolver::lookup]. *)
Definition recursive_lookup (query : string) : M (option DnsblAnswer) :=
  match from_ascii query with
  | None => ret None
  | Some name =>
      let! walked := attempt (resolve cfg name T_A class_in) in
      match walked with
      | Ok res =>
          if res_rcode res =? NoError then ret (a_answer (res_answers res))
          else if res_rcode res =? NXDomain then ret None
          else try_forwarders name forwarders
      | Err _ => try_forwarders name forwarders
      end
  end.

End Lookup.

(** * Refusal codes, read and written *)

Lemma mask_v4_mask ip p : V4 (mask_v4 ip p) = Ip.mask (V4 ip) p.
Proof. done. Qed.

(** A code as the parser builds it: the prefix fits, the base has no host bits. *)
Definition code_wf (c : RefusalCode) : Prop :=
  0 <= rc_prefix c <= 32 /\ is_u 32 (rc_base c) /\ mask_v4 (rc_base c) (rc_prefix c) = rc_base c.

Definition code_cidr (c : RefusalCode) : IpCidr := {| cidr_base := V4 (rc_base c); cidr_prefix := rc_prefix c |}.

Lemma mask_v4_round ip p : is_u 32 ip -> 0 <= p <= 32 -> mask_v4 ip p = ip / 2 ^ (32 - p) * 2 ^ (32 - p).
Proof. intros Hi Hp. by destruct (mask_bits (V4 ip) p) as [H _]. Qed.

Lemma masked_wf ip p : is_u 32 ip -> 0 <= p <= 32 -> code_wf (mkCode (mask_v4 ip p) p).
Proof.
  intros Hi Hp. pose proof (mask_v4_round ip p Hi Hp) as E. set (k := 2 ^ (32 - p)) in *.
  assert (0 < k) as Hk by (unfold k; lia). unfold is_u in Hi.
  pose proof (Z.div_mod ip k) as Hdm. pose proof (Z.mod_pos_bound ip k Hk) as Hmb.
  assert (0 <= ip / k) as Hq by (apply Z.div_pos; lia).
  assert (is_u 32 (ip / k * k)) as Hu by (unfold is_u; nia).
  unfold code_wf. cbn [rc_base rc_prefix]. split_and!; [lia|lia|by rewrite E|].
  rewrite E. rewrite mask_v4_round by done. fold k. by rewrite Z.div_mul by lia.
Qed.

Lemma code_wf_cidr c : code_wf c -> cidr_wf (code_cidr c).
Proof.
  intros (Hp & Hu & Hm). unfold cidr_wf, code_cidr, ip_wf. cbn [cidr_base cidr_prefix ip_width ip_bits].
  split_and!; [lia|lia|done|]. exists (rc_base c / 2 ^ (32 - rc_prefix c)).
  rewrite <- Hm at 1. by apply mask_v4_round.
Qed.

Lemma refusal_matches_contains c ip : refusal_matches c ip = contains (code_cidr c) (V4 ip).
Proof.
  unfold refusal_matches, contains, code_cidr. cbn [cidr_base cidr_prefix]. rewrite <- mask_v4_mask.
  destruct (Z.eqb_spec (mask_v4 ip (rc_prefix c)) (rc_base c)) as [E|E];
    [by rewrite E, bool_decide_true|rewrite bool_decide_false; [done|]].
  intros H. apply E. by injection H.
Qed.

Lemma refusal_parse_wf s c : refusal_parse s = Ok c -> code_wf c.
Proof.
  unfold refusal_parse. destruct (split_once "/" (str_trim s)) as [[a p]|]; simpl.
  - destruct (parse_uint 10 u8_max (str_trim p)) as [n|] eqn:En; simpl; [|done].
    destruct (Z.ltb_spec 32 n) as [|Hn]; simpl; [done|].
    destruct (parse_v4 (str_trim a)) as [ip|] eqn:Eip; [|done]. intros [= <-].
    apply parse_uint_bound in En; [|lia]. apply parse_v4_bound in Eip. apply masked_wf; [done|lia].
  - destruct (parse_v4 _) as [ip|] eqn:Eip; [|done]. intros [= <-].
    apply parse_v4_bound in Eip. by apply masked_wf.
Qed.

Lemma parse_all_wf specs codes : parse_all specs = Ok codes -> Forall code_wf codes.
Proof.
  revert codes. induction specs as [|s specs IH]; intros codes; simpl; [by intros [= <-]|].
  destruct (refusal_parse s) as [c|] eqn:Ec; simpl; [|done].
  destruct (parse_all specs) as [cs|]; simpl; [|done]. intros [= <-].
  constructor; [by eapply refusal_parse_wf|by apply IH].
Qed.

(** What a written code is made of. *)
Definition code_char (c : ascii) : bool := is_digit c || Ascii.eqb c "." || Ascii.eqb c "/".

Lemma str_forall_join p sep l :
  str_forall p sep = true -> Forall (fun s => str_forall p s = true) l -> str_forall p (str_join sep l) = true.
Proof.
  intros Hs. induction 1 as [|x l Hx Hl IH]; [done|]. destruct l as [|y l]; [done|].
  change (str_join sep (x :: y :: l)) with (x +:+ sep +:+ str_join sep (y :: l)).
  by rewrite !str_forall_app, Hx, Hs, IH.
Qed.

Lemma show_v4_chars b p :
  (forall c, is_digit c = true -> p c = true) -> p "."%char = true -> str_forall p (show_v4 b) = true.
Proof.
  intros Hp Hd. apply str_forall_join; [simpl; by rewrite Hd|].
  apply Forall_forall. intros s (z & -> & _)%list_elem_of_fmap.
  eapply str_forall_impl; [apply Hp|apply show_dec_digits].
Qed.

Lemma code_char_solid c : code_char c = true -> negb (is_space c) = true.
Proof. destruct c as [[] [] [] [] [] [] [] []]; vm_compute; done. Qed.

Lemma show_code_chars c : str_forall code_char (show_code c) = true.
Proof.
  assert (str_forall code_char (show_v4 (rc_base c)) = true) as H4.
  { apply show_v4_chars; [|done]. intros x Hx. unfold code_char. by rewrite Hx. }
  unfold show_code. destruct (rc_prefix c =? 32); [done|]. rewrite !str_forall_app, H4. simpl.
  eapply str_forall_impl; [|apply show_dec_digits]. intros x Hx. unfold code_char. by rewrite Hx.
Qed.

Lemma show_code_trim c : str_trim (show_code c) = show_code c.
Proof. apply str_trim_solid. eapply str_forall_impl; [apply code_char_solid|apply show_code_chars]. Qed.

Lemma show_code_not_none c : is_none_word (show_code c) = false.
Proof.
  unfold is_none_word. rewrite show_code_trim. apply String.eqb_neq. intros E.
  assert (str_forall (fun x => code_char x) (to_lowercase (show_code c)) = true) as H.
  { assert (forall s, str_forall code_char s = true -> str_forall code_char (to_lowercase s) = true) as Hl.
    { induction s as [|x s IH]; [done|]. simpl. intros [Hx Hs]%andb_true_iff. apply andb_true_iff. split.
      - clear -Hx. destruct x as [[] [] [] [] [] [] [] []]; vm_compute in Hx |- *; done.
      - by apply IH. }
    apply Hl, show_code_chars. }
  rewrite E in H. discriminate H.
Qed.

Lemma solid_digits s : str_forall is_digit s = true -> str_trim s = s.
Proof.
  intros H. apply str_trim_solid. eapply str_forall_impl; [|exact H]. intros x Hx. apply code_char_solid.
  unfold code_char. by rewrite Hx.
Qed.

Lemma show_v4_trim b : str_trim (show_v4 b) = show_v4 b.
Proof.
  apply str_trim_solid, show_v4_chars; [|done]. intros x Hx. apply code_char_solid.
  unfold code_char. by rewrite Hx.
Qed.

Lemma show_v4_no_slash b : free_of "/" (show_v4 b) = true.
Proof.
  apply show_v4_chars; [|done]. intros x. destruct x as [[] [] [] [] [] [] [] []]; vm_compute; done.
Qed.

Lemma show_code_parse c : code_wf c -> refusal_parse (show_code c) = Ok c.
Proof.
  intros (Hp & Hu & Hm). unfold refusal_parse. rewrite show_code_trim. unfold show_code.
  destruct c as [base prefix]. cbn [rc_base rc_prefix] in *. destruct (Z.eqb_spec prefix 32) as [->|Hn].
  - rewrite split_once_free by apply show_v4_no_slash. simpl.
    rewrite show_v4_trim, show_v4_parse by done. simpl. by rewrite Hm.
  - change (show_v4 base +:+ "/" +:+ show_dec prefix) with (show_v4 base +:+ String "/" (show_dec prefix)).
    rewrite split_once_cons by apply show_v4_no_slash. simpl.
    rewrite (solid_digits (show_dec prefix)) by apply show_dec_digits.
    rewrite parse_show_dec by (unfold u8_max; lia).
    destruct (Z.ltb_spec 32 prefix); [lia|]. simpl.
    rewrite show_v4_trim, show_v4_parse by done. by rewrite Hm.
Qed.

Lemma show_codes_parse codes : Forall code_wf codes -> parse_all (show_code <$> codes) = Ok codes.
Proof.
  induction 1 as [|c codes Hc _ IH]; [done|]. rewrite fmap_cons. simpl.
  rewrite show_code_parse by done. simpl. by rewrite IH.
Qed.

Lemma resolve_codes_wf specs codes : resolve_refusal_codes specs = Ok codes -> Forall code_wf codes.
Proof.
  unfold resolve_refusal_codes. destruct specs as [|s specs]; [apply parse_all_wf|].
  destruct (_ && _); [by intros [= <-]|]. destruct (existsb _ _); [done|]. apply parse_all_wf.
Qed.

(** What is shown of a list that was accepted is accepted as the same list. *)
Lemma refusal_strings_parse specs codes provider :
  resolve_refusal_codes specs = Ok codes -> p_refusal_codes provider = codes ->
  resolve_refusal_codes (refusal_code_strings provider) = Ok codes.
Proof.
  intros H Hc. apply resolve_codes_wf in H as Hwf.
  unfold refusal_code_strings. rewrite Hc. destruct codes as [|c codes]; [done|].
  rewrite <- (show_codes_parse (c :: codes)) by done. unfold resolve_refusal_codes. rewrite fmap_cons.
  assert (existsb is_none_word (show_code c :: (show_code <$> codes)) = false) as He.
  { rewrite <- fmap_cons. apply not_true_iff_false. intros (x & Hx & Hn)%existsb_exists.
    apply list_elem_of_In, list_elem_of_fmap in Hx as (y & -> & _). by rewrite show_code_not_none in Hn. }
  rewrite He. simpl in He |- *. rewrite show_code_not_none. by rewrite andb_false_r.
Qed.

(** Refusal codes survive being shown and set again, and each matches
    exactly its range. Whatever list the operator configured (none, the word that
    turns detection off, or patterns), the spelling reported back is accepted and
    gives the same codes; and a code that was accepted matches precisely the
    addresses from its base up to the size of its prefix. *)
Theorem refusal_codes_roundtrip specs codes provider :
  resolve_refusal_codes specs = Ok codes -> p_refusal_codes provider = codes ->
  resolve_refusal_codes (refusal_code_strings provider) = Ok codes /\
  forall c ip, c ∈ codes -> is_u 32 ip ->
    refusal_matches c ip = true <-> rc_base c <= ip < rc_base c + 2 ^ (32 - rc_prefix c).
Proof.
  intros H Hc. apply resolve_codes_wf in H as Hwf. split; [by apply (refusal_strings_parse specs)|].
  intros c ip Hin Hip. rewrite Forall_forall in Hwf. rewrite refusal_matches_contains.
  rewrite contains_range by (try apply code_wf_cidr; auto).
  unfold code_cidr. cbn [cidr_base cidr_prefix ip_width ip_bits]. tauto.
Qed.

(** * What one check does *)

(** What a cache entry says at a time. *)
Definition fresh_positive (now : Z) (e : option CacheEntry) : bool :=
  match e with Some e => listed e && (now <? expires_at e) | None => false end.
Definition blocking (now : Z) (e : option CacheEntry) : bool :=
  match e with Some e => listed e && (now <? expires_at e + STALE_POSITIVE_GRACE) | None => false end.
Definition is_fresh (now : Z) (e : option CacheEntry) : bool :=
  match e with Some e => now <? expires_at e | None => false end.

(** A smaller cache that says the same. *)
Definition cache_says_same (now : Z) (c c' : gmap string CacheEntry) : Prop :=
  c' ⊆ c /\ forall k, blocking now (c' !! k) = blocking now (c !! k) /\ is_fresh now (c' !! k) = is_fresh now (c !! k) /\
                      fresh_positive now (c' !! k) = fresh_positive now (c !! k).

Lemma cache_says_same_refl now c : cache_says_same now c c.
Proof. by split. Qed.

Lemma cache_says_same_trans now c1 c2 c3 :
  cache_says_same now c1 c2 -> cache_says_same now c2 c3 -> cache_says_same now c1 c3.
Proof.
  intros [H1 H2] [H3 H4]. split; [by etrans|]. intros k.
  destruct (H2 k) as (E1 & E2 & E3), (H4 k) as (F1 & F2 & F3). split_and!; congruence.
Qed.

Lemma cache_drop_dead now k c :
  blocking now (c !! k) = false -> is_fresh now (c !! k) = false -> cache_says_same now c (delete k c).
Proof.
  intros Hb Hf. split; [apply delete_subseteq|]. intros k'. destruct (decide (k = k')) as [<-|Hk].
  - rewrite lookup_delete_eq, Hb, Hf. simpl. split_and!; [done|done|].
    destruct (c !! k) as [e|]; [|done]. simpl in *. by rewrite Hf, andb_false_r.
  - by rewrite lookup_delete_ne.
Qed.

Lemma cached_verdict_spec now k s :
  let e := c_cache s !! k in
  (cached_verdict now k s).1 =
    (if is_fresh now e then Fresh (fresh_positive now e) else if blocking now e then StalePositive else Miss) /\
  exists c, (cached_verdict now k s).2 = set_bl_cache c s /\ cache_says_same now (c_cache s) c.
Proof.
  simpl. unfold cached_verdict. destruct (c_cache s !! k) as [e|] eqn:E; simpl.
  2:{ split; [done|]. exists (c_cache s). split; [by destruct s|apply cache_says_same_refl]. }
  destruct (now <? expires_at e) eqn:Ef; simpl.
  { split; [by rewrite andb_true_r|]. exists (c_cache s). split; [by destruct s|apply cache_says_same_refl]. }
  destruct (listed e && (now <? expires_at e + STALE_POSITIVE_GRACE)) eqn:Eb; simpl; (split; [done|]).
  - exists (c_cache s). split; [by destruct s|apply cache_says_same_refl].
  - exists (delete k (c_cache s)). split; [done|]. apply cache_drop_dead; by rewrite E.
Qed.

Lemma fresh_positive_blocks now e :
  fresh_positive now e = true -> is_fresh now e = true /\ blocking now e = true.
Proof.
  unfold fresh_positive, is_fresh, blocking. destruct e as [x|]; [|done]. intros [-> Hx]%andb_true_iff.
  split; [done|]. simpl. apply Z.ltb_lt. apply Z.ltb_lt in Hx.
  assert (0 <= STALE_POSITIVE_GRACE) by (vm_compute; done). lia.
Qed.

Lemma fresh_negative_passes now e :
  is_fresh now e = true -> fresh_positive now e = false -> blocking now e = false.
Proof.
  unfold fresh_positive, is_fresh, blocking. destruct e as [x|]; [|done]. intros -> Hx. simpl in *.
  rewrite andb_true_r in Hx. by rewrite Hx.
Qed.

(** The outcome of the scan on a cache: a fresh positive wins; otherwise what is not
    fresh is to be asked, in order. *)
Definition scan_outcome (now : Z) (c : gmap string CacheEntry) (ls : list ProviderLookup) (st : bool)
    (ms : list ProviderLookup) : option (bool * list ProviderLookup) :=
  let e l := c !! l_cache_key l in
  if existsb (fun l => fresh_positive now (e l)) ls then None
  else Some (st || existsb (fun l => blocking now (e l)) ls,
             ms ++ List.filter (fun l => negb (is_fresh now (e l))) ls).

Lemma scan_outcome_same now c c' ls st ms :
  cache_says_same now c c' -> scan_outcome now c' ls st ms = scan_outcome now c ls st ms.
Proof.
  intros [_ H]. unfold scan_outcome.
  rewrite (existsb_ext _ (fun l => fresh_positive now (c !! l_cache_key l))) by (intros x; apply H).
  rewrite (existsb_ext (fun l => blocking now (c' !! l_cache_key l)) (fun l => blocking now (c !! l_cache_key l)))
    by (intros x; apply H).
  by rewrite (filter_ext _ (fun l => negb (is_fresh now (c !! l_cache_key l)))) by (intros x; f_equal; apply H).
Qed.

Lemma scan_cached_spec now ls st ms s :
  (scan_cached now ls st ms s).1 = scan_outcome now (c_cache s) ls st ms /\
  exists c, (scan_cached now ls st ms s).2 = set_bl_cache c s /\ cache_says_same now (c_cache s) c.
Proof.
  revert st ms s. induction ls as [|l ls IH]; intros st ms s; simpl.
  { unfold scan_outcome. simpl. rewrite orb_false_r, app_nil_r. split; [done|].
    exists (c_cache s). split; [by destruct s|apply cache_says_same_refl]. }
  destruct (cached_verdict_spec now (l_cache_key l) s) as [Hv (c & Hs & Hc)].
  destruct (cached_verdict now (l_cache_key l) s) as [v s'] eqn:Ev. simpl in Hv, Hs. subst v s'.
  assert (forall st ms, let r := scan_cached now ls st ms (set_bl_cache c s) in
    r.1 = scan_outcome now (c_cache s) ls st ms /\
    exists c', r.2 = set_bl_cache c' s /\ cache_says_same now (c_cache s) c') as H.
  { intros st' ms'. destruct (IH st' ms' (set_bl_cache c s)) as [H1 (c' & H2 & H3)]. simpl in *. split.
    - rewrite H1. by apply scan_outcome_same.
    - exists c'. split; [done|]. by eapply cache_says_same_trans. }
  unfold scan_outcome in H |- *. simpl in H |- *. set (e := c_cache s !! l_cache_key l) in *.
  pose proof (fresh_positive_blocks now e) as Hfp. pose proof (fresh_negative_passes now e) as Hfb.
  destruct (is_fresh now e) eqn:Ef, (fresh_positive now e) eqn:Ep; simpl.
  - split; [done|]. by exists c.
  - rewrite (Hfb eq_refl eq_refl). apply H.
  - by destruct (Hfp eq_refl).
  - destruct (blocking now e) eqn:Eb; simpl.
    + destruct (H true (ms ++ [l])) as [H1 H2]. split; [|done]. rewrite H1. simpl.
      by rewrite <- app_assoc, orb_true_r.
    + destruct (H st (ms ++ [l])) as [H1 H2]. split; [|done]. rewrite H1. by rewrite <- app_assoc.
Qed.

(** The zone is out of rotation. *)
Definition out_of_rotation (now : Z) (zone : string) (s : DnsblChecker) : Prop :=
  exists r, c_rotated s !! zone = Some r /\ now < ro_until r.

Definition task_key (t : ProviderLookup * Phase) : string := l_cache_key t.1.

(** Only what has returned to rotation is forgotten. *)
Definition rotation_kept (now : Z) (s s' : DnsblChecker) : Prop :=
  forall z, c_rotated s' !! z = c_rotated s !! z \/
            (c_rotated s' !! z = None /\ exists r, c_rotated s !! z = Some r /\ ro_until r <= now).

Lemma rotation_kept_refl now s : rotation_kept now s s.
Proof. by left. Qed.

Lemma rotation_kept_trans now s1 s2 s3 :
  rotation_kept now s1 s2 -> rotation_kept now s2 s3 -> rotation_kept now s1 s3.
Proof.
  intros H1 H2 z. destruct (H1 z) as [E1|[E1 (r & Hr)]], (H2 z) as [E2|[E2 (r' & Hr' & Hu)]].
  - left. congruence.
  - right. split; [done|]. exists r'. split; [congruence|done].
  - right. split; [congruence|]. by exists r.
  - congruence.
Qed.

Lemma out_of_rotation_kept now z s s' :
  rotation_kept now s s' -> out_of_rotation now z s <-> out_of_rotation now z s'.
Proof.
  intros H. unfold out_of_rotation. destruct (H z) as [->|[-> (r & Hr & Hu)]]; [done|].
  split; [|by intros (? & ? & _)]. intros (r' & Hr' & Hl). rewrite Hr in Hr'. injection Hr' as <-. lia.
Qed.

Lemma rotated_out_for_spec now z s :
  (is_Some (rotated_out_for now z s).1 <-> out_of_rotation now z s) /\
  exists r, (rotated_out_for now z s).2 = set_rotated r s /\ rotation_kept now s (set_rotated r s).
Proof.
  unfold rotated_out_for, out_of_rotation. destruct (c_rotated s !! z) as [r|] eqn:E.
  2:{ split; [split; [by intros []|by intros (? & ? & _)]|]. exists (c_rotated s).
      split; [by destruct s|by left]. }
  destruct (Z.ltb_spec now (ro_until r)) as [Hl|Hl]; simpl.
  - split; [split; [by exists r|by eexists]|]. exists (c_rotated s). split; [by destruct s|by left].
  - split; [split; [by intros []|intros (r' & [= <-] & ?); lia]|]. eexists. split; [done|].
    intros z'. simpl. destruct (decide (z = z')) as [<-|Hz]; [|left; by rewrite lookup_delete_ne].
    right. rewrite lookup_delete_eq. split; [done|]. by exists r.
Qed.

(** What a pass over the misses leaves: some tasks more, each for a miss not yet
    running of a provider in rotation. *)
Record filled (now : Z) (ms new : list ProviderLookup) (s s' : DnsblChecker) : Prop := {
  f_frame : exists r, s' = set_tasks (c_inflight s') (c_tasks s') (set_rotated r s);
  f_rotation : rotation_kept now s s';
  f_tasks : c_tasks s' = c_tasks s ++ ((fun l => (l, Asking)) <$> new);
  f_keys : c_inflight s' = list_to_set (l_cache_key <$> new) ∪ c_inflight s;
  f_nodup : NoDup (l_cache_key <$> new);
  f_new : forall l, l ∈ new -> l ∈ ms /\ l_cache_key l ∉ c_inflight s /\ ~ out_of_rotation now (l_zone l) s;
  f_all : forall l, l ∈ ms -> out_of_rotation now (l_zone l) s \/ l_cache_key l ∈ c_inflight s';
}.

Lemma filled_skip now l ms new r s s' :
  rotation_kept now s (set_rotated r s) ->
  out_of_rotation now (l_zone l) s \/ l_cache_key l ∈ c_inflight s ->
  filled now ms new (set_rotated r s) s' -> filled now (l :: ms) new s s'.
Proof.
  intros Hr Hl [[r' F1] F2 F3 F4 F5 F6 F7]. split; try done.
  - exists r'. by rewrite F1.
  - by eapply rotation_kept_trans.
  - intros l' Hl'. destruct (F6 l' Hl') as (A & B & C). split_and!; [by right|done|].
    by rewrite (out_of_rotation_kept now _ _ _ Hr).
  - intros l' [->|Hl']%elem_of_cons.
    + destruct Hl as [|Hl]; [by left|]. right. rewrite F4. simpl. set_solver.
    + rewrite (out_of_rotation_kept now _ _ _ Hr). by apply F7.
Qed.

Lemma filled_spawn now l ms new r s s' :
  rotation_kept now s (set_rotated r s) -> ~ out_of_rotation now (l_zone l) s ->
  l_cache_key l ∉ c_inflight s ->
  filled now ms new (fill_cache_async l (set_rotated r s)) s' -> filled now (l :: ms) (l :: new) s s'.
Proof.
  intros Hr Hno Hin. unfold fill_cache_async. rewrite bool_decide_false by done.
  set (s2 := set_tasks _ _ _). assert (rotation_kept now s s2) as Hr2 by exact Hr.
  intros [[r' F1] F2 F3 F4 F5 F6 F7]. unfold s2 in F3, F4, F6; simpl in F3, F4, F6. split.
  - exists r'. by rewrite F1.
  - by eapply rotation_kept_trans.
  - rewrite F3. by rewrite <- app_assoc.
  - rewrite F4. simpl. set_solver.
  - rewrite fmap_cons. apply NoDup_cons. split; [|done].
    intros (l' & E & Hl')%list_elem_of_fmap. destruct (F6 l' Hl') as (_ & B & _). set_solver.
  - intros l' [->|Hl']%elem_of_cons; [split_and!; [by left|done|done]|].
    destruct (F6 l' Hl') as (A & B & C). split_and!; [by right|set_solver|].
    by rewrite (out_of_rotation_kept now _ _ _ Hr2).
  - intros l' [->|Hl']%elem_of_cons; [right; rewrite F4; set_solver|].
    rewrite (out_of_rotation_kept now _ _ _ Hr2). by apply F7.
Qed.

Lemma fill_misses_spec now ms s : exists new, filled now ms new s (fill_misses now ms s).
Proof.
  revert s. induction ms as [|l ms IH]; intros s; simpl.
  { exists []. split; simpl; try (set_solver || by apply NoDup_nil_2).
    - exists (c_rotated s). by destruct s.
    - apply rotation_kept_refl.
    - by rewrite app_nil_r. }
  destruct (rotated_out_for_spec now (l_zone l) s) as [Ho (r & Hs & Hr)].
  destruct (rotated_out_for now (l_zone l) s) as [[d|] s1]; simpl in Ho, Hs; subst s1.
  - destruct (IH (set_rotated r s)) as [new F]. exists new. eapply filled_skip; [done| |done].
    left. apply Ho. by eexists.
  - assert (~ out_of_rotation now (l_zone l) s) as Hno by (intros H; apply Ho in H as []; done).
    destruct (decide (l_cache_key l ∈ c_inflight s)) as [Hin|Hin].
    + unfold fill_cache_async. rewrite bool_decide_true by done.
      destruct (IH (set_rotated r s)) as [new F]. exists new. eapply filled_skip; [done|by right|done].
    + destruct (IH (fill_cache_async l (set_rotated r s))) as [new F]. exists (l :: new).
      by eapply filled_spawn.
Qed.

(** One check, in full. *)
Record checked (now : Z) (name : string) (s : DnsblChecker) (new : list ProviderLookup) (s' : DnsblChecker) : Prop := {
  ck_cache : cache_says_same now (c_cache s) (c_cache s');
  ck_rotation : rotation_kept now s s';
  ck_config : get_config s' = get_config s /\ c_resolver_available s' = c_resolver_available s /\
              c_refusal_cooldown_secs s' = c_refusal_cooldown_secs s;
  ck_tasks : c_tasks s' = c_tasks s ++ ((fun l => (l, Asking)) <$> new);
  ck_keys : c_inflight s' = list_to_set (l_cache_key <$> new) ∪ c_inflight s;
  ck_nodup : NoDup (l_cache_key <$> new);
  ck_new : forall l, l ∈ new ->
    c_enabled s = true /\ c_resolver_available s = true /\ l ∈ lookups_of (normalize_blocklist_name name) s /\
    is_fresh now (c_cache s !! l_cache_key l) = false /\
    l_cache_key l ∉ c_inflight s /\ ~ out_of_rotation now (l_zone l) s;
}.

Lemma checked_dropping now name c s :
  cache_says_same now (c_cache s) c -> checked now name s [] (set_bl_cache c s).
Proof.
  intros Hc. split; simpl; try done.
  - intros z. by left.
  - by rewrite app_nil_r.
  - set_solver.
  - by apply NoDup_nil_2.
  - intros l Hl. by apply elem_of_nil in Hl.
Qed.

Lemma checked_nothing now name s : checked now name s [] s.
Proof.
  pose proof (checked_dropping now name (c_cache s) s (cache_says_same_refl _ _)) as H. by destruct s.
Qed.

Lemma is_name_listed_checked now name s : exists new, checked now name s new (is_name_listed now name s).2.
Proof.
  unfold is_name_listed. destruct (c_enabled s) eqn:Ee; simpl; [|by exists []; apply checked_nothing].
  destruct (c_resolver_available s) eqn:Ea; simpl; [|by exists []; apply checked_nothing].
  destruct (_ =? "")%string; simpl; [by exists []; apply checked_nothing|].
  set (ls := lookups_of _ s). unfold check_cached_or_fill.
  destruct (scan_cached_spec now ls false [] s) as [H1 (c & H2 & Hc)].
  destruct (scan_cached now ls false [] s) as [o s1]. simpl in H1, H2. subst o s1. unfold scan_outcome. simpl.
  destruct (existsb _ ls) eqn:Ef; simpl.
  { exists []. by apply checked_dropping. }
  destruct (fill_misses_spec now (List.filter (fun l => negb (is_fresh now (c_cache s !! l_cache_key l))) ls)
    (set_bl_cache c s)) as [new [[r F1] F2 F3 F4 F5 F6 F7]].
  exists new. split; try done; try (rewrite F1; done).
  intros l Hl. destruct (F6 l Hl) as ([A1 A2]%elem_filter_bool & B & C). split_and!; try done.
  by apply negb_true_iff.
Qed.

(** A check blocks exactly on a cached listing, and sees to what is
    missing. When checking is on and lookups can leave, a name is blocked if and only
    if some enabled provider's cached verdict for it is a listing no more than ten
    minutes past its lifetime; so a listing does not lapse while it is renewed. If no
    listing is fresh, every enabled provider without a fresh verdict is being asked
    after the check, or is out of rotation. Otherwise nothing is blocked. *)
Theorem blocklist_check_exact now name s :
  let n := normalize_blocklist_name name in
  let verdict p := c_cache s !! (n +:+ "/" +:+ p_zone p) in
  let on := List.filter p_enabled (c_providers s) in
  (is_name_listed now name s).1 =
    c_enabled s && c_resolver_available s && negb (n =? "")%string && existsb (fun p => blocking now (verdict p)) on /\
  (c_enabled s = true -> c_resolver_available s = true -> n <> "" ->
   existsb (fun p => fresh_positive now (verdict p)) on = false ->
   forall p, p ∈ on -> is_fresh now (verdict p) = false ->
     out_of_rotation now (p_zone p) s \/
     n +:+ "/" +:+ p_zone p ∈ c_inflight (is_name_listed now name s).2).
Proof.
  intros n verdict on. unfold is_name_listed.
  destruct (c_enabled s) eqn:Ee; simpl; [|done]. destruct (c_resolver_available s) eqn:Ea; simpl; [|done].
  fold n. destruct (String.eqb_spec n "") as [En|En]; simpl; [done|].
  assert (forall f : option CacheEntry -> bool,
    existsb (fun l => f (c_cache s !! l_cache_key l)) (lookups_of n s) = existsb (fun p => f (verdict p)) on) as Hex.
  { intros f. unfold lookups_of. fold on. clear. induction on as [|p on IH]; [done|]. rewrite fmap_cons. simpl.
    by rewrite IH. }
  unfold check_cached_or_fill.
  destruct (scan_cached_spec now (lookups_of n s) false [] s) as [H1 (c & H2 & Hc)].
  destruct (scan_cached now _ false [] s) as [o s1]. simpl in H1, H2. subst o s1. unfold scan_outcome. simpl.
  rewrite (Hex (fresh_positive now)), (Hex (blocking now)).
  destruct (existsb (fun p => fresh_positive now (verdict p)) on) eqn:Ef; simpl.
  - split; [|done]. symmetry. apply existsb_exists in Ef as (p & Hp & Hf). apply existsb_exists.
    exists p. split; [done|]. by apply fresh_positive_blocks.
  - split; [done|]. intros _ _ _ _ p Hp Hf.
    destruct (fill_misses_spec now (List.filter (fun l => negb (is_fresh now (c_cache s !! l_cache_key l)))
      (lookups_of n s)) (set_bl_cache c s)) as [new F].
    apply (f_all _ _ _ _ _ F (name_lookup n p (refusal_cooldown s))).
    apply elem_filter_bool. split; [|apply negb_true_iff; exact Hf].
    unfold lookups_of. fold on. by apply (list_elem_of_fmap_2 (fun p => name_lookup n p (refusal_cooldown s))).
Qed.

(** * Runs *)

Inductive BlEvent :=
| Fired (l : ProviderLookup) (at_ : Z)
| Answered (l : ProviderLookup) (reply : option (option DnsblAnswer)) (at_ : Z)
| Reset.

Definition fired (now : Z) (s s' : DnsblChecker) : list BlEvent :=
  (fun t => Fired t.1 now) <$> drop (length (c_tasks s)) (c_tasks s').

(** Anything that can happen next: a check, an answer to a running lookup, its end,
    an operator's change, a turn of the availability probe. *)
Inductive step (now : Z) (s : DnsblChecker) : list BlEvent -> DnsblChecker -> Prop :=
| step_check name :
    step now s (fired now s (is_name_listed now name s).2) (is_name_listed now name s).2
| step_answered i l reply :
    c_tasks s !! i = Some (l, Asking) -> step now s [Answered l reply now] (fill_answered now i reply s)
| step_done i : step now s [] (fill_done i s)
| step_config enabled providers : step now s [Reset] (set_config enabled providers s)
| step_flush : step now s [Reset] (flush_cache s)
| step_cooldown secs : step now s [] (set_refusal_cooldown secs s)
| step_available probe : step now s [] (availability_turn probe s)
| step_rotated_out : step now s [] (rotated_out now s).2.

Inductive reachable : Z -> list BlEvent -> DnsblChecker -> Prop :=
| reach_new t : reachable t [] new_checker
| reach_step t now h s evs s' :
    reachable t h s -> t <= now -> step now s evs s' -> reachable now (h ++ evs) s'.

(** What happened since the caches were last emptied. *)
Definition since_reset : list BlEvent -> list BlEvent :=
  foldl (fun acc e => match e with Reset => [] | _ => acc ++ [e] end) [].

(** The last refusal of a zone since then, and until when it holds. *)
Definition refusal_of (zone : string) (e : BlEvent) : option RotatedOut :=
  match e with
  | Answered l (Some answer) t =>
      match classify answer (l_refusal_codes l) with
      | RefusedWith code =>
          if (l_zone l =? zone)%string then Some (mkRotated code (t + l_cooldown l)) else None
      | _ => None
      end
  | _ => None
  end.

Definition last_refusal (zone : string) : list BlEvent -> option RotatedOut :=
  foldl (fun acc e =>
    match e with
    | Reset => None
    | _ => match refusal_of zone e with Some r => Some r | None => acc end
    end) None.

(** An answer that lists: codes, and none of them a refusal. *)
Definition lists (l : ProviderLookup) (a : DnsblAnswer) : Prop :=
  an_codes a <> [] /\ forall code c, code ∈ an_codes a -> c ∈ l_refusal_codes l -> refusal_matches c code = false.

Lemma classify_listed answer l :
  classify answer (l_refusal_codes l) = Listed -> exists a, answer = Some a /\ lists l a.
Proof.
  unfold classify. destruct answer as [a|]; [|done].
  destruct (List.find _ _) as [c|] eqn:E; [done|]. intros H. exists a. split; [done|]. split.
  - intros E'. by rewrite E' in H.
  - intros code c Hcode Hc. pose proof (find_none _ _ E code) as Hn. simpl in Hn.
    rewrite <- list_elem_of_In in Hn. specialize (Hn Hcode). apply not_true_iff_false. intros Hm.
    apply not_true_iff_false in Hn. apply Hn. apply existsb_exists. exists c. by rewrite <- list_elem_of_In.
Qed.

(** The entry comes from an answer since the caches were last emptied. *)
Definition entry_from (h : list BlEvent) (k : string) (e : CacheEntry) : Prop :=
  exists l answer t, Answered l (Some answer) t ∈ since_reset h /\ l_cache_key l = k /\
    (listed e = true -> exists a, answer = Some a /\ lists l a /\ expires_at e = t + from_secs (an_ttl a)).

Record sound (now : Z) (h : list BlEvent) (s : DnsblChecker) : Prop := {
  s_keys : NoDup (task_key <$> c_tasks s);
  s_inflight : forall k, k ∈ c_inflight s <-> k ∈ task_key <$> c_tasks s;
  s_made : forall t, t ∈ c_tasks s -> exists at_, Fired t.1 at_ ∈ h;
  s_cache : forall k e, c_cache s !! k = Some e -> entry_from h k e;
  s_rotated : forall z, match last_refusal z h with
                        | None => c_rotated s !! z = None
                        | Some r => c_rotated s !! z = Some r \/ (c_rotated s !! z = None /\ ro_until r <= now)
                        end;
}.

Lemma since_reset_snoc h e :
  since_reset (h ++ [e]) = match e with Reset => [] | _ => since_reset h ++ [e] end.
Proof. unfold since_reset. by rewrite foldl_app. Qed.

Lemma last_refusal_snoc z h e :
  last_refusal z (h ++ [e]) =
    match e with Reset => None | _ => match refusal_of z e with Some r => Some r | None => last_refusal z h end end.
Proof. unfold last_refusal. by rewrite foldl_app. Qed.

(** Firing lookups changes neither what was answered nor what was refused. *)
Lemma fired_events now ts h :
  let evs := (fun t : ProviderLookup * Phase => Fired t.1 now) <$> ts in
  (forall e, e ∈ since_reset h -> e ∈ since_reset (h ++ evs)) /\
  forall z, last_refusal z (h ++ evs) = last_refusal z h.
Proof.
  simpl. induction ts as [|t ts IH] using rev_ind; [by rewrite app_nil_r|].
  rewrite fmap_app, app_assoc. simpl. destruct IH as [H1 H2]. split.
  - intros e He. rewrite since_reset_snoc. apply elem_of_app. left. by apply H1.
  - intros z. rewrite last_refusal_snoc. simpl. by rewrite H2.
Qed.

Lemma entry_from_mono h h' k e :
  (forall x, x ∈ since_reset h -> x ∈ since_reset h') -> entry_from h k e -> entry_from h' k e.
Proof. intros Hh (l & a & t & H & H'). exists l, a, t. split; [by apply Hh|done]. Qed.

Lemma sound_later t now h s : t <= now -> sound t h s -> sound now h s.
Proof.
  intros Ht [H1 H2 H3 H4 H5]. split; try done. intros z. specialize (H5 z).
  destruct (last_refusal z h) as [r|]; [|done]. destruct H5 as [H5|[H5 Hu]]; [by left|right]. split; [done|lia].
Qed.

Lemma sound_check now name h s :
  sound now h s -> sound now (h ++ fired now s (is_name_listed now name s).2) (is_name_listed now name s).2.
Proof.
  intros [H1 H2 H3 H4 H5]. destruct (is_name_listed_checked now name s) as [new [C1 C2 C3 C4 C5 C6 C7]].
  set (s' := (is_name_listed now name s).2) in *.
  destruct (fired_events now (drop (length (c_tasks s)) (c_tasks s')) h) as [Hh Hl].
  assert (task_key <$> c_tasks s' = (task_key <$> c_tasks s) ++ (l_cache_key <$> new)) as Hk.
  { rewrite C4, fmap_app. f_equal. by rewrite <- list_fmap_compose. }
  split.
  - rewrite Hk. apply NoDup_app. split_and!; [done| |done]. intros k Hin (l & -> & Hl')%list_elem_of_fmap.
    destruct (C7 l Hl') as (_ & _ & _ & _ & Hni & _). apply Hni. by apply H2.
  - intros k. rewrite Hk, C5, elem_of_app, elem_of_union, elem_of_list_to_set, H2. tauto.
  - intros t Ht. rewrite C4 in Ht. apply elem_of_app in Ht as [Ht|Ht].
    + destruct (H3 t Ht) as [a Ha]. exists a. apply elem_of_app. by left.
    + exists now. apply elem_of_app. right. unfold fired.
      apply (list_elem_of_fmap_2 (fun t : ProviderLookup * Phase => Fired t.1 now)).
      by rewrite C4, drop_app_length.
  - intros k e He. apply (entry_from_mono h); [by apply Hh|]. apply H4.
    destruct C1 as [C1 _]. by eapply lookup_weaken.
  - intros z. unfold fired. rewrite Hl. specialize (H5 z). destruct (last_refusal z h) as [r|].
    + destruct (C2 z) as [->|[-> (r' & Hr & Hu)]]; [done|]. right. split; [done|].
      destruct H5 as [H5|[H5 _]]; congruence.
    + destruct (C2 z) as [->|[-> _]]; done.
Qed.

Lemma record_answer_frame now l reply s :
  c_tasks (record_answer now l reply s) = c_tasks s /\ c_inflight (record_answer now l reply s) = c_inflight s.
Proof.
  unfold record_answer. destruct reply as [answer|]; [|done].
  by destruct (classify answer (l_refusal_codes l)).
Qed.

Lemma record_answer_cache now l reply h s k e :
  (forall k e, c_cache s !! k = Some e -> entry_from h k e) ->
  c_cache (record_answer now l reply s) !! k = Some e -> entry_from (h ++ [Answered l reply now]) k e.
Proof.
  intros H He. assert (c_cache s !! k = Some e -> entry_from (h ++ [Answered l reply now]) k e) as Hold.
  { intros E. eapply entry_from_mono; [|by apply H]. intros x Hx. rewrite since_reset_snoc. set_solver. }
  unfold record_answer in He. destruct reply as [answer|]; [|by apply Hold].
  destruct (classify answer (l_refusal_codes l)) as [| |code] eqn:Ec; [| |by apply Hold]; simpl in He.
  - destruct (decide (l_cache_key l = k)) as [<-|Hk]; [|rewrite lookup_insert_ne in He by done; by apply Hold].
    rewrite lookup_insert_eq in He. injection He as <-. exists l, answer, now.
    split_and!; [rewrite since_reset_snoc; set_solver|done|]. intros _.
    apply classify_listed in Ec as (a & -> & Hl). by exists a.
  - destruct (decide (l_cache_key l = k)) as [<-|Hk]; [|rewrite lookup_insert_ne in He by done; by apply Hold].
    rewrite lookup_insert_eq in He. injection He as <-. exists l, answer, now.
    split_and!; [rewrite since_reset_snoc; set_solver|done|done].
Qed.

Lemma record_answer_rotated now l reply s z :
  c_rotated (record_answer now l reply s) !! z =
    match refusal_of z (Answered l reply now) with Some r => Some r | None => c_rotated s !! z end.
Proof.
  unfold record_answer, refusal_of. destruct reply as [answer|]; [|done].
  destruct (classify answer (l_refusal_codes l)) as [| |code]; [done|done|]. simpl.
  destruct (String.eqb_spec (l_zone l) z) as [<-|Hz]; [by rewrite lookup_insert_eq|by rewrite lookup_insert_ne].
Qed.

Lemma sound_answered now i l reply h s :
  c_tasks s !! i = Some (l, Asking) -> sound now h s ->
  sound now (h ++ [Answered l reply now]) (fill_answered now i reply s).
Proof.
  intros Hi [H1 H2 H3 H4 H5]. unfold fill_answered. rewrite Hi.
  destruct (record_answer_frame now l reply s) as [Et Ei].
  assert (task_key <$> <[i := (l, Recorded)]> (c_tasks s) = task_key <$> c_tasks s) as Hk.
  { rewrite list_fmap_insert. apply list_insert_id. by rewrite list_lookup_fmap, Hi. }
  split; simpl; rewrite ?Et, ?Ei, ?Hk; try done.
  - intros t Ht. assert (exists ph, (t.1, ph) ∈ c_tasks s) as [ph Hph].
    { apply list_elem_of_lookup in Ht as [j Hj]. destruct (decide (i = j)) as [<-|Hij].
      - rewrite list_lookup_insert_eq in Hj by (by eapply lookup_lt_Some). injection Hj as <-.
        exists Asking. by eapply list_elem_of_lookup_2.
      - rewrite list_lookup_insert_ne in Hj by done. exists t.2. destruct t. by eapply list_elem_of_lookup_2. }
    destruct (H3 _ Hph) as [a Ha]. exists a. set_solver.
  - intros k e He. by eapply record_answer_cache.
  - intros z. rewrite last_refusal_snoc, record_answer_rotated.
    destruct (refusal_of z (Answered l reply now)) as [r|]; [by left|apply H5].
Qed.

Lemma sound_done now i h s : sound now h s -> sound now h (fill_done i s).
Proof.
  intros Hs. unfold fill_done. destruct (c_tasks s !! i) as [[l []]|] eqn:Hi; [done| |done].
  destruct Hs as [H1 H2 H3 H4 H5].
  assert (task_key <$> c_tasks s ≡ₚ l_cache_key l :: (task_key <$> delete i (c_tasks s))) as Hp.
  { rewrite (delete_Permutation (c_tasks s) i (l, Recorded) Hi) at 1. done. }
  rewrite Hp in H1. apply NoDup_cons in H1 as [Hni H1].
  split; simpl; try done.
  - intros k. rewrite elem_of_difference, elem_of_singleton, H2, Hp, elem_of_cons.
    split; [tauto|]. intros Hk. split; [by right|]. by intros ->.
  - intros t Ht. apply H3. rewrite (delete_Permutation (c_tasks s) i _ Hi). by right.
Qed.

Lemma sound_reset now h s s' :
  sound now h s -> c_cache s' = ∅ -> c_rotated s' = ∅ -> c_tasks s' = c_tasks s -> c_inflight s' = c_inflight s ->
  sound now (h ++ [Reset]) s'.
Proof.
  intros [H1 H2 H3 H4 H5] Ec Er Et Ei. split; rewrite ?Ec, ?Er, ?Et, ?Ei; try done.
  - intros t Ht. destruct (H3 t Ht) as [a Ha]. exists a. set_solver.
  - intros z. by rewrite last_refusal_snoc.
Qed.

Lemma sound_rotated_out now h s : sound now h s -> sound now h (rotated_out now s).2.
Proof.
  intros [H1 H2 H3 H4 H5]. split; simpl; try done. intros z. specialize (H5 z).
  destruct (last_refusal z h) as [r|].
  - destruct H5 as [H5|[H5 Hu]].
    + destruct (decide (now < ro_until r)) as [Hl|Hl].
      * left. by apply map_lookup_filter_Some.
      * right. split; [|lia]. apply map_lookup_filter_None. right. intros r' Hr'. by simplify_eq.
    + right. split; [|done]. apply map_lookup_filter_None. by left.
  - apply map_lookup_filter_None. by left.
Qed.

Lemma reachable_sound now h s : reachable now h s -> sound now h s.
Proof.
  induction 1 as [t|t now h s evs s' _ IH Ht Hs].
  - split; simpl; [by apply NoDup_nil_2|set_solver|set_solver|done|done].
  - apply (sound_later t now) in IH; [|done].
    destruct Hs; rewrite ?app_nil_r; [by apply sound_check|by apply sound_answered|by apply sound_done|
      by eapply sound_reset|by eapply sound_reset| | |by apply sound_rotated_out].
    + by destruct IH.
    + unfold availability_turn. destruct (c_enabled s); [|done]. by destruct IH.
Qed.

(** C25: a name is blocked only on a provider's word, given in answer to the
    question. In whatever order checks, answers, reconfigurations and flushes come,
    a name is blocked only if an enabled provider's lookup of it was answered, since
    the caches were last emptied, with codes none of which is one of the refusal
    codes it was asked under, and less than ten minutes past the answer's lifetime
    ago. A provider that complains, errs or stays silent never blocks a name. *)
Theorem block_needs_listing now h s name :
  reachable now h s -> (is_name_listed now name s).1 = true ->
  exists p l a t, p ∈ c_providers s /\ p_enabled p = true /\
    l_cache_key l = normalize_blocklist_name name +:+ "/" +:+ p_zone p /\
    Answered l (Some (Some a)) t ∈ since_reset h /\ lists l a /\
    now < t + from_secs (an_ttl a) + STALE_POSITIVE_GRACE.
Proof.
  intros Hr%reachable_sound Hb. rewrite (proj1 (blocklist_check_exact now name s)) in Hb.
  apply andb_true_iff in Hb as [_ (p & Hp & Hb)%existsb_exists].
  apply list_elem_of_In, elem_filter_bool in Hp as [Hp He].
  unfold blocking in Hb. destruct (c_cache s !! _) as [e|] eqn:Ee; [|done].
  apply andb_true_iff in Hb as [Hl Ht]. apply Z.ltb_lt in Ht.
  destruct (s_cache _ _ _ Hr _ _ Ee) as (l & answer & t & Ha & Hk & Hl').
  destruct (Hl' Hl) as (a & -> & Hlists & Hx). exists p, l, a, t. split_and!; try done. by rewrite <- Hx.
Qed.

(** Providers are asked with restraint. Of each key at most one lookup runs
    at a time; a check starts lookups only while checking is on and lookups can
    leave, only for enabled providers whose verdict is not fresh and is not being
    fetched, and never of a provider whose last refusal since the caches were emptied
    is still in its cool-down. *)
Theorem providers_asked_with_restraint now h s name l :
  reachable now h s -> Fired l now ∈ fired now s (is_name_listed now name s).2 ->
  NoDup (task_key <$> c_tasks (is_name_listed now name s).2) /\
  c_enabled s = true /\ c_resolver_available s = true /\
  (exists p, p ∈ c_providers s /\ p_enabled p = true /\
     l = name_lookup (normalize_blocklist_name name) p (refusal_cooldown s)) /\
  is_fresh now (c_cache s !! l_cache_key l) = false /\ l_cache_key l ∉ task_key <$> c_tasks s /\
  match last_refusal (l_zone l) h with Some r => ro_until r <= now | None => True end.
Proof.
  intros Hr%reachable_sound Hf. pose proof (s_keys _ _ _ (sound_check now name h s Hr)) as Hk.
  destruct (is_name_listed_checked now name s) as [new [C1 C2 C3 C4 C5 C6 C7]].
  unfold fired in Hf. rewrite C4, drop_app_length in Hf. rewrite <- list_fmap_compose in Hf.
  apply list_elem_of_fmap in Hf as (l' & E & Hl). simpl in E. injection E as <-.
  destruct (C7 l Hl) as (H1 & H2 & H3 & H4 & H5 & H6).
  apply list_elem_of_fmap in H3 as (p & -> & [Hp Hpe]%elem_filter_bool).
  split_and!; try done; [by exists p|by rewrite <- (s_inflight _ _ _ Hr)|].
  pose proof (s_rotated _ _ _ Hr (p_zone p)) as Hz. simpl.
  destruct (last_refusal (p_zone p) h) as [r|]; [|done]. destruct Hz as [Hz|[_ Hu]]; [|done].
  destruct (Z.le_gt_cases (ro_until r) now) as [|Hgt]; [done|]. exfalso. apply H6. exists r. split; [done|lia].
Qed.

(** * Where the code does other than it says *)

Section Outage.
Context {L : DnsLib} `{DN : !DnsName Name, NO : !NameOrder Name, NW : !Network Name}.
Context `{CR : !DnssecCrypto Name (WireRecord Name Svcb), ST : !ShowType Z}.
Context `{VD : !VictimChoice DelegationCache.CachedDelegation, VK : !VictimChoice (KeyCache.Entry DnskeyData)}.
Context `{VR : !VictimChoice (RecordCache.CachedRecords (WireRecord Name Svcb))}.
Context (cfg : Config) (forwarders : list SocketAddr) (new_id : Z).
Context (arrives : list (REvent Name) -> SocketAddr -> list Z -> option (list Z)).

Lemma try_forwarders_silent name fwds rs :
  (forall log fwd q, arrives log fwd q = None) ->
  (try_forwarders new_id arrives name fwds rs).1 = Ok None.
Proof.
  intros Ha. revert rs. induction fwds as [|f fwds IH]; intros rs; simpl; [done|].
  unfold bind, attempt, query_forwarder_a. destruct (to_bytes _) as [q|]; [|apply IH]. rewrite Ha. apply IH.
Qed.

Lemma recursive_lookup_never_errs query rs : exists a, (recursive_lookup cfg forwarders new_id arrives query rs).1 = Ok a.
Proof.
  assert (forall name fwds rs, exists a, (try_forwarders new_id arrives name fwds rs).1 = Ok a) as Hf.
  { intros name. induction fwds as [|f fwds IH]; intros rs'; simpl; [by eexists|].
    unfold bind, attempt. destruct (query_forwarder_a _ _ _ _ rs') as [[r|e] rs'']; simpl; [by eexists|apply IH]. }
  unfold recursive_lookup. destruct (from_ascii query) as [name|]; [|by eexists].
  unfold bind, attempt. destruct (resolve cfg name T_A class_in rs) as [[res|e] rs']; simpl; [|apply Hf].
  destruct (_ =? NoError); [by eexists|]. destruct (_ =? NXDomain); [by eexists|apply Hf].
Qed.

(** What the background fill is handed: the result of the lookup as it stands. *)
Definition fill_reply (query : string) (rs : RState) : option (option DnsblAnswer) :=
  match (recursive_lookup cfg forwarders new_id arrives query rs).1 with Ok a => Some a | Err _ => None end.

(** An outage unblocks: a lookup that could not be made at all is reported as a
    negative answer, not as an error, so that the entry of a listed name, kept for
    exactly this case, is overwritten with a negative one and the name is let through
    for the next five minutes. *)
Theorem outage_unblocks now later i l s query rs :
  c_tasks s !! i = Some (l, Asking) ->
  (forall name, from_ascii query = Some name -> exists e, (resolve cfg name T_A class_in rs).1 = Err e) ->
  (forall log fwd q, arrives log fwd q = None) ->
  later < now + from_secs 300 ->
  (cached_verdict later (l_cache_key l) (fill_answered now i (fill_reply query rs) s)).1 = Fresh false.
Proof.
  intros Hi Hr Ha Hl. assert (fill_reply query rs = Some None) as ->.
  { unfold fill_reply, recursive_lookup. destruct (from_ascii query) as [name|]; [|done].
    destruct (Hr name eq_refl) as [e He]. unfold bind, attempt.
    destruct (resolve cfg name T_A class_in rs) as [r rs']. simpl in He. subst r. simpl.
    by rewrite try_forwarders_silent. }
  unfold fill_answered. rewrite Hi. simpl. unfold cached_verdict. simpl. rewrite lookup_insert_eq. simpl.
  by rewrite (proj2 (Z.ltb_lt _ _) Hl).
Qed.
End Outage.

(** ** A sample checker *)

Definition ads : string := "ads.example.com".
Definition sample_provider : DnsblProvider := new_provider "bl.test" true.
Definition lax_provider : DnsblProvider := mkProvider "bl.test" true [] None.

Definition checker_with (p : DnsblProvider) : DnsblChecker := set_config true [p] new_checker.
Definition asked (p : DnsblProvider) : DnsblChecker := (is_name_listed 0 ads (checker_with p)).2.
Definition ads_listed : DnsblChecker :=
  fill_answered 1 0 (Some (Some (mkAnswer [2130706434] 60))) (asked sample_provider).
Definition ads_refused : DnsblChecker :=
  fill_done 0 (fill_answered 1 0 (Some (Some (mkAnswer [2147483646] 60))) (asked sample_provider)).

(** A fill that was running when the configuration changed lands in the new cache:
    the new refusal codes would have read the answer as a complaint, but the name is
    blocked under the old ones. *)
Theorem reconfiguration_races_fill :
  let complaint := mkAnswer [2130706433] 60 in
  let s := fill_answered 2 0 (Some (Some complaint)) (set_config true [sample_provider] (asked lax_provider)) in
  classify (Some complaint) (p_refusal_codes sample_provider) = RefusedWith 2130706433 /\
  (is_name_listed 3 ads s).1 = true.
Proof. by split; vm_compute. Qed.

Lemma refusal_codes_roundtrip_witness :
  exists codes, resolve_refusal_codes [] = Ok codes /\
    resolve_refusal_codes (refusal_code_strings (new_provider "bl.test" true)) = Ok codes.
Proof.
  exists default_refusal_codes. split; [vm_compute; reflexivity|].
  refine (proj1 (refusal_codes_roundtrip [] default_refusal_codes (new_provider "bl.test" true) _ eq_refl)).
  vm_compute. reflexivity.
Defined.

(** Sixty seconds of lifetime are over, the listing still blocks and is renewed. *)
Lemma blocklist_check_exact_witness :
  let now := from_secs 120 in
  let s := fill_done 0 ads_listed in
  (is_name_listed now ads s).1 = true /\
  (out_of_rotation now "bl.test" s \/ "ads.example.com/bl.test" ∈ c_inflight (is_name_listed now ads s).2).
Proof.
  simpl. split.
  - rewrite (proj1 (blocklist_check_exact (from_secs 120) ads (fill_done 0 ads_listed))). vm_compute. reflexivity.
  - apply (proj2 (blocklist_check_exact (from_secs 120) ads (fill_done 0 ads_listed)) eq_refl eq_refl
      ltac:(vm_compute; discriminate) ltac:(vm_compute; reflexivity) sample_provider).
    + by left.
    + vm_compute. reflexivity.
Defined.

Lemma asked_reachable : reachable 0 ([] ++ [Reset] ++ fired 0 (checker_with sample_provider) (asked sample_provider))
  (asked sample_provider).
Proof.
  rewrite app_assoc. apply (reach_step 0 0 _ (checker_with sample_provider)); [|done|apply step_check].
  apply (reach_step 0 0 _ new_checker); [apply reach_new|done|apply step_config].
Qed.

Lemma ads_listed_reachable : exists h, reachable 1 h ads_listed.
Proof.
  eexists. eapply (reach_step 0 1 _ (asked sample_provider)); [apply asked_reachable|done|].
  eapply step_answered. vm_compute. reflexivity.
Qed.

Lemma block_needs_listing_witness :
  exists h, reachable 1 h ads_listed /\ exists l a t, Answered l (Some (Some a)) t ∈ since_reset h /\ lists l a.
Proof.
  destruct ads_listed_reachable as [h Hr]. exists h. split; [exact Hr|].
  destruct (block_needs_listing 1 h ads_listed ads Hr) as (p & l & a & t & _ & _ & _ & H1 & H2 & _).
  - vm_compute. reflexivity.
  - exists l, a, t. split; [exact H1|exact H2].
Defined.

Lemma providers_asked_with_restraint_witness :
  exists h s l, reachable 0 h s /\ Fired l 0 ∈ fired 0 s (is_name_listed 0 ads s).2 /\
    match last_refusal (l_zone l) h with Some r => ro_until r <= 0 | None => True end.
Proof.
  exists [Reset], (checker_with sample_provider), (name_lookup ads sample_provider (from_secs 3600)).
  assert (reachable 0 [Reset] (checker_with sample_provider)) as Hr.
  { apply (reach_step 0 0 [] new_checker); [apply reach_new|done|apply step_config]. }
  assert (Fired (name_lookup ads sample_provider (from_secs 3600)) 0 ∈
    fired 0 (checker_with sample_provider) (is_name_listed 0 ads (checker_with sample_provider)).2) as Hf.
  { vm_compute. left. }
  split; [exact Hr|]. split; [exact Hf|].
  exact (proj2 (proj2 (proj2 (proj2 (proj2 (proj2
    (providers_asked_with_restraint 0 [Reset] _ ads _ Hr Hf))))))).
Defined.

(** The provider that refused is not asked again within the hour, and is after it. *)
Example refused_provider_waits :
  (c_inflight (is_name_listed (from_secs 3599) ads ads_refused).2 = ∅) /\
  "ads.example.com/bl.test" ∈ c_inflight (is_name_listed (from_secs 3601) ads ads_refused).2.
Proof. split; [vm_compute; reflexivity|]. vm_compute. reflexivity. Qed.
