(* ===== verification/Server.v ===== *)
(** The query path of [src/src/dns_server.rs]: [resolve_query], stage by stage and in
    the order of the code, over the state it changes (the database handle's
    association cache, the response cache), the source it attributes the answer to
    and the log of what it asked of the outside: TLD peers, blocklist providers and
    upstream resolution. *)

From S2P Require Import Prelude RustStr Names Ip Records Rrsig Sql DnsCache ZoneStore Scopes Database.
From S2P Require Import Forwarder Tiers Wire Nsec Rdata Message Negative Upstream.
From stdpp Require Import base gmap sets list option strings.
From Stdlib Require Import ZArith Lia Bool Ascii.

Open Scope Z_scope.
Local Open Scope rolodex_scope.

(** * State *)

Record Config := mkConfig {
  overlay_cidrs : list IpCidr;
  recursion_cidrs : list IpCidr;
  dns64_enabled : bool;
  dns64_prefix : Z;
  answers_v4 : bool;
  answers_v6 : bool;
}.

Definition is_overlay_peer (cfg : Config) (ip : IpAddr) : bool :=
  existsb (fun c => contains c ip) (overlay_cidrs cfg).

Definition may_recurse (cfg : Config) (ip : IpAddr) : bool :=
  existsb (fun c => contains c ip) (recursion_cidrs cfg).

Section Server.
Context {L : DnsLib} {Out : Outside L}.

(** The server's mutable state while it serves a query: the database handle, the
    upstreams with the response cache, the source of the answer and the log of what
    was asked of the outside. *)
Record State := mkState {
  s_db : Database;
  s_up : Upstreams;
  s_tag : AnswerSource;
  s_log : list Event;
}.

Definition s_cache (s : State) : option DnsCache.t := u_cache (s_up s).

Definition set_cache (c : option DnsCache.t) (s : State) : State :=
  mkState (s_db s) (set_u_cache c (s_up s)) (s_tag s) (s_log s).

(** * A state monad *)

Definition M (A : Type) : Type := State -> A * State.

Definition ret {A} (a : A) : M A := fun s => (a, s).
Definition bind {A B} (m : M A) (k : A -> M B) : M B := fun s => let (a, s') := m s in k a s'.

Notation "x <-! m ; k" := (bind m (fun x => k))
  (at level 100, m at next level, right associativity) : rolodex_scope.

(** A stage that answers ends the query; one that does not leaves it to the next. *)
Definition or_else {A} (m : M (option A)) (k : M A) : M A :=
  fun s => match m s with (Some a, s') => (a, s') | (None, s') => k s' end.

Notation "m ;? k" := (or_else m k) (at level 100, right associativity) : rolodex_scope.

Definition get_db : M Database := fun s => (s_db s, s).
Definition set_tag (t : AnswerSource) : M unit :=
  fun s => (tt, mkState (s_db s) (s_up s) t (s_log s)).
Definition emit (e : Event) : M unit :=
  fun s => (tt, mkState (s_db s) (s_up s) (s_tag s) (s_log s ++ [e])).
Definition get_log : M (list Event) := fun s => (s_log s, s).

Definition with_scopes {A} (f : ScopeStore -> A * ScopeStore) : M A :=
  fun s => let (a, sc) := f (scopes (s_db s)) in
           (a, mkState (mkDb (zones (s_db s)) sc (lists (s_db s))) (s_up s) (s_tag s) (s_log s)).

(** [if let Some(ref cache) = self.dns_cache]. *)
Definition with_cache {A} (none : A) (f : DnsCache.t -> A * DnsCache.t) : M A :=
  fun s => match s_cache s with
           | None => (none, s)
           | Some c => let (a, c') := f c in (a, set_cache (Some c') s)
           end.

Definition update_cache (f : DnsCache.t -> DnsCache.t) : M unit :=
  with_cache tt (fun c => (tt, f c)).

(** A reply of some stage. *)
Definition answer (t : AnswerSource) (reply : list Z) : M (option (list Z)) :=
  _ <-! set_tag t; ret (Some reply).

Definition pass : M (option (list Z)) := ret None.

Context (cfg : Config).
(** The clock of the query, and the millisecond stamp of the breakers. *)
Context (now now_ms : Z).

Abbreviation Message := (Message Name Svcb).

(** * Peers and upstream *)

Fixpoint forward_to_tld_peers (query_data : list Z) (peers : list SocketAddr) : M (option (list Z)) :=
  match peers with
  | [] => ret None
  | target :: rest =>
      log <-! get_log;
      _ <-! emit (PeerQuery target query_data);
      match forward_one log query_data target with
      | Some resp =>
          if response_is_definitive resp then ret (Some resp)
          else forward_to_tld_peers query_data rest
      | None => forward_to_tld_peers query_data rest
      end
  end.

(** [None] is an error returned to the listener. *)
Definition upstream_resolve (query_data : list Z) (edns : option EdnsContext) : M (option (list Z)) :=
  fun s =>
    let '(r, (u, log)) := Upstream.upstream_resolve now now_ms query_data edns (s_up s) (s_log s) in
    (r, mkState (s_db s) u (s_tag s) log).

(** * The scope of a query *)

Definition ingress_target (db : Database) (local_ip : option IpAddr) (qname : string)
  : option (string * IpAddr) :=
  local_ip ← local_ip;
  ot ← find_tld_owner (scopes db) qname;
  ingress ← get_tld_ingress (scopes db) ot.2;
  if bool_decide (ingress = local_ip) then Some (ot.1, ingress) else None.

Inductive scope_decision := Unscoped | InScope (scope : string) | RefusePeer.

Definition scope_of (source_ip local_ip : option IpAddr) : M scope_decision :=
  db <-! get_db;
  match local_ip ≫= scope_for_ingress_ip (scopes db) with
  | Some scope => ret (InScope scope)
  | None =>
      match source_ip with
      | None => ret Unscoped
      | Some ip =>
          joined <-! with_scopes (get_scope_for_ip now (ip_to_string ip));
          match joined with
          | Some scope => ret (InScope scope)
          | None => ret (if has_scopes (scopes db) && is_overlay_peer cfg ip then RefusePeer else Unscoped)
          end
      end
  end.

(** * Stages *)

(** What every stage knows of the query. *)
Record Query := mkQuery {
  q_data : list Z;
  q_message : Message;
  q_edns : option EdnsContext;
  q_name : string;
  q_type : Z;
  q_arpa : bool;
  q_ingress : option IpAddr;
}.

Definition q_kind (q : Query) : option RecordKind := map_query_type_to_kind (q_type q).

(** [build_response_edns] for the query. *)
Definition reply (q : Query) (rcode : Z) (ans : list (WireRecord Name Svcb)) (aa : bool) : list Z :=
  build_response_edns (q_message q) rcode ans aa (q_edns q).

Definition scoped_answers (q : Query) (rs : list DnsRecord) : list (WireRecord Name Svcb) :=
  build_scoped_answers svcb_parse svcb_canonical_rdata rs (q_ingress q).

(** [rec.set_name(Name::from_ascii(&qname).ok()?)]. *)
Definition renamed (q : Query) (rs : list (WireRecord Name Svcb)) : list (WireRecord Name Svcb) :=
  omap (fun r => n ← from_ascii (q_name q); Some (set_wire_name n r)) rs.

Definition negative (q : Query) (ns : Namespace) : M (option (list Z)) :=
  db <-! get_db;
  let (source, bytes) := authoritative_negative db (q_message q) (q_name q) ns (q_edns q) in
  answer source bytes.

(** The reverse blocklist, in a scope and out of one. *)
Definition reverse_blocklist (q : Query) (aa : bool) : M (option (list Z)) :=
  db <-! get_db;
  match extract_ip_from_name (q_name q) with
  | Some ip =>
      if ip_blocked (lists db) (q_name q) ip
      then answer SrcReverseBlocklist (reply q NXDomain [] aa)
      else pass
  | None => pass
  end.

(** Scoped records of a mapped type: the cache, the records, ANAME. *)
Definition scoped_records (q : Query) (scope : string) : M (option (list Z)) :=
  db <-! get_db;
  match q_kind q with
  | None => pass
  | Some kind =>
      let scoped_cache_name := "@" +:+ scope +:+ "/" +:+ q_name q in
      cached <-! with_cache [] (DnsCache.lookup now scoped_cache_name (Some kind));
      match cached with
      | _ :: _ => answer SrcCache (reply q NoError (scoped_answers q cached) true)
      | [] =>
          match lookup_scoped (scopes db) scope (q_name q) (Some kind) with
          | (_ :: _) as records =>
              _ <-! update_cache (fun c =>
                DnsCache.insert_local now scoped_cache_name (Some kind) records
                  (DnsCache.invalidate_negative (q_name q)
                    (DnsCache.invalidate_negative scoped_cache_name c)));
              answer SrcScoped (reply q NoError (scoped_answers q records) true)
          | [] =>
              if bool_decide (kind = A) || bool_decide (kind = AAAA) then
                match lookup_scoped (scopes db) scope (q_name q) (Some ANAME) with
                | [] => pass
                | aname :: _ =>
                    match lookup_scoped (scopes db) scope (r_value aname) (Some kind) with
                    | [] => pass
                    | target_records =>
                        answer SrcScoped
                          (reply q NoError (renamed q (scoped_answers q target_records)) true)
                    end
                end
              else pass
          end
      end
  end.

Definition scoped_aliases (q : Query) (scope : string) : M (option (list Z)) :=
  db <-! get_db;
  match lookup_scoped (scopes db) scope (q_name q) (Some CNAME) with
  | (_ :: _) as cname_records => answer SrcScoped (reply q NoError (to_wire cname_records) true)
  | [] =>
      match check_dname_scoped db scope (q_name q) (q_message q) with
      | Some dname_result => answer SrcScoped dname_result
      | None => pass
      end
  end.

(** The TLD's peers, then the authoritative negative. *)
Definition peers_then_negative (q : Query) (owner owned_tld : string) (ns : Namespace)
  : M (option (list Z)) :=
  db <-! get_db;
  resp <-! forward_to_tld_peers (q_data q) (get_tld_forwarders_cached (scopes db) owner owned_tld);
  match resp with
  | Some resp => answer SrcTldPeer resp
  | None => negative q ns
  end.

(** The TLD partition. *)
Definition scoped_partition (q : Query) (scope : string) : M (option (list Z)) :=
  db <-! get_db;
  match find_tld_owner (scopes db) (q_name q) with
  | None => pass
  | Some (owner, owned_tld) =>
      if (owner =? scope)%string then peers_then_negative q scope owned_tld (Scope scope)
      else answer SrcAuthoritativeNxdomain (reply q NXDomain [] true)
  end.

Definition scoped_zones (q : Query) (scope : string) : M (option (list Z)) :=
  db <-! get_db;
  if existsb (fun zone => name_in_zone (q_name q) zone &&
                          (0 <? length (lookup_scoped (scopes db) scope zone None))%nat)
       (elements (get_scoped_managed_zones (scopes db) scope))
  then negative q (Scope scope)
  else pass.

(** Local data: cache, exact and wildcard records, ANAME, CNAME. *)
Definition local_records (q : Query) : M (option (list Z)) :=
  db <-! get_db;
  let aa := is_authoritative_zone db (q_name q) in
  let signed kind rs := to_wire rs ++ answer_signatures db (q_name q) kind (q_edns q) in
  match q_kind q with
  | Some kind =>
      cached <-! with_cache [] (DnsCache.lookup_local_only now (q_name q) (Some kind));
      match cached with
      | _ :: _ => answer SrcCache (reply q NoError (signed kind cached) aa)
      | [] =>
          let result := lookup_with_fallbacks (zones db) (q_name q) kind in
          let records := match exact result with [] => wildcard result | e => e end in
          match records with
          | _ :: _ =>
              _ <-! update_cache (fun c =>
                DnsCache.insert_local now (q_name q) (Some kind) records
                  (DnsCache.invalidate_negative (q_name q) c));
              answer SrcLocal (reply q NoError (signed kind records) aa)
          | [] =>
              let aname_targets :=
                if bool_decide (kind = A) || bool_decide (kind = AAAA) then
                  match aname result with
                  | [] => []
                  | a :: _ => ZoneStore.lookup (zones db) (r_value a) (Some kind)
                  end
                else [] in
              match aname_targets with
              | _ :: _ => answer SrcLocal (reply q NoError (renamed q (to_wire aname_targets)) aa)
              | [] =>
                  match cname result with
                  | _ :: _ => answer SrcLocal (reply q NoError (signed CNAME (cname result)) aa)
                  | [] => pass
                  end
              end
          end
      end
  | None =>
      match ZoneStore.lookup (zones db) (q_name q) (Some CNAME) with
      | (_ :: _) as cname_records => answer SrcLocal (reply q NoError (signed CNAME cname_records) aa)
      | [] => pass
      end
  end.

(** A trusted local source asking for a name under an owned TLD. *)
Definition lan_fallback (q : Query) : M (option (list Z)) :=
  db <-! get_db;
  match find_tld_owner (scopes db) (q_name q) with
  | None => pass
  | Some (owner, owned_tld) =>
      let in_owner kind := lookup_scoped (scopes db) owner (q_name q) (Some kind) in
      match q_kind q with
      | Some kind =>
          match in_owner kind with
          | (_ :: _) as records =>
              answer SrcScopeFallback (reply q NoError (scoped_answers q records) true)
          | [] =>
              match in_owner CNAME with
              | (_ :: _) as cname_records =>
                  answer SrcScopeFallback (reply q NoError (to_wire cname_records) true)
              | [] => peers_then_negative q owner owned_tld (LanFallback owner)
              end
          end
      | None => peers_then_negative q owner owned_tld (LanFallback owner)
      end
  end.

Definition global_zones (q : Query) : M (option (list Z)) :=
  db <-! get_db;
  match check_dname_global db (q_name q) (q_message q) with
  | Some dname_result => answer SrcLocal dname_result
  | None =>
      match find_managed_zone (zones db) (q_name q) with
      | Some _ => negative q Global
      | None =>
          match find_authoritative_zone (lists db) (q_name q) with
          | Some _ => negative q Global
          | None => pass
          end
      end
  end.

(** The open-resolver guard, which leaves the source as it was. *)
Definition recursion_guard (q : Query) (source_ip : option IpAddr) : M (option (list Z)) :=
  match source_ip with
  | Some ip => if may_recurse cfg ip then pass else ret (Some (reply q Refused [] false))
  | None => pass
  end.

Definition arpa_guard (q : Query) : M (option (list Z)) :=
  if q_arpa q then answer SrcRefused (reply q Refused [] false) else pass.

Definition domain_blocklist (q : Query) : M (option (list Z)) :=
  db <-! get_db;
  match extract_ip_from_name (q_name q) with
  | Some _ => pass
  | None =>
      match blocklist_exempt (lists db) (q_name q) None with
      | Some _ => pass
      | None =>
          let by_local := local_lists_name (lists db) (q_name q) in
          by_provider <-! (if by_local then ret false
                           else log <-! get_log;
                                _ <-! emit (ProviderQuery (q_name q));
                                ret (is_name_listed log (q_name q)));
          if by_local || by_provider then answer SrcBlocklist (reply q NXDomain [] false) else pass
      end
  end.

Definition upstream_cache (q : Query) : M (option (list Z)) :=
  cached <-! with_cache [] (DnsCache.lookup now (q_name q) (q_kind q));
  match cached with
  | _ :: _ => answer SrcCache (reply q NoError (to_wire cached) false)
  | [] =>
      neg <-! with_cache None (DnsCache.lookup_negative now (q_name q) (q_kind q));
      match neg with
      | Some DnsCache.NxDomain => answer SrcCache (reply q NXDomain [] false)
      | Some DnsCache.NoData => answer SrcCache (reply q NoError [] false)
      | None => pass
      end
  end.

(** AAAA records made of the A records of an answer. *)
Definition dns64_records (ans : list (WireRecord Name Svcb)) : list (WireRecord Name Svcb) :=
  omap (fun r => match w_data r with
                 | RD_A ipv4 => Some (mkWire (w_name r) (w_ttl r)
                                  (RD_AAAA (synthesize_dns64_address (dns64_prefix cfg) ipv4)))
                 | _ => None
                 end) ans.

Definition dns64 (q : Query) (forward_result : option (list Z)) : M (option (list Z)) :=
  match forward_result with
  | Some response =>
      if (q_type q =? 28) && dns64_enabled cfg then
        match from_bytes response with
        | Some fwd_msg =>
            if existsb (fun r => record_type r =? 28) (answers fwd_msg) then pass
            else
              a_response <-! upstream_resolve
                (build_query_for_type (q_name q) 1 (m_id (q_message q)) root_name) (q_edns q);
              match a_response ≫= from_bytes with
              | Some a_msg =>
                  match dns64_records (answers a_msg) with
                  | [] => pass
                  | synthesized => answer SrcDns64 (reply q NoError synthesized false)
                  end
              | None => pass
              end
        | None => pass
        end
      else pass
  | None => pass
  end.

(** A fresh answer in the shape of a cached one. *)
Definition normalized_answer (q : Query) (forward_result : option (list Z)) : M (option (list Z)) :=
  match forward_result with
  | Some _ =>
      if wants_dnssec (q_edns q) then pass
      else
        cached <-! with_cache [] (DnsCache.lookup now (q_name q) (q_kind q));
        match cached with
        | [] => pass
        | _ => ret (Some (reply q NoError (to_wire cached) false))
        end
  | None => pass
  end.

Definition upstream (q : Query) : M (option (list Z)) :=
  forward_result <-! upstream_resolve (q_data q) (q_edns q);
  replied <-! dns64 q forward_result;
  match replied with
  | Some r => ret (Some r)
  | None =>
      replied <-! normalized_answer q forward_result;
      match replied with
      | Some r => ret (Some r)
      | None => ret forward_result
      end
  end.

(** * Composition *)

(** A stage whose answer is a reply. *)
Definition some_reply {A} (m : M (option A)) : M (option (option A)) :=
  r <-! m; ret (match r with Some a => Some (Some a) | None => None end).

(** [stages ms k]: the first stage that answers, otherwise [k]. *)
Fixpoint stages (ms : list (M (option (list Z)))) (k : M (option (list Z))) : M (option (list Z)) :=
  match ms with
  | [] => k
  | m :: ms' => or_else (some_reply m) (stages ms' k)
  end.

(** The stages that answer from data the server holds. *)
Definition held_data (q : Query) (scope : option string) : list (M (option (list Z))) :=
  match scope with
  | Some sc =>
      [reverse_blocklist q true; scoped_records q sc; scoped_aliases q sc; scoped_partition q sc;
       scoped_zones q sc; local_records q; global_zones q]
  | None => [reverse_blocklist q false; local_records q; lan_fallback q; global_zones q]
  end.

Definition resolve_named (q : Query) (source_ip : option IpAddr) (scope : option string)
  : M (option (list Z)) :=
  stages (held_data q scope)
    (stages [recursion_guard q source_ip; arpa_guard q; domain_blocklist q; upstream_cache q]
       (upstream q)).

Definition resolve_query (query_data : list Z) (source_ip local_ip : option IpAddr)
  : M (option (list Z)) :=
  match from_bytes query_data with
  | None => answer SrcError (make_error_response query_data FormErr)
  | Some message =>
      let edns := extensions message in
      if match edns with Some ctx => is_unsupported_version ctx | None => false end
      then answer SrcError (build_response_edns message (rcode_from 0 16) [] false edns)
      else if is_response message then answer SrcError (make_error_response query_data NotImp)
      else if negb (op_code message =? 0) then answer SrcError (make_error_response query_data NotImp)
      else match queries message with
           | [] => answer SrcError (make_error_response query_data FormErr)
           | mkQuestion name qtype _ :: _ =>
               let qname := name_to_string name in
               db <-! get_db;
               let q := mkQuery query_data message edns qname qtype (is_arpa_subtree name)
                          (snd <$> ingress_target db local_ip qname) in
               decision <-! scope_of source_ip local_ip;
               match decision with
               | RefusePeer => answer SrcRefused (reply q Refused [] false)
               | InScope scope => resolve_named q source_ip (Some scope)
               | Unscoped => resolve_named q source_ip None
               end
           end
  end.

Inductive Proto := Udp | Tcp | Tls | Https | Quic.

Definition handle_query_proto (query_data : list Z) (source_ip local_ip : option IpAddr) (proto : Proto)
  : M (option (list Z)) :=
  r <-! resolve_query query_data (to_canonical <$> source_ip) (to_canonical <$> local_ip);
  match r with
  | None => ret None
  | Some response =>
      let response := apply_family_filter (answers_v4 cfg) (answers_v6 cfg) response in
      ret (Some (match proto with Udp => truncate_for_udp response query_data | _ => response end))
  end.

(** * What stages do to the state *)

Create HintDb server.

(** [emits P m]: [m] only adds events that satisfy [P] to the log, and leaves the
    database as it is. *)
Definition emits (P : Event -> Prop) {A} (m : M A) : Prop :=
  forall s, s_db (m s).2 = s_db s /\ exists es, s_log (m s).2 = s_log s ++ es /\ Forall P es.

Definition is_peer (e : Event) : Prop := match e with PeerQuery _ _ => True | _ => False end.

Lemma emits_ret P {A} (a : A) : emits P (ret a).
Proof. intros s. split; [done|]. exists []. by rewrite app_nil_r. Qed.

Lemma emits_bind P {A B} (m : M A) (k : A -> M B) :
  emits P m -> (forall a, emits P (k a)) -> emits P (bind m k).
Proof.
  intros Hm Hk s. unfold bind. destruct (Hm s) as (Hd & es & Hl & He).
  destruct (m s) as [a s']. simpl in *. destruct (Hk a s') as (Hd' & es' & Hl' & He').
  split; [congruence|]. exists (es ++ es'). rewrite Hl', Hl, app_assoc. split; [done|].
  by apply Forall_app.
Qed.

Lemma emits_or_else P {A} (m : M (option A)) k : emits P m -> emits P k -> emits P (or_else m k).
Proof.
  intros Hm Hk s. unfold or_else. destruct (Hm s) as (Hd & es & Hl & He).
  destruct (m s) as [[a|] s']; simpl in *; [by split; [|exists es]|].
  destruct (Hk s') as (Hd' & es' & Hl' & He'). split; [congruence|].
  exists (es ++ es'). rewrite Hl', Hl, app_assoc. split; [done|]. by apply Forall_app.
Qed.

Lemma emits_state P {A} (m : M A) :
  (forall s, s_db (m s).2 = s_db s /\ s_log (m s).2 = s_log s) -> emits P m.
Proof. intros H s. destruct (H s) as [Hd Hl]. split; [done|]. exists []. by rewrite Hl, app_nil_r. Qed.

Lemma emits_get_db P : emits P get_db. Proof. by apply emits_state. Qed.
Lemma emits_get_log P : emits P get_log. Proof. by apply emits_state. Qed.
Lemma emits_set_tag P t : emits P (set_tag t). Proof. by apply emits_state. Qed.
Lemma emits_pass P : emits P pass. Proof. apply emits_ret. Qed.

Lemma emits_emit (P : Event -> Prop) e : P e -> emits P (emit e).
Proof. intros He s. split; [done|]. exists [e]. split; [done|]. by constructor. Qed.

Lemma emits_with_cache P {A} (none : A) f : emits P (with_cache none f).
Proof.
  apply emits_state. intros s. unfold with_cache. destruct (s_cache s); [|done]. by destruct (f _).
Qed.

Lemma emits_update_cache P f : emits P (update_cache f). Proof. apply emits_with_cache. Qed.

Lemma emits_answer P t r : emits P (answer t r).
Proof. apply emits_bind; [apply emits_set_tag|intros; apply emits_ret]. Qed.

Lemma emits_negative P q ns : emits P (negative q ns).
Proof.
  apply emits_bind; [apply emits_get_db|]. intros db.
  destruct (authoritative_negative _ _ _ _ _). apply emits_answer.
Qed.

Lemma emits_peers (P : Event -> Prop) query peers :
  (forall p d, P (PeerQuery p d)) -> emits P (forward_to_tld_peers query peers).
Proof.
  intros HP. induction peers as [|p ps IH]; [apply emits_ret|].
  apply emits_bind; [apply emits_get_log|]. intros log.
  apply emits_bind; [by apply emits_emit|]. intros _.
  destruct (forward_one _ _ _); [|done]. by destruct (response_is_definitive _); [apply emits_ret|].
Qed.

Hint Resolve emits_ret emits_pass emits_get_db emits_get_log emits_set_tag emits_with_cache
  emits_update_cache emits_answer emits_negative emits_peers : server.

Ltac emits := repeat first
  [ progress eauto with server
  | apply emits_bind; [|intros]
  | apply emits_or_else
  | match goal with |- emits _ (match ?x with _ => _ end) => destruct x end
  | progress cbn zeta ].

Lemma emits_peers_then_negative (P : Event -> Prop) q owner tld ns :
  (forall p d, P (PeerQuery p d)) -> emits P (peers_then_negative q owner tld ns).
Proof. intros HP. unfold peers_then_negative. emits. Qed.

Hint Resolve emits_peers_then_negative : server.

Lemma emits_stages P ms k :
  Forall (emits P) ms -> emits P k -> emits P (stages ms k).
Proof.
  induction 1 as [|m ms Hm Hms IH]; intros Hk; [done|]. apply emits_or_else; [|by apply IH].
  apply emits_bind; [done|]. eauto with server.
Qed.

Lemma emits_reverse_blocklist P q aa : emits P (reverse_blocklist q aa).
Proof. unfold reverse_blocklist. emits. Qed.

Lemma emits_scoped_records P q sc : emits P (scoped_records q sc).
Proof. unfold scoped_records. emits. Qed.

Lemma emits_scoped_aliases P q sc : emits P (scoped_aliases q sc).
Proof. unfold scoped_aliases. emits. Qed.

Lemma emits_scoped_partition (P : Event -> Prop) q sc :
  (forall p d, P (PeerQuery p d)) -> emits P (scoped_partition q sc).
Proof. intros HP. unfold scoped_partition. emits. Qed.

Lemma emits_scoped_zones P q sc : emits P (scoped_zones q sc).
Proof. unfold scoped_zones. emits. Qed.

Lemma emits_local_records P q : emits P (local_records q).
Proof. unfold local_records. emits. Qed.

Lemma emits_lan_fallback (P : Event -> Prop) q :
  (forall p d, P (PeerQuery p d)) -> emits P (lan_fallback q).
Proof. intros HP. unfold lan_fallback. emits. Qed.

Lemma emits_global_zones P q : emits P (global_zones q).
Proof. unfold global_zones. emits. Qed.

Lemma emits_recursion_guard P q src : emits P (recursion_guard q src).
Proof. unfold recursion_guard. emits. Qed.

Lemma emits_arpa_guard P q : emits P (arpa_guard q).
Proof. unfold arpa_guard. emits. Qed.

Hint Resolve emits_reverse_blocklist emits_scoped_records emits_scoped_aliases emits_scoped_partition
  emits_scoped_zones emits_local_records emits_lan_fallback emits_global_zones emits_recursion_guard
  emits_arpa_guard Forall_nil_2 Forall_cons_2 : server.

Lemma is_peer_query p d : is_peer (PeerQuery p d). Proof. done. Qed.
Hint Resolve is_peer_query : server.

Lemma emits_held_data q scope : Forall (emits is_peer) (held_data q scope).
Proof. destruct scope as [sc|]; cbn [held_data]; auto 12 with server. Qed.

(** * Stages that always answer *)

Lemma stages_app ms ms' k : stages (ms ++ ms') k = stages ms (stages ms' k).
Proof. induction ms as [|m ms IH]; simpl; [done|]. by rewrite IH. Qed.

(** After a stage that answers, nothing runs. *)
Lemma stages_cut P db ms m ms' k k' s :
  Forall (emits P) ms -> (forall s, s_db s = db -> is_Some (m s).1) -> s_db s = db ->
  stages (ms ++ m :: ms') k s = stages (ms ++ [m]) k' s.
Proof.
  intros Hms Hm. revert s. induction Hms as [|m0 ms Hm0 Hms IH]; intros s Hs; simpl;
    unfold or_else, some_reply, bind.
  - specialize (Hm s Hs). destruct (m s) as [[r|] s']; [done|]. by destruct Hm.
  - destruct (Hm0 s) as [Hd _]. destruct (m0 s) as [[r|] s']; [done|]. simpl in *. apply IH. congruence.
Qed.

Lemma stages_ext P db ms k k' s :
  Forall (emits P) ms -> (forall s, s_db s = db -> k s = k' s) -> s_db s = db ->
  stages ms k s = stages ms k' s.
Proof.
  intros Hms Hk. revert s. induction Hms as [|m ms Hm Hms IH]; intros s Hs; [by apply Hk|].
  cbn [stages]. unfold or_else, some_reply, bind. destruct (Hm s) as [Hd _].
  destruct (m s) as [[r|] s']; [done|]. simpl in *. apply IH. congruence.
Qed.

Lemma answer_some t r s : is_Some ((answer t r s).1). Proof. by eexists. Qed.

Lemma negative_some q ns s : is_Some ((negative q ns s).1).
Proof. unfold negative, bind, get_db. destruct (authoritative_negative _ _ _ _ _). by eexists. Qed.

Lemma peers_then_negative_some q owner tld ns s : is_Some ((peers_then_negative q owner tld ns s).1).
Proof.
  unfold peers_then_negative, bind, get_db. destruct (forward_to_tld_peers _ _ s) as [[r|] s'].
  - by eexists.
  - apply negative_some.
Qed.

Lemma scoped_partition_answers q sc db ot s :
  find_tld_owner (scopes db) (q_name q) = Some ot -> s_db s = db -> is_Some ((scoped_partition q sc s).1).
Proof.
  intros Ho <-. unfold scoped_partition, bind, get_db. rewrite Ho. destruct ot as [owner tld].
  destruct (owner =? sc)%string; [apply peers_then_negative_some|apply answer_some].
Qed.

Lemma lan_fallback_answers q db ot s :
  find_tld_owner (scopes db) (q_name q) = Some ot -> s_db s = db -> is_Some ((lan_fallback q s).1).
Proof.
  intros Ho <-. unfold lan_fallback, bind, get_db. rewrite Ho. destruct ot as [owner tld].
  destruct (q_kind q); [|apply peers_then_negative_some].
  destruct (lookup_scoped _ _ _ _); [|apply answer_some].
  destruct (lookup_scoped _ _ _ _); [apply peers_then_negative_some|apply answer_some].
Qed.

(** A name under an owned TLD is answered before anything reaches out. *)
Lemma owned_tld_held q src scope ot s k :
  find_tld_owner (scopes (s_db s)) (q_name q) = Some ot ->
  resolve_named q src scope s = stages (held_data q scope) k s.
Proof.
  intros Ho. unfold resolve_named. set (rest := stages _ (upstream q)).
  destruct scope as [sc|]; cbn [held_data].
  - assert (forall k', stages [reverse_blocklist q true; scoped_records q sc; scoped_aliases q sc;
      scoped_partition q sc; scoped_zones q sc; local_records q; global_zones q] k' s =
      stages ([reverse_blocklist q true; scoped_records q sc; scoped_aliases q sc] ++
        [scoped_partition q sc]) (ret None) s) as H; [|by rewrite !H].
    intros k'. eapply (stages_cut is_peer (s_db s)
      [reverse_blocklist q true; scoped_records q sc; scoped_aliases q sc]); [|by intros; eapply scoped_partition_answers|done].
    auto with server.
  - assert (forall k', stages [reverse_blocklist q false; local_records q; lan_fallback q; global_zones q] k' s =
      stages ([reverse_blocklist q false; local_records q] ++ [lan_fallback q]) (ret None) s) as H;
      [|by rewrite !H].
    intros k'. eapply (stages_cut is_peer (s_db s) [reverse_blocklist q false; local_records q]);
      [|by intros; eapply lan_fallback_answers|done].
    auto with server.
Qed.

(** A source that may not recurse, and a name under [arpa.]. *)
Lemma stranger_held q ip scope s :
  may_recurse cfg ip = false ->
  resolve_named q (Some ip) scope s =
  stages (held_data q scope) (ret (Some (reply q Refused [] false))) s.
Proof.
  intros Hr. unfold resolve_named. cbn [stages]. unfold recursion_guard. rewrite Hr. reflexivity.
Qed.

Lemma arpa_held q src scope s :
  q_arpa q = true ->
  resolve_named q src scope s =
  stages (held_data q scope ++ [recursion_guard q src]) (answer SrcRefused (reply q Refused [] false)) s.
Proof.
  intros Ha. unfold resolve_named. rewrite stages_app. cbn [stages].
  unfold arpa_guard. rewrite Ha. reflexivity.
Qed.

(** Choosing the scope only prunes the association cache. *)
Definition same_frame (s s' : State) : Prop :=
  s_cache s' = s_cache s /\ s_tag s' = s_tag s /\ s_log s' = s_log s /\
  zones (s_db s') = zones (s_db s) /\ lists (s_db s') = lists (s_db s) /\
  tld_owner_cache (scopes (s_db s')) = tld_owner_cache (scopes (s_db s)) /\
  scoped_record_cache (scopes (s_db s')) = scoped_record_cache (scopes (s_db s)).

Lemma scope_of_frame src lip s : same_frame s (scope_of src lip s).2.
Proof.
  unfold scope_of, bind, get_db. destruct (lip ≫= _); [done|]. destruct src as [ip|]; [|done].
  unfold with_scopes. destruct (get_scope_for_ip now (ip_to_string ip) (scopes (s_db s))) as [r sc] eqn:E.
  assert (tld_owner_cache sc = tld_owner_cache (scopes (s_db s)) /\
          scoped_record_cache sc = scoped_record_cache (scopes (s_db s))) as [H1 H2].
  { unfold get_scope_for_ip in E. repeat case_match; by injection E as <- <-. }
  by destruct r.
Qed.

Definition peers_only (s s' : State) : Prop := exists es, s_log s' = s_log s ++ es /\ Forall is_peer es.

Lemma peers_only_refl s s' : s_log s' = s_log s -> peers_only s s'.
Proof. intros H. exists []. by rewrite app_nil_r. Qed.

Lemma emits_peers_only {A} (m : M A) s : emits is_peer m -> peers_only s (m s).2.
Proof. intros H. by destruct (H s) as [_ ?]. Qed.

Lemma held_peers_only q scope k s : emits is_peer k -> peers_only s (stages (held_data q scope) k s).2.
Proof. intros Hk. apply emits_peers_only, emits_stages; [apply emits_held_data|done]. Qed.

(** What every well-formed query may ask, the query may ask. *)
Lemma handle_peers_only query_data src lip proto s :
  (forall message name qtype qclass rest q scope s',
     from_bytes query_data = Some message -> queries message = mkQuestion name qtype qclass :: rest ->
     q_name q = name_to_string name -> q_arpa q = is_arpa_subtree name -> same_frame s s' ->
     peers_only s' (resolve_named q (to_canonical <$> src) scope s').2) ->
  peers_only s (handle_query_proto query_data src lip proto s).2.
Proof.
  intros H. unfold handle_query_proto, bind at 1.
  assert (peers_only s (resolve_query query_data (to_canonical <$> src) (to_canonical <$> lip) s).2) as Hq.
  { unfold resolve_query. destruct (from_bytes query_data) as [message|]; [|by apply peers_only_refl].
    do 3 (match goal with |- context [if ?b then _ else _] => destruct b end; [by apply peers_only_refl|]).
    destruct (queries message) as [|[name qtype qclass] rest] eqn:Hqs; [by apply peers_only_refl|].
    unfold bind at 1, get_db at 1. unfold bind.
    pose proof (scope_of_frame (to_canonical <$> src) (to_canonical <$> lip) s) as Hf.
    destruct (scope_of _ _ s) as [d s']. simpl in Hf.
    assert (s_log s' = s_log s) as Hl by apply Hf.
    assert (forall q scope, q_name q = name_to_string name -> q_arpa q = is_arpa_subtree name ->
      peers_only s (resolve_named q (to_canonical <$> src) scope s').2) as Hn.
    { intros q scope Hqn Hqa. specialize (H message name qtype qclass rest q scope s' eq_refl Hqs Hqn Hqa Hf).
      unfold peers_only in *. by rewrite Hl in H. }
    destruct d; [by apply Hn|by apply Hn|by apply peers_only_refl]. }
  destruct (resolve_query _ _ _ s) as [[r|] s']; done.
Qed.

(** * What a query in a scope depends on *)

(** Two states a scope cannot tell apart: the same lists, the same cache, the same
    owner of the queried name and the same records in the scope itself. *)
Definition scope_view (qname scope : string) (s s' : State) : Prop :=
  lists (s_db s') = lists (s_db s) /\ s_cache s' = s_cache s /\
  find_tld_owner (scopes (s_db s')) qname = find_tld_owner (scopes (s_db s)) qname /\
  forall name kind, lookup_scoped (scopes (s_db s')) scope name (Some kind) =
                    lookup_scoped (scopes (s_db s)) scope name (Some kind).

(** Two computations with the same result from states a scope cannot tell apart,
    neither of which asks anything of the outside. *)
Definition blind {A} (qname scope : string) (m m' : M A) : Prop :=
  forall s s', scope_view qname scope s s' ->
    (m' s').1 = (m s).1 /\ scope_view qname scope (m s).2 (m' s').2 /\ s_log (m s).2 = s_log s.

Lemma blind_ret {A} n sc (a : A) : blind n sc (ret a) (ret a).
Proof. by intros s s' H. Qed.

Lemma blind_bind {A B} n sc (m m' : M A) (k k' : A -> M B) :
  blind n sc m m' -> (forall a, blind n sc (k a) (k' a)) -> blind n sc (bind m k) (bind m' k').
Proof.
  intros Hm Hk s s' H. unfold bind. destruct (Hm s s' H) as (H1 & H2 & H3).
  destruct (m s) as [a t], (m' s') as [a' t']. simpl in *. subst a'.
  destruct (Hk a t t' H2) as (H4 & H5 & H6). split_and!; [done|done|congruence].
Qed.

Lemma blind_or_else {A} n sc (m m' : M (option A)) k k' :
  blind n sc m m' -> blind n sc k k' -> blind n sc (or_else m k) (or_else m' k').
Proof.
  intros Hm Hk s s' H. unfold or_else. destruct (Hm s s' H) as (H1 & H2 & H3).
  destruct (m s) as [[a|] t], (m' s') as [a' t']; simpl in *; subst a'; [done|].
  destruct (Hk t t' H2) as (H4 & H5 & H6). split_and!; [done|done|congruence].
Qed.

Lemma blind_with_cache {A} n sc (none : A) f : blind n sc (with_cache none f) (with_cache none f).
Proof.
  intros s s' H. unfold with_cache. destruct H as (H1 & H2 & H3 & H4). rewrite H2.
  destruct (s_cache s) as [c|] eqn:E; [destruct (f c)|]; unfold scope_view; simpl; split_and!; try done;
    congruence.
Qed.

Lemma blind_answer n sc t r : blind n sc (answer t r) (answer t r).
Proof. apply blind_bind; [by intros s s' H|intros; apply blind_ret]. Qed.

(** A stage that reads the database only through its view. *)
Lemma blind_get_db {A} n sc (k : Database -> M A) :
  (forall db db', lists db' = lists db ->
     find_tld_owner (scopes db') n = find_tld_owner (scopes db) n ->
     (forall name kind, lookup_scoped (scopes db') sc name (Some kind) =
                        lookup_scoped (scopes db) sc name (Some kind)) ->
     blind n sc (k db) (k db')) ->
  blind n sc (bind get_db k) (bind get_db k).
Proof. intros Hk s s' H. unfold bind, get_db. apply Hk; [apply H..|done]. Qed.

Lemma blind_reverse_blocklist q sc aa : blind (q_name q) sc (reverse_blocklist q aa) (reverse_blocklist q aa).
Proof.
  apply blind_get_db. intros db db' Hl Ho Hs. rewrite Hl.
  destruct (extract_ip_from_name _); [|apply blind_ret].
  destruct (ip_blocked _ _ _); [apply blind_answer|apply blind_ret].
Qed.

Lemma blind_scoped_records q sc : blind (q_name q) sc (scoped_records q sc) (scoped_records q sc).
Proof.
  apply blind_get_db. intros db db' Hl Ho Hs.
  destruct (q_kind q) as [kind|]; [|apply blind_ret]. cbn zeta.
  apply blind_bind; [apply blind_with_cache|]. intros [|c cs]; [|apply blind_answer]. rewrite Hs.
  destruct (lookup_scoped _ sc (q_name q) (Some kind)) as [|r rs].
  - destruct (_ || _); [|apply blind_ret]. rewrite Hs.
    destruct (lookup_scoped _ sc (q_name q) (Some ANAME)) as [|a as_]; [apply blind_ret|]. rewrite Hs.
    destruct (lookup_scoped _ sc (r_value a) (Some kind)); [apply blind_ret|apply blind_answer].
  - apply blind_bind; [apply blind_with_cache|intros; apply blind_answer].
Qed.

Lemma dname_walk_ext f g n before after :
  (forall p, f p = g p) -> dname_walk f n before after = dname_walk g n before after.
Proof.
  intros H. revert before. induction after as [|p ps IH]; intros before; [done|]. simpl.
  destruct ps; [done|]. rewrite H. by destruct (g _).
Qed.

Lemma blind_scoped_aliases q sc : blind (q_name q) sc (scoped_aliases q sc) (scoped_aliases q sc).
Proof.
  apply blind_get_db. intros db db' Hl Ho Hs.
  assert (check_dname_scoped db' sc (q_name q) (q_message q) =
          check_dname_scoped db sc (q_name q) (q_message q)) as Hd.
  { unfold check_dname_scoped, check_dname. cbn zeta.
    by rewrite (dname_walk_ext (fun p => lookup_scoped (scopes db') sc p (Some DNAME))
                  (fun p => lookup_scoped (scopes db) sc p (Some DNAME))). }
  rewrite Hs, Hd. destruct (lookup_scoped _ sc _ _); [|apply blind_answer].
  destruct (check_dname_scoped db sc (q_name q) (q_message q)); [apply blind_answer|apply blind_ret].
Qed.

Lemma blind_stages n sc ms k :
  Forall (fun m => blind n sc m m) ms -> blind n sc k k -> blind n sc (stages ms k) (stages ms k).
Proof.
  induction 1 as [|m ms Hm Hms IH]; intros Hk; [done|]. apply blind_or_else; [|by apply IH].
  apply blind_bind; [done|]. intros; apply blind_ret.
Qed.

(** The stages of a scope before the partition. *)
Definition own_stages (q : Query) (sc : string) : list (M (option (list Z))) :=
  [reverse_blocklist q true; scoped_records q sc; scoped_aliases q sc].

Lemma partition_hides q src sc owner tld s :
  find_tld_owner (scopes (s_db s)) (q_name q) = Some (owner, tld) -> owner <> sc ->
  resolve_named q src (Some sc) s =
  stages (own_stages q sc) (answer SrcAuthoritativeNxdomain (reply q NXDomain [] true)) s.
Proof.
  intros Ho Hne. unfold resolve_named. set (rest := stages _ (upstream q)).
  assert (Forall (emits is_peer) (own_stages q sc)) as He by (unfold own_stages; auto with server).
  transitivity (stages (own_stages q sc ++ [scoped_partition q sc]) (ret None) s).
  { apply (stages_cut is_peer (s_db s) (own_stages q sc)); [done| |done].
    intros s' Hs'. eapply scoped_partition_answers; done. }
  rewrite stages_app. apply (stages_ext is_peer (s_db s)); [done| |done].
  intros s' Hs'. assert (scoped_partition q sc s' =
    answer SrcAuthoritativeNxdomain (reply q NXDomain [] true) s') as E.
  { unfold scoped_partition, bind at 1, get_db.
    by rewrite Hs', Ho, (proj2 (String.eqb_neq _ _) Hne). }
  cbn [stages]. unfold or_else, some_reply, bind at 1. by rewrite E.
Qed.

(** * One stage after another *)

Lemma stages_pass m ms k s s' : m s = (None, s') -> stages (m :: ms) k s = stages ms k s'.
Proof. intros H. cbn [stages]. unfold or_else, some_reply, bind. by rewrite H. Qed.

Lemma stages_answer m ms k r s s' : m s = (Some r, s') -> stages (m :: ms) k s = (Some r, s').
Proof. intros H. cbn [stages]. unfold or_else, some_reply, bind. by rewrite H. Qed.

Lemma stages_none ms k s s' : stages ms (ret None) s = (None, s') -> stages ms k s = k s'.
Proof.
  revert s. induction ms as [|m ms IH]; intros s; [by intros [= <-]|]. cbn [stages].
  unfold or_else, some_reply, bind. destruct (m s) as [[r|] t]; [done|]. apply IH.
Qed.

Lemma reverse_blocklist_pass q aa s : (reverse_blocklist q aa s).1 = None -> reverse_blocklist q aa s = (None, s).
Proof.
  unfold reverse_blocklist, bind, get_db. destruct (extract_ip_from_name _); [|done].
  by destruct (ip_blocked _ _ _).
Qed.

(** The records the local stage serves. *)
Definition local_hits (db : Database) (qname : string) (kind : RecordKind) : list DnsRecord :=
  let result := lookup_with_fallbacks (zones db) qname kind in
  match exact result with [] => wildcard result | e => e end.

Definition local_reply (q : Query) (db : Database) (kind : RecordKind) (rs : list DnsRecord) : list Z :=
  reply q NoError (to_wire rs ++ answer_signatures db (q_name q) kind (q_edns q))
    (is_authoritative_zone db (q_name q)).

Lemma set_u_cache_id (u : Upstreams) : set_u_cache (u_cache u) u = u.
Proof. by destruct u as [[? ? ? ? []] ? ? ? ? ? ?]. Qed.

Lemma local_records_hit q s kind :
  q_kind q = Some kind ->
  match s_cache s with
  | Some c => (DnsCache.lookup_local_only now (q_name q) (Some kind) c).1 = []
  | None => True
  end ->
  local_hits (s_db s) (q_name q) kind <> [] ->
  local_records q s =
    (Some (local_reply q (s_db s) kind (local_hits (s_db s) (q_name q) kind)),
     mkState (s_db s)
       (set_u_cache ((fun c => DnsCache.insert_local now (q_name q) (Some kind) (local_hits (s_db s) (q_name q) kind)
           (DnsCache.invalidate_negative (q_name q)
              (DnsCache.lookup_local_only now (q_name q) (Some kind) c).2)) <$> s_cache s) (s_up s))
       SrcLocal (s_log s)).
Proof.
  intros Hk Hc Hne. unfold local_records, bind at 1, get_db. rewrite Hk. cbn zeta.
  change (match exact (lookup_with_fallbacks (zones (s_db s)) (q_name q) kind) with
          | [] => wildcard (lookup_with_fallbacks (zones (s_db s)) (q_name q) kind)
          | e => e end) with (local_hits (s_db s) (q_name q) kind).
  destruct (local_hits (s_db s) (q_name q) kind) as [|r rs] eqn:El; [done|].
  unfold bind, with_cache. destruct (s_cache s) as [c|] eqn:Ec.
  - destruct (DnsCache.lookup_local_only now (q_name q) (Some kind) c) as [cached c'] eqn:Elo.
    simpl in Hc. subst cached. cbn [fmap option_fmap option_map]. by rewrite Elo.
  - unfold update_cache, with_cache. rewrite Ec. unfold answer, bind, set_tag, ret.
    cbn [fmap option_fmap option_map]. rewrite <- Ec. unfold s_cache. by rewrite set_u_cache_id.
Qed.

(** * Stages that pass leave the source alone *)

Definition keeps_tag {A} (m : M A) : Prop := forall s, s_tag (m s).2 = s_tag s.

Definition quiet {A} (m : M (option A)) : Prop := forall s, (m s).1 = None -> s_tag (m s).2 = s_tag s.

Lemma quiet_keeps {A} (m : M (option A)) : keeps_tag m -> quiet m.
Proof. intros H s _. apply H. Qed.

Lemma quiet_bind {A B} (m : M A) (k : A -> M (option B)) :
  keeps_tag m -> (forall a, quiet (k a)) -> quiet (bind m k).
Proof.
  intros Hm Hk s. unfold bind. specialize (Hm s). destruct (m s) as [a s']. simpl in *.
  intros H. rewrite <- Hm. by apply Hk.
Qed.

Lemma quiet_some {A} (m : M (option A)) : (forall s, is_Some (m s).1) -> quiet m.
Proof. intros H s E. destruct (H s) as [a Ha]. congruence. Qed.

Lemma keeps_ret {A} (a : A) : keeps_tag (ret a). Proof. done. Qed.
Lemma keeps_get_db : keeps_tag get_db. Proof. done. Qed.
Lemma keeps_with_cache {A} (none : A) f : keeps_tag (with_cache none f).
Proof. intros s. unfold with_cache. destruct (s_cache s); [|done]. by destruct (f _). Qed.
Lemma quiet_answer t r : quiet (answer t r). Proof. apply quiet_some, answer_some. Qed.
Lemma quiet_negative q ns : quiet (negative q ns). Proof. apply quiet_some, negative_some. Qed.
Lemma quiet_peers q o t ns : quiet (peers_then_negative q o t ns).
Proof. apply quiet_some, peers_then_negative_some. Qed.
Lemma quiet_pass : quiet pass. Proof. by apply quiet_keeps. Qed.

Hint Resolve keeps_ret keeps_get_db keeps_with_cache quiet_answer quiet_negative quiet_peers quiet_pass : server.

Ltac quiet := repeat first
  [ progress eauto with server
  | apply quiet_bind; [|intros]
  | match goal with |- quiet (match ?x with _ => _ end) => destruct x end
  | progress cbn zeta ].

Lemma quiet_held q scope : Forall quiet (held_data q scope).
Proof.
  destruct scope as [sc|]; cbn [held_data];
    repeat (apply Forall_cons_2 || apply Forall_nil_2);
    unfold reverse_blocklist, scoped_records, scoped_aliases, scoped_partition, scoped_zones,
      local_records, lan_fallback, global_zones, update_cache; quiet.
Qed.

Lemma stages_quiet ms s s' : Forall quiet ms -> stages ms (ret None) s = (None, s') -> s_tag s' = s_tag s.
Proof.
  intros H. revert s. induction H as [|m ms Hm Hms IH]; intros s; [by intros [= <-]|]. cbn [stages].
  unfold or_else, some_reply, bind. specialize (Hm s). destruct (m s) as [[r|] t]; [done|].
  simpl in *. intros E. rewrite <- (Hm eq_refl). by apply IH.
Qed.

(** A query that gets no reply went upstream. *)
Lemma stages_result ms k s : (stages ms k s).1 = None -> exists s', (k s').1 = None /\ stages ms k s = k s'.
Proof.
  revert s. induction ms as [|m ms IH]; intros s; [by exists s|]. cbn [stages].
  unfold or_else, some_reply, bind. destruct (m s) as [[r|] t]; [done|]. apply IH.
Qed.

Lemma upstream_some q s : is_Some (upstream q s).1.
Proof.
  unfold upstream, bind, upstream_resolve.
  pose proof (upstream_replies now now_ms (q_data q) (q_edns q) (s_up s) (s_log s)) as [r Hr].
  destruct (Upstream.upstream_resolve _ _ _ _ _ _) as [r' [u log]]. simpl in Hr. subst r'.
  destruct (dns64 _ _ _) as [[r'|] s1]; [by eexists|].
  destruct (normalized_answer _ _ s1) as [[r''|] s2]; by eexists.
Qed.

(** * Properties *)

(** C1: the open-resolver guard. A source outside the recursion ranges, on any
    transport and in any spelling of its address, never makes the server ask a
    blocklist provider or resolve upstream: all it can cause is a query to the
    peers of an owned TLD. Its reply comes from the data the server holds, and is
    otherwise REFUSED without records, whatever the upstream cache contains. *)
Theorem strangers_never_recurse query_data ip lip proto s :
  may_recurse cfg (to_canonical ip) = false ->
  peers_only s (handle_query_proto query_data (Some ip) lip proto s).2 /\
  forall q scope s', resolve_named q (Some (to_canonical ip)) scope s' =
    stages (held_data q scope) (ret (Some (reply q Refused [] false))) s'.
Proof.
  intros Hr. split; [|intros; by apply stranger_held].
  apply handle_peers_only. intros message name qtype qclass rest q scope s' _ _ _ _ _. simpl.
  rewrite stranger_held by done. apply held_peers_only. auto with server.
Qed.

(** C7: the [arpa.] subtree is answered from held data or not at all. Whatever the
    source, a question under [arpa.] reaches no provider and no upstream; when the
    held data has no answer, the reply is REFUSED. *)
Theorem arpa_never_leaves query_data src lip proto s message name qtype qclass rest :
  from_bytes query_data = Some message -> queries message = mkQuestion name qtype qclass :: rest ->
  is_arpa_subtree name = true ->
  peers_only s (handle_query_proto query_data src lip proto s).2 /\
  forall q scope s', q_arpa q = true ->
    resolve_named q (to_canonical <$> src) scope s' =
    stages (held_data q scope ++ [recursion_guard q (to_canonical <$> src)])
      (answer SrcRefused (reply q Refused [] false)) s'.
Proof.
  intros Hm Hq Ha. split; [|intros; by apply arpa_held].
  apply handle_peers_only. intros message' name' qtype' qclass' rest' q scope s' Hm' Hq' _ Ha' _.
  rewrite Hm in Hm'. injection Hm' as <-. rewrite Hq in Hq'. injection Hq' as <- <- <-.
  rewrite arpa_held by congruence. rewrite stages_app.
  apply held_peers_only, emits_stages; auto with server.
Qed.

(** C2: a TLD owned by a network never leaks. For any source and any scope, a
    question under an owned TLD is answered from held data and the peers of the
    TLD alone: no provider and no upstream hears of it. *)
Theorem owned_tld_never_leaks query_data src lip proto s message name qtype qclass rest ot :
  from_bytes query_data = Some message -> queries message = mkQuestion name qtype qclass :: rest ->
  find_tld_owner (scopes (s_db s)) (name_to_string name) = Some ot ->
  peers_only s (handle_query_proto query_data src lip proto s).2 /\
  forall q scope s' k, q_name q = name_to_string name -> same_frame s s' ->
    resolve_named q (to_canonical <$> src) scope s' = stages (held_data q scope) k s'.
Proof.
  intros Hm Hq Ho.
  assert (forall q scope s' k, q_name q = name_to_string name -> same_frame s s' ->
    resolve_named q (to_canonical <$> src) scope s' = stages (held_data q scope) k s') as Hheld.
  { intros q scope s' k Hn (_ & _ & _ & _ & _ & Ht & _). apply owned_tld_held with (ot := ot).
    unfold find_tld_owner in *. by rewrite Hn, Ht. }
  split; [|done]. apply handle_peers_only.
  intros message' name' qtype' qclass' rest' q scope s' Hm' Hq' Hn _ Hf.
  rewrite Hm in Hm'. injection Hm' as <-. rewrite Hq in Hq'. injection Hq' as <- <- <-.
  rewrite (Hheld q scope s' (ret None)) by done. apply held_peers_only. auto with server.
Qed.

(** C6: an overlay peer that has joined no network is refused. Once a network
    exists, a well-formed query from an overlay address without a live
    association, not received on an ingress listener, gets REFUSED without
    records; nothing is asked and nothing cached changes. An IPv4 address mapped
    into IPv6 is the IPv4 address. *)
Theorem unjoined_peer_refused query_data ip lip s message name qtype qclass rest :
  from_bytes query_data = Some message -> is_response message = false -> op_code message = 0 ->
  match extensions message with Some e => is_unsupported_version e | None => false end = false ->
  queries message = mkQuestion name qtype qclass :: rest ->
  has_scopes (scopes (s_db s)) = true -> is_overlay_peer cfg (to_canonical ip) = true ->
  (get_scope_for_ip now (ip_to_string (to_canonical ip)) (scopes (s_db s))).1 = None ->
  (to_canonical <$> lip) ≫= scope_for_ingress_ip (scopes (s_db s)) = None ->
  let out := resolve_query query_data (to_canonical <$> Some ip) (to_canonical <$> lip) s in
  out.1 = Some (build_response_edns message Refused [] false (extensions message)) /\
  s_tag out.2 = SrcRefused /\ s_log out.2 = s_log s /\ s_cache out.2 = s_cache s.
Proof.
  intros Hm Hr Hop He Hq Hs Hov Hno Hin out.
  pose proof (scope_of_frame (Some (to_canonical ip)) (to_canonical <$> lip) s) as Hf.
  assert (exists s', scope_of (Some (to_canonical ip)) (to_canonical <$> lip) s = (RefusePeer, s'))
    as [s' Esc].
  { unfold scope_of, bind, get_db. rewrite Hin. unfold with_scopes.
    destruct (get_scope_for_ip _ _ _) as [r sc]. simpl in Hno. subst r.
    rewrite Hs, Hov. by eexists. }
  assert (out = (Some (build_response_edns message Refused [] false (extensions message)),
                 mkState (s_db s') (s_up s') SrcRefused (s_log s'))) as ->.
  { unfold out, resolve_query. rewrite Hm, He, Hr, Hop, Hq. change (negb (0 =? 0)) with false. cbn iota beta.
    unfold bind, get_db. change (to_canonical <$> Some ip) with (Some (to_canonical ip)).
    by rewrite Esc. }
  rewrite Esc in Hf. destruct Hf as (H1 & _ & H3 & _). by split_and!.
Qed.

(** C5: the names of a sibling network stay hidden. For a query in one scope under a
    TLD that another scope owns, the reply is the same in any two states that
    agree on the lists, the cache and the records of the querying scope, whatever
    records the owner, or the global namespace, has: and unless the querying scope
    itself has an answer it is NXDOMAIN without records. Nothing is asked of
    anyone. *)
Theorem sibling_tld_hidden q src src' sc owner tld s s' :
  find_tld_owner (scopes (s_db s)) (q_name q) = Some (owner, tld) -> owner <> sc ->
  scope_view (q_name q) sc s s' ->
  let out := resolve_named q src (Some sc) s in
  let out' := resolve_named q src' (Some sc) s' in
  out'.1 = out.1 /\ s_cache out'.2 = s_cache out.2 /\ s_log out.2 = s_log s /\
  ((stages (own_stages q sc) (ret None) s).1 = None -> out.1 = Some (reply q NXDomain [] true)).
Proof.
  intros Ho Hne Hv. cbn zeta. rewrite (partition_hides q src sc owner tld s) by done.
  rewrite (partition_hides q src' sc owner tld s') by (try done; destruct Hv as (_ & _ & E & _); congruence).
  assert (blind (q_name q) sc
    (stages (own_stages q sc) (answer SrcAuthoritativeNxdomain (reply q NXDomain [] true)))
    (stages (own_stages q sc) (answer SrcAuthoritativeNxdomain (reply q NXDomain [] true)))) as Hb.
  { apply blind_stages; [|apply blind_answer]. unfold own_stages.
    apply Forall_cons_2; [apply blind_reverse_blocklist|].
    apply Forall_cons_2; [apply blind_scoped_records|].
    apply Forall_cons_2; [apply blind_scoped_aliases|apply Forall_nil_2]. }
  destruct (Hb s s' Hv) as (H1 & (_ & H2 & _) & H3). split_and!; [done..|].
  clear. generalize (own_stages q sc). intros ms. revert s.
  induction ms as [|m ms IH]; intros s; [done|]. cbn [stages]. unfold or_else, some_reply, bind.
  destruct (m s) as [[r|] t]; [done|]. apply IH.
Qed.

(** What an earlier answer from the held data left in the response cache. *)
Definition cached_local (s : State) (name : string) (kind : RecordKind) : list DnsRecord :=
  match s_cache s with Some c => (DnsCache.lookup_local_only now name (Some kind) c).1 | None => [] end.

(** A held answer that is still cached is given again. *)
Lemma local_records_cached q s kind :
  q_kind q = Some kind -> cached_local s (q_name q) kind <> [] ->
  exists u, local_records q s =
    (Some (local_reply q (s_db s) kind (cached_local s (q_name q) kind)), mkState (s_db s) u SrcCache (s_log s)).
Proof.
  intros Hk Hne. unfold local_records, bind at 1, get_db. rewrite Hk. cbn zeta. unfold bind, with_cache.
  unfold cached_local in *. destruct (s_cache s) as [c|]; [|done].
  destruct (DnsCache.lookup_local_only now (q_name q) (Some kind) c) as [cached c']. cbn [fst] in *.
  destruct cached as [|r rs]; [done|]. by eexists.
Qed.

Lemma reverse_pass_db q s s0 :
  (reverse_blocklist q false s).1 = None -> s_db s0 = s_db s -> reverse_blocklist q false s0 = (None, s0).
Proof.
  intros Hr Hs0. apply reverse_blocklist_pass. revert Hr. unfold reverse_blocklist, bind, get_db.
  rewrite Hs0. destruct (extract_ip_from_name _); [|done]. by destruct (ip_blocked _ _ _).
Qed.

(** C22: data the operator holds wins. When the global database has records of the
    queried name and type (its own, or a wildcard's), a query without a scope that
    no reverse blocklist entry stops is answered from held data, and nothing is asked
    of anyone: no domain blocklist, cached upstream answer or upstream resolution
    comes before it. Unless an earlier answer from held data is still in the response
    cache, the records are exactly those stored now, the answer is cached, and the
    same question asked again gets the same reply from the cache; while such an
    earlier answer is cached, its records are given, which may be older than those
    stored if the store was changed by a call that does not flush the cache. *)
Theorem local_data_wins q src s kind :
  q_kind q = Some kind -> (reverse_blocklist q false s).1 = None ->
  local_hits (s_db s) (q_name q) kind <> [] ->
  let cached := cached_local s (q_name q) kind in
  let out := resolve_named q src None s in
  s_log out.2 = s_log s /\ s_db out.2 = s_db s /\
  match cached with
  | _ :: _ => out.1 = Some (local_reply q (s_db s) kind cached) /\ s_tag out.2 = SrcCache
  | [] =>
      out.1 = Some (local_reply q (s_db s) kind (local_hits (s_db s) (q_name q) kind)) /\ s_tag out.2 = SrcLocal /\
      (s_cache s <> None ->
       let again := resolve_named q src None (mkState (s_db s) (s_up out.2) SrcUpstream []) in
       again.1 = out.1 /\ s_tag again.2 = SrcCache /\ s_log again.2 = [])
  end.
Proof.
  intros Hk Hr Hne. cbn zeta.
  pose proof (fun s0 => reverse_pass_db q s s0 Hr) as Hrev.
  unfold resolve_named. cbn [held_data]. rewrite (stages_pass _ _ _ s s) by (by apply Hrev).
  destruct (cached_local s (q_name q) kind) as [|r rs] eqn:Ecl.
  2:{ destruct (local_records_cached q s kind Hk) as [u E]; [by rewrite Ecl|].
      rewrite (stages_answer _ _ _ _ _ _ E). by rewrite Ecl. }
  assert (match s_cache s with
          | Some c => (DnsCache.lookup_local_only now (q_name q) (Some kind) c).1 = []
          | None => True end) as Hc by (unfold cached_local in Ecl; by destruct (s_cache s)).
  rewrite (stages_answer _ _ _ _ _ _ (local_records_hit q s kind Hk Hc Hne)).
  split_and!; [done..|]. intros Hsome. destruct (s_cache s) as [c|] eqn:Ec; [|done].
  cbn [snd fst s_up fmap option_fmap option_map].
  set (c' := DnsCache.insert_local _ _ _ _ _).
  set (s2 := mkState (s_db s) (set_u_cache (Some c') (s_up s)) SrcUpstream []).
  rewrite (stages_pass _ _ _ s2 s2) by (by apply Hrev).
  assert (cached_local s2 (q_name q) kind = local_hits (s_db s) (q_name q) kind) as Ec2.
  { unfold cached_local. change (s_cache s2) with (Some c'). unfold c', DnsCache.insert_local.
    destruct (local_hits _ _ _) as [|r rs] eqn:El; [done|].
    cbn [length Nat.eqb]. unfold DnsCache.lookup_local_only. cbn [DnsCache.memory DnsCache.set_memory].
    rewrite lookup_insert_eq. cbn [DnsCache.expires_at DnsCache.local DnsCache.records].
    rewrite (proj2 (Z.ltb_lt _ _)); [done|]. unfold from_secs, nanos_per_sec. lia. }
  destruct (local_records_cached q s2 kind Hk) as [u E]; [by rewrite Ec2|]. rewrite Ec2 in E.
  rewrite (stages_answer _ _ _ _ _ _ E). done.
Qed.

(** C24: blocklists come before anything external. Of a question that the held data
    does not answer, from a source that recursion is open to, for a name that neither
    is under [arpa.] nor encodes an address: a name the operator lists and does not
    exempt is NXDOMAIN, the upstream cache is not read and no provider and no upstream
    is asked; an exempt name is resolved without any provider having been asked. A
    source that recursion is not open to gets REFUSED for a listed name as for any
    other, since the recursion check comes first. *)
Theorem blocklist_before_upstream q src scope s s1 :
  stages (held_data q scope) (ret None) s = (None, s1) ->
  (forall ip, src = Some ip -> may_recurse cfg ip = false ->
     resolve_named q src scope s = (Some (reply q Refused [] false), s1)) /\
  (match src with Some ip => may_recurse cfg ip = true | None => True end ->
   q_arpa q = false -> extract_ip_from_name (q_name q) = None ->
   match blocklist_exempt (lists (s_db s1)) (q_name q) None with
   | Some _ => resolve_named q src scope s = stages [upstream_cache q] (upstream q) s1
   | None =>
       local_lists_name (lists (s_db s1)) (q_name q) = true ->
       resolve_named q src scope s =
         (Some (reply q NXDomain [] false), mkState (s_db s1) (s_up s1) SrcBlocklist (s_log s1))
   end).
Proof.
  intros Hh. split.
  { intros ip -> Hr. unfold resolve_named. rewrite (stages_none _ _ _ _ Hh). apply stages_answer.
    unfold recursion_guard. by rewrite Hr. }
  intros Hr Ha He.
  assert (resolve_named q src scope s =
    stages [domain_blocklist q; upstream_cache q] (upstream q) s1) as E.
  { unfold resolve_named. rewrite (stages_none _ _ _ _ Hh).
    rewrite (stages_pass _ _ _ s1 s1); [|unfold recursion_guard; destruct src; [by rewrite Hr|done]].
    by rewrite (stages_pass _ _ _ s1 s1) by (unfold arpa_guard; by rewrite Ha). }
  rewrite E.
  destruct (blocklist_exempt (lists (s_db s1)) (q_name q) None) as [k|] eqn:Ex.
  - apply stages_pass. unfold domain_blocklist, bind at 1, get_db. by rewrite He, Ex.
  - intros Hl. apply stages_answer. unfold domain_blocklist, bind at 1, get_db.
    by rewrite He, Ex, Hl.
Qed.

(** Every query gets a reply. On every path, malformed queries and failures of
    every upstream included, the handler returns one: no path ends in the error that
    its result type allows for. *)
Theorem every_query_answered query_data src lip proto s :
  is_Some (handle_query_proto query_data src lip proto s).1.
Proof.
  unfold handle_query_proto, bind at 1.
  assert (is_Some (resolve_query query_data (to_canonical <$> src) (to_canonical <$> lip) s).1) as [r Hr].
  { assert (forall q sc s, is_Some (resolve_named q (to_canonical <$> src) sc s).1) as Hn.
    { intros q sc s0. destruct ((resolve_named q (to_canonical <$> src) sc s0).1) eqn:Hnone; [by eexists|].
      unfold resolve_named in Hnone. rewrite <- stages_app in Hnone.
      destruct (stages_result _ _ _ Hnone) as (s1 & Hu & _).
      destruct (upstream_some q s1) as [r Hr]. congruence. }
    unfold resolve_query. destruct (from_bytes query_data) as [message|]; [|by eexists].
    do 3 (match goal with |- context [if ?b then _ else _] => destruct b end; [by eexists|]).
    destruct (queries message) as [|[name qtype qclass] rest]; [by eexists|].
    unfold bind, get_db. destruct (scope_of _ _ s) as [[| |] s']; [apply Hn..|by eexists]. }
  destruct (resolve_query _ _ _ s) as [r' s']. simpl in Hr. subst r'. by eexists.
Qed.

(** A query the recursion guard refuses is attributed to upstream
    resolution. The guard is the one refusal that does not set the source, which
    starts out as [Upstream], although nothing was resolved upstream. *)
Theorem refused_recursion_counted_upstream q ip scope s s1 :
  may_recurse cfg ip = false -> s_tag s = SrcUpstream ->
  stages (held_data q scope) (ret None) s = (None, s1) ->
  resolve_named q (Some ip) scope s = (Some (reply q Refused [] false), s1) /\
  s_tag s1 = SrcUpstream /\ peers_only s s1.
Proof.
  intros Hr Ht Hh. rewrite stranger_held by done. rewrite (stages_none _ _ _ _ Hh).
  split; [done|]. split.
  - rewrite <- Ht. eapply stages_quiet; [apply quiet_held|done].
  - pose proof (held_peers_only q scope (ret None) s (emits_ret is_peer None)) as H. by rewrite Hh in H.
Qed.

(** A wildcard CNAME answers some types and not others. At a name with
    no records of its own under a wildcard that holds only a CNAME, a question of a
    type the server stores finds no alias, while a question of a type it does not
    store is answered with the CNAME, though an alias belongs to the name and not
    to the type. *)
Theorem wildcard_cname_by_type q q' s kind :
  q_name q' = q_name q -> q_kind q = Some kind -> q_kind q' = None -> s_cache s = None ->
  lookup_no_wildcard (zones (s_db s)) (q_name q) None = [] ->
  local_hits (s_db s) (q_name q) kind = [] ->
  ZoneStore.lookup (zones (s_db s)) (q_name q) (Some CNAME) <> [] ->
  local_records q s = (None, s) /\
  (local_records q' s).1 = Some (reply q' NoError
     (to_wire (ZoneStore.lookup (zones (s_db s)) (q_name q) (Some CNAME)) ++
      answer_signatures (s_db s) (q_name q) CNAME (q_edns q'))
     (is_authoritative_zone (s_db s) (q_name q))).
Proof.
  intros Hn Hk Hk' Hc Hno Hh Hcn.
  assert (forall k, lookup_exact (dns_records (zones (s_db s))) (normalize_name (q_name q)) (Some k) = [])
    as Hex.
  { intros k. apply elem_of_nil_inv. intros r Hr. unfold lookup_no_wildcard, lookup_exact in *.
    apply elem_filter_bool in Hr as [Hin Hp]. bool_hyps.
    assert (r ∈ List.filter (fun r => (r_name r =? normalize_name (q_name q))%string && type_matches None r)
      (dns_records (zones (s_db s)))) as Hin' by (apply elem_filter_bool; split; [done|]; by rewrite H, String.eqb_refl).
    rewrite Hno in Hin'. by apply elem_of_nil in Hin'. }
  split.
  - unfold local_records, bind at 1, get_db. rewrite Hk. cbn zeta. unfold bind, with_cache. rewrite Hc.
    change (match exact (lookup_with_fallbacks (zones (s_db s)) (q_name q) kind) with
            | [] => wildcard (lookup_with_fallbacks (zones (s_db s)) (q_name q) kind)
            | e => e end) with (local_hits (s_db s) (q_name q) kind). rewrite Hh.
    rewrite lookup_with_fallbacks_eq. cbn zeta. cbn [aname cname]. rewrite !Hex.
    by destruct (_ || _).
  - unfold local_records, bind at 1, get_db. rewrite Hk', Hn. cbn zeta.
    by destruct (ZoneStore.lookup _ _ _) as [|r rs].
Qed.
End Server.

(** The state a query starts from. *)
Definition query_state {L : DnsLib} {Out : Outside L} (db : Database) (cache : option DnsCache.t) : State :=
  mkState db (idle_upstreams Recursive cache) SrcUpstream [].

(** * Witnesses *)

Definition sample_config : Config :=
  mkConfig default_overlay_cidrs default_recursion_cidrs false 0 true true.

(** The messages the sample libraries can write: the query with octets [[0]] is the
    question of the witness. *)
Definition lib_for (name : string) (qtype : Z) : DnsLib := sample_lib [sample_question name qtype].

Definition handle (name : string) (qtype : Z) (src lip : option IpAddr) : State -> option (list Z) * State :=
  @handle_query_proto (lib_for name qtype) (quiet_outside _) sample_config 0 0
    [0] src lip Udp.

(** 203.0.113.9 on a dual-stack listener. *)
Definition mapped_stranger : IpAddr := V6 (65535 * 2 ^ 32 + 3405803785).

Definition scoped_db : Database := mkDb empty_store two_scopes empty_lists.

Lemma strangers_never_recurse_witness :
  may_recurse sample_config (to_canonical mapped_stranger) = false /\
  peers_only (query_state empty_db None)
    (handle "example.com." 1 (Some mapped_stranger) None (query_state empty_db None)).2.
Proof.
  split; [vm_compute; reflexivity|].
  refine (proj1 (@strangers_never_recurse (lib_for "example.com." 1) (quiet_outside _) sample_config 0 0
    [0] mapped_stranger None Udp (query_state empty_db None) _)).
  vm_compute. reflexivity.
Defined.

Lemma arpa_never_leaves_witness :
  peers_only (query_state empty_db None)
    (handle "9.0.168.192.in-addr.ARPA." 12 None None (query_state empty_db None)).2.
Proof.
  refine (proj1 (@arpa_never_leaves (lib_for "9.0.168.192.in-addr.ARPA." 12) (quiet_outside _) sample_config 0 0
    [0] None None Udp (query_state empty_db None)
    (sample_question "9.0.168.192.in-addr.ARPA." 12) "9.0.168.192.in-addr.ARPA." 12 class_in [] _ _ _)).
  - vm_compute. reflexivity.
  - reflexivity.
  - vm_compute. reflexivity.
Defined.

Lemma owned_tld_never_leaks_witness :
  peers_only (query_state scoped_db None)
    (handle "nas.lab.home." 1 None None (query_state scoped_db None)).2.
Proof.
  refine (proj1 (@owned_tld_never_leaks (lib_for "nas.lab.home." 1) (quiet_outside _) sample_config 0 0
    [0] None None Udp (query_state scoped_db None)
    (sample_question "nas.lab.home." 1) "nas.lab.home." 1 class_in [] ("lab", "lab.home.") _ _ _)).
  - vm_compute. reflexivity.
  - reflexivity.
  - vm_compute. reflexivity.
Defined.

Lemma unjoined_peer_refused_witness :
  s_tag (@resolve_query (lib_for "example.com." 1) (quiet_outside _) sample_config 0 0
    [0] (to_canonical <$> Some (V6 (65535 * 2 ^ 32 + 171966464))) None (query_state scoped_db None)).2 = SrcRefused.
Proof.
  refine (proj1 (proj2 (@unjoined_peer_refused (lib_for "example.com." 1) (quiet_outside _) sample_config 0 0
    [0] (V6 (65535 * 2 ^ 32 + 171966464)) None (query_state scoped_db None)
    (sample_question "example.com." 1) "example.com." 1 class_in [] _ _ _ _ _ _ _ _ _)));
    vm_compute; reflexivity.
Defined.

Definition sample_query (name : string) (qtype : Z) : @Query (lib_for name qtype) :=
  @mkQuery (lib_for name qtype) [0] (sample_question name qtype) None name qtype false None.

(** The owner's records differ, the view of the office does not. *)
Definition lab_state {L : DnsLib} {Out : Outside L} : State :=
  query_state (mkDb empty_store
    (add_scoped_record "lab" (mkRecord None "nas.lab.home." A "10.64.0.9" 60 0) two_scopes).2 empty_lists) None.

Lemma sibling_tld_hidden_witness :
  (@resolve_named (lib_for "nas.lab.home." 1) (quiet_outside _) sample_config 0 0
     (sample_query "nas.lab.home." 1) None (Some "office") lab_state).1 =
  (@resolve_named (lib_for "nas.lab.home." 1) (quiet_outside _) sample_config 0 0
     (sample_query "nas.lab.home." 1) None (Some "office") (query_state scoped_db None)).1.
Proof.
  refine (proj1 (@sibling_tld_hidden (lib_for "nas.lab.home." 1) (quiet_outside _) sample_config 0 0
    (sample_query "nas.lab.home." 1) None None "office" "lab" "lab.home."
    (query_state scoped_db None) lab_state _ _ _)).
  - vm_compute. reflexivity.
  - discriminate.
  - split; [reflexivity|]. split; [reflexivity|]. split; [vm_compute; reflexivity|].
    intros name kind. apply same_scope_lookup, add_scoped_other; [reflexivity|reflexivity|discriminate].
Defined.

Definition home_db : Database :=
  mkDb (add_record (mkRecord None "nas.home" A "192.168.1.9" 300 0) empty_store).2 empty_scopes empty_lists.

Lemma local_data_wins_witness :
  s_tag (@resolve_named (lib_for "nas.home." 1) (quiet_outside _) sample_config 0 0
    (sample_query "nas.home." 1) None None (query_state home_db (Some (DnsCache.new 0 0 [])))).2 = SrcLocal.
Proof.
  refine (proj1 (proj2 (proj2 (proj2 (@local_data_wins (lib_for "nas.home." 1) (quiet_outside _) sample_config 0 0
    (sample_query "nas.home." 1) None (query_state home_db (Some (DnsCache.new 0 0 []))) A _ _ _))))).
  - reflexivity.
  - vm_compute. reflexivity.
  - vm_compute. discriminate.
Defined.

Definition blocking_db : Database :=
  mkDb empty_store empty_scopes (add_local_blocklist_entry "ads.example." "ads" empty_lists).

(** A run that gives nothing, with the state it ends in. *)
Lemma nothing {A B} (p : option A * B) : p.1 = None -> p = (None, p.2).
Proof. by destruct p; simpl; intros ->. Qed.

(** The state after the held data had no answer. *)
Definition after_held (name : string) (db : Database) :=
  (stages (@held_data (lib_for name 1) (quiet_outside _) 0 (sample_query name 1) None) (ret None)
    (query_state db None)).2.

Lemma blocklist_before_upstream_witness :
  let out src := @resolve_named (lib_for "ads.example." 1) (quiet_outside _) sample_config 0 0
    (sample_query "ads.example." 1) src None (query_state blocking_db None) in
  (out None).1 = Some (reply (sample_query "ads.example." 1) NXDomain [] false) /\ s_tag (out None).2 = SrcBlocklist /\
  (out (Some (V4 3405803785))).1 = Some (reply (sample_query "ads.example." 1) Refused [] false).
Proof.
  pose proof (fun src => @blocklist_before_upstream (lib_for "ads.example." 1) (quiet_outside _) sample_config 0 0
    (sample_query "ads.example." 1) src None (query_state blocking_db None)
    (after_held "ads.example." blocking_db) ltac:(apply nothing; vm_compute; reflexivity)) as H.
  assert (blocklist_exempt (lists (s_db (after_held "ads.example." blocking_db)))
    (q_name (sample_query "ads.example." 1)) None = None) as E by (vm_compute; reflexivity).
  cbn beta zeta. pose proof (proj2 (H None) I eq_refl ltac:(vm_compute; reflexivity)) as H2. rewrite E in H2.
  rewrite H2 by (vm_compute; reflexivity). split; [reflexivity|]. split; [reflexivity|].
  by rewrite (proj1 (H (Some (V4 3405803785))) (V4 3405803785) eq_refl ltac:(vm_compute; reflexivity)).
Defined.

Lemma refused_recursion_counted_upstream_witness :
  s_tag (@resolve_named (lib_for "example.com." 1) (quiet_outside _) sample_config 0 0
    (sample_query "example.com." 1) (Some (V4 3405803785)) None (query_state empty_db None)).2 = SrcUpstream.
Proof.
  destruct (@refused_recursion_counted_upstream (lib_for "example.com." 1) (quiet_outside _) sample_config 0 0
    (sample_query "example.com." 1) (V4 3405803785) None
    (query_state empty_db None) (after_held "example.com." empty_db)) as (E & Ht & _).
  - vm_compute. reflexivity.
  - reflexivity.
  - apply nothing. vm_compute. reflexivity.
  - rewrite E. exact Ht.
Defined.

Definition alias_db : Database :=
  mkDb (add_record (mkRecord None "*.apps.home" CNAME "ingress.home." 300 0) empty_store).2
    empty_scopes empty_lists.

Lemma wildcard_cname_by_type_witness :
  @local_records (lib_for "x.apps.home." 1) (quiet_outside _) 0 (sample_query "x.apps.home." 1)
      (query_state alias_db None) =
    (None, query_state alias_db None).
Proof.
  refine (proj1 (@wildcard_cname_by_type (lib_for "x.apps.home." 1) (quiet_outside _) 0
    (sample_query "x.apps.home." 1)
    (@mkQuery (lib_for "x.apps.home." 1) [0] (sample_question "x.apps.home." 257) None "x.apps.home." 257 false None)
    (query_state alias_db None) A _ _ _ _ _ _ _)); try (vm_compute; reflexivity).
  vm_compute. discriminate.
Defined.
