(* ===== verification/AcmeStore.v ===== *)
(** The tables of the certificate authority ([src/src/db.rs]): accounts, enrollment
    credentials, orders, authorizations, challenges, certificates, nonces and the CA
    certificates. A table is its rows in the order they were inserted; times are Unix
    seconds. *)

From S2P Require Import Prelude RustStr Names.
From stdpp Require Import base sets list option strings sorting.
From Stdlib Require Import ZArith Lia Bool.

Open Scope Z_scope.

(** * Rows *)

Record AcmeCertRow := mkCertRow {
  crt_id : Z;
  crt_domain : string;
  crt_cert_pem : string;
  crt_key_pem : string;
  crt_chain_pem : string;
  crt_issued_at : Z;
  crt_expires_at : Z;
}.

Record AcmeAccount := mkAccount {
  acc_id : string;
  acc_jwk : string;
  acc_thumbprint : string;
  acc_contacts : option string;
  acc_status : string;
  acc_eab_kid : option string;
  acc_zone : option string;
}.

Record AcmeEab := mkEab { eab_kid : string; eab_hmac_key : list Z; eab_zone : option string; eab_used : bool }.

Record AcmeOrder := mkOrder {
  ord_id : string;
  ord_account_id : string;
  ord_status : string;
  ord_identifiers : string;
  ord_authorizations : string;
  ord_cert_id : option Z;
  ord_expires_at : Z;
}.

Record AcmeAuthorization := mkAuthz {
  az_id : string;
  az_order_id : string;
  az_account_id : string;
  az_identifier : string;
  az_status : string;
  az_expires_at : Z;
}.

Record AcmeChallenge := mkChallenge {
  ch_id : string;
  ch_authz_id : string;
  ch_type : string;
  ch_token : string;
  ch_status : string;
  ch_validated_at : option Z;
}.

(** A nonce and when it was issued. *)
Record NonceRow := mkNonce { nonce_value : string; nonce_created : Z }.

Record AcmeTables := mkTables {
  acme_accounts : list AcmeAccount;
  acme_eab : list AcmeEab;
  acme_orders : list AcmeOrder;
  acme_authorizations : list AcmeAuthorization;
  acme_challenges : list AcmeChallenge;
  acme_certificates : list AcmeCertRow;
  acme_nonces : list NonceRow;
  zone_cas : list (string * (string * string));
  dane_root_cas : list (string * (string * string));
}.

Definition empty_tables : AcmeTables := mkTables [] [] [] [] [] [] [] [] [].

Definition set_accounts x (t : AcmeTables) : AcmeTables :=
  mkTables x (acme_eab t) (acme_orders t) (acme_authorizations t) (acme_challenges t) (acme_certificates t)
    (acme_nonces t) (zone_cas t) (dane_root_cas t).
Definition set_eab x (t : AcmeTables) : AcmeTables :=
  mkTables (acme_accounts t) x (acme_orders t) (acme_authorizations t) (acme_challenges t) (acme_certificates t)
    (acme_nonces t) (zone_cas t) (dane_root_cas t).
Definition set_orders x (t : AcmeTables) : AcmeTables :=
  mkTables (acme_accounts t) (acme_eab t) x (acme_authorizations t) (acme_challenges t) (acme_certificates t)
    (acme_nonces t) (zone_cas t) (dane_root_cas t).
Definition set_authorizations x (t : AcmeTables) : AcmeTables :=
  mkTables (acme_accounts t) (acme_eab t) (acme_orders t) x (acme_challenges t) (acme_certificates t)
    (acme_nonces t) (zone_cas t) (dane_root_cas t).
Definition set_challenges x (t : AcmeTables) : AcmeTables :=
  mkTables (acme_accounts t) (acme_eab t) (acme_orders t) (acme_authorizations t) x (acme_certificates t)
    (acme_nonces t) (zone_cas t) (dane_root_cas t).
Definition set_certificates x (t : AcmeTables) : AcmeTables :=
  mkTables (acme_accounts t) (acme_eab t) (acme_orders t) (acme_authorizations t) (acme_challenges t) x
    (acme_nonces t) (zone_cas t) (dane_root_cas t).
Definition set_nonces x (t : AcmeTables) : AcmeTables :=
  mkTables (acme_accounts t) (acme_eab t) (acme_orders t) (acme_authorizations t) (acme_challenges t)
    (acme_certificates t) x (zone_cas t) (dane_root_cas t).
Definition set_zone_cas x (t : AcmeTables) : AcmeTables :=
  mkTables (acme_accounts t) (acme_eab t) (acme_orders t) (acme_authorizations t) (acme_challenges t)
    (acme_certificates t) (acme_nonces t) x (dane_root_cas t).
Definition set_root_cas x (t : AcmeTables) : AcmeTables :=
  mkTables (acme_accounts t) (acme_eab t) (acme_orders t) (acme_authorizations t) (acme_challenges t)
    (acme_certificates t) (acme_nonces t) (zone_cas t) x.

(** * Rows by key *)

Section Rows.
Context {A : Type} (key : A -> string).

Definition row_get (k : string) (rows : list A) : option A := List.find (fun r => (key r =? k)%string) rows.

Definition row_update (k : string) (f : A -> A) (rows : list A) : list A :=
  (fun r => if (key r =? k)%string then f r else r) <$> rows.

(** [INSERT] on a primary key. *)
Definition row_insert (r : A) (rows : list A) : option (list A) :=
  match row_get (key r) rows with Some _ => None | None => Some (rows ++ [r]) end.

Lemma row_get_key k rows r : row_get k rows = Some r -> key r = k.
Proof. intros [_ H]%find_some. by apply String.eqb_eq. Qed.

Lemma row_get_elem k rows r : row_get k rows = Some r -> r ∈ rows.
Proof. intros [H _]%find_some. by apply list_elem_of_In. Qed.

Lemma row_get_app k l1 l2 : row_get k (l1 ++ l2) = match row_get k l1 with Some r => Some r | None => row_get k l2 end.
Proof. unfold row_get. induction l1 as [|a l1 IH]; simpl; [done|]. by destruct (_ =? _)%string. Qed.

Lemma row_get_insert r rows rows' k :
  row_insert r rows = Some rows' -> row_get k rows' = if (key r =? k)%string then Some r else row_get k rows.
Proof.
  unfold row_insert. destruct (row_get (key r) rows) eqn:E; [done|]. intros [= <-]. rewrite row_get_app. simpl.
  destruct (String.eqb_spec (key r) k) as [<-|Hne]; [by rewrite E|]. by destruct (row_get k rows).
Qed.

Lemma row_insert_app r rows rows' : row_insert r rows = Some rows' -> rows' = rows ++ [r].
Proof. unfold row_insert. destruct (row_get _ _); [done|]. by intros [= <-]. Qed.

Lemma row_get_update k k' f rows :
  (forall r, key (f r) = key r) -> row_get k' (row_update k f rows) =
    if (k =? k')%string then f <$> row_get k' rows else row_get k' rows.
Proof.
  intros Hf. unfold row_get, row_update. induction rows as [|a rows IH]; simpl; [by destruct (_ =? _)%string|].
  destruct (String.eqb_spec (key a) k) as [Ha|Ha].
  - rewrite Hf. destruct (String.eqb_spec (key a) k') as [Hk|Hk]; [|exact IH].
    destruct (String.eqb_spec k k'); [done|congruence].
  - destruct (String.eqb_spec (key a) k') as [Hk|Hk]; [|exact IH]. destruct (String.eqb_spec k k'); [congruence|done].
Qed.

Lemma row_update_elem k f rows r : r ∈ row_update k f rows -> exists r0, r0 ∈ rows /\ (r = r0 \/ (key r0 = k /\ r = f r0)).
Proof.
  unfold row_update. intros (r0 & -> & H)%list_elem_of_fmap. exists r0. split; [done|].
  destruct (String.eqb_spec (key r0) k); auto.
Qed.
End Rows.

(** * Operations *)

Section Tables.
Implicit Types (t : AcmeTables).

(** ** Accounts and enrollment credentials *)

Definition create_acme_account (a : AcmeAccount) t : option AcmeTables :=
  (fun x => set_accounts x t) <$> row_insert acc_id a (acme_accounts t).

Definition get_acme_account (id : string) t : option AcmeAccount := row_get acc_id id (acme_accounts t).

Definition get_acme_account_by_thumbprint (thumbprint : string) t : option AcmeAccount :=
  row_get acc_thumbprint thumbprint (acme_accounts t).

Definition create_eab (kid : string) (hmac_key : list Z) (zone : option string) t : option AcmeTables :=
  (fun x => set_eab x t) <$> row_insert eab_kid (mkEab kid hmac_key zone false) (acme_eab t).

Definition get_eab (kid : string) t : option AcmeEab := row_get eab_kid kid (acme_eab t).

Definition mark_eab_used (kid : string) t : AcmeTables :=
  set_eab (row_update eab_kid kid (fun e => mkEab (eab_kid e) (eab_hmac_key e) (eab_zone e) true) (acme_eab t)) t.

Definition remove_eab (kid : string) t : bool * AcmeTables :=
  (bool_decide (is_Some (get_eab kid t)),
   set_eab (List.filter (fun e => negb (eab_kid e =? kid)%string) (acme_eab t)) t).

(** ** Nonces *)

Definition NONCE_TTL_SECS : Z := 3600.
Definition MAX_OUTSTANDING_NONCES : nat := Z.to_nat 1024.

(** [ORDER BY created_at DESC, rowid DESC]. *)
Definition newer_nonce (x y : nat * NonceRow) : bool :=
  (nonce_created y.2 <? nonce_created x.2) || ((nonce_created x.2 =? nonce_created y.2) && (y.1 <? x.1)%nat).

(** Everything after the first [MAX_OUTSTANDING_NONCES] in that order is deleted. *)
Definition cap_nonces (limit : nat) (rows : list NonceRow) : list NonceRow :=
  let ranked := zip (seq 0 (length rows)) rows in
  snd <$> List.filter (fun x => (length (List.filter (fun y => newer_nonce y x) ranked) <? limit)%nat) ranked.

Definition store_nonce (now : Z) (nonce : string) t : AcmeTables :=
  let rows := default (acme_nonces t) (row_insert nonce_value (mkNonce nonce now) (acme_nonces t)) in
  let rows := List.filter (fun r => now - NONCE_TTL_SECS <=? nonce_created r) rows in
  set_nonces (cap_nonces MAX_OUTSTANDING_NONCES rows) t.

Definition consume_nonce (now : Z) (nonce : string) t : bool * AcmeTables :=
  let hit r := (nonce_value r =? nonce)%string && (now - NONCE_TTL_SECS <=? nonce_created r) in
  (existsb hit (acme_nonces t), set_nonces (List.filter (fun r => negb (hit r)) (acme_nonces t)) t).

(** ** Orders, authorizations and challenges *)

Definition create_order (o : AcmeOrder) t : option AcmeTables :=
  (fun x => set_orders x t) <$> row_insert ord_id o (acme_orders t).

Definition get_order (id : string) t : option AcmeOrder := row_get ord_id id (acme_orders t).

Definition get_order_by_cert_id (cert_id : Z) t : option AcmeOrder :=
  List.find (fun o => bool_decide (ord_cert_id o = Some cert_id)) (acme_orders t).

Definition with_order_status (status : string) (cert_id : option Z) (o : AcmeOrder) : AcmeOrder :=
  mkOrder (ord_id o) (ord_account_id o) status (ord_identifiers o) (ord_authorizations o) cert_id (ord_expires_at o).

Definition update_order (id status : string) (cert_id : option Z) t : AcmeTables :=
  set_orders (row_update ord_id id (with_order_status status cert_id) (acme_orders t)) t.

Definition create_authorization (a : AcmeAuthorization) t : option AcmeTables :=
  (fun x => set_authorizations x t) <$> row_insert az_id a (acme_authorizations t).

Definition get_authorization (id : string) t : option AcmeAuthorization := row_get az_id id (acme_authorizations t).

Definition with_authz_status (status : string) (a : AcmeAuthorization) : AcmeAuthorization :=
  mkAuthz (az_id a) (az_order_id a) (az_account_id a) (az_identifier a) status (az_expires_at a).

Definition update_authorization_status (id status : string) t : AcmeTables :=
  set_authorizations (row_update az_id id (with_authz_status status) (acme_authorizations t)) t.

Definition create_challenge (c : AcmeChallenge) t : option AcmeTables :=
  (fun x => set_challenges x t) <$> row_insert ch_id c (acme_challenges t).

Definition get_challenge (id : string) t : option AcmeChallenge := row_get ch_id id (acme_challenges t).

Definition list_challenges_for_authz (authz_id : string) t : list AcmeChallenge :=
  List.filter (fun c => (ch_authz_id c =? authz_id)%string) (acme_challenges t).

Definition with_challenge_status (status : string) (validated_at : option Z) (c : AcmeChallenge) : AcmeChallenge :=
  mkChallenge (ch_id c) (ch_authz_id c) (ch_type c) (ch_token c) status validated_at.

Definition update_challenge_status (id status : string) (validated_at : option Z) t : AcmeTables :=
  set_challenges (row_update ch_id id (with_challenge_status status validated_at) (acme_challenges t)) t.

(** ** Certificates *)

(** No row is ever deleted, so that the row ids count up from 1. *)
Definition store_acme_certificate (now : Z) (domain cert_pem key_pem chain_pem : string) (expires_at : Z) t
  : Z * AcmeTables :=
  let id := Z.of_nat (length (acme_certificates t)) + 1 in
  (id, set_certificates (acme_certificates t ++ [mkCertRow id domain cert_pem key_pem chain_pem now expires_at]) t).

Definition get_acme_certificate_by_id (id : Z) t : option AcmeCertRow :=
  List.find (fun c => crt_id c =? id) (acme_certificates t).

(** [ORDER BY issued_at DESC LIMIT 1]: of equally recent rows, the first. *)
Definition get_acme_certificate (domain : string) t : option AcmeCertRow :=
  foldl (fun best c =>
    if (crt_domain c =? domain)%string then
      match best with
      | Some b => if crt_issued_at b <? crt_issued_at c then Some c else best
      | None => Some c
      end
    else best) None (acme_certificates t).

(** [ORDER BY issued_at DESC], then by zone. *)
Definition list_acme_certificates (zone : option string) t : list AcmeCertRow :=
  let suffix := normalize_name <$> zone in
  List.filter (fun c => match suffix with Some z => name_in_zone (crt_domain c) z | None => true end)
    (merge_sort (fun a b => crt_issued_at b <=? crt_issued_at a) (acme_certificates t)).

(** ** CA certificates *)

(** [INSERT OR REPLACE]: a replaced row moves to the end. *)
Definition store_zone_ca (zone cert_pem key_pem : string) t : AcmeTables :=
  let zone := normalize_name zone in
  set_zone_cas (List.filter (fun r => negb (fst r =? zone)%string) (zone_cas t) ++ [(zone, (cert_pem, key_pem))]) t.

Definition get_zone_ca (zone : string) t : option (string * string) := snd <$> row_get fst (normalize_name zone) (zone_cas t).

(** [ORDER BY zone]. *)
Definition list_zone_cas t : list string := merge_sort (fun a b => String.leb a b) ((zone_cas t).*1).

Definition store_dane_root_ca (name cert_pem key_pem : string) t : AcmeTables :=
  set_root_cas (dane_root_cas t ++ [(name, (cert_pem, key_pem))]) t.

Definition get_dane_root_ca (name : string) t : option (string * string) := snd <$> row_get fst name (dane_root_cas t).
End Tables.

(** * Nonces *)

(** The nonce is the primary key. *)
Definition nonces_unique (t : AcmeTables) : Prop := NoDup (nonce_value <$> acme_nonces t).

Definition has_nonce (nonce : string) (t : AcmeTables) : Prop := nonce ∈ nonce_value <$> acme_nonces t.

#[export] Instance has_nonce_dec nonce t : Decision (has_nonce nonce t).
Proof. unfold has_nonce. exact _. Defined.

Lemma filter_sublist {A} (p : A -> bool) (l : list A) : sublist (List.filter p l) l.
Proof. induction l as [|a l IH]; simpl; [constructor|]. destruct (p a); by constructor. Qed.

Lemma fmap_sublist {A B} (f : A -> B) (l k : list A) : sublist l k -> sublist (f <$> l) (f <$> k).
Proof. induction 1; simpl; by constructor. Qed.

Lemma cap_nonces_sublist limit rows : sublist (cap_nonces limit rows) rows.
Proof.
  unfold cap_nonces. etrans; [apply fmap_sublist, filter_sublist|].
  rewrite snd_zip; [done|]. by rewrite length_seq.
Qed.

Lemma filter_length_le {A} (p : A -> bool) (l k : list A) :
  sublist l k -> (length (List.filter p l) <= length (List.filter p k))%nat.
Proof. induction 1; simpl; [done| |]; destruct (p x); simpl; lia. Qed.

(** In a strict total order, at most [k] elements have fewer than [k] above them. *)
Lemma top_ranks {A} (newer : A -> A -> bool) (l : list A) k :
  (forall x, newer x x = false) ->
  (forall x y z, newer x y = true -> newer y z = true -> newer x z = true) ->
  (forall x y, x ∈ l -> y ∈ l -> x = y \/ newer x y = true \/ newer y x = true) ->
  NoDup l ->
  (length (List.filter (fun x => (length (List.filter (fun y => newer y x) l) <? k)%nat) l) <= k)%nat.
Proof.
  intros Hirr Htr Htot Hnd. set (K := List.filter _ l). assert (sublist K l) as HK by apply filter_sublist.
  assert (NoDup K) as HndK by (by eapply sublist_NoDup).
  assert (K = [] \/ exists m, m ∈ K /\ forall x, x ∈ K -> x = m \/ newer x m = true) as [->|(m & Hm & Hmin)]; [|simpl; lia|].
  { assert (forall x, x ∈ K -> x ∈ l) as Hsub by (intros; by eapply elem_of_sublist). clearbody K. clear HK HndK Hnd.
    induction K as [|a K IH]; [by left|]. right. destruct IH as [->|(m & Hm & Hmin)]; [intros x Hx; apply Hsub; by right| |].
    - exists a. split; [by left|]. intros x [->|Hx]%elem_of_cons; [by left|by apply not_elem_of_nil in Hx].
    - destruct (Htot a m) as [->|[Ham|Ham]]; [apply Hsub; by left|apply Hsub; by right| | |].
      + exists m. split; [by left|]. intros x [->|Hx]%elem_of_cons; [by left|auto].
      + exists m. split; [by right|]. intros x [->|Hx]%elem_of_cons; [by right|auto].
      + exists a. split; [by left|]. intros x [->|Hx]%elem_of_cons; [by left|]. right.
        destruct (Hmin x Hx) as [->|Hx']; [done|by eapply Htr]. }
  assert (length (List.filter (fun y => newer y m) l) < k)%nat as Hrank.
  { unfold K in Hm. apply elem_filter_bool in Hm as [_ Hm]. by apply Nat.ltb_lt. }
  pose proof (filter_length_le (fun y => newer y m) K l HK) as Hle. clearbody K.
  apply elem_of_Permutation in Hm as [K' HK'].
  assert (List.filter (fun y => newer y m) K' = K') as Hall.
  { apply filter_all_true. intros x Hx. destruct (Hmin x) as [->|]; [rewrite HK'; by right| |done].
    rewrite HK', NoDup_cons in HndK. by destruct HndK. }
  assert (length (List.filter (fun y => newer y m) K) = length K') as Hlen.
  { transitivity (length (List.filter (fun y => newer y m) (m :: K'))).
    - apply Permutation_length, Permutation_filter_bool, HK'.
    - simpl. by rewrite Hirr, Hall. }
  rewrite HK'. simpl. lia.
Qed.

Lemma cap_nonces_bound limit rows : (length (cap_nonces limit rows) <= limit)%nat.
Proof.
  unfold cap_nonces. rewrite length_fmap. apply top_ranks.
  - intros x. unfold newer_nonce. rewrite Z.ltb_irrefl, Nat.ltb_irrefl. by rewrite andb_false_r.
  - intros x y z. unfold newer_nonce. rewrite !orb_true_iff, !andb_true_iff, !Z.ltb_lt, !Z.eqb_eq, !Nat.ltb_lt. lia.
  - intros [i x] [j y] Hx Hy. destruct (decide (i = j)) as [->|Hne].
    + left. f_equal. apply elem_of_lookup_zip_with in Hx as (n1 & ? & ? & [= -> ->] & H1 & H2).
      apply elem_of_lookup_zip_with in Hy as (n2 & ? & ? & [= <- ->] & H3 & H4).
      apply lookup_seq in H1 as [-> _], H3 as [E _]. assert (n1 = n2) as -> by lia. congruence.
    + right. unfold newer_nonce. simpl. rewrite !orb_true_iff, !andb_true_iff, !Z.ltb_lt, !Z.eqb_eq, !Nat.ltb_lt. lia.
  - apply (NoDup_fmap_1 fst). rewrite fst_zip by (by rewrite length_seq). apply NoDup_seq.
Qed.

Lemma store_nonce_rows now nonce t :
  sublist (acme_nonces (store_nonce now nonce t))
    (default (acme_nonces t) (row_insert nonce_value (mkNonce nonce now) (acme_nonces t))).
Proof. unfold store_nonce. simpl. etrans; [apply cap_nonces_sublist|apply filter_sublist]. Qed.

Lemma store_nonce_elem now nonce t r :
  r ∈ acme_nonces (store_nonce now nonce t) -> r ∈ acme_nonces t \/ r = mkNonce nonce now.
Proof.
  intros Hr. pose proof (elem_of_sublist _ _ _ Hr (store_nonce_rows now nonce t)) as H.
  destruct (row_insert _ _ _) as [rows|] eqn:E; simpl in H; [|by left].
  apply row_insert_app in E as ->. set_solver.
Qed.

Lemma store_nonce_unique now nonce t : nonces_unique t -> nonces_unique (store_nonce now nonce t).
Proof.
  intros Hu. unfold nonces_unique. eapply sublist_NoDup, fmap_sublist, store_nonce_rows.
  unfold row_insert. destruct (row_get _ _ _) eqn:E; [done|]. simpl. rewrite fmap_app, NoDup_app. split_and!; [done| |apply NoDup_singleton].
  intros x (r & -> & Hr)%list_elem_of_fmap Hx%list_elem_of_singleton.
  apply list_elem_of_In in Hr. apply (find_none _ _ E) in Hr. simpl in Hr, Hx. by apply String.eqb_neq in Hr.
Qed.

Lemma consume_nonce_unique now nonce t : nonces_unique t -> nonces_unique (consume_nonce now nonce t).2.
Proof. intros Hu. unfold nonces_unique. eapply sublist_NoDup, fmap_sublist, filter_sublist. exact Hu. Qed.

(** What was taken is gone. *)
Lemma consume_nonce_gone now nonce t :
  nonces_unique t -> (consume_nonce now nonce t).1 = true -> ~ has_nonce nonce (consume_nonce now nonce t).2.
Proof.
  intros Hu (r & Hr & Hh)%existsb_exists (r' & Hn & Hr')%list_elem_of_fmap. apply list_elem_of_In in Hr.
  simpl in Hr'. apply elem_filter_bool in Hr' as [Hr' Hn'%negb_true_iff].
  bool_hyps; assert (r' = r) as -> by (eapply (NoDup_fmap_same nonce_value); [exact Hu|done|done|congruence]);
    first [congruence | lia].
Qed.

Lemma consume_nonce_absent now nonce t : ~ has_nonce nonce t -> (consume_nonce now nonce t).1 = false.
Proof.
  intros Hn. apply not_true_iff_false. intros (r & Hr & Hh)%existsb_exists. apply Hn, list_elem_of_fmap. exists r.
  bool_hyps. split; [done|by apply list_elem_of_In].
Qed.

Lemma store_nonce_has now nonce nonce' t : has_nonce nonce' (store_nonce now nonce t) -> has_nonce nonce' t \/ nonce' = nonce.
Proof.
  intros (r & -> & [Hr| ->]%store_nonce_elem)%list_elem_of_fmap; [left; apply list_elem_of_fmap; by exists r|by right].
Qed.

(** A nonce that is issued last is kept, and can be taken for an hour. *)
Lemma cap_nonces_newest limit rows n now :
  (0 < limit)%nat -> Forall (fun r => nonce_created r <= now) rows -> mkNonce n now ∈ cap_nonces limit (rows ++ [mkNonce n now]).
Proof.
  intros Hl Hold. unfold cap_nonces. set (l := zip _ _). apply list_elem_of_fmap. exists (length rows, mkNonce n now). split; [done|].
  assert (l = zip (seq 0 (length rows)) rows ++ [(length rows, mkNonce n now)]) as El.
  { unfold l. rewrite length_app, seq_app. simpl. by rewrite zip_with_app by (by rewrite length_seq). }
  apply elem_filter_bool. split; [rewrite El; set_solver|]. apply Nat.ltb_lt.
  replace (List.filter _ l) with (@nil (nat * NonceRow)); [done|]. symmetry. apply filter_all_false. intros [j r] Hr.
  unfold newer_nonce. cbn [fst snd nonce_created]. rewrite El in Hr.
  apply elem_of_app in Hr as [Hr|[= -> ->]%list_elem_of_singleton]; [|by rewrite Z.ltb_irrefl, Nat.ltb_irrefl, andb_false_r].
  apply elem_of_lookup_zip_with in Hr as (i & ? & ? & [= -> ->] & [-> Hi]%lookup_seq & Hr).
  rewrite Forall_forall in Hold. specialize (Hold _ (list_elem_of_lookup_2 _ _ _ Hr)).
  apply orb_false_iff. split; [by apply Z.ltb_ge|]. apply andb_false_iff. right. apply Nat.ltb_ge. lia.
Qed.

Lemma store_nonce_accepted now now' n t :
  ~ has_nonce n t -> Forall (fun r => nonce_created r <= now) (acme_nonces t) -> now <= now' <= now + NONCE_TTL_SECS ->
  (consume_nonce now' n (store_nonce now n t)).1 = true.
Proof.
  intros Hn Hold Ht. unfold consume_nonce. apply existsb_exists. exists (mkNonce n now).
  cbn [nonce_value nonce_created]. rewrite String.eqb_refl. split; [|apply Z.leb_le; lia]. apply list_elem_of_In.
  unfold store_nonce, row_insert. cbn [nonce_value].
  destruct (row_get nonce_value n (acme_nonces t)) as [r|] eqn:E.
  { exfalso. apply Hn. apply list_elem_of_fmap. exists r. split; [symmetry; by eapply row_get_key|by eapply row_get_elem]. }
  cbn [acme_nonces set_nonces]. simpl default. rewrite List.filter_app. cbn [List.filter nonce_created].
  replace (now - NONCE_TTL_SECS <=? now) with true by (symmetry; apply Z.leb_le; unfold NONCE_TTL_SECS; lia).
  apply cap_nonces_newest; [unfold MAX_OUTSTANDING_NONCES; lia|].
  rewrite Forall_forall in *. intros r [Hr _]%elem_filter_bool. by apply Hold.
Qed.
