(* ===== verification/Ca.v ===== *)
(** The certificate authority ([src/src/ca.rs], [src/src/dane.rs]): one root, an
    intermediate per zone, the leaves they sign and the records that publish them.
    Building and signing certificates is [rcgen]'s; what is asked of it, and what it
    is refused, is modelled. Times are Unix seconds. *)

From S2P Require Import Prelude RustStr Names Ip Records Rrsig ZoneStore Scopes Database Rdata AcmeStore.
From stdpp Require Import base sets list option strings.
From Stdlib Require Import ZArith Lia Bool Ascii.

Open Scope Z_scope.
Local Open Scope rolodex_scope.

(** * rcgen *)

Inductive BasicConstraints := Unconstrained | Constrained (path_len : Z).

Inductive KeyUsagePurpose := KeyCertSign | CrlSign.

(** The parameters of a CA certificate that the code sets. *)
Record CaParams := mkCaParams {
  cp_is_ca : BasicConstraints;
  cp_key_usages : list KeyUsagePurpose;
  cp_common_name : string;
  cp_not_before : Z;
  cp_not_after : Z;
}.

Inductive SanType :=
  | DnsName (s : string) | Rfc822Name (s : string) | SanUri (s : string) | SanIp (ip : IpAddr) | OtherName (bytes : list Z).

Inductive DnValue :=
  | Utf8String (s : string) | PrintableString (s : string) | Ia5String (s : string) | TeletexString (s : string)
  | BmpString (bytes : list Z) | UniversalString (bytes : list Z).

(** [rcgen], [x509_parser] and [sha2]: keys, signing, what a request asks for and
    what a certificate asserts. [dane_self_signed] leaves key usages and validity to
    the library's defaults. *)
Class Rcgen := {
  CaKey : Type;
  Issuer : Type;
  CsrParams : Type;
  generate_key : nat -> option CaKey;
  key_to_pem : CaKey -> string;
  key_of_pem : string -> option CaKey;
  self_signed : CaParams -> CaKey -> option string;
  dane_self_signed : string -> CaKey -> option string;
  ca_signed_by : CaParams -> CaKey -> Issuer -> option string;
  issuer_of_pem : string -> CaKey -> option Issuer;
  csr_of_pem : string -> option CsrParams;
  csr_sans : CsrParams -> list SanType;
  csr_common_name : CsrParams -> option DnValue;
  csr_signed_by : CsrParams -> Z -> Z -> Issuer -> option string;
  cert_sans : string -> list SanType;
  cert_common_name : string -> option DnValue;
  spki_of_der : list Z -> option (list Z);
  sha256 : list Z -> list Z;
  sha512 : list Z -> list Z;
}.

(** The request's names and subject are copied into the certificate. *)
Class RcgenLaws `{!Rcgen} := csr_signed_names csr nb na issuer pem :
  csr_signed_by csr nb na issuer = Some pem ->
  cert_sans pem = csr_sans csr /\ cert_common_name pem = csr_common_name csr.

(** * State *)

(** The database and how much randomness was drawn. *)
Record AcmeDb := mkAcmeDb { a_db : Database; a_tables : AcmeTables; a_draws : nat }.

Abbreviation D := (fallible AcmeDb string).

Definition a_zones (s : AcmeDb) : ZoneStore := zones (a_db s).
Definition set_a_zones (z : ZoneStore) (s : AcmeDb) : AcmeDb :=
  mkAcmeDb (mkDb z (scopes (a_db s)) (lists (a_db s))) (a_tables s) (a_draws s).
Definition set_a_tables (t : AcmeTables) (s : AcmeDb) : AcmeDb := mkAcmeDb (a_db s) t (a_draws s).

Definition read {A} (f : AcmeTables -> A) : D A := fun s => (Ok (f (a_tables s)), s).
Definition write (f : AcmeTables -> AcmeTables) : D unit := fun s => (Ok tt, set_a_tables (f (a_tables s)) s).

Definition add_row (r : DnsRecord) : D unit := fun s => (Ok tt, set_a_zones (add_record r (a_zones s)).2 s).
Definition remove_rows (name : string) (kind : RecordKind) : D unit :=
  fun s => (Ok tt, set_a_zones (remove_records name (Some kind) "" (a_zones s)).2 s).

Fixpoint for_each {A} (f : A -> D unit) (l : list A) : D unit :=
  match l with [] => succeed tt | x :: l' => _ <-e f x; for_each f l' end.

(** * Constants *)

Definition ROOT_CA_NAME : string := "__rolodex_root__".
Definition ROOT_VALIDITY_DAYS : Z := 3650.
Definition INTERMEDIATE_VALIDITY_DAYS : Z := 1825.
Definition CA_CERT_LABEL : string := "_ca".
Definition CA_TXT_LABEL : string := "_rolodex-ca".
Definition CA_TXT_PREFIX : string := "rolodex-ca:v1".
Definition CA_RECORD_TTL : Z := 3600.
Definition CA_TXT_CHUNK : nat := 180.

(** The latest instant of [OffsetDateTime], the end of the year 9999. *)
Definition MAX_TIMESTAMP : Z := 253402300799.

(** * Text *)

Definition newline : ascii := "010"%char.

Fixpoint str_take (n : nat) (s : string) : string :=
  match n, s with S n', String c s' => String c (str_take n' s') | _, _ => EmptyString end.

Fixpoint str_drop (n : nat) (s : string) : string :=
  match n, s with S n', String _ s' => str_drop n' s' | _, _ => s end.

(** [chunks]: as many turns as there are octets are enough. *)
Fixpoint str_chunks (fuel n : nat) (s : string) : list string :=
  match fuel, s with
  | S fuel', String _ _ => str_take n s :: str_chunks fuel' n (str_drop n s)
  | _, _ => []
  end.

(** [lines]: a final line feed opens no line, and a carriage return before one goes. *)
Definition str_lines (s : string) : list string :=
  let ls := split_on newline s in
  let ls := match last ls with Some EmptyString => removelast ls | _ => ls end in
  (fun l => default l (str_strip_suffix (String "013"%char EmptyString) l)) <$> ls.

(** The scan of [pem_body]: whether it is inside the block, and what it has. *)
Fixpoint scan_pem (inside : bool) (body : string) (ls : list string) : string :=
  match ls with
  | [] => body
  | l :: ls' =>
      if starts_with "-----BEGIN CERTIFICATE-----" l then scan_pem true body ls'
      else if starts_with "-----END CERTIFICATE-----" l then body
      else if inside then scan_pem inside (body +:+ str_trim l) ls'
      else scan_pem inside body ls'
  end.

Definition pem_body (pem : string) : result string string :=
  let body := scan_pem false "" (str_lines pem) in
  if (body =? "")%string then Err "no CERTIFICATE block found in PEM" else Ok body.

Definition ca_cert_record_name (zone : string) : string := CA_CERT_LABEL +:+ "." +:+ trim_end_matches "." zone +:+ ".".
Definition ca_txt_record_name (zone : string) : string := CA_TXT_LABEL +:+ "." +:+ trim_end_matches "." zone +:+ ".".

(** The texts one certificate is published as. *)
Definition ca_txt_value (kind : string) (total i : nat) (chunk : string) : string :=
  CA_TXT_PREFIX +:+ ":" +:+ kind +:+ ":" +:+ show_dec (Z.of_nat (S i)) +:+ "/" +:+ show_dec (Z.of_nat total) +:+ ":" +:+ chunk.

Definition ca_txt_values (kind b64 : string) : list string :=
  let chunks := str_chunks (String.length b64) CA_TXT_CHUNK b64 in
  imap (ca_txt_value kind (length chunks)) chunks.

(** * Names a request asks for *)

Definition name_char (c : ascii) : bool :=
  let n := N_of_ascii c in
  ((48 <=? n) && (n <=? 57))%N || ((65 <=? n) && (n <=? 90))%N || ((97 <=? n) && (n <=? 122))%N ||
  Ascii.eqb c "-" || Ascii.eqb c "_".

Definition looks_like_dns_name (candidate : string) : bool :=
  let trimmed := trim_end_matches "." candidate in
  negb (trimmed =? "")%string && negb (free_of "." trimmed) &&
  forallb (fun label => negb (label =? "")%string && str_forall name_char label) (split_on "." trimmed).

Definition dn_value_str (v : DnValue) : option string :=
  match v with
  | Utf8String s | PrintableString s | Ia5String s | TeletexString s => Some s
  | BmpString _ | UniversalString _ => None
  end.

(** * The authority *)

Section Ca.
Context `{RC : !Rcgen, B64 : !Base64, HX : !Hex}.
Context (now : Z).

Definition set_validity (days : Z) : option (Z * Z) :=
  let not_after := now + days * 86400 in
  if not_after <=? MAX_TIMESTAMP then Some (now - 60, not_after) else None.

Definition ed25519_key : D CaKey := fun s =>
  let s' := mkAcmeDb (a_db s) (a_tables s) (S (a_draws s)) in
  match generate_key (a_draws s) with Some k => (Ok k, s') | None => (Err "failed to generate Ed25519 key pair", s') end.

Definition ensure_root_ca (common_name : string) : D unit :=
  existing <-e read (get_dane_root_ca ROOT_CA_NAME);
  match existing with
  | Some _ => succeed tt
  | None =>
      key <-e ed25519_key;
      validity <-e or_fail (set_validity ROOT_VALIDITY_DAYS) "certificate validity overflow";
      cert <-e or_fail (self_signed (mkCaParams Unconstrained [KeyCertSign; CrlSign] common_name validity.1 validity.2) key)
                 "failed to self-sign root CA";
      write (store_dane_root_ca ROOT_CA_NAME cert (key_to_pem key))
  end.

Definition materialize_issuer (cert_pem key_pem : string) : D Issuer :=
  key <-e or_fail (key_of_pem key_pem) "failed to load CA key";
  or_fail (issuer_of_pem cert_pem key) "failed to parse CA certificate".

Definition load_root : D Issuer :=
  root <-e read (get_dane_root_ca ROOT_CA_NAME);
  root <-e or_fail root "root CA not initialized";
  materialize_issuer root.1 root.2.

Definition root_ca_pem : D string :=
  root <-e read (get_dane_root_ca ROOT_CA_NAME);
  root <-e or_fail root "root CA not initialized";
  succeed root.1.

Definition publish_one (cert_name txt_name kind pem : string) : D unit :=
  b64 <-e match pem_body pem with Ok b => succeed b | Err e => fail e end;
  _ <-e add_row (mkRecord None cert_name CERT ("1 0 0 " +:+ b64) CA_RECORD_TTL 0);
  for_each (fun v => add_row (mkRecord None txt_name TXT v CA_RECORD_TTL 0)) (ca_txt_values kind b64).

Definition publish_ca_dns_records (zone : string) : D unit :=
  let zone := normalize_name zone in
  root_pem <-e root_ca_pem;
  int <-e read (get_zone_ca zone);
  int <-e or_fail int "no intermediate CA for zone";
  let cert_name := ca_cert_record_name zone in
  let txt_name := ca_txt_record_name zone in
  _ <-e remove_rows cert_name CERT;
  _ <-e remove_rows txt_name TXT;
  _ <-e publish_one cert_name txt_name "root" root_pem;
  publish_one cert_name txt_name "intermediate" int.1.

Definition ensure_zone_intermediate (zone : string) : D unit :=
  let zone := normalize_name zone in
  existing <-e read (get_zone_ca zone);
  match existing with
  | Some _ => publish_ca_dns_records zone
  | None =>
      root <-e load_root;
      key <-e ed25519_key;
      validity <-e or_fail (set_validity INTERMEDIATE_VALIDITY_DAYS) "certificate validity overflow";
      cert <-e or_fail (ca_signed_by (mkCaParams (Constrained 0) [KeyCertSign; CrlSign]
                          ("Rolodex Zone CA " +:+ trim_end_matches "." zone) validity.1 validity.2) key root)
                 "failed to sign intermediate CA";
      _ <-e write (store_zone_ca zone cert (key_to_pem key));
      publish_ca_dns_records zone
  end.

(** ** Leaves *)

Definition csr_requested_names (csr : CsrParams) : list string :=
  omap (fun san => match san with DnsName dns => Some dns | _ => None end) (csr_sans csr) ++
  match csr_common_name csr ≫= dn_value_str with
  | Some cn => if looks_like_dns_name cn then [cn] else []
  | None => []
  end.

Definition check_csr_names (csr : CsrParams) (allowed : list string) : bool :=
  let permitted := normalize_name <$> allowed in
  forallb (fun requested => bool_decide (normalize_name requested ∈ permitted)) (csr_requested_names csr).

Record IssuedLeaf := mkLeaf { leaf_pem : string; leaf_chain_pem : string; leaf_expires_at : Z }.

Definition issue_leaf (zone csr_pem : string) (validity_days : Z) (allowed_names : list string) : D IssuedLeaf :=
  let zone := normalize_name zone in
  int <-e read (get_zone_ca zone);
  int <-e or_fail int "no intermediate CA for zone";
  issuer <-e materialize_issuer int.1 int.2;
  csr <-e or_fail (csr_of_pem csr_pem) "failed to parse CSR";
  if negb (check_csr_names csr allowed_names) then fail "CSR requests a name the order did not validate"
  else
    validity <-e or_fail (set_validity validity_days) "certificate validity overflow";
    leaf <-e or_fail (csr_signed_by csr validity.1 validity.2 issuer) "failed to sign leaf from CSR";
    succeed (mkLeaf leaf (leaf +:+ int.1) validity.2).

(** ** Zones *)

(** A zone encloses a name at a label boundary. *)
Definition encloses (zone name : string) : bool := (name =? zone)%string || ends_with ("." +:+ zone) name.

(** [matches('.').count()], one more than that. *)
Definition count_labels (s : string) : nat := length (split_on "." s).

Definition responsible_zone (name : string) (t : AcmeTables) : option string :=
  let name := normalize_name name in
  foldl (fun best zone =>
    let z := normalize_name zone in
    if encloses z name then
      match best with
      | Some b => if (count_labels b <? count_labels z)%nat then Some z else best
      | None => Some z
      end
    else best) None (list_zone_cas t).

(** ** DANE *)

Definition pem_to_der (pem : string) : option (list Z) :=
  b64_decode (str_join "" (List.filter (fun l => negb (starts_with "-----" l)) (str_lines (str_trim pem)))).

Definition generate_tlsa_record (cert_pem : string) (usage selector matching_type : Z) : option string :=
  der ← pem_to_der cert_pem;
  data ← (if selector =? 0 then Some der else if selector =? 1 then spki_of_der der else None);
  hash ← (if matching_type =? 0 then Some (hex_enc data) else if matching_type =? 1 then Some (hex_enc (sha256 data))
          else if matching_type =? 2 then Some (hex_enc (sha512 data)) else None);
  Some (show_dec usage +:+ " " +:+ show_dec selector +:+ " " +:+ show_dec matching_type +:+ " " +:+ hash).

Definition generate_dane_root_ca (name : string) : D (string * string) :=
  key <-e ed25519_key;
  cert <-e or_fail (dane_self_signed name key) "failed to generate root CA";
  succeed (cert, key_to_pem key).

Definition tlsa_dns_name (domain : string) (port : Z) (protocol : string) : string :=
  "_" +:+ show_dec port +:+ "._" +:+ protocol +:+ "." +:+ trim_end_matches "." domain +:+ ".".

Definition intermediate_tlsa (zone : string) : D string :=
  int <-e read (get_zone_ca (normalize_name zone));
  int <-e or_fail int "no intermediate CA for zone";
  or_fail (generate_tlsa_record int.1 2 1 1) "failed to generate TLSA".

(** A request for addresses and mail names only, or with a wildcard for its common
    name, is never refused for what it asks. *)
Lemma other_names_unchecked csr :
  Forall (fun san => forall dns, san <> DnsName dns) (csr_sans csr) ->
  csr_common_name csr = None \/ csr_common_name csr = Some (Utf8String "*.victim.home") -> check_csr_names csr [] = true.
Proof.
  intros Hs Hc. unfold check_csr_names, csr_requested_names.
  assert (omap (fun san => match san with DnsName dns => Some dns | _ => None end) (csr_sans csr) = []) as ->.
  { induction Hs as [|san l Hn _ IH]; [done|]. destruct san; simpl; [by destruct (Hn s)|exact IH..]. }
  by destruct Hc as [-> | ->].
Qed.
End Ca.
