(* ===== verification/Acme.v ===== *)
(** The ACME server ([src/src/acme_server.rs], [src/src/acme_jose.rs]), the enrollment
    portal ([src/src/portal.rs]) and the calls of [src/src/grpc_service.rs] that
    manage the certificate authority. A request carries the octets of its body; the
    JSON library, the signature checks and the random generator are parameters. Each
    handler runs to its end before the next, and every reading of the clock in one
    handler gives the same second. *)

From S2P Require Import Prelude RustStr Names Ip Records Rrsig DnsCache ZoneStore Scopes Database Forwarder Rdata.
From S2P Require Import AcmeStore Ca.
From stdpp Require Import base sets list option strings.
From Stdlib Require Import ZArith Lia Bool Ascii.

Open Scope Z_scope.
Local Open Scope rolodex_scope.

(** * Libraries *)

Record FlatJws := mkJws { jws_protected : string; jws_payload : string; jws_signature : string }.

(** [serde_json]: values, their accessors and texts, and the two records it reads. *)
Class Serde := {
  Value : Type;
  Value_eq_dec :: EqDecision Value;
  Null : Value;
  value_get : string -> Value -> option Value;
  value_str : Value -> option string;
  value_bool : Value -> option bool;
  value_array : Value -> option (list Value);
  value_of_bytes : list Z -> option Value;
  value_of_str : string -> option Value;
  value_to_str : Value -> string;
  strings_of_str : string -> option (list string);
  strings_to_str : list string -> string;
  jws_of_bytes : list Z -> option FlatJws;
  zone_request_of_bytes : list Z -> option string;
}.

Class SerdeLaws `{!Serde} := strings_roundtrip l : strings_of_str (strings_to_str l) = Some l.

(** Signature checks, base64url and the random generator; a draw is its number. *)
Class Jose := {
  b64url_decode : string -> option (list Z);
  b64url_encode : list Z -> string;
  verify_ed25519 : list Z -> list Z -> list Z -> bool;
  verify_p256 : list Z -> list Z -> list Z -> bool;
  verify_rsa : list Z -> list Z -> list Z -> list Z -> bool;
  verify_hmac : list Z -> list Z -> list Z -> bool;
  random_bytes : nat -> nat -> option (list Z);
}.

(** Draws of sixteen octets or more do not repeat. *)
Class JoseLaws `{!Jose} := draws_differ i j n m bs cs :
  (16 <= n)%nat -> (16 <= m)%nat -> random_bytes n i = Some bs -> random_bytes m j = Some cs -> b64url_encode bs = b64url_encode cs -> i = j.

(** * JOSE *)

Record ProtectedHeader := mkHeader {
  hd_alg : string;
  hd_nonce : option string;
  hd_url : option string;
  hd_kid : option string;
}.

(** A double quotation mark. *)
Definition quote : string := String "034"%char EmptyString.

Definition json_member (name value : string) : string := quote +:+ name +:+ quote +:+ ":" +:+ quote +:+ value +:+ quote.

Definition json_object (members : list (string * string)) : string :=
  "{" +:+ str_join "," ((fun m => json_member m.1 m.2) <$> members) +:+ "}".

(** [trim_matches]. *)
Fixpoint trim_start_matches (c : ascii) (s : string) : string :=
  match s with String c' s' => if Ascii.eqb c' c then trim_start_matches c s' else s | EmptyString => s end.
Definition trim_matches (c : ascii) (s : string) : string := trim_end_matches c (trim_start_matches c s).

Section Jose.
Context `{SE : !Serde, JO : !Jose, RC : !Rcgen}.

(** The header, and the key it embeds. *)
Definition protected_header (jws : FlatJws) : option (ProtectedHeader * option Value) :=
  raw ← b64url_decode (jws_protected jws);
  v ← value_of_bytes raw;
  alg ← value_get "alg" v ≫= value_str;
  Some (mkHeader alg (value_get "nonce" v ≫= value_str) (value_get "url" v ≫= value_str) (value_get "kid" v ≫= value_str),
        value_get "jwk" v).

Definition payload_json (jws : FlatJws) : option Value :=
  if (jws_payload jws =? "")%string then Some Null
  else
    raw ← b64url_decode (jws_payload jws);
    match raw with [] => Some Null | _ => value_of_bytes raw end.

Definition signing_input (jws : FlatJws) : list Z := str_bytes (jws_protected jws +:+ "." +:+ jws_payload jws).

Definition jwk_str (jwk : Value) (field : string) : option string := value_get field jwk ≫= value_str.

Definition jwk_field_bytes (jwk : Value) (field : string) : option (list Z) := jwk_str jwk field ≫= b64url_decode.

Definition verify_with_jwk (alg : string) (jwk : Value) (message sig : list Z) : bool :=
  match jwk_str jwk "kty" with
  | None => false
  | Some kty =>
      if (alg =? "EdDSA")%string && (kty =? "OKP")%string then
        match jwk_field_bytes jwk "x" with Some x => verify_ed25519 x message sig | None => false end
      else if (alg =? "ES256")%string && (kty =? "EC")%string then
        match jwk_field_bytes jwk "x", jwk_field_bytes jwk "y" with
        | Some x, Some y => verify_p256 (4 :: x ++ y) message sig
        | _, _ => false
        end
      else if (alg =? "RS256")%string && (kty =? "RSA")%string then
        match jwk_field_bytes jwk "n", jwk_field_bytes jwk "e" with
        | Some n, Some e => verify_rsa n e message sig
        | _, _ => false
        end
      else false
  end.

Definition jws_verify (jws : FlatJws) (alg : string) (jwk : Value) : bool :=
  match b64url_decode (jws_signature jws) with
  | Some sig => verify_with_jwk alg jwk (signing_input jws) sig
  | None => false
  end.

(** The canonical form of a key: its required members in order. *)
Definition canonical_jwk (jwk : Value) : option string :=
  kty ← jwk_str jwk "kty";
  if (kty =? "OKP")%string then
    crv ← jwk_str jwk "crv"; x ← jwk_str jwk "x"; Some (json_object [("crv", crv); ("kty", "OKP"); ("x", x)])
  else if (kty =? "EC")%string then
    crv ← jwk_str jwk "crv"; x ← jwk_str jwk "x"; y ← jwk_str jwk "y";
    Some (json_object [("crv", crv); ("kty", "EC"); ("x", x); ("y", y)])
  else if (kty =? "RSA")%string then
    e ← jwk_str jwk "e"; n ← jwk_str jwk "n"; Some (json_object [("e", e); ("kty", "RSA"); ("n", n)])
  else None.

Definition jwk_thumbprint (jwk : Value) : option string :=
  (fun canonical => b64url_encode (sha256 (str_bytes canonical))) <$> canonical_jwk jwk.

Definition key_authorization (token account_thumbprint : string) : string := token +:+ "." +:+ account_thumbprint.

Definition dns01_txt_value (key_authorization : string) : string := b64url_encode (sha256 (str_bytes key_authorization)).

Definition eab_kid_of (eab : Value) : option string :=
  protected ← value_get "protected" eab ≫= value_str;
  raw ← b64url_decode protected;
  prot ← value_of_bytes raw;
  value_get "kid" prot ≫= value_str.

Definition verify_eab (eab account_jwk : Value) (hmac_key : list Z) : bool :=
  match value_get "protected" eab ≫= value_str, value_get "payload" eab ≫= value_str, value_get "signature" eab ≫= value_str with
  | Some protected, Some payload, Some signature =>
      match b64url_decode signature with
      | Some sig =>
          verify_hmac hmac_key (str_bytes (protected +:+ "." +:+ payload)) sig &&
          match b64url_decode protected ≫= value_of_bytes with
          | Some prot => bool_decide (value_get "alg" prot ≫= value_str = Some "HS256")
          | None => false
          end &&
          bool_decide (b64url_decode payload ≫= value_of_bytes = Some account_jwk)
      | None => false
      end
  | _, _, _ => false
  end.
End Jose.

(** * The server *)

Definition ORDER_TTL_SECS : Z := 7 * 24 * 3600.

(** The problem documents, without their detail texts. *)
Inductive AcmeError :=
  | Malformed | Unauthorized | BadNonce | BadCsr | NotOwner | ServerInternal | AccountDoesNotExist
  | ExternalAccountRequired | RejectedIdentifier | OrderNotReady | RevocationNotImplemented.

(** The settings of [AcmeState]. *)
Record AcmeConfig := mkAcmeConfig {
  directory_url : string;
  require_eab : bool;
  issuance_any : bool;
  leaf_validity_days : Z;
  tlsa_endpoints : list (Z * string);
}.

(** The database, and the response cache of the DNS server when there is one. *)
Record AcmeSt := mkAcmeSt { st_db : AcmeDb; st_cache : option DnsCache.t }.

Abbreviation H := (fallible AcmeSt AcmeError).

(** [map_err]. *)
Definition db_call {A} (e : AcmeError) (m : D A) : H A := fun s =>
  match m (st_db s) with
  | (Ok a, d) => (Ok a, mkAcmeSt d (st_cache s))
  | (Err _, d) => (Err e, mkAcmeSt d (st_cache s))
  end.

Definition query {A} (f : AcmeTables -> A) : H A := fun s => (Ok (f (a_tables (st_db s))), s).
Definition update (f : AcmeTables -> AcmeTables) : H unit := fun s =>
  (Ok tt, mkAcmeSt (set_a_tables (f (a_tables (st_db s))) (st_db s)) (st_cache s)).

(** An [INSERT] that may meet its primary key. *)
Definition insert_row (f : AcmeTables -> option AcmeTables) : H unit := fun s =>
  match f (a_tables (st_db s)) with
  | Some t => (Ok tt, mkAcmeSt (set_a_tables t (st_db s)) (st_cache s))
  | None => (Err ServerInternal, s)
  end.

Definition flush_dns : H unit := fun s => (Ok tt, mkAcmeSt (st_db s) (DnsCache.flush <$> st_cache s)).

Record OrderBody := mkOrderBody {
  ob_status : string;
  ob_expires : Z;
  ob_identifiers : list string;
  ob_authorizations : list string;
  ob_finalize : string;
  ob_certificate : option string;
}.

Record ChallengeBody := mkChallengeBody { cb_type : string; cb_url : string; cb_token : string; cb_status : string }.

Inductive AcmeReply :=
  | DirectoryReply (new_nonce new_account new_order revoke_cert : string) (external_account_required : bool)
  | NoContent
  | AccountReply (created : bool) (location status : string)
  | OrderReply (created : bool) (location : option string) (body : OrderBody)
  | AuthzReply (status : string) (expires : Z) (identifier : string) (challenges : list ChallengeBody)
  | ChallengeReply (body : ChallengeBody)
  | CertReply (chain : string).

Section Server.
Context `{SE : !Serde, JO : !Jose, RC : !Rcgen, B64 : !Base64, HX : !Hex}.
Context (cfg : AcmeConfig) (now : Z).

Definition acme_url (suffix : string) : string := trim_end_matches "/" (directory_url cfg) +:+ "/" +:+ suffix.

Definition random_token (n : nat) : H string := fun s =>
  let d := st_db s in
  let s' := mkAcmeSt (mkAcmeDb (a_db d) (a_tables d) (S (a_draws d))) (st_cache s) in
  match random_bytes n (a_draws d) with Some bs => (Ok (b64url_encode bs), s') | None => (Err ServerInternal, s') end.

Definition new_nonce : H string :=
  nonce <-e random_token 16;
  _ <-e update (store_nonce now nonce);
  succeed nonce.

(** ** Verified requests *)

Record Verified := mkVerified {
  vf_payload : Value;
  vf_account : option AcmeAccount;
  vf_jwk : Value;
  vf_thumbprint : string;
}.

Definition take_nonce (nonce : string) : H unit := fun s =>
  let (fresh, t) := consume_nonce now nonce (a_tables (st_db s)) in
  (if fresh then Ok tt else Err BadNonce, mkAcmeSt (set_a_tables t (st_db s)) (st_cache s)).

(** The account of a [kid] is named by what follows its last slash. *)
Definition account_of_kid (kid : string) : string := default "" (last (split_on "/" kid)).

Definition verification_key (jwk : option Value) (kid : option string) : H (Value * option AcmeAccount) :=
  match jwk, kid with
  | Some jwk, None => succeed (jwk, None)
  | None, Some kid =>
      account <-e query (get_acme_account (account_of_kid kid));
      account <-e or_fail account AccountDoesNotExist;
      jwk <-e or_fail (value_of_str (acc_jwk account)) ServerInternal;
      succeed (jwk, Some account)
  | _, _ => fail Malformed
  end.

Definition verify_request (body : list Z) (expected_url : string) : H Verified :=
  jws <-e or_fail (jws_of_bytes body) Malformed;
  hd <-e or_fail (protected_header jws) Malformed;
  url <-e or_fail (hd_url hd.1) Malformed;
  if negb (url =? expected_url)%string then fail Malformed
  else
    nonce <-e or_fail (hd_nonce hd.1) BadNonce;
    _ <-e take_nonce nonce;
    key <-e verification_key hd.2 (hd_kid hd.1);
    if negb (jws_verify jws (hd_alg hd.1) key.1) then fail Unauthorized
    else
      payload <-e or_fail (payload_json jws) Malformed;
      thumbprint <-e or_fail (jwk_thumbprint key.1) Malformed;
      succeed (mkVerified payload key.2 key.1 thumbprint).

(** A request that must come from an account. *)
Definition verify_account (body : list Z) (expected_url : string) : H (AcmeAccount * Value) :=
  v <-e verify_request body expected_url;
  account <-e or_fail (vf_account v) Malformed;
  succeed (account, vf_payload v).

(** ** Accounts *)

(** The external account binding of a new account: its key id and zone. *)
Definition bind_external (v : Verified) : H (option string * option string) :=
  match value_get "externalAccountBinding" (vf_payload v) with
  | Some eab =>
      kid <-e or_fail (eab_kid_of eab) Malformed;
      cred <-e query (get_eab kid);
      cred <-e or_fail cred Unauthorized;
      if eab_used cred then fail Unauthorized
      else if negb (verify_eab eab (vf_jwk v) (eab_hmac_key cred)) then fail Unauthorized
      else
        _ <-e update (mark_eab_used kid);
        _ <-e match eab_zone cred with
              | Some z => _ <-e db_call ServerInternal (ensure_zone_intermediate now z); flush_dns
              | None => succeed tt
              end;
        succeed (Some kid, eab_zone cred)
  | None => if require_eab cfg then fail ExternalAccountRequired else succeed (None, None)
  end.

(** As one step; the source takes the lock of the database once per call, and
    [AcmeRace] cuts the handler there. *)
Definition new_account (body : list Z) : H AcmeReply :=
  v <-e verify_request body (acme_url "new-account");
  existing <-e query (get_acme_account_by_thumbprint (vf_thumbprint v));
  match existing with
  | Some existing => succeed (AccountReply false (acme_url ("account/" +:+ acc_id existing)) (acc_status existing))
  | None =>
      if bool_decide (value_get "onlyReturnExisting" (vf_payload v) ≫= value_bool = Some true) then fail AccountDoesNotExist
      else
        binding <-e bind_external v;
        account_id <-e random_token 16;
        let account := mkAccount account_id (value_to_str (vf_jwk v)) (vf_thumbprint v)
                         (value_to_str <$> value_get "contact" (vf_payload v)) "valid" binding.1 binding.2 in
        _ <-e insert_row (create_acme_account account);
        succeed (AccountReply true (acme_url ("account/" +:+ account_id)) (acc_status account))
  end.

(** ** Orders *)

Definition derive_zone (normalized : string) : string :=
  let labels := split_on "." (trim_end_matches "." normalized) in
  let n := length labels in
  if (2 <=? n)%nat then default "" (labels !! (n - 2)%nat) +:+ "." +:+ default "" (labels !! (n - 1)%nat) +:+ "."
  else normalized.

Definition check_issuable (account : AcmeAccount) (name : string) : H string :=
  let normalized := normalize_name name in
  match acc_zone account with
  | Some zone =>
      let z := normalize_name zone in
      if encloses z normalized then succeed z else fail RejectedIdentifier
  | None =>
      found <-e query (responsible_zone name);
      match found with
      | Some z => succeed z
      | None =>
          if issuance_any cfg then
            let zone := derive_zone normalized in
            _ <-e db_call ServerInternal (ensure_zone_intermediate now zone);
            _ <-e flush_dns;
            succeed zone
          else fail RejectedIdentifier
      end
  end.

(** The names of the identifiers, each checked as it is read. *)
Fixpoint order_names (account : AcmeAccount) (ids : list Value) : H (list string) :=
  match ids with
  | [] => succeed []
  | id :: ids' =>
      if negb (default "" (value_get "type" id ≫= value_str) =? "dns")%string then fail Malformed
      else
        value <-e or_fail (value_get "value" id ≫= value_str) Malformed;
        _ <-e check_issuable account value;
        names <-e order_names account ids';
        succeed (value :: names)
  end.

(** One authorization and its challenge per name. *)
Fixpoint create_authzs (account : AcmeAccount) (order_id : string) (expires : Z) (names : list string) : H (list string) :=
  match names with
  | [] => succeed []
  | name :: names' =>
      authz_id <-e random_token 16;
      _ <-e insert_row (create_authorization (mkAuthz authz_id order_id (acc_id account) name "pending" expires));
      challenge_id <-e random_token 16;
      token <-e random_token 32;
      _ <-e insert_row (create_challenge (mkChallenge challenge_id authz_id "dns-01" token "pending" None));
      ids <-e create_authzs account order_id expires names';
      succeed (authz_id :: ids)
  end.

Definition order_json (o : AcmeOrder) : H OrderBody :=
  names <-e or_fail (strings_of_str (ord_identifiers o)) ServerInternal;
  authz_ids <-e or_fail (strings_of_str (ord_authorizations o)) ServerInternal;
  succeed (mkOrderBody (ord_status o) (ord_expires_at o) names ((fun a => acme_url ("authz/" +:+ a)) <$> authz_ids)
    (acme_url ("finalize/" +:+ ord_id o)) ((fun c => acme_url ("cert/" +:+ show_dec c)) <$> ord_cert_id o)).

Definition new_order (body : list Z) : H AcmeReply :=
  v <-e verify_account body (acme_url "new-order");
  ids <-e or_fail (value_get "identifiers" v.2 ≫= value_array) Malformed;
  match ids with
  | [] => fail Malformed
  | _ =>
      names <-e order_names v.1 ids;
      let expires := now + ORDER_TTL_SECS in
      order_id <-e random_token 16;
      authz_ids <-e create_authzs v.1 order_id expires names;
      let order := mkOrder order_id (acc_id v.1) "pending" (strings_to_str names) (strings_to_str authz_ids) None expires in
      _ <-e insert_row (create_order order);
      b <-e order_json order;
      succeed (OrderReply true (Some (acme_url ("order/" +:+ order_id))) b)
  end.

Definition get_order_req (id : string) (body : list Z) : H AcmeReply :=
  v <-e verify_account body (acme_url ("order/" +:+ id));
  order <-e query (get_order id);
  order <-e or_fail order Malformed;
  if negb (ord_account_id order =? acc_id v.1)%string then fail NotOwner
  else b <-e order_json order; succeed (OrderReply false None b).

Definition challenge_json (url : string) (c : AcmeChallenge) : ChallengeBody :=
  mkChallengeBody (ch_type c) url (ch_token c) (ch_status c).

Definition get_authz (id : string) (body : list Z) : H AcmeReply :=
  v <-e verify_account body (acme_url ("authz/" +:+ id));
  authz <-e query (get_authorization id);
  authz <-e or_fail authz Malformed;
  if negb (az_account_id authz =? acc_id v.1)%string then fail NotOwner
  else
    challenges <-e query (list_challenges_for_authz id);
    succeed (AuthzReply (az_status authz) (az_expires_at authz) (az_identifier authz)
      ((fun c => challenge_json (acme_url ("challenge/" +:+ ch_id c)) c) <$> challenges)).

(** ** Challenges *)

(** What the record of a name must hold for a key to control it. *)
Definition challenge_met (z : ZoneStore) (identifier token thumbprint : string) : bool :=
  let expected := dns01_txt_value (key_authorization token thumbprint) in
  let name := "_acme-challenge." +:+ trim_end_matches "." identifier +:+ "." in
  existsb (fun r => (trim_matches "034"%char (r_value r) =? expected)%string) (ZoneStore.lookup z name (Some TXT)).

Fixpoint all_valid (ids : list string) (t : AcmeTables) : bool :=
  match ids with
  | [] => true
  | id :: ids' =>
      match get_authorization id t with
      | Some a => if negb (az_status a =? "valid")%string then false else all_valid ids' t
      | None => false
      end
  end.

Definition maybe_advance_order (order_id : string) : H unit :=
  order <-e query (get_order order_id);
  match order with
  | None => succeed tt
  | Some order =>
      ids <-e or_fail (strings_of_str (ord_authorizations order)) ServerInternal;
      valid <-e query (all_valid ids);
      if valid && (ord_status order =? "pending")%string then update (update_order order_id "ready" None) else succeed tt
  end.

Definition respond_challenge (id : string) (body : list Z) : H AcmeReply :=
  let expected := acme_url ("challenge/" +:+ id) in
  v <-e verify_account body expected;
  challenge <-e query (get_challenge id);
  challenge <-e or_fail challenge Malformed;
  authz <-e query (get_authorization (ch_authz_id challenge));
  authz <-e or_fail authz Malformed;
  if negb (az_account_id authz =? acc_id v.1)%string then fail NotOwner
  else if az_expires_at authz <=? now then fail Malformed
  else
    matched <-e (fun s => (Ok (challenge_met (a_zones (st_db s)) (az_identifier authz) (ch_token challenge) (acc_thumbprint v.1)), s));
    _ <-e (if matched : bool then
             _ <-e update (update_challenge_status (ch_id challenge) "valid" (Some now));
             _ <-e update (update_authorization_status (az_id authz) "valid");
             maybe_advance_order (az_order_id authz)
           else
             _ <-e update (update_challenge_status (ch_id challenge) "invalid" None);
             update (update_authorization_status (az_id authz) "invalid"));
    updated <-e query (get_challenge id);
    updated <-e or_fail updated ServerInternal;
    succeed (ChallengeReply (challenge_json expected updated)).

(** ** Issuance *)

Definition der_to_pem (label : string) (der : list Z) : string :=
  let b64 := b64_encode der in
  let nl := String newline EmptyString in
  "-----BEGIN " +:+ label +:+ "-----" +:+ nl +:+
  str_join "" ((fun c => c +:+ nl) <$> str_chunks (String.length b64) 64 b64) +:+
  "-----END " +:+ label +:+ "-----" +:+ nl.

Definition publish_dane (zone : string) (names : list string) : D unit :=
  tlsa <-e intermediate_tlsa zone;
  for_each (fun r => add_row r)
    (names ≫= fun name => (fun e => mkRecord None (tlsa_dns_name name e.1 e.2) TLSA tlsa 3600 0) <$> tlsa_endpoints cfg).

(** The zone of the first name; all of them must be issuable. *)
Fixpoint issuing_zone (account : AcmeAccount) (names : list string) : H string :=
  match names with
  | [] => succeed ""
  | name :: names' =>
      zone <-e check_issuable account name;
      _ <-e issuing_zone account names';
      succeed zone
  end.

Definition finalize (id : string) (body : list Z) : H AcmeReply :=
  v <-e verify_account body (acme_url ("finalize/" +:+ id));
  order <-e query (get_order id);
  order <-e or_fail order Malformed;
  if negb (ord_account_id order =? acc_id v.1)%string then fail NotOwner
  else if negb (ord_status order =? "ready")%string then fail OrderNotReady
  else if ord_expires_at order <=? now then fail Malformed
  else
    csr_b64 <-e or_fail (value_get "csr" v.2 ≫= value_str) Malformed;
    csr_der <-e or_fail (b64url_decode csr_b64) Malformed;
    let csr_pem := der_to_pem "CERTIFICATE REQUEST" csr_der in
    names <-e or_fail (strings_of_str (ord_identifiers order)) ServerInternal;
    primary <-e or_fail (head names) Malformed;
    zone <-e issuing_zone v.1 names;
    issued <-e db_call BadCsr (issue_leaf now zone csr_pem (leaf_validity_days cfg) names);
    cert_id <-e (fun s =>
      let (cert_id, t) := store_acme_certificate now primary (leaf_pem issued) "" (leaf_chain_pem issued)
                            (leaf_expires_at issued) (a_tables (st_db s)) in
      (Ok cert_id, mkAcmeSt (set_a_tables t (st_db s)) (st_cache s)));
    _ <-e db_call ServerInternal (publish_dane zone names);
    _ <-e flush_dns;
    _ <-e update (update_order (ord_id order) "valid" (Some cert_id));
    order <-e query (get_order id);
    order <-e or_fail order ServerInternal;
    b <-e order_json order;
    succeed (OrderReply false (Some (acme_url ("order/" +:+ ord_id order))) b).

Definition get_cert (id : string) (body : list Z) : H AcmeReply :=
  v <-e verify_account body (acme_url ("cert/" +:+ id));
  cert_id <-e or_fail (parse_i64 id) Malformed;
  owner <-e query (get_order_by_cert_id cert_id);
  if negb (bool_decide (ord_account_id <$> owner = Some (acc_id v.1))) then fail NotOwner
  else
    cert <-e query (get_acme_certificate_by_id cert_id);
    cert <-e or_fail cert Malformed;
    succeed (CertReply (crt_chain_pem cert)).

Definition revoke_cert (body : list Z) : H AcmeReply :=
  _ <-e verify_request body (acme_url "revoke-cert");
  fail RevocationNotImplemented.

(** ** The router *)

Inductive AcmeRequest :=
  | Directory | NewNonce
  | NewAccount (body : list Z) | NewOrder (body : list Z)
  | GetOrder (id : string) (body : list Z) | GetAuthz (id : string) (body : list Z)
  | RespondChallenge (id : string) (body : list Z) | Finalize (id : string) (body : list Z)
  | GetCert (id : string) (body : list Z) | RevokeCert (body : list Z).

Definition route (req : AcmeRequest) : H AcmeReply :=
  match req with
  | Directory => succeed (DirectoryReply (acme_url "new-nonce") (acme_url "new-account") (acme_url "new-order")
                            (acme_url "revoke-cert") (require_eab cfg))
  | NewNonce => succeed NoContent
  | NewAccount body => new_account body
  | NewOrder body => new_order body
  | GetOrder id body => get_order_req id body
  | GetAuthz id body => get_authz id body
  | RespondChallenge id body => respond_challenge id body
  | Finalize id body => finalize id body
  | GetCert id body => get_cert id body
  | RevokeCert body => revoke_cert body
  end.

(** [attach_nonce]: every response carries a fresh nonce, errors included. *)
Definition serve (req : AcmeRequest) (s : AcmeSt) : result AcmeReply AcmeError * option string * AcmeSt :=
  let (r, s) := route req s in
  match new_nonce s with
  | (Ok nonce, s) => (r, Some nonce, s)
  | (Err _, s) => (r, None, s)
  end.
End Server.

(** * The enrollment portal *)

(** The headers the portal reads, when they are text, and the authority of the URI. *)
Record PortalRequest := mkPortalRequest {
  pq_content_type : option string;
  pq_origin : option string;
  pq_host : option string;
  pq_authority : option string;
  pq_body : list Z;
}.

Inductive PortalError := UnsupportedMediaType | CrossOrigin | BadRequest.

(** [eq_ignore_ascii_case]. *)
Definition eq_ignore_case (a b : string) : bool := (to_lowercase a =? to_lowercase b)%string.

Definition is_json_content_type (value : string) : bool :=
  eq_ignore_case (str_trim (default "" (head (split_on ";" value)))) "application/json".

Definition is_browser_extension_origin (origin : string) : bool :=
  let lower := to_lowercase origin in
  starts_with "chrome-extension://" lower || starts_with "moz-extension://" lower ||
  starts_with "safari-web-extension://" lower.

Definition origin_is_self (origin : string) (q : PortalRequest) : bool :=
  if eq_ignore_case origin "null" then false
  else if is_browser_extension_origin origin then true
  else match split_once_str "://" origin with
       | None => false
       | Some (_, origin_authority) =>
           match (match pq_host q with Some h => Some h | None => pq_authority q end) with
           | Some host => eq_ignore_case host origin_authority
           | None => false
           end
       end.

Definition reject_cross_site (q : PortalRequest) : option PortalError :=
  if negb (is_json_content_type (default "" (pq_content_type q))) then Some UnsupportedMediaType
  else match pq_origin q with
       | Some origin => if origin_is_self origin q then None else Some CrossOrigin
       | None => None
       end.

Section Portal.
Context `{SE : !Serde, JO : !Jose, RC : !Rcgen, B64 : !Base64, HX : !Hex}.
Context (cfg : AcmeConfig) (now : Z).

Definition zone_is_managed (s : AcmeDb) (zone : string) : bool :=
  issuance_any cfg ||
  bool_decide (is_Some (find_tld_owner (scopes (a_db s)) zone)) ||
  bool_decide (is_Some (find_managed_zone (zones (a_db s)) zone)) ||
  bool_decide (is_Some (find_authoritative_zone (lists (a_db s)) zone)) ||
  bool_decide (is_Some (get_zone_ca zone (a_tables s))).

Abbreviation PH := (fallible AcmeSt PortalError).

(** Any failure of what the portal calls is a bad request. *)
Definition or_bad {A} (m : H A) : PH A := fun s =>
  match m s with (Ok a, s') => (Ok a, s') | (Err _, s') => (Err BadRequest, s') end.

Definition draw_secret (n : nat) : H (list Z) := fun s =>
  let d := st_db s in
  let s' := mkAcmeSt (mkAcmeDb (a_db d) (a_tables d) (S (a_draws d))) (st_cache s) in
  match random_bytes n (a_draws d) with Some bs => (Ok bs, s') | None => (Err ServerInternal, s') end.

(** The reply names the directory, the zone, the key id and the key. *)
Definition create_account_inner (body : list Z) : PH (string * string * string * string) :=
  zone <-e or_fail (zone_request_of_bytes body) BadRequest;
  let zone := str_trim zone in
  if (zone =? "")%string then fail BadRequest
  else
    managed <-e (fun s => (Ok (zone_is_managed (st_db s) zone), s));
    if negb managed then fail BadRequest
    else
      _ <-e or_bad (db_call ServerInternal (ensure_zone_intermediate now zone));
      _ <-e or_bad flush_dns;
      kid <-e or_bad (random_token 16);
      secret <-e or_bad (draw_secret 32);
      _ <-e or_bad (insert_row (create_eab kid secret (Some zone)));
      succeed (directory_url cfg, zone, kid, b64url_encode secret).

Definition create_account (q : PortalRequest) : PH (string * string * string * string) :=
  match reject_cross_site q with
  | Some e => fail e
  | None => create_account_inner (pq_body q)
  end.

(** ** Its pages *)

Definition get_ca (s : AcmeSt) : option string := fst <$> get_dane_root_ca ROOT_CA_NAME (a_tables (st_db s)).

Definition list_zones (s : AcmeSt) : list string := trim_end_matches "." <$> list_zone_cas (a_tables (st_db s)).

Definition list_certs (zone : option string) (s : AcmeSt) : list (string * Z * Z) :=
  (fun c => (crt_domain c, crt_issued_at c, crt_expires_at c)) <$> list_acme_certificates zone (a_tables (st_db s)).

(** * Calls of the control plane *)

Definition ensure_zone_ca (root_cn zone : string) : H (string * string) :=
  _ <-e db_call ServerInternal (ensure_root_ca now root_cn);
  _ <-e db_call ServerInternal (ensure_zone_intermediate now zone);
  _ <-e flush_dns;
  root <-e db_call ServerInternal root_ca_pem;
  int <-e query (get_zone_ca zone);
  succeed (root, default "" (fst <$> int)).

Definition create_eab_credential (root_cn zone : string) : H (string * string) :=
  _ <-e db_call ServerInternal (ensure_root_ca now root_cn);
  _ <-e db_call ServerInternal (ensure_zone_intermediate now zone);
  _ <-e flush_dns;
  kid <-e random_token 16;
  secret <-e draw_secret 32;
  _ <-e insert_row (create_eab kid secret (Some zone));
  succeed (kid, b64url_encode secret).

Definition remove_eab_credential (kid : string) : H bool := fun s =>
  let (removed, t) := remove_eab kid (a_tables (st_db s)) in
  (Ok removed, mkAcmeSt (set_a_tables t (st_db s)) (st_cache s)).

Definition list_issued (zone : string) (s : AcmeSt) : list (Z * string * Z * Z) :=
  (fun c => (crt_id c, crt_domain c, crt_issued_at c, crt_expires_at c)) <$>
    list_acme_certificates (if (zone =? "")%string then None else Some zone) (a_tables (st_db s)).

(** ** Certificates and challenges by hand *)

(** The numbers of the request are cut to their width. *)
Definition create_tlsa_record (cert_pem domain protocol : string) (port usage selector matching_type : Z) : H string :=
  tlsa <-e or_fail (generate_tlsa_record cert_pem (as_u 8 usage) (as_u 8 selector) (as_u 8 matching_type)) ServerInternal;
  _ <-e db_call ServerInternal (add_row (mkRecord None (tlsa_dns_name domain (as_u 16 port) protocol) TLSA tlsa 3600 0));
  succeed tlsa.

Definition list_tlsa_records (domain : string) (s : AcmeSt) : list DnsRecord :=
  list_records ("*." +:+ domain) (Some TLSA) (a_zones (st_db s)).

Definition create_dane_root_ca (name : string) : H string :=
  ca <-e db_call ServerInternal (generate_dane_root_ca name);
  _ <-e update (store_dane_root_ca name ca.1 ca.2);
  succeed ca.1.

Definition challenge_name (domain : string) : string := "_acme-challenge." +:+ trim_end_matches "." domain.

Definition set_acme_challenge (domain token : string) : D unit :=
  add_row (mkRecord None (challenge_name domain) TXT token 60 0).

Definition clear_acme_challenge (domain : string) : D unit := remove_rows (challenge_name domain) TXT.

Definition request_acme_cert (domain : string) : H unit :=
  db_call ServerInternal (set_acme_challenge domain ("acme-challenge-" +:+ domain)).

Definition get_acme_status (domain : string) (s : AcmeSt) : string * Z * string :=
  match get_acme_certificate domain (a_tables (st_db s)) with
  | Some cert => (if crt_expires_at cert <? now then "expired" else "valid", crt_expires_at cert, domain)
  | None =>
      (match ZoneStore.lookup (a_zones (st_db s)) (challenge_name domain) (Some TXT) with
       | [] => "not_configured" | _ => "pending" end, 0, domain)
  end.
End Portal.
