(* ===== verification/AcmeSample.v ===== *)
(** Instances of the libraries the certificate authority calls that meet their laws,
    and an enrollment from the first nonce to the certificate, on which the theorems
    about runs are tried. *)

From S2P Require Import Prelude RustStr Names Ip Records Rrsig DnsCache ZoneStore Scopes Database Rdata.
From S2P Require Import AcmeStore Ca Acme.
From stdpp Require Import base sets list option strings countable.
From Stdlib Require Import ZArith Lia Bool Ascii.

Open Scope Z_scope.
Local Open Scope rolodex_scope.

(** * Values *)

(** Arrays and objects are chains of items and members. *)
Inductive Json :=
  | JNull | JTrue | JStr (s : string)
  | JEnd | JItem (v rest : Json) | JMember (name : string) (v rest : Json).

#[export] Instance json_eq_dec : EqDecision Json.
Proof. solve_decision. Defined.

Fixpoint json_get (name : string) (v : Json) : option Json :=
  match v with
  | JMember n x rest => if (n =? name)%string then Some x else json_get name rest
  | _ => None
  end.

Fixpoint json_items (v : Json) : option (list Json) :=
  match v with
  | JEnd => Some []
  | JItem x rest => cons x <$> json_items rest
  | _ => None
  end.

Definition json_str (v : Json) : option string := match v with JStr s => Some s | _ => None end.

Fixpoint digits_of (p : positive) : string :=
  match p with xH => "" | xO p => String "0" (digits_of p) | xI p => String "1" (digits_of p) end.

Fixpoint of_digits (s : string) : option positive :=
  match s with
  | EmptyString => Some xH
  | String c s' => (if Ascii.eqb c "0" then xO else xI) <$> of_digits s'
  end.

Lemma of_digits_digits p : of_digits (digits_of p) = Some p.
Proof. induction p as [p IH|p IH|]; simpl; [by rewrite IH..|done]. Qed.

(** * A client *)

(** One key, and what it signs: a header and a payload. *)
Definition client_key : Json := JMember "kty" (JStr "OKP") (JMember "crv" (JStr "Ed25519") (JMember "x" (JStr "07") JEnd)).

Definition signed_with_key (url nonce : string) (payload : Json) : Json * Json :=
  (JMember "alg" (JStr "EdDSA") (JMember "url" (JStr url) (JMember "nonce" (JStr nonce) (JMember "jwk" client_key JEnd))), payload).

Definition signed_for (account url nonce : string) (payload : Json) : Json * Json :=
  (JMember "alg" (JStr "EdDSA") (JMember "url" (JStr url) (JMember "nonce" (JStr nonce)
     (JMember "kid" (JStr ("https://ca.home/acme/account/" +:+ account)) JEnd))), payload).

(** The draws of the generator, in order. *)
Definition drawn (k : nat) : string := hex_encode (repeat 0 (S k)).

(** A binding of the key to a credential, made of the fifth entry below. *)
Definition client_binding : Json :=
  JMember "protected" (JStr (hex_encode [5; 0])) (JMember "payload" (JStr (hex_encode [5; 1]))
    (JMember "signature" (JStr (hex_encode (checksum (str_bytes (hex_encode [5; 0] +:+ "." +:+ hex_encode [5; 1]))))) JEnd)).

(** The bodies a client sends; the octet of a body is its place here. *)
Definition sent : list (Json * Json) := [
  signed_with_key "https://ca.home/acme/new-account" (drawn 2) (JMember "termsOfServiceAgreed" JTrue JEnd);
  signed_for (drawn 3) "https://ca.home/acme/new-order" (drawn 4)
    (JMember "identifiers" (JItem (JMember "type" (JStr "dns") (JMember "value" (JStr "www.home") JEnd)) JEnd) JEnd);
  signed_for (drawn 3) ("https://ca.home/acme/challenge/" +:+ drawn 7) (drawn 9) JEnd;
  signed_for (drawn 3) ("https://ca.home/acme/finalize/" +:+ drawn 5) (drawn 10) (JMember "csr" (JStr "0a") JEnd);
  signed_for (drawn 3) "https://ca.home/acme/cert/1" (drawn 11) JNull;
  (JMember "alg" (JStr "HS256") (JMember "kid" (JStr (drawn 2)) JEnd), client_key);
  signed_with_key "https://ca.home/acme/new-account" (drawn 4) (JMember "externalAccountBinding" client_binding JEnd);
  signed_with_key "https://ca.home/acme/new-account" (drawn 5) (JMember "externalAccountBinding" client_binding JEnd)
].

Definition sent_value (bs : list Z) : option Json :=
  match bs with
  | [i; j] => (if j =? 0 then fst else snd) <$> sent !! Z.to_nat i
  | _ => None
  end.

Definition sent_jws (bs : list Z) : option FlatJws :=
  match bs with
  | [i] =>
      let protected := hex_encode [i; 0] in
      let payload := hex_encode [i; 1] in
      Some (mkJws protected payload (hex_encode (checksum (str_bytes (protected +:+ "." +:+ payload)))))
  | _ => None
  end.

(** * Instances *)

#[export] Instance sample_serde : Serde := {
  Value := Json;
  Null := JNull;
  value_get := json_get;
  value_str := json_str;
  value_bool v := match v with JTrue => Some true | _ => None end;
  value_array := json_items;
  value_of_bytes := sent_value;
  value_of_str s := if (s =? "key")%string then Some client_key else None;
  value_to_str v := if bool_decide (v = client_key) then "key" else "other";
  strings_of_str s := of_digits s ≫= decode;
  strings_to_str l := digits_of (encode l);
  jws_of_bytes := sent_jws;
  zone_request_of_bytes bs := if bool_decide (bs = [1]) then Some "home" else None;
}.

#[export] Instance sample_serde_laws : SerdeLaws.
Proof. intros l. cbn. rewrite of_digits_digits. simpl. apply decode_encode. Qed.

#[export] Instance sample_jose : Jose := {
  b64url_decode := hex_decode;
  b64url_encode := hex_encode;
  verify_ed25519 _ msg sig := bool_decide (sig = checksum msg);
  verify_p256 _ _ _ := false;
  verify_rsa _ _ _ _ := false;
  verify_hmac _ msg sig := bool_decide (sig = checksum msg);
  random_bytes _ k := Some (repeat 0 (S k));
}.

Lemma hex_encode_length bs : String.length (hex_encode bs) = (2 * length bs)%nat.
Proof. induction bs as [|b bs IH]; [done|]. cbn [hex_encode String.length length]. lia. Qed.

#[export] Instance sample_jose_laws : JoseLaws.
Proof.
  intros i j n m bs cs _ _ [= <-] [= <-] E. apply (f_equal String.length) in E. cbn [b64url_encode sample_jose] in E.
  change (0 :: repeat 0 i) with (repeat 0 (S i)) in E. change (0 :: repeat 0 j) with (repeat 0 (S j)) in E.
  rewrite !hex_encode_length, !repeat_length in E. lia.
Qed.

Definition sample_pem (name : string) : string :=
  "-----BEGIN CERTIFICATE-----" +:+ String newline (hex_encode (str_bytes name)) +:+ String newline "-----END CERTIFICATE-----".

#[export] Instance sample_rcgen : Rcgen := {
  CaKey := nat;
  Issuer := string;
  CsrParams := string;
  generate_key k := Some k;
  key_to_pem k := show_dec (Z.of_nat k);
  key_of_pem _ := Some 0%nat;
  self_signed p _ := Some (sample_pem (cp_common_name p));
  dane_self_signed name _ := Some (sample_pem name);
  ca_signed_by p _ _ := Some (sample_pem (cp_common_name p));
  issuer_of_pem pem _ := Some pem;
  csr_of_pem pem := Some pem;
  csr_sans _ := [DnsName "WWW.home."];
  csr_common_name _ := None;
  csr_signed_by csr _ _ _ := Some csr;
  cert_sans _ := [DnsName "WWW.home."];
  cert_common_name _ := None;
  spki_of_der der := Some der;
  sha256 := checksum;
  sha512 := checksum;
}.

#[export] Instance sample_rcgen_laws : RcgenLaws.
Proof. intros csr nb na issuer pem _. done. Qed.

#[export] Existing Instance sample_hex.
#[export] Existing Instance sample_base64.

(** * The enrollment *)

Definition sample_acme : AcmeConfig := mkAcmeConfig "https://ca.home/acme" false false 90 [(443, "tcp")].

Definition fresh_ca : AcmeSt := mkAcmeSt (mkAcmeDb empty_db empty_tables 0) None.

(** The record the client publishes for its challenge. *)
Definition answer : DnsRecord :=
  mkRecord None "_acme-challenge.www.home." TXT
    (dns01_txt_value (key_authorization (drawn 8) (default "" (jwk_thumbprint client_key)))) 60 0.

Definition published (s : AcmeSt) : Database :=
  mkDb (add_record answer (a_zones (st_db s))).2 (scopes (a_db (st_db s))) (lists (a_db (st_db s))).

Definition ca_ready : AcmeSt := (ensure_zone_ca 1000 "Home CA" "home" fresh_ca).2.
Definition with_nonce : AcmeSt := (serve sample_acme 1001 NewNonce ca_ready).2.
Abbreviation enrolled := ((serve sample_acme 1002 (NewAccount [0]) with_nonce).2).
Definition ordered : AcmeSt := (serve sample_acme 1003 (NewOrder [1]) enrolled).2.
Definition answered_dns : AcmeSt := mkAcmeSt (mkAcmeDb (published ordered) (a_tables (st_db ordered)) (a_draws (st_db ordered))) None.
Definition validated : AcmeSt := (serve sample_acme 1005 (RespondChallenge (drawn 7) [2]) answered_dns).2.
Definition issued : AcmeSt := (serve sample_acme 1006 (Finalize (drawn 5) [3]) validated).2.

Example sample_statuses :
  (ord_status <$> acme_orders (a_tables (st_db ordered)), ord_status <$> acme_orders (a_tables (st_db validated)),
   ord_status <$> acme_orders (a_tables (st_db issued)), length (acme_certificates (a_tables (st_db issued)))) =
  (["pending"], ["ready"], ["valid"], 1%nat).
Proof. vm_compute. reflexivity. Qed.

(** An enrollment under a credential, where the server asks for one. *)
Definition strict_acme : AcmeConfig := mkAcmeConfig "https://ca.home/acme" true false 90 [(443, "tcp")].
Definition with_credential : AcmeSt := (create_eab_credential 1000 "Home CA" "home" fresh_ca).2.
Definition strict_nonce : AcmeSt := (serve strict_acme 1001 NewNonce with_credential).2.
Definition strict_enrolled : AcmeSt := (serve strict_acme 1002 (NewAccount [6]) strict_nonce).2.

Example sample_binding :
  (acc_eab_kid <$> acme_accounts (a_tables (st_db strict_enrolled)), acc_zone <$> acme_accounts (a_tables (st_db strict_enrolled)),
   eab_used <$> acme_eab (a_tables (st_db strict_enrolled))) = ([Some (drawn 2)], [Some "home"], [true]).
Proof. vm_compute. reflexivity. Qed.
