(* ===== verification/AcmeFrames.v ===== *)
(** What the operations of the certificate authority leave alone. [moves R m] says
    that [m] only ever takes a state to one related by [R]; the operations that
    touch no row of an enrollment are proved for every relation that allows what
    they do at once, and each handler for every relation that allows its writes. *)

From S2P Require Import Prelude RustStr Names Ip Records Rrsig DnsCache ZoneStore Scopes Database Rdata.
From S2P Require Import AcmeStore Ca Acme.
From stdpp Require Import base sets list option strings.
From Stdlib Require Import ZArith Lia Bool Ascii.

Open Scope Z_scope.
Local Open Scope rolodex_scope.

Abbreviation tables s := (a_tables (st_db s)).
Abbreviation records s := (a_zones (st_db s)).
Abbreviation draws s := (a_draws (st_db s)).
Abbreviation with_tables t s := (mkAcmeSt (set_a_tables t (st_db s)) (st_cache s)).

(** The rows of enrollments, from the accounts to the certificates. *)
Definition rows (t : AcmeTables) :=
  (acme_accounts t, acme_eab t, acme_orders t, acme_authorizations t, acme_challenges t, acme_certificates t).

(** Nonces may go, randomness is drawn, and certificates of the authority and DNS
    data change. *)
Definition db_aside (d d' : AcmeDb) : Prop :=
  rows (a_tables d') = rows (a_tables d) /\ sublist (acme_nonces (a_tables d')) (acme_nonces (a_tables d)) /\
  (a_draws d <= a_draws d')%nat.

Definition aside (s s' : AcmeSt) : Prop := db_aside (st_db s) (st_db s').

#[export] Instance db_aside_preorder : PreOrder db_aside.
Proof.
  split; [done|]. intros x y z (H1 & H2 & H3) (K1 & K2 & K3). split_and!; [congruence|by etrans|lia].
Qed.

Definition moves {S E A} (R : S -> S -> Prop) (m : fallible S E A) : Prop := forall s, R s (m s).2.

Lemma moves_bind {S E A B} (R : S -> S -> Prop) `{!PreOrder R} (m : fallible S E A) (k : A -> fallible S E B) :
  moves R m -> (forall a, moves R (k a)) -> moves R (and_then m k).
Proof.
  intros Hm Hk s. specialize (Hm s). unfold and_then. destruct (m s) as [[a|e] s1]; simpl in *; [|done].
  etrans; [exact Hm|apply Hk].
Qed.

Lemma moves_same {S E A} (R : S -> S -> Prop) `{!PreOrder R} (m : fallible S E A) : (forall s, (m s).2 = s) -> moves R m.
Proof. intros H s. by rewrite H. Qed.

Lemma moves_or_fail {S E A} (R : S -> S -> Prop) `{!PreOrder R} (o : option A) (e : E) : moves R (or_fail o e).
Proof. apply moves_same; [exact _|]. by destruct o. Qed.

Lemma moves_succeed {S E A} (R : S -> S -> Prop) `{!PreOrder R} (a : A) : moves (E := E) R (succeed a).
Proof. by apply moves_same; [exact _|]. Qed.

Lemma moves_fail {S E A} (R : S -> S -> Prop) `{!PreOrder R} (e : E) : moves (A := A) R (fail e).
Proof. by apply moves_same; [exact _|]. Qed.

Lemma moves_if {S E A} (R : S -> S -> Prop) (b : bool) (m1 m2 : fallible S E A) :
  moves R m1 -> moves R m2 -> moves R (if b then m1 else m2).
Proof. by destruct b. Qed.

Lemma moves_option {S E A B} (R : S -> S -> Prop) (o : option B) (m1 : B -> fallible S E A) (m2 : fallible S E A) :
  (forall b, moves R (m1 b)) -> moves R m2 -> moves R (match o with Some b => m1 b | None => m2 end).
Proof. destruct o; auto. Qed.

Create HintDb acme.
#[export] Hint Resolve moves_if moves_option : acme.
#[export] Hint Extern 1 (moves _ (succeed _)) => apply moves_succeed; exact _ : acme.
#[export] Hint Extern 1 (moves _ (fail _)) => apply moves_fail; exact _ : acme.
#[export] Hint Extern 1 (moves _ (or_fail _ _)) => apply moves_or_fail; exact _ : acme.
#[export] Hint Extern 5 (moves _ (and_then _ _)) => apply moves_bind; [exact _| |intros ?] : acme.
#[export] Hint Extern 6 (moves _ (match ?x with _ => _ end)) => destruct x : acme.

(** * The database *)

Section Db.
Context `{RC : !Rcgen, B64 : !Base64, HX : !Hex}.
Context (cfg : AcmeConfig) (now : Z).

Lemma db_aside_eq d d' : rows (a_tables d') = rows (a_tables d) -> acme_nonces (a_tables d') = acme_nonces (a_tables d) ->
  (a_draws d <= a_draws d')%nat -> db_aside d d'.
Proof. intros H1 H2 H3. split_and!; [done|by rewrite H2|done]. Qed.

Hint Extern 8 (moves db_aside _) => by intros ?; apply db_aside_eq : acme.

Lemma moves_for_each {A} (f : A -> fallible AcmeDb string unit) l :
  (forall x, moves db_aside (f x)) -> moves db_aside (for_each f l).
Proof. intros Hf. induction l as [|x l IH]; cbn [for_each]; auto with acme. Qed.
Hint Resolve moves_for_each : acme.

Lemma moves_key : moves db_aside ed25519_key.
Proof. intros s. unfold ed25519_key. destruct (generate_key _); apply db_aside_eq; simpl; auto. Qed.

Lemma moves_publish_one a b c d : moves db_aside (publish_one a b c d).
Proof. unfold publish_one. auto 8 with acme. Qed.
Hint Resolve moves_key moves_publish_one : acme.

Lemma moves_root_pem : moves db_aside root_ca_pem.
Proof. unfold root_ca_pem. auto 12 with acme. Qed.
Hint Resolve moves_root_pem : acme.

Lemma moves_publish_ca zone : moves db_aside (publish_ca_dns_records zone).
Proof. unfold publish_ca_dns_records. auto 20 with acme. Qed.
Hint Resolve moves_publish_ca : acme.

Lemma moves_load_root : moves db_aside load_root.
Proof. unfold load_root, materialize_issuer. auto 12 with acme. Qed.
Hint Resolve moves_load_root : acme.

Lemma moves_ensure zone : moves db_aside (ensure_zone_intermediate now zone).
Proof. unfold ensure_zone_intermediate. auto 20 with acme. Qed.

Lemma moves_root cn : moves db_aside (ensure_root_ca now cn).
Proof. unfold ensure_root_ca. auto 12 with acme. Qed.

Lemma moves_dane zone names : moves db_aside (publish_dane cfg zone names).
Proof. unfold publish_dane, intermediate_tlsa. auto 12 with acme. Qed.

Lemma moves_issue zone csr days names : moves db_aside (issue_leaf now zone csr days names).
Proof. unfold issue_leaf, materialize_issuer. auto 20 with acme. Qed.
End Db.

(** * Handlers *)

(** A relation that allows what the operations do at once. *)
Class Covers (R : AcmeSt -> AcmeSt -> Prop) : Prop := {
  covers_preorder :: PreOrder R;
  covers_aside s s' : aside s s' -> R s s';
}.

#[export] Instance aside_covers : Covers aside.
Proof.
  split; [|done]. unfold aside. split; [intros s; reflexivity|]. intros x y z H1 H2. by etrans.
Qed.

Section Handlers.
Context `{SE : !Serde, JO : !Jose, RC : !Rcgen, B64 : !Base64, HX : !Hex}.
Context (cfg : AcmeConfig) (now : Z).
Context (R : AcmeSt -> AcmeSt -> Prop) `{CV : !Covers R}.

Lemma moves_aside {E A} (m : fallible AcmeSt E A) : moves aside m -> moves R m.
Proof. intros H s. apply covers_aside, H. Qed.

Lemma moves_db_call {A} e (m : fallible AcmeDb string A) : moves db_aside m -> moves R (db_call e m).
Proof.
  intros Hm. apply moves_aside. intros s. specialize (Hm (st_db s)). unfold db_call. by destruct (m (st_db s)) as [[a|err] d].
Qed.

Lemma moves_query {A} (f : AcmeTables -> A) : moves R (query f).
Proof. by apply moves_same; [apply CV|]. Qed.

Lemma moves_flush : moves R flush_dns.
Proof. apply moves_aside. intros s. by apply db_aside_eq. Qed.

Lemma moves_token n : moves R (random_token n).
Proof. apply moves_aside. intros s. unfold random_token. destruct (random_bytes _ _); apply db_aside_eq; simpl; auto. Qed.

Lemma moves_secret n : moves R (draw_secret n).
Proof. apply moves_aside. intros s. unfold draw_secret. destruct (random_bytes _ _); apply db_aside_eq; simpl; auto. Qed.

Lemma moves_take n : moves R (take_nonce now n).
Proof. apply moves_aside. intros s. split_and!; [done| |done]. apply filter_sublist. Qed.

Hint Resolve moves_db_call moves_ensure moves_root moves_root_pem moves_dane moves_issue moves_query moves_flush moves_token
  moves_secret moves_take : acme.

Lemma moves_vkey jwk kid : moves R (verification_key jwk kid).
Proof. unfold verification_key. auto 12 with acme. Qed.
Hint Resolve moves_vkey : acme.

Lemma moves_verify body url : moves R (verify_request now body url).
Proof. unfold verify_request. auto 30 with acme. Qed.
Hint Resolve moves_verify : acme.

Lemma moves_account body url : moves R (verify_account now body url).
Proof. unfold verify_account. auto 10 with acme. Qed.

Lemma moves_issuable a name : moves R (check_issuable cfg now a name).
Proof. unfold check_issuable. auto 12 with acme. Qed.
Hint Resolve moves_account moves_issuable : acme.

Lemma moves_order_names a ids : moves R (order_names cfg now a ids).
Proof. induction ids as [|id ids IH]; cbn [order_names]; auto 10 with acme. Qed.

Lemma moves_issuing_zone a names : moves R (issuing_zone cfg now a names).
Proof. induction names as [|n names IH]; cbn [issuing_zone]; auto 10 with acme. Qed.

Lemma moves_order_json o : moves R (order_json cfg o).
Proof. unfold order_json. auto 10 with acme. Qed.
Hint Resolve moves_order_names moves_issuing_zone moves_order_json : acme.

Lemma moves_or_bad {A} (m : fallible AcmeSt AcmeError A) : moves R m -> moves R (or_bad m).
Proof. intros Hm s. specialize (Hm s). unfold or_bad. by destruct (m s) as [[a|e] s1]. Qed.
Hint Resolve moves_or_bad : acme.

Lemma moves_update f : (forall s, R s (with_tables (f (tables s)) s)) -> moves R (update f).
Proof. intros H s. apply H. Qed.

Lemma moves_insert f : (forall s t, f (tables s) = Some t -> R s (with_tables t s)) -> moves R (insert_row f).
Proof. intros H s. unfold insert_row. destruct (f (tables s)) as [t|] eqn:E; [by apply H|]. apply CV. Qed.

(** ** Requests that change nothing else *)

Lemma moves_reads req :
  match req with NewAccount _ | NewOrder _ | RespondChallenge _ _ | Finalize _ _ => True | _ => moves R (route cfg now req) end.
Proof.
  destruct req; try exact I; cbn [route]; auto with acme.
  - unfold get_order_req. auto 20 with acme.
  - unfold get_authz. auto 20 with acme.
  - unfold get_cert. auto 20 with acme.
  - unfold revoke_cert. auto 20 with acme.
Qed.

Lemma moves_zone_ca cn zone : moves R (ensure_zone_ca now cn zone).
Proof. unfold ensure_zone_ca. auto 15 with acme. Qed.

Lemma moves_dane_root name : moves R (create_dane_root_ca name).
Proof.
  assert (moves db_aside (generate_dane_root_ca name)) as H.
  { unfold generate_dane_root_ca. pose proof moves_key. auto 10 with acme. }
  unfold create_dane_root_ca. apply moves_bind; [exact _|auto with acme|]. intros ca. apply moves_bind; [exact _| |auto with acme].
  apply moves_aside. intros s. by apply db_aside_eq.
Qed.

(** ** Requests that write *)

Lemma moves_external v : (forall kid, moves R (update (mark_eab_used kid))) -> moves R (bind_external cfg now v).
Proof. intros H1. unfold bind_external. auto 30 with acme. Qed.

Lemma moves_new_account body :
  (forall kid, moves R (update (mark_eab_used kid))) -> (forall a, moves R (insert_row (create_acme_account a))) ->
  moves R (new_account cfg now body).
Proof. intros H1 H2. pose proof moves_external. unfold new_account. auto 20 with acme. Qed.

Lemma moves_authzs account order_id expires names :
  (forall a, moves R (insert_row (create_authorization a))) -> (forall c, moves R (insert_row (create_challenge c))) ->
  moves R (create_authzs account order_id expires names).
Proof. intros H1 H2. induction names as [|n names IH]; cbn [create_authzs]; auto 20 with acme. Qed.

Lemma moves_new_order body :
  (forall a, moves R (insert_row (create_authorization a))) -> (forall c, moves R (insert_row (create_challenge c))) ->
  (forall o, moves R (insert_row (create_order o))) -> moves R (new_order cfg now body).
Proof. intros H1 H2 H3. pose proof moves_authzs. unfold new_order. auto 20 with acme. Qed.

Lemma moves_advance id : (forall i st c, moves R (update (update_order i st c))) -> moves R (maybe_advance_order id).
Proof. intros H1. unfold maybe_advance_order. auto 15 with acme. Qed.

Lemma moves_respond id body :
  (forall i st c, moves R (update (update_order i st c))) -> (forall i st at_, moves R (update (update_challenge_status i st at_))) ->
  (forall i st, moves R (update (update_authorization_status i st))) -> moves R (respond_challenge cfg now id body).
Proof.
  intros H1 H2 H3. pose proof moves_advance. unfold respond_challenge.
  assert (forall f, moves (A := bool) (E := AcmeError) R (fun s => (Ok (f s), s))) as H4 by (intros f; by apply moves_same; [apply CV|]).
  auto 30 with acme.
Qed.

Lemma moves_finalize id body :
  (forall i st c, moves R (update (update_order i st c))) ->
  (forall s dom cert chain exp, R s (with_tables (store_acme_certificate now dom cert "" chain exp (tables s)).2 s)) ->
  moves R (finalize cfg now id body).
Proof.
  intros H1 H2. unfold finalize.
  assert (forall dom cert chain exp, moves (A := Z) (E := AcmeError) R (fun s =>
      let (cert_id, t) := store_acme_certificate now dom cert "" chain exp (tables s) in (Ok cert_id, with_tables t s))) as H3.
  { intros dom cert chain exp s. apply H2. }
  auto 40 with acme.
Qed.

Lemma moves_portal q : (forall kid secret zone, moves R (insert_row (create_eab kid secret zone))) -> moves R (create_account cfg now q).
Proof.
  intros H1. unfold create_account, create_account_inner.
  assert (forall f, moves (A := bool) (E := PortalError) R (fun s => (Ok (f s), s))) as H4 by (intros f; by apply moves_same; [apply CV|]).
  auto 40 with acme.
Qed.

Lemma moves_credential cn zone :
  (forall kid secret zone, moves R (insert_row (create_eab kid secret zone))) -> moves R (create_eab_credential now cn zone).
Proof. intros H1. unfold create_eab_credential. auto 20 with acme. Qed.
End Handlers.

#[export] Hint Resolve moves_ensure moves_root moves_root_pem moves_dane moves_issue : acme.
#[export] Hint Extern 2 (moves _ (db_call _ _)) => apply moves_db_call; [exact _|] : acme.
#[export] Hint Extern 2 (moves _ (or_bad _)) => apply moves_or_bad : acme.
#[export] Hint Extern 2 (moves _ _) =>
  first [apply moves_query | apply moves_flush | apply moves_token | apply moves_secret | apply moves_take | apply moves_vkey |
         apply moves_verify | apply moves_account | apply moves_issuable | apply moves_order_names | apply moves_issuing_zone |
         apply moves_order_json | apply moves_zone_ca]; exact _ : acme.
