(* ===== verification/AcmeProofs.v ===== *)
(** What the certificate authority promises over whole runs: which names a
    certificate may carry, whose orders are whose, and that nothing can be replayed.
    A run interleaves requests to the ACME server and the portal, calls of the
    control plane, and any change of the DNS data by others, at times that do not go
    back. *)

From S2P Require Import Prelude RustStr Names Ip Records Rrsig DnsCache ZoneStore Scopes Database Rdata.
From S2P Require Import AcmeStore Ca Acme AcmeSample AcmeFrames.
From stdpp Require Import base sets list option strings.
From Stdlib Require Import ZArith Lia Bool Ascii.

Open Scope Z_scope.
Local Open Scope rolodex_scope.

(** * Runs *)

Section Runs.
Context `{SE : !Serde, JO : !Jose, RC : !Rcgen, B64 : !Base64, HX : !Hex}.
Context (cfg : AcmeConfig) (root_cn : string).

Inductive acme_step (now : Z) (s : AcmeSt) : AcmeSt -> Prop :=
| step_serve req : acme_step now s (serve cfg now req s).2
| step_portal q : acme_step now s (create_account cfg now q s).2
| step_zone_ca zone : acme_step now s (ensure_zone_ca now root_cn zone s).2
| step_credential zone : acme_step now s (create_eab_credential now root_cn zone s).2
| step_dane_root name : acme_step now s (create_dane_root_ca name s).2
| step_withdraw kid : acme_step now s (remove_eab_credential kid s).2
| step_dns db cache : acme_step now s (mkAcmeSt (mkAcmeDb db (tables s) (a_draws (st_db s))) cache).

(** The moments of a run, the last first: each with the state that was found. *)
Abbreviation History := (list (Z * AcmeSt)).

Inductive run : History -> Z -> AcmeSt -> Prop :=
| run_start now db cache draws : run [] now (mkAcmeSt (mkAcmeDb db empty_tables draws) cache)
| run_step h now now' s s' : run h now s -> now <= now' -> acme_step now' s s' -> run ((now', s) :: h) now' s'.

(** * Reasoning about handlers *)

(** A handler that starts where the invariant and [P] hold keeps the invariant, and
    gives [Q] when it succeeds. *)
Definition hoare {E A} (I P : AcmeSt -> Prop) (m : fallible AcmeSt E A) (Q : A -> AcmeSt -> Prop) : Prop :=
  forall s, I s -> P s -> I (m s).2 /\ forall a, (m s).1 = Ok a -> Q a (m s).2.

Section Rules.
Context {E : Type} (I : AcmeSt -> Prop).
Implicit Types P : AcmeSt -> Prop.

Lemma h_ret {A} P (a : A) (Q : A -> AcmeSt -> Prop) : (forall s, I s -> P s -> Q a s) -> hoare (E := E) I P (succeed a) Q.
Proof. intros H s Hi Hp. split; [done|]. intros a' [= <-]. by apply H. Qed.

Lemma h_fail {A} P (e : E) (Q : A -> AcmeSt -> Prop) : hoare I P (fail e) Q.
Proof. intros s Hi Hp. by split. Qed.

Lemma h_bind {A B} P (m : fallible AcmeSt E A) (k : A -> fallible AcmeSt E B) R Q :
  hoare I P m R -> (forall a, hoare I (R a) (k a) Q) -> hoare I P (and_then m k) Q.
Proof.
  intros Hm Hk s Hi Hp. destruct (Hm s Hi Hp) as [H1 H2]. unfold and_then.
  destruct (m s) as [[a|e] s1]; simpl in *; [|by split]. by apply Hk; [|apply H2].
Qed.

Lemma h_some {A} P (o : option A) (e : E) Q : (forall a s, o = Some a -> I s -> P s -> Q a s) -> hoare I P (or_fail o e) Q.
Proof. intros H. unfold or_fail. destruct o as [a|]; [apply h_ret; auto|apply h_fail]. Qed.

Lemma h_if {A} P (b : bool) (m1 m2 : fallible AcmeSt E A) Q :
  (b = true -> hoare I P m1 Q) -> (b = false -> hoare I P m2 Q) -> hoare I P (if b then m1 else m2) Q.
Proof. destruct b; auto. Qed.

Lemma h_pre {A} P P' (m : fallible AcmeSt E A) Q : (forall s, I s -> P s -> P' s) -> hoare I P' m Q -> hoare I P m Q.
Proof. intros H Hm s Hi Hp. apply Hm; auto. Qed.

Lemma h_post {A} P (m : fallible AcmeSt E A) (Q Q' : A -> AcmeSt -> Prop) :
  (forall a s, I s -> Q a s -> Q' a s) -> hoare I P m Q -> hoare I P m Q'.
Proof. intros H Hm s Hi Hp. destruct (Hm s Hi Hp) as [H1 H2]. split; [done|]. intros a Ha. apply H; auto. Qed.

Lemma h_pure {A} (p : Prop) P (m : fallible AcmeSt E A) Q :
  (p -> hoare I P m Q) -> hoare I (fun s => p /\ P s) m Q.
Proof. intros H s Hi [Hp HP]. by apply H. Qed.
End Rules.

Lemma h_query {A} (f : AcmeTables -> A) I P (Q : A -> AcmeSt -> Prop) :
  (forall s, I s -> P s -> Q (f (tables s)) s) -> hoare I P (query f) Q.
Proof. intros H s Hi Hp. split; [done|]. intros a [= <-]. by apply H. Qed.

Lemma h_update f I P (Q : unit -> AcmeSt -> Prop) :
  (forall s, I s -> P s -> let s' := mkAcmeSt (set_a_tables (f (tables s)) (st_db s)) (st_cache s) in I s' /\ Q tt s') ->
  hoare I P (update f) Q.
Proof. intros H s Hi Hp. destruct (H s Hi Hp) as [H1 H2]. split; [done|]. by intros [] _. Qed.

Lemma h_insert f I P (Q : unit -> AcmeSt -> Prop) :
  (forall s t, f (tables s) = Some t -> I s -> P s ->
     let s' := mkAcmeSt (set_a_tables t (st_db s)) (st_cache s) in I s' /\ Q tt s') ->
  hoare I P (insert_row f) Q.
Proof.
  intros H s Hi Hp. unfold insert_row. destruct (f (tables s)) as [t|] eqn:E; simpl; [|by split].
  destruct (H s t E Hi Hp) as [H1 H2]. split; [done|]. by intros [] _.
Qed.

(** ** What most operations leave alone *)

(** The accounts, orders, authorizations and certificates. *)
Definition core (s : AcmeSt) :=
  (acme_accounts (tables s), acme_orders (tables s), acme_authorizations (tables s), acme_certificates (tables s)).

Definition same_core (s s' : AcmeSt) : Prop := core s' = core s.

#[local] Instance same_core_covers : Covers same_core.
Proof.
  split; [split; [done|intros x y z; unfold same_core; congruence]|].
  intros s s' ([= E1 _ E2 E3 _ E4] & _). unfold same_core, core. by rewrite E1, E2, E3, E4.
Qed.

Abbreviation framed m := (moves same_core m).

Lemma framed_mark kid : framed (update (mark_eab_used kid)).
Proof. by intros s. Qed.

Lemma framed_create_eab kid secret zone : framed (insert_row (create_eab kid secret zone)).
Proof. intros s. unfold insert_row, create_eab. by destruct (row_insert _ _ _). Qed.

Lemma framed_create_challenge c : framed (insert_row (create_challenge c)).
Proof. intros s. unfold insert_row, create_challenge. by destruct (row_insert _ _ _). Qed.

Lemma framed_challenge_status id status at_ : framed (update (update_challenge_status id status at_)).
Proof. by intros s. Qed.

Lemma framed_nonce now : framed (new_nonce now).
Proof. apply moves_bind; [exact _|auto with acme|]. intros n. apply moves_bind; [exact _|by intros s|auto with acme]. Qed.

Lemma framed_external now v : framed (bind_external cfg now v).
Proof. apply moves_external; [exact _|apply framed_mark]. Qed.

#[local] Hint Resolve framed_create_challenge framed_challenge_status framed_external : acme.

(** A framed operation keeps what only depends on the core. *)
Definition on_core (P : AcmeSt -> Prop) : Prop := forall s s', core s' = core s -> P s -> P s'.

Lemma h_framed {E A} I P (m : fallible AcmeSt E A) : framed m -> on_core I -> on_core P -> hoare I P m (fun _ => P).
Proof. intros Hm HI HP s Hi Hp. specialize (Hm s). split; [by eapply HI|]. intros a _. by eapply HP. Qed.

(** * What is proved of a name *)

(** The text of a host's name: two or more labels of letters, digits, hyphens and
    underscores, with or without the final dot. *)
Definition host_char (c : ascii) : bool :=
  let n := nat_of_ascii c in
  ((48 <=? n) && (n <=? 57) || (65 <=? n) && (n <=? 90) || (97 <=? n) && (n <=? 122) || (n =? 45) || (n =? 95))%nat.

Definition hostname (cn : string) : Prop :=
  exists ls, (2 <= length ls)%nat /\ Forall (fun l => l <> "" /\ str_forall host_char l = true) ls /\
    (cn = str_join "." ls \/ cn = str_join "." ls +:+ ".").

(** The DNS names a certificate asserts: all its alternative names of the DNS kind,
    and a common name that is a host's name. *)
Definition asserts (pem dns : string) : Prop :=
  DnsName dns ∈ cert_sans pem \/
  exists v, cert_common_name pem = Some v /\ dn_value_str v = Some dns /\ hostname dns.

Lemma host_name_char c : host_char c = true -> name_char c = true /\ c <> "."%char.
Proof. destruct c as [[] [] [] [] [] [] [] []]; vm_compute; intros H; split; congruence. Qed.

Lemma host_label_free l : str_forall host_char l = true -> free_of "." l = true /\ str_forall name_char l = true.
Proof.
  induction l as [|c l IH]; [done|]. cbn. intros [Hc Hl]%andb_true_iff. destruct (IH Hl) as [H1 H2].
  destruct (host_name_char c Hc) as [H3 H4]. rewrite H3, H2. unfold free_of in H1. cbn in H1. rewrite H1.
  split; [|done]. apply andb_true_iff. split; [|done]. by apply negb_true_iff, Ascii.eqb_neq.
Qed.

Lemma host_join_ends ls :
  ls <> [] -> Forall (fun l => l <> "" /\ str_forall host_char l = true) ls ->
  ends_with_char "." (str_join "." ls) = false /\ str_join "." ls <> "".
Proof.
  induction ls as [|l ls IH]; intros Hne Hls; [done|]. apply Forall_cons in Hls as [[H0 H1] H2].
  destruct ls as [|l' ls].
  - split; [|done]. by apply free_of_ends, host_label_free.
  - destruct (IH ltac:(done) H2) as [He Hn]. rewrite join_cons by done. split; [|by destruct l].
    rewrite <- app_assoc_str. by rewrite ends_with_char_app_r.
Qed.

(** The source's test takes every host's name for one. *)
Lemma hostname_looks cn : hostname cn -> looks_like_dns_name cn = true.
Proof.
  intros (ls & Hn & Hls & Hcn). assert (ls <> []) as Hne by (by destruct ls; [simpl in Hn; lia|]).
  destruct (host_join_ends ls Hne Hls) as [He Hj]. unfold looks_like_dns_name.
  assert (trim_end_matches "." cn = str_join "." ls) as ->.
  { destruct Hcn as [-> | ->]; [|rewrite trim_end_snoc]; by apply trim_end_id. }
  rewrite split_join by (done || (eapply Forall_impl; [exact Hls|]; intros l [_ H]; by apply host_label_free)).
  apply String.eqb_neq in Hj as ->. cbn [negb andb]. apply andb_true_iff. split.
  - destruct ls as [|l [|l' ls]]; [done|simpl in Hn; lia|]. rewrite join_cons by done.
    by rewrite !free_of_app, !andb_false_r.
  - apply forallb_forall. intros l Hl%list_elem_of_In. rewrite Forall_forall in Hls. destruct (Hls l Hl) as [H1 H2].
    apply String.eqb_neq in H1 as ->. by apply host_label_free in H2 as [_ ->].
Qed.

(** At some moment the record of the name held the answer to a challenge that was
    set to this account for this name. *)
Definition answered (h : History) (account : AcmeAccount) (name : string) (t : Z) : Prop :=
  exists s0 id c a, (t, s0) ∈ h /\
    get_acme_account (acc_id account) (tables s0) = Some account /\
    get_challenge id (tables s0) = Some c /\ get_authorization (ch_authz_id c) (tables s0) = Some a /\
    az_account_id a = acc_id account /\ az_identifier a = name /\
    challenge_met (records s0) name (ch_token c) (acc_thumbprint account) = true.

(** It was within the lifetime of the authorization. *)
Definition proved (h : History) (account : AcmeAccount) (name : string) (expires : Z) : Prop :=
  exists t, expires - ORDER_TTL_SECS <= t < expires /\ answered h account name t.

Definition proved_by (h : History) (s : AcmeSt) (account_id name : string) (expires : Z) : Prop :=
  exists account, get_acme_account account_id (tables s) = Some account /\ proved h account name expires.

Definition in_zone_of (account : AcmeAccount) (name : string) : Prop :=
  match acc_zone account with Some zone => encloses (normalize_name zone) (normalize_name name) = true | None => True end.

(** The answer was there at most the lifetime of an order before a time. *)
Definition proved_at (h : History) (account : AcmeAccount) (name : string) (at_ : Z) : Prop :=
  exists t, t <= at_ < t + ORDER_TTL_SECS /\ answered h account name t.

(** A certificate asserts only names its account proved before it was issued, within
    its zone. *)
Definition warranted (h : History) (s : AcmeSt) (crt : AcmeCertRow) : Prop :=
  exists account names,
    get_acme_account (acc_id account) (tables s) = Some account /\
    Forall (fun n => proved_at h account n (crt_issued_at crt) /\ in_zone_of account n) names /\
    forall dns, asserts (crt_cert_pem crt) dns -> normalize_name dns ∈ normalize_name <$> names.

(** The rows of an order's authorizations are for its names and its account. *)
Definition order_rows (t : AcmeTables) (o : AcmeOrder) (names ids : list string) : Prop :=
  strings_of_str (ord_identifiers o) = Some names /\ strings_of_str (ord_authorizations o) = Some ids /\
  Forall2 (fun n i => exists a, get_authorization i t = Some a /\ az_account_id a = ord_account_id o /\
    az_identifier a = n /\ az_expires_at a = ord_expires_at o) names ids.

Record inv (h : History) (now : Z) (s : AcmeSt) : Prop := {
  i_authz id a : get_authorization id (tables s) = Some a ->
    az_expires_at a <= now + ORDER_TTL_SECS /\
    (az_status a = "valid" -> proved_by h s (az_account_id a) (az_identifier a) (az_expires_at a));
  i_order id o : get_order id (tables s) = Some o ->
    exists names ids, order_rows (tables s) o names ids /\
      (ord_status o = "ready" \/ ord_status o = "valid" ->
       Forall (fun n => proved_by h s (ord_account_id o) n (ord_expires_at o)) names);
  i_cert crt : crt ∈ acme_certificates (tables s) -> warranted h s crt;
  i_past t s0 : (t, s0) ∈ h -> t <= now;
}.

Lemma answered_later h m account name t : answered h account name t -> answered (m :: h) account name t.
Proof. intros (s0 & id & c & a & Hin & H). exists s0, id, c, a. split; [by right|done]. Qed.

Lemma proved_later h m account name expires : proved h account name expires -> proved (m :: h) account name expires.
Proof. intros (t & Ht & Ha). exists t. split; [done|]. by apply answered_later. Qed.

(** What was established of a state holds of one with more history and more accounts. *)
Definition extends (s s' : AcmeSt) : Prop :=
  forall id account, get_acme_account id (tables s) = Some account -> get_acme_account id (tables s') = Some account.

Lemma proved_by_extends h s s' id name expires : extends s s' -> proved_by h s id name expires -> proved_by h s' id name expires.
Proof. intros He (a & Ha & Hp). exists a. auto. Qed.

Lemma warranted_extends h s s' crt : extends s s' -> warranted h s crt -> warranted h s' crt.
Proof. intros He (a & names & H1 & H2). exists a, names. auto. Qed.

Lemma extends_core s s' : core s' = core s -> extends s s'.
Proof. intros [= E _ _ _] id a. unfold get_acme_account. by rewrite E. Qed.

Lemma inv_later h s0 now now' s : now <= now' -> inv h now s -> inv ((now', s0) :: h) now' s.
Proof.
  intros Hle [H1 H2 H3 H4]. assert (forall id n e, proved_by h s id n e -> proved_by ((now', s0) :: h) s id n e) as Hm.
  { intros id n e (a & Ha & Hp). exists a. split; [done|]. by apply proved_later. }
  split.
  - intros id a Ha. destruct (H1 id a Ha) as [Hx Hv]. split; [lia|]. intros E. apply Hm, Hv, E.
  - intros id o Ho. destruct (H2 id o Ho) as (names & ids & Hr & Hv). exists names, ids. split; [done|].
    intros Hs. eapply Forall_impl; [by apply Hv|]. intros n. apply Hm.
  - intros crt Hc. destruct (H3 crt Hc) as (a & names & Ha & Hp & Hn). exists a, names. split_and!; try done.
    eapply Forall_impl; [exact Hp|]. intros n [(t & Ht & Hans) Hz]. split; [|done]. exists t. split; [done|]. by apply answered_later.
  - intros t x [[= -> _]|Hin]%elem_of_cons; [done|]. specialize (H4 t x Hin). lia.
Qed.

Lemma inv_core h now : on_core (inv h now).
Proof.
  intros s s' E [H1 H2 H3 H4]. pose proof (extends_core s s' E) as Hx. injection E as E1 E2 E3 E5.
  assert (forall id, get_authorization id (tables s') = get_authorization id (tables s)) as Ea by (intros; unfold get_authorization; by rewrite E3).
  split.
  - intros id a Ha. rewrite Ea in Ha. destruct (H1 id a Ha) as [Hb Hv]. split; [done|]. intros Hs. eapply proved_by_extends; eauto.
  - intros id o Ho. unfold get_order in Ho. rewrite E2 in Ho. destruct (H2 id o Ho) as (names & ids & (Hr1 & Hr2 & Hr3) & Hv).
    exists names, ids. split.
    + split_and!; [done..|]. eapply Forall2_impl; [exact Hr3|]. intros n i (a & Ha & Hrest). exists a. by rewrite Ea.
    + intros Hs. eapply Forall_impl; [by apply Hv|]. intros n. by apply proved_by_extends.
  - intros crt Hc. rewrite E5 in Hc. eapply warranted_extends; eauto.
  - exact H4.
Qed.

Lemma true_core : on_core (fun _ => True).
Proof. done. Qed.

Lemma account_core a : on_core (fun s => get_acme_account (acc_id a) (tables s) = Some a).
Proof. intros s s' E. by apply extends_core. Qed.

(** ** Rows that are added and changed *)

Lemma get_account_insert a t t' id :
  create_acme_account a t = Some t' ->
  t' = set_accounts (acme_accounts t') t /\
  (forall account, get_acme_account id t = Some account -> get_acme_account id t' = Some account).
Proof.
  unfold create_acme_account, get_acme_account. destruct (row_insert acc_id a (acme_accounts t)) as [x|] eqn:E; [|done].
  intros [= <-]. split; [done|]. intros account Ha. simpl. rewrite (row_get_insert _ _ _ _ id E).
  destruct (String.eqb_spec (acc_id a) id) as [<-|]; [|done]. unfold row_insert in E. by rewrite Ha in E.
Qed.

Lemma inv_add_account h now a s t' : create_acme_account a (tables s) = Some t' -> inv h now s -> inv h now (with_tables t' s).
Proof.
  intros Hc [H1 H2 H3 H4]. assert (extends s (with_tables t' s)) as He.
  { intros id account. apply (get_account_insert _ _ _ id Hc). }
  destruct (get_account_insert a (tables s) t' "" Hc) as [-> _].
  split.
  - intros id z Hz. destruct (H1 id z Hz) as [Hb Hv]. split; [done|]. intros E. eapply proved_by_extends; eauto.
  - intros id o Ho. destruct (H2 id o Ho) as (names & ids & Hr & Hv). exists names, ids. split; [done|].
    intros E. eapply Forall_impl; [by apply Hv|]. intros n. by apply proved_by_extends.
  - intros crt Hin. eapply warranted_extends; eauto.
  - exact H4.
Qed.

(** Rows of authorizations that keep their names, accounts and lifetimes. *)
Definition authz_kept (t t' : AcmeTables) : Prop :=
  forall id a, get_authorization id t = Some a -> exists a', get_authorization id t' = Some a' /\
    az_account_id a' = az_account_id a /\ az_identifier a' = az_identifier a /\ az_expires_at a' = az_expires_at a.

Lemma order_rows_kept t t' o names ids : authz_kept t t' -> order_rows t o names ids -> order_rows t' o names ids.
Proof.
  intros Hk (H1 & H2 & H3). split_and!; [done..|]. eapply Forall2_impl; [exact H3|].
  intros n i (a & Ha & E1 & E2 & E3). destruct (Hk i a Ha) as (a' & Ha' & F1 & F2 & F3). exists a'. split_and!; congruence.
Qed.

Lemma inv_authorizations h now s x :
  authz_kept (tables s) (set_authorizations x (tables s)) ->
  (forall id a, get_authorization id (set_authorizations x (tables s)) = Some a ->
     az_expires_at a <= now + ORDER_TTL_SECS /\
     (az_status a = "valid" -> proved_by h s (az_account_id a) (az_identifier a) (az_expires_at a))) ->
  inv h now s -> inv h now (with_tables (set_authorizations x (tables s)) s).
Proof.
  intros Hk Ha [H1 H2 H3 H4]. split; [exact Ha| |exact H3|exact H4]. intros id o Ho. destruct (H2 id o Ho) as (names & ids & Hr & Hv).
  exists names, ids. split; [by eapply order_rows_kept|exact Hv].
Qed.

Lemma create_authorization_get a t t' id :
  create_authorization a t = Some t' ->
  t' = set_authorizations (acme_authorizations t') t /\
  get_authorization id t' = (if (az_id a =? id)%string then Some a else get_authorization id t) /\ get_authorization (az_id a) t = None.
Proof.
  unfold create_authorization, get_authorization. destruct (row_insert az_id a (acme_authorizations t)) as [x|] eqn:E; [|done].
  intros [= <-]. split_and!; [done|exact (row_get_insert _ _ _ _ id E)|]. unfold row_insert in E.
  by destruct (row_get az_id (az_id a) (acme_authorizations t)).
Qed.

Lemma inv_add_authz h now a s t' :
  az_status a = "pending" -> az_expires_at a <= now + ORDER_TTL_SECS ->
  create_authorization a (tables s) = Some t' -> inv h now s -> inv h now (with_tables t' s) /\ authz_kept (tables s) t'.
Proof.
  intros Hs He Hc Hi. destruct (create_authorization_get a _ _ (az_id a) Hc) as (E & _ & Hnone).
  assert (authz_kept (tables s) t') as Hk.
  { intros id b Hb. destruct (create_authorization_get a _ _ id Hc) as (_ & -> & _). exists b.
    destruct (String.eqb_spec (az_id a) id) as [<-|]; [congruence|]. done. }
  split; [|done]. rewrite E. apply inv_authorizations; [by rewrite <- E| |done]. rewrite <- E. intros id b.
  destruct (create_authorization_get a _ _ id Hc) as (_ & -> & _).
  destruct (String.eqb_spec (az_id a) id) as [<-|]; [|apply Hi]. intros [= <-]. split; [done|]. congruence.
Qed.

Lemma inv_authz_status h now id status s :
  (status = "valid" -> forall a, get_authorization id (tables s) = Some a ->
     proved_by h s (az_account_id a) (az_identifier a) (az_expires_at a)) ->
  inv h now s -> inv h now (with_tables (update_authorization_status id status (tables s)) s).
Proof.
  intros Hv Hi. unfold update_authorization_status.
  assert (forall k, get_authorization k (set_authorizations (row_update az_id id (with_authz_status status)
    (acme_authorizations (tables s))) (tables s)) =
    if (id =? k)%string then with_authz_status status <$> get_authorization k (tables s) else get_authorization k (tables s)) as Hg.
  { intros k. apply row_get_update. done. }
  apply inv_authorizations; [| |done].
  - intros k a Ha. rewrite Hg, Ha. destruct (id =? k)%string; simpl; by eexists.
  - intros k a. rewrite Hg. destruct (String.eqb_spec id k) as [<-|]; [|apply Hi].
    destruct (get_authorization id (tables s)) as [b|] eqn:Eb; [|done]. simpl. intros [= <-]. simpl.
    split; [by apply (i_authz _ _ _ Hi id b)|]. intros ->. by apply Hv.
Qed.

Lemma inv_add_order h now o s t' names ids :
  create_order o (tables s) = Some t' -> ord_status o = "pending" -> order_rows (tables s) o names ids ->
  inv h now s -> inv h now (with_tables t' s).
Proof.
  intros Hc Hs Hr [H1 H2 H3 H4]. unfold create_order in Hc.
  destruct (row_insert ord_id o (acme_orders (tables s))) as [x|] eqn:E; [|done]. injection Hc as <-.
  split; [exact H1| |exact H3|exact H4]. intros id o' Ho. unfold get_order in Ho. simpl in Ho. rewrite (row_get_insert _ _ _ _ id E) in Ho.
  destruct (ord_id o =? id)%string; [|by apply (H2 id)]. injection Ho as <-. exists names, ids. split; [done|].
  intros [F|F]; congruence.
Qed.

Lemma inv_order_status h now id status cert s :
  (status = "ready" \/ status = "valid" -> forall o names ids, get_order id (tables s) = Some o -> order_rows (tables s) o names ids ->
     Forall (fun n => proved_by h s (ord_account_id o) n (ord_expires_at o)) names) ->
  inv h now s -> inv h now (with_tables (update_order id status cert (tables s)) s).
Proof.
  intros Hv [H1 H2 H3 H4]. split; [exact H1| |exact H3|exact H4]. intros k o. unfold get_order, update_order. simpl.
  rewrite row_get_update by done. destruct (String.eqb_spec id k) as [<-|]; [|apply (H2 k)].
  destruct (row_get ord_id id (acme_orders (tables s))) as [b|] eqn:Eb; [|done]. simpl. intros [= <-].
  destruct (H2 id b Eb) as (names & ids & Hr & _). exists names, ids. split; [exact Hr|]. simpl. intros Hs.
  by apply (Hv Hs b names ids).
Qed.

Lemma inv_add_cert h now x crt s :
  x = acme_certificates (tables s) ++ [crt] -> warranted h s crt -> inv h now s ->
  inv h now (with_tables (set_certificates x (tables s)) s).
Proof.
  intros -> Hw [H1 H2 H3 H4]. split; [exact H1|exact H2| |exact H4]. intros c [Hc|Hc%list_elem_of_singleton]%elem_of_app; [by apply H3|by subst].
Qed.

(** ** Verified requests *)

Definition with_nonces (x : list NonceRow) (s : AcmeSt) : AcmeSt := with_tables (set_nonces x (tables s)) s.

(** Only the nonces may differ. *)
Definition silent {A} (m : fallible AcmeSt AcmeError A) : Prop := forall s, exists x, (m s).2 = with_nonces x s.

Lemma with_nonces_id s : with_nonces (acme_nonces (tables s)) s = s.
Proof. by destruct s as [[? []] ?]. Qed.

Lemma silent_same {A} (m : fallible AcmeSt AcmeError A) : (forall s, (m s).2 = s) -> silent m.
Proof. intros H s. exists (acme_nonces (tables s)). by rewrite H, with_nonces_id. Qed.

Lemma silent_bind {A B} (m : fallible AcmeSt AcmeError A) (k : A -> fallible AcmeSt AcmeError B) :
  silent m -> (forall a, silent (k a)) -> silent (and_then m k).
Proof.
  intros Hm Hk s. destruct (Hm s) as [x Hx]. unfold and_then. destruct (m s) as [[a|e] s1]; simpl in *; [|by exists x].
  subst. destruct (Hk a (with_nonces x s)) as [y Hy]. by exists y.
Qed.

Lemma silent_or_fail {A} (o : option A) e : silent (or_fail o e).
Proof. by apply silent_same; destruct o. Qed.

Lemma silent_take now n : silent (take_nonce now n).
Proof. intros s. by eexists. Qed.

Lemma silent_key jwk kid : silent (verification_key jwk kid).
Proof.
  unfold verification_key. destruct jwk, kid; try by apply silent_same. apply silent_bind; [by apply silent_same|]. intros a.
  apply silent_bind; [apply silent_or_fail|]. intros b. apply silent_bind; [apply silent_or_fail|]. intros c. by apply silent_same.
Qed.

Lemma silent_verify now body url : silent (verify_request now body url).
Proof.
  unfold verify_request. do 3 (apply silent_bind; [apply silent_or_fail|]; intros ?). case_match; [by apply silent_same|].
  apply silent_bind; [apply silent_or_fail|]. intros n. apply silent_bind; [apply silent_take|]. intros _.
  apply silent_bind; [apply silent_key|]. intros k. case_match; [by apply silent_same|].
  do 2 (apply silent_bind; [apply silent_or_fail|]; intros ?). by apply silent_same.
Qed.

(** The account a request is verified for is the one that is stored. *)
Lemma verified_account now body url s v s' :
  verify_request now body url s = (Ok v, s') -> forall a, vf_account v = Some a ->
  get_acme_account (acc_id a) (tables s) = Some a /\
  exists jws hd, jws_of_bytes body = Some jws /\ protected_header jws = Some hd /\ hd_url hd.1 = Some url /\
    value_of_str (acc_jwk a) = Some (vf_jwk v) /\ jws_verify jws (hd_alg hd.1) (vf_jwk v) = true.
Proof.
  unfold verify_request. intros H a Ha.
  apply and_then_ok in H as (jws & s1 & Hj & H). destruct (jws_of_bytes body) as [j|] eqn:Ej; [|done]. injection Hj as -> <-.
  apply and_then_ok in H as (hd & s2 & Hh & H). destruct (protected_header jws) as [hd'|] eqn:Eh; [|done]. injection Hh as -> <-.
  apply and_then_ok in H as (u & s3 & Hu & H). destruct (hd_url hd.1) as [u'|] eqn:Eu; [|done]. injection Hu as -> <-.
  destruct (String.eqb_spec u url) as [->|]; [|done]. simpl in H.
  apply and_then_ok in H as (n & s4 & Hn & H). destruct (hd_nonce hd.1); [|done]. injection Hn as -> <-.
  apply and_then_ok in H as ([] & s5 & Ht & H). destruct (silent_take now n s) as [x Hx]. rewrite Ht in Hx. simpl in Hx. subst s5.
  apply and_then_ok in H as ([key acct] & s6 & Hk & H). destruct (jws_verify jws (hd_alg hd.1) _) eqn:Ev; [|done]. simpl in H.
  apply and_then_ok in H as (pl & s7 & Hp & H). apply and_then_ok in H as (tp & s8 & Htp & H). injection H as <- <-. simpl in Ha. subst acct.
  unfold verification_key in Hk. destruct hd.2, (hd_kid hd.1) as [kid|]; try done.
  apply and_then_ok in Hk as (o & s9 & Hq & Hk). injection Hq as <- <-. apply and_then_ok in Hk as (b & s10 & Hb & Hk).
  destruct (get_acme_account (account_of_kid kid) _) as [acct|] eqn:Ea; [|done]. injection Hb as -> <-.
  apply and_then_ok in Hk as (w & s11 & Hw & Hk). destruct (value_of_str (acc_jwk b)) as [w'|] eqn:Ew; [|done]. injection Hw as -> <-.
  injection Hk as -> -> _. split; [|exists jws, hd; by rewrite Ew].
  change (tables (with_nonces x s)) with (set_nonces x (tables s)) in Ea.
  pose proof (row_get_key _ _ _ _ Ea) as Eid. rewrite <- Eid in Ea. exact Ea.
Qed.

Lemma h_account now body url h s0 :
  hoare (inv h now) (fun s => s = s0) (verify_account now body url)
    (fun v s => get_acme_account (acc_id v.1) (tables s0) = Some v.1 /\ exists x, s = with_nonces x s0).
Proof.
  intros s Hi ->. split; [eapply inv_core; [apply moves_account; exact _|exact Hi]|]. intros v Hv.
  destruct (verify_account now body url s0) as [r s'] eqn:E. simpl in *. subst r. unfold verify_account in E.
  apply and_then_ok in E as (w & s1 & Hw & E). apply and_then_ok in E as (a & s2 & Ha & E).
  destruct (vf_account w) as [b|] eqn:Eb; [|done]. injection Ha as -> <-. injection E as <- <-. simpl. split.
  - by apply (verified_account _ _ _ _ _ _ Hw).
  - destruct (silent_verify now body url s0) as [x Hx]. rewrite Hw in Hx. by exists x.
Qed.

(** For a handler that only needs the account. *)
Lemma h_account_core now body url h :
  hoare (inv h now) (fun _ => True) (verify_account now body url) (fun v s => get_acme_account (acc_id v.1) (tables s) = Some v.1).
Proof.
  intros s Hi _. destruct (h_account now body url h s s Hi eq_refl) as [H1 H2]. split; [done|].
  intros v Hv. by destruct (H2 v Hv) as [Hg [x ->]].
Qed.

(** ** Handlers keep the invariant *)

Abbreviation keeps_inv h now m := (hoare (inv h now) (fun _ => True) m (fun _ _ => True)).

(** Steps over an operation that leaves the core alone. *)
Ltac h_skip := eapply h_bind; [apply h_framed; [by auto with acme|apply inv_core|first [apply true_core | apply account_core]]|intros ?].

Lemma h_done {E A} I P (m : fallible AcmeSt E A) : framed m -> on_core I -> hoare I P m (fun _ _ => True).
Proof. intros Hm HI s Hi _. split; [by eapply HI; [apply Hm|]|done]. Qed.

Lemma keeps_new_account h now body : keeps_inv h now (new_account cfg now body).
Proof.
  unfold new_account. h_skip. h_skip. match goal with |- hoare _ _ (match ?x with _ => _ end) _ => destruct x end.
  - by apply h_ret.
  - apply h_if; [intros _; apply h_fail|intros _]. do 2 h_skip. eapply (h_bind _ _ _ _ (fun _ _ => True)); [|intros ?; by apply h_ret].
    apply h_insert. intros s t Ht Hi _. split; [by eapply inv_add_account|exact I].
Qed.

(** An authorization for a name. *)
Definition authz_for (account : AcmeAccount) (expires : Z) (s : AcmeSt) (name id : string) : Prop :=
  exists a, get_authorization id (tables s) = Some a /\ az_account_id a = acc_id account /\ az_identifier a = name /\
    az_expires_at a = expires.

Definition on_kept (P : AcmeSt -> Prop) : Prop := forall s s', authz_kept (tables s) (tables s') -> P s -> P s'.

Lemma authz_for_kept account expires name id : on_kept (fun s => authz_for account expires s name id).
Proof. intros s s' Hk (a & Ha & E1 & E2 & E3). destruct (Hk id a Ha) as (a' & Ha' & F1 & F2 & F3). exists a'. split_and!; congruence. Qed.

Lemma on_kept_core P : on_kept P -> on_core P.
Proof.
  intros HP s s' [= _ _ E _]. apply HP. intros id a Ha. exists a. unfold get_authorization in *. by rewrite E.
Qed.

Lemma h_authzs h now account order_id expires names P :
  expires <= now + ORDER_TTL_SECS -> on_kept P ->
  hoare (inv h now) P (create_authzs account order_id expires names)
    (fun ids s => P s /\ Forall2 (authz_for account expires s) names ids).
Proof.
  intros He. revert P. induction names as [|name names IH]; intros P HP; cbn [create_authzs].
  { apply h_ret. intros s _ Hp. split; [done|constructor]. }
  assert (forall id, on_kept (fun s => P s /\ authz_for account expires s name id)) as HP'.
  { intros id s s' Hk [Hp Hz]. split; [by eapply HP|by eapply authz_for_kept]. }
  eapply h_bind; [apply h_framed; [auto with acme|apply inv_core|by apply on_kept_core]|]. intros id.
  eapply (h_bind _ _ _ _ (fun _ s => P s /\ authz_for account expires s name id)).
  { apply h_insert. intros s t Ht Hi Hp. cbn zeta.
    destruct (inv_add_authz h now (mkAuthz id order_id (acc_id account) name "pending" expires) s t eq_refl He Ht Hi) as [Hi' Hk]. split; [done|]. split; [eapply HP; [exact Hk|exact Hp]|].
    destruct (create_authorization_get _ _ _ id Ht) as (_ & Hg & _).
    exists (mkAuthz id order_id (acc_id account) name "pending" expires). split; [|done]. simpl in Hg |- *. by rewrite Hg, String.eqb_refl. }
  intros _. eapply h_bind; [apply h_framed; [auto with acme|apply inv_core|apply on_kept_core, HP']|]. intros cid.
  eapply h_bind; [apply h_framed; [auto with acme|apply inv_core|apply on_kept_core, HP']|]. intros token.
  eapply h_bind; [apply h_framed; [auto with acme|apply inv_core|apply on_kept_core, HP']|]. intros u.
  eapply h_bind; [apply IH, HP'|]. intros ids. apply h_ret. intros s _ [[Hp Hz] Hf]. split; [done|]. by constructor.
Qed.

Lemma keeps_new_order `{SL : !SerdeLaws} h now body : keeps_inv h now (new_order cfg now body).
Proof.
  unfold new_order. eapply h_bind; [apply h_account_core|]. intros v. h_skip.
  match goal with |- hoare _ _ (match ?x with _ => _ end) _ => destruct x; [apply h_fail|] end. do 2 h_skip.
  eapply h_bind; [eapply h_pre; [|apply (h_authzs h now v.1 _ (now + ORDER_TTL_SECS) _ (fun _ => True)); [lia|done]]; done|].
  intros ids. cbn zeta.
  eapply (h_bind _ _ _ _ (fun _ _ => True)); [|intros ?; eapply h_bind; [apply h_done; [auto with acme|apply inv_core]|intros ?; by apply h_ret]].
  apply h_insert. intros s t Ht Hi [_ Hf]. split; [|exact I]. eapply inv_add_order; [exact Ht|done| |done].
  split_and!; [apply strings_roundtrip|apply strings_roundtrip|]. simpl. exact Hf.
Qed.

Lemma all_valid_elem ids t i : all_valid ids t = true -> i ∈ ids -> exists a, get_authorization i t = Some a /\ az_status a = "valid".
Proof.
  induction ids as [|j ids IH]; simpl; [by intros _ ?%not_elem_of_nil|]. destruct (get_authorization j t) as [a|] eqn:E; [|done].
  destruct (String.eqb_spec (az_status a) "valid"); [|done]. simpl. intros Hv [->|Hi]%elem_of_cons; [by exists a|by apply IH].
Qed.

(** An order becomes ready when every name of it has been proved. *)
Lemma keeps_advance h now id P : hoare (inv h now) P (maybe_advance_order id) (fun _ _ => True).
Proof.
  unfold maybe_advance_order. eapply (h_bind _ _ _ _ (fun o s => o = get_order id (tables s))); [by apply h_query|].
  intros [o|]; [|by apply h_ret].
  eapply (h_bind _ _ _ _ (fun ids s => get_order id (tables s) = Some o /\ strings_of_str (ord_authorizations o) = Some ids)).
  { apply h_some. intros ids s Hids _ Ho. by split. }
  intros ids. eapply (h_bind _ _ _ _ (fun b s => (get_order id (tables s) = Some o /\ strings_of_str (ord_authorizations o) = Some ids) /\
    b = all_valid ids (tables s))); [by apply h_query|].
  intros b. apply h_if; [intros [-> _]%andb_true_iff|by intros _; apply h_ret]. apply h_update. intros s Hi [[Ho Hids] Hv]. split; [|exact I].
  apply inv_order_status; [|done]. intros _ o' names ids' Ho' (Hn & Hi' & Hf). replace o' with o in * by congruence.
  replace ids' with ids in * by congruence. apply Forall_forall. intros n Hin.
  destruct (list_elem_of_lookup_1 _ _ Hin) as [k Hk]. destruct (Forall2_lookup_l _ _ _ _ _ Hf Hk) as (i & Hik & a & Ha & E1 & E2 & E3).
  destruct (all_valid_elem ids (tables s) i (eq_sym Hv)) as (a' & Ha' & Hs); [by eapply list_elem_of_lookup_2|].
  replace a' with a in * by congruence. rewrite <- E1, <- E2, <- E3. by apply (i_authz _ _ _ Hi i a).
Qed.

Lemma keeps_respond h now s0 id body :
  (now, s0) ∈ h -> hoare (inv h now) (fun s => s = s0) (respond_challenge cfg now id body) (fun _ _ => True).
Proof.
  intros Hin. unfold respond_challenge. cbn zeta. eapply h_bind; [apply h_account|]. intros v. apply h_pure. intros Hacc.
  eapply (h_bind _ _ _ _ (fun c s => c = get_challenge id (tables s0) /\ exists x, s = with_nonces x s0)).
  { apply h_query. intros s _ [x ->]. split; [done|by exists x]. }
  intros co. apply h_pure. intros ->. eapply (h_bind _ _ _ _ (fun c s => get_challenge id (tables s0) = Some c /\ exists x, s = with_nonces x s0)).
  { apply h_some. auto. }
  intros c. apply h_pure. intros Hc.
  eapply (h_bind _ _ _ _ (fun a s => a = get_authorization (ch_authz_id c) (tables s0) /\ exists x, s = with_nonces x s0)).
  { apply h_query. intros s _ [x ->]. split; [done|by exists x]. }
  intros ao. apply h_pure. intros ->. eapply (h_bind _ _ _ _ (fun a s => get_authorization (ch_authz_id c) (tables s0) = Some a /\ exists x, s = with_nonces x s0)).
  { apply h_some. auto. }
  intros a. apply h_pure. intros Ha. apply h_if; [intros _; apply h_fail|]. intros Hown%negb_false_iff%String.eqb_eq.
  apply h_if; [intros _; apply h_fail|]. intros Hexp%Z.leb_gt.
  pose proof (row_get_key _ _ _ _ Ha) as Hid.
  eapply (h_bind _ _ _ _ (fun m s => m = challenge_met (records s0) (az_identifier a) (ch_token c) (acc_thumbprint v.1) /\
    get_authorization (az_id a) (tables s) = Some a /\ get_acme_account (acc_id v.1) (tables s) = Some v.1)).
  { intros s Hi [x ->]. split; [done|]. intros m [= <-]. split_and!; [done|by rewrite Hid|done]. }
  intros m. apply h_pure. intros ->.
  eapply (h_bind _ _ _ _ (fun _ _ => True)); [|intros ?; h_skip; h_skip; by apply h_ret].
  assert (on_core (fun s => get_authorization (az_id a) (tables s) = Some a /\ get_acme_account (acc_id v.1) (tables s) = Some v.1)) as Hcore.
  { intros s s' [= E1 _ E3 _]. unfold get_authorization, get_acme_account. by rewrite E1, E3. }
  apply h_if; intros Hm; (eapply h_bind; [apply h_framed; [auto with acme|apply inv_core|exact Hcore]|]); intros ?.
  - eapply (h_bind _ _ _ _ (fun _ _ => True)); [|intros ?; apply keeps_advance]. apply h_update. intros s Hi [Hga Hgv]. split; [|exact I].
    apply inv_authz_status; [|done]. intros _ a' Ha'. replace a' with a by congruence. exists v.1. rewrite Hown. split; [done|].
    exists now. split; [pose proof (proj1 (i_authz _ _ _ Hi _ _ Hga)); lia|]. exists s0, id, c, a. split_and!; done.
  - apply h_update. intros s Hi _. split; [|exact I]. by apply inv_authz_status.
Qed.

(** ** Issuance *)

Lemma issuable_in_zone now account name s z : (check_issuable cfg now account name s).1 = Ok z -> in_zone_of account name.
Proof.
  unfold check_issuable, in_zone_of. destruct (acc_zone account) as [zone|]; [|done].
  destruct (encloses (normalize_name zone) (normalize_name name)); [done|done].
Qed.

Lemma issuing_zone_all now account names s z :
  (issuing_zone cfg now account names s).1 = Ok z -> Forall (in_zone_of account) names.
Proof.
  revert s z. induction names as [|n names IH]; intros s z; cbn [issuing_zone]; [constructor|]. unfold and_then.
  destruct (check_issuable cfg now account n s) as [[z1|e] s1] eqn:E1; [|done].
  destruct (issuing_zone cfg now account names s1) as [[z2|e] s2] eqn:E2; [|done]. intros _. constructor.
  - eapply issuable_in_zone. by rewrite E1.
  - eapply IH. by rewrite E2.
Qed.

(** A leaf asserts no DNS name that was not allowed. *)
Lemma issue_leaf_names `{RL : !RcgenLaws} now zone csr days names s leaf s' :
  issue_leaf now zone csr days names s = (Ok leaf, s') ->
  forall dns, asserts (leaf_pem leaf) dns -> normalize_name dns ∈ normalize_name <$> names.
Proof.
  unfold issue_leaf. intros H dns Hd. do 4 apply and_then_ok in H as (? & ? & _ & H).
  match type of H with context [check_csr_names ?c names] => destruct (check_csr_names c names) eqn:Ec; [|done]; rename c into q end.
  simpl in H. apply and_then_ok in H as (vl & s1 & _ & H). apply and_then_ok in H as (pem & s2 & Hp & H). injection H as <- _.
  destruct (csr_signed_by q _ _ _) as [pem'|] eqn:Es; [|done]. injection Hp as -> _. simpl in Hd.
  destruct (csr_signed_names _ _ _ _ _ Es) as [E1 E2]. unfold asserts in Hd. rewrite E1, E2 in Hd.
  unfold check_csr_names in Ec. rewrite forallb_forall in Ec.
  eapply bool_decide_eq_true_1, Ec, list_elem_of_In. unfold csr_requested_names. apply elem_of_app. destruct Hd as [Hd|(w & -> & Hw & Hl)].
  - left. apply list_elem_of_omap. by exists (DnsName dns).
  - right. simpl. rewrite Hw, (hostname_looks _ Hl). by left.
Qed.

Lemma h_value {E A} I P (p : A -> Prop) (m : fallible AcmeSt E A) :
  framed m -> on_core I -> on_core P -> (forall s a, (m s).1 = Ok a -> p a) -> hoare I P m (fun a s => p a /\ P s).
Proof.
  intros Hm HI HP Hp s Hi Hs. specialize (Hm s). split; [by eapply HI|]. intros a Ha. split; [by eapply Hp|by eapply HP].
Qed.

Lemma keeps_finalize `{RL : !RcgenLaws} h now id body : keeps_inv h now (finalize cfg now id body).
Proof.
  unfold finalize. eapply h_bind; [apply h_account_core|]. intros v.
  eapply (h_bind _ _ _ _ (fun o s => o = get_order id (tables s) /\ get_acme_account (acc_id v.1) (tables s) = Some v.1)); [by apply h_query|].
  intros oo. eapply (h_bind _ _ _ _ (fun o s => get_order id (tables s) = Some o /\ get_acme_account (acc_id v.1) (tables s) = Some v.1)).
  { apply h_some. intros o s -> _ [<- Hg]. by split. }
  intros o. set (K := fun s => get_order id (tables s) = Some o /\ get_acme_account (acc_id v.1) (tables s) = Some v.1).
  assert (on_core K) as HK. { intros s s' [= E1 E2 _ _]. unfold K, get_order, get_acme_account. by rewrite E1, E2. }
  apply h_if; [intros _; apply h_fail|]. intros Hown%negb_false_iff%String.eqb_eq. apply h_if; [intros _; apply h_fail|].
  intros Hst%negb_false_iff%String.eqb_eq. apply h_if; [intros _; apply h_fail|]. intros Hexp%Z.leb_gt.
  eapply h_bind; [apply h_framed; [auto with acme|apply inv_core|exact HK]|]. intros csr_b64.
  eapply h_bind; [apply h_framed; [auto with acme|apply inv_core|exact HK]|]. intros csr_der. cbn zeta.
  eapply (h_bind _ _ _ _ (fun names s => strings_of_str (ord_identifiers o) = Some names /\ K s)); [apply h_some; auto|].
  intros names. apply h_pure. intros Hnames. eapply h_bind; [apply h_framed; [auto with acme|apply inv_core|exact HK]|]. intros primary.
  eapply h_bind; [apply (h_value _ K (fun _ => Forall (in_zone_of v.1) names)); [auto with acme|apply inv_core|exact HK|intros s z; apply issuing_zone_all]|].
  intros zone. apply h_pure. intros Hzone.
  eapply (h_bind _ _ _ _ (fun leaf s => (forall dns, asserts (leaf_pem leaf) dns -> normalize_name dns ∈ normalize_name <$> names) /\ K s)).
  { apply h_value; [|apply inv_core|exact HK|].
    - auto with acme.
    - intros s leaf. unfold db_call. destruct (issue_leaf _ _ _ _ _ _) as [[l|e] d] eqn:E; [|done]. intros [= <-]. by eapply issue_leaf_names. }
  intros leaf. apply h_pure. intros Hleaf. eapply (h_bind _ _ _ _ (fun _ => K)).
  { intros s Hi Hk. simpl. split; [|intros c _; exact Hk].
    apply (inv_add_cert h now _ (mkCertRow (Z.of_nat (length (acme_certificates (tables s))) + 1) primary (leaf_pem leaf) ""
      (leaf_chain_pem leaf) now (leaf_expires_at leaf))); [done| |done].
    exists v.1, names. destruct Hk as [Ho Hg]. split_and!; [done| |exact Hleaf].
    destruct (i_order _ _ _ Hi id o Ho) as (names' & ids & (Hn & _) & Hp). replace names' with names in * by congruence.
    specialize (Hp (or_introl Hst)). rewrite Forall_forall in *. intros n Hin. split; [|by apply Hzone].
    destruct (Hp n Hin) as (a & Ha & t & Ht & Hans). rewrite Hown in Ha. replace a with v.1 in * by congruence. exists t.
    split; [|done]. assert (t <= now) by (destruct Hans as (s0 & ? & ? & ? & Hh & _); by eapply (i_past _ _ _ Hi)). simpl. lia. }
  intros cid. eapply h_bind; [apply h_framed; [auto with acme|apply inv_core|exact HK]|]. intros u1.
  eapply h_bind; [apply h_framed; [auto with acme|apply inv_core|exact HK]|]. intros u2.
  eapply (h_bind _ _ _ _ (fun _ _ => True)); [|intros u3; do 2 h_skip; h_skip; by apply h_ret].
  apply h_update. intros s Hi [Ho Hg]. split; [|exact I]. rewrite (row_get_key _ _ _ _ Ho). apply inv_order_status; [|done].
  intros _ o' names' ids' Ho' (Hn & _). replace o' with o in * by congruence.
  destruct (i_order _ _ _ Hi id o Ho) as (names'' & ids & (Hn' & _) & Hp). replace names' with names'' by congruence. apply Hp. by left.
Qed.

Lemma inv_serve `{SL : !SerdeLaws, RL : !RcgenLaws} h now req s :
  (now, s) ∈ h -> inv h now s -> inv h now (serve cfg now req s).2.
Proof.
  intros Hin Hi. assert (inv h now (route cfg now req s).2) as Hr.
  { pose proof (moves_reads cfg now same_core req) as Hf.
    destruct req; try (eapply inv_core; [apply Hf|exact Hi]); cbn [route].
    - by apply keeps_new_account.
    - by apply keeps_new_order.
    - by apply (keeps_respond h now s id body Hin s).
    - by apply keeps_finalize. }
  unfold serve. destruct (route cfg now req s) as [r s1]. simpl in Hr.
  pose proof (framed_nonce now s1) as Hn. destruct (new_nonce now s1) as [[n|e] s2]; simpl in *; by eapply inv_core.
Qed.

Lemma run_inv `{SL : !SerdeLaws, RL : !RcgenLaws} h now s : run h now s -> inv h now s.
Proof.
  induction 1 as [now db cache draws|h now now' s s' _ IH Hle Hstep].
  { split; simpl; [done|done| |]; [by intros crt ?%not_elem_of_nil|by intros t s0 ?%not_elem_of_nil]. }
  apply (inv_later h s now now' s Hle) in IH.
  destruct Hstep as [req|q|zone|zone|name|kid|db cache].
  - apply inv_serve; [by left|done].
  - eapply inv_core; [apply moves_portal; [exact _|apply framed_create_eab]|done].
  - eapply inv_core; [apply moves_zone_ca; exact _|done].
  - eapply inv_core; [apply moves_credential; [exact _|apply framed_create_eab]|done].
  - eapply inv_core; [apply moves_dane_root; exact _|done].
  - refine (inv_core _ _ s _ _ IH). reflexivity.
  - refine (inv_core _ _ s _ _ IH). reflexivity.
Qed.

(** * Properties *)

End Runs.

(** The run of the sample enrollment. *)
Definition sample_history : list (Z * AcmeSt) :=
  [(1006, validated); (1005, answered_dns); (1004, ordered); (1003, enrolled); (1002, with_nonce); (1001, ca_ready); (1000, fresh_ca)].

Lemma sample_run : run sample_acme "Home CA" sample_history 1006 issued.
Proof.
  apply (run_step _ _ _ 1005); [|lia|apply step_serve]. apply (run_step _ _ _ 1004); [|lia|apply step_serve].
  apply (run_step _ _ _ 1003); [|lia|apply step_dns]. apply (run_step _ _ _ 1002); [|lia|apply step_serve].
  apply (run_step _ _ _ 1001); [|lia|apply step_serve]. apply (run_step _ _ _ 1000); [|lia|apply step_serve].
  apply (run_step _ _ _ 999); [|lia|apply step_zone_ca]. apply run_start.
Qed.

Definition issued_row : AcmeCertRow :=
  default (mkCertRow 0 "" "" "" "" 0 0) (acme_certificates (a_tables (st_db issued)) !! 0%nat).

Lemma issued_row_stored : issued_row ∈ acme_certificates (a_tables (st_db issued)).
Proof. apply (list_elem_of_lookup_2 _ 0). vm_compute. reflexivity. Qed.

