(* ===== verification/AcmeSafety.v ===== *)
(** Nonces and enrollment credentials over whole runs of the certificate authority:
    a nonce is accepted once, the nonces that wait are bounded, and, request after
    request, a credential enrolls one account, whose key it signed. *)

From S2P Require Import Prelude RustStr Names Ip Records Rrsig DnsCache ZoneStore Scopes Database Rdata.
From S2P Require Import AcmeStore Ca Acme AcmeSample AcmeFrames AcmeProofs.
From stdpp Require Import base sets list option strings.
From Stdlib Require Import ZArith Lia Bool Ascii.

Open Scope Z_scope.
Local Open Scope rolodex_scope.

Section Safety.
Context `{SE : !Serde, JO : !Jose, RC : !Rcgen, B64 : !Base64, HX : !Hex}.
Context (cfg : AcmeConfig) (root_cn : string).

Abbreviation step := (acme_step cfg root_cn).
Abbreviation reached := (run cfg root_cn).

(** What can follow a moment of a run. *)
Inductive later (now : Z) (s : AcmeSt) : Z -> AcmeSt -> Prop :=
| later_here : later now s now s
| later_step now1 s1 now2 s2 : later now s now1 s1 -> now1 <= now2 -> step now2 s1 s2 -> later now s now2 s2.

(** * Nonces *)

(** A text the generator gave before a draw. *)
Definition drawn_before (k : nat) (text : string) : Prop :=
  exists i n bs, (i < k)%nat /\ (16 <= n)%nat /\ random_bytes n i = Some bs /\ text = b64url_encode bs.

Lemma drawn_before_le k k' text : (k <= k')%nat -> drawn_before k text -> drawn_before k' text.
Proof. intros Hle (i & n & bs & Hi & H). exists i, n, bs. split; [lia|done]. Qed.

(** The next draw is new. *)
Lemma draw_is_new `{JL : !JoseLaws} k n bs text :
  (16 <= n)%nat -> random_bytes n k = Some bs -> drawn_before k text -> text <> b64url_encode bs.
Proof.
  intros Hn Hb (i & m & cs & Hi & Hm & Hc & ->) E. pose proof (draws_differ _ _ _ _ _ _ Hm Hn Hc Hb E). lia.
Qed.

(** Nonces go and randomness is drawn. *)
Definition spends (s s' : AcmeSt) : Prop :=
  sublist (acme_nonces (tables s')) (acme_nonces (tables s)) /\ (draws s <= draws s')%nat.

#[local] Instance spends_covers : Covers spends.
Proof.
  split; [split; [done|]|].
  - intros x y z [H1 H2] [K1 K2]. split; [by etrans|lia].
  - intros s s' (_ & H1 & H2). by split.
Qed.

Lemma spends_has n s s' : spends s s' -> has_nonce n (tables s') -> has_nonce n (tables s).
Proof. intros [Hs _] Hn. eapply elem_of_sublist; [exact Hn|by apply fmap_sublist]. Qed.

Lemma spends_row f : (forall t t', f t = Some t' -> acme_nonces t' = acme_nonces t) -> moves spends (insert_row f).
Proof. intros Hf. apply moves_insert; [exact _|]. intros s t E. split; [by rewrite <- (Hf _ _ E)|done]. Qed.

Lemma spends_create_account a : moves spends (insert_row (create_acme_account a)).
Proof. apply spends_row. intros t t'. unfold create_acme_account. by destruct (row_insert _ _ _); [intros [= <-]|]. Qed.

Lemma spends_create_authorization a : moves spends (insert_row (create_authorization a)).
Proof. apply spends_row. intros t t'. unfold create_authorization. by destruct (row_insert _ _ _); [intros [= <-]|]. Qed.

Lemma spends_create_challenge c : moves spends (insert_row (create_challenge c)).
Proof. apply spends_row. intros t t'. unfold create_challenge. by destruct (row_insert _ _ _); [intros [= <-]|]. Qed.

Lemma spends_create_order o : moves spends (insert_row (create_order o)).
Proof. apply spends_row. intros t t'. unfold create_order. by destruct (row_insert _ _ _); [intros [= <-]|]. Qed.

Lemma spends_create_eab kid secret zone : moves spends (insert_row (create_eab kid secret zone)).
Proof. apply spends_row. intros t t'. unfold create_eab. by destruct (row_insert _ _ _); [intros [= <-]|]. Qed.

Lemma spends_update f : (forall t, acme_nonces (f t) = acme_nonces t) -> moves spends (update f).
Proof. intros Hf s. split; [simpl; by rewrite Hf|done]. Qed.

#[local] Hint Resolve spends_create_account spends_create_authorization spends_create_challenge spends_create_order
  spends_create_eab : acme.
#[local] Hint Extern 2 (moves spends (update _)) => by apply spends_update : acme.

(** ** A nonce that was taken *)

(** The nonce of a body that is signed for an address. *)
Definition nonce_in (body : list Z) (url : string) : option string :=
  jws ← jws_of_bytes body;
  hd ← protected_header jws;
  u ← hd_url hd.1;
  if (u =? url)%string then hd_nonce hd.1 else None.

(** The body of a request and the address it must be signed for. *)
Definition signed_part (req : AcmeRequest) : option (list Z * string) :=
  match req with
  | Directory | NewNonce => None
  | NewAccount body => Some (body, acme_url cfg "new-account")
  | NewOrder body => Some (body, acme_url cfg "new-order")
  | GetOrder id body => Some (body, acme_url cfg ("order/" +:+ id))
  | GetAuthz id body => Some (body, acme_url cfg ("authz/" +:+ id))
  | RespondChallenge id body => Some (body, acme_url cfg ("challenge/" +:+ id))
  | Finalize id body => Some (body, acme_url cfg ("finalize/" +:+ id))
  | GetCert id body => Some (body, acme_url cfg ("cert/" +:+ id))
  | RevokeCert body => Some (body, acme_url cfg "revoke-cert")
  end.

Definition presented (req : AcmeRequest) : option string := p ← signed_part req; nonce_in p.1 p.2.

Lemma and_then_some {S E A B} (a : A) (e : E) (k : A -> fallible S E B) : and_then (or_fail (Some a) e) k = k a.
Proof. reflexivity. Qed.

(** A handler that starts by taking the nonce. *)
Definition takes {E A} (bad : E) (n : string) (now : Z) (m : fallible AcmeSt E A) : Prop := forall s,
  ((consume_nonce now n (tables s)).1 = false -> m s = (Err bad, s)) /\
  (nonces_unique (tables s) -> (consume_nonce now n (tables s)).1 = true -> ~ has_nonce n (tables (m s).2)).

Lemma takes_bind {E A B} bad n now (m : fallible AcmeSt E A) (k : A -> fallible AcmeSt E B) :
  takes bad n now m -> (forall a, moves spends (k a)) -> takes bad n now (and_then m k).
Proof.
  intros Hm Hk s. destruct (Hm s) as [H1 H2]. unfold and_then. split.
  - intros Hc. by rewrite (H1 Hc).
  - intros Hu Hc. specialize (H2 Hu Hc). destruct (m s) as [[a|e] s1]; simpl in *; [|done].
    intros Hn. apply H2. eapply spends_has; [apply Hk|exact Hn].
Qed.

Lemma consume_nothing now n t : (consume_nonce now n t).1 = false -> (consume_nonce now n t).2 = t.
Proof.
  unfold consume_nonce. simpl. intros H. rewrite filter_all_true; [by destruct t|].
  intros r Hr. apply negb_true_iff. apply not_true_iff_false. intros Hh. apply not_true_iff_false in H. apply H, existsb_exists.
  exists r. split; [by apply list_elem_of_In|done].
Qed.

Lemma takes_take now n : takes BadNonce n now (take_nonce now n).
Proof.
  intros s. unfold take_nonce. destruct (consume_nonce now n (tables s)) as [b t] eqn:E. split; simpl; intros Hb.
  - subst b. pose proof (consume_nothing now n (tables s)) as H. rewrite E in H. simpl in H. rewrite (H eq_refl). by destruct s as [[]].
  - intros ->. pose proof (consume_nonce_gone now n (tables s) Hb) as H. rewrite E in H. by apply H.
Qed.

Lemma takes_verify now body url n : nonce_in body url = Some n -> takes BadNonce n now (verify_request now body url).
Proof.
  unfold nonce_in. destruct (jws_of_bytes body) as [jws|] eqn:Ej; [|done]. simpl.
  destruct (protected_header jws) as [hd|] eqn:Eh; [|done]. simpl. destruct (hd_url hd.1) as [u|] eqn:Eu; [|done]. simpl.
  destruct (u =? url)%string eqn:Euu; [|done]. intros En. unfold verify_request.
  rewrite Ej, and_then_some, Eh, and_then_some, Eu, and_then_some, Euu, En. cbn [negb]. rewrite and_then_some.
  apply (takes_bind (A := unit)); [apply takes_take|]. auto 20 with acme.
Qed.

Lemma takes_account now body url n : nonce_in body url = Some n -> takes BadNonce n now (verify_account now body url).
Proof. intros Hn. apply takes_bind; [by apply takes_verify|auto with acme]. Qed.

Lemma takes_route now req n : presented req = Some n -> takes BadNonce n now (route cfg now req).
Proof.
  unfold presented. destruct req; cbn [signed_part mbind option_bind fst snd]; intros Hn; try discriminate Hn; cbn [route];
    unfold new_account, new_order, get_order_req, get_authz, respond_challenge, finalize, get_cert, revoke_cert; cbv zeta.
  - apply takes_bind; [by apply takes_verify|]. pose proof (fun now v => moves_external cfg now spends v). auto 20 with acme.
  - apply takes_bind; [by apply takes_account|]. pose proof (moves_authzs spends). auto 20 with acme.
  - apply takes_bind; [by apply takes_account|]. auto 20 with acme.
  - apply takes_bind; [by apply takes_account|]. auto 20 with acme.
  - apply takes_bind; [by apply takes_account|]. pose proof (moves_advance spends).
    assert (forall f, moves (A := bool) (E := AcmeError) spends (fun s => (Ok (f s), s))) by done. auto 20 with acme.
  - apply takes_bind; [by apply takes_account|].
    assert (forall now dom cert chain exp, moves (A := Z) (E := AcmeError) spends (fun s =>
      let (cert_id, t) := store_acme_certificate now dom cert "" chain exp (tables s) in (Ok cert_id, with_tables t s))) by done.
    auto 40 with acme.
  - apply takes_bind; [by apply takes_account|]. auto 20 with acme.
  - apply takes_bind; [by apply takes_verify|]. auto 20 with acme.
Qed.

(** ** What a step does to the nonces *)

(** Some go, and at most one comes, a new draw. *)
Definition nonce_step (now : Z) (s s' : AcmeSt) : Prop :=
  exists s1, spends s s1 /\
    (spends s1 s' \/
     exists bs, random_bytes 16 (draws s1) = Some bs /\ tables s' = store_nonce now (b64url_encode bs) (tables s1) /\
       draws s' = S (draws s1)).

Lemma new_nonce_step now s : nonce_step now s (new_nonce now s).2.
Proof.
  exists s. split; [done|]. unfold new_nonce, random_token, and_then. destruct (random_bytes 16 (draws s)) as [bs|] eqn:E; simpl.
  - right. by exists bs.
  - left. split; [done|simpl; lia].
Qed.

Lemma nonce_step_after now s s1 s' : spends s s1 -> nonce_step now s1 s' -> nonce_step now s s'.
Proof. intros H (s2 & H1 & H2). exists s2. split; [by etrans|done]. Qed.

Lemma spends_step now s s' : spends s s' -> nonce_step now s s'.
Proof. intros H. exists s'. split; [done|by left]. Qed.

Lemma route_spends now req : moves spends (route cfg now req).
Proof.
  pose proof (moves_reads cfg now spends req) as Hr. destruct req; try exact Hr; cbn [route].
  - apply moves_new_account; [exact _|auto with acme..].
  - apply moves_new_order; [exact _|auto with acme..].
  - apply moves_respond; [exact _|auto with acme..].
  - apply moves_finalize; [exact _|auto with acme..]. intros; split; [done|simpl; lia].
Qed.

Lemma step_nonces now s s' : step now s s' -> nonce_step now s s'.
Proof.
  intros [req|q|zone|zone|name|kid|db cache].
  - unfold serve. pose proof (route_spends now req s) as Hr. destruct (route cfg now req s) as [r s1]. simpl in Hr.
    eapply nonce_step_after; [exact Hr|]. pose proof (new_nonce_step now s1) as H. by destruct (new_nonce now s1) as [[n|e] s2].
  - apply spends_step, moves_portal; [exact _|apply spends_create_eab].
  - apply spends_step, moves_zone_ca. exact _.
  - apply spends_step, moves_credential; [exact _|apply spends_create_eab].
  - apply spends_step, moves_dane_root. exact _.
  - by apply spends_step.
  - by apply spends_step.
Qed.

(** The nonces that wait are distinct draws of the past. *)
Definition fresh_nonces (s : AcmeSt) : Prop :=
  nonces_unique (tables s) /\ forall n, has_nonce n (tables s) -> drawn_before (draws s) n.

Lemma fresh_spends s s' : spends s s' -> fresh_nonces s -> fresh_nonces s'.
Proof.
  intros Hs [H1 H2]. split; [eapply sublist_NoDup, fmap_sublist, Hs; exact H1|].
  intros n Hn. eapply drawn_before_le, H2; [apply Hs|by eapply spends_has].
Qed.

Lemma fresh_step now s s' : nonce_step now s s' -> fresh_nonces s -> fresh_nonces s'.
Proof.
  intros (s1 & Hs & Hc) H%(fresh_spends s s1 Hs). destruct Hc as [Hc|(bs & Hb & Et & Ed)]; [by eapply fresh_spends|].
  destruct H as [H1 H2]. split; [rewrite Et; by apply store_nonce_unique|].
  intros n. rewrite Et, Ed. intros [Hn| ->]%store_nonce_has; [by eapply drawn_before_le, H2; [lia|]|].
  exists (draws s1), 16%nat, bs. split_and!; [lia|done..].
Qed.

Lemma run_fresh h now s : reached h now s -> fresh_nonces s.
Proof.
  induction 1 as [now db cache d|h now now' s s' _ IH _ Hs]; [|by eapply fresh_step; [apply step_nonces|]].
  split; [constructor|]. by intros n ?%elem_of_nil.
Qed.

(** A nonce that was taken does not come back. *)
Definition spent (n : string) (s : AcmeSt) : Prop := ~ has_nonce n (tables s) /\ drawn_before (draws s) n.

Lemma spent_step `{JL : !JoseLaws} now n s s' : nonce_step now s s' -> spent n s -> spent n s'.
Proof.
  assert (forall s s', spends s s' -> spent n s -> spent n s') as Hsp.
  { intros x y Hxy [H1 H2]. split; [intros Hn; eapply H1, spends_has; eauto|eapply drawn_before_le, H2; apply Hxy]. }
  intros (s1 & Hs & Hc) H%(Hsp s s1 Hs). destruct Hc as [Hc|(bs & Hb & Et & Ed)]; [by eapply Hsp|].
  destruct H as [H1 H2]. split; [|rewrite Ed; eapply drawn_before_le, H2; lia].
  rewrite Et. intros [Hn|Hn]%store_nonce_has; [done|]. eapply draw_is_new; [|exact Hb|exact H2|exact Hn]. lia.
Qed.

Lemma spent_later `{JL : !JoseLaws} now n s now' s' : later now s now' s' -> spent n s -> spent n s'.
Proof. induction 1 as [|now1 s1 now2 s2 _ IH _ Hs]; [done|]. intros H. eapply spent_step; [by eapply step_nonces|auto]. Qed.

(** * Properties of nonces *)

(** C15: nothing can be replayed. Once a request has presented a nonce and was not refused
    for it, whatever else then became of it, every later request of the run that
    presents the same nonce, the same request again or another, is answered
    [badNonce] and its handler changes nothing. *)
Theorem nonce_accepted_once `{JL : !JoseLaws} h t0 s0 t1 req n t2 s t3 req' :
  reached h t0 s0 -> t0 <= t1 -> presented req = Some n ->
  (serve cfg t1 req s0).1.1 <> Err BadNonce ->
  later t1 (serve cfg t1 req s0).2 t2 s -> t2 <= t3 -> presented req' = Some n ->
  (serve cfg t3 req' s).1.1 = Err BadNonce /\ (route cfg t3 req' s).2 = s.
Proof.
  intros Hr _ Hp Hok Hl _ Hp'. pose proof (run_fresh _ _ _ Hr) as [Hu Hd].
  destruct (takes_route t1 req n Hp s0) as [Hno Hyes].
  assert ((consume_nonce t1 n (tables s0)).1 = true) as Hc.
  { apply not_false_iff_true. intros Hc. apply Hok. unfold serve. rewrite (Hno Hc).
    by destruct (new_nonce t1 s0) as [[x|x] y]. }
  assert (spent n (route cfg t1 req s0).2) as Hsp.
  { split; [by apply Hyes|]. eapply drawn_before_le, Hd; [apply (route_spends t1 req s0)|].
    destruct (decide (has_nonce n (tables s0))) as [H|H]; [done|]. by rewrite (consume_nonce_absent t1 n _ H) in Hc. }
  assert (spent n s) as [Hgone _].
  { eapply spent_later; [exact Hl|]. unfold serve. destruct (route cfg t1 req s0) as [r s1]. simpl in Hsp.
    pose proof (new_nonce_step t1 s1) as Hn. destruct (new_nonce t1 s1) as [[x|x] y]; by eapply spent_step. }
  destruct (takes_route t3 req' n Hp' s) as [Hno' _]. specialize (Hno' (consume_nonce_absent t3 n _ Hgone)).
  unfold serve. rewrite Hno'. split; [|done]. by destruct (new_nonce t3 s) as [[x|x] y].
Qed.

(** ** The nonces that wait *)

Definition waiting_nonces (now : Z) (s : AcmeSt) : Prop :=
  (length (acme_nonces (tables s)) <= MAX_OUTSTANDING_NONCES)%nat /\ Forall (fun r => nonce_created r <= now) (acme_nonces (tables s)).

Lemma waiting_spends now now' s s' : now <= now' -> spends s s' -> waiting_nonces now s -> waiting_nonces now' s'.
Proof.
  intros Hle [Hs _] [H1 H2]. split; [pose proof (sublist_length _ _ Hs); lia|]. rewrite Forall_forall in *. intros r Hr.
  specialize (H2 r (elem_of_sublist _ _ _ Hr Hs)). simpl in H2. lia.
Qed.

Lemma waiting_step now now' s s' : now <= now' -> nonce_step now' s s' -> waiting_nonces now s -> waiting_nonces now' s'.
Proof.
  intros Hle (s1 & Hs & Hc) H%(waiting_spends now now' s s1 Hle Hs).
  destruct Hc as [Hc|(bs & _ & Et & _)]; [by apply (waiting_spends now' now' s1 s' (Z.le_refl _))|]. destruct H as [_ H2]. split; rewrite Et.
  - apply cap_nonces_bound.
  - apply Forall_forall. intros r Hr. rewrite Forall_forall in H2. apply store_nonce_elem in Hr as [Hr| ->]; [by apply H2|simpl; lia].
Qed.

Lemma run_waiting h now s : reached h now s -> waiting_nonces now s.
Proof.
  induction 1 as [now db cache d|h now now' s s' _ IH Hle Hs]; [split; [simpl; lia|constructor]|].
  eapply waiting_step; [exact Hle|by apply step_nonces|exact IH].
Qed.

(** The table of nonces is bounded, whatever is asked of the server: at most 1024
    wait, all of them different. *)
Theorem nonces_bounded h now s :
  reached h now s -> (length (acme_nonces (tables s)) <= Z.to_nat 1024)%nat /\ NoDup (nonce_value <$> acme_nonces (tables s)).
Proof. intros Hr. split; [apply (run_waiting _ _ _ Hr)|apply (run_fresh _ _ _ Hr)]. Qed.

(** Every response carries a nonce its client can use: unless the random generator
    failed, the next request of the run, made within an hour, is not refused for a
    nonce when it presents the one the response before carried, however many others
    wait. *)
Theorem issued_nonce_accepted `{JL : !JoseLaws} h t0 s0 t1 req r n s1 t2 :
  reached h t0 s0 -> t0 <= t1 -> serve cfg t1 req s0 = (r, Some n, s1) -> t1 <= t2 <= t1 + NONCE_TTL_SECS ->
  (take_nonce t2 n s1).1 = Ok tt.
Proof.
  intros Hr Hle Hs Ht. unfold serve in Hs. pose proof (route_spends t1 req s0) as Hsp.
  destruct (route cfg t1 req s0) as [r0 s']. simpl in Hsp.
  pose proof (waiting_spends t0 t1 s0 s' Hle Hsp (run_waiting _ _ _ Hr)) as [_ Hold].
  pose proof (fresh_spends s0 s' Hsp (run_fresh _ _ _ Hr)) as [_ Hd].
  unfold new_nonce, random_token, and_then in Hs. destruct (random_bytes 16 (draws s')) as [bs|] eqn:Eb; [|done].
  simpl in Hs. injection Hs as _ <- <-.
  assert (~ has_nonce (b64url_encode bs) (tables s')) as Hnew.
  { intros Hn. eapply draw_is_new; [|exact Eb|apply Hd, Hn|done]. lia. }
  unfold take_nonce. pose proof (store_nonce_accepted t1 t2 _ _ Hnew Hold Ht) as H.
  cbn [st_db a_tables set_a_tables]. by destruct (consume_nonce t2 _ _) as [[] t].
Qed.

(** * Enrollment credentials *)

(** Accounts and credentials stay as they are. *)
Definition same_enrollment (s s' : AcmeSt) : Prop :=
  acme_accounts (tables s') = acme_accounts (tables s) /\ acme_eab (tables s') = acme_eab (tables s) /\ (draws s <= draws s')%nat.

#[local] Instance same_enrollment_covers : Covers same_enrollment.
Proof.
  split; [split; [done|]|].
  - intros x y z (H1 & H2 & H3) (K1 & K2 & K3). split_and!; [congruence|congruence|lia].
  - by intros s s' ([= E1 E2 _ _ _ _] & _ & H).
Qed.

Definition stable (R : AcmeSt -> AcmeSt -> Prop) (P : AcmeSt -> Prop) : Prop := forall s s', R s s' -> P s -> P s'.

Lemma h_moves {E A} R I P (m : fallible AcmeSt E A) : moves R m -> stable R I -> stable R P -> hoare I P m (fun _ => P).
Proof. intros Hm HI HP s Hi Hp. specialize (Hm s). split; [by eapply HI|]. intros a _. by eapply HP. Qed.

(** At some moment the credential was there unused, and a binding made with its key
    named the key of the account. *)
Definition enrolled_under (h : list (Z * AcmeSt)) (a : AcmeAccount) (kid : string) : Prop :=
  exists t s0 e eab jwk, (t, s0) ∈ h /\ get_eab kid (tables s0) = Some e /\ eab_used e = false /\ eab_zone e = acc_zone a /\
    verify_eab eab jwk (eab_hmac_key e) = true /\ acc_jwk a = value_to_str jwk /\ jwk_thumbprint jwk = Some (acc_thumbprint a).

Record enrollment_inv (h : list (Z * AcmeSt)) (s : AcmeSt) : Prop := {
  e_drawn e : e ∈ acme_eab (tables s) -> drawn_before (draws s) (eab_kid e);
  e_used a kid : a ∈ acme_accounts (tables s) -> acc_eab_kid a = Some kid ->
    drawn_before (draws s) kid /\ forall e, get_eab kid (tables s) = Some e -> eab_used e = true;
  e_once a b kid : a ∈ acme_accounts (tables s) -> b ∈ acme_accounts (tables s) ->
    acc_eab_kid a = Some kid -> acc_eab_kid b = Some kid -> a = b;
  e_how a kid : a ∈ acme_accounts (tables s) -> acc_eab_kid a = Some kid -> enrolled_under h a kid;
  e_required a : require_eab cfg = true -> a ∈ acme_accounts (tables s) -> is_Some (acc_eab_kid a);
}.

Lemma enrollment_stable h : stable same_enrollment (enrollment_inv h).
Proof.
  intros s s' (E1 & E2 & Hd) [H1 H2 H3 H4 H5]. split; unfold get_eab in *; rewrite ?E1, ?E2; auto.
  - intros e He. eapply drawn_before_le; [exact Hd|by apply H1].
  - intros a kid Ha Hk. destruct (H2 a kid Ha Hk). split; [by eapply drawn_before_le|done].
Qed.

Lemma enrollment_later h m s : enrollment_inv h s -> enrollment_inv (m :: h) s.
Proof.
  intros [H1 H2 H3 H4 H5]. split; auto. intros a kid Ha Hk. destruct (H4 a kid Ha Hk) as (t & s0 & e & eab & jwk & Hin & H).
  exists t, s0, e, eab, jwk. split; [by right|done].
Qed.

(** ** Credentials come, are used and go *)

Lemma enrollment_eab h s x :
  (forall e, e ∈ x -> drawn_before (draws s) (eab_kid e)) ->
  (forall a kid, a ∈ acme_accounts (tables s) -> acc_eab_kid a = Some kid -> forall e, row_get eab_kid kid x = Some e -> eab_used e = true) ->
  enrollment_inv h s -> enrollment_inv h (with_tables (set_eab x (tables s)) s).
Proof.
  intros Hd Hu [H1 H2 H3 H4 H5]. split; auto. intros a kid Ha Hk. split; [by eapply H2|]. intros e He. by eapply Hu.
Qed.

Lemma enrollment_mark h s kid : enrollment_inv h s -> enrollment_inv h (with_tables (mark_eab_used kid (tables s)) s).
Proof.
  intros Hi. apply enrollment_eab; [| |done].
  - intros e (e0 & He & [->|[_ ->]])%row_update_elem; simpl; by apply (e_drawn h s Hi).
  - intros a k Ha Hk e. rewrite row_get_update by done. pose proof (proj2 (e_used h s Hi a k Ha Hk)) as Hu.
    destruct (kid =? k)%string; [|apply Hu]. destruct (row_get _ _ _); [|done]. by intros [= <-].
Qed.

Lemma enrollment_withdraw h s kid : enrollment_inv h s -> enrollment_inv h (with_tables (remove_eab kid (tables s)).2 s).
Proof.
  intros Hi. apply enrollment_eab; [| |done].
  - intros e [He _]%elem_filter_bool. by apply (e_drawn h s Hi).
  - intros a k Ha Hk e He. apply (proj2 (e_used h s Hi a k Ha Hk)). unfold get_eab, row_get in *. revert He.
    induction (acme_eab (tables s)) as [|x l IH]; [done|]. simpl. destruct (eab_kid x =? kid)%string eqn:Ek; simpl.
    + intros He. destruct (eab_kid x =? k)%string eqn:Ek'; [|auto]. exfalso. apply String.eqb_eq in Ek, Ek'. subst.
      clear IH. induction l as [|y l IH]; [done|]. simpl in He. destruct (eab_kid y =? eab_kid x)%string eqn:Ey; simpl in He; [auto|].
      rewrite Ey in He. auto.
    + by destruct (eab_kid x =? k)%string.
Qed.

(** A key id that was drawn and that no account was bound to. *)
Definition unbound (kid : string) (s : AcmeSt) : Prop :=
  drawn_before (draws s) kid /\ forall a, a ∈ acme_accounts (tables s) -> acc_eab_kid a <> Some kid.

Lemma unbound_stable kid : stable same_enrollment (unbound kid).
Proof. intros s s' (E1 & _ & Hd) [H1 H2]. split; [by eapply drawn_before_le|by rewrite E1]. Qed.

Lemma h_kid `{JL : !JoseLaws} h : hoare (enrollment_inv h) (fun _ => True) (random_token 16) unbound.
Proof.
  intros s Hi _. split; [eapply enrollment_stable; [apply (moves_token same_enrollment)|done]|]. unfold random_token.
  destruct (random_bytes 16 (draws s)) as [bs|] eqn:Eb; [|done]. intros kid [= <-]. simpl. split.
  - exists (draws s), 16%nat, bs. split_and!; [simpl; lia|lia|done..].
  - intros a Ha Hk. eapply draw_is_new; [|exact Eb|by eapply (e_used h s Hi)|done]. lia.
Qed.

Lemma h_insert_eab h kid secret zone :
  hoare (enrollment_inv h) (unbound kid) (insert_row (create_eab kid secret zone)) (fun _ _ => True).
Proof.
  apply h_insert. intros s t Ht Hi [Hd Hno]. split; [|done]. unfold create_eab in Ht.
  destruct (row_insert _ _ _) as [x|] eqn:Ex; [|done]. injection Ht as <-. apply enrollment_eab; [| |done].
  - apply row_insert_app in Ex as ->. intros e [He| ->%list_elem_of_singleton]%elem_of_app; [by apply (e_drawn h s Hi)|done].
  - intros a k Ha Hk e. rewrite (row_get_insert _ _ _ _ k Ex). simpl. destruct (String.eqb_spec kid k) as [->|]; [by destruct (Hno a Ha)|].
    apply (e_used h s Hi a k Ha Hk).
Qed.

Lemma h_or_bad {A} I P (m : fallible AcmeSt AcmeError A) Q : hoare I P m Q -> hoare I P (or_bad m) Q.
Proof.
  intros Hm s Hi Hp. destruct (Hm s Hi Hp) as [H1 H2]. unfold or_bad. destruct (m s) as [[a|e] s1]; simpl in *; [|by split].
  split; [done|]. intros a' [= <-]. by apply H2.
Qed.

Lemma true_stable R : stable R (fun _ => True).
Proof. done. Qed.

(** Steps over an operation that leaves accounts and credentials alone. *)
Ltac e_skip :=
  eapply h_bind; [eapply (h_moves same_enrollment); [by auto 10 with acme|apply enrollment_stable|
    first [apply true_stable | apply unbound_stable]]|intros ?].

Lemma keeps_credential `{JL : !JoseLaws} h now zone :
  hoare (enrollment_inv h) (fun _ => True) (create_eab_credential now root_cn zone) (fun _ _ => True).
Proof.
  unfold create_eab_credential. do 3 e_skip. eapply h_bind; [apply h_kid|]. intros kid. e_skip.
  eapply h_bind; [apply h_insert_eab|]. intros ?. by apply h_ret.
Qed.

Lemma keeps_portal `{JL : !JoseLaws} h now q :
  hoare (enrollment_inv h) (fun _ => True) (create_account cfg now q) (fun _ _ => True).
Proof.
  unfold create_account. destruct (reject_cross_site q); [apply h_fail|]. unfold create_account_inner. e_skip. cbv zeta.
  apply h_if; intros _; [apply h_fail|]. eapply (h_bind _ _ _ _ (fun _ _ => True)); [by intros s Hi _|]. intros managed. apply h_if; intros _; [apply h_fail|].
  do 2 e_skip. eapply h_bind; [apply h_or_bad, h_kid|]. intros kid. e_skip.
  eapply h_bind; [apply h_or_bad, h_insert_eab|]. intros ?. by apply h_ret.
Qed.

(** ** A new account *)

Lemma verified_thumbprint now body url s v s' :
  verify_request now body url s = (Ok v, s') -> jwk_thumbprint (vf_jwk v) = Some (vf_thumbprint v).
Proof.
  unfold verify_request. intros H. do 3 apply and_then_ok in H as (? & ? & _ & H). case_match; [done|].
  do 3 apply and_then_ok in H as (? & ? & _ & H). case_match; [done|]. apply and_then_ok in H as (? & ? & _ & H).
  apply and_then_ok in H as (tp & ? & Ht & H). injection H as <- _. simpl. destruct (jwk_thumbprint _); [|done]. by injection Ht as ->.
Qed.

Lemma h_verified h now body url s0 :
  hoare (enrollment_inv h) (fun s => s = s0) (verify_request now body url)
    (fun v s => jwk_thumbprint (vf_jwk v) = Some (vf_thumbprint v) /\ exists x, s = with_nonces x s0).
Proof.
  intros s Hi ->. split; [eapply enrollment_stable; [apply (moves_verify now same_enrollment)|done]|]. intros v Hv.
  destruct (verify_request now body url s0) as [r s'] eqn:E. simpl in *. subst r. split; [by eapply verified_thumbprint|].
  destruct (silent_verify now body url s0) as [x Hx]. rewrite E in Hx. by exists x.
Qed.

(** What a binding establishes: of the state before, that the credential was there
    unused and its key signed the account's; of the state after, that no account is
    bound to it and that it is used. *)
Definition bound_by (s0 : AcmeSt) (jwk : Value) (b : option string * option string) (s : AcmeSt) : Prop :=
  match b.1 with
  | Some kid =>
      (unbound kid s /\ forall e, get_eab kid (tables s) = Some e -> eab_used e = true) /\
      exists e eab, get_eab kid (tables s0) = Some e /\ eab_used e = false /\ eab_zone e = b.2 /\
        verify_eab eab jwk (eab_hmac_key e) = true
  | None => require_eab cfg = false
  end.

Lemma bound_by_stable s0 jwk b : stable same_enrollment (bound_by s0 jwk b).
Proof.
  unfold bound_by. intros s s' Hs. destruct b.1 as [kid|]; [|done]. intros [[H1 H2] H3]. split; [|done].
  split; [by eapply unbound_stable|]. unfold get_eab. destruct Hs as (_ & -> & _). exact H2.
Qed.

Lemma h_external h now v s0 :
  hoare (enrollment_inv h) (fun s => exists x, s = with_nonces x s0) (bind_external cfg now v) (bound_by s0 (vf_jwk v)).
Proof.
  unfold bind_external. destruct (value_get _ _) as [eab|].
  2:{ apply h_if; intros Hr; [apply h_fail|]. by apply h_ret. }
  eapply (h_bind _ _ _ _ (fun _ s => exists x, s = with_nonces x s0)); [apply h_some; auto|]. intros kid.
  eapply (h_bind _ _ _ _ (fun o s => o = get_eab kid (tables s0) /\ exists x, s = with_nonces x s0)).
  { apply h_query. intros s _ [x ->]. split; [done|by exists x]. }
  intros o. apply h_pure. intros ->.
  eapply (h_bind _ _ _ _ (fun e s => get_eab kid (tables s0) = Some e /\ exists x, s = with_nonces x s0)); [apply h_some; auto|].
  intros e. apply h_pure. intros He. apply h_if; intros Hu; [apply h_fail|]. apply h_if; intros Hv; [apply h_fail|].
  apply negb_false_iff in Hv. eapply (h_bind _ _ _ _ (fun _ => bound_by s0 (vf_jwk v) (Some kid, eab_zone e))).
  - apply h_update. intros s Hi [x ->]. split; [by apply enrollment_mark|]. split; [|by exists e, eab]. split.
    + split.
      * pose proof (row_get_key _ _ _ _ He) as <-. apply (e_drawn _ _ Hi). by eapply row_get_elem.
      * intros a Ha Hk. pose proof (proj2 (e_used _ _ Hi a kid Ha Hk) e He). congruence.
    + intros e'. unfold get_eab, mark_eab_used. simpl. rewrite row_get_update, String.eqb_refl by done.
      destruct (row_get _ _ _); [|done]. by intros [= <-].
  - intros _. eapply (h_bind _ _ _ _ (fun _ => bound_by s0 (vf_jwk v) (Some kid, eab_zone e))); [|intros ?; by apply h_ret].
    destruct (eab_zone e); [|by apply h_ret].
    eapply (h_moves same_enrollment); [by auto 10 with acme|apply enrollment_stable|apply bound_by_stable].
Qed.

Lemma keeps_enrolling h now s0 body :
  (now, s0) ∈ h -> hoare (enrollment_inv h) (fun s => s = s0) (new_account cfg now body) (fun _ _ => True).
Proof.
  intros Hin. unfold new_account. eapply h_bind; [apply h_verified|]. intros v. apply h_pure. intros Htp.
  eapply (h_bind _ _ _ _ (fun _ s => exists x, s = with_nonces x s0)); [by apply h_query|]. intros [existing|]; [by apply h_ret|].
  apply h_if; intros _; [apply h_fail|]. eapply h_bind; [apply h_external|]. intros b.
  eapply h_bind; [eapply (h_moves same_enrollment); [by auto with acme|apply enrollment_stable|apply bound_by_stable]|].
  intros id. cbv zeta. eapply (h_bind _ _ _ _ (fun _ _ => True)); [|intros ?; by apply h_ret].
  apply h_insert. set (a := mkAccount _ _ _ _ _ _ _). intros s t Ht Hi Hb. split; [|done]. unfold create_acme_account in Ht.
  destruct (row_insert acc_id a _) as [x|] eqn:Ex; [|done]. injection Ht as <-. apply row_insert_app in Ex as ->.
  unfold bound_by in Hb. destruct Hi as [H1 H2 H3 H4 H5]. split; cbn [st_db a_tables set_a_tables set_accounts acme_accounts acme_eab].
  - exact H1.
  - intros c kid [Hc| ->%list_elem_of_singleton]%elem_of_app Hk; [by eapply H2|]. simpl in Hk. rewrite Hk in Hb.
    destruct Hb as [[[Hd _] Hu] _]. by split.
  - intros c d kid [Hc| ->%list_elem_of_singleton]%elem_of_app [Hd| ->%list_elem_of_singleton]%elem_of_app Hkc Hkd; [by eapply H3| | |done].
    + simpl in Hkd. rewrite Hkd in Hb. by destruct Hb as [[[_ Hno] _] _], (Hno c Hc).
    + simpl in Hkc. rewrite Hkc in Hb. by destruct Hb as [[[_ Hno] _] _], (Hno d Hd).
  - intros c kid [Hc| ->%list_elem_of_singleton]%elem_of_app Hk; [by apply H4|]. simpl in Hk. rewrite Hk in Hb.
    destruct Hb as [_ (e & eab & He & Hu & Hz & Hv)]. exists now, s0, e, eab, (vf_jwk v). split_and!; done.
  - intros c Hr [Hc| ->%list_elem_of_singleton]%elem_of_app; [by apply H5|]. simpl. destruct b.1; [done|congruence].
Qed.

(** ** Runs *)

Lemma keeps_insert f : (forall t t', f t = Some t' -> acme_accounts t' = acme_accounts t /\ acme_eab t' = acme_eab t) ->
  moves same_enrollment (insert_row f).
Proof. intros Hf. apply moves_insert; [exact _|]. intros s t E. destruct (Hf _ _ E). by split_and!. Qed.

Lemma serve_enrollment h now req s :
  (now, s) ∈ h -> enrollment_inv h s -> enrollment_inv h (serve cfg now req s).2.
Proof.
  intros Hin Hi. assert (enrollment_inv h (route cfg now req s).2) as Hr.
  { pose proof (moves_reads cfg now same_enrollment req) as Hf.
    destruct req; try (eapply enrollment_stable; [apply Hf|exact Hi]); cbn [route].
    - by apply (keeps_enrolling h now s body Hin s).
    - eapply enrollment_stable; [|exact Hi]. apply moves_new_order; [exact _|intros x; apply keeps_insert..]; intros t t';
        unfold create_authorization, create_challenge, create_order; by destruct (row_insert _ _ _); [intros [= <-]|].
    - eapply enrollment_stable; [|exact Hi]. by apply moves_respond; [exact _|..].
    - eapply enrollment_stable; [|exact Hi]. by apply moves_finalize; [exact _|..]. }
  unfold serve. destruct (route cfg now req s) as [r s1]. simpl in Hr.
  assert (same_enrollment s1 (new_nonce now s1).2) as Hn.
  { unfold new_nonce, random_token, and_then. destruct (random_bytes _ _); split_and!; simpl; auto. }
  destruct (new_nonce now s1) as [[n|e] s2]; simpl in *; by eapply enrollment_stable.
Qed.

Lemma run_enrollment `{JL : !JoseLaws} h now s : reached h now s -> enrollment_inv h s.
Proof.
  induction 1 as [now db cache d|h now now' s s' _ IH Hle Hstep].
  { split; simpl; [| | | |intros a _]; intros; by match goal with H : _ ∈ [] |- _ => apply elem_of_nil in H end. }
  apply (enrollment_later h (now', s)) in IH. destruct Hstep as [req|q|zone|zone|name|kid|db cache].
  - apply serve_enrollment; [by left|done].
  - by apply keeps_portal.
  - eapply enrollment_stable; [apply moves_zone_ca; exact _|done].
  - by apply keeps_credential.
  - eapply enrollment_stable; [apply moves_dane_root; exact _|done].
  - by apply enrollment_withdraw.
  - eapply enrollment_stable; [|exact IH]. by split_and!.
Qed.

(** When requests are handled one after another, a credential enrolls one account. *)
Lemma credential_spent_once `{JL : !JoseLaws} h now s a kid :
  reached h now s -> a ∈ acme_accounts (tables s) -> acc_eab_kid a = Some kid ->
  (forall e, get_eab kid (tables s) = Some e -> eab_used e = true) /\
  (forall b, b ∈ acme_accounts (tables s) -> acc_eab_kid b = Some kid -> b = a).
Proof.
  intros Hr Ha Hk. pose proof (run_enrollment _ _ _ Hr) as Hi. split; [by apply (e_used _ _ Hi a)|].
  intros b Hb Hkb. by apply (e_once _ _ Hi b a kid).
Qed.
End Safety.

(** * The enrollment portal *)

Section Portal.
Context `{SE : !Serde, JO : !Jose, RC : !Rcgen, B64 : !Base64, HX : !Hex}.
Context (cfg : AcmeConfig).

(** The zone a request asks for. *)
Definition asked_zone (q : PortalRequest) : option string := str_trim <$> zone_request_of_bytes (pq_body q).

Lemma get_zone_ca_store zone cert key t : is_Some (get_zone_ca zone (store_zone_ca zone cert key t)).
Proof.
  unfold get_zone_ca, store_zone_ca. simpl. rewrite row_get_app. destruct (row_get _ _ _) eqn:E; [by eexists|].
  simpl. rewrite String.eqb_refl. by eexists.
Qed.

(** The zones that have an intermediate keep it. *)
Definition keeps_cas (zone : string) (s s' : AcmeDb) : Prop :=
  is_Some (get_zone_ca zone (a_tables s)) -> is_Some (get_zone_ca zone (a_tables s')).

#[local] Instance keeps_cas_preorder zone : PreOrder (keeps_cas zone).
Proof. unfold keeps_cas. split; [intros s H; exact H|intros x y z Hxy Hyz H; auto]. Qed.

Lemma keeps_cas_publish zone z : moves (keeps_cas zone) (publish_ca_dns_records z).
Proof.
  assert (forall r, moves (keeps_cas zone) (add_row r)) as H1 by (intros; intros s H; exact H).
  assert (forall n k, moves (keeps_cas zone) (remove_rows n k)) as H2 by (intros; intros s H; exact H).
  assert (forall A (f : AcmeTables -> A), moves (keeps_cas zone) (read f)) as H3 by (intros; intros s H; exact H).
  assert (forall A (f : A -> D unit) l, (forall x, moves (keeps_cas zone) (f x)) -> moves (keeps_cas zone) (for_each f l)) as H4.
  { intros A f l Hf. induction l as [|x l IH]; cbn [for_each]; auto with acme. }
  unfold publish_ca_dns_records, publish_one, root_ca_pem. cbv zeta. auto 30 with acme.
Qed.

Lemma ensured_intermediate now zone s r s' :
  ensure_zone_intermediate now zone s = (Ok r, s') -> is_Some (get_zone_ca (normalize_name zone) (a_tables s')).
Proof.
  unfold ensure_zone_intermediate. cbv zeta. intros H. apply and_then_ok in H as (o & s1 & Ho & H). injection Ho as <- <-.
  destruct (get_zone_ca (normalize_name zone) (a_tables s)) as [x|] eqn:E.
  - pose proof (keeps_cas_publish (normalize_name zone) (normalize_name zone) s) as Hk. rewrite H in Hk. apply Hk. by rewrite E.
  - do 4 apply and_then_ok in H as (? & ? & _ & H). apply and_then_ok in H as (u & s2 & Hw & H). injection Hw as <- <-.
    match type of H with publish_ca_dns_records _ ?st = _ =>
      pose proof (keeps_cas_publish (normalize_name zone) (normalize_name zone) st) as Hk; rewrite H in Hk; apply Hk end.
    apply get_zone_ca_store.
Qed.

Lemma get_zone_ca_norm zone t : get_zone_ca (normalize_name zone) t = get_zone_ca zone t.
Proof. unfold get_zone_ca. by rewrite normalize_name_idem. Qed.

Lemma or_bad_ok {A} (m : fallible AcmeSt AcmeError A) s a s' : or_bad m s = (Ok a, s') -> m s = (Ok a, s').
Proof. unfold or_bad. destruct (m s) as [[x|e] s1]; [|done]. by intros [= -> ->]. Qed.

(** The portal hands out credentials only for zones this server is in charge of, and
    only to itself: a request that is cross-site, or asks for a zone that is not
    managed, is refused and changes nothing; a request that is answered gets a new
    credential for the zone it named, unused and stored under the key id it is told,
    for a zone that was managed before and whose intermediate CA is there after. *)
Theorem portal_serves_managed_zones now q s :
  (is_Some (reject_cross_site q) \/
   (forall zone, asked_zone q = Some zone -> zone = "" \/ zone_is_managed cfg (st_db s) zone = false) ->
   exists e, create_account cfg now q s = (Err e, s)) /\
  forall directory zone kid key s', create_account cfg now q s = (Ok (directory, zone, kid, key), s') ->
    directory = directory_url cfg /\ asked_zone q = Some zone /\ zone_is_managed cfg (st_db s) zone = true /\
    is_Some (get_zone_ca zone (tables s')) /\ get_acme_account kid (tables s') = get_acme_account kid (tables s) /\
    exists secret, get_eab kid (tables s') = Some (mkEab kid secret (Some zone) false) /\ key = b64url_encode secret.
Proof.
  unfold create_account. split.
  - destruct (reject_cross_site q) as [e|]; [by exists e|]. intros [[? [=]]|Hz]. unfold create_account_inner, asked_zone in *.
    destruct (zone_request_of_bytes (pq_body q)) as [zone|]; [|by eexists]. rewrite and_then_some. cbv zeta.
    destruct (Hz _ eq_refl) as [->|Hm]; [by eexists|]. destruct (_ =? _)%string; [by eexists|]. unfold and_then at 1. rewrite Hm. by eexists.
  - intros directory zone kid key s' H. destruct (reject_cross_site q) as [e|]; [done|]. unfold create_account_inner, asked_zone in *.
    destruct (zone_request_of_bytes (pq_body q)) as [z|]; [|done]. rewrite and_then_some in H. cbv zeta in H.
    destruct (str_trim z =? "")%string; [done|]. apply and_then_ok in H as (m & s1 & Hm & H). injection Hm as <- <-.
    destruct (zone_is_managed cfg (st_db s) (str_trim z)) eqn:Em; [|done]. simpl in H.
    apply and_then_ok in H as (u & s1 & He & H). apply or_bad_ok in He.
    apply and_then_ok in H as (u' & s2 & Hf & H). injection Hf as <- <-.
    apply and_then_ok in H as (kid' & s3 & Hk & H). apply or_bad_ok in Hk.
    apply and_then_ok in H as (secret & s4 & Hs & H). apply or_bad_ok in Hs.
    apply and_then_ok in H as (u2 & s5 & Hi & H). apply or_bad_ok in Hi. injection H as <- <- <- <- <-.
    unfold random_token in Hk. destruct (random_bytes 16 _); [|done]. injection Hk as <- <-.
    unfold draw_secret in Hs. destruct (random_bytes 32 _); [|done]. injection Hs as <- <-.
    unfold insert_row in Hi. destruct (create_eab _ _ _ _) as [t|] eqn:Et; [|done]. injection Hi as _ <-.
    unfold create_eab in Et. simpl in Et. destruct (row_insert _ _ _) as [x|] eqn:Ex; [|done]. injection Et as <-.
    pose proof (moves_db_call aside ServerInternal _ (moves_ensure now (str_trim z)) s) as Ha. rewrite He in Ha. 
    unfold db_call in He. destruct (ensure_zone_intermediate now (str_trim z) (st_db s)) as [[[]|err] d] eqn:Ed; [|done]. injection He as E1; subst s1.
    apply ensured_intermediate in Ed. rewrite get_zone_ca_norm in Ed. split_and!; [done|done|done|exact Ed| |].
    + simpl. destruct Ha as ([= Ea _ _ _ _ _] & _). unfold get_acme_account. simpl in *. by rewrite Ea.
    + exists l0. split; [|done]. unfold get_eab. simpl. rewrite (row_get_insert _ _ _ _ _ Ex). simpl. by rewrite String.eqb_refl.
Qed.
End Portal.

(** * Witnesses *)

Lemma before_enrollment : run sample_acme "Home CA" [(1001, ca_ready); (1000, fresh_ca)] 1001 with_nonce.
Proof.
  apply (run_step _ _ _ 1000); [|lia|apply step_serve]. apply (run_step _ _ _ 999); [|lia|apply step_zone_ca]. apply run_start.
Qed.

Lemma after_enrollment : later sample_acme "Home CA" 1002 (serve sample_acme 1002 (NewAccount [0]) with_nonce).2 1006 issued.
Proof.
  apply (later_step _ _ _ _ 1005 validated); [|lia|apply step_serve]. apply (later_step _ _ _ _ 1004 answered_dns); [|lia|apply step_serve].
  apply (later_step _ _ _ _ 1003 ordered); [|lia|apply step_dns]. apply (later_step _ _ _ _ 1002 enrolled); [|lia|apply step_serve].
  apply later_here.
Qed.

Lemma enrolled_with : presented sample_acme (NewAccount [0]) = Some (drawn 2).
Proof. vm_compute. reflexivity. Qed.

Lemma enrollment_not_refused : (serve sample_acme 1002 (NewAccount [0]) with_nonce).1.1 <> Err BadNonce.
Proof. vm_compute. discriminate. Qed.

Lemma nonce_accepted_once_witness :
  (serve sample_acme 1002 (NewAccount [0]) with_nonce).1.1 <> Err BadNonce /\
  (serve sample_acme 2000 (NewAccount [0]) issued).1.1 = Err BadNonce.
Proof.
  split; [exact enrollment_not_refused|].
  assert (1001 <= 1002 /\ 1006 <= 2000) as [H1 H2] by lia.
  exact (proj1 (nonce_accepted_once sample_acme "Home CA" _ 1001 with_nonce 1002 (NewAccount [0]) (drawn 2) 1006 issued 2000
    (NewAccount [0]) before_enrollment H1 enrolled_with enrollment_not_refused after_enrollment H2 enrolled_with)).
Defined.

Lemma nonces_bounded_witness :
  (length (acme_nonces (tables issued)) <= Z.to_nat 1024)%nat /\ NoDup (nonce_value <$> acme_nonces (tables issued)).
Proof. exact (nonces_bounded _ _ _ _ _ sample_run). Defined.

Lemma first_nonce : serve sample_acme 1002 (NewAccount [0]) with_nonce =
  ((serve sample_acme 1002 (NewAccount [0]) with_nonce).1.1, Some (drawn 4), enrolled).
Proof. vm_compute. reflexivity. Qed.

Lemma issued_nonce_accepted_witness : (take_nonce 4602 (drawn 4) enrolled).1 = Ok tt.
Proof.
  assert (1001 <= 1002 /\ 1002 <= 4602 <= 1002 + NONCE_TTL_SECS) as [H1 H2] by (unfold NONCE_TTL_SECS; lia).
  exact (issued_nonce_accepted sample_acme "Home CA" _ 1001 with_nonce 1002 (NewAccount [0]) _ (drawn 4) enrolled 4602
    before_enrollment H1 first_nonce H2).
Defined.

Definition sample_enrollment : PortalRequest :=
  mkPortalRequest (Some "application/json; charset=utf-8") (Some "https://Portal.home") (Some "portal.home") None [1].

Lemma portal_answers :
  create_account sample_acme 1001 sample_enrollment ca_ready =
  (Ok ("https://ca.home/acme", "home", drawn 2, drawn 3), (create_account sample_acme 1001 sample_enrollment ca_ready).2).
Proof. vm_compute. reflexivity. Qed.

Lemma portal_serves_managed_zones_witness :
  zone_is_managed sample_acme (st_db ca_ready) "home" = true /\
  (exists e, create_account sample_acme 1001 sample_enrollment fresh_ca = (Err e, fresh_ca)) /\
  exists e, create_account sample_acme 1001
    (mkPortalRequest (Some "application/json") (Some "https://evil.example") (Some "portal.home") None [1]) ca_ready = (Err e, ca_ready).
Proof.
  split; [by eapply (proj2 (portal_serves_managed_zones sample_acme 1001 sample_enrollment ca_ready)), portal_answers|].
  split; apply portal_serves_managed_zones; [right|left; by eexists].
  intros zone [= <-]. right. vm_compute. reflexivity.
Defined.
