(* ===== verification/AcmeRace.v ===== *)
(** Enrollments that overlap ([new_account_inner] of [src/src/acme_server.rs]): the
    handler of a new account takes the lock of the database once per call, so that
    others run between its calls. Here it is cut where it reads the accounts, reads the
    credential, marks it, and stores the account, each under one lock; the check of the
    request before and the zone's intermediate between are a step each. Run alone the
    steps are [new_account], and interleaved they still bind an account only for the
    holder of the credential's key, but a credential may then enroll more than one. *)

From S2P Require Import Prelude RustStr Names Ip Records Rrsig DnsCache ZoneStore Scopes Database Rdata.
From S2P Require Import AcmeStore Ca Acme AcmeSample AcmeFrames AcmeProofs AcmeSafety.
From stdpp Require Import base sets list option strings.
From Stdlib Require Import ZArith Lia Bool Ascii.

Open Scope Z_scope.
Local Open Scope rolodex_scope.

Section Race.
Context `{SE : !Serde, JO : !Jose, RC : !Rcgen, B64 : !Base64, HX : !Hex}.
Context (cfg : AcmeConfig) (root_cn : string).

(** * A new account, lock by lock *)

(** Where a handler stands: what it has read and found so far. *)
Inductive Enrolling :=
| Arrived (body : list Z)
| Checked (v : Verified)
| Unknown (v : Verified)
| Read (v : Verified) (eab : Value) (kid : string) (cred : AcmeEab)
| Marked (v : Verified) (kid : string) (cred : AcmeEab)
| Bound (v : Verified) (binding : option string * option string)
| Replied (r : result AcmeReply AcmeError).

(** A call under one lock, and where its success leads. *)
Definition then_at {A} (m : H A) (k : A -> Enrolling) : AcmeSt -> Enrolling * AcmeSt := fun s =>
  match m s with (Ok a, s') => (k a, s') | (Err e, s') => (Replied (Err e), s') end.

Definition advance (now : Z) (t : Enrolling) : AcmeSt -> Enrolling * AcmeSt :=
  match t with
  | Arrived body => then_at (verify_request now body (acme_url cfg "new-account")) Checked
  | Checked v =>
      then_at (query (get_acme_account_by_thumbprint (vf_thumbprint v))) (fun existing =>
        match existing with
        | Some existing =>
            Replied (Ok (AccountReply false (acme_url cfg ("account/" +:+ acc_id existing)) (acc_status existing)))
        | None =>
            if bool_decide (value_get "onlyReturnExisting" (vf_payload v) ≫= value_bool = Some true)
            then Replied (Err AccountDoesNotExist) else Unknown v
        end)
  | Unknown v =>
      match value_get "externalAccountBinding" (vf_payload v) with
      | Some eab =>
          then_at (kid <-e or_fail (eab_kid_of eab) Malformed;
                   cred <-e query (get_eab kid);
                   cred <-e or_fail cred Unauthorized;
                   succeed (kid, cred)) (fun r => Read v eab r.1 r.2)
      | None =>
          then_at (if require_eab cfg then fail ExternalAccountRequired else succeed (None, None)) (Bound v)
      end
  | Read v eab kid cred =>
      then_at (if eab_used cred then fail Unauthorized
               else if negb (verify_eab eab (vf_jwk v) (eab_hmac_key cred)) then fail Unauthorized
               else update (mark_eab_used kid)) (fun _ => Marked v kid cred)
  | Marked v kid cred =>
      then_at (match eab_zone cred with
               | Some z => _ <-e db_call ServerInternal (ensure_zone_intermediate now z); flush_dns
               | None => succeed tt
               end) (fun _ => Bound v (Some kid, eab_zone cred))
  | Bound v binding =>
      then_at (account_id <-e random_token 16;
               let account := mkAccount account_id (value_to_str (vf_jwk v)) (vf_thumbprint v)
                                (value_to_str <$> value_get "contact" (vf_payload v)) "valid" binding.1 binding.2 in
               _ <-e insert_row (create_acme_account account);
               succeed (AccountReply true (acme_url cfg ("account/" +:+ account_id)) (acc_status account)))
        (fun r => Replied (Ok r))
  | Replied r => fun s => (Replied r, s)
  end.

(** What a handler has still to do. *)
Definition finish (v : Verified) (binding : option string * option string) : H AcmeReply :=
  account_id <-e random_token 16;
  let account := mkAccount account_id (value_to_str (vf_jwk v)) (vf_thumbprint v)
                   (value_to_str <$> value_get "contact" (vf_payload v)) "valid" binding.1 binding.2 in
  _ <-e insert_row (create_acme_account account);
  succeed (AccountReply true (acme_url cfg ("account/" +:+ account_id)) (acc_status account)).

Definition rest (now : Z) (t : Enrolling) : H AcmeReply :=
  match t with
  | Arrived body => new_account cfg now body
  | Checked v =>
      existing <-e query (get_acme_account_by_thumbprint (vf_thumbprint v));
      match existing with
      | Some existing => succeed (AccountReply false (acme_url cfg ("account/" +:+ acc_id existing)) (acc_status existing))
      | None =>
          if bool_decide (value_get "onlyReturnExisting" (vf_payload v) ≫= value_bool = Some true) then fail AccountDoesNotExist
          else binding <-e bind_external cfg now v; finish v binding
      end
  | Unknown v => binding <-e bind_external cfg now v; finish v binding
  | Read v eab kid cred =>
      _ <-e (if eab_used cred then fail Unauthorized
             else if negb (verify_eab eab (vf_jwk v) (eab_hmac_key cred)) then fail Unauthorized
             else update (mark_eab_used kid));
      _ <-e match eab_zone cred with
            | Some z => _ <-e db_call ServerInternal (ensure_zone_intermediate now z); flush_dns
            | None => succeed tt
            end;
      finish v (Some kid, eab_zone cred)
  | Marked v kid cred =>
      _ <-e match eab_zone cred with
            | Some z => _ <-e db_call ServerInternal (ensure_zone_intermediate now z); flush_dns
            | None => succeed tt
            end;
      finish v (Some kid, eab_zone cred)
  | Bound v binding => finish v binding
  | Replied r => fun s => (r, s)
  end.

Lemma rest_then {A} now (m : H A) (k : A -> Enrolling) s :
  and_then m (fun a => rest now (k a)) s = let (t, s') := then_at m k s in rest now t s'.
Proof. unfold and_then, then_at. by destruct (m s) as [[a|e] s']. Qed.

Lemma bind_ext_h {A B} (m : H A) (k k' : A -> H B) s : (forall a s, k a s = k' a s) -> and_then m k s = and_then m k' s.
Proof. intros H. unfold and_then. by destruct (m s) as [[a|e] s']. Qed.

Lemma bind_assoc_h {A B C} (m : H A) (k : A -> H B) (l : B -> H C) s :
  and_then (and_then m k) l s = and_then m (fun a => and_then (k a) l) s.
Proof. unfold and_then. by destruct (m s) as [[a|e] s']. Qed.

Lemma bind_ret_h {A B} (a : A) (k : A -> H B) s : and_then (succeed a) k s = k a s.
Proof. done. Qed.

Lemma rest_advance now t s : rest now t s = let (t', s') := advance now t s in rest now t' s'.
Proof.
  destruct t as [body|v|v|v eab kid cred|v kid cred|v b|r]; cbn [rest advance]; [..|done]; rewrite <- ?rest_then.
  - done.
  - apply bind_ext_h. intros [existing|] s'; [done|]. by destruct (bool_decide _).
  - unfold bind_external. destruct (value_get _ _) as [eab|]; rewrite <- rest_then.
    2:{ by destruct (require_eab cfg). }
    rewrite !bind_assoc_h. apply bind_ext_h. intros kid s1. rewrite !bind_assoc_h. apply bind_ext_h.
    intros c s2. rewrite !bind_assoc_h. apply bind_ext_h. intros cred s3. rewrite bind_ret_h. cbn [rest fst snd].
    destruct (eab_used cred); [done|]. destruct (negb _); [done|]. rewrite !bind_assoc_h. apply bind_ext_h. intros _ s4.
    by rewrite bind_assoc_h.
  - done.
  - done.
  - unfold finish, and_then, then_at. by repeat case_match; simplify_eq.
Qed.

(** A handler left to itself. *)
Fixpoint alone (now : Z) (n : nat) (t : Enrolling) (s : AcmeSt) : Enrolling * AcmeSt :=
  match n with O => (t, s) | S n => let (t, s) := advance now t s in alone now n t s end.

(** How many steps a handler is from its reply, at most. *)
Definition steps_left (t : Enrolling) : nat :=
  match t with
  | Arrived _ => 6 | Checked _ => 5 | Unknown _ => 4 | Read _ _ _ _ => 3 | Marked _ _ _ => 2 | Bound _ _ => 1 | Replied _ => 0
  end.

Lemma advance_progress now t s : (steps_left (advance now t s).1 <= pred (steps_left t))%nat.
Proof.
  destruct t; cbn [advance]; unfold then_at; repeat case_match; simplify_eq; cbn; lia.
Qed.

(** Run alone, the steps are the handler. *)
Lemma alone_is_rest now n t s :
  (steps_left t <= n)%nat -> alone now n t s = (Replied (rest now t s).1, (rest now t s).2).
Proof.
  revert t s. induction n as [|n IH]; intros t s Hn.
  - destruct t; cbn in Hn; try lia. done.
  - cbn [alone]. rewrite rest_advance. pose proof (advance_progress now t s) as Hp.
    destruct (advance now t s) as [t' s']. cbn in Hp. apply IH. lia.
Qed.

(** * Overlapping handlers *)

(** What happens besides: the other requests, the nonce of a reply, the portal, the
    operator and changes of the DNS data. *)
Inductive aside_step (now : Z) (s : AcmeSt) : AcmeSt -> Prop :=
| aside_serve req : (forall body, req <> NewAccount body) -> aside_step now s (serve cfg now req s).2
| aside_nonce : aside_step now s (new_nonce now s).2
| aside_portal q : aside_step now s (create_account cfg now q s).2
| aside_zone_ca zone : aside_step now s (ensure_zone_ca now root_cn zone s).2
| aside_credential zone : aside_step now s (create_eab_credential now root_cn zone s).2
| aside_dane_root name : aside_step now s (create_dane_root_ca name s).2
| aside_withdraw kid : aside_step now s (remove_eab_credential kid s).2
| aside_dns db cache : aside_step now s (mkAcmeSt (mkAcmeDb db (tables s) (a_draws (st_db s))) cache).

(** Handlers of new accounts start at any time and take their steps in any order. *)
Inductive overlapping : list (Z * AcmeSt) -> list Enrolling -> Z -> AcmeSt -> Prop :=
| o_start now db cache draws : overlapping [] [] now (mkAcmeSt (mkAcmeDb db empty_tables draws) cache)
| o_arrive h ts now s body : overlapping h ts now s -> overlapping h (ts ++ [Arrived body]) now s
| o_advance h ts now now' s i t :
    overlapping h ts now s -> now <= now' -> ts !! i = Some t ->
    overlapping ((now', s) :: h) (<[i := (advance now' t s).1]> ts) now' (advance now' t s).2
| o_aside h ts now now' s s' :
    overlapping h ts now s -> now <= now' -> aside_step now' s s' -> overlapping ((now', s) :: h) ts now' s'.

(** ** The accounts change only when one is stored *)

Definition same_accounts (s s' : AcmeSt) : Prop := acme_accounts (tables s') = acme_accounts (tables s).

#[local] Instance same_accounts_covers : Covers same_accounts.
Proof.
  split; [split; [done|]|].
  - intros x y z H1 H2. unfold same_accounts in *. congruence.
  - by intros s s' ([= E1 _ _ _ _ _] & _ & _).
Qed.

Lemma accounts_insert f :
  (forall t t', f t = Some t' -> acme_accounts t' = acme_accounts t) -> moves same_accounts (insert_row f).
Proof. intros Hf. apply moves_insert; [exact _|]. intros s t E. exact (Hf _ _ E). Qed.

Lemma accounts_create_eab kid secret zone : moves same_accounts (insert_row (create_eab kid secret zone)).
Proof. apply accounts_insert. intros t t'. unfold create_eab. by destruct (row_insert _ _ _); [intros [= <-]|]. Qed.

Lemma route_accounts now req s :
  (forall body, req <> NewAccount body) -> same_accounts s (route cfg now req s).2.
Proof.
  intros Hn. pose proof (moves_reads cfg now same_accounts req) as Hf.
  destruct req; try (by destruct (Hn body)); try (apply Hf); cbn [route].
  - apply moves_new_order; [exact _|intros x; apply accounts_insert..]; intros t t';
      unfold create_authorization, create_challenge, create_order; by destruct (row_insert _ _ _); [intros [= <-]|].
  - by apply moves_respond; [exact _|..].
  - by apply moves_finalize; [exact _|..].
Qed.

Lemma nonce_accounts now s : same_accounts s (new_nonce now s).2.
Proof. unfold new_nonce, random_token, and_then. by destruct (random_bytes _ _). Qed.

Lemma aside_accounts now s s' : aside_step now s s' -> same_accounts s s'.
Proof.
  destruct 1.
  - pose proof (route_accounts now req s ltac:(done)) as Hr. unfold serve.
    destruct (route cfg now req s) as [r s1]. pose proof (nonce_accounts now s1) as Hn.
    destruct (new_nonce now s1) as [[n|e] s2]; unfold same_accounts in *; simpl in *; congruence.
  - apply nonce_accounts.
  - apply moves_portal; [exact _|apply accounts_create_eab].
  - apply moves_zone_ca; exact _.
  - apply moves_credential; [exact _|apply accounts_create_eab].
  - apply moves_dane_root; exact _.
  - done.
  - done.
Qed.

(** ** What each handler knows *)

(** The credential was there unused, and a binding made with its key names the key. *)
Definition binding_seen (h : list (Z * AcmeSt)) (jwk : Value) (kid : string) (zone : option string) : Prop :=
  exists t s0 e eab, (t, s0) ∈ h /\ get_eab kid (tables s0) = Some e /\ eab_used e = false /\ eab_zone e = zone /\
    verify_eab eab jwk (eab_hmac_key e) = true.

Definition keyed (v : Verified) : Prop := jwk_thumbprint (vf_jwk v) = Some (vf_thumbprint v).

Definition handler_ok (h : list (Z * AcmeSt)) (t : Enrolling) : Prop :=
  match t with
  | Arrived _ | Replied _ => True
  | Checked v | Unknown v => keyed v
  | Read v eab kid cred => keyed v /\ exists t s0, (t, s0) ∈ h /\ get_eab kid (tables s0) = Some cred
  | Marked v kid cred => keyed v /\ binding_seen h (vf_jwk v) kid (eab_zone cred)
  | Bound v b =>
      keyed v /\ match b.1 with Some kid => binding_seen h (vf_jwk v) kid b.2 | None => require_eab cfg = false end
  end.

Definition account_ok (h : list (Z * AcmeSt)) (a : AcmeAccount) : Prop :=
  (require_eab cfg = true -> is_Some (acc_eab_kid a)) /\
  forall kid, acc_eab_kid a = Some kid -> enrolled_under h a kid.

Lemma binding_later h m jwk kid zone : binding_seen h jwk kid zone -> binding_seen (m :: h) jwk kid zone.
Proof. intros (t & s0 & e & eab & Hin & H). exists t, s0, e, eab. split; [by right|done]. Qed.

Lemma handler_later h m t : handler_ok h t -> handler_ok (m :: h) t.
Proof.
  destruct t as [body|v|v|v eab kid cred|v kid cred|v b|r]; simpl; try done.
  - intros [Hk (t & s0 & Hin & H)]. split; [done|]. exists t, s0. split; [by right|done].
  - intros [Hk H]. split; [done|by apply binding_later].
  - intros [Hk H]. split; [done|]. destruct b.1; [by apply binding_later|done].
Qed.

Lemma account_later h m a : account_ok h a -> account_ok (m :: h) a.
Proof.
  intros [H1 H2]. split; [done|]. intros kid Hk. destruct (H2 kid Hk) as (t & s0 & e & eab & jwk & Hin & H).
  exists t, s0, e, eab, jwk. split; [by right|done].
Qed.

(** A step that does not store an account. *)
Lemma then_at_ok {A} h (m : H A) (k : A -> Enrolling) s :
  moves same_accounts m -> (forall a s', m s = (Ok a, s') -> handler_ok h (k a)) ->
  handler_ok h (then_at m k s).1 /\ same_accounts s (then_at m k s).2.
Proof.
  intros Hm Hk. specialize (Hm s). unfold then_at. destruct (m s) as [[a|e] s'] eqn:E; simpl in *; [|by split].
  split; [by eapply Hk|done].
Qed.

Lemma stores_account h v b s :
  handler_ok h (Bound v b) -> Forall (account_ok h) (acme_accounts (tables s)) ->
  Forall (account_ok h) (acme_accounts (tables (finish v b s).2)).
Proof.
  intros [Hk Hb] Hs. unfold finish, and_then, random_token. destruct (random_bytes 16 _) as [bs|]; [|exact Hs].
  unfold insert_row, create_acme_account. cbn [st_db a_tables]. destruct (row_insert acc_id _ _) as [x|] eqn:Ex; [|exact Hs].
  apply row_insert_app in Ex as ->. cbn. apply Forall_app_2; [exact Hs|]. apply Forall_singleton. split; cbn.
  - intros Hr. destruct b.1; [done|congruence].
  - intros kid Hkid. rewrite Hkid in Hb. destruct Hb as (t & s0 & e & eab & H1 & H2 & H3 & H4 & H5).
    exists t, s0, e, eab, (vf_jwk v). split_and!; done.
Qed.

Lemma advance_quiet h now t s :
  match t with Bound _ _ => False | _ => True end -> (now, s) ∈ h -> handler_ok h t ->
  handler_ok h (advance now t s).1 /\ same_accounts s (advance now t s).2.
Proof.
  destruct t as [body|v|v|v eab kid cred|v kid cred|v b|r]; intros Hn Hin Ht; cbn [advance]; [..|done|by split].
  - apply then_at_ok; [apply moves_verify; exact _|]. intros v s' E. by eapply verified_thumbprint.
  - apply then_at_ok; [apply moves_query; exact _|]. intros o s' _. destruct o; [done|]. by case_match.
  - destruct (value_get _ _) as [eab|].
    + apply then_at_ok; [auto 10 with acme|]. intros [kid cred] s' E.
      apply and_then_ok in E as (k & s1 & E1 & E). apply and_then_ok in E as (c & s2 & E2 & E).
      apply and_then_ok in E as (c' & s3 & E3 & E). injection E as -> -> _. split; [done|]. exists now, s. split; [done|].
      destruct (eab_kid_of eab); [|done]. injection E1 as -> <-. injection E2 as <- <-. cbn.
      destruct (get_eab kid (tables s)); [|done]. by injection E3 as -> _.
    + apply then_at_ok; [by destruct (require_eab cfg)|]. intros b s' E. split; [done|].
      destruct (require_eab cfg) eqn:Er; [done|]. by injection E as <- _.
  - apply then_at_ok; [destruct (eab_used cred); [done|]; by destruct (negb _)|]. intros u s' E.
    destruct Ht as [Hk (t0 & s0 & Hin0 & Hg)]. split; [done|].
    destruct (eab_used cred) eqn:Eu; [done|]. destruct (verify_eab _ _ _) eqn:Ev; [|done].
    by exists t0, s0, cred, eab.
  - apply then_at_ok; [destruct (eab_zone cred); auto 10 with acme|]. by intros u s' _.
Qed.

#[local] Instance bound_dec t : Decision (exists v b, t = Bound v b).
Proof. destruct t; try (right; by intros (? & ? & ?)). left. by eauto. Defined.

Lemma advance_ok h now t s :
  (now, s) ∈ h -> handler_ok h t -> Forall (account_ok h) (acme_accounts (tables s)) ->
  handler_ok h (advance now t s).1 /\ Forall (account_ok h) (acme_accounts (tables (advance now t s).2)).
Proof.
  intros Hin Ht Hs. destruct (decide (exists v b, t = Bound v b)) as [(v & b & ->)|Hn].
  - pose proof (stores_account h v b s Ht Hs) as Hf. cbn [advance]. unfold then_at. fold (finish v b).
    by destruct (finish v b s) as [[]].
  - destruct (advance_quiet h now t s) as [H1 H2]; [destruct t; try done; by destruct Hn; eauto|done|done|].
    split; [exact H1|]. unfold same_accounts in H2. by rewrite H2.
Qed.

Lemma overlapping_ok h ts now s :
  overlapping h ts now s -> Forall (handler_ok h) ts /\ Forall (account_ok h) (acme_accounts (tables s)).
Proof.
  induction 1 as [now db cache d|h ts now s body _ [IH1 IH2]|h ts now now' s i t _ [IH1 IH2] Hle Ht|h ts now now' s s' _ [IH1 IH2] Hle Hstep].
  - split; constructor.
  - split; [|done]. apply Forall_app_2; [done|]. by apply Forall_singleton.
  - assert (Forall (handler_ok ((now', s) :: h)) ts) as H1 by (eapply Forall_impl; [exact IH1|apply handler_later]).
    assert (Forall (account_ok ((now', s) :: h)) (acme_accounts (tables s))) as H2
      by (eapply Forall_impl; [exact IH2|apply account_later]).
    destruct (advance_ok ((now', s) :: h) now' t s) as [H3 H4]; [by left|by eapply Forall_lookup_1|done|].
    split; [|done]. by apply Forall_insert.
  - split; [eapply Forall_impl; [exact IH1|apply handler_later]|].
    rewrite (aside_accounts now' s s' Hstep). eapply Forall_impl; [exact IH2|apply account_later].
Qed.

(** C16: an account is bound to a credential only for the holder of its key, and
    requests that do not overlap spend it once. However the handlers of new accounts
    interleave, step by step, with one another and with all else that happens: where
    the server requires a binding every account has one; and of each account bound to
    a credential, the credential was there unused at a moment of the run, a binding
    made with its secret key named the account's own key, and the account's zone is
    the credential's. When the requests are handled one after another, a bound
    account is moreover the only one of its credential, which is marked used. Handlers
    that overlap can enroll several ([overlapping_enrollments_share_credential]). *)
Theorem credential_enrolls_holder `{JL : !JoseLaws} :
  (forall h ts now s a, overlapping h ts now s -> a ∈ acme_accounts (tables s) ->
     (require_eab cfg = true -> is_Some (acc_eab_kid a)) /\
     forall kid, acc_eab_kid a = Some kid -> enrolled_under h a kid) /\
  (forall h now s a kid, run cfg root_cn h now s -> a ∈ acme_accounts (tables s) -> acc_eab_kid a = Some kid ->
     (forall e, get_eab kid (tables s) = Some e -> eab_used e = true) /\
     (forall b, b ∈ acme_accounts (tables s) -> acc_eab_kid b = Some kid -> b = a)).
Proof.
  split.
  - intros h ts now s a Ho Ha. destruct (overlapping_ok h ts now s Ho) as [_ H]. rewrite Forall_forall in H. by apply H.
  - intros h now s a kid Hr Ha Hk. by eapply credential_spent_once.
Qed.

(** ** A schedule *)

(** The handlers take their steps in the order of the list. *)
Fixpoint scheduled (now : Z) (order : list nat) (ts : list Enrolling) (s : AcmeSt) : list Enrolling * AcmeSt :=
  match order with
  | [] => (ts, s)
  | i :: order =>
      match ts !! i with
      | Some t => let (t, s) := advance now t s in scheduled now order (<[i := t]> ts) s
      | None => (ts, s)
      end
  end.

Lemma scheduled_overlaps now order h ts s :
  overlapping h ts now s -> exists h', overlapping h' (scheduled now order ts s).1 now (scheduled now order ts s).2.
Proof.
  revert h ts s. induction order as [|i order IH]; intros h ts s Ho; cbn; [by exists h|].
  destruct (ts !! i) as [t|] eqn:E; [|by exists h].
  pose proof (o_advance h ts now now s i t Ho ltac:(lia) E) as Ha. destruct (advance now t s) as [t' s']. by eapply IH.
Qed.
End Race.

(** * Two enrollments under one credential *)

Definition two_nonces : AcmeSt := (serve strict_acme 1002 NewNonce strict_nonce).2.

(** Both handlers read the credential before either marks it. *)
Definition both_read : list nat := [0; 0; 0; 1; 1; 1; 0; 0; 0; 1; 1; 1]%nat.

Definition raced : list Enrolling * AcmeSt := scheduled strict_acme 1002 both_read [Arrived [6]; Arrived [7]] two_nonces.

(** A one-time credential that two requests present at once enrolls both. *)
Theorem overlapping_enrollments_share_credential :
  (exists h, overlapping strict_acme "Home CA" h raced.1 1002 raced.2) /\
  acc_eab_kid <$> acme_accounts (tables raced.2) = [Some (drawn 2); Some (drawn 2)].
Proof.
  split; [|vm_compute; reflexivity]. eapply scheduled_overlaps.
  change [Arrived [6]; Arrived [7]] with (([] ++ [Arrived [6]]) ++ [Arrived [7]]).
  apply o_arrive, o_arrive.
  eapply (o_aside strict_acme _ _ _ 1001 1002 strict_nonce two_nonces); [|lia|by apply aside_serve].
  eapply (o_aside strict_acme _ _ _ 1000 1001 with_credential strict_nonce); [|lia|by apply aside_serve].
  eapply (o_aside strict_acme _ _ _ 999 1000 fresh_ca with_credential); [|lia|apply aside_credential]. apply o_start.
Qed.

Lemma strict_run : run strict_acme "Home CA" [(1002, strict_nonce); (1001, with_credential); (1000, fresh_ca)] 1002 strict_enrolled.
Proof.
  apply (run_step _ _ _ 1001); [|lia|apply step_serve]. apply (run_step _ _ _ 1000); [|lia|apply step_serve].
  apply (run_step _ _ _ 999); [|lia|apply step_credential]. apply run_start.
Qed.

Definition strict_account : AcmeAccount :=
  default (mkAccount "" "" "" None "" None None) (acme_accounts (tables strict_enrolled) !! 0%nat).

(** Of the two accounts of the race each was bound with the credential's key; the one
    of the enrollment without an overlap is the only one. *)
Lemma credential_enrolls_holder_witness :
  (forall a, a ∈ acme_accounts (tables raced.2) -> is_Some (acc_eab_kid a)) /\
  forall b, b ∈ acme_accounts (tables strict_enrolled) -> acc_eab_kid b = Some (drawn 2) -> b = strict_account.
Proof.
  destruct (credential_enrolls_holder strict_acme "Home CA") as [H1 H2]. split.
  - intros a Ha. destruct (proj1 overlapping_enrollments_share_credential) as [h Ho].
    by apply (proj1 (H1 h raced.1 1002 raced.2 a Ho Ha)).
  - apply (proj2 (H2 _ _ _ strict_account (drawn 2) strict_run
      ltac:(apply (list_elem_of_lookup_2 _ 0); vm_compute; reflexivity) ltac:(vm_compute; reflexivity))).
Defined.
