(* ===== verification/Exchange.v ===== *)
(** One question and its answer over each transport: the length-prefixed streams of
    TCP, TLS and QUIC on both sides ([src/src/dns_server.rs],
    [src/src/dot_server.rs], [src/src/doq_server.rs], [src/src/secure_client.rs]),
    the datagrams of a plain forwarder, and HTTP/1.1 of a DoH upstream and of the
    proxies ([src/src/doh_proxy.rs]). Connecting and encrypting are a peer: a
    function from what is written to what can then be read. Time is not modelled
    except for the deadline of a datagram; texts are read octet by octet. *)

From S2P Require Import Prelude RustStr Names Ip Records Rrsig Rdata Wire Message Forwarder.
From stdpp Require Import base sets list option strings.
From Stdlib Require Import ZArith Lia Bool Ascii Sorted.

Open Scope Z_scope.
Local Open Scope rolodex_scope.

(** * Frames *)

(** The length is cast to sixteen bits. *)
Definition frame (msg : list Z) : list Z := be_bytes 2 (as_u 16 (Z.of_nat (length msg))) ++ msg.

(** [u16::try_from] on the length. *)
Definition try_frame (msg : list Z) : option (list Z) := if Z.of_nat (length msg) <=? 65535 then Some (frame msg) else None.

Definition read_exact (n : nat) (stream : list Z) : option (list Z * list Z) :=
  if (n <=? length stream)%nat then Some (take n stream, drop n stream) else None.

Definition read_frame (stream : list Z) : option (list Z * list Z) :=
  '(len, rest) ← read_exact 2 stream; read_exact (Z.to_nat (of_be_bytes len)) rest.

(** What a peer says, given what it was told; [None] when it cannot be reached. *)
Abbreviation Peer := (list Z -> option (list Z)).

(** * Streams on the serving side *)

Section Serving.
Context {St : Type} (ask : list Z -> St -> option (list Z) * St).

(** One turn per message, until the stream ends, a message stays incomplete or a
    query has no answer. A TLS session also ends at an empty message. Every turn
    consumes two octets, so that the length of the stream is enough turns. *)
Fixpoint serve_frames (refuse_empty : bool) (fuel : nat) (stream : list Z) (s : St) : list Z * St :=
  match fuel with
  | O => ([], s)
  | S fuel' =>
      match read_exact 2 stream with
      | None => ([], s)
      | Some (len, rest) =>
          let msg_len := of_be_bytes len in
          if refuse_empty && (msg_len =? 0) then ([], s)
          else match read_exact (Z.to_nat msg_len) rest with
               | None => ([], s)
               | Some (msg, rest) =>
                   match ask msg s with
                   | (None, s) => ([], s)
                   | (Some response, s) =>
                       let (out, s) := serve_frames refuse_empty fuel' rest s in (frame response ++ out, s)
                   end
               end
      end
  end.

Definition handle_tcp_connection (stream : list Z) : St -> list Z * St := serve_frames false (length stream) stream.

Definition handle_dot_connection (stream : list Z) : St -> list Z * St := serve_frames true (length stream) stream.

(** One query per stream. *)
Definition handle_doq_stream (stream : list Z) (s : St) : option (list Z) * St :=
  match read_exact 2 stream with
  | None => (None, s)
  | Some (len, rest) =>
      if of_be_bytes len =? 0 then (None, s)
      else match read_exact (Z.to_nat (of_be_bytes len)) rest with
           | None => (None, s)
           | Some (msg, _) => match ask msg s with (r, s) => (frame <$> r, s) end
           end
  end.
End Serving.

(** * Streams on the asking side *)

(** A framed query and a framed, non-empty response. *)
Definition exchange_framed (peer : Peer) (query : list Z) : option (list Z) :=
  framed ← try_frame query;
  stream ← peer framed;
  '(resp, _) ← read_frame stream;
  match resp with [] => None | _ => Some resp end.

Definition forward_tcp (peer : Peer) (query : list Z) : option (list Z) := exchange_framed peer query.

Definition tls_identity (upstream : Forwarder) : option (string * string) :=
  name ← server_name upstream; host ← hostname upstream; Some (name, host).

(** The peer behind a TLS name. *)
Definition query_dot (peer : string -> Peer) (query : list Z) (upstream : Forwarder) : option (list Z) :=
  framed ← try_frame query;
  identity ← tls_identity upstream;
  exchange_framed (peer identity.1) query.

Definition MAX_DOQ_RESPONSE : Z := 65535.

(** The identifier is zero on the wire, and put back. *)
Definition query_doq (peer : string -> Peer) (query : list Z) (upstream : Forwarder) : option (list Z) :=
  framed ← try_frame query;
  match framed with
  | l1 :: l2 :: id1 :: id2 :: rest =>
      identity ← tls_identity upstream;
      response ← peer identity.2 (l1 :: l2 :: 0 :: 0 :: rest);
      if MAX_DOQ_RESPONSE <? Z.of_nat (length response) then None
      else match response with
           | b1 :: b2 :: ((_ :: _ :: _) as message) =>
               let declared := Z.to_nat (of_be_bytes [b1; b2]) in
               if (length message <? declared)%nat then None
               else match take declared message with
                    | _ :: _ :: body => Some (id1 :: id2 :: body)
                    | _ => None
                    end
           | _ => None
           end
  | _ => None
  end.

(** * Datagrams to a plain forwarder *)

Definition FORWARD_POOL_SIZE : Z := 8.
Definition MAX_UDP_SIZE : nat := 4096.

(** Milliseconds. *)
Definition FORWARD_TIMEOUT : Z := 1500.

(** What a socket receives, with the time since the query was sent. *)
Inductive Received :=
| Datagram (from : SocketAddr) (octets : list Z)
| RecvError.

Record Arrival := mkArrival { at_ms : Z; received : Received }.

(** The pool: the next socket, and which ones are bound. *)
Record ForwardPool := mkPool { forward_socket_idx : Z; forward_sockets : list bool }.

Section Datagrams.
Context {Name Svcb : Type} `{WN : !WireName Name, WC : !WireCodec Name Svcb}.
Abbreviation Question := (@Question Name).

(** [Name::eq_case]: label by label, letter for letter. *)
Definition eq_case (a b : Name) : bool := bool_decide (name_iter a = name_iter b).

(** The checks on one datagram, cut at the size of the buffer. *)
Definition is_reply (expected_id : Z) (sent_question : option Question) (target from : SocketAddr) (buf : list Z) : bool :=
  bool_decide (from = target) &&
  match buf with b0 :: b1 :: _ => of_be_bytes [b0; b1] =? expected_id | _ => false end &&
  match from_bytes buf with
  | None => false
  | Some msg =>
      match sent_question with
      | None => true
      | Some asked =>
          match queries msg with
          | [] => false
          | got :: _ => (qd_type got =? qd_type asked) && (qd_class got =? qd_class asked) && eq_case (qd_name got) (qd_name asked)
          end
      end
  end.

(** Until a datagram passes every check or the deadline expires. *)
Fixpoint await_reply (expected_id : Z) (sent_question : option Question) (target : SocketAddr) (arrivals : list Arrival)
  : option (list Z) :=
  match arrivals with
  | [] => None
  | a :: arrivals' =>
      if FORWARD_TIMEOUT <=? at_ms a then None
      else match received a with
           | RecvError => None
           | Datagram from octets =>
               let buf := take MAX_UDP_SIZE octets in
               if is_reply expected_id sent_question target from buf then Some buf
               else await_reply expected_id sent_question target arrivals'
           end
  end.

(** What is sent for a query: with random letter case, where it has a name. *)
Definition randomized (qname_randomization : bool) (coin : nat -> bool) (query_data : list Z) : list Z :=
  if qname_randomization
  then match randomize_qname_case coin query_data with Some (modified, _, _) => modified | None => query_data end
  else query_data.

Definition first_question (data : list Z) : option Question := m ← from_bytes data; head (queries m).

(** [net] is what arrives after a datagram was sent, or that it cannot be sent;
    [can_bind] that a socket is to be had. *)
Definition forward_udp (qname_randomization : bool) (coin : nat -> bool) (can_bind : bool)
    (net : SocketAddr -> list Z -> option (list Arrival)) (query_data : list Z) (target : SocketAddr) (p : ForwardPool)
  : option (list Z) * ForwardPool :=
  let idx := Z.to_nat (forward_socket_idx p mod FORWARD_POOL_SIZE) in
  let next := as_u 64 (forward_socket_idx p + 1) in
  if negb (default false (forward_sockets p !! idx)) && negb can_bind then (None, mkPool next (forward_sockets p))
  else
    let p := mkPool next (<[idx := true]> (forward_sockets p)) in
    let send_data := randomized qname_randomization coin query_data in
    (if (length send_data <? 12)%nat then None
     else arrivals ← net target send_data;
          await_reply (of_be_bytes (take 2 send_data)) (first_question send_data) target arrivals,
     p).
End Datagrams.

(** ** Frames read back *)

Definition fits (msg : list Z) : Prop := Z.of_nat (length msg) <= 65535.

Lemma read_exact_app n l rest : length l = n -> read_exact n (l ++ rest) = Some (l, rest).
Proof.
  intros <-. unfold read_exact. rewrite length_app, (proj2 (Nat.leb_le _ _)) by lia.
  by rewrite take_app_length, drop_app_length.
Qed.

Lemma frame_length_octets msg : fits msg -> of_be_bytes (be_bytes 2 (as_u 16 (Z.of_nat (length msg)))) = Z.of_nat (length msg).
Proof.
  intros Hf. unfold fits in Hf. rewrite as_u_id by (unfold is_u; lia). rewrite of_be_bytes_be_bytes. apply Z.mod_small. simpl. lia.
Qed.

Lemma read_header msg rest : read_exact 2 (frame msg ++ rest) = Some (be_bytes 2 (as_u 16 (Z.of_nat (length msg))), msg ++ rest).
Proof. unfold frame. rewrite <- app_assoc. apply read_exact_app, length_be_bytes. Qed.

Lemma read_frame_frame msg rest : fits msg -> read_frame (frame msg ++ rest) = Some (msg, rest).
Proof.
  intros Hf. unfold read_frame. rewrite read_header. cbn [mbind option_bind]. rewrite frame_length_octets, Nat2Z.id by done. by apply read_exact_app.
Qed.

Lemma try_frame_fits msg : fits msg -> try_frame msg = Some (frame msg).
Proof. intros Hf. unfold try_frame, fits in *. by rewrite (proj2 (Z.leb_le _ _)) by lia. Qed.

(** The two octets of the length do not depend on the identifier. *)
Lemma frame_of_message body : Z.of_nat (length body + 2) <= 65535 -> exists l1 l2,
  of_be_bytes [l1; l2] = Z.of_nat (length body + 2) /\ forall a b, frame (a :: b :: body) = l1 :: l2 :: a :: b :: body.
Proof.
  intros Hf. destruct (be_bytes 2 (as_u 16 (Z.of_nat (length body + 2)))) as [|l1 [|l2 [|]]] eqn:E;
    try (apply (f_equal length) in E; rewrite length_be_bytes in E; discriminate).
  exists l1, l2. rewrite <- E. split.
  - pose proof (frame_length_octets (0 :: 0 :: body)) as H. cbn [length] in H. rewrite <- !plus_n_Sm, Nat.add_0_r. apply H. unfold fits. simpl. lia.
  - intros a b. unfold frame. cbn [length]. rewrite <- !plus_n_Sm, Nat.add_0_r in E. by rewrite E.
Qed.

Lemma length_frame msg : length (frame msg) = (2 + length msg)%nat.
Proof. unfold frame. by rewrite length_app, length_be_bytes. Qed.

(** What a client that reads as [read_frame] does finds in a stream. *)
Fixpoint read_frames (n : nat) (stream : list Z) : option (list (list Z)) :=
  match n with
  | O => Some []
  | S n' => '(msg, rest) ← read_frame stream; cons msg <$> read_frames n' rest
  end.

Lemma read_frames_join rs rest : Forall fits rs -> read_frames (length rs) (concat (map frame rs) ++ rest) = Some rs.
Proof.
  induction 1 as [|r rs Hr _ IH]; [done|]. cbn [length read_frames map concat]. rewrite <- app_assoc, read_frame_frame by done.
  cbn [mbind option_bind]. by rewrite IH.
Qed.

Section Conversations.
Context {St : Type} (ask : list Z -> St -> option (list Z) * St).

(** The answers to queries asked one after the other. *)
Fixpoint ask_all (qs : list (list Z)) (s : St) : option (list (list Z)) * St :=
  match qs with
  | [] => (Some [], s)
  | q :: qs' =>
      match ask q s with
      | (None, s) => (None, s)
      | (Some r, s) => let (rs, s) := ask_all qs' s in (cons r <$> rs, s)
      end
  end.

Lemma serve_frames_all refuse_empty qs fuel s rs s' :
  Forall (fun q => fits q /\ (refuse_empty = true -> q <> [])) qs -> (length qs < fuel)%nat ->
  ask_all qs s = (Some rs, s') ->
  serve_frames ask refuse_empty fuel (concat (map frame qs)) s = (concat (map frame rs), s').
Proof.
  intros Hq. revert fuel s rs. induction Hq as [|q qs [Hf He] _ IH]; intros fuel s rs Hl Ha.
  - injection Ha as <- <-. by destruct fuel.
  - destruct fuel as [|fuel]; [simpl in Hl; lia|]. cbn [ask_all] in Ha. destruct (ask q s) as [[r|] s1] eqn:Eq; [|done].
    destruct (ask_all qs s1) as [[rs'|] s2] eqn:Er; [|done]. injection Ha as <- <-.
    cbn [serve_frames map concat]. rewrite read_header. cbv zeta. rewrite frame_length_octets by done.
    replace (refuse_empty && (Z.of_nat (length q) =? 0)) with false.
    + rewrite Nat2Z.id, read_exact_app, Eq by done. simpl in Hl. by rewrite (IH fuel s1 rs') by (done || lia).
    + symmetry. apply andb_false_iff. destruct refuse_empty; [right|by left]. specialize (He eq_refl).
      apply Z.eqb_neq. destruct q; [done|]. simpl. lia.
Qed.

Lemma frames_longer qs : (length qs <= length (concat (map frame qs)))%nat.
Proof.
  induction qs as [|q qs IH]; [done|]. cbn [map concat length]. rewrite length_app, length_frame.
  lia.
Qed.

Lemma handle_doq_one q r s1 s : ask q s = (Some r, s1) -> fits q -> q <> [] -> (handle_doq_stream ask (frame q) s).1 = Some (frame r).
Proof.
  intros Eq Hf Hn. unfold handle_doq_stream. rewrite <- (app_nil_r (frame q)), read_header, app_nil_r, frame_length_octets by done.
  rewrite (proj2 (Z.eqb_neq _ _)) by (destruct q; [done|]; cbn [length]; lia).
  rewrite Nat2Z.id. pose proof (read_exact_app (length q) q [] eq_refl) as H. rewrite app_nil_r in H. by rewrite H, Eq.
Qed.

(** C30: the framed transports carry questions and answers exactly. A connection that is
    sent any number of queries at once, over TCP or TLS, answers all of them, in
    order, one frame each, which a client that reads as this program does reads back;
    so that asking over TCP, or TLS with a name to check, gives the answer the other
    side has, and asking over QUIC gives it with the identifier of the query, which
    the other side does not see. *)
Theorem framed_transports_exact qs s rs s' :
  qs <> [] -> Forall (fun q => fits q /\ q <> []) qs -> ask_all qs s = (Some rs, s') -> Forall fits rs ->
  handle_tcp_connection ask (concat (map frame qs)) s = (concat (map frame rs), s') /\
  handle_dot_connection ask (concat (map frame qs)) s = (concat (map frame rs), s') /\
  read_frames (length rs) (concat (map frame rs)) = Some rs /\
  forall q r s1, ask q s = (Some r, s1) -> fits q -> q <> [] -> fits r -> r <> [] ->
    forward_tcp (fun w => Some (handle_tcp_connection ask w s).1) q = Some r /\
    forall upstream identity, tls_identity upstream = Some identity ->
      query_dot (fun _ w => Some (handle_dot_connection ask w s).1) q upstream = Some r /\
      forall id1 id2 body a1 a2 answer,
        q = 0 :: 0 :: body -> r = a1 :: a2 :: answer -> Z.of_nat (length r) < 65534 ->
        query_doq (fun _ w => (handle_doq_stream ask w s).1) (id1 :: id2 :: body) upstream = Some (id1 :: id2 :: answer).
Proof.
  intros Hne Hq Ha Hr.
  assert (forall b, serve_frames ask b (length (concat (map frame qs))) (concat (map frame qs)) s = (concat (map frame rs), s')) as Hall.
  { intros b. apply serve_frames_all; [| |done].
    - eapply Forall_impl; [exact Hq|]. intros q [H1 H2]. by split.
    - pose proof (frames_longer (tail qs)). destruct qs as [|q qs]; [done|].
      cbn [map concat length tail] in *. rewrite length_app, length_frame. lia. }
  split_and!; [apply Hall|apply Hall|by rewrite <- (app_nil_r (concat _)), read_frames_join|].
  intros q r s1 Eq Hfq Hnq Hfr Hnr.
  assert (forall b, (serve_frames ask b (length (frame q)) (frame q) s).1 = frame r) as Hone.
  { intros b. pose proof (serve_frames_all b [q] (length (frame q)) s [r] s1) as H. cbn [map concat] in H. rewrite !app_nil_r in H.
    rewrite H; [done|by repeat constructor|rewrite length_frame; cbn [length]; lia|cbn [ask_all]; by rewrite Eq]. }
  assert (forall peer, peer (frame q) = Some (frame r) -> exchange_framed peer q = Some r) as Hex.
  { intros peer Hp. unfold exchange_framed. rewrite try_frame_fits by done. simpl. rewrite Hp. simpl.
    pose proof (read_frame_frame r [] Hfr) as Hrf. rewrite app_nil_r in Hrf. rewrite Hrf. by destruct r. }
  split; [apply Hex; unfold handle_tcp_connection; by rewrite Hone|]. intros upstream identity Hid. split.
  - unfold query_dot. rewrite try_frame_fits by done. simpl. rewrite Hid. simpl. apply Hex. unfold handle_dot_connection. by rewrite Hone.
  - intros id1 id2 body a1 a2 answer -> -> Hlen. cbn [length] in Hlen. unfold fits in Hfq. cbn [length] in Hfq.
    destruct (frame_of_message body) as (l1 & l2 & El & Hl); [lia|].
    destruct (frame_of_message answer) as (m1 & m2 & Em & Hm); [lia|].
    unfold query_doq. rewrite try_frame_fits by (unfold fits; cbn [length]; lia). rewrite Hl. cbn [mbind option_bind]. rewrite Hid.
    cbn [mbind option_bind]. rewrite <- Hl, (handle_doq_one (0 :: 0 :: body) (a1 :: a2 :: answer) s1) by done.
    cbn [mbind option_bind]. rewrite length_frame, (proj2 (Z.ltb_ge _ _)) by (unfold MAX_DOQ_RESPONSE; cbn [length]; lia).
    rewrite Hm, Em, Nat2Z.id, (proj2 (Nat.ltb_ge _ _)) by (cbn [length]; lia).
    by rewrite take_ge by (cbn [length]; lia).
Qed.
End Conversations.

(** ** Datagrams *)

Section Replies.
Context {Name Svcb : Type} `{WN : !WireName Name, WC : !WireCodec Name Svcb}.

(** A datagram that answers what was sent: from the address asked, with the
    identifier sent, a message, and for the question sent, in its letters. *)
Definition answers_sent (send_data : list Z) (target : SocketAddr) (a : Arrival) : option (list Z) :=
  match received a with
  | RecvError => None
  | Datagram from octets =>
      let buf := take MAX_UDP_SIZE octets in
      if bool_decide (from = target /\ at_ms a < FORWARD_TIMEOUT /\ (2 <= length buf)%nat /\
                      of_be_bytes (take 2 buf) = of_be_bytes (take 2 send_data))
      then msg ← from_bytes buf;
           match first_question send_data, head (queries msg) with
           | None, _ => Some buf
           | Some _, None => None
           | Some asked, Some got =>
               if bool_decide (qd_type got = qd_type asked /\ qd_class got = qd_class asked /\
                               name_iter (qd_name got) = name_iter (qd_name asked))
               then Some buf else None
           end
      else None
  end.

Lemma is_reply_sent send_data target t from octets : t < FORWARD_TIMEOUT ->
  answers_sent send_data target (mkArrival t (Datagram from octets)) =
  if is_reply (of_be_bytes (take 2 send_data)) (first_question send_data) target from (take MAX_UDP_SIZE octets)
  then Some (take MAX_UDP_SIZE octets) else None.
Proof.
  intros Ht. unfold answers_sent, is_reply. cbn [received at_ms]. set (buf := take MAX_UDP_SIZE octets). cbv zeta.
  case_bool_decide as Hb.
  - destruct Hb as (-> & _ & Hl & Hid). rewrite bool_decide_eq_true_2 by done. destruct buf as [|b0 [|b1 buf']]; [simpl in Hl; lia..|].
    cbn [take] in Hid. replace (of_be_bytes [b0; b1] =? of_be_bytes (take 2 send_data)) with true by (symmetry; by apply Z.eqb_eq).
    cbn [andb]. destruct (from_bytes _) as [msg|]; [|done]. cbn [mbind option_bind]. destruct (first_question send_data) as [asked|]; [|done].
    destruct (queries msg) as [|got qs]; [done|]. cbn [head]. unfold eq_case.
    repeat case_bool_decide; destruct (Z.eqb_spec (qd_type got) (qd_type asked)), (Z.eqb_spec (qd_class got) (qd_class asked)); naive_solver.
  - destruct (bool_decide (from = target)) eqn:Ef; [|done]. apply bool_decide_eq_true in Ef as ->. cbn [andb].
    destruct buf as [|b0 [|b1 buf']] eqn:Eb; [done..|].
    destruct (Z.eqb_spec (of_be_bytes [b0; b1]) (of_be_bytes (take 2 send_data))) as [E|E]; [|done].
    exfalso. apply Hb. cbn [length take]. split_and!; [done..|lia|exact E].
Qed.

(** [find_map]. *)
Definition find_map {A B} (f : A -> option B) (l : list A) : option B := head (omap f l).

Lemma omap_none {A B} (f : A -> option B) (l : list A) : Forall (fun a => f a = None) l -> omap f l = [].
Proof. induction 1 as [|a l Ha _ IH]; [done|]. cbn [omap list_omap]. by rewrite Ha. Qed.

Lemma late_unanswered send_data target a : FORWARD_TIMEOUT <= at_ms a -> answers_sent send_data target a = None.
Proof.
  intros H. unfold answers_sent. destruct (received a); [|done]. cbv zeta. by rewrite bool_decide_eq_false_2 by lia.
Qed.

Lemma await_reply_first send_data target arrivals :
  StronglySorted (fun a b => at_ms a <= at_ms b) arrivals -> Forall (fun a => received a <> RecvError) arrivals ->
  await_reply (of_be_bytes (take 2 send_data)) (first_question send_data) target arrivals =
  find_map (answers_sent send_data target) arrivals.
Proof.
  unfold find_map. induction 1 as [|a l Hs IH Hf]; [done|]. intros Hr. apply Forall_cons in Hr as [Hr Hrs]. cbn [await_reply].
  destruct (Z.leb_spec FORWARD_TIMEOUT (at_ms a)) as [Hlate|Htime].
  - replace (omap _ (a :: l)) with (@nil (list Z)); [done|]. symmetry. apply omap_none.
    constructor; [by apply late_unanswered|]. eapply Forall_impl; [exact Hf|]. intros b Hb. cbn beta in Hb. apply late_unanswered. lia.
  - destruct a as [t [from octets|]]; [|done]. cbn [received at_ms] in *. cbn [omap list_omap]. rewrite is_reply_sent by done.
    destruct (is_reply _ _ _ _ _); [done|]. by apply IH.
Qed.

Lemma omap_answers_skip send_data target before forged after :
  Forall (fun a => answers_sent send_data target a = None) forged ->
  omap (answers_sent send_data target) (before ++ forged ++ after) = omap (answers_sent send_data target) (before ++ after).
Proof. intros H. by rewrite !omap_app, (omap_none _ forged). Qed.

Lemma forward_udp_result rnd coin net query_data target p arrivals :
  (12 <= length (randomized rnd coin query_data))%nat ->
  net target (randomized rnd coin query_data) = Some arrivals ->
  StronglySorted (fun a b => at_ms a <= at_ms b) arrivals -> Forall (fun a => received a <> RecvError) arrivals ->
  (forward_udp rnd coin true net query_data target p).1 = find_map (answers_sent (randomized rnd coin query_data) target) arrivals.
Proof.
  intros Hl Hn Hs Hr. unfold forward_udp. cbv zeta. rewrite andb_false_r. cbn [fst].
  rewrite (proj2 (Nat.ltb_ge _ _)), Hn by done. cbn [mbind option_bind]. by apply await_reply_first.
Qed.

(** C17: a forwarder's answer cannot be displaced. Over plain datagrams the server takes
    the first that comes before the deadline from the address it asked, carries the
    identifier it sent and answers the question it sent, in the random letter case
    it was sent in; whatever else reaches the socket at any point, late replies to
    other queries and forgeries that guess one of these wrong included, changes
    nothing, and cannot make the query fail. *)
Theorem forged_datagrams_ignored rnd coin net net' query_data target p before forged after :
  let sent := randomized rnd coin query_data in
  (12 <= length sent)%nat ->
  net target sent = Some (before ++ after) -> net' target sent = Some (before ++ forged ++ after) ->
  StronglySorted (fun a b => at_ms a <= at_ms b) (before ++ forged ++ after) ->
  Forall (fun a => received a <> RecvError) (before ++ forged ++ after) ->
  Forall (fun a => answers_sent sent target a = None) forged ->
  forward_udp rnd coin true net' query_data target p = forward_udp rnd coin true net query_data target p /\
  (forward_udp rnd coin true net query_data target p).1 = find_map (answers_sent sent target) (before ++ after).
Proof.
  intros sent Hl Hn Hn' Hs Hr Hf.
  assert (StronglySorted (fun a b => at_ms a <= at_ms b) (before ++ after) /\ Forall (fun a => received a <> RecvError) (before ++ after)) as [Hs1 Hr1].
  { apply Forall_app in Hr as [Hr1 Hr2]. apply Forall_app in Hr2 as [_ Hr3]. split; [|by apply Forall_app].
    clear -Hs. induction before as [|b bs IH]; simpl in *.
    - induction forged as [|x xs IH]; [done|]. simpl in Hs. apply StronglySorted_inv in Hs as [Hs _]. auto.
    - apply StronglySorted_inv in Hs as [Hs Hb]. constructor; [auto|]. rewrite !Forall_app in *. tauto. }
  split; [|by apply forward_udp_result].
  apply injective_projections; [|by unfold forward_udp; cbv zeta; rewrite andb_false_r].
  rewrite (forward_udp_result _ _ _ _ _ _ _ Hl Hn' Hs Hr), (forward_udp_result _ _ _ _ _ _ _ Hl Hn Hs1 Hr1).
  unfold find_map. by rewrite omap_answers_skip.
Qed.
End Replies.

(** * Instances *)

(** A server that reverses the message after its identifier, and counts. *)
Definition reversing (q : list Z) (s : nat) : option (list Z) * nat :=
  match q with a :: b :: rest => (Some (a :: b :: rev rest), S s) | _ => (None, s) end.

Definition sample_dot : Forwarder := mkForwarder Dot (mkSocket (V4 134744072) 853) (Some "dns.google"%string) (Some "dns.google"%string) None "dns.google"%string 0.

Lemma framed_transports_exact_witness :
  handle_tcp_connection reversing ([0; 4; 0; 0; 8; 9] ++ [0; 3; 7; 7; 5]) O = ([0; 4; 0; 0; 9; 8] ++ [0; 3; 7; 7; 5], 2%nat) /\
  forward_tcp (fun w => Some (handle_tcp_connection reversing w O).1) [0; 0; 8; 9] = Some [0; 0; 9; 8] /\
  query_dot (fun _ w => Some (handle_dot_connection reversing w O).1) [0; 0; 8; 9] sample_dot = Some [0; 0; 9; 8] /\
  query_doq (fun _ w => (handle_doq_stream reversing w O).1) [171; 205; 8; 9] sample_dot = Some [171; 205; 9; 8].
Proof.
  destruct (framed_transports_exact reversing [[0; 0; 8; 9]; [7; 7; 5]] O [[0; 0; 9; 8]; [7; 7; 5]] 2%nat) as (H1 & _ & _ & H2);
    [done|by repeat constructor|reflexivity|by repeat constructor|].
  destruct (H2 [0; 0; 8; 9] [0; 0; 9; 8] 1%nat) as [H3 H4]; [reflexivity|done..|].
  destruct (H4 sample_dot ("dns.google"%string, "dns.google"%string)) as [H5 H6]; [reflexivity|].
  split; [exact H1|]. split; [exact H3|]. split; [exact H5|]. exact (H6 171 205 [8; 9] 0 0 [9; 8] eq_refl eq_refl eq_refl).
Defined.

(** Messages that are a header, a name and a type. *)
#[export] Instance octet_name : WireName (list Z) := {|
  from_ascii _ := None;
  name_to_string _ := ""%string;
  name_iter n := [String.string_of_list_ascii ((fun z => ascii_of_nat (Z.to_nat z)) <$> n)];
|}.

#[export] Instance octet_codec : WireCodec (list Z) unit := {|
  to_bytes _ := None;
  from_bytes bs :=
    name ← extract_qname (drop 12 bs); t ← wire_qtype bs;
    Some (mkMessage (of_be_bytes (take 2 bs)) true 0 0 true true false false false [mkQuestion name t class_in] [] [] [] None);
|}.

Definition asked_query : list Z := wire_query (5 :: 6 :: repeat 0 10) sample_labels [0; 12; 0; 1].
Abbreviation sent_query := (randomized true Nat.even asked_query).

Definition sample_target : SocketAddr := mkSocket (V4 134744072) 53.
Definition elsewhere : SocketAddr := mkSocket (V4 16843009) 53.

(** From elsewhere; with another identifier; in the letters that were asked for. *)
Definition forgeries : list Arrival :=
  [mkArrival 3 (Datagram elsewhere sent_query);
   mkArrival 4 (Datagram sample_target (5 :: 7 :: drop 2 sent_query));
   mkArrival 4 (Datagram sample_target asked_query)].

Definition real_reply : Arrival := mkArrival 20 (Datagram sample_target (sent_query ++ [1; 2; 3])).

Lemma forged_datagrams_ignored_witness :
  forward_udp true Nat.even true (fun _ _ => Some (forgeries ++ [real_reply])) asked_query sample_target (mkPool 9 (repeat false 8)) =
    (Some (sent_query ++ [1; 2; 3]), mkPool 10 [false; true; false; false; false; false; false; false]).
Proof.
  destruct (forged_datagrams_ignored true Nat.even (fun _ _ => Some [real_reply]) (fun _ _ => Some (forgeries ++ [real_reply]))
    asked_query sample_target (mkPool 9 (repeat false 8)) [] forgeries [real_reply]) as [H _].
  - vm_compute. lia.
  - reflexivity.
  - reflexivity.
  - repeat constructor; simpl; lia.
  - by repeat constructor.
  - repeat (apply List.Forall_cons; [vm_compute; reflexivity|]). apply List.Forall_nil.
  - rewrite H. vm_compute. reflexivity.
Defined.
