(* ===== verification/Http.v ===== *)
(** DNS over HTTP: what the two DoH listeners answer ([src/src/doh_server.rs],
    [src/src/doh_h3_server.rs]), the DoH upstream ([src/src/secure_client.rs]) and
    the proxies of a forwarder ([src/src/doh_proxy.rs]). Routing, TLS and QUIC belong
    to libraries; a request is what a handler is given of it. Texts are octet by
    octet, letter case and white space are ASCII. *)

From S2P Require Import Prelude RustStr Names Ip Records Rrsig Rdata Wire Message Forwarder Exchange.
From stdpp Require Import base gmap sets list option strings.
From Stdlib Require Import ZArith Lia Bool Ascii.

Open Scope Z_scope.
Local Open Scope rolodex_scope.

(** * The listeners *)

Record Response := mkResponse {
  status : Z;
  content_type : option string;
  cache_control : option string;
  alt_svc : option string;
  body : list Z;
}.

(** Base64url without padding. *)
Class Base64Url := {
  b64url_decode : string -> option (list Z);
  b64url_encode : list Z -> string;
}.

(** The alphabet of RFC 4648, section 5. *)
Definition is_b64url (c : ascii) : bool :=
  let n := nat_of_ascii c in
  ((48 <=? n) && (n <=? 57) || (65 <=? n) && (n <=? 90) || (97 <=? n) && (n <=? 122) || (n =? 45) || (n =? 95))%nat.

Class Base64UrlLaws `{!Base64Url} := {
  b64url_decode_encode bs : Forall (is_u 8) bs -> b64url_decode (b64url_encode bs) = Some bs;
  b64url_alphabet bs : str_forall is_b64url (b64url_encode bs) = true;
}.

Inductive Method := GET | POST | OtherMethod.

(** A request on an HTTP/3 stream: the frames of its body in order, [None] for a
    read that fails. *)
Record H3Request := mkH3Request {
  h3_method : Method;
  h3_path : string;
  h3_query : option string;
  h3_frames : list (option (list Z));
}.

Definition DNS_QUERY_PATH : string := "/dns-query".
Definition MAX_REQUEST_BODY : Z := 65535.
Definition ALT_SVC_MAX_AGE : Z := 86400.

(** The value of the first [dns=]. *)
Definition dns_param (query : option string) : option string :=
  query ← query;
  head (omap (fun pair => '(k, v) ← split_once "=" pair; if (k =? "dns")%string then Some v else None) (split_on "&" query)).

(** The body so far and the rest of the frames. *)
Fixpoint read_body (body : list Z) (frames : list (option (list Z))) : result (list Z) Z :=
  match frames with
  | [] => match body with [] => Err 400 | _ => Ok body end
  | None :: _ => Err 400
  | Some chunk :: frames' =>
      if MAX_REQUEST_BODY <? Z.of_nat (length body + length chunk) then Err 413
      else read_body (body ++ chunk) frames'
  end.

Section Listeners.
Context {Name Svcb : Type} `{WC : !WireCodec Name Svcb, B64U : !Base64Url}.
Context {St : Type} (ask : list Z -> St -> option (list Z) * St).

Definition extract_min_ttl (response_bytes : list Z) : Z :=
  match from_bytes response_bytes with
  | Some msg =>
      match w_ttl <$> answers msg with
      | [] => 0
      | t :: ts => foldr Z.min t ts
      end
  | None => 0
  end.

Definition dns_response (response : list Z) : Response :=
  mkResponse 200 (Some "application/dns-message"%string)
    (Some ("max-age=" +:+ show_dec (extract_min_ttl response))%string) None response.

(** A refusal of the TCP listener is a line of text. *)
Definition text_response (code : Z) (text : string) : Response :=
  mkResponse code (Some "text/plain; charset=utf-8"%string) None None (str_bytes text).

Definition doh_resolve (query : list Z) (s : St) : Response * St :=
  match ask query s with
  | (Some response, s) => (dns_response response, s)
  | (None, s) => (text_response 500 "DNS query failed", s)
  end.

Definition handle_doh_post (body : list Z) : St -> Response * St := doh_resolve body.

Definition handle_doh_get (dns : option string) (s : St) : Response * St :=
  match dns with
  | None => (text_response 400 "missing 'dns' query parameter", s)
  | Some d =>
      match b64url_decode d with
      | None => (text_response 400 "invalid base64url encoding", s)
      | Some query_data => doh_resolve query_data s
      end
  end.

Definition add_alt_svc (port : Z) (r : Response) : Response :=
  mkResponse (status r) (content_type r) (cache_control r)
    (Some ("h3=" +:+ String (ascii_of_nat 34) (":" +:+ show_dec port) +:+ String (ascii_of_nat 34) ("; ma=" +:+ show_dec ALT_SVC_MAX_AGE))%string)
    (body r).

(** The layer [build_router] puts on, when there is an HTTP/3 listener. *)
Definition advertise (h3_port : option Z) (r : Response) : Response :=
  match h3_port with Some port => add_alt_svc port r | None => r end.

Definition decode_dns_param (param : string) : option (list Z) :=
  decoded ← b64url_decode (trim_end_matches "=" param);
  if bool_decide (decoded <> []) && (Z.of_nat (length decoded) <=? MAX_REQUEST_BODY) then Some decoded else None.

Definition read_query (request : H3Request) : result (list Z) Z :=
  if negb (h3_path request =? DNS_QUERY_PATH)%string then Err 404
  else match h3_method request with
       | GET => match dns_param (h3_query request) ≫= decode_dns_param with Some q => Ok q | None => Err 400 end
       | POST => read_body [] (h3_frames request)
       | OtherMethod => Err 405
       end.

Definition respond (code : Z) (content : list Z) (max_age : option Z) : Response :=
  match max_age with
  | Some t => mkResponse code (Some "application/dns-message"%string) (Some ("max-age=" +:+ show_dec t)%string) None content
  | None => mkResponse code None None None content
  end.

Definition handle_h3_request (request : H3Request) (s : St) : Response * St :=
  match read_query request with
  | Err code => (respond code [] None, s)
  | Ok query =>
      match ask query s with
      | (None, s) => (respond 500 [] None, s)
      | (Some response, s) => (respond 200 response (Some (extract_min_ttl response)), s)
      end
  end.
End Listeners.

(** * HTTP/1.1 as the clients read it *)

(** [from_utf8]: well-formed UTF-8. *)
Fixpoint is_utf8 (bs : list Z) : bool :=
  let cont b := (128 <=? b) && (b <=? 191) in
  match bs with
  | [] => true
  | b0 :: r0 =>
      if b0 <? 128 then is_utf8 r0
      else match r0 with
           | [] => false
           | b1 :: r1 =>
               if (194 <=? b0) && (b0 <=? 223) then cont b1 && is_utf8 r1
               else match r1 with
                    | [] => false
                    | b2 :: r2 =>
                        if (224 <=? b0) && (b0 <=? 239)
                        then cont b1 && (if b0 =? 224 then 160 <=? b1 else true) && (if b0 =? 237 then b1 <=? 159 else true)
                             && cont b2 && is_utf8 r2
                        else match r2 with
                             | [] => false
                             | b3 :: r3 =>
                                 (240 <=? b0) && (b0 <=? 244) && cont b1
                                 && (if b0 =? 240 then 144 <=? b1 else true) && (if b0 =? 244 then b1 <=? 143 else true)
                                 && cont b2 && cont b3 && is_utf8 r3
                             end
                    end
           end
  end.

Definition text_of (bs : list Z) : string := String.string_of_list_ascii ((fun z => ascii_of_N (Z.to_N z)) <$> bs).

(** [str::lines]. *)
Definition lines (s : string) : list string :=
  let strip l := default l (str_strip_suffix (String (ascii_of_nat 13) "") l) in
  let parts := split_on (ascii_of_nat 10) s in
  strip <$> (match last parts with Some EmptyString => removelast parts | _ => parts end).

Fixpoint str_contains (needle s : string) : bool :=
  starts_with needle s || match s with EmptyString => false | String _ s' => str_contains needle s' end.

Definition usize_max : Z := u64_max.

Definition content_length_of (line : string) : option Z :=
  v ← str_strip_prefix "content-length:" (to_lowercase line); parse_uint 10 usize_max (str_trim v).

Definition content_length (header_str : string) : option Z := head (omap content_length_of (lines header_str)).

Definition is_chunked (header_str : string) : bool :=
  existsb (fun l => let low := to_lowercase l in starts_with "transfer-encoding:" low && str_contains "chunked" low) (lines header_str).

(** Octet by octet up to a blank line; the octets so far are in reverse. *)
Fixpoint read_head (limit : nat) (seen : list Z) (stream : list Z) : option (list Z * list Z) :=
  match stream with
  | [] => None
  | b :: stream' =>
      let seen := b :: seen in
      if bool_decide (take 4 seen = [10; 13; 10; 13]) then Some (rev seen, stream')
      else if (limit <? length seen)%nat then None
      else read_head limit seen stream'
  end.

(** The index of the first CR LF. *)
Fixpoint find_crlf (data : list Z) : option nat :=
  match data with
  | 13 :: ((10 :: _) as data') => Some O
  | _ :: data' => S <$> find_crlf data'
  | [] => None
  end.

(** Each turn takes at least the two octets of a line end, so that the length of
    the body is enough of them. *)
Fixpoint dechunk_loop (fuel : nat) (out data : list Z) : option (list Z) :=
  match fuel with
  | O => None
  | S fuel' =>
      crlf ← find_crlf data;
      if negb (is_utf8 (take crlf data)) then None
      else
        let size_line := text_of (take crlf data) in
        let hex := str_trim (default EmptyString (head (split_on ";" size_line))) in
        size ← parse_uint 16 usize_max hex;
        let data := drop (crlf + 2) data in
        if size =? 0 then Some out
        else if Z.of_nat (length data) <? size then None
        else
          let n := Z.to_nat size in
          let rest := drop n data in
          dechunk_loop fuel' (out ++ take n data) (match rest with 13 :: 10 :: rest' => rest' | _ => rest end)
  end.

Definition dechunk (data : list Z) : option (list Z) := dechunk_loop (S (length data)) [] data.

(** * A DoH upstream *)

Definition crlf : string := String (ascii_of_nat 13) (String (ascii_of_nat 10) "").

(** What a client may read after it wrote, up to the end of the connection. *)
Definition query_doh (peer : string -> Peer) (query_data : list Z) (upstream : Forwarder) : option (list Z) :=
  identity ← tls_identity upstream;
  let path := default DEFAULT_DOH_PATH (path upstream) in
  let req := ("POST " +:+ path +:+ " HTTP/1.1" +:+ crlf +:+ "Host: " +:+ identity.2 +:+ crlf +:+
              "Content-Type: application/dns-message" +:+ crlf +:+ "Accept: application/dns-message" +:+ crlf +:+
              "Content-Length: " +:+ show_dec (Z.of_nat (length query_data)) +:+ crlf +:+ "Connection: close" +:+ crlf +:+ crlf)%string in
  stream ← peer identity.1 (str_bytes req ++ query_data);
  '(headers, rest) ← read_head (Z.to_nat 16384) [] stream;
  let header_str := text_of headers in
  if negb (str_contains " 200" (default EmptyString (head (lines header_str)))) then None
  else
    body ← (if is_chunked header_str then dechunk rest
            else match content_length header_str with
                 | Some len => if Z.of_nat (length rest) <? len then None else Some (take (Z.to_nat len) rest)
                 | None => Some rest
                 end);
    match body with [] => None | _ => Some body end.

(** Plain transports are refused here. *)
Definition query_secure (peer : Transport -> string -> Peer) (query_data : list Z) (upstream : Forwarder) : option (list Z) :=
  match transport upstream with
  | Doh => query_doh (peer Doh) query_data upstream
  | Dot => query_dot (peer Dot) query_data upstream
  | Doq => query_doq (peer Doq) query_data upstream
  | Do53Udp | Do53Tcp => None
  end.

(** * Proxies *)

Inductive ProxyMode := Connect | Socks5 | DohProxy.

Definition parse_mode (s : string) : ProxyMode :=
  let s := to_lowercase s in
  if (s =? "socks5")%string then Socks5 else if (s =? "doh")%string then DohProxy else Connect.

Definition mode_as_str (m : ProxyMode) : string :=
  match m with Connect => "connect" | Socks5 => "socks5" | DohProxy => "doh" end.

Record ProxyConfig := mkProxy { url : string; auth : option string; mode : ProxyMode }.

(** [trim_start_matches] of a prefix, as often as it occurs. *)
Fixpoint trim_start_str (fuel : nat) (p s : string) : string :=
  match fuel with
  | O => s
  | S fuel' => match str_strip_prefix p s with Some s' => trim_start_str fuel' p s' | None => s end
  end.

Definition parse_proxy_addr (url : string) : string :=
  let strip p s := trim_start_str (S (String.length s)) p s in
  let url := strip "socks5://"%string (strip "https://"%string (strip "http://"%string url)) in
  if str_contains ":" url then url else url +:+ ":8080".

(** A connection: the other side, which says more the more it is told; what was
    written; and how much of what came back is read. An error is its text. *)
Record Conn := mkConn { c_peer : list Z -> list Z; c_written : list Z; c_pos : nat; c_reset : bool }.

Definition unread (c : Conn) : list Z := drop (c_pos c) (c_peer c (c_written c)).
Definition advance (n : nat) (c : Conn) : Conn := mkConn (c_peer c) (c_written c) (c_pos c + n) (c_reset c).

Definition talk (A : Type) : Type := fallible Conn string A.

Definition write_all (bs : list Z) : talk unit := fun c =>
  (Ok tt, mkConn (c_peer c) (c_written c ++ bs) (c_pos c) (c_reset c)).

Definition take_exact (n : nat) : talk (list Z) := fun c =>
  match read_exact n (unread c) with
  | Some (bs, _) => (Ok bs, advance n c)
  | None => (Err "early eof"%string, c)
  end.

(** One read into a buffer: some of what has come, [got] octets at most. *)
Definition take_some (size got : nat) : talk (list Z) := fun c =>
  let bs := take (Nat.min size got) (unread c) in (Ok bs, advance (length bs) c).

Definition take_head (limit : nat) : talk (list Z) := fun c =>
  match read_head limit [] (unread c) with
  | Some (h, _) => (Ok h, advance (length h) c)
  | None => (Err "no response head"%string, c)
  end.

Definition tunnel_dns_query (query_data : list Z) : talk (list Z) :=
  _ <-e write_all (be_bytes 2 (as_u 16 (Z.of_nat (length query_data))));
  _ <-e write_all query_data;
  len <-e take_exact 2;
  take_exact (Z.to_nat (of_be_bytes len)).

Section Proxies.
Context `{B64 : !Base64}.

(** [TcpStream::connect]. *)
Context (connect : string -> option Conn).

Definition on_connection {A} (proxy_addr : string) (m : talk A) : result A string :=
  match connect proxy_addr with Some c => (m c).1 | None => Err "failed to connect to proxy"%string end.

Definition proxy_authorization (proxy_auth : option string) : string :=
  match proxy_auth with
  | Some a => ("Proxy-Authorization: Basic " +:+ b64_encode (str_bytes a) +:+ crlf)%string
  | None => EmptyString
  end.

(** [got] is what the one read of the response finds. *)
Definition forward_via_connect_proxy (got : nat) (query_data : list Z) (upstream : SocketAddr) (proxy_url : string)
    (proxy_auth : option string) : result (list Z) string :=
  on_connection (parse_proxy_addr proxy_url) (
    let host := socket_to_string upstream in
    _ <-e write_all (str_bytes ("CONNECT " +:+ host +:+ " HTTP/1.1" +:+ crlf +:+ "Host: " +:+ host +:+ crlf +:+
                                proxy_authorization proxy_auth +:+ crlf)%string);
    response <-e take_some 1024 got;
    if negb (str_contains "200" (text_of response)) then fail "proxy CONNECT failed"%string
    else tunnel_dns_query query_data).

(** The greeting and, where the proxy asks for it, the user and the password. *)
Definition socks5_greet (proxy_auth : option string) : talk unit :=
  _ <-e write_all (match proxy_auth with Some _ => [5; 2; 0; 2] | None => [5; 1; 0] end);
  method_resp <-e take_exact 2;
  match method_resp with
  | [v; m] =>
      if negb (v =? 5) then fail "SOCKS5: invalid version in greeting response"%string
      else if m =? 0 then succeed tt
      else if m =? 2 then
        auth <-e or_fail proxy_auth "SOCKS5 proxy requires authentication"%string;
        let (user, pass) := default (auth, EmptyString) (split_once ":" auth) in
        _ <-e write_all (1 :: as_u 8 (Z.of_nat (String.length user)) :: str_bytes user ++
                         as_u 8 (Z.of_nat (String.length pass)) :: str_bytes pass);
        auth_resp <-e take_exact 2;
        match auth_resp with
        | [_; st] => if st =? 0 then succeed tt else fail "SOCKS5: authentication failed"%string
        | _ => fail "early eof"%string
        end
      else if m =? 255 then fail "SOCKS5: no acceptable authentication method"%string
      else fail "SOCKS5: unsupported authentication method"%string
  | _ => fail "early eof"%string
  end.

Definition socks5_error (code : Z) : string :=
  match code with
  | 1 => "general SOCKS server failure" | 2 => "connection not allowed by ruleset" | 3 => "network unreachable"
  | 4 => "host unreachable" | 5 => "connection refused" | 6 => "TTL expired" | 7 => "command not supported"
  | 8 => "address type not supported" | _ => "unknown error"
  end.

Definition socks5_target (upstream : SocketAddr) : list Z :=
  (match so_ip upstream with V4 _ => 1 | V6 _ => 4 end) :: octets (so_ip upstream) ++ be_bytes 2 (so_port upstream).

(** The bound address of the response is skipped. *)
Definition socks5_connect (upstream : SocketAddr) : talk unit :=
  _ <-e write_all ([5; 1; 0] ++ socks5_target upstream);
  resp_header <-e take_exact 4;
  match resp_header with
  | [v; code; _; kind] =>
      if negb (v =? 5) then fail "SOCKS5: invalid version in connect response"%string
      else if negb (code =? 0) then fail ("SOCKS5 CONNECT failed: " +:+ socks5_error code)%string
      else if kind =? 1 then _ <-e take_exact 6; succeed tt
      else if kind =? 4 then _ <-e take_exact 18; succeed tt
      else if kind =? 3 then len <-e take_exact 1; _ <-e take_exact (Z.to_nat (of_be_bytes len) + 2); succeed tt
      else fail "SOCKS5: unknown address type in response"%string
  | _ => fail "early eof"%string
  end.

Definition forward_via_socks5_proxy (query_data : list Z) (upstream : SocketAddr) (proxy_url : string)
    (proxy_auth : option string) : result (list Z) string :=
  on_connection (parse_proxy_addr proxy_url) (
    _ <-e socks5_greet proxy_auth;
    _ <-e socks5_connect upstream;
    tunnel_dns_query query_data).

(** ** Pooled connections to a DoH proxy *)

Abbreviation Pool := (gmap string (list Conn)).

(** From the end; a waiting octet is consumed by the probe. *)
Fixpoint pop_alive (streams : list Conn) : option Conn * list Conn :=
  match streams with
  | [] => (None, [])
  | c :: streams' => if c_reset c then pop_alive streams' else (Some (advance (length (take 1 (unread c))) c), streams')
  end.

Definition get_doh_connection (proxy_addr : string) (pool : Pool) : option Conn * Pool :=
  match pool !! proxy_addr with
  | None => (connect proxy_addr, pool)
  | Some entry =>
      let (c, rest) := pop_alive (rev entry) in
      (match c with Some c => Some c | None => connect proxy_addr end, <[proxy_addr := rev rest]> pool)
  end.

Definition return_doh_connection (proxy_addr : string) (c : Conn) (pool : Pool) : Pool :=
  let entry := default [] (pool !! proxy_addr) in
  <[proxy_addr := if (length entry <? 8)%nat then entry ++ [c] else entry]> pool.

Definition doh_proxy_exchange (query_data : list Z) (upstream : SocketAddr) (proxy_auth : option string) : talk (list Z) :=
  let host := socket_to_string upstream in
  _ <-e write_all (str_bytes ("POST https://" +:+ host +:+ "/dns-query HTTP/1.1" +:+ crlf +:+ "Host: " +:+ host +:+ crlf +:+
          "Content-Type: application/dns-message" +:+ crlf +:+
          "Content-Length: " +:+ show_dec (Z.of_nat (length query_data)) +:+ crlf +:+
          "Accept: application/dns-message" +:+ crlf +:+ proxy_authorization proxy_auth +:+ crlf)%string);
  _ <-e write_all query_data;
  header_buf <-e take_head (Z.to_nat 8192);
  let header_str := text_of header_buf in
  status_line <-e or_fail (head (lines header_str)) "DoH proxy: empty response"%string;
  if negb (str_contains "200" status_line) then fail "DoH proxy request failed"%string
  else
    len <-e or_fail (content_length header_str) "DoH proxy: missing Content-Length header"%string;
    take_exact (Z.to_nat len).

Definition forward_via_doh_proxy (query_data : list Z) (upstream : SocketAddr) (proxy_url : string)
    (proxy_auth : option string) (pool : Pool) : result (list Z) string * Pool :=
  let proxy_addr := parse_proxy_addr proxy_url in
  match get_doh_connection proxy_addr pool with
  | (None, pool) => (Err "failed to connect to DoH proxy"%string, pool)
  | (Some c, pool) =>
      match doh_proxy_exchange query_data upstream proxy_auth c with
      | (Ok body, c) => (Ok body, return_doh_connection proxy_addr c pool)
      | (Err e, _) => (Err e, pool)
      end
  end.

Definition forward_via_proxy (got : nat) (query_data : list Z) (upstream : SocketAddr) (config : ProxyConfig) (pool : Pool)
  : result (list Z) string * Pool :=
  match mode config with
  | Connect => (forward_via_connect_proxy got query_data upstream (url config) (auth config), pool)
  | Socks5 => (forward_via_socks5_proxy query_data upstream (url config) (auth config), pool)
  | DohProxy => forward_via_doh_proxy query_data upstream (url config) (auth config) pool
  end.
End Proxies.

(** ** Bodies and parameters *)

Lemma read_body_frames frames seen :
  Z.of_nat (length (seen ++ concat frames)) <= MAX_REQUEST_BODY -> seen ++ concat frames <> [] ->
  read_body seen (Some <$> frames) = Ok (seen ++ concat frames).
Proof.
  revert seen. induction frames as [|f fs IH]; intros seen Hl Hn; cbn [fmap list_fmap read_body concat] in *.
  - rewrite app_nil_r in *. by destruct seen.
  - rewrite app_assoc in *. rewrite (proj2 (Z.ltb_ge _ _)); [by apply IH|].
    rewrite !length_app in Hl. lia.
Qed.

Lemma read_body_too_long frames seen :
  MAX_REQUEST_BODY < Z.of_nat (length (seen ++ concat frames)) -> Z.of_nat (length seen) <= MAX_REQUEST_BODY ->
  read_body seen (Some <$> frames) = Err 413.
Proof.
  revert seen. induction frames as [|f fs IH]; intros seen Hl Hs; cbn [fmap list_fmap read_body concat] in *.
  - rewrite app_nil_r in Hl. lia.
  - destruct (Z.ltb_spec MAX_REQUEST_BODY (Z.of_nat (length seen + length f))) as [|Hle]; [done|].
    apply IH; [by rewrite <- app_assoc|]. rewrite length_app. lia.
Qed.

Lemma b64url_free c0 s : is_b64url c0 = false -> str_forall is_b64url s = true -> free_of c0 s = true.
Proof.
  intros H0. apply str_forall_impl. intros c Hc. apply negb_true_iff, Ascii.eqb_neq. intros ->. congruence.
Qed.

Lemma foldr_min_least t ts : foldr Z.min t ts ∈ t :: ts /\ Forall (fun x => foldr Z.min t ts <= x) (t :: ts).
Proof.
  induction ts as [|u ts [IHin IHle]]; [split; [set_solver|by repeat constructor]|]. cbn [foldr].
  apply Forall_cons in IHle as [Ht Hts]. split.
  - destruct (Z.min_spec u (foldr Z.min t ts)) as [[_ ->]|[_ ->]]; set_solver.
  - repeat constructor; [lia..|]. eapply Forall_impl; [exact Hts|]. simpl. lia.
Qed.

Fixpoint padded (n : nat) (s : string) : string := match n with O => s | S n' => padded n' s +:+ "=" end.

Lemma trim_padding n s : free_of "=" s = true -> trim_end_matches "=" (padded n s) = s.
Proof.
  intros H. induction n as [|n IH]; cbn [padded]; [by apply trim_end_id, free_of_ends|].
  by rewrite trim_end_snoc.
Qed.

Lemma padding_free n s : free_of "&" s = true -> free_of "&" (padded n s) = true.
Proof. intros H. induction n as [|n IH]; [done|]. cbn [padded]. by rewrite free_of_app, IH. Qed.

Section Answering.
Context {Name Svcb : Type} `{WC : !WireCodec Name Svcb, B64U : !Base64Url, B64UL : !Base64UrlLaws}.
Context {St : Type} (ask : list Z -> St -> option (list Z) * St).

(** The HTTP/3 parameter of a query, padded or not. *)
Definition dns_uri (q : list Z) (padding : nat) : string := "dns=" +:+ padded padding (b64url_encode q).

Lemma dns_uri_reads q padding : Forall (is_u 8) q -> q <> [] -> Z.of_nat (length q) <= MAX_REQUEST_BODY ->
  dns_param (Some (dns_uri q padding)) ≫= decode_dns_param = Some q.
Proof.
  intros Hb Hn Hl. pose proof (b64url_alphabet q) as Ha. unfold dns_param, dns_uri. cbn [mbind option_bind].
  rewrite split_on_free by (rewrite free_of_app, padding_free by (by apply b64url_free); done).
  change (head _) with (Some (padded padding (b64url_encode q))). cbn [mbind option_bind]. unfold decode_dns_param. rewrite trim_padding by (by apply b64url_free). rewrite b64url_decode_encode by done.
  cbn [mbind option_bind]. by rewrite bool_decide_eq_true_2, (proj2 (Z.leb_le _ _)).
Qed.

(** The reference: what a query is answered over HTTP, on either listener. *)
Definition same_answer (a : option (list Z)) (r : Response) : Prop :=
  match a with
  | None => status r = 500 /\ cache_control r = None
  | Some response =>
      status r = 200 /\ content_type r = Some "application/dns-message"%string /\ body r = response /\
      exists age, cache_control r = Some ("max-age=" +:+ show_dec age)%string /\
        match from_bytes response with
        | Some msg => (answers msg = [] -> age = 0) /\ Forall (fun rec => age <= w_ttl rec) (answers msg) /\
                      (answers msg <> [] -> age ∈ w_ttl <$> answers msg)
        | None => age = 0
        end
  end.

Lemma min_ttl_spec response :
  match from_bytes response with
  | Some msg => (answers msg = [] -> extract_min_ttl response = 0) /\ Forall (fun rec => extract_min_ttl response <= w_ttl rec) (answers msg) /\
                (answers msg <> [] -> extract_min_ttl response ∈ w_ttl <$> answers msg)
  | None => extract_min_ttl response = 0
  end.
Proof.
  unfold extract_min_ttl. destruct (from_bytes response) as [msg|]; [|done]. destruct (answers msg) as [|r rs]; [by repeat split|].
  cbn [fmap list_fmap]. destruct (foldr_min_least (w_ttl r) (w_ttl <$> rs)) as [Hin Hle]. split_and!; [done| |intros _; exact Hin].
  change (w_ttl r :: (w_ttl <$> rs)) with (w_ttl <$> r :: rs) in Hle. rewrite Forall_fmap in Hle. exact Hle.
Qed.

Lemma h3_answer request q s : read_query request = Ok q ->
  same_answer (ask q s).1 (handle_h3_request ask request s).1 /\ (handle_h3_request ask request s).2 = (ask q s).2.
Proof.
  intros Hq. unfold handle_h3_request. rewrite Hq. destruct (ask q s) as [[response|] s1]; cbn [fst snd]; [|by split].
  repeat split. exists (extract_min_ttl response). split; [done|]. apply min_ttl_spec.
Qed.

Lemma doh_answer q s : same_answer (ask q s).1 (doh_resolve ask q s).1 /\ (doh_resolve ask q s).2 = (ask q s).2.
Proof.
  unfold doh_resolve. destruct (ask q s) as [[response|] s1]; cbn [fst snd]; [|by split].
  repeat split. exists (extract_min_ttl response). split; [done|]. apply min_ttl_spec.
Qed.

(** The four ways to ask over HTTP are one. The body of a POST, over TCP or over
    HTTP/3 in frames of any size, and the parameter of a GET, which HTTP/3 also takes
    with padding, reach the resolver as the same query, once; its answer comes back
    whole, to be kept no longer than the shortest of the lifetimes of its records;
    and a body of more than 65535 octets over HTTP/3 is refused however it is split,
    without the resolver being asked. *)
Theorem doh_listeners_agree frames q padding query s :
  q = concat frames -> Forall (is_u 8) q -> q <> [] ->
  (if Z.of_nat (length q) <=? 65535 then
     let asked (handler : St -> Response * St) := same_answer (ask q s).1 (handler s).1 /\ (handler s).2 = (ask q s).2 in
     asked (handle_doh_post ask q) /\ asked (handle_doh_get ask (Some (b64url_encode q))) /\
     asked (handle_h3_request ask (mkH3Request POST "/dns-query" query (Some <$> frames))) /\
     asked (handle_h3_request ask (mkH3Request GET "/dns-query" (Some (dns_uri q padding)) (Some <$> frames)))
   else handle_h3_request ask (mkH3Request POST "/dns-query" query (Some <$> frames)) s = (mkResponse 413 None None None [], s)).
Proof.
  intros Hq Hb Hn. destruct (Z.leb_spec (Z.of_nat (length q)) 65535) as [Hl|Hl].
  - cbv zeta. split; [apply doh_answer|split; [|split]].
    + unfold handle_doh_get. rewrite b64url_decode_encode by done. apply doh_answer.
    + apply h3_answer. cbn [read_query h3_path h3_method h3_frames]. unfold read_query. subst q. by apply (read_body_frames frames []).
    + apply h3_answer. unfold read_query. cbn [h3_path h3_method h3_query]. by rewrite dns_uri_reads.
  - unfold handle_h3_request, read_query. cbn [h3_path h3_method h3_frames]. subst q.
    rewrite (read_body_too_long frames []) by (done || (cbn [length]; lia)). done.
Qed.
End Answering.

(** ** Chunked bodies *)

Definition is_hex_digit (c : ascii) : bool := bool_decide (is_Some (digit_value c)).

(** Text on one line. *)
Definition plain_char (c : ascii) : bool := let n := nat_of_ascii c in ((n <? 128) && negb (n =? 13))%nat.

Lemma hex_digit_char d : 0 <= d < 16 -> is_hex_digit (digit_char d) = true.
Proof. intros Hd. unfold is_hex_digit. rewrite digit_value_char by done. by apply bool_decide_eq_true_2. Qed.

Lemma show_digits_hex f n s : str_forall is_hex_digit s = true -> str_forall is_hex_digit (show_digits f 16 n s) = true.
Proof.
  revert n s. induction f as [|f IH]; intros n s Hs; [done|]. cbn [show_digits].
  assert (str_forall is_hex_digit (String (digit_char (n mod 16)) s) = true) as H.
  { cbn [str_forall]. rewrite hex_digit_char; [done|]. apply Z.mod_pos_bound. lia. }
  case_match; [done|]. by apply IH.
Qed.

Lemma show_hex_digits n : str_forall is_hex_digit (show_hex n) = true.
Proof. by apply show_digits_hex. Qed.

Lemma ascii_forall (p : ascii -> bool) : forallb (fun n => p (ascii_of_nat n)) (seq 0 256) = true -> forall c, p c = true.
Proof.
  intros H c. rewrite forallb_forall in H. rewrite <- (ascii_nat_embedding c). apply H. apply list_elem_of_In, elem_of_seq.
  pose proof (nat_ascii_bounded c). lia.
Qed.

Lemma hex_digit_traits c : is_hex_digit c = true ->
  plain_char c = true /\ negb (is_space c) = true /\ negb (Ascii.eqb c ";") = true /\ negb (Ascii.eqb c "+") = true.
Proof.
  intros H. pose proof (ascii_forall (fun c => implb (is_hex_digit c)
    (plain_char c && negb (is_space c) && negb (Ascii.eqb c ";") && negb (Ascii.eqb c "+"))) eq_refl c) as Hc.
  cbv beta in Hc. rewrite H in Hc. cbn [implb] in Hc. rewrite !andb_true_iff in Hc. tauto.
Qed.

Lemma show_digits16_nonempty f n s : show_digits f 16 n s = EmptyString -> s = EmptyString /\ f = O.
Proof.
  revert n s. induction f as [|f IH]; intros n s; [done|]. cbn [show_digits]. case_match; [done|].
  intros H'. apply IH in H' as [H' _]. done.
Qed.

Lemma parse_show_hex n : 0 <= n <= usize_max -> parse_uint 16 usize_max (show_hex n) = Some n.
Proof.
  intros Hn. unfold parse_uint. pose proof (show_hex_digits n) as Hd.
  assert (show_hex n <> EmptyString) as Hne by (intros H; by apply show_digits16_nonempty in H as [_ ?]).
  destruct (read_show_digits 16 40 n "") as [k Hk]; [lia|unfold usize_max, u64_max in Hn; lia|].
  specialize (Hk 0). fold (show_hex n) in Hk. cbn [read_digits] in Hk. replace (0 * k + n) with n in Hk by lia.
  destruct (show_hex n) as [|c s]; [done|]. cbn [str_forall] in Hd. apply andb_true_iff in Hd as [Hc _].
  apply hex_digit_traits in Hc as (_ & _ & _ & Hp). apply negb_true_iff in Hp. rewrite Hp.
  destruct (String.eqb_spec (String c s) ""); [done|]. rewrite Hk. by rewrite (proj2 (Z.leb_le _ _)) by lia.
Qed.

Lemma text_of_str_bytes s : text_of (str_bytes s) = s.
Proof.
  unfold text_of, str_bytes. rewrite <- list_fmap_compose. rewrite <- (String.string_of_list_ascii_of_string s) at 2. f_equal.
  rewrite <- (list_fmap_id (String.list_ascii_of_string s)) at 2. apply list_fmap_ext. intros _ c _. unfold compose.
  by rewrite N2Z.id, ascii_N_embedding.
Qed.

Lemma str_bytes_cons c s : str_bytes (String c s) = Z.of_N (N_of_ascii c) :: str_bytes s.
Proof. done. Qed.

Lemma str_bytes_app s t : str_bytes (s +:+ t) = str_bytes s ++ str_bytes t.
Proof. induction s as [|c s IH]; [done|]. change (String c s +:+ t) with (String c (s +:+ t)). by rewrite !str_bytes_cons, IH. Qed.

Lemma length_str_bytes s : length (str_bytes s) = String.length s.
Proof. induction s as [|c s IH]; [done|]. rewrite str_bytes_cons. simpl. by rewrite IH. Qed.

Lemma plain_octet c : plain_char c = true -> 0 <= Z.of_N (N_of_ascii c) < 128 /\ Z.of_N (N_of_ascii c) <> 13.
Proof.
  intros H. pose proof (ascii_forall (fun c => implb (plain_char c)
    ((0 <=? Z.of_N (N_of_ascii c)) && (Z.of_N (N_of_ascii c) <? 128) && negb (Z.of_N (N_of_ascii c) =? 13))) eq_refl c) as Hc.
  cbv beta in Hc. rewrite H in Hc. cbn [implb] in Hc. rewrite !andb_true_iff, negb_true_iff, Z.leb_le, Z.ltb_lt, Z.eqb_neq in Hc. tauto.
Qed.

Lemma plain_utf8 s : str_forall plain_char s = true -> is_utf8 (str_bytes s) = true.
Proof.
  induction s as [|c s IH]; [done|]. cbn [str_forall]. rewrite andb_true_iff. intros [Hc Hs]. rewrite str_bytes_cons.
  apply plain_octet in Hc. cbn [is_utf8]. rewrite (proj2 (Z.ltb_lt _ _)) by lia. by apply IH.
Qed.

Lemma find_crlf_skip b data : b <> 13 -> find_crlf (b :: data) = S <$> find_crlf data.
Proof. intros Hb. destruct b as [|b|b]; try done. repeat (destruct b as [b|b|]; try done). Qed.

Lemma find_crlf_line s rest : str_forall plain_char s = true -> find_crlf (str_bytes s ++ 13 :: 10 :: rest) = Some (length (str_bytes s)).
Proof.
  induction s as [|c s IH]; [done|]. cbn [str_forall]. rewrite andb_true_iff. intros [Hc Hs]. rewrite str_bytes_cons.
  cbn [app length]. rewrite find_crlf_skip by (apply plain_octet in Hc; lia). by rewrite IH.
Qed.

(** The line before a chunk: its size, and an extension, which is ignored. *)
Definition extension (ext : string) : Prop :=
  str_forall plain_char ext = true /\ match ext with EmptyString => True | String c _ => c = ";"%char end.

Definition size_line (n : Z) (ext : string) : list Z := str_bytes (show_hex n +:+ ext) ++ [13; 10].

Lemma size_line_plain n ext : extension ext -> str_forall plain_char (show_hex n +:+ ext) = true.
Proof.
  intros [He _]. pose proof (show_hex_digits n) as Hd. induction (show_hex n) as [|c s IH]; [done|].
  cbn [str_forall String.append] in *. apply andb_true_iff in Hd as [Hc Hs]. apply andb_true_iff. split; [by destruct (hex_digit_traits c Hc)|auto].
Qed.

Lemma split_first_free c s t : free_of c s = true -> head (split_on c (s +:+ t)) = (fun p => s +:+ p) <$> head (split_on c t).
Proof.
  intros Hf. induction s as [|d s IH]; [change (EmptyString +:+ t) with t; by destruct (head (split_on c t))|].
  unfold free_of in *. cbn [str_forall] in Hf. apply andb_true_iff in Hf as [Hd Hs]. apply negb_true_iff in Hd.
  change (String d s +:+ t) with (String d (s +:+ t)). cbn [split_on]. rewrite Hd. specialize (IH Hs).
  pose proof (split_on_nonempty c (s +:+ t)) as Hn. destruct (split_on c (s +:+ t)) as [|p ps]; [done|]. cbn [head] in *.
  destruct (head (split_on c t)); simplify_eq/=; done.
Qed.

Lemma split_extension ext : extension ext -> head (split_on ";" ext) = Some EmptyString.
Proof. intros [_ H]. destruct ext as [|c s]; [done|]. by subst c. Qed.

Lemma show_hex_free n : free_of ";" (show_hex n) = true.
Proof. apply (str_forall_impl is_hex_digit); [|apply show_hex_digits]. intros c Hc. by destruct (hex_digit_traits c Hc) as (_ & ? & ? & _). Qed.

Lemma show_hex_solid n : str_forall (fun c => negb (is_space c)) (show_hex n) = true.
Proof. apply (str_forall_impl is_hex_digit); [|apply show_hex_digits]. intros c Hc. by destruct (hex_digit_traits c Hc) as (_ & ? & ? & _). Qed.

(** A chunk as a server sends it, and a whole body. *)
Definition chunk_of (c : list Z * string) : list Z := size_line (Z.of_nat (length c.1)) c.2 ++ c.1 ++ [13; 10].

Definition chunked_body (chunks : list (list Z * string)) (ext : string) (trailer : list Z) : list Z :=
  concat (map chunk_of chunks) ++ size_line 0 ext ++ trailer.

Lemma dechunk_size_line fuel out n ext rest : extension ext -> 0 <= n <= usize_max ->
  dechunk_loop (S fuel) out (size_line n ext ++ rest) =
  if n =? 0 then Some out
  else if Z.of_nat (length rest) <? n then None
  else dechunk_loop fuel (out ++ take (Z.to_nat n) rest) (match drop (Z.to_nat n) rest with 13 :: 10 :: rest' => rest' | _ => drop (Z.to_nat n) rest end).
Proof.
  intros He Hn. unfold size_line. rewrite <- app_assoc. cbn [app dechunk_loop].
  pose proof (size_line_plain n ext He) as Hp. rewrite find_crlf_line by done. cbn [mbind option_bind].
  rewrite take_app_length, plain_utf8, text_of_str_bytes, split_first_free, split_extension by (done || apply show_hex_free). cbn [negb].
  change (default _ _) with (show_hex n +:+ ""). rewrite app_nil_r_str, str_trim_solid by apply show_hex_solid.
  rewrite parse_show_hex by done. cbn [mbind option_bind]. rewrite drop_app_add. cbn [drop]. cbv zeta.
  destruct (n =? 0); [done|]. destruct (_ <? n); [done|]. done.
Qed.

Lemma dechunk_chunks chunks ext trailer out fuel :
  Forall (fun c => c.1 <> [] /\ Z.of_nat (length c.1) <= usize_max /\ extension c.2) chunks -> extension ext ->
  (length chunks < fuel)%nat ->
  dechunk_loop fuel out (chunked_body chunks ext trailer) = Some (out ++ concat (map fst chunks)).
Proof.
  intros Hc He. revert out fuel. induction Hc as [|[c x] cs (Hn & Hl & Hx) _ IH]; intros out fuel Hf.
  - destruct fuel as [|fuel]; [simpl in Hf; lia|]. unfold chunked_body. cbn [map concat app]. rewrite dechunk_size_line by (done || unfold usize_max, u64_max; lia).
    cbn. by rewrite app_nil_r.
  - destruct fuel as [|fuel]; [simpl in Hf; lia|]. cbn [fst snd] in *.
    replace (chunked_body ((c, x) :: cs) ext trailer) with (size_line (Z.of_nat (length c)) x ++ c ++ 13 :: 10 :: chunked_body cs ext trailer).
    2: { unfold chunked_body, chunk_of. cbn [map concat fst snd]. by rewrite <- !app_assoc. }
    rewrite dechunk_size_line by (done || lia).
    rewrite (proj2 (Z.eqb_neq _ _)) by (destruct c; [done|cbn [length]; lia]).
    rewrite (proj2 (Z.ltb_ge _ _)) by (rewrite length_app; lia).
    rewrite Nat2Z.id, take_app_length, drop_app_length. rewrite IH by (cbn [length] in Hf; lia). cbn [map concat fst]. by rewrite <- app_assoc.
Qed.

(** ** Heads *)

(** A line of a head: not empty, without control over the lines. *)
Definition line_char (c : ascii) : bool := plain_char c && negb (Ascii.eqb c (ascii_of_nat 10)).
Definition head_line (l : string) : Prop := l <> EmptyString /\ str_forall line_char l = true.

Definition head_of (ls : list string) : list Z := concat (map (fun l => str_bytes l ++ [13; 10]) ls) ++ [13; 10].

Lemma line_octet c : line_char c = true -> Z.of_N (N_of_ascii c) <> 10 /\ Z.of_N (N_of_ascii c) <> 13.
Proof.
  unfold line_char. rewrite andb_true_iff, negb_true_iff, Ascii.eqb_neq. intros [Hp Hn]. split; [|by destruct (plain_octet c Hp)].
  intros H. apply Hn. rewrite <- (ascii_N_embedding c). replace (N_of_ascii c) with 10%N by lia. done.
Qed.

Lemma read_head_step limit seen b rest : take 4 (b :: seen) <> [10; 13; 10; 13] -> (length seen < limit)%nat ->
  read_head limit seen (b :: rest) = read_head limit (b :: seen) rest.
Proof. intros H1 H2. cbn [read_head]. rewrite bool_decide_eq_false_2, (proj2 (Nat.ltb_ge _ _)); [done|cbn [length]; lia|done]. Qed.

Lemma read_head_text limit l seen rest : str_forall line_char l = true -> (length seen + String.length l <= limit)%nat ->
  read_head limit seen (str_bytes l ++ rest) = read_head limit (rev (str_bytes l) ++ seen) rest.
Proof.
  revert seen. induction l as [|c l IH]; intros seen Hl Hlen; [done|]. cbn [str_forall] in Hl. apply andb_true_iff in Hl as [Hc Hl].
  rewrite str_bytes_cons. cbn [app rev String.length] in *. rewrite read_head_step; [|destruct (line_octet c Hc); cbn; congruence|lia].
  rewrite IH by (done || (cbn [length]; lia)). by rewrite <- app_assoc.
Qed.

Lemma rev_line_head l seen : head_line l -> exists x r, rev (str_bytes l) ++ seen = x :: r /\ x <> 10.
Proof.
  intros [Hn Hl]. destruct (rev (str_bytes l)) as [|x r] eqn:E.
  - apply (f_equal length) in E. rewrite length_rev, length_str_bytes in E. by destruct l.
  - exists x, (r ++ seen). split; [done|]. assert (In x (str_bytes l)) as Hin by (apply in_rev; rewrite E; by left).
    clear -Hin Hl. induction l as [|c l IH]; [done|]. cbn [str_forall] in Hl. apply andb_true_iff in Hl as [Hc Hl].
    rewrite str_bytes_cons in Hin. destruct Hin as [<-|Hin]; [by destruct (line_octet c Hc)|auto].
Qed.

Lemma read_head_lines limit ls seen rest : Forall head_line ls ->
  (match seen with [] => ls <> [] | _ => take 2 seen = [10; 13] end) ->
  (length seen + length (head_of ls) <= limit)%nat ->
  read_head limit seen (head_of ls ++ rest) = Some (rev seen ++ head_of ls, rest).
Proof.
  intros Hls. revert seen. induction Hls as [|l ls Hl _ IH]; intros seen Hs Hlen.
  - destruct seen as [|s1 [|s2 seen]]; [done|done|]. injection Hs as -> ->. unfold head_of in *. cbn [map concat app length] in *.
    rewrite read_head_step by (cbn [length] in *; try lia; destruct seen as [|? []]; cbn; congruence).
    cbn [read_head take]. rewrite bool_decide_eq_true_2 by done. cbn [rev]. by rewrite <- !app_assoc.
  - unfold head_of in *. cbn [map concat] in *. rewrite <- !app_assoc in *. rewrite !length_app in Hlen.
    rewrite length_str_bytes in Hlen. cbn [length] in Hlen. destruct (rev_line_head l seen Hl) as (x & r & E & Hx).
    assert (S (length r) = String.length l + length seen)%nat as Hlr.
    { apply (f_equal length) in E. rewrite length_app, length_rev, length_str_bytes in E. cbn [length] in E. lia. }
    rewrite read_head_text by (apply Hl || lia). rewrite E. cbn [app].
    rewrite read_head_step by (cbn [length] in *; try lia; cbn; congruence).
    rewrite read_head_step by (cbn [length] in *; try lia; cbn; congruence).
    rewrite app_assoc, IH; [|done|cbn [length]; rewrite length_app; cbn [length]; lia].
    cbn [rev]. f_equal. f_equal. change (rev r ++ [x]) with (rev (x :: r)). rewrite <- E, rev_app_distr, rev_involutive. by rewrite <- !app_assoc.
Qed.

Definition cr : string := String (ascii_of_nat 13) "".
Definition head_text (ls : list string) : string := foldr (fun l t => l +:+ crlf +:+ t) crlf ls.

Lemma head_of_text ls : head_of ls = str_bytes (head_text ls).
Proof.
  unfold head_of. induction ls as [|l ls IH]; [done|]. cbn [map concat head_text foldr] in *. rewrite !str_bytes_app, <- app_assoc, IH.
  by rewrite <- app_assoc.
Qed.

Lemma line_free l : str_forall line_char l = true -> free_of (ascii_of_nat 10) (l +:+ cr) = true.
Proof.
  intros H. rewrite free_of_app. apply andb_true_iff. split; [|done]. eapply str_forall_impl; [|exact H].
  intros c Hc. unfold line_char in Hc. by apply andb_true_iff in Hc as [_ ?].
Qed.

Lemma strip_cr l : str_strip_suffix cr (l +:+ cr) = Some l.
Proof.
  induction l as [|c l IH]; [done|]. change (String c l +:+ cr) with (String c (l +:+ cr)). cbn [str_strip_suffix].
  assert ((String c (l +:+ cr) =? cr)%string = false) as ->; [|by rewrite IH].
  apply String.eqb_neq. intros H. apply (f_equal String.length) in H. cbn [String.length] in H. rewrite app_length_str in H. simpl in H. lia.
Qed.

Lemma lines_head ls : Forall head_line ls -> lines (head_text ls) = ls ++ [EmptyString].
Proof.
  intros Hls. assert (split_on (ascii_of_nat 10) (head_text ls) = ((fun l => l +:+ cr) <$> ls ++ [EmptyString]) ++ [EmptyString]) as E.
  { induction Hls as [|l ls [_ Hl] _ IH]; [done|]. cbn [head_text foldr].
    replace (l +:+ crlf +:+ _) with ((l +:+ cr) +:+ String (ascii_of_nat 10) (head_text ls)) by (by rewrite app_assoc_str).
    rewrite split_on_cons by (by apply line_free). by rewrite IH. }
  unfold lines. rewrite E, last_snoc, removelast_last, <- list_fmap_compose.
  rewrite <- (list_fmap_id (ls ++ [EmptyString])) at 2. apply list_fmap_ext. intros _ l _. unfold compose.
  change (String (ascii_of_nat 13) "") with cr. by rewrite strip_cr.
Qed.

(** ** A DoH upstream *)

(** A body under a head: in chunks, by its length, or up to the end. *)
Inductive Sent (fields : list string) (content : list Z) : list Z -> Prop :=
| sent_chunked chunks ext trailer :
    existsb (fun l => starts_with "transfer-encoding:" (to_lowercase l) && str_contains "chunked" (to_lowercase l)) fields = true ->
    Forall (fun c => c.1 <> [] /\ Z.of_nat (length c.1) <= usize_max /\ extension c.2) chunks -> extension ext ->
    concat (map fst chunks) = content -> Sent fields content (chunked_body chunks ext trailer)
| sent_length rest :
    existsb (fun l => starts_with "transfer-encoding:" (to_lowercase l)) fields = false ->
    head (omap content_length_of fields) = Some (Z.of_nat (length content)) -> Sent fields content (content ++ rest)
| sent_to_end :
    existsb (fun l => starts_with "transfer-encoding:" (to_lowercase l)) fields = false ->
    omap content_length_of fields = [] -> Sent fields content content.

Lemma chunk_of_long c : (1 <= length (chunk_of c))%nat.
Proof. unfold chunk_of. rewrite !length_app. cbn [length]. lia. Qed.

Lemma existsb_weaken {A} (p q : A -> bool) l : (forall a, q a = true -> p a = true) -> existsb p l = false -> existsb q l = false.
Proof.
  intros H. induction l as [|a l IH]; [done|]. cbn [existsb]. rewrite !orb_false_iff. intros [Hp Hl]. split; [|auto].
  destruct (q a) eqn:E; [|done]. apply H in E. congruence.
Qed.

Lemma sent_read fields content sent : Sent fields content sent -> Forall head_line fields ->
  (if is_chunked (head_text fields) then dechunk sent
   else match content_length (head_text fields) with
        | Some len => if Z.of_nat (length sent) <? len then None else Some (take (Z.to_nat len) sent)
        | None => Some sent
        end) = Some content.
Proof.
  intros Hs Hf. unfold is_chunked, content_length. rewrite lines_head, existsb_app, omap_app by done. cbn [existsb].
  destruct Hs as [chunks ext trailer Ht Hc He Hx|rest Ht Hl|Ht Hl].
  - rewrite Ht. cbn [orb]. unfold dechunk. rewrite dechunk_chunks; [by subst content|done..|].
    assert (forall cs, (length cs <= length (concat (map chunk_of cs)))%nat) as Hlen.
    { induction cs as [|c cs IH]; [done|]. cbn [map concat length]. rewrite length_app. pose proof (chunk_of_long c). lia. }
    unfold chunked_body. rewrite length_app. specialize (Hlen chunks). lia.
  - rewrite (existsb_weaken _ _ _ (fun l H => proj1 (andb_prop _ _ H)) Ht).
    replace (head (_ ++ _)) with (Some (Z.of_nat (length content))).
    + cbn. rewrite Nat2Z.id, length_app, (proj2 (Z.ltb_ge _ _)) by lia. by rewrite take_app_length.
    + destruct (omap content_length_of fields); [done|]. cbn in *. by rewrite <- Hl.
  - rewrite (existsb_weaken _ _ _ (fun l H => proj1 (andb_prop _ _ H)) Ht). by rewrite Hl.
Qed.

(** C34: a DoH upstream's answer is read as it was sent: whatever the other fields of the
    head are and however the body is framed, in chunks of any sizes with extensions
    and trailers, by its length or by the end of the connection, the client returns
    the content; and never the content of a response whose status line does not say
    200. *)
Theorem doh_upstream_exact peer q upstream identity path req status_line fields content sent :
  tls_identity upstream = Some identity -> path = default DEFAULT_DOH_PATH (Forwarder.path upstream) ->
  req = head_of ["POST " +:+ path +:+ " HTTP/1.1"; "Host: " +:+ identity.2; "Content-Type: application/dns-message";
                 "Accept: application/dns-message"; "Content-Length: " +:+ show_dec (Z.of_nat (length q)); "Connection: close"] ->
  Forall head_line (status_line :: fields) -> (length (head_of (status_line :: fields)) <= Z.to_nat 16384)%nat ->
  Sent (status_line :: fields) content sent -> content <> [] ->
  peer identity.1 (req ++ q) = Some (head_of (status_line :: fields) ++ sent) ->
  query_doh peer q upstream = if str_contains " 200" status_line then Some content else None.
Proof.
  intros Hid -> -> Hls Hlen Hsent Hne Hp. unfold query_doh. rewrite Hid. cbn [mbind option_bind].
  rewrite head_of_text in Hp. unfold head_text at 1 in Hp. cbn [foldr] in Hp. rewrite !app_assoc_str in Hp.
  rewrite Hp. cbn [mbind option_bind]. rewrite read_head_lines by (done || (cbn [length]; lia)).
  cbn [rev app mbind option_bind]. rewrite (head_of_text (status_line :: fields)), text_of_str_bytes, sent_read with (content := content) by done.
  rewrite lines_head by done. cbn [app head]. change (default _ (Some status_line)) with status_line.
  destruct (str_contains " 200" status_line); [|done]. cbn [negb mbind option_bind]. by destruct content.
Qed.

(** ** Tunnels *)

Lemma take_exact_here n c pre bs post :
  c_peer c (c_written c) = pre ++ bs ++ post -> c_pos c = length pre -> length bs = n ->
  take_exact n c = (Ok bs, advance n c).
Proof.
  intros Hp Hpos Hn. unfold take_exact, unread. rewrite Hp, Hpos, drop_app_length, read_exact_app by done. done.
Qed.

Lemma tunnel_reads q r c pre post :
  c_peer c (c_written c ++ frame q) = pre ++ frame r ++ post -> c_pos c = length pre -> fits r ->
  (tunnel_dns_query q c).1 = Ok r.
Proof.
  intros Hp Hpos Hf. unfold tunnel_dns_query, and_then, write_all. cbn [c_peer c_written c_pos c_reset].
  rewrite <- app_assoc. fold (frame q).
  rewrite (take_exact_here 2 _ pre (be_bytes 2 (as_u 16 (Z.of_nat (length r)))) (r ++ post)); cbn [c_peer c_written c_pos];
    [|by rewrite Hp; unfold frame; rewrite <- !app_assoc|done|apply length_be_bytes].
  rewrite frame_length_octets, Nat2Z.id by done.
  by rewrite (take_exact_here (length r) _ (pre ++ be_bytes 2 (as_u 16 (Z.of_nat (length r)))) r post); cbn [c_peer c_written c_pos advance];
    [|rewrite Hp; unfold frame; by rewrite <- !app_assoc|rewrite length_app, length_be_bytes; lia|].
Qed.

(** A proxy of RFC 1928 and RFC 1929: the credentials it wants, if any, and what a
    host says to what it is sent. *)
Section SocksProxy.
Context (creds : option (string * string)) (net : SocketAddr -> list Z -> list Z).

Definition socks_dial (ip : list Z -> IpAddr) (n : nat) (rest : list Z) : list Z :=
  match read_exact n rest with
  | Some (a, rest) =>
      match read_exact 2 rest with
      | Some (port, rest) => [5; 0; 0; 1; 0; 0; 0; 0; 0; 0] ++ net (mkSocket (ip a) (of_be_bytes port)) rest
      | None => []
      end
  | None => []
  end.

Definition socks_request (rest : list Z) : list Z :=
  match read_exact 4 rest with
  | Some ([v; cmd; _; kind], rest) =>
      if negb ((v =? 5) && (cmd =? 1)) then [5; 7; 0; 1; 0; 0; 0; 0; 0; 0]
      else if kind =? 1 then socks_dial (fun a => V4 (of_be_bytes a)) 4 rest
      else if kind =? 4 then socks_dial (fun a => V6 (of_be_bytes a)) 16 rest
      else [5; 8; 0; 1; 0; 0; 0; 0; 0; 0]
  | _ => []
  end.

Definition read_counted (rest : list Z) : option (list Z * list Z) :=
  '(n, rest) ← read_exact 1 rest; read_exact (Z.to_nat (of_be_bytes n)) rest.

Definition socks_login (user pass : string) (rest : list Z) : list Z :=
  match read_exact 1 rest with
  | None => []
  | Some (_, rest) =>
      match read_counted rest with
      | None => []
      | Some (u, rest) =>
          match read_counted rest with
          | None => []
          | Some (p, rest) =>
              if bool_decide (u = str_bytes user /\ p = str_bytes pass) then [1; 0] ++ socks_request rest else [1; 1]
          end
      end
  end.

Definition socks_proxy (w : list Z) : list Z :=
  match read_exact 1 w with
  | None => []
  | Some (_, rest) =>
      match read_counted rest with
      | None => []
      | Some (methods, rest) =>
          match creds with
          | None => if bool_decide (0 ∈ methods) then [5; 0] ++ socks_request rest else [5; 255]
          | Some (user, pass) => if bool_decide (2 ∈ methods) then [5; 2] ++ socks_login user pass rest else [5; 255]
          end
      end
  end.
End SocksProxy.

Lemma socks_request_target net upstream rest : ip_wf (so_ip upstream) -> is_u 16 (so_port upstream) ->
  socks_request net ([5; 1; 0] ++ socks5_target upstream ++ rest) = [5; 0; 0; 1; 0; 0; 0; 0; 0; 0] ++ net upstream rest.
Proof.
  intros Hw Hp. destruct upstream as [ip port]. cbn [so_ip so_port] in *.
  assert (of_be_bytes (be_bytes 2 port) = port) as Ep by (rewrite of_be_bytes_be_bytes; apply Z.mod_small; unfold is_u in Hp; simpl; lia).
  pose proof (of_octets ip Hw) as Eo. unfold socks5_target. cbn [so_ip so_port].
  destruct ip as [a|a]; cbn [octets ip_bits] in Eo |- *; unfold socks_request.
  - change ([5; 1; 0] ++ (1 :: be_bytes 4 a ++ be_bytes 2 port) ++ rest) with ([5; 1; 0; 1] ++ (be_bytes 4 a ++ be_bytes 2 port) ++ rest).
    rewrite read_exact_app by done. cbn [Z.eqb Pos.eqb andb negb]. unfold socks_dial.
    rewrite <- app_assoc, read_exact_app, read_exact_app by apply length_be_bytes. by rewrite Ep, Eo.
  - change ([5; 1; 0] ++ (4 :: be_bytes 16 a ++ be_bytes 2 port) ++ rest) with ([5; 1; 0; 4] ++ (be_bytes 16 a ++ be_bytes 2 port) ++ rest).
    rewrite read_exact_app by done. cbn [Z.eqb Pos.eqb andb negb]. unfold socks_dial.
    rewrite <- app_assoc, read_exact_app, read_exact_app by apply length_be_bytes. by rewrite Ep, Eo.
Qed.

Lemma read_counted_str s rest : (String.length s <= 255)%nat ->
  read_counted (as_u 8 (Z.of_nat (String.length s)) :: str_bytes s ++ rest) = Some (str_bytes s, rest).
Proof.
  intros Hs. unfold read_counted.
  change (as_u 8 (Z.of_nat (String.length s)) :: str_bytes s ++ rest) with ([as_u 8 (Z.of_nat (String.length s))] ++ str_bytes s ++ rest).
  rewrite read_exact_app by done. cbn [mbind option_bind]. rewrite as_u_id by (unfold is_u; lia).
  replace (of_be_bytes [Z.of_nat (String.length s)]) with (Z.of_nat (String.length s)) by (cbn; lia).
  rewrite Nat2Z.id. apply read_exact_app, length_str_bytes.
Qed.

Lemma socks_login_ok net user pass rest : (String.length user <= 255)%nat -> (String.length pass <= 255)%nat ->
  socks_login net user pass (1 :: as_u 8 (Z.of_nat (String.length user)) :: str_bytes user ++
                             as_u 8 (Z.of_nat (String.length pass)) :: str_bytes pass ++ rest) = [1; 0] ++ socks_request net rest.
Proof.
  intros Hu Hp. unfold socks_login.
  match goal with |- context [read_exact 1 (1 :: ?l)] => change (read_exact 1 (1 :: l)) with (read_exact 1 ([1] ++ l)) end.
  rewrite read_exact_app by done. rewrite read_counted_str by done. rewrite read_counted_str by done.
  by rewrite bool_decide_eq_true_2.
Qed.

(** A tunnel as far as it stands: everything written from now on goes on to [say]. *)
Definition through (say : list Z -> list Z) (c : Conn) : Prop :=
  exists pre, c_pos c = length pre /\ forall more, c_peer c (c_written c ++ more) = pre ++ say more.

Lemma through_tunnel say q r post c : through say c -> say (frame q) = frame r ++ post -> fits r -> (tunnel_dns_query q c).1 = Ok r.
Proof. intros (pre & Hpos & Hp) Hs Hf. apply (tunnel_reads q r c pre post); [by rewrite Hp, Hs|done|done]. Qed.

Lemma socks5_connect_ok net upstream c : through (socks_request net) c -> ip_wf (so_ip upstream) -> is_u 16 (so_port upstream) ->
  exists c', socks5_connect upstream c = (Ok tt, c') /\ through (net upstream) c'.
Proof.
  intros (pre & Hpos & Hp) Hw Hport. unfold socks5_connect, and_then, write_all.
  assert (forall more, c_peer c ((c_written c ++ [5; 1; 0] ++ socks5_target upstream) ++ more) =
    pre ++ [5; 0; 0; 1] ++ [0; 0; 0; 0; 0; 0] ++ net upstream more) as Hpeer.
  { intros more. rewrite <- app_assoc, Hp, <- app_assoc, socks_request_target by done. done. }
  pose proof (Hpeer []) as H0. rewrite app_nil_r in H0.
  rewrite (take_exact_here 4 _ pre [5; 0; 0; 1] ([0; 0; 0; 0; 0; 0] ++ net upstream [])) by done.
  cbn [Z.eqb Pos.eqb negb]. unfold and_then.
  rewrite (take_exact_here 6 _ (pre ++ [5; 0; 0; 1]) [0; 0; 0; 0; 0; 0] (net upstream []));
    [|cbn [advance c_peer c_written]; by rewrite H0, <- app_assoc|cbn [advance c_pos]; rewrite length_app; cbn [length]; lia|done].
  eexists. split; [reflexivity|]. exists (pre ++ [5; 0; 0; 1] ++ [0; 0; 0; 0; 0; 0]). cbn [advance c_pos c_peer c_written]. split.
  - rewrite !length_app. cbn [length]. lia.
  - intros more. rewrite Hpeer. by rewrite <- !app_assoc.
Qed.

(** The credentials a configuration carries for a proxy. *)
Definition carries (proxy_auth : option string) (creds : option (string * string)) : Prop :=
  match creds with
  | None => True
  | Some (user, pass) =>
      proxy_auth = Some (user +:+ ":" +:+ pass) /\ free_of ":" user = true /\
      (String.length user <= 255)%nat /\ (String.length pass <= 255)%nat
  end.

Lemma socks5_greet_ok creds net proxy_auth : carries proxy_auth creds ->
  exists c', socks5_greet proxy_auth (mkConn (socks_proxy creds net) [] 0 false) = (Ok tt, c') /\ through (socks_request net) c'.
Proof.
  intros Hc. unfold socks5_greet, and_then, write_all. cbn [c_peer c_written c_pos c_reset app].
  destruct creds as [[user pass]|]; cbn [carries] in Hc.
  - destruct Hc as (-> & Hf & Hu & Hp).
    rewrite (take_exact_here 2 _ [] [5; 2] (socks_login net user pass [])) by done. cbn [Z.eqb Pos.eqb negb or_fail succeed].
    change (user +:+ ":" +:+ pass) with (user +:+ String ":" pass). rewrite split_once_cons by done. cbn [default from_option id].
    set (login := 1 :: as_u 8 (Z.of_nat (String.length user)) :: str_bytes user ++ as_u 8 (Z.of_nat (String.length pass)) :: str_bytes pass).
    cbn [advance c_peer c_written c_pos c_reset].
    assert (forall more, socks_proxy (Some (user, pass)) net (([5; 2; 0; 2] ++ login) ++ more) = [5; 2] ++ [1; 0] ++ socks_request net more) as Hpeer.
    { intros more. rewrite <- (socks_login_ok net user pass more) by done. unfold login. by rewrite <- !app_assoc; cbn [app]; rewrite <- !app_assoc. }
    pose proof (Hpeer []) as H0. rewrite app_nil_r in H0.
    unfold and_then. rewrite (take_exact_here 2 _ [5; 2] [1; 0] (socks_request net [])) by done. cbn [Z.eqb].
    eexists. split; [reflexivity|]. exists ([5; 2] ++ [1; 0]). split; [done|]. intros more. cbn [advance c_peer c_written]. by rewrite Hpeer.
  - rewrite (take_exact_here 2 _ [] [5; 0] []) by (by destruct proxy_auth). cbn [Z.eqb Pos.eqb negb].
    eexists. split; [reflexivity|]. exists [5; 0]. split; [done|]. intros more. by destruct proxy_auth.
Qed.

(** An HTTP proxy that answers a request with a head and then passes everything on. *)
Definition connect_proxy (req reply : list Z) (say : list Z -> list Z) (w : list Z) : list Z :=
  if bool_decide (take (length req) w = req) then reply ++ say (drop (length req) w) else [].

Lemma connect_proxy_after req reply say more : connect_proxy req reply say (req ++ more) = reply ++ say more.
Proof. unfold connect_proxy. by rewrite take_app_length, bool_decide_eq_true_2, drop_app_length. Qed.

Lemma str_contains_app needle s t : str_contains needle s = true -> str_contains needle (s +:+ t) = true.
Proof.
  assert (forall p u, starts_with p u = true -> starts_with p (u +:+ t) = true) as Hpre.
  { induction p as [|c p IH]; intros u; [by destruct (u +:+ t)|]. destruct u as [|d u]; [done|]. unfold starts_with in *. simpl. destruct (ascii_dec c d); [apply IH|done]. }
  induction s as [|c s IH]; cbn [str_contains]; rewrite orb_true_iff.
  - intros [H|H]; [|done]. apply Hpre in H. change (EmptyString +:+ t) with t in *. destruct t; cbn [str_contains]; by rewrite H.
  - change (String c s +:+ t) with (String c (s +:+ t)). cbn [str_contains]. rewrite orb_true_iff.
    intros [H|H]; [left; by apply (Hpre _ (String c s))|right; auto].
Qed.

Definition connect_request `{B64 : !Base64} (upstream : SocketAddr) (proxy_auth : option string) : list string :=
  ["CONNECT " +:+ socket_to_string upstream +:+ " HTTP/1.1"; "Host: " +:+ socket_to_string upstream] ++
  match proxy_auth with Some a => ["Proxy-Authorization: Basic " +:+ b64_encode (str_bytes a)] | None => [] end.

Lemma connect_request_bytes `{B64 : !Base64} upstream proxy_auth :
  str_bytes ("CONNECT " +:+ socket_to_string upstream +:+ " HTTP/1.1" +:+ crlf +:+ "Host: " +:+ socket_to_string upstream +:+ crlf +:+
             proxy_authorization proxy_auth +:+ crlf)%string = head_of (connect_request upstream proxy_auth).
Proof.
  rewrite head_of_text. f_equal. unfold connect_request, proxy_authorization, head_text.
  destruct proxy_auth; cbn [foldr app]; rewrite ?app_assoc_str; done.
Qed.

Lemma connect_tunnel_ok `{B64 : !Base64} connect say upstream proxy_auth url q r post status_line fields got :
  say (frame q) = frame r ++ post -> say [] = [] -> fits r -> str_contains "200" status_line = true ->
  (length (head_of (status_line :: fields)) <= Nat.min 1024 got)%nat ->
  connect (parse_proxy_addr url) = Some (mkConn (connect_proxy (head_of (connect_request upstream proxy_auth)) (head_of (status_line :: fields)) say) [] 0 false) ->
  forward_via_connect_proxy connect got q upstream url proxy_auth = Ok r.
Proof.
  intros Hs Hsilent Hf H200 Hlen Hconn. unfold forward_via_connect_proxy, on_connection. rewrite Hconn.
  unfold and_then, write_all. cbn [c_peer c_written c_pos c_reset app]. cbv zeta.
  rewrite connect_request_bytes.
  set (req := head_of (connect_request upstream proxy_auth)). set (reply := head_of (status_line :: fields)) in *.
  unfold take_some, unread. cbn [c_peer c_written c_pos]. rewrite drop_0.
  pose proof (connect_proxy_after req reply say []) as E. rewrite app_nil_r, Hsilent, app_nil_r in E. rewrite E, take_ge by done.
  replace (str_contains "200" (text_of reply)) with true.
  - cbn [negb]. apply (through_tunnel say q r post); [|done..]. exists reply. split; [done|]. intros more. cbn [advance c_peer c_written]. apply connect_proxy_after.
  - symmetry. unfold reply. rewrite head_of_text, text_of_str_bytes. cbn [head_text foldr]. by apply str_contains_app.
Qed.

(** A proxied query is answered by the host it was for. Through a SOCKS5 proxy, with
    or without credentials, and through an HTTP proxy whose whole response head
    arrives in the one read, the program's octets make the proxy dial exactly the
    address and port of the upstream, over IPv4 or IPv6, hand it the query framed
    and give back its answer. *)
Theorem proxied_query_reaches_upstream `{B64 : !Base64} connect creds net proxy_auth upstream url q r post status_line fields got :
  ip_wf (so_ip upstream) -> is_u 16 (so_port upstream) -> carries proxy_auth creds ->
  net upstream (frame q) = frame r ++ post -> fits r ->
  (connect (parse_proxy_addr url) = Some (mkConn (socks_proxy creds net) [] 0 false) ->
   forward_via_socks5_proxy connect q upstream url proxy_auth = Ok r) /\
  (connect (parse_proxy_addr url) =
     Some (mkConn (connect_proxy (head_of (connect_request upstream proxy_auth)) (head_of (status_line :: fields)) (net upstream)) [] 0 false) ->
   net upstream [] = [] -> str_contains "200" status_line = true -> (length (head_of (status_line :: fields)) <= Nat.min 1024 got)%nat ->
   forward_via_connect_proxy connect got q upstream url proxy_auth = Ok r).
Proof.
  intros Hw Hp Hc Hn Hf. split.
  - intros Hconn. unfold forward_via_socks5_proxy, on_connection. rewrite Hconn.
    destruct (socks5_greet_ok creds net proxy_auth Hc) as (c1 & E1 & T1).
    destruct (socks5_connect_ok net upstream c1 T1 Hw Hp) as (c2 & E2 & T2).
    unfold and_then. rewrite E1, E2. by apply (through_tunnel (net upstream) q r post).
  - intros Hconn Hsilent H200 Hlen. by apply (connect_tunnel_ok connect (net upstream) upstream proxy_auth url q r post status_line fields got).
Qed.

Lemma and_then_fst {A B} (m : talk A) (k : A -> talk B) c : (and_then m k c).1 = match m c with (Ok a, c') => (k a c').1 | (Err e, _) => Err e end.
Proof. unfold and_then. by destruct (m c) as [[]]. Qed.

(** The response head of an HTTP proxy is read once, so that whatever of it comes
    later, or lies beyond 1024 octets, is read as the answer to the query. *)
Theorem split_head_read_as_answer `{B64 : !Base64} connect say upstream proxy_auth url q h1 h2 got :
  say [] = [] -> h1 <> [] -> str_contains "200" (text_of h1) = true -> length h1 = Nat.min 1024 got ->
  connect (parse_proxy_addr url) = Some (mkConn (connect_proxy (head_of (connect_request upstream proxy_auth)) (h1 ++ h2) say) [] 0 false) ->
  forward_via_connect_proxy connect got q upstream url proxy_auth =
    match read_frame (h2 ++ say (frame q)) with Some (r, _) => Ok r | None => Err "early eof"%string end.
Proof.
  intros Hsilent Hne H200 Hlen Hconn. unfold forward_via_connect_proxy, on_connection. rewrite Hconn.
  unfold and_then at 1, write_all at 1. cbn [c_peer c_written c_pos c_reset app]. cbv zeta.
  rewrite connect_request_bytes.
  set (req := head_of (connect_request upstream proxy_auth)).
  unfold and_then at 1, take_some, unread. cbn [c_peer c_written c_pos]. rewrite drop_0.
  pose proof (connect_proxy_after req (h1 ++ h2) say []) as E. rewrite app_nil_r, Hsilent, app_nil_r in E.
  rewrite E, take_app_length', H200 by done. cbn [negb]. unfold tunnel_dns_query, and_then at 1, write_all at 1, and_then at 1, write_all at 1.
  cbn [advance c_peer c_written c_pos c_reset]. rewrite <- app_assoc. fold (frame q). rewrite and_then_fst. unfold take_exact at 1, unread.
  cbn [c_peer c_written c_pos Nat.add]. rewrite connect_proxy_after, <- app_assoc, drop_app_length. unfold read_frame.
  destruct (read_exact 2 (h2 ++ say (frame q))) as [[len rest]|] eqn:E2; [|done]. cbn [mbind option_bind].
  unfold take_exact, unread. cbn [advance c_peer c_written c_pos]. rewrite connect_proxy_after, <- app_assoc.
  rewrite <- drop_drop, drop_app_length. unfold read_exact in E2. destruct (2 <=? _)%nat; [|done]. injection E2 as <- <-.
  by destruct (read_exact _ (drop 2 _)) as [[]|].
Qed.

(** * Instances *)

#[local] Instance hex_url : Base64Url := {| b64url_encode := hex_encode; b64url_decode := hex_decode |}.

#[local] Instance hex_url_laws : Base64UrlLaws.
Proof.
  split; [exact (@b64_decode_encode hex_codec hex_codec_laws)|]. induction bs as [|b bs IH]; [done|].
  destruct (hex_digits_range b). change (is_b64url (digit_char (b mod 256 / 16)) && (is_b64url (digit_char (b mod 16)) && str_forall is_b64url (hex_encode bs)) = true).
  assert (forall d, 0 <= d < 16 -> is_b64url (digit_char d) = true) as Hd.
  { intros d Hd. pose proof (ascii_forall (fun c => implb (is_hex_digit c) (is_b64url c)) eq_refl (digit_char d)) as Hc.
    cbv beta in Hc. by rewrite hex_digit_char in Hc. }
  by rewrite !Hd by lia.
Qed.

(** Names that are their octets, as in the sample of datagrams, with an answer. *)
#[local] Instance answering_codec : WireCodec (list Z) unit := {|
  to_bytes _ := None;
  from_bytes bs :=
    match bs with
    | t :: _ => Some (mkMessage 0 true 0 0 true true false false false [] [mkWire [] t (RD_A 1); mkWire [] 60 (RD_A 2)] [] [] None)
    | [] => None
    end;
|}.

Definition echo (q : list Z) (s : nat) : option (list Z) * nat := (Some q, S s).

Lemma doh_listeners_agree_witness :
  handle_h3_request echo (mkH3Request POST "/dns-query" None [Some [30]; Some [1; 2]]) O =
    (mkResponse 200 (Some "application/dns-message"%string) (Some "max-age=30"%string) None [30; 1; 2], 1%nat) /\
  status (handle_h3_request echo (mkH3Request GET "/dns-query" (Some "dns=1e0102=="%string) []) O).1 = 200.
Proof.
  pose proof (doh_listeners_agree echo [[30]; [1; 2]] [30; 1; 2] 2 None O eq_refl) as H.
  destruct H as (_ & _ & _ & [H _] & _); [repeat constructor; unfold is_u; lia|done|].
  split; [vm_compute; reflexivity|exact H].
Defined.

Definition sample_doh : Forwarder :=
  mkForwarder Doh (mkSocket (V4 134744072) 443) (Some "dns.google"%string) (Some "dns.google"%string) None "dns.google"%string 0.

Definition sample_fields : list string := ["Content-Type: application/dns-message"; "Transfer-Encoding: chunked"]%string.

Lemma doh_upstream_exact_witness :
  query_doh (fun _ _ => Some (head_of ("HTTP/1.1 200 OK"%string :: sample_fields) ++
    chunked_body [([1; 2; 3], ";x=y"%string); ([4], ""%string)] "" [13; 10])) [0; 0] sample_doh = Some [1; 2; 3; 4].
Proof.
  eapply (doh_upstream_exact _ [0; 0] sample_doh ("dns.google"%string, "dns.google"%string) _ _ "HTTP/1.1 200 OK"%string sample_fields
    [1; 2; 3; 4] (chunked_body [([1; 2; 3], ";x=y"%string); ([4], ""%string)] "" [13; 10])).
  - reflexivity.
  - reflexivity.
  - reflexivity.
  - repeat (apply List.Forall_cons; [split; [done|reflexivity]|]). apply List.Forall_nil.
  - vm_compute. lia.
  - apply (sent_chunked ("HTTP/1.1 200 OK"%string :: sample_fields) [1; 2; 3; 4] [([1; 2; 3], ";x=y"%string); ([4], ""%string)] "" [13; 10]).
    + reflexivity.
    + repeat (apply List.Forall_cons; [split; [done|split; [cbn; unfold usize_max, u64_max; lia|split; reflexivity]]|]). apply List.Forall_nil.
    + split; reflexivity.
    + reflexivity.
  - done.
  - reflexivity.
Defined.

#[local] Existing Instance hex_codec.

Definition echo_host (a : SocketAddr) (w : list Z) : list Z := if bool_decide (a = mkSocket (V6 1) 53) then w else [].

Lemma proxied_query_reaches_upstream_witness :
  forward_via_socks5_proxy (fun _ => Some (mkConn (socks_proxy (Some ("me", "secret")%string) echo_host) [] 0 false))
    [1; 2; 3] (mkSocket (V6 1) 53) "socks5://127.0.0.1:1080" (Some "me:secret"%string) = Ok [1; 2; 3].
Proof.
  refine (proj1 (proxied_query_reaches_upstream (fun _ => Some (mkConn (socks_proxy (Some ("me", "secret")%string) echo_host) [] 0 false))
    (Some ("me", "secret")%string) echo_host (Some "me:secret"%string) (mkSocket (V6 1) 53) "socks5://127.0.0.1:1080" [1; 2; 3] [1; 2; 3] [] "" [] O
    _ _ _ _ _) eq_refl).
  - unfold ip_wf, is_u. simpl. lia.
  - unfold is_u. simpl. lia.
  - split; [reflexivity|split; [reflexivity|]]. cbn. lia.
  - reflexivity.
  - unfold fits. cbn. lia.
Defined.

(** A head in two parts: the blank line is the length of an answer that never comes. *)
Lemma split_head_read_as_answer_witness :
  forward_via_connect_proxy
    (fun _ => Some (mkConn (connect_proxy (head_of (connect_request (mkSocket (V4 1) 53) None)) (head_of ["HTTP/1.1 200 OK"%string]) id) [] 0 false))
    17 [1; 2; 3] (mkSocket (V4 1) 53) "http://proxy" None = Err "early eof"%string.
Proof.
  rewrite (split_head_read_as_answer _ id (mkSocket (V4 1) 53) None "http://proxy" [1; 2; 3] (str_bytes "HTTP/1.1 200 OK" ++ [13; 10]) [13; 10] 17);
    [vm_compute; reflexivity|reflexivity|done|reflexivity|reflexivity|reflexivity].
Defined.
