(* ===== verification/Probe.v ===== *)
(** The routability probe of the two address families ([src/src/probe.rs]): which
    families the server answers for, from what each cycle of connections found. The
    outcome of a connection is an argument. *)

From S2P Require Import Prelude RustStr Names.
From stdpp Require Import base sets list option strings.
From Stdlib Require Import ZArith Lia Bool.

Open Scope Z_scope.

(** * State *)

Record FamilyState := mkFamily { f_ok : bool; f_fails : Z }.

Record ProbeState := mkProbe {
  v4 : FamilyState;
  v6 : FamilyState;
  seeded : bool;
  applied : bool * bool;
}.

Definition new_probe : ProbeState := mkProbe (mkFamily true 0) (mkFamily true 0) false (true, true).

(** Up on the first success, down after [threshold] failures in a row. *)
Definition debounce (f : FamilyState) (reachable : bool) (threshold : Z) : FamilyState :=
  if reachable then mkFamily true 0
  else
    let fails := Z.min (f_fails f + 1) u32_max in
    mkFamily (if threshold <=? fails then false else f_ok f) fails.

(** The first cycle decides. *)
Definition seed (reachable : bool) (threshold : Z) : FamilyState := mkFamily reachable (if reachable then 0 else threshold).

(** The families the server answers for are the second component. *)
Definition tick (threshold : Z) (reachable : bool * bool) (s : ProbeState) (families : bool * bool) : ProbeState * (bool * bool) :=
  let s' := if seeded s
            then mkProbe (debounce (v4 s) reachable.1 threshold) (debounce (v6 s) reachable.2 threshold) true (applied s)
            else mkProbe (seed reachable.1 threshold) (seed reachable.2 threshold) true (applied s) in
  let answer := if negb (f_ok (v4 s')) && negb (f_ok (v6 s')) then (true, true) else (f_ok (v4 s'), f_ok (v6 s')) in
  if bool_decide (answer = applied s') then (s', families) else (mkProbe (v4 s') (v6 s') true answer, answer).

(** ** Start *)

Record AddressFamilyConfig := mkAfConfig {
  af_mode : string;
  af_fail_threshold : Z;
  targets_v4 : list string;
  targets_v6 : list string;
}.

(** Which targets accept a connection in a cycle. *)
Abbreviation Connects := (string -> bool).

Definition probe_family (connect : Connects) (targets : list string) : bool := existsb connect targets.

Definition cycle_of (cfg : AddressFamilyConfig) (connect : Connects) : bool * bool :=
  (probe_family connect (targets_v4 cfg), probe_family connect (targets_v6 cfg)).

Fixpoint ticks (threshold : Z) (cycles : list (bool * bool)) (s : ProbeState) (families : bool * bool) : ProbeState * (bool * bool) :=
  match cycles with
  | [] => (s, families)
  | c :: cycles' => let (s, families) := tick threshold c s families in ticks threshold cycles' s families
  end.

(** [start], and what the loop it spawns has made of the cycles since: the families
    answered for. The first cycle runs before it returns. *)
Definition start (cfg : AddressFamilyConfig) (connects : list Connects) (families : bool * bool) : bool * bool :=
  let mode := to_lowercase (af_mode cfg) in
  if (mode =? "off")%string || (mode =? "")%string then (true, true)
  else if (mode =? "force4")%string then (true, false)
  else if (mode =? "force6")%string then (false, true)
  else (ticks (Z.max 1 (af_fail_threshold cfg)) (cycle_of cfg <$> connects) new_probe families).2.

(** * What it should answer *)

(** The failures at the end of the readings of a family. *)
Fixpoint streak (readings : list bool) : nat :=
  match readings with
  | [] => 0
  | r :: rs => if forallb negb (r :: rs) then S (length rs) else streak rs
  end.

(** A family counts as unreachable when its last [threshold] readings failed, or all
    of them did since the start. *)
Definition unreachable (threshold : Z) (readings : list bool) : bool :=
  (threshold <=? Z.of_nat (streak readings)) || (negb (bool_decide (readings = [])) && forallb negb readings).

Definition should_answer (threshold : Z) (cycles : list (bool * bool)) : bool * bool :=
  let d4 := unreachable threshold cycles.*1 in
  let d6 := unreachable threshold cycles.*2 in
  if d4 && d6 then (true, true) else (negb d4, negb d6).

(** ** One family *)

(** Failures at the end, by the reading that is added last. *)
Lemma streak_snoc readings r : streak (readings ++ [r]) = if r then 0%nat else S (streak readings).
Proof.
  induction readings as [|a readings IH]; [by destruct r|]. simpl. rewrite forallb_app. simpl. destruct r; simpl.
  - rewrite !andb_false_r. exact IH.
  - rewrite !andb_true_r. destruct (negb a && forallb negb readings); [|exact IH].
    rewrite length_app. simpl. lia.
Qed.

Lemma streak_all readings : forallb negb readings = true -> streak readings = length readings.
Proof. destruct readings as [|a l]; [done|]. intros H. cbn [streak]. by rewrite H. Qed.

Lemma unreachable_snoc threshold readings r :
  readings <> [] -> 1 <= threshold -> unreachable threshold (readings ++ [r]) =
    negb r && ((threshold <=? Z.of_nat (S (streak readings))) || forallb negb readings).
Proof.
  intros Hne Ht. unfold unreachable. rewrite streak_snoc, forallb_app, bool_decide_false by (by destruct readings). simpl.
  destruct r; simpl; [rewrite !andb_false_r, orb_false_r; apply Z.leb_gt; lia|]. by rewrite andb_true_r.
Qed.

(** What the state of a family says of its readings. *)
Definition tracks (threshold : Z) (readings : list bool) (f : FamilyState) : Prop :=
  f_ok f = negb (unreachable threshold readings) /\ (threshold <=? f_fails f) = unreachable threshold readings /\
  (f_fails f < threshold -> f_fails f = Z.of_nat (streak readings)).

Lemma tracks_seed threshold r : 1 <= threshold -> tracks threshold [r] (seed r threshold).
Proof.
  intros Ht. assert ((threshold <=? 0) = false) as H0 by (apply Z.leb_gt; lia).
  unfold tracks, unreachable, seed. destruct r; cbn [streak forallb negb andb length f_ok f_fails].
  - change (Z.of_nat 0) with 0. rewrite H0, andb_false_r. done.
  - rewrite bool_decide_false, Z.leb_refl, orb_true_r by done. split_and!; [done|done|lia].
Qed.

Lemma tracks_debounce threshold readings r f :
  1 <= threshold <= u32_max -> readings <> [] -> tracks threshold readings f ->
  tracks threshold (readings ++ [r]) (debounce f r threshold).
Proof.
  intros Ht Hne (H1 & H2 & H3). unfold tracks. rewrite !unreachable_snoc, streak_snoc by (done || lia).
  unfold debounce. destruct r; simpl.
  { split_and!; [done|apply Z.leb_gt; lia|done]. }
  destruct (Z.leb_spec threshold (f_fails f)) as [Hge|Hlt].
  - replace (threshold <=? Z.min (f_fails f + 1) u32_max) with true by (symmetry; apply Z.leb_le; lia).
    replace (_ || _) with true; [split_and!; [done|done|lia]|]. symmetry. unfold unreachable in H2.
    rewrite bool_decide_false in H2 by done. destruct (Z.leb_spec threshold (Z.of_nat (streak readings))); simpl in *.
    + apply orb_true_iff. left. apply Z.leb_le. lia.
    + by rewrite <- H2, orb_true_r.
  - specialize (H3 Hlt). unfold unreachable in H1, H2. rewrite bool_decide_false in H1, H2 by done. rewrite <- H2 in H1.
    symmetry in H2. apply orb_false_iff in H2 as [_ Hall]. simpl in Hall. rewrite Hall, orb_false_r.
    replace (Z.min (f_fails f + 1) u32_max) with (Z.of_nat (S (streak readings))) by lia. rewrite H1.
    split_and!; [by destruct (threshold <=? _)|done|done].
Qed.

(** ** Both *)

Definition probed (threshold : Z) (cycles : list (bool * bool)) (s : ProbeState) (families : bool * bool) : Prop :=
  seeded s = true /\ tracks threshold cycles.*1 (v4 s) /\ tracks threshold cycles.*2 (v6 s) /\
  applied s = should_answer threshold cycles /\ families = applied s.

Lemma tick_probed threshold cycles c s families :
  1 <= threshold <= u32_max ->
  (cycles = [] /\ s = new_probe /\ families = (true, true)) \/ (cycles <> [] /\ probed threshold cycles s families) ->
  probed threshold (cycles ++ [c]) (tick threshold c s families).1 (tick threshold c s families).2.
Proof.
  intros Ht Hc. unfold tick. set (s' := if seeded s then _ else _).
  assert (seeded s' = true /\ tracks threshold (cycles ++ [c]).*1 (v4 s') /\ tracks threshold (cycles ++ [c]).*2 (v6 s') /\
    families = applied s') as (Hs & H4 & H6 & Hf).
  { rewrite !fmap_app. destruct Hc as [(-> & -> & ->)|(Hne & Hs & H4 & H6 & _ & Hf)].
    - simpl. split_and!; [done|apply tracks_seed; lia..|done].
    - unfold s'. rewrite Hs. simpl. split_and!; [done| | |done]; apply tracks_debounce; try done; by destruct cycles. }
  set (answer := if _ && _ then _ else _). assert (answer = should_answer threshold (cycles ++ [c])) as Ha.
  { unfold answer, should_answer. rewrite (proj1 H4), (proj1 H6), !negb_involutive. done. }
  clearbody s'. destruct (bool_decide_reflect (answer = applied s')) as [E|E]; cbn [fst snd].
  - split_and!; [done..|congruence|done].
  - split_and!; [done..|simpl; congruence|done].
Qed.

Lemma ticks_probed threshold cycles before s families :
  1 <= threshold <= u32_max ->
  (before = [] /\ s = new_probe /\ families = (true, true)) \/ (before <> [] /\ probed threshold before s families) ->
  (ticks threshold cycles s families).2 = should_answer threshold (before ++ cycles).
Proof.
  intros Ht. revert before s families. induction cycles as [|c cycles IH]; intros before s families Hb; cbn [ticks].
  - rewrite app_nil_r. destruct Hb as [(-> & -> & ->)|(_ & _ & _ & _ & Ha & ->)]; [|done].
    assert ((threshold <=? 0) = false) as H0 by (apply Z.leb_gt; lia). unfold should_answer, unreachable. simpl.
    change (Z.of_nat 0) with 0. by rewrite H0.
  - pose proof (tick_probed threshold before c s families Ht Hb) as Hp.
    destruct (tick threshold c s families) as [s' families']. simpl in Hp. rewrite (IH (before ++ [c])).
    + by rewrite <- app_assoc.
    + right. split; [by destruct before|done].
Qed.

(** * Properties *)

(** Which families are answered for. Whatever the mode and whatever the probe finds,
    at least one family is answered for. In the probing mode, with the server's
    default of both at the start, a family is suppressed exactly when its last
    [fail_threshold] cycles failed or every cycle since the start did, and not when
    that is so of both. *)
Theorem probe_suppresses_dead_family cfg connects :
  af_fail_threshold cfg <= u32_max ->
  start cfg connects (true, true) <> (false, false) /\
  (to_lowercase (af_mode cfg) ∉ ["off"; ""; "force4"; "force6"] ->
   start cfg connects (true, true) = should_answer (Z.max 1 (af_fail_threshold cfg)) (cycle_of cfg <$> connects)).
Proof.
  intros Ht. unfold start. assert (1 <= Z.max 1 (af_fail_threshold cfg) <= u32_max) as Hr by (unfold u32_max in *; lia).
  pose proof (ticks_probed (Z.max 1 (af_fail_threshold cfg)) (cycle_of cfg <$> connects) [] new_probe (true, true) Hr (or_introl (conj eq_refl (conj eq_refl eq_refl)))) as ->.
  rewrite app_nil_l. split.
  - do 3 (case_match; [done|]). unfold should_answer. by destruct (unreachable _ _), (unreachable _ _).
  - intros Hm. repeat case_match; [| | |done]; exfalso; apply Hm; bool_hyps; set_solver.
Qed.

Definition sample_af : AddressFamilyConfig := mkAfConfig "Auto" 2 ["1.1.1.1:443"] ["[2606:4700:4700::1111]:443"].

Lemma probe_suppresses_dead_family_witness :
  let both := fun _ : string => true in
  let only4 := fun t => (t =? "1.1.1.1:443")%string in
  let none := fun _ : string => false in
  start sample_af [both; only4; only4] (true, true) = (true, false) /\
  start sample_af [both; only4] (true, true) = (true, true) /\
  start sample_af [only4; none; none] (true, true) <> (false, false).
Proof.
  assert (af_fail_threshold sample_af <= u32_max) as Ht by (simpl; unfold u32_max; lia).
  assert (to_lowercase (af_mode sample_af) ∉ ["off"; ""; "force4"; "force6"]) as Hm by (vm_compute; set_solver).
  split_and!.
  - rewrite (proj2 (probe_suppresses_dead_family sample_af _ Ht) Hm). vm_compute. reflexivity.
  - rewrite (proj2 (probe_suppresses_dead_family sample_af _ Ht) Hm). vm_compute. reflexivity.
  - exact (proj1 (probe_suppresses_dead_family sample_af _ Ht)).
Defined.
