(* ===== verification/Ingress.v ===== *)
(** The ingress listeners of [src/src/dns_server.rs]: for each address a TLD is entered
    through, the tasks that listen there. A task is spawned before it has a socket;
    it listens if it gets one and is over otherwise, and only its handle stays in the
    registry. *)

From S2P Require Import Prelude Ip.
From stdpp Require Import base gmap sets list option strings.
From Stdlib Require Import ZArith Lia Bool.

Open Scope Z_scope.

(** * State *)

(** A task that was spawned knows the socket it is to bind. *)
Inductive Task := Starting (bind : SocketAddr) | Serving | Finished.

#[export] Instance Task_eq_dec : EqDecision Task.
Proof. solve_decision. Defined.

Definition is_finished (t : Task) : bool := bool_decide (t = Finished).

(** The handles at an address: that of the datagrams and that of the connections. *)
Record Ingress := mkIngress { ingress_listeners : gmap IpAddr (list Task); ingress_port : Z }.

Definition no_ingress : Ingress := mkIngress ∅ 53.

(** * Operations *)

Definition set_ingress_port (port : Z) (s : Ingress) : Ingress := mkIngress (ingress_listeners s) port.

Definition alive (tasks : list Task) : bool := existsb (fun h => negb (is_finished h)) tasks.

Definition ingress_listener_count (s : Ingress) : nat := size (filter (fun e => alive e.2 = true) (ingress_listeners s)).

Definition has_ingress_listener (s : Ingress) (ip : IpAddr) : bool :=
  match ingress_listeners s !! ip with Some tasks => alive tasks | None => false end.

(** Nothing is done while a task of the address is not over. *)
Definition spawn_ingress_listener (ip : IpAddr) (s : Ingress) : Ingress :=
  if has_ingress_listener s ip then s
  else let bind := mkSocket ip (ingress_port s) in
       mkIngress (<[ip := [Starting bind; Starting bind]]> (ingress_listeners s)) (ingress_port s).

Definition stop_ingress_listener (ip : IpAddr) (s : Ingress) : Ingress :=
  mkIngress (delete ip (ingress_listeners s)) (ingress_port s).

Definition sync_ingress_listeners (ips : list IpAddr) (s : Ingress) : Ingress :=
  foldl (fun s ip => spawn_ingress_listener ip s) s ips.

(** * The tasks *)

(** A task that was spawned gets its socket or is over. *)
Definition settle (got : SocketAddr -> bool) (t : Task) : Task := match t with Starting bind => if got bind then Serving else Finished | _ => t end.

(** The sockets that are to be had at a moment, over UDP and over TCP. *)
Abbreviation Sockets := (SocketAddr -> bool * bool).

Definition settle_tasks (net : Sockets) (tasks : list Task) : list Task :=
  match tasks with [udp; tcp] => [settle (fun b => (net b).1) udp; settle (fun b => (net b).2) tcp] | _ => tasks end.

(** All the tasks run. *)
Definition run_tasks (net : Sockets) (s : Ingress) : Ingress :=
  mkIngress (settle_tasks net <$> ingress_listeners s) (ingress_port s).

(** What happens to the registry: a call, a turn of the tasks, the end of a task on an
    error of its socket. *)
Inductive ingress_step : Ingress -> Ingress -> Prop :=
| step_spawn ip s : ingress_step s (spawn_ingress_listener ip s)
| step_stop ip s : ingress_step s (stop_ingress_listener ip s)
| step_port port s : ingress_step s (set_ingress_port port s)
| step_run net s : ingress_step s (run_tasks net s)
| step_exit ip i tasks s : ingress_listeners s !! ip = Some tasks -> tasks !! i = Some Serving ->
    ingress_step s (mkIngress (<[ip := <[i := Finished]> tasks]> (ingress_listeners s)) (ingress_port s)).

Definition ingress_reachable : Ingress -> Prop := rtc ingress_step no_ingress.

(** * The registry *)

(** Every entry has its two tasks. *)
Definition ingress_wf (s : Ingress) : Prop := map_Forall (fun _ tasks => length tasks = 2%nat) (ingress_listeners s).

Lemma ingress_step_wf s s' : ingress_step s s' -> ingress_wf s -> ingress_wf s'.
Proof.
  unfold ingress_wf. intros [ip s0|ip s0|port s0|net s0|ip i tasks s0 Hl Hi] H; cbn.
  - unfold spawn_ingress_listener. case_match; [done|]. cbn. by apply map_Forall_insert_2.
  - by apply map_Forall_delete.
  - done.
  - intros ip tasks. rewrite lookup_fmap. destruct (_ !! ip) as [t|] eqn:E; [|done]. cbn. intros [= <-].
    specialize (H _ _ E). by destruct t as [|? [|? [|]]].
  - apply map_Forall_insert_2; [|done]. rewrite length_insert. by specialize (H _ _ Hl).
Qed.

Lemma ingress_reachable_wf s : ingress_reachable s -> ingress_wf s.
Proof.
  unfold ingress_reachable. assert (ingress_wf no_ingress) as H by apply map_Forall_empty. revert H. generalize no_ingress. intros s0 H0 H.
  induction H as [|x y z Hs _ IH]; [done|]. by eapply IH, ingress_step_wf.
Qed.

Lemma spawn_other ip ip' s : ip' <> ip -> ingress_listeners (spawn_ingress_listener ip s) !! ip' = ingress_listeners s !! ip'.
Proof. intros H. unfold spawn_ingress_listener. case_match; [done|]. cbn. by rewrite lookup_insert_ne. Qed.

Lemma run_tasks_lookup net s ip :
  ingress_listeners (run_tasks net s) !! ip = settle_tasks net <$> ingress_listeners s !! ip.
Proof. apply lookup_fmap. Qed.

Lemma spawn_dom ip s : dom (ingress_listeners (spawn_ingress_listener ip s)) = {[ip]} ∪ dom (ingress_listeners s).
Proof.
  unfold spawn_ingress_listener, has_ingress_listener. destruct (_ !! ip) as [tasks|] eqn:E; [destruct (alive tasks)|]; cbn.
  - apply elem_of_dom_2 in E. set_solver.
  - by rewrite dom_insert_L.
  - by rewrite dom_insert_L.
Qed.

Lemma sync_dom ips s : dom (ingress_listeners (sync_ingress_listeners ips s)) = list_to_set ips ∪ dom (ingress_listeners s).
Proof.
  unfold sync_ingress_listeners. revert s. induction ips as [|ip ips IH]; intros s; cbn; [set_solver|]. rewrite IH, spawn_dom. set_solver.
Qed.

(** * Listening *)

(** Both protocols are listened to at an address. *)
Definition listening (s : Ingress) (ip : IpAddr) : Prop := ingress_listeners s !! ip = Some [Serving; Serving].

(** A registered address with a task that is not over has one that listens, once the
    tasks have run. *)
Lemma settled_alive net tasks : length tasks = 2%nat -> alive (settle_tasks net tasks) = true -> Serving ∈ settle_tasks net tasks.
Proof.
  destruct tasks as [|a [|b [|]]]; [done..| |done]. intros _. cbn. destruct a as [x| |], b as [y| |]; cbn; repeat case_match; cbn; try done; intros _; set_solver.
Qed.

(** A listener can always be had again. Whatever happened before, asking for an
    address leaves it as it is while a task of it is not over, so that a listener is
    never interrupted, and otherwise, also when an earlier attempt found no socket,
    has it listened to over both protocols as soon as the sockets are to be had; the
    other addresses are left alone. And once the tasks have run, an address that is
    said to have a listener is one that a task listens on. *)
Theorem ingress_reasserted s ip net : ingress_reachable s -> net (mkSocket ip (ingress_port s)) = (true, true) ->
  let s' := spawn_ingress_listener ip s in
  (if has_ingress_listener s ip then s' = s else listening (run_tasks net s') ip) /\
  (forall ip', ip' <> ip -> ingress_listeners s' !! ip' = ingress_listeners s !! ip') /\
  dom (ingress_listeners s') = {[ip]} ∪ dom (ingress_listeners s) /\
  (forall net' ip', has_ingress_listener (run_tasks net' s') ip' = true ->
     exists tasks, ingress_listeners (run_tasks net' s') !! ip' = Some tasks /\ Serving ∈ tasks).
Proof.
  intros Hr Hn. pose proof (ingress_step_wf _ _ (step_spawn ip s) (ingress_reachable_wf _ Hr)) as Hw. cbn zeta. split_and!.
  - unfold listening. rewrite run_tasks_lookup. unfold spawn_ingress_listener. destruct (has_ingress_listener s ip); [done|]. cbn.
    by rewrite lookup_insert_eq; cbn; rewrite Hn.
  - intros ip'. apply spawn_other.
  - apply spawn_dom.
  - intros net' ip'. unfold has_ingress_listener. rewrite run_tasks_lookup.
    destruct (ingress_listeners (spawn_ingress_listener ip s) !! ip') as [tasks|] eqn:E; [|done]. cbn. intros Ha.
    exists (settle_tasks net' tasks). split; [done|].
    apply settled_alive; [by apply (Hw _ _ E)|done].
Qed.

(** A listener that has lost one of its protocols counts as whole: asking for it again
    does nothing, however often and whatever sockets are to be had, while the task of
    the other one goes on. *)
Theorem half_listener_stays_half s ip tasks nets :
  tasks = [Finished; Serving] \/ tasks = [Serving; Finished] -> ingress_listeners s !! ip = Some tasks ->
  ingress_listeners (foldl (fun s net => run_tasks net (spawn_ingress_listener ip s)) s nets) !! ip = Some tasks.
Proof.
  intros Ht. revert s. induction nets as [|net nets IH]; intros s Hs; [done|]. cbn [foldl]. apply IH.
  assert (has_ingress_listener s ip = true) as Ha by (unfold has_ingress_listener; rewrite Hs; by destruct Ht as [-> | ->]).
  rewrite run_tasks_lookup. unfold spawn_ingress_listener. rewrite Ha, Hs. by destruct Ht as [-> | ->].
Qed.

(** * At concrete addresses *)

(** An overlay address whose interface is not there at boot. *)
Definition overlay_ip : IpAddr := V4 171966465.
Definition booted : Ingress := run_tasks (fun _ => (false, false)) (sync_ingress_listeners [overlay_ip] no_ingress).

Lemma ingress_reasserted_witness :
  ingress_reachable booted /\ has_ingress_listener booted overlay_ip = false /\
  listening (run_tasks (fun _ => (true, true)) (spawn_ingress_listener overlay_ip booted)) overlay_ip.
Proof.
  assert (ingress_reachable booted) as Hr.
  { apply (rtc_l _ _ (spawn_ingress_listener overlay_ip no_ingress)); [apply step_spawn|].
    apply rtc_once. apply step_run. }
  split_and!; [exact Hr|vm_compute; reflexivity|].
  pose proof (ingress_reasserted booted overlay_ip (fun _ => (true, true)) Hr eq_refl) as [H _]. exact H.
Defined.

Lemma half_listener_stays_half_witness :
  let s := run_tasks (fun _ => (false, true)) (spawn_ingress_listener overlay_ip no_ingress) in
  ingress_listeners s !! overlay_ip = Some [Finished; Serving] /\
  ingress_listeners (foldl (fun s net => run_tasks net (spawn_ingress_listener overlay_ip s)) s [fun _ => (true, true); fun _ => (true, true)]) !! overlay_ip
    = Some [Finished; Serving].
Proof.
  split; [reflexivity|]. apply (half_listener_stays_half _ _ _ [fun _ => (true, true); fun _ => (true, true)]); [by left|reflexivity].
Defined.
