(* ===== verification/Metrics.v ===== *)
(** The metrics of the query path ([src/src/metrics.rs]): counters, histograms and
    their text, the labels a query is counted under, and the one place that counts it
    ([handle_query_proto] of [src/src/dns_server.rs]). How a floating-point number is
    written is an argument; the gauges sampled at a scrape are left out. *)

From S2P Require Import Prelude RustStr Names Ip Records Wire Negative.
From stdpp Require Import base gmap sets list option strings.
From Stdlib Require Import ZArith Lia Bool Ascii.

Open Scope Z_scope.
Local Open Scope rolodex_scope.

(** * Text *)

Definition quote : string := String (ascii_of_nat 34) "".
Definition newline : string := String (ascii_of_nat 10) "".

(** Backslash, double quote and newline are escaped. *)
Fixpoint escape_label_value (value : string) : string :=
  match value with
  | EmptyString => EmptyString
  | String c s =>
      (if Ascii.eqb c "\" then String "\" (String "\" "")
       else if Ascii.eqb c (ascii_of_nat 34) then String "\" quote
       else if Ascii.eqb c (ascii_of_nat 10) then String "\" (String "n" "")
       else String c "") +:+ escape_label_value s
  end.

Definition write_meta (name help kind : string) : string :=
  "# HELP " +:+ name +:+ " " +:+ help +:+ newline +:+ "# TYPE " +:+ name +:+ " " +:+ kind +:+ newline.

Definition write_labels (labels : list (string * string)) : string :=
  match labels with
  | [] => EmptyString
  | _ => "{" +:+ str_join "," ((fun kv => kv.1 +:+ "=" +:+ quote +:+ escape_label_value kv.2 +:+ quote) <$> labels) +:+ "}"
  end.

Definition write_sample (name : string) (labels : list (string * string)) (value : Z) : string :=
  name +:+ write_labels labels +:+ " " +:+ show_dec value +:+ newline.

(** * Counters *)

(** [fetch_add]. *)
Definition bump (n v : Z) : Z := as_u 64 (v + n).

Record CounterVec := mkCounterVec { cv_name : string; cv_help : string; cv_label : string; cv_values : list string; cv_counters : list Z }.

Definition new_counter_vec (name help label : string) (values : list string) : CounterVec :=
  mkCounterVec name help label values (replicate (length values) 0).

(** An index out of range is ignored. *)
Definition cv_add (idx : nat) (n : Z) (c : CounterVec) : CounterVec :=
  mkCounterVec (cv_name c) (cv_help c) (cv_label c) (cv_values c) (alter (bump n) idx (cv_counters c)).
Definition cv_inc (idx : nat) : CounterVec -> CounterVec := cv_add idx 1.
Definition cv_get (idx : nat) (c : CounterVec) : Z := default 0 (cv_counters c !! idx).

Definition cv_encode (c : CounterVec) : string :=
  write_meta (cv_name c) (cv_help c) "counter" +:+
  str_join "" (imap (fun i value => write_sample (cv_name c) [(cv_label c, value)] (cv_get i c)) (cv_values c)).

Record CounterVec2 := mkCounterVec2 {
  c2_name : string; c2_help : string; c2_labels : string * string; c2_rows : list string; c2_cols : list string; c2_counters : list Z }.

Definition new_counter_vec2 (name help : string) (labels : string * string) (rows cols : list string) : CounterVec2 :=
  mkCounterVec2 name help labels rows cols (replicate (length rows * length cols) 0).

Definition c2_inc (row col : nat) (c : CounterVec2) : CounterVec2 :=
  if ((row <? length (c2_rows c)) && (col <? length (c2_cols c)))%nat
  then mkCounterVec2 (c2_name c) (c2_help c) (c2_labels c) (c2_rows c) (c2_cols c)
         (alter (bump 1) (row * length (c2_cols c) + col)%nat (c2_counters c))
  else c.

Definition c2_get (row col : nat) (c : CounterVec2) : Z := default 0 (c2_counters c !! (row * length (c2_cols c) + col)%nat).

Definition c2_encode (c : CounterVec2) : string :=
  write_meta (c2_name c) (c2_help c) "counter" +:+
  str_join "" (mjoin (imap (fun r row => imap (fun k col =>
    write_sample (c2_name c) [((c2_labels c).1, row); ((c2_labels c).2, col)] (c2_get r k c)) (c2_cols c)) (c2_rows c))).

(** Series made on first use. *)
Abbreviation DynCounterVec := (gmap string Z).

Definition dyn_inc (value : string) (m : DynCounterVec) : DynCounterVec := <[value := bump 1 (default 0 (m !! value))]> m.
Definition dyn_get (value : string) (m : DynCounterVec) : Z := default 0 (m !! value).

(** * Histograms *)

Record Histogram := mkHistogram { h_bounds : list Z; h_counts : list Z; h_sum : Z; h_count : Z }.

Definition new_histogram (bounds : list Z) : Histogram := mkHistogram bounds (replicate (S (length bounds)) 0) 0 0.

(** The first bound that is not exceeded, or the last bucket. *)
Fixpoint bucket_of (bounds : list Z) (v : Z) : nat :=
  match bounds with [] => O | b :: bounds' => if v <=? b then O else S (bucket_of bounds' v) end.

Definition observe (v : Z) (h : Histogram) : Histogram :=
  mkHistogram (h_bounds h) (alter (bump 1) (bucket_of (h_bounds h) v) (h_counts h)) (bump v (h_sum h)) (bump 1 (h_count h)).

(** What is written: a running total per bound. *)
Fixpoint cumulative (acc : Z) (bounds counts : list Z) : list (Z * Z) :=
  match bounds with
  | [] => []
  | b :: bounds' => let acc := acc + default 0 (head counts) in (b, acc) :: cumulative acc bounds' (tail counts)
  end.

Section Floats.
(** A bound or a sum, divided by the scale of the metric. *)
Context (format_scaled : Z -> string).

Definition h_encode (name help : string) (h : Histogram) : string :=
  write_meta name help "histogram" +:+
  str_join "" ((fun bc => name +:+ "_bucket{le=" +:+ quote +:+ format_scaled bc.1 +:+ quote +:+ "} " +:+ show_dec bc.2 +:+ newline)
                 <$> cumulative 0 (h_bounds h) (h_counts h)) +:+
  name +:+ "_bucket{le=" +:+ quote +:+ "+Inf" +:+ quote +:+ "} " +:+ show_dec (h_count h) +:+ newline +:+
  name +:+ "_sum " +:+ format_scaled (h_sum h) +:+ newline +:+
  name +:+ "_count " +:+ show_dec (h_count h) +:+ newline.
End Floats.

(** A family of histograms, a row of the matrix for each label value. *)
Record HistogramVec := mkHistogramVec {
  hv_values : list string; hv_bounds : list Z; hv_counts : list Z; hv_sums : list Z; hv_totals : list Z }.

Definition new_histogram_vec (values : list string) (bounds : list Z) : HistogramVec :=
  let width := S (length bounds) in
  mkHistogramVec values bounds (replicate (length values * width) 0) (replicate (length values) 0) (replicate (length values) 0).

Definition hv_count (idx : nat) (h : HistogramVec) : Z := default 0 (hv_totals h !! idx).
Definition hv_sum (idx : nat) (h : HistogramVec) : Z := default 0 (hv_sums h !! idx).

Definition hv_observe (idx : nat) (v : Z) (h : HistogramVec) : HistogramVec :=
  if (length (hv_values h) <=? idx)%nat then h
  else
    let width := S (length (hv_bounds h)) in
    mkHistogramVec (hv_values h) (hv_bounds h)
      (alter (bump 1) (idx * width + bucket_of (hv_bounds h) v)%nat (hv_counts h))
      (alter (bump v) idx (hv_sums h)) (alter (bump 1) idx (hv_totals h)).

(** * Labels *)

Inductive Proto := Udp | Tcp | Dot | Doh | Doq.

Definition PROTOS : list string := ["udp"; "tcp"; "dot"; "doh"; "doq"]%string.
Definition proto_index (p : Proto) : nat := match p with Udp => 0 | Tcp => 1 | Dot => 2 | Doh => 3 | Doq => 4 end.

Definition RCODES : list string := ["NOERROR"; "NXDOMAIN"; "SERVFAIL"; "REFUSED"; "FORMERR"; "NOTIMP"; "OTHER"]%string.

Definition rcode_index_from_wire (rcode : Z) : nat :=
  match rcode with 0 => 0%nat | 3 => 1%nat | 2 => 2%nat | 5 => 3%nat | 1 => 4%nat | 4 => 5%nat | _ => 6%nat end.

Definition QTYPES : list string :=
  ["A"; "AAAA"; "CNAME"; "MX"; "TXT"; "NS"; "SOA"; "SRV"; "PTR"; "CAA"; "TLSA"; "SSHFP"; "ANAME"; "NAPTR"; "DNSKEY"; "DS"; "RRSIG";
   "NSEC"; "NSEC3"; "NSEC3PARAM"; "HTTPS"; "SVCB"; "ANY"; "OTHER"]%string.

(** By the code points of the types. *)
Definition qtype_codes : list Z := [1; 28; 5; 15; 16; 2; 6; 33; 12; 257; 52; 44; 65305; 35; 48; 43; 46; 47; 50; 51; 65; 64; 255].

Fixpoint position (x : Z) (l : list Z) : nat :=
  match l with [] => O | y :: l' => if x =? y then O else S (position x l') end.

Definition qtype_index (rt : Z) : nat := position rt qtype_codes.

Definition ANSWER_SOURCES : list string :=
  ["cache"; "local"; "scoped"; "scope_fallback"; "tld_peer"; "blocklist"; "reverse_blocklist"; "dns64"; "upstream";
   "authoritative_nxdomain"; "refused"; "error"; "authoritative_nodata"]%string.

Definition source_index (s : AnswerSource) : nat :=
  match s with
  | SrcCache => 0 | SrcLocal => 1 | SrcScoped => 2 | SrcScopeFallback => 3 | SrcTldPeer => 4 | SrcBlocklist => 5
  | SrcReverseBlocklist => 6 | SrcDns64 => 7 | SrcUpstream => 8 | SrcAuthoritativeNxdomain => 9 | SrcRefused => 10
  | SrcError => 11 | SrcAuthoritativeNodata => 12
  end.

Definition source_from_index (idx : nat) : AnswerSource :=
  match idx with
  | 0 => SrcCache | 1 => SrcLocal | 2 => SrcScoped | 3 => SrcScopeFallback | 4 => SrcTldPeer | 5 => SrcBlocklist
  | 6 => SrcReverseBlocklist | 7 => SrcDns64 | 8 => SrcUpstream | 9 => SrcAuthoritativeNxdomain | 10 => SrcRefused
  | 12 => SrcAuthoritativeNodata | _ => SrcError
  end%nat.

(** ** Tracked TLDs *)

Definition TLD_OTHER : string := "other".

Definition COMMON_TLDS : list string :=
  ["com."; "net."; "org."; "edu."; "gov."; "mil."; "int."; "io."; "dev."; "app."; "co."; "me."; "info."; "biz."; "xyz."; "online.";
   "site."; "cloud."; "ai."; "sh."; "tv."; "us."; "uk."; "ca."; "de."; "fr."; "nl."; "eu."; "jp."; "au."; "arpa."]%string.

Definition normalize_tld (raw : string) : option string :=
  let trimmed := str_trim raw in
  if (trimmed =? "")%string || (trimmed =? ".")%string then None
  else
    let norm := to_lowercase trimmed in
    Some (if ends_with_char "." norm then norm else norm +:+ ".").

Definition expand_tld (raw : string) : list string :=
  if (to_lowercase (str_trim raw) =? "common")%string then omap normalize_tld COMMON_TLDS else omap normalize_tld [raw].

(** What is not in the new set goes, then the new ones are added. *)
Definition set_tracked_tlds (tlds : list string) (tracked : gset string) : gset string :=
  let next : gset string := list_to_set (tlds ≫= expand_tld) in
  filter (fun t => t ∈ next) tracked ∪ next.

Definition has_uppercase (s : string) : bool := negb (str_forall (fun c => negb (let n := nat_of_ascii c in (65 <=? n) && (n <=? 90))%nat) s).

Definition is_tracked (tracked : gset string) (candidate : string) (has_trailing_dot : bool) : bool :=
  if has_trailing_dot then
    bool_decide (candidate ∈ tracked) || (has_uppercase candidate && bool_decide (to_lowercase candidate ∈ tracked))
  else bool_decide (to_lowercase candidate +:+ "." ∈ tracked).

(** Suffixes, the most specific first; each turn drops a label with its dot. *)
Fixpoint tld_loop (fuel : nat) (tracked : gset string) (with_dot : bool) (candidate : string) : string :=
  match fuel with
  | O => TLD_OTHER
  | S fuel' =>
      if (candidate =? "")%string || (candidate =? ".")%string then TLD_OTHER
      else if is_tracked tracked candidate with_dot then candidate
      else match split_once "." candidate with
           | Some (_, rest) => tld_loop fuel' tracked with_dot rest
           | None => TLD_OTHER
           end
  end.

Definition tld_label (tracked : gset string) (qname : string) : string :=
  if bool_decide (tracked = ∅) then TLD_OTHER
  else tld_loop (S (String.length qname)) tracked (ends_with_char "." qname) qname.

(** * A query counted *)

Definition DURATION_BOUNDS_NANOS : list Z :=
  [50000; 100000; 250000; 500000; 1000000; 2500000; 5000000; 10000000; 25000000; 50000000; 100000000; 250000000; 500000000;
   1000000000; 2500000000; 5000000000].
Definition BLOCKING_BOUNDS_NANOS : list Z :=
  [100; 1000; 10000; 100000; 250000; 500000; 1000000; 2500000; 5000000; 10000000; 25000000; 50000000; 100000000; 250000000;
   500000000; 1000000000; 5000000000].
Definition SIZE_BOUNDS_BYTES : list Z := [32; 64; 128; 256; 512; 1024; 1232; 2048; 4096; 8192; 16384; 65535].

Definition TRAFFIC_DIRECTIONS : list string := ["rx"; "tx"]%string.
Definition BLOCKING_SITES : list string :=
  ["db_lock_wait"; "db_locked"; "db_open"; "metrics_collect"; "tls_reload"; "dnssec_sign"; "dnssec_verify"; "config_load"]%string.
Definition BLOCKING_STALL_NANOS : Z := 10000000.
Definition TRAFFIC_RX : nat := 0.
Definition TRAFFIC_TX : nat := 1.

(** The families the query path and the blocking regions count in. *)
Record Metrics := mkMetrics {
  queries : CounterVec2;
  queries_by_type : CounterVec;
  queries_by_tld : DynCounterVec;
  answer_source : CounterVec;
  query_duration : HistogramVec;
  query_size : Histogram;
  response_size : Histogram;
  traffic_bytes : CounterVec;
  records_served : Z;
  responses_truncated : Z;
  blocking_duration : HistogramVec;
  blocking_stalls : CounterVec;
  tracked_tlds : gset string;
}.

Definition new_metrics : Metrics :=
  mkMetrics
    (new_counter_vec2 "rolodex_dns_queries_total" "DNS queries answered, by transport and response code." ("proto", "rcode")%string PROTOS RCODES)
    (new_counter_vec "rolodex_dns_queries_by_type_total" "DNS queries answered, by query type. Unrecognized types fold into OTHER." "qtype" QTYPES)
    ∅
    (new_counter_vec "rolodex_dns_answers_total" "Answers by the resolution stage that produced them." "source" ANSWER_SOURCES)
    (new_histogram_vec PROTOS DURATION_BOUNDS_NANOS) (new_histogram SIZE_BOUNDS_BYTES) (new_histogram SIZE_BOUNDS_BYTES)
    (new_counter_vec "rolodex_dns_traffic_bytes_total" "DNS wire bytes received in queries and sent in responses. DNS only; DHCP is not counted."
       "direction" TRAFFIC_DIRECTIONS)
    0 0 (new_histogram_vec BLOCKING_SITES BLOCKING_BOUNDS_NANOS)
    (new_counter_vec "rolodex_dns_blocking_stalls_total" "Blocking regions that held their thread for 10ms or longer, by site." "site" BLOCKING_SITES) ∅.

Record QueryObservation := mkObservation {
  o_proto : Proto;
  o_rcode_index : nat;
  o_qtype_index : nat;
  o_tld : string;
  o_source : AnswerSource;
  o_query_bytes : Z;
  o_response_bytes : Z;
  o_answer_records : Z;
  o_truncated : bool;
  o_elapsed : Z;
}.

Definition observe_query (obs : QueryObservation) (m : Metrics) : Metrics :=
  mkMetrics
    (c2_inc (proto_index (o_proto obs)) (o_rcode_index obs) (queries m))
    (cv_inc (o_qtype_index obs) (queries_by_type m))
    (dyn_inc (o_tld obs) (queries_by_tld m))
    (cv_inc (source_index (o_source obs)) (answer_source m))
    (hv_observe (proto_index (o_proto obs)) (Z.min (o_elapsed obs) u64_max) (query_duration m))
    (observe (o_query_bytes obs) (query_size m))
    (observe (o_response_bytes obs) (response_size m))
    (cv_add TRAFFIC_TX (o_response_bytes obs) (cv_add TRAFFIC_RX (o_query_bytes obs) (traffic_bytes m)))
    (bump (o_answer_records obs) (records_served m))
    (if o_truncated obs then bump 1 (responses_truncated m) else responses_truncated m)
    (blocking_duration m) (blocking_stalls m) (tracked_tlds m).

Definition observe_blocking (site : nat) (elapsed : Z) (m : Metrics) : Metrics :=
  let nanos := Z.min elapsed u64_max in
  mkMetrics (queries m) (queries_by_type m) (queries_by_tld m) (answer_source m) (query_duration m) (query_size m) (response_size m)
    (traffic_bytes m) (records_served m) (responses_truncated m)
    (hv_observe site nanos (blocking_duration m))
    (if BLOCKING_STALL_NANOS <=? nanos then cv_inc site (blocking_stalls m) else blocking_stalls m) (tracked_tlds m).

(** ** The tag of a query *)

Record QueryTag := mkTag { t_source : nat; t_rcode : option nat; t_tld : option string }.

Definition new_tag : QueryTag := mkTag (source_index SrcUpstream) None None.

(** Only the first TLD is kept. *)
Definition set_tld (tld : string) (t : QueryTag) : QueryTag :=
  if (tld =? TLD_OTHER)%string then t
  else mkTag (t_source t) (t_rcode t) (match t_tld t with Some x => Some x | None => Some tld end).
Definition tag_tld (t : QueryTag) : string := default TLD_OTHER (t_tld t).
Definition tag_set (s : AnswerSource) (t : QueryTag) : QueryTag := mkTag (source_index s) (t_rcode t) (t_tld t).
Definition tag_set_with_rcode (s : AnswerSource) (rcode : nat) (t : QueryTag) : QueryTag := mkTag (source_index s) (Some rcode) (t_tld t).
Definition tag_source (t : QueryTag) : AnswerSource := source_from_index (t_source t).
Definition tag_rcode_index (t : QueryTag) (response : list Z) : nat :=
  match t_rcode t with None => rcode_index_from_wire (wire_rcode response) | Some explicit => explicit end.

(** The last lines of [handle_query_proto]. *)
Definition observation (tag : QueryTag) (proto : Proto) (query_data response : list Z) (elapsed : Z) : QueryObservation :=
  mkObservation proto (tag_rcode_index tag response) (qtype_index (default 0 (wire_qtype query_data))) (tag_tld tag) (tag_source tag)
    (Z.of_nat (length query_data)) (Z.of_nat (length response)) (wire_ancount response) (wire_truncated response) elapsed.

(** * Counting *)

(** How many elements have a property. *)
Definition tally {A} (p : A -> bool) (l : list A) : Z := Z.of_nat (length (List.filter p l)).

Lemma tally_nil {A} (p : A -> bool) : tally p [] = 0.
Proof. done. Qed.

Lemma tally_snoc {A} (p : A -> bool) l x : tally p (l ++ [x]) = tally p l + if p x then 1 else 0.
Proof. unfold tally. rewrite List.filter_app, length_app. cbn. destruct (p x); cbn; lia. Qed.

Lemma tally_bound {A} (p : A -> bool) (l : list A) : 0 <= tally p l <= Z.of_nat (length l).
Proof. unfold tally. pose proof (List.filter_length_le p l). lia. Qed.

Lemma tally_ext {A} (p q : A -> bool) (l : list A) : (forall x, x ∈ l -> p x = q x) -> tally p l = tally q l.
Proof.
  intros H. unfold tally. f_equal. f_equal. induction l as [|a l IH]; [done|]. cbn. rewrite (H a) by left. rewrite IH; [done|]. intros x Hx. apply H. by right.
Qed.

Lemma bump_small n v : 0 <= v + n < 2 ^ 64 -> bump n v = v + n.
Proof. intros H. unfold bump. by apply as_u_id. Qed.

(** Counters bumped one at a time: each holds the number of bumps it had. *)
Lemma counters_tally {A} (f : A -> nat) (l : list A) n i : Z.of_nat (length l) < 2 ^ 64 -> (i < n)%nat ->
  foldl (fun c a => alter (bump 1) (f a) c) (replicate n 0) l !! i = Some (tally (fun a => (f a =? i)%nat) l).
Proof.
  intros Hl Hi. induction l as [|a l IH] using rev_ind; [by apply lookup_replicate_2|].
  rewrite length_app in Hl. cbn [length] in Hl. rewrite foldl_snoc, tally_snoc. specialize (IH ltac:(lia)).
  pose proof (tally_bound (fun a => (f a =? i)%nat) l). destruct (Nat.eqb_spec (f a) i) as [->|Hne].
  - rewrite list_lookup_alter_eq, IH. cbn. by rewrite bump_small by lia.
  - rewrite list_lookup_alter_ne by done. rewrite IH. f_equal. lia.
Qed.

Lemma counters_length {A} (f : A -> nat) (g : A -> Z -> Z) (l : list A) c : length (foldl (fun c a => alter (g a) (f a) c) c l) = length c.
Proof. revert c. induction l as [|a l IH]; intros c; [done|]. cbn [foldl]. by rewrite IH, length_alter. Qed.

(** ** Histograms *)

Fixpoint ascending (bounds : list Z) : bool :=
  match bounds with b :: ((b' :: _) as bounds') => (b <? b') && ascending bounds' | _ => true end.

Lemma ascending_tail b bounds : ascending (b :: bounds) = true -> ascending bounds = true /\ Forall (fun b' => b < b') bounds.
Proof.
  revert b. induction bounds as [|b' bounds IH]; intros b; [done|]. cbn [ascending]. rewrite andb_true_iff, Z.ltb_lt. intros [Hb H].
  split; [done|]. destruct (IH b' H) as [_ Hf]. constructor; [done|]. eapply Forall_impl; [exact Hf|]. simpl. lia.
Qed.

Lemma filter_bucket b bounds vs i :
  tally (fun v => (bucket_of (b :: bounds) v =? S i)%nat) vs = tally (fun v => (bucket_of bounds v =? i)%nat) (List.filter (fun v => negb (v <=? b)) vs).
Proof.
  unfold tally. f_equal. f_equal. induction vs as [|v vs IH]; [done|]. cbn [List.filter bucket_of]. destruct (v <=? b); cbn [negb List.filter Nat.eqb]; [done|].
  destruct (bucket_of bounds v =? i)%nat; [by f_equal|done].
Qed.

Lemma tally_split b b' vs : b < b' -> tally (fun v => v <=? b') vs = tally (fun v => v <=? b) vs + tally (fun v => v <=? b') (List.filter (fun v => negb (v <=? b)) vs).
Proof.
  intros Hb. unfold tally. induction vs as [|v vs IH]; [done|]. cbn [List.filter]. destruct (Z.leb_spec v b); cbn [negb List.filter].
  - rewrite (proj2 (Z.leb_le v b')) by lia. cbn [length]. lia.
  - destruct (v <=? b'); cbn [length]; lia.
Qed.

Lemma cumulative_tally bounds acc vs counts : ascending bounds = true ->
  (forall i, (i < length bounds)%nat -> counts !! i = Some (tally (fun v => (bucket_of bounds v =? i)%nat) vs)) ->
  cumulative acc bounds counts = (fun b => (b, acc + tally (fun v => v <=? b) vs)) <$> bounds.
Proof.
  revert acc vs counts. induction bounds as [|b bounds IH]; intros acc vs counts Ha Hc; [done|]. cbn [cumulative fmap list_fmap].
  destruct (ascending_tail b bounds Ha) as [Ha' Hb]. pose proof (Hc O ltac:(cbn; lia)) as H0.
  destruct counts as [|c counts]; [done|]. cbn in H0. injection H0 as ->. cbn [head default tail].
  assert (tally (fun v => (bucket_of (b :: bounds) v =? 0)%nat) vs = tally (fun v => v <=? b) vs) as E0.
  { apply tally_ext. intros v _. cbn [bucket_of]. by destruct (v <=? b). }
  f_equal; [by rewrite <- E0|].
  rewrite (IH _ (List.filter (fun v => negb (v <=? b)) vs)); [|done|].
  - apply list_fmap_ext. intros i b' Hb'. rewrite Forall_lookup in Hb. rewrite (tally_split b b' vs) by (by eapply Hb).
    f_equal. change (default 0 (Some ?x)) with x. rewrite <- E0. cbn. lia.
  - intros i Hi. specialize (Hc (S i) ltac:(cbn; lia)). etrans; [exact Hc|]. f_equal. apply filter_bucket.
Qed.

Lemma observe_all bounds vs h0 : h_bounds h0 = bounds ->
  let h := foldl (fun h v => observe v h) h0 vs in
  h_bounds h = bounds /\ h_counts h = foldl (fun c v => alter (bump 1) (bucket_of bounds v) c) (h_counts h0) vs /\
  h_sum h = foldl (fun s v => bump v s) (h_sum h0) vs /\ h_count h = foldl (fun n _ => bump 1 n) (h_count h0) vs.
Proof.
  revert h0. induction vs as [|v vs IH]; intros h0 Hb; [done|]. cbn [foldl]. destruct (IH (observe v h0)) as (H1 & H2 & H3 & H4); [done|].
  cbv zeta. rewrite H1, H2, H3, H4. cbn [observe h_bounds h_counts h_sum h_count]. by rewrite Hb.
Qed.

Lemma bump_sum vs s : foldl (fun s v => bump v s) (as_u 64 s) vs = as_u 64 (s + foldr Z.add 0 vs).
Proof.
  revert s. induction vs as [|v vs IH]; intros s; cbn [foldl foldr]; [f_equal; lia|].
  assert (bump v (as_u 64 s) = as_u 64 (s + v)) as -> by (unfold bump, as_u; by rewrite Zplus_mod_idemp_l). rewrite IH. f_equal. lia.
Qed.

Lemma bump_count {A} (vs : list A) : Z.of_nat (length vs) < 2 ^ 64 -> foldl (fun n _ => bump 1 n) 0 vs = Z.of_nat (length vs).
Proof.
  intros Hl. induction vs as [|v vs IH] using rev_ind; [done|]. rewrite length_app in Hl. cbn [length] in Hl.
  rewrite foldl_snoc, IH, length_app by lia. cbn [length]. rewrite bump_small by lia. lia.
Qed.

(** A histogram says what was observed. After any observations, fewer than 2^64 of
    them, the value written for each bound is the number of observations that do not
    exceed it, the last one and the count are the number of all of them, and the sum
    is theirs, modulo 2^64. *)
Theorem histogram_exact bounds vs : ascending bounds = true -> Z.of_nat (length vs) < 2 ^ 64 ->
  let h := foldl (fun h v => observe v h) (new_histogram bounds) vs in
  cumulative 0 (h_bounds h) (h_counts h) = (fun b => (b, tally (fun v => v <=? b) vs)) <$> bounds /\
  h_count h = Z.of_nat (length vs) /\ h_sum h = as_u 64 (foldr Z.add 0 vs).
Proof.
  intros Ha Hl h. destruct (observe_all bounds vs (new_histogram bounds) eq_refl) as (H1 & H2 & H3 & H4). fold h in H1, H2, H3, H4.
  rewrite H1, H2, H3, H4. split_and!.
  - rewrite (cumulative_tally bounds 0 vs); [done|done|]. intros i Hi. cbn [new_histogram h_counts]. apply counters_tally; [done|lia].
  - by apply bump_count.
  - apply (bump_sum vs 0).
Qed.

(** ** The families of a registry *)

Lemma cv_incs {A} (f : A -> nat) (l : list A) c : foldl (fun c a => cv_inc (f a) c) c l =
  mkCounterVec (cv_name c) (cv_help c) (cv_label c) (cv_values c) (foldl (fun k a => alter (bump 1) (f a) k) (cv_counters c) l).
Proof. revert c. induction l as [|a l IH]; intros c; [by destruct c|]. cbn [foldl]. by rewrite IH. Qed.

Lemma cv_get_incs {A} (f : A -> nat) (l : list A) name help label values i : Z.of_nat (length l) < 2 ^ 64 -> (i < length values)%nat ->
  cv_get i (foldl (fun c a => cv_inc (f a) c) (new_counter_vec name help label values) l) = tally (fun a => (f a =? i)%nat) l.
Proof. intros Hl Hi. rewrite cv_incs. unfold cv_get. cbn [cv_counters new_counter_vec]. by rewrite counters_tally. Qed.

Lemma c2_incs {A} (f g : A -> nat) (l : list A) c : Forall (fun a => (f a < length (c2_rows c))%nat /\ (g a < length (c2_cols c))%nat) l ->
  foldl (fun c a => c2_inc (f a) (g a) c) c l =
  mkCounterVec2 (c2_name c) (c2_help c) (c2_labels c) (c2_rows c) (c2_cols c)
    (foldl (fun k a => alter (bump 1) (f a * length (c2_cols c) + g a)%nat k) (c2_counters c) l).
Proof.
  intros H. revert c H. induction l as [|a l IH]; intros c H; [by destruct c|]. apply Forall_cons in H as [[Hf Hg] H]. cbn [foldl].
  unfold c2_inc at 2. rewrite (proj2 (Nat.ltb_lt _ _) Hf), (proj2 (Nat.ltb_lt _ _) Hg). cbn [andb]. rewrite IH by done. done.
Qed.

Lemma row_major w r k r' k' : (k < w)%nat -> (k' < w)%nat -> (r * w + k =? r' * w + k')%nat = (r =? r')%nat && (k =? k')%nat.
Proof.
  intros Hk Hk'. destruct (Nat.eqb_spec (r * w + k) (r' * w + k')) as [E|E].
  - assert (r = r') as -> by nia. assert (k = k') as -> by nia. by rewrite !Nat.eqb_refl.
  - destruct (Nat.eqb_spec r r') as [->|], (Nat.eqb_spec k k') as [->|]; done.
Qed.

Lemma c2_get_incs {A} (f g : A -> nat) (l : list A) name help labels rows cols r k :
  Forall (fun a => (f a < length rows)%nat /\ (g a < length cols)%nat) l -> Z.of_nat (length l) < 2 ^ 64 ->
  (r < length rows)%nat -> (k < length cols)%nat ->
  c2_get r k (foldl (fun c a => c2_inc (f a) (g a) c) (new_counter_vec2 name help labels rows cols) l) = tally (fun a => (f a =? r)%nat && (g a =? k)%nat) l.
Proof.
  intros Hf Hl Hr Hk. rewrite c2_incs by done. unfold c2_get. cbn [c2_counters c2_cols new_counter_vec2]. rewrite counters_tally by (done || nia). cbn [default from_option id].
  apply tally_ext. intros a Ha. rewrite Forall_forall in Hf. apply row_major; [by apply Hf|done].
Qed.

Lemma dyn_get_incs {A} (f : A -> string) (l : list A) t : Z.of_nat (length l) < 2 ^ 64 ->
  dyn_get t (foldl (fun m a => dyn_inc (f a) m) ∅ l) = tally (fun a => (f a =? t)%string) l.
Proof.
  intros Hl. induction l as [|a l IH] using rev_ind; [done|]. rewrite length_app in Hl. cbn [length] in Hl.
  rewrite foldl_snoc, tally_snoc. specialize (IH ltac:(lia)). pose proof (tally_bound (fun a => (f a =? t)%string) l).
  unfold dyn_inc, dyn_get in *. destruct (String.eqb_spec (f a) t) as [->|Hne].
  - rewrite lookup_insert_eq. cbn. rewrite IH. by rewrite bump_small by lia.
  - rewrite lookup_insert_ne by done. rewrite IH. lia.
Qed.

(** ** Rows of a family of histograms *)

Definition hv_row (i : nat) (h : HistogramVec) : Histogram :=
  let width := S (length (hv_bounds h)) in
  mkHistogram (hv_bounds h) (take width (drop (i * width) (hv_counts h))) (hv_sum i h) (hv_count i h).

Lemma bucket_of_bound bounds v : (bucket_of bounds v <= length bounds)%nat.
Proof. induction bounds as [|b bounds IH]; cbn; [done|]. destruct (v <=? b); lia. Qed.

Lemma row_alter {A} (f : A -> A) (l : list A) w i j k : (k < w)%nat ->
  take w (drop (i * w) (alter f (j * w + k)%nat l)) = if (i =? j)%nat then alter f k (take w (drop (i * w) l)) else take w (drop (i * w) l).
Proof.
  intros Hk. destruct (Nat.eqb_spec i j) as [->|Hne]; apply list_eq; intros x.
  - destruct (decide (x = k)) as [->|Hx].
    + rewrite list_lookup_alter_eq, !lookup_take_lt, !lookup_drop by done. by rewrite list_lookup_alter_eq.
    + rewrite list_lookup_alter_ne by done. destruct (decide (x < w)%nat); [|by rewrite !lookup_take_ge by lia].
      rewrite !lookup_take_lt, !lookup_drop by done. apply list_lookup_alter_ne. lia.
  - destruct (decide (x < w)%nat); [|by rewrite !lookup_take_ge by lia].
    rewrite !lookup_take_lt, !lookup_drop by done. apply list_lookup_alter_ne. nia.
Qed.

Definition hv_wf (h : HistogramVec) : Prop := length (hv_sums h) = length (hv_values h) /\ length (hv_totals h) = length (hv_values h).

Lemma hv_row_observe i j v h : hv_wf h -> (j < length (hv_values h))%nat ->
  hv_row i (hv_observe j v h) = if (i =? j)%nat then observe v (hv_row i h) else hv_row i h.
Proof.
  intros [Hs Ht] Hj. unfold hv_observe. rewrite (proj2 (Nat.leb_gt _ _) Hj). unfold hv_row, hv_sum, hv_count. cbn [hv_bounds hv_counts hv_sums hv_totals].
  rewrite row_alter by (pose proof (bucket_of_bound (hv_bounds h) v); lia). destruct (Nat.eqb_spec i j) as [->|Hne].
  - unfold observe. cbn [h_bounds h_counts h_sum h_count]. rewrite !list_lookup_alter_eq.
    destruct (lookup_lt_is_Some_2 (hv_sums h) j) as [x Hx]; [lia|]. destruct (lookup_lt_is_Some_2 (hv_totals h) j) as [y Hy]; [lia|].
    by rewrite Hx, Hy.
  - by rewrite !list_lookup_alter_ne.
Qed.

Lemma hv_observe_wf j v h : hv_wf h -> hv_wf (hv_observe j v h) /\ hv_values (hv_observe j v h) = hv_values h.
Proof. intros [Hs Ht]. unfold hv_observe, hv_wf. destruct (_ <=? _)%nat; [done|]. cbn. by rewrite !length_alter. Qed.

Lemma new_row values bounds i : (i < length values)%nat -> hv_row i (new_histogram_vec values bounds) = new_histogram bounds.
Proof.
  intros Hi. unfold hv_row, new_histogram_vec, hv_sum, hv_count, new_histogram. cbn [hv_bounds hv_counts hv_sums hv_totals].
  rewrite !lookup_replicate_2 by done. f_equal. rewrite drop_replicate, take_replicate. f_equal. nia.
Qed.

Lemma hv_observes_wf {A} (f : A -> nat) (g : A -> Z) (l : list A) values bounds :
  hv_wf (foldl (fun h a => hv_observe (f a) (g a) h) (new_histogram_vec values bounds) l) /\
  hv_values (foldl (fun h a => hv_observe (f a) (g a) h) (new_histogram_vec values bounds) l) = values.
Proof.
  induction l as [|a l [IH1 IH2]] using rev_ind.
  - split; [|done]. unfold hv_wf, new_histogram_vec. cbn. by rewrite length_replicate.
  - rewrite foldl_snoc. destruct (hv_observe_wf (f a) (g a) _ IH1) as [H1 H2]. split; [done|congruence].
Qed.

(** A row is the histogram of the observations made of it. *)
Lemma hv_rows {A} (f : A -> nat) (g : A -> Z) (l : list A) values bounds i :
  Forall (fun a => (f a < length values)%nat) l -> (i < length values)%nat ->
  hv_row i (foldl (fun h a => hv_observe (f a) (g a) h) (new_histogram_vec values bounds) l) =
  foldl (fun h v => observe v h) (new_histogram bounds) (g <$> List.filter (fun a => (f a =? i)%nat) l).
Proof.
  intros Hf Hi. induction l as [|a l IH] using rev_ind; [by apply new_row|].
  rewrite foldl_snoc. apply Forall_app in Hf as [Hf Ha]. apply Forall_cons in Ha as [Ha _].
  destruct (hv_observes_wf f g l values bounds) as [Hw Hv].
  rewrite hv_row_observe by (done || by rewrite Hv). rewrite List.filter_app, fmap_app, IH by done. cbn [List.filter].
  rewrite (Nat.eqb_sym i (f a)). destruct (f a =? i)%nat; cbn [fmap list_fmap]; [by rewrite foldl_snoc|by rewrite app_nil_r].
Qed.

(** ** A query in every dimension *)

(** An observation whose response code is one of the labels. *)
Definition labelled (o : QueryObservation) : Prop := (o_rcode_index o < length RCODES)%nat.

Lemma observe_queries l m : let m' := foldl (fun m o => observe_query o m) m l in
  queries m' = foldl (fun c o => c2_inc (proto_index (o_proto o)) (o_rcode_index o) c) (queries m) l /\
  queries_by_type m' = foldl (fun c o => cv_inc (o_qtype_index o) c) (queries_by_type m) l /\
  queries_by_tld m' = foldl (fun c o => dyn_inc (o_tld o) c) (queries_by_tld m) l /\
  answer_source m' = foldl (fun c o => cv_inc (source_index (o_source o)) c) (answer_source m) l /\
  query_duration m' = foldl (fun h o => hv_observe (proto_index (o_proto o)) (Z.min (o_elapsed o) u64_max) h) (query_duration m) l /\
  response_size m' = foldl (fun h v => observe v h) (response_size m) (o_response_bytes <$> l).
Proof. revert m. induction l as [|o l IH]; intros m; [done|]. cbn [foldl fmap list_fmap]. apply (IH (observe_query o m)). Qed.

Lemma proto_index_lt p : (proto_index p < length PROTOS)%nat.
Proof. destruct p; cbn; lia. Qed.

Lemma source_index_lt s : (source_index s < length ANSWER_SOURCES)%nat.
Proof. destruct s; cbn; lia. Qed.

Lemma source_roundtrip s : source_from_index (source_index s) = s.
Proof. by destruct s. Qed.

(** What [handle_query_proto] hands over has a label for its response code. *)
Lemma observation_labelled tag proto query response elapsed :
  match t_rcode tag with Some r => (r < length RCODES)%nat | None => True end -> labelled (observation tag proto query response elapsed).
Proof.
  unfold labelled, observation, tag_rcode_index. cbn [o_rcode_index]. destruct (t_rcode tag) as [r|]; [done|]. intros _.
  unfold rcode_index_from_wire. repeat case_match; cbn; lia.
Qed.

#[export] Instance Proto_eq_dec : EqDecision Proto.
Proof. solve_decision. Defined.
#[export] Instance AnswerSource_eq_dec : EqDecision AnswerSource.
Proof. solve_decision. Defined.

(** Every query is counted once in every dimension. After any queries, the count at
    each transport and response code, each query type, each stage that answers and
    each TLD label is the number of the queries with that label; the durations of a
    transport are the histogram of the time its queries took, and the sizes that of
    all responses. *)
Theorem every_query_counted_once l : Forall labelled l -> Z.of_nat (length l) < 2 ^ 64 ->
  let m := foldl (fun m o => observe_query o m) new_metrics l in
  (forall p r, (r < length RCODES)%nat ->
     c2_get (proto_index p) r (queries m) = tally (fun o => bool_decide (o_proto o = p) && (o_rcode_index o =? r)%nat) l) /\
  (forall i, (i < length QTYPES)%nat -> cv_get i (queries_by_type m) = tally (fun o => (o_qtype_index o =? i)%nat) l) /\
  (forall s, cv_get (source_index s) (answer_source m) = tally (fun o => bool_decide (o_source o = s)) l) /\
  (forall t, dyn_get t (queries_by_tld m) = tally (fun o => (o_tld o =? t)%string) l) /\
  (forall p, hv_row (proto_index p) (query_duration m) =
     foldl (fun h v => observe v h) (new_histogram DURATION_BOUNDS_NANOS)
       ((fun o => Z.min (o_elapsed o) u64_max) <$> List.filter (fun o => bool_decide (o_proto o = p)) l)) /\
  response_size m = foldl (fun h v => observe v h) (new_histogram SIZE_BOUNDS_BYTES) (o_response_bytes <$> l).
Proof.
  intros Hf Hl m. destruct (observe_queries l new_metrics) as (H1 & H2 & H3 & H4 & H5 & H6).
  fold m in H1, H2, H3, H4, H5, H6. rewrite H1, H2, H3, H4, H5, H6.
  assert (forall p q, (proto_index p =? proto_index q)%nat = bool_decide (p = q)) as Ep by (intros [] []; done).
  split_and!; [| | | | |done].
  - intros p r Hr. cbn [new_metrics queries]. rewrite c2_get_incs; [|eapply Forall_impl; [exact Hf|]; intros o Ho; by split; [apply proto_index_lt|]|done|apply proto_index_lt|done].
    apply tally_ext. intros o _. by rewrite Ep.
  - intros i Hi. by apply cv_get_incs.
  - intros s. cbn [new_metrics answer_source]. rewrite cv_get_incs by (done || apply source_index_lt). apply tally_ext. intros o _. by destruct (o_source o), s.
  - intros t. by apply dyn_get_incs.
  - intros p. cbn [new_metrics query_duration]. rewrite (hv_rows (fun o => proto_index (o_proto o)));
      [|apply Forall_forall; intros; apply proto_index_lt|apply proto_index_lt].
    f_equal. f_equal. apply List.filter_ext. intros o. by rewrite Ep.
Qed.

(** ** TLD labels *)

Definition tracked_wf (tracked : gset string) : Prop :=
  forall t, t ∈ tracked -> to_lowercase t = t /\ ends_with_char "." t = true /\ t <> "."%string.

(** A name as the set would have it. *)
Definition canon (c : string) : string := let l := to_lowercase c in if ends_with_char "." l then l else l +:+ ".".

Lemma lower_char_upper c : (let n := nat_of_ascii c in (65 <=? n) && (n <=? 90))%nat = false -> lower_char c = c.
Proof. destruct c as [[] [] [] [] [] [] [] []]; vm_compute; done. Qed.

Lemma no_uppercase_lower s : has_uppercase s = false -> to_lowercase s = s.
Proof.
  unfold has_uppercase. rewrite negb_false_iff. induction s as [|c s IH]; [done|]. cbn [str_forall]. rewrite andb_true_iff, negb_true_iff.
  intros [Hc Hs]. unfold to_lowercase in *. cbn [str_map]. by rewrite lower_char_upper, IH.
Qed.

Lemma ends_dot_lower s : ends_with_char "." (to_lowercase s) = ends_with_char "." s.
Proof.
  unfold to_lowercase. induction s as [|c s IH]; [done|]. cbn [str_map ends_with_char]. destruct s as [|d s]; [apply lower_char_dot|exact IH].
Qed.

Lemma is_tracked_canon tracked c : tracked_wf tracked -> is_tracked tracked c (ends_with_char "." c) = bool_decide (canon c ∈ tracked).
Proof.
  intros Hw. unfold is_tracked, canon. rewrite ends_dot_lower. destruct (ends_with_char "." c); [|done].
  destruct (has_uppercase c) eqn:Hu; cbn [andb].
  - destruct (bool_decide (c ∈ tracked)) eqn:Ec; [|done]. apply bool_decide_eq_true in Ec. symmetry. apply bool_decide_eq_true_2.
    by rewrite (proj1 (Hw c Ec)).
  - by rewrite orb_false_r, no_uppercase_lower.
Qed.

(** The names a name is under, itself included. *)
Inductive suffix_of : string -> string -> Prop :=
| suffix_self q : suffix_of q q
| suffix_drop q a rest r : split_once "." q = Some (a, rest) -> suffix_of rest r -> suffix_of q r.

Lemma split_once_shorter q a rest : split_once "." q = Some (a, rest) -> (String.length rest < String.length q)%nat.
Proof.
  revert a. induction q as [|c q IH]; intros a; cbn [split_once]; [done|]. case_match; [intros [= <- <-]; cbn; lia|].
  destruct (split_once "." q) as [[a' r]|]; [|done]. intros [= <- <-]. specialize (IH a' eq_refl). cbn. lia.
Qed.

Lemma split_once_ends q a rest : split_once "." q = Some (a, rest) -> rest <> ""%string -> ends_with_char "." rest = ends_with_char "." q.
Proof.
  revert a. induction q as [|c q IH]; intros a; cbn [split_once]; [done|]. case_match.
  - intros [= <- <-] Hn. cbn [ends_with_char]. by destruct q.
  - destruct (split_once "." q) as [[a' r]|] eqn:E; [|done]. intros [= <- <-] Hn. rewrite (IH a' eq_refl Hn). cbn [ends_with_char]. by destruct q.
Qed.

Lemma suffix_ends q r : suffix_of q r -> r <> ""%string -> ends_with_char "." r = ends_with_char "." q.
Proof.
  induction 1 as [q|q a rest r Hs Hr IH]; [done|]. intros Hn. rewrite (IH Hn). eapply split_once_ends; [exact Hs|].
  intros ->. inversion Hr as [|? ? ? ? Hs']; subst; done.
Qed.

Lemma suffix_length q r : suffix_of q r -> (String.length r <= String.length q)%nat.
Proof. induction 1 as [|q a rest r Hs _ IH]; [done|]. apply split_once_shorter in Hs. lia. Qed.

(** A tracked name that another is under. *)
Definition falls_under (tracked : gset string) (q r : string) : Prop := suffix_of q r /\ r <> ""%string /\ r <> "."%string /\ canon r ∈ tracked.

Lemma tld_loop_spec tracked fuel d c : tracked_wf tracked -> (String.length c < fuel)%nat -> (c <> ""%string -> ends_with_char "." c = d) ->
  let r := tld_loop fuel tracked d c in
  (falls_under tracked c r /\ forall r', falls_under tracked c r' -> (String.length r' <= String.length r)%nat) \/
  (r = TLD_OTHER /\ forall r', ~ falls_under tracked c r').
Proof.
  intros Hw. revert c. induction fuel as [|fuel IH]; intros c Hl Hd; [lia|]. cbn [tld_loop].
  destruct (String.eqb_spec c "") as [->|Hc]; cbn [orb].
  { right. split; [done|]. intros r' (Hs & Hn & _). inversion Hs; subst; done. }
  destruct (String.eqb_spec c ".") as [->|Hdot].
  { right. split; [done|]. intros r' (Hs & Hn & Hn' & _). inversion Hs as [|? a rest ? E Hs']; subst; [done|]. cbn in E. injection E as <- <-.
    inversion Hs'; subst; done. }
  specialize (Hd Hc). subst d. rewrite is_tracked_canon by done. case_bool_decide as Ht.
  - left. split; [by split; [constructor|]|]. intros r' (Hs & _). by apply suffix_length.
  - destruct (split_once "." c) as [[a rest]|] eqn:E.
    + destruct (IH rest) as [[Hr Hmax]|[Hr Hno]]; [apply split_once_shorter in E; lia|by intros; eapply split_once_ends| |].
      * left. split; [destruct Hr as [Hs Hr]; split; [by eapply suffix_drop|done]|]. intros r' (Hs & Hr'). apply Hmax. split; [|done].
        inversion Hs as [|? a' rest' ? E' Hs']; subst; [by destruct Hr' as (_ & _ & ?)|]. rewrite E in E'. by injection E' as <- <-.
      * right. split; [done|]. intros r' (Hs & Hr'). apply (Hno r'). split; [|done].
        inversion Hs as [|? a' rest' ? E' Hs']; subst; [by destruct Hr' as (_ & _ & ?)|]. rewrite E in E'. by injection E' as <- <-.
    + right. split; [done|]. intros r' (Hs & Hr'). inversion Hs as [|? a' rest' ? E' Hs']; subst; [by destruct Hr' as (_ & _ & ?)|congruence].
Qed.

Lemma lower_is_dot s : to_lowercase s = "."%string -> s = "."%string.
Proof.
  destruct s as [|c [|d s]]; [done| |done]. unfold to_lowercase. cbn [str_map]. intros [= H].
  f_equal. apply Ascii.eqb_eq. rewrite <- lower_char_dot. by apply Ascii.eqb_eq.
Qed.

Lemma ends_dot_snoc s : ends_with_char "." (s +:+ ".") = true.
Proof.
  induction s as [|c s IH]; [done|]. change (String c s +:+ ".") with (String c (s +:+ ".")). cbn [ends_with_char].
  destruct (s +:+ ".") eqn:E; [|done]. destruct s; discriminate.
Qed.

Lemma normalize_tld_wf raw t : normalize_tld raw = Some t -> to_lowercase t = t /\ ends_with_char "." t = true /\ t <> "."%string.
Proof.
  unfold normalize_tld. destruct (String.eqb_spec (str_trim raw) "") as [|Hn]; [done|]. destruct (String.eqb_spec (str_trim raw) ".") as [|Hd]; [done|].
  cbn [orb]. intros [= <-]. destruct (ends_with_char "." (to_lowercase (str_trim raw))) eqn:E.
  - split_and!; [apply to_lowercase_idem|done|]. intros H. by apply lower_is_dot in H.
  - split_and!; [|apply ends_dot_snoc|].
    + by rewrite to_lowercase_app, to_lowercase_idem.
    + intros H. apply (f_equal String.length) in H. rewrite app_length_str in H. cbn in H.
      destruct (str_trim raw); [done|]. unfold to_lowercase in H. cbn in H. lia.
Qed.

Lemma set_tracked_wf tlds old : tracked_wf (set_tracked_tlds tlds old).
Proof.
  intros t Ht. unfold set_tracked_tlds in Ht. cbv zeta in Ht. assert (t ∈ tlds ≫= expand_tld) as (raw & Hin & _)%list_elem_of_bind by (by apply elem_of_union in Ht as [[Ht _]%elem_of_filter|Ht]; apply elem_of_list_to_set in Ht).
  unfold expand_tld in Hin. destruct (_ =? _)%string; apply list_elem_of_omap in Hin as (x & _ & Hx); by apply normalize_tld_wf in Hx.
Qed.

(** A query is counted under the most specific tracked TLD its name falls under,
    whatever its letter case and whether or not it ends in a dot, and under the
    common label exactly when it falls under none. *)
Theorem tld_label_most_specific tlds old q :
  let tracked := set_tracked_tlds tlds old in
  let r := tld_label tracked q in
  (falls_under tracked q r /\ forall r', falls_under tracked q r' -> (String.length r' <= String.length r)%nat) \/
  (r = TLD_OTHER /\ forall r', ~ falls_under tracked q r').
Proof.
  intros tracked r. unfold r, tld_label. case_bool_decide as He.
  - right. split; [done|]. intros r' (_ & _ & _ & Ht). rewrite He in Ht. set_solver.
  - apply tld_loop_spec; [apply set_tracked_wf|lia|done].
Qed.

(** ** Series per spelling *)

Lemma dyn_dom l : dom (foldl (fun m t => dyn_inc t m) (∅ : DynCounterVec) l) = (list_to_set l : gset string).
Proof.
  induction l as [|t l IH] using rev_ind; [done|]. rewrite foldl_snoc. unfold dyn_inc at 1. rewrite dom_insert_L, IH, list_to_set_app_L. set_solver.
Qed.

(** The label is the spelling of the client, so that the series of one tracked TLD
    are as many as the ways its letters have been written: a client that varies the
    letter case of its queries makes a new series each time. *)
Theorem tld_series_per_spelling tlds old t qs :
  let tracked := set_tracked_tlds tlds old in
  t ∈ tracked -> NoDup qs -> Forall (fun q => to_lowercase q = t) qs ->
  size (foldl (fun m q => dyn_inc (tld_label tracked q) m) (∅ : DynCounterVec) qs) = length qs.
Proof.
  intros tracked Ht Hn Hq. pose proof (set_tracked_wf tlds old) as Hw. fold tracked in Hw. destruct (Hw t Ht) as (Hlow & Hend & Hdot).
  assert (forall q, q ∈ qs -> tld_label tracked q = q) as Hid.
  { intros q Hin. rewrite Forall_forall in Hq. specialize (Hq q Hin). unfold tld_label. rewrite bool_decide_eq_false_2 by set_solver.
    cbn [tld_loop]. destruct (String.eqb_spec q "") as [->|_]; [by subst t|]. destruct (String.eqb_spec q ".") as [->|_]; [by subst t|]. cbn [orb].
    rewrite is_tracked_canon by done. unfold canon. rewrite Hq, Hend, bool_decide_eq_true_2 by done. done. }
  assert (foldl (fun m q => dyn_inc (tld_label tracked q) m) (∅ : DynCounterVec) qs = foldl (fun m q => dyn_inc q m) ∅ qs) as ->.
  { clear -Hid. generalize (∅ : DynCounterVec). induction qs as [|q qs IH]; intros m; [done|]. cbn [foldl]. rewrite Hid by left. apply IH. intros. apply Hid. by right. }
  rewrite <- size_dom, dyn_dom. by apply size_list_to_set.
Qed.

(** ** Escapes *)

(** What a reader of the text does with a label value. *)
Fixpoint unescape (s : string) : string :=
  match s with
  | String c rest =>
      if Ascii.eqb c "\" then
        match rest with
        | String d rest' => String (if Ascii.eqb d "n" then ascii_of_nat 10 else d) (unescape rest')
        | EmptyString => s
        end
      else String c (unescape rest)
  | EmptyString => EmptyString
  end.

(** A label value cannot break the text it is written in: no line break is left in
    it, every quote is behind a backslash, and it reads back as it was. *)
Theorem label_value_roundtrip v :
  unescape (escape_label_value v) = v /\ free_of (ascii_of_nat 10) (escape_label_value v) = true.
Proof.
  induction v as [|c v [IH1 IH2]]; [done|]. cbn [escape_label_value].
  destruct (Ascii.eqb_spec c "\") as [->|Hb]; [by cbn; rewrite IH1|].
  destruct (Ascii.eqb_spec c (ascii_of_nat 34)) as [->|Hq]; [by cbn; rewrite IH1|].
  destruct (Ascii.eqb_spec c (ascii_of_nat 10)) as [->|Hnl]; [by cbn; rewrite IH1|].
  change (String c "" +:+ escape_label_value v) with (String c (escape_label_value v)). cbn [unescape].
  rewrite (proj2 (Ascii.eqb_neq c "\") Hb), IH1. split; [done|]. unfold free_of in *. cbn [str_forall]. rewrite IH2.
  by rewrite (proj2 (Ascii.eqb_neq c _) Hnl).
Qed.

(** * Instances *)

Lemma histogram_exact_witness :
  cumulative 0 [10; 20] (h_counts (foldl (fun h v => observe v h) (new_histogram [10; 20]) [5; 10; 11; 99])) = [(10, 2); (20, 3)].
Proof.
  destruct (histogram_exact [10; 20] [5; 10; 11; 99] eq_refl ltac:(vm_compute; reflexivity)) as [H _]. etrans; [exact H|]. vm_compute. reflexivity.
Defined.

Definition sample_observations : list QueryObservation :=
  [mkObservation Udp 0 0 "home." SrcLocal 40 80 1 false 70000; mkObservation Udp 1 0 "other" SrcUpstream 40 60 0 false 3000000;
   mkObservation Doh 0 1 "home." SrcCache 50 80 1 false 20000].

Lemma every_query_counted_once_witness :
  let m := foldl (fun m o => observe_query o m) new_metrics sample_observations in
  c2_get 0 1 (queries m) = 1 /\ cv_get 0 (queries_by_type m) = 2 /\ dyn_get "home." (queries_by_tld m) = 2.
Proof.
  destruct (every_query_counted_once sample_observations) as (H1 & H2 & _ & H4 & _);
    [repeat constructor; unfold labelled; cbn; lia|vm_compute; reflexivity|].
  cbv zeta. split_and!; [exact (H1 Udp 1%nat ltac:(cbn; lia))|exact (H2 0%nat ltac:(cbn; lia))|exact (H4 "home."%string)].
Defined.

Lemma tld_series_per_spelling_witness :
  size (foldl (fun m q => dyn_inc (tld_label (set_tracked_tlds ["home"%string] ∅) q) m) (∅ : DynCounterVec) ["home."; "HOME."; "hOmE."]%string) = 3%nat.
Proof.
  apply (tld_series_per_spelling ["home"%string] ∅ "home." ["home."; "HOME."; "hOmE."]%string).
  - vm_compute. reflexivity.
  - apply (bool_decide_unpack _). vm_compute. exact I.
  - repeat constructor.
Defined.
