(* ===== verification/Auth.v ===== *)
(** Authentication of the control plane ([check_auth] and its throttle in
    [src/src/grpc_service.rs]): who is let in, and how fast a secret can be guessed.
    Instants are nanoseconds of the monotonic clock. *)

From S2P Require Import Prelude RustStr Names Ip.
From stdpp Require Import base gmap sets list option strings.
From Stdlib Require Import ZArith Lia Bool.

Open Scope Z_scope.

Definition AUTH_FAILURE_THRESHOLD : Z := 5.
Definition AUTH_LOCKOUT : Z := from_secs 30.
Definition MAX_AUTH_LOCKOUT : Z := from_secs 900.
Definition AUTH_FAILURE_WINDOW : Z := from_secs 300.
Definition MAX_TRACKED_AUTH_SOURCES : nat := Z.to_nat 65536.
Definition UNKNOWN_PEER : IpAddr := V4 0.

(** [tonic::Status], with the fixed part of its message. *)
Inductive Status :=
  | ResourceExhausted (retry_secs : Z) | Unauthenticated | InvalidArgument (msg : string) | Internal (msg : string)
  | FailedPrecondition (msg : string).

Record AuthFailures := mkFailures {
  af_count : Z;
  af_last_failure : Z;
  af_locked_until : option Z;
  af_lockout : Z;
}.

(** The [auth_failures] map of one service. Each listener of the control plane has a service
    of its own, and so a table of its own: what is bounded below is bounded for each listener.
    The throttle is consulted and a failure noted under two locks; a call is one step
    here, so that calls are taken one after another. *)
Abbreviation AuthTable := (gmap IpAddr AuthFailures).

(** The fields of the service that authentication reads. *)
Record AuthConfig := mkAuth { shared_secret : string; is_unix : bool }.

Definition source_key (source : option IpAddr) : IpAddr := default UNKNOWN_PEER source.

(** A lockout that has been served is cleared; the entry stays. *)
Definition throttled_for (now : Z) (source : option IpAddr) (t : AuthTable) : option Z * AuthTable :=
  let key := source_key source in
  match t !! key with
  | None => (None, t)
  | Some entry =>
      match af_locked_until entry with
      | None => (None, t)
      | Some until =>
          if now <=? until then (Some (until - now), t)
          else (None, <[key := mkFailures (af_count entry) (af_last_failure entry) None (af_lockout entry)]> t)
      end
  end.

(** What [retain] keeps. *)
Definition keep_failures (now : Z) (f : AuthFailures) : bool :=
  match af_locked_until f with Some until => now <? until | None => false end ||
  (duration_since now (af_last_failure f) <=? AUTH_FAILURE_WINDOW).

Definition prune_auth_failures (now : Z) (t : AuthTable) : bool * AuthTable :=
  if (size t <? MAX_TRACKED_AUTH_SOURCES)%nat then (true, t)
  else
    let t := filter (fun kv => keep_failures now kv.2 = true) t in
    ((size t <? MAX_TRACKED_AUTH_SOURCES)%nat, t).

(** One more failure on an entry. *)
Definition count_failure (now : Z) (entry : AuthFailures) : AuthFailures :=
  let stale := AUTH_FAILURE_WINDOW <? duration_since now (af_last_failure entry) in
  let count := (if stale then 0 else af_count entry) + 1 in
  let lockout := if stale then AUTH_LOCKOUT else af_lockout entry in
  if AUTH_FAILURE_THRESHOLD <=? count
  then mkFailures 0 now (Some (now + lockout)) (Z.min (lockout * 2) MAX_AUTH_LOCKOUT)
  else mkFailures count now (af_locked_until entry) lockout.

Definition note_auth_failure (now : Z) (source : option IpAddr) (t : AuthTable) : AuthTable :=
  let key := source_key source in
  let '(tracked, t) := match t !! key with Some _ => (true, t) | None => prune_auth_failures now t end in
  if tracked : bool then
    <[key := count_failure now (default (mkFailures 0 now None AUTH_LOCKOUT) (t !! key))]> t
  else t.

Definition clear_auth_failures (source : option IpAddr) (t : AuthTable) : AuthTable := delete (source_key source) t.

Definition check_auth (cfg : AuthConfig) (now : Z) (source : option IpAddr) (token : string) (t : AuthTable)
  : result unit Status * AuthTable :=
  if is_unix cfg then (Ok tt, t)
  else if (shared_secret cfg =? "")%string then (Ok tt, t)
  else
    match throttled_for now source t with
    | (Some retry_in, t) => (Err (ResourceExhausted (Z.max (as_secs retry_in) 1)), t)
    | (None, t) =>
        if (token =? shared_secret cfg)%string then (Ok tt, clear_auth_failures source t)
        else (Err Unauthenticated, note_auth_failure now source t)
    end.

(** * Attempts in time *)

(** A comparison of a token: who, when, and whether it matched. *)
Abbreviation Comparison := (IpAddr * Z * bool)%type.

(** A secret is compared when one is set and the caller is not on the local socket. *)
Definition guarded (cfg : AuthConfig) : bool := negb (is_unix cfg) && negb (shared_secret cfg =? "")%string.

Definition compared (out : result unit Status) : option bool :=
  match out with Ok _ => Some true | Err Unauthenticated => Some false | Err _ => None end.

(** Attempts on a guarded service while fewer sources are tracked than the table holds. *)
Inductive attempts (cfg : AuthConfig) : Z -> AuthTable -> list Comparison -> Prop :=
| no_attempt now : attempts cfg now ∅ []
| attempt now now' t log source token out t' :
    attempts cfg now t log -> now <= now' -> (size t < MAX_TRACKED_AUTH_SOURCES)%nat ->
    check_auth cfg now' source token t = (out, t') ->
    attempts cfg now' t' (match compared out with Some ok => (source_key source, now', ok) :: log | None => log end).

(** The failed comparisons of a source since its last success, the latest first. *)
Fixpoint failures (x : IpAddr) (log : list Comparison) : list Z :=
  match log with
  | [] => []
  | (y, t, ok) :: log' =>
      if bool_decide (y = x) then (if ok : bool then [] else t :: failures x log') else failures x log'
  end.

(** * Lemmas *)

(** The state of a source against its failed comparisons: what is counted since the
    last reset, and that a reset lies at least one lockout in the past of what
    follows it. *)
Record tracked (now : Z) (ts : list Z) (e : AuthFailures) : Prop := {
  tr_last : head ts = Some (af_last_failure e);
  tr_count : 0 <= af_count e < AUTH_FAILURE_THRESHOLD;
  tr_lockout : AUTH_LOCKOUT <= af_lockout e <= MAX_AUTH_LOCKOUT;
  tr_until : forall u, af_locked_until e = Some u -> u <= af_last_failure e + MAX_AUTH_LOCKOUT;
  tr_before : forall a, ts !! Z.to_nat (af_count e) = Some a ->
    match Z.to_nat (af_count e) with
    | O => match af_locked_until e with Some u => a + AUTH_LOCKOUT <= u | None => a + AUTH_LOCKOUT <= now end
    | S n => exists b, ts !! n = Some b /\ a + AUTH_LOCKOUT <= b
    end;
}.

Record paced (now : Z) (ts : list Z) : Prop := {
  pc_now : forall a, head ts = Some a -> a <= now;
  pc_sorted : forall i a b, ts !! i = Some a -> ts !! S i = Some b -> b <= a;
  pc_pace : forall i a b, ts !! i = Some a -> ts !! (i + 5)%nat = Some b -> b + AUTH_LOCKOUT <= a;
}.

Definition source_inv (now : Z) (ts : list Z) (e : option AuthFailures) : Prop :=
  paced now ts /\
  match e with Some e => tracked now ts e | None => forall a, head ts = Some a -> a + AUTH_LOCKOUT <= now end.

Lemma lockout_nonneg : 0 < AUTH_LOCKOUT <= AUTH_FAILURE_WINDOW.
Proof. vm_compute. split; congruence. Qed.

Lemma paced_later now now' ts : now <= now' -> paced now ts -> paced now' ts.
Proof. intros H [H1 H2 H3]. split; [|done|done]. intros a Ha. specialize (H1 a Ha). lia. Qed.

Lemma source_inv_later now now' ts e : now <= now' -> source_inv now ts e -> source_inv now' ts e.
Proof.
  intros H [Hp He]. split; [by eapply paced_later|]. destruct e as [e|]; [|intros a Ha; specialize (He a Ha); lia].
  destruct He as [H1 H2 H3 H5 H4]. split; try done. intros a Ha. specialize (H4 a Ha).
  destruct (Z.to_nat (af_count e)); [|done]. destruct (af_locked_until e); lia.
Qed.

Lemma paced_index now ts i j a b : paced now ts -> (i <= j)%nat -> ts !! i = Some a -> ts !! j = Some b -> b <= a.
Proof.
  intros Hp Hij. revert b. induction Hij as [|j Hij IH]; intros b Ha Hb; [replace b with a by congruence; lia|].
  destruct (lookup_lt_is_Some_2 ts j) as [c Hc]; [apply lookup_lt_Some in Hb; lia|].
  specialize (IH c Ha Hc). pose proof (pc_sorted _ _ Hp j c b Hc Hb). lia.
Qed.

(** A comparison that comes far enough from the fifth before it keeps the pace. *)
Lemma paced_cons now ts : paced now ts -> (forall b, ts !! 4%nat = Some b -> b + AUTH_LOCKOUT <= now) -> paced now (now :: ts).
Proof.
  intros [H1 H2 H3] H. split.
  - intros a [= <-]. lia.
  - intros [|i] a b Ha Hb; [|by apply (H2 i)]. injection Ha as <-. destruct ts as [|c ts]; [done|].
    injection Hb as <-. by apply H1.
  - intros [|i] a b Ha Hb; [|by apply (H3 i)]. injection Ha as <-. by apply H.
Qed.

Lemma tracked_fifth now ts e b :
  paced now ts -> tracked now ts e -> af_locked_until e = None -> ts !! 4%nat = Some b -> b + AUTH_LOCKOUT <= now.
Proof.
  intros Hp [H1 H2 H3 H5 H4] Hu Hb. unfold AUTH_FAILURE_THRESHOLD in H2. pose proof lockout_nonneg as HL.
  destruct (lookup_lt_is_Some_2 ts (Z.to_nat (af_count e))) as [a Ha]; [apply lookup_lt_Some in Hb; lia|].
  assert (b <= a) as Hba by (eapply paced_index; [exact Hp| |exact Ha|exact Hb]; lia). specialize (H4 a Ha).
  destruct (Z.to_nat (af_count e)) as [|n]; [rewrite Hu in H4; lia|]. destruct H4 as (b' & Hb' & Hab).
  destruct ts as [|h ts]; [done|]. pose proof (pc_now _ _ Hp h eq_refl).
  assert (b' <= h) by (apply (paced_index now (h :: ts) 0 n h b' Hp); [lia|done|done]). lia.
Qed.

Lemma count_failure_inv now ts e :
  paced now ts -> tracked now ts e -> af_locked_until e = None -> source_inv now (now :: ts) (Some (count_failure now e)).
Proof.
  intros Hp He Hu. pose proof lockout_nonneg as HL. split.
  { apply paced_cons; [done|]. intros b Hb. by eapply tracked_fifth. }
  destruct He as [H1 H2 H3 H5 H4]. unfold AUTH_FAILURE_THRESHOLD in H2. unfold count_failure.
  destruct ts as [|h ts]; [done|]. injection H1 as ->. pose proof (pc_now _ _ Hp _ eq_refl) as Hh.
  assert (AUTH_LOCKOUT * 2 <= MAX_AUTH_LOCKOUT) as HM by (vm_compute; congruence).
  assert (duration_since now (af_last_failure e) = now - af_last_failure e) as Hd by (unfold duration_since; lia).
  rewrite Hd. destruct (Z.ltb_spec AUTH_FAILURE_WINDOW (now - af_last_failure e)) as [Hst|Hst].
  - cbn. split; simpl; try done; try (unfold AUTH_FAILURE_THRESHOLD; lia); try lia.
    + intros u E. congruence.
    + intros a [= <-]. exists now. split; [done|]. lia.
  - unfold AUTH_FAILURE_THRESHOLD. destruct (Z.leb_spec 5 (af_count e + 1)).
    + split; simpl; try done; try (unfold AUTH_FAILURE_THRESHOLD; lia); try lia.
      * intros u [= <-]. lia.
      * intros a [= <-]. lia.
    + split; simpl; try done; try (unfold AUTH_FAILURE_THRESHOLD; lia); [by rewrite Hu|]. intros a Ha.
      replace (Z.to_nat (af_count e + 1)) with (S (Z.to_nat (af_count e))) in * by lia. simpl in Ha.
      specialize (H4 a Ha). destruct (Z.to_nat (af_count e)) as [|n]; [exists now; rewrite Hu in H4|]; done.
Qed.

Lemma new_failure_inv now ts :
  source_inv now ts None -> source_inv now (now :: ts) (Some (count_failure now (mkFailures 0 now None AUTH_LOCKOUT))).
Proof.
  intros [Hp Hn]. pose proof lockout_nonneg as HL. split.
  - apply paced_cons; [done|]. intros b Hb. destruct ts as [|h ts]; [done|]. specialize (Hn h eq_refl).
    assert (b <= h) by (apply (paced_index now (h :: ts) 0 4 h b Hp); [lia|done|done]). lia.
  - unfold count_failure. simpl. replace (duration_since now now) with 0 by (unfold duration_since; lia).
    destruct (Z.ltb_spec AUTH_FAILURE_WINDOW 0); [lia|]. simpl.
    split; simpl; try done; try (unfold AUTH_FAILURE_THRESHOLD; lia); try (vm_compute; split; congruence).
    intros a Ha. exists now. split; [done|]. apply Hn. by destruct ts.
Qed.

Lemma throttled_for_other now source t y : y <> source_key source -> (throttled_for now source t).2 !! y = t !! y.
Proof.
  intros Hy. unfold throttled_for. destruct (t !! source_key source) as [e|]; [|done].
  destruct (af_locked_until e) as [u|]; [|done]. destruct (now <=? u); [done|]. simpl. by rewrite lookup_insert_ne.
Qed.

(** What throttling leaves for a source that may try. *)
Lemma throttled_for_inv now source t ts :
  source_inv now ts (t !! source_key source) ->
  match throttled_for now source t with
  | (Some _, t') => t' = t
  | (None, t') => source_inv now ts (t' !! source_key source) /\
      (forall e, t' !! source_key source = Some e -> af_locked_until e = None)
  end.
Proof.
  intros [Hp He]. unfold throttled_for. destruct (t !! source_key source) as [e|] eqn:Et; [|by rewrite Et].
  destruct (af_locked_until e) as [u|] eqn:Eu; [|rewrite Et; split; [done|by intros ? [= <-]]].
  destruct (Z.leb_spec now u) as [Hle|Hle]; [done|].
  rewrite lookup_insert_eq. split; [|by intros ? [= <-]]. split; [done|]. destruct He as [H1 H2 H3 H5 H4].
  split; try done. simpl. intros a Ha. specialize (H4 a Ha). destruct (Z.to_nat (af_count e)); [rewrite Eu in H4; lia|done].
Qed.

(** A failed comparison keeps the invariant when there is room for its source. *)
Lemma note_auth_failure_inv now source t ts :
  (size t < MAX_TRACKED_AUTH_SOURCES)%nat -> source_inv now ts (t !! source_key source) ->
  (forall e, t !! source_key source = Some e -> af_locked_until e = None) ->
  source_inv now (now :: ts) (note_auth_failure now source t !! source_key source) /\
  forall y, y <> source_key source -> note_auth_failure now source t !! y = t !! y.
Proof.
  intros Hs Hi Hu. unfold note_auth_failure, prune_auth_failures. rewrite (proj2 (Nat.ltb_lt _ _) Hs).
  destruct (t !! source_key source) as [e|] eqn:Et; cbn [default]; (split; [|intros y Hy; by rewrite lookup_insert_ne]);
    rewrite lookup_insert_eq, Et; cbn [default].
  - destruct Hi as [Hp He]. apply count_failure_inv; [done..|by apply Hu].
  - by apply new_failure_inv.
Qed.

Lemma throttled_for_size now source t : size (throttled_for now source t).2 = size t.
Proof.
  unfold throttled_for. destruct (t !! source_key source) as [e|] eqn:Et; [|done].
  destruct (af_locked_until e); [|done]. case_match; [done|]. simpl. apply map_size_insert_Some. by eexists.
Qed.

Lemma attempts_inv cfg now t log x :
  guarded cfg = true -> attempts cfg now t log -> source_inv now (failures x log) (t !! x).
Proof.
  intros Hg. induction 1 as [now|now now' t log source token out t' _ IH Hle Hs Hc].
  { rewrite lookup_empty. split; [|done]. by split. }
  apply (source_inv_later _ _ _ _ Hle) in IH. unfold check_auth in Hc. unfold guarded in Hg. bool_hyps.
  rewrite H, (proj2 (String.eqb_neq _ _) H0) in Hc.
  pose proof (throttled_for_size now' source t) as Hsz.
  destruct (decide (x = source_key source)) as [->|Hx].
  - pose proof (throttled_for_inv now' source t _ IH) as Ht.
    destruct (throttled_for now' source t) as [[r|] t1]; simpl in Hsz; [injection Hc as <- <-; by subst|].
    destruct Ht as [Ht1 Ht2]. destruct (token =? shared_secret cfg)%string; injection Hc as <- <-; cbn [compared failures];
      rewrite bool_decide_true by done.
    + unfold clear_auth_failures. rewrite lookup_delete_eq. split; [|done]. by split.
    + apply note_auth_failure_inv; [lia|done|done].
  - assert (t' !! x = t !! x /\ failures x (match compared out with Some ok => (source_key source, now', ok) :: log | None => log end)
      = failures x log) as [-> ->]; [|done].
    pose proof (throttled_for_other now' source t x Hx) as Ho. destruct (throttled_for now' source t) as [[r|] t1]; simpl in Hsz, Ho; [by injection Hc as <- <-|].
    destruct (token =? shared_secret cfg)%string; injection Hc as <- <-; cbn [compared failures];
      (split; [|by rewrite bool_decide_false]).
    + unfold clear_auth_failures. by rewrite lookup_delete_ne.
    + unfold note_auth_failure, prune_auth_failures. rewrite (proj2 (Nat.ltb_lt _ _)) by lia.
      destruct (t1 !! source_key source); by rewrite lookup_insert_ne.
Qed.

(** * Properties *)

(** Attempts of others, one after the other. *)
Definition run_attempts (cfg : AuthConfig) (l : list (Z * option IpAddr * string)) (t : AuthTable) : AuthTable :=
  foldl (fun t '(now, source, token) => (check_auth cfg now source token t).2) t l.

(** An attempt touches another source only by forgetting it, and never a source that
    is locked out. *)
Lemma check_auth_other cfg now source token t x :
  source_key source <> x ->
  (check_auth cfg now source token t).2 !! x = t !! x \/ (check_auth cfg now source token t).2 !! x = None.
Proof.
  intros Hx. pose proof (throttled_for_other now source t x (not_eq_sym Hx)) as Ho. unfold check_auth.
  destruct (is_unix cfg); [by left|]. destruct (_ =? "")%string; [by left|].
  destruct (throttled_for now source t) as [[r|] t1]; simpl in *; [by left|]. destruct (_ =? _)%string; simpl.
  - left. unfold clear_auth_failures. by rewrite lookup_delete_ne.
  - unfold note_auth_failure. destruct (t1 !! source_key source); [left; by rewrite lookup_insert_ne|].
    unfold prune_auth_failures. destruct (size t1 <? _)%nat; [left; by rewrite lookup_insert_ne|]. cbn zeta.
    assert (filter (fun kv : IpAddr * AuthFailures => keep_failures now kv.2 = true) t1 !! x = t1 !! x \/
            filter (fun kv : IpAddr * AuthFailures => keep_failures now kv.2 = true) t1 !! x = None) as Hf.
    { rewrite map_lookup_filter. destruct (t1 !! x) as [e|]; simpl; [|by left]. case_guard; [by left|by right]. }
    destruct (_ <? _)%nat; rewrite ?lookup_insert_ne by done; rewrite <- Ho; exact Hf.
Qed.

(** Nobody can lock another source out. However many attempts other sources make,
    with whatever tokens, a source that was not locked out before them is let in with
    the secret and with nothing else. *)
Theorem others_cannot_lock_out cfg l now x token t :
  guarded cfg = true -> Forall (fun a => source_key a.1.2 <> x) l ->
  (forall until, t !! x ≫= af_locked_until = Some until -> until < now) ->
  (check_auth cfg now (Some x) token (run_attempts cfg l t)).1 = Ok tt <-> token = shared_secret cfg.
Proof.
  intros Hg Hl Hu.
  assert (forall until, run_attempts cfg l t !! x ≫= af_locked_until = Some until -> until < now) as Hu'.
  { revert t Hu. induction Hl as [|[[n s] tok] l Hs _ IH]; intros t Hu; [done|]. apply IH. simpl.
    destruct (check_auth_other cfg n s tok t x Hs) as [-> | ->]; done. }
  generalize dependent (run_attempts cfg l t). clear Hu. intros t' Hu. unfold guarded in Hg. bool_hyps.
  unfold check_auth, throttled_for. rewrite H, (proj2 (String.eqb_neq _ _) H0). change (source_key (Some x)) with x.
  assert (forall t1, (if (token =? shared_secret cfg)%string then (Ok tt, clear_auth_failures (Some x) t1)
    else (Err Unauthenticated, note_auth_failure now (Some x) t1)).1 = Ok tt <-> token = shared_secret cfg) as Hd.
  { intros t1. destruct (String.eqb_spec token (shared_secret cfg)); by split. }
  destruct (t' !! x) as [e|]; [|apply Hd]. simpl in Hu. destruct (af_locked_until e) as [u|]; [|apply Hd].
  specialize (Hu u eq_refl). destruct (Z.leb_spec now u); [lia|apply Hd].
Qed.

(** C21: at one listener, whose calls are taken one after another, a secret can be guessed
    no faster than five times in thirty seconds. While the
    table has room, of any six consecutive failed comparisons from one source without
    a success between them, the last comes at least one lockout after the first; and
    a lockout is never longer than its ceiling, so that the source may try again. *)
Theorem guessing_is_paced cfg now t log x :
  guarded cfg = true -> attempts cfg now t log ->
  (forall i a b, failures x log !! i = Some a -> failures x log !! (i + 5)%nat = Some b -> b + AUTH_LOCKOUT <= a) /\
  (forall until, t !! x ≫= af_locked_until = Some until -> until <= now + MAX_AUTH_LOCKOUT).
Proof.
  intros Hg Ha. destruct (attempts_inv cfg now t log x Hg Ha) as [Hp He]. split; [apply (pc_pace _ _ Hp)|].
  intros u Hu. destruct (t !! x) as [e|]; [|done]. simpl in Hu. pose proof (tr_until _ _ _ He u Hu).
  pose proof (pc_now _ _ Hp _ (tr_last _ _ _ He)). lia.
Qed.

(** * Samples *)

Definition sample_auth : AuthConfig := mkAuth "hunter2" false.
Definition intruder : IpAddr := V4 3405803786.
Definition operator : IpAddr := V4 167772161.

(** Five guesses at one instant trip a lockout. *)
Definition locked_out : AuthTable := run_attempts sample_auth (replicate 5 (0, Some intruder, "guess")) ∅.

Lemma others_cannot_lock_out_witness :
  locked_out !! intruder ≫= af_locked_until = Some AUTH_LOCKOUT /\
  ((check_auth sample_auth 1 (Some operator) "hunter2" locked_out).1 = Ok tt <-> "hunter2" = shared_secret sample_auth) /\
  (check_auth sample_auth 1 (Some intruder) "hunter2" locked_out).1 = Err (ResourceExhausted 29).
Proof.
  split_and!; [vm_compute; reflexivity| |vm_compute; reflexivity].
  apply (others_cannot_lock_out sample_auth (replicate 5 (0, Some intruder, "guess")) 1 operator "hunter2" ∅).
  - vm_compute. reflexivity.
  - repeat constructor; done.
  - intros u. by rewrite lookup_empty.
Defined.

Definition guess_at (now : Z) (st : AuthTable * list Comparison) : AuthTable * list Comparison :=
  let '(out, t) := check_auth sample_auth now (Some intruder) "guess" st.1 in
  (t, match compared out with Some ok => (intruder, now, ok) :: st.2 | None => st.2 end).

Lemma guess_at_attempts now now' st :
  attempts sample_auth now st.1 st.2 -> now <= now' -> (size st.1 < MAX_TRACKED_AUTH_SOURCES)%nat ->
  attempts sample_auth now' (guess_at now' st).1 (guess_at now' st).2.
Proof.
  intros H1 H2 H3. unfold guess_at. destruct (check_auth _ _ _ _ _) as [out t'] eqn:E. simpl.
  by eapply (attempt _ _ _ _ _ (Some intruder)).
Qed.

(** Five guesses at once and a sixth when the lockout is over. *)
Definition six_guesses : AuthTable * list Comparison :=
  guess_at (AUTH_LOCKOUT + 1) (guess_at 0 (guess_at 0 (guess_at 0 (guess_at 0 (guess_at 0 (∅, [])))))).

Lemma six_guesses_attempts : attempts sample_auth (AUTH_LOCKOUT + 1) six_guesses.1 six_guesses.2.
Proof.
  unfold six_guesses. apply (guess_at_attempts 0); [|vm_compute; congruence|apply Nat.ltb_lt; vm_compute; reflexivity].
  do 5 (apply (guess_at_attempts 0); [|lia|apply Nat.ltb_lt; vm_compute; reflexivity]). apply no_attempt.
Qed.

Lemma guessing_is_paced_witness :
  failures intruder six_guesses.2 = [AUTH_LOCKOUT + 1; 0; 0; 0; 0; 0] /\
  forall i a b, failures intruder six_guesses.2 !! i = Some a -> failures intruder six_guesses.2 !! (i + 5)%nat = Some b ->
    b + AUTH_LOCKOUT <= a.
Proof.
  split; [vm_compute; reflexivity|].
  apply (guessing_is_paced sample_auth (AUTH_LOCKOUT + 1) six_guesses.1 six_guesses.2 intruder); [vm_compute; reflexivity|exact six_guesses_attempts].
Defined.
