(* ===== verification/Settings.v ===== *)
(** The parts of the configuration that decide something ([src/src/config.rs]): which
    addresses a listener takes, whether the control plane may be opened, and where
    DANE records may be published. The interfaces of the host are an argument; the
    file format belongs to the YAML library. *)

From S2P Require Import Prelude RustStr Names Ip.
From stdpp Require Import base sets list option strings.
From Stdlib Require Import ZArith Lia Bool Ascii.

Open Scope Z_scope.
Local Open Scope rolodex_scope.

(** * Addresses to listen on *)

(** The address of the default route, and the interfaces with their addresses, if
    they can be told; an entry may have an address of another family, or none. *)
Record HostNet := mkHostNet { primary_ip : option IpAddr; ifaddrs : option (list (string * option IpAddr)) }.

(** [BindList]. *)
Abbreviation BindList := (list string).

Section Binds.
Context (host_net : HostNet).

Definition resolve_interface_addrs (iface_name : string) (port : Z) : result (list string) string :=
  match ifaddrs host_net with
  | None => Err "failed to enumerate network interfaces"
  | Some addrs =>
      let mine := filter (fun ia => ia.1 = iface_name) addrs in
      let found := (fun ip => socket_to_string (mkSocket ip port)) <$> omap snd mine in
      match mine, found with
      | [], _ => Err "no such interface"
      | _, [] => Err "interface has no IP addresses assigned"
      | _, _ => Ok found
      end
  end.

Definition resolve_bind_addrs (addr : string) : result (list string) string :=
  let trimmed := str_trim addr in
  if (trimmed =? "")%string then Err "bind address must not be empty"
  else if starts_with "[" trimmed then Ok [trimmed]
  else match rsplit_once ":" trimmed with
       | None => Err "bind address must include a port"
       | Some (host, port_str) =>
           match parse_uint 10 u16_max port_str with
           | None => Err "invalid port in bind address"
           | Some port =>
               if (to_lowercase host =? "primary")%string then
                 match primary_ip host_net with
                 | Some ip => Ok [ip_to_string ip +:+ ":" +:+ show_dec port]
                 | None => Err "failed to detect primary IP"
                 end
               else if bool_decide (is_Some (parse_ip host)) then Ok [trimmed]
               else resolve_interface_addrs host port
           end
       end.

(** Those not seen before, at the end. *)
Definition push_new {A} `{EqDecision A} (out : list A) (x : A) : list A := if bool_decide (x ∈ out) then out else out ++ [x].

Fixpoint resolve_specs (out : list string) (specs : BindList) : result (list string) string :=
  match specs with
  | [] => Ok out
  | spec :: specs' =>
      if (str_trim spec =? "")%string then resolve_specs out specs'
      else addrs <-? resolve_bind_addrs spec; resolve_specs (foldl push_new out addrs) specs'
  end.

Definition bind_list_resolve (binds : BindList) : result (list string) string := resolve_specs [] binds.

Definition bind_list_is_empty (binds : BindList) : bool := forallb (fun s => (str_trim s =? "")%string) binds.
End Binds.

(** * The control plane's address *)

Definition is_loopback (ip : IpAddr) : bool :=
  match ip with V4 a => Z.shiftr a 24 =? 127 | V6 a => a =? 1 end.

Fixpoint check_grpc_exposure (resolved : list string) (secret : string) : result unit string :=
  if negb (secret =? "")%string then Ok tt
  else match resolved with
       | [] => Ok tt
       | bind :: resolved' =>
           match parse_socket_addr bind with
           | None => Err "invalid gRPC TCP bind address"
           | Some addr => if is_loopback (so_ip addr) then check_grpc_exposure resolved' secret else Err "refusing to start"
           end
       end.

(** * DANE endpoints *)

Record TlsConfig := mkTls {
  cert_path : option string;
  key_path : option string;
  auto_self_signed : bool;
  self_signed_sans : list string;
}.

Definition default_tls : TlsConfig := mkTls None None true [].

Record DotConfig := mkDot { dot_bind : BindList; dot_tls : TlsConfig }.
Record DohConfig := mkDoh { doh_bind : BindList; doh_tls : TlsConfig; doh_enable_h3 : bool }.
Record DoqConfig := mkDoq { doq_bind : BindList; doq_tls : TlsConfig }.

(** The fields of [AcmeConfig] read here. *)
Record AcmeTlsa := mkAcmeTlsa { tlsa_port : Z; tlsa_proto : string; acme_tlsa_endpoints : list string }.

Definition parse_endpoint (entry : string) : result (Z * string) string :=
  match split_once "/" entry with
  | None => Err "expected port/proto"
  | Some (port, proto) =>
      match parse_uint 10 u16_max port with
      | None => Err "invalid port"
      | Some port =>
          if port =? 0 then Err "port 0"
          else
            let proto := to_lowercase proto in
            if negb (proto =? "tcp")%string && negb (proto =? "udp")%string then Err "expected tcp or udp"
            else Ok (port, proto)
      end
  end.

Fixpoint add_endpoints (out : list (Z * string)) (entries : list string) : result (list (Z * string)) string :=
  match entries with
  | [] => Ok out
  | entry :: entries' => pair <-? parse_endpoint entry; add_endpoints (push_new out pair) entries'
  end.

Definition tlsa_endpoints (acme : AcmeTlsa) : result (list (Z * string)) string :=
  add_endpoints [(tlsa_port acme, to_lowercase (tlsa_proto acme))] (acme_tlsa_endpoints acme).

Record TlsaConflict := mkConflict { cf_port : Z; cf_proto : string; cf_listener : string; cf_cert_path : string }.

Definition bind_port (spec : string) : option Z :=
  '(_, port) ← rsplit_once ":" (str_trim spec); parse_uint 10 u16_max (str_trim port).

(** Every port and protocol a listener holds with a certificate of its own. *)
Definition claim (binds : BindList) (tls : TlsConfig) (label : string) (protos : list string) : list TlsaConflict :=
  match cert_path tls with
  | None => []
  | Some path => port ← omap bind_port binds; (fun proto => mkConflict port proto label path) <$> protos
  end.

Definition owned (dot : option DotConfig) (doh : option DohConfig) (doq : option DoqConfig) : list TlsaConflict :=
  match dot with Some d => claim (dot_bind d) (dot_tls d) "DoT" ["tcp"%string] | None => [] end ++
  match doh with
  | Some d => claim (doh_bind d) (doh_tls d) "DoH" (if doh_enable_h3 d then ["tcp"; "udp"]%string else ["tcp"%string])
  | None => []
  end ++
  match doq with Some d => claim (doq_bind d) (doq_tls d) "DoQ" ["udp"%string] | None => [] end.

Definition same_endpoint (port : Z) (proto : string) (c : TlsaConflict) : bool :=
  (cf_port c =? port) && (cf_proto c =? proto)%string.

Fixpoint split_endpoints (own : list TlsaConflict) (requested : list (Z * string)) : list (Z * string) * list TlsaConflict :=
  match requested with
  | [] => ([], [])
  | (port, proto) :: requested' =>
      let (publish, conflicts) := split_endpoints own requested' in
      match List.find (same_endpoint port proto) own with
      | Some c => (publish, mkConflict port proto (cf_listener c) (cf_cert_path c) :: conflicts)
      | None => ((port, proto) :: publish, conflicts)
      end
  end.

Definition partition_tlsa_endpoints (acme : option AcmeTlsa) (dot : option DotConfig) (doh : option DohConfig) (doq : option DoqConfig)
  : result (list (Z * string) * list TlsaConflict) string :=
  match acme with
  | None => Ok ([], [])
  | Some acme => requested <-? tlsa_endpoints acme; Ok (split_endpoints (owned dot doh doq) requested)
  end.

(** ** Lists without repetition *)

Lemma push_new_nodup {A} `{EqDecision A} out (x : A) : NoDup out -> NoDup (push_new out x).
Proof.
  intros H. unfold push_new. case_bool_decide; [done|]. apply NoDup_app. split_and!; [done|set_solver|apply NoDup_singleton].
Qed.

Lemma elem_of_push_new {A} `{EqDecision A} out (x y : A) : y ∈ push_new out x <-> y ∈ out \/ y = x.
Proof. unfold push_new. case_bool_decide; set_solver. Qed.

Lemma fold_push_new {A} `{EqDecision A} (l out : list A) : NoDup out ->
  NoDup (foldl push_new out l) /\ forall y, y ∈ foldl push_new out l <-> y ∈ out \/ y ∈ l.
Proof.
  revert out. induction l as [|x l IH]; intros out H; cbn [foldl]; [set_solver|].
  destruct (IH (push_new out x) (push_new_nodup out x H)) as [Hn Hy]. split; [done|]. intros y. rewrite Hy, elem_of_push_new. set_solver.
Qed.

(** ** Addresses *)

(** An address a listener is given: from a specification that is not blank. *)
Definition specified (host_net : HostNet) (binds : BindList) (a : string) : Prop :=
  exists spec addrs, spec ∈ binds /\ str_trim spec <> ""%string /\ resolve_bind_addrs host_net spec = Ok addrs /\ a ∈ addrs.

Lemma resolve_bind_addrs_some host_net spec addrs : resolve_bind_addrs host_net spec = Ok addrs -> addrs <> [].
Proof.
  unfold resolve_bind_addrs, resolve_interface_addrs. intros H. repeat case_match; simplify_eq; done.
Qed.

Lemma resolve_specs_spec host_net binds out addrs : NoDup out -> resolve_specs host_net out binds = Ok addrs ->
  NoDup addrs /\ forall a, a ∈ addrs <-> a ∈ out \/ specified host_net binds a.
Proof.
  revert out. induction binds as [|spec binds IH]; intros out Hn H; cbn [resolve_specs] in H.
  - simplify_eq. split; [done|]. intros a. split; [by left|]. intros [?|(? & ? & ? & _)]; [done|set_solver].
  - destruct (String.eqb_spec (str_trim spec) "") as [Eb|Eb].
    + destruct (IH out Hn H) as [Hn' Ha]. split; [done|]. intros a. rewrite Ha. unfold specified. set_solver.
    + unfold result_bind in H. destruct (resolve_bind_addrs host_net spec) as [l|e] eqn:El; [|done].
      destruct (fold_push_new l out Hn) as [Hn1 Hy]. destruct (IH _ Hn1 H) as [Hn' Ha]. split; [done|]. intros a. rewrite Ha, Hy.
      unfold specified. split.
      * intros [[?|?]|(s & k & ? & ?)]; [by left|right; exists spec, l; set_solver|right; exists s, k; set_solver].
      * intros [?|(s & k & Hs & Ht & Hk & Hak)]; [by left; left|]. apply elem_of_cons in Hs as [->|Hs]; [|right; by exists s, k].
        left. right. congruence.
Qed.

Lemma resolve_specs_all host_net binds out addrs spec : resolve_specs host_net out binds = Ok addrs ->
  spec ∈ binds -> str_trim spec <> ""%string -> exists l, resolve_bind_addrs host_net spec = Ok l.
Proof.
  revert out. induction binds as [|x binds IH]; intros out H Hs Ht; [set_solver|]. cbn [resolve_specs] in H.
  destruct (String.eqb_spec (str_trim x) "") as [Eb|Eb].
  - apply elem_of_cons in Hs as [->|Hs]; [done|]. by apply (IH out).
  - unfold result_bind in H. destruct (resolve_bind_addrs host_net x) as [l|] eqn:El; [|done].
    apply elem_of_cons in Hs as [->|Hs]; [by exists l|]. by apply (IH _ H).
Qed.

Lemma bind_list_blank host_net binds addrs : bind_list_resolve host_net binds = Ok addrs -> addrs = [] <-> bind_list_is_empty binds = true.
Proof.
  intros H. destruct (resolve_specs_spec host_net binds [] addrs (NoDup_nil_2 (A := string)) H) as [_ Ha].
  unfold bind_list_is_empty. rewrite forallb_forall. split.
  - intros -> s Hs. apply list_elem_of_In in Hs. destruct (String.eqb_spec (str_trim s) "") as [|Ht]; [done|]. exfalso.
    destruct (resolve_specs_all host_net binds [] [] s H Hs Ht) as [[|a l] El]; [by apply resolve_bind_addrs_some in El|].
    apply (not_elem_of_nil a), Ha. right. exists s, (a :: l). set_solver.
  - intros He. destruct addrs as [|a addrs]; [done|]. exfalso. destruct (proj1 (Ha a)) as [?|(s & _ & Hs & Ht & _)]; [set_solver..|].
    apply Ht, String.eqb_eq, He. by apply list_elem_of_In.
Qed.

(** The specifications of a listener come to addresses that are all different, each
    from one of them, and to none at all exactly when all of them are blank, which
    is how a listener is turned off. *)
Theorem bind_list_resolves_once host_net binds addrs : bind_list_resolve host_net binds = Ok addrs ->
  NoDup addrs /\ (forall a, a ∈ addrs <-> specified host_net binds a) /\ (addrs = [] <-> bind_list_is_empty binds = true).
Proof.
  intros H. destruct (resolve_specs_spec host_net binds [] addrs (NoDup_nil_2 (A := string)) H) as [Hn Ha].
  split_and!; [done| |by eapply bind_list_blank]. intros a. rewrite Ha. set_solver.
Qed.

(** ** DANE endpoints *)

Lemma split_endpoints_spec own requested : NoDup requested ->
  let (publish, conflicts) := split_endpoints own requested in
  publish = filter (fun e => existsb (same_endpoint e.1 e.2) own = false) requested /\
  (fun c => (cf_port c, cf_proto c)) <$> conflicts = filter (fun e => existsb (same_endpoint e.1 e.2) own = true) requested /\
  Forall (fun c => c ∈ own) conflicts.
Proof.
  intros Hn. induction Hn as [|[port proto] l Hx Hn IH]; [by repeat split|]. cbn [split_endpoints].
  destruct (split_endpoints own l) as [publish conflicts]. destruct IH as (-> & Hc & Hf). rewrite !filter_cons. cbn [fst snd].
  destruct (List.find (same_endpoint port proto) own) as [c|] eqn:Ef.
  - apply find_some in Ef as [Hin Hs]. assert (existsb (same_endpoint port proto) own = true) as -> by (apply existsb_exists; eauto).
    split_and!; [by case_decide|by case_decide; [cbn; by rewrite Hc|]|]. constructor; [|done].
    unfold same_endpoint in Hs. apply andb_true_iff in Hs as [H1%Z.eqb_eq H2%String.eqb_eq]. subst. destruct c. by apply list_elem_of_In.
  - assert (existsb (same_endpoint port proto) own = false) as ->.
    { destruct (existsb _ own) eqn:E; [|done]. apply existsb_exists in E as (c & Hin & Hs). by rewrite (find_none _ _ Ef c Hin) in Hs. }
    split_and!; [by case_decide|by case_decide|done].
Qed.

Lemma add_endpoints_nodup entries out l : NoDup out -> add_endpoints out entries = Ok l -> NoDup l.
Proof.
  revert out. induction entries as [|e entries IH]; intros out Hn H; cbn [add_endpoints] in H; [by simplify_eq|].
  unfold result_bind in H. destruct (parse_endpoint e) as [p|]; [|done]. eapply IH; [|exact H]. by apply push_new_nodup.
Qed.

(** What a listener with a certificate of its own claims. *)
Lemma elem_of_claim binds tls label protos c : c ∈ claim binds tls label protos <->
  cert_path tls = Some (cf_cert_path c) /\ cf_listener c = label /\ cf_proto c ∈ protos /\ exists spec, spec ∈ binds /\ bind_port spec = Some (cf_port c).
Proof.
  unfold claim. destruct (cert_path tls) as [path|]; [|set_solver]. rewrite list_elem_of_bind. split.
  - intros (port & Hc & Hp). apply list_elem_of_fmap in Hc as (proto & -> & Hpr). apply list_elem_of_omap in Hp as (spec & Hs & Hb).
    cbn. split_and!; [done..|eauto].
  - intros ([= ->] & <- & Hpr & spec & Hs & Hb). exists (cf_port c). split.
    + apply list_elem_of_fmap. exists (cf_proto c). split; [by destruct c|done].
    + apply list_elem_of_omap. eauto.
Qed.

(** A listener that serves a certificate file of its own on a port over a protocol. *)
Definition holds_port (binds : BindList) (tls : TlsConfig) (port : Z) (path : string) : Prop :=
  cert_path tls = Some path /\ exists spec, spec ∈ binds /\ bind_port spec = Some port.

Definition serves_own (dot : option DotConfig) (doh : option DohConfig) (doq : option DoqConfig) (port : Z) (proto listener path : string) : Prop :=
  (exists d, dot = Some d /\ proto = "tcp"%string /\ listener = "DoT"%string /\ holds_port (dot_bind d) (dot_tls d) port path) \/
  (exists d, doh = Some d /\ (proto = "tcp"%string \/ proto = "udp"%string /\ doh_enable_h3 d = true) /\ listener = "DoH"%string /\
             holds_port (doh_bind d) (doh_tls d) port path) \/
  (exists d, doq = Some d /\ proto = "udp"%string /\ listener = "DoQ"%string /\ holds_port (doq_bind d) (doq_tls d) port path).

Lemma elem_of_owned dot doh doq port proto listener path :
  mkConflict port proto listener path ∈ owned dot doh doq <-> serves_own dot doh doq port proto listener path.
Proof.
  unfold owned, serves_own, holds_port. rewrite !elem_of_app. f_equiv; [|f_equiv].
  - destruct dot as [d|]; [|set_solver]. rewrite elem_of_claim. cbn. set_solver.
  - destruct doh as [d|]; [|set_solver]. rewrite elem_of_claim. cbn. split.
    + intros (Hc & -> & Hp & Hs). exists d. split_and!; [done| |done..]. destruct (doh_enable_h3 d); set_solver.
    + intros (d' & [= <-] & Hp & -> & Hc & Hs). split_and!; [done|done| |done]. destruct (doh_enable_h3 d); set_solver.
  - destruct doq as [d|]; [|set_solver]. rewrite elem_of_claim. cbn. set_solver.
Qed.

(** DANE records are published exactly where the ACME certificate is served. The
    configured endpoints, each once, split into those published and those withheld;
    one is withheld exactly when an encrypted listener with a certificate file of
    its own listens on that port over that protocol, DoH over UDP only with HTTP/3,
    and the conflict names that listener and that file. *)
Theorem tlsa_partition_exact acme dot doh doq requested :
  tlsa_endpoints acme = Ok requested ->
  exists publish conflicts,
    partition_tlsa_endpoints (Some acme) dot doh doq = Ok (publish, conflicts) /\ NoDup requested /\
    requested ≡ₚ publish ++ ((fun c => (cf_port c, cf_proto c)) <$> conflicts) /\
    Forall (fun c => serves_own dot doh doq (cf_port c) (cf_proto c) (cf_listener c) (cf_cert_path c)) conflicts /\
    forall port proto, (port, proto) ∈ publish <-> (port, proto) ∈ requested /\ forall listener path, ~ serves_own dot doh doq port proto listener path.
Proof.
  intros Hr. unfold partition_tlsa_endpoints. rewrite Hr. cbn [result_bind]. assert (NoDup requested) as Hn.
  { eapply add_endpoints_nodup; [|exact Hr]. apply NoDup_singleton. }
  pose proof (split_endpoints_spec (owned dot doh doq) requested Hn) as Hs. destruct (split_endpoints _ requested) as [publish conflicts].
  destruct Hs as (Hp & Hc & Hf). exists publish, conflicts. split_and!; [done|done| |eapply Forall_impl; [exact Hf|]; intros []; by rewrite <- elem_of_owned|].
  - rewrite Hc, Hp. clear. induction requested as [|e l IH]; [done|]. rewrite !filter_cons. destruct (existsb _ _); repeat case_decide; try done.
    + rewrite <- Permutation_middle. by constructor.
    + cbn. by constructor.
  - intros port proto. rewrite Hp, list_elem_of_filter. cbn [fst snd]. split; intros [H1 H2]; split; try done.
    + intros listener path Hin. apply elem_of_owned in Hin. assert (existsb (same_endpoint port proto) (owned dot doh doq) = true) as E; [|congruence].
      apply existsb_exists. eexists. split; [by apply list_elem_of_In|]. unfold same_endpoint. cbn. by rewrite Z.eqb_refl, String.eqb_refl.
    + destruct (existsb _ _) eqn:E; [|done]. exfalso. apply existsb_exists in E as ([p q l c] & Hin & Hs).
      unfold same_endpoint in Hs. cbn in Hs. apply andb_true_iff in Hs as [->%Z.eqb_eq ->%String.eqb_eq]. by apply (H2 l c), elem_of_owned, list_elem_of_In.
Qed.

(** * Instances *)

Definition sample_net : HostNet := mkHostNet (Some (V4 3232235781)) (Some [("eth0"%string, Some (V4 3232235781)); ("eth0"%string, None); ("lo"%string, Some (V6 1))]).

Lemma bind_list_resolves_once_witness :
  bind_list_resolve sample_net ["primary:853"; " "; "eth0:853"; "lo:853"]%string = Ok ["192.168.1.5:853"; "[::1]:853"]%string /\
  NoDup ["192.168.1.5:853"; "[::1]:853"]%string.
Proof.
  assert (bind_list_resolve sample_net ["primary:853"; " "; "eth0:853"; "lo:853"]%string = Ok ["192.168.1.5:853"; "[::1]:853"]%string) as E
    by (vm_compute; reflexivity).
  split; [exact E|]. exact (proj1 (bind_list_resolves_once sample_net _ _ E)).
Defined.

Definition sample_acme : AcmeTlsa := mkAcmeTlsa 443 "tcp" ["853/TCP"; "853/udp"; "443/tcp"]%string.

Lemma tlsa_partition_exact_witness :
  exists publish conflicts,
    partition_tlsa_endpoints (Some sample_acme) (Some (mkDot ["0.0.0.0:853"%string] (mkTls (Some "/c"%string) (Some "/k"%string) false []))) None
      (Some (mkDoq ["0.0.0.0:853"%string] default_tls)) = Ok (publish, conflicts) /\
    publish = [(443, "tcp"); (853, "udp")]%string /\ (853, "udp"%string) ∈ publish.
Proof.
  destruct (tlsa_partition_exact sample_acme (Some (mkDot ["0.0.0.0:853"%string] (mkTls (Some "/c"%string) (Some "/k"%string) false []))) None
    (Some (mkDoq ["0.0.0.0:853"%string] default_tls)) [(443, "tcp"); (853, "tcp"); (853, "udp")]%string) as (p & c & E & _); [vm_compute; reflexivity|].
  exists p, c. split; [exact E|]. vm_compute in E. injection E as <- <-. split; [reflexivity|]. right. left.
Defined.
