(* ===== verification/Transports.v ===== *)
(** The encrypted listeners: their certificates ([src/src/tls.rs]), the supervisor that
    opens, replaces and closes them while the server runs ([src/src/transports.rs]),
    and the calls that reach it ([src/src/grpc_service.rs]). The host, its files, its
    sockets and what the TLS library generates are what they are at a moment, a
    [World]; one operation may see several. A task that listens is the sockets it
    holds. *)

From S2P Require Import Prelude RustStr Names Ip Auth Settings.
From stdpp Require Import base gmap sets list option strings.
From Stdlib Require Import ZArith Lia Bool Ascii.

Open Scope Z_scope.
Local Open Scope rolodex_scope.

(** * The outside *)

Inductive Proto := Tcp | Udp.

Record Socket := mkSock { s_proto : Proto; s_addr : SocketAddr }.

#[export] Instance Proto_eq_dec : EqDecision Proto.
Proof. solve_decision. Defined.
#[export] Instance Socket_eq_dec : EqDecision Socket.
Proof. solve_decision. Defined.

(** A certificate chain with its private key, of the TLS library. *)
Class TlsLib := {
  Pair : Type;
  parse_pem_pair : list Z -> list Z -> option Pair;
  key_matches : Pair -> bool;
  quic_usable : Pair -> bool;
  digest : list Z -> list Z;
}.

Section Worlds.
Context `{TL : !TlsLib}.

(** [w_bind] opens a socket on a text, given the ones that are open. *)
Record World := mkWorld {
  w_net : HostNet;
  w_exists : string -> bool;
  w_read : string -> option (list Z);
  w_generate : list string -> option Pair;
  w_bind : list Socket -> Proto -> string -> option Socket;
}.

(** A socket that is open is not opened again. *)
Definition exclusive (w : World) : Prop :=
  forall open proto text s, w_bind w open proto text = Some s -> s_proto s = proto /\ s ∉ open.

(** The socket is at the address the text asks for, on a port of its own if that is 0. *)
Definition placed (text : string) (s : Socket) : Prop :=
  forall a, parse_socket_addr text = Some a ->
    so_ip (s_addr s) = so_ip a /\ (so_port a = 0 \/ so_port (s_addr s) = so_port a).

(** A socket is opened where it is asked for. *)
Definition faithful (w : World) : Prop :=
  forall open proto text s, w_bind w open proto text = Some s -> placed text s.

(** * Certificates *)

(** The addresses of the listener are among the names, for a generated certificate. *)
Definition for_listener (configured : TlsConfig) (binds : list string) : TlsConfig :=
  mkTls (cert_path configured) (key_path configured) (auto_self_signed configured)
    (self_signed_sans configured ++ ((fun a => ip_to_string (so_ip a)) <$> omap parse_socket_addr binds)).

Definition BASE_SANS : list string := ["localhost"; "127.0.0.1"; "::1"]%string.

Definition normalize_san (entry : string) : option string :=
  let entry := str_trim entry in
  let entry := default entry (rest ← str_strip_prefix "[" entry; str_strip_suffix "]" rest) in
  if (entry =? "")%string then None
  else match parse_ip entry with
       | Some ip => Some (ip_to_string (to_canonical ip))
       | None =>
           let name := to_lowercase (trim_end_matches "." entry) in
           if (name =? "")%string then None else Some name
       end.

Definition add_san (sans : list string) (entry : string) : list string :=
  match normalize_san entry with
  | None => sans
  | Some n => if (n =? "0.0.0.0")%string || (n =? "::")%string then sans else push_new sans n
  end.

Definition sans_of (extra : list string) : list string := foldl add_san BASE_SANS extra.

Definition generate_self_signed_with (w : World) (extra_sans : list string) : result Pair string :=
  match w_generate w (sans_of extra_sans) with Some p => Ok p | None => Err "failed to generate self-signed certificate"%string end.

Definition certs_exist (w : World) (cert key : string) : bool := w_exists w cert && w_exists w key.

(** What is hashed of two files. *)
Definition fingerprint_input (cert_data key_data : list Z) : list Z :=
  be_bytes 8 (Z.of_nat (length cert_data)) ++ cert_data ++ key_data.

(** The material with its fingerprint, if it was read. *)
Abbreviation Material := (Pair * option (list Z))%type.

Definition load_material (w : World) (config : TlsConfig) : result Material string :=
  match cert_path config, key_path config with
  | Some cert, Some key =>
      if auto_self_signed config && negb (certs_exist w cert key) then
        p <-? generate_self_signed_with w (self_signed_sans config); Ok (p, None)
      else match w_read w cert with
           | None => Err "failed to read certificate file"%string
           | Some cert_data =>
               match w_read w key with
               | None => Err "failed to read key file"%string
               | Some key_data =>
                   match parse_pem_pair cert_data key_data with
                   | None => Err "failed to parse certificate PEM"%string
                   | Some p => Ok (p, Some (digest (fingerprint_input cert_data key_data)))
                   end
               end
           end
  | _, _ =>
      if auto_self_signed config then p <-? generate_self_signed_with w (self_signed_sans config); Ok (p, None)
      else Err "no TLS certificate configured and auto_self_signed is disabled"%string
  end.

(** [rustls::ServerConfig]. *)
Record ServerConfig := mkServerConfig { sc_pair : Pair; sc_alpn : list string }.

Definition build_server_config (material : Material) (alpn : list string) : result ServerConfig string :=
  if key_matches material.1 then Ok (mkServerConfig material.1 alpn) else Err "failed to build TLS server config"%string.

Record TlsManager := mkManager {
  tm_config : TlsConfig;
  tm_alpn : list string;
  tm_served : ServerConfig;
  tm_loaded : option (list Z);
}.

Definition new_manager (w : World) (config : TlsConfig) (alpn : list string) : result TlsManager string :=
  material <-? load_material w config;
  sc <-? build_server_config material alpn;
  Ok (mkManager config alpn sc material.2).

(** Sending cannot fail: the manager keeps a receiver of its own. *)
Definition reload (w : World) (m : TlsManager) : result unit string * TlsManager :=
  match (material <-? load_material w (tm_config m); sc <-? build_server_config material (tm_alpn m); Ok (sc, material.2)) with
  | Ok (sc, fp) => (Ok tt, mkManager (tm_config m) (tm_alpn m) sc fp)
  | Err e => (Err e, m)
  end.

Definition reload_if_changed (w : World) (m : TlsManager) : result bool string * TlsManager :=
  match load_material w (tm_config m) with
  | Err e => (Err e, m)
  | Ok (p, None) => (Ok false, m)
  | Ok (p, Some fingerprint) =>
      if bool_decide (tm_loaded m = Some fingerprint) then (Ok false, m)
      else match build_server_config (p, Some fingerprint) (tm_alpn m) with
           | Err e => (Err e, m)
           | Ok sc => (Ok true, mkManager (tm_config m) (tm_alpn m) sc (Some fingerprint))
           end
  end.

Definition is_file_backed (m : TlsManager) : bool :=
  bool_decide (is_Some (cert_path (tm_config m))) && bool_decide (is_Some (key_path (tm_config m))).

(** One turn of the poller, which only runs for files. *)
Definition poll (m : TlsManager) (w : World) : TlsManager := if is_file_backed m then (reload_if_changed w m).2 else m.

(** * The supervisor *)

Inductive TransportKind := KDot | KDoh | KDoq.

Definition label (k : TransportKind) : string := match k with KDot => "DoT" | KDoh => "DoH" | KDoq => "DoQ" end.

Definition alpn (k : TransportKind) : list string :=
  match k with KDot => ["dot"%string] | KDoh => ["h2"; "http/1.1"]%string | KDoq => ["doq"%string] end.

Record TransportSettings := mkSettings { binds : BindList; tls : TlsConfig; enable_h3 : bool }.

Record Running := mkRunning {
  r_settings : TransportSettings;
  r_bound : list string;
  r_tasks : list Socket;
  r_manager : TlsManager;
}.

(** The transports that are up, and every socket their tasks hold. *)
Record Supervisor := mkSupervisor { running : TransportKind -> option Running; open : list Socket }.

Definition new_supervisor : Supervisor := mkSupervisor (fun _ => None) [].

#[export] Instance TransportKind_eq_dec : EqDecision TransportKind.
Proof. solve_decision. Defined.

Definition set_running (k : TransportKind) (r : option Running) (f : TransportKind -> option Running) : TransportKind -> option Running :=
  fun k' => if decide (k' = k) then r else f k'.

(** [abort] and the wait for it: the sockets are closed. *)
Definition close (tasks open : list Socket) : list Socket := List.filter (fun s => negb (bool_decide (s ∈ tasks))) open.

Definition current (k : TransportKind) (s : Supervisor) : option TransportSettings := r_settings <$> running s k.
Definition bound_addrs (k : TransportKind) (s : Supervisor) : list string := default [] (r_bound <$> running s k).

Definition build_manager (w : World) (k : TransportKind) (settings : TransportSettings) (addrs : list string) : result TlsManager string :=
  new_manager w (for_listener (tls settings) addrs) (alpn k).

(** One address: what is listening, or an error with nothing left open. *)
Definition start_one (w : World) (k : TransportKind) (settings : TransportSettings) (m : TlsManager) (addr : string) (open : list Socket)
  : result (string * list Socket) string * list Socket :=
  match k with
  | KDot =>
      match w_bind w open Tcp addr with
      | Some s => (Ok (socket_to_string (s_addr s), [s]), s :: open)
      | None => (Err "failed to bind DoT listener"%string, open)
      end
  | KDoh =>
      if bool_decide (parse_socket_addr addr = None) then (Err "invalid DoH bind address"%string, open)
      else match w_bind w open Tcp addr with
           | None => (Err "failed to bind DoH listener"%string, open)
           | Some s =>
               let actual := socket_to_string (s_addr s) in
               if enable_h3 settings then
                 if negb (quic_usable (sc_pair (tm_served m))) then (Err "failed to create HTTP/3 QUIC crypto config"%string, open)
                 else match w_bind w (s :: open) Udp actual with
                      | Some u => (Ok (actual, [s; u]), u :: s :: open)
                      | None => (Err "failed to create the HTTP/3 QUIC endpoint"%string, open)
                      end
               else (Ok (actual, [s]), s :: open)
           end
  | KDoq =>
      if negb (quic_usable (sc_pair (tm_served m))) then (Err "failed to create QUIC server crypto config"%string, open)
      else if bool_decide (parse_socket_addr addr = None) then (Err "invalid DoQ bind address"%string, open)
      else match w_bind w open Udp addr with
           | Some s => (Ok (socket_to_string (s_addr s), [s]), s :: open)
           | None => (Err "failed to create QUIC endpoint"%string, open)
           end
  end.

Fixpoint start_loop (w : World) (k : TransportKind) (settings : TransportSettings) (m : TlsManager) (addrs : list string)
    (tasks : list Socket) (bound : list string) (open : list Socket) : result Running string * list Socket :=
  match addrs with
  | [] => (Ok (mkRunning settings bound tasks m), open)
  | addr :: addrs' =>
      match start_one w k settings m addr open with
      | (Ok (actual, started), open) => start_loop w k settings m addrs' (tasks ++ started) (bound ++ [actual]) open
      | (Err e, open) => (Err e, close tasks open)
      end
  end.

Definition start (w : World) (k : TransportKind) (settings : TransportSettings) (addrs : list string) (m : TlsManager) (open : list Socket)
  : result Running string * list Socket := start_loop w k settings m addrs [] [] open.

Definition restart_previous (w : World) (k : TransportKind) (prev : TransportSettings) (open : list Socket) : option Running * list Socket :=
  match bind_list_resolve (w_net w) (binds prev) with
  | Err _ => (None, open)
  | Ok addrs =>
      match build_manager w k prev addrs with
      | Err _ => (None, open)
      | Ok m => match start w k prev addrs m open with
                | (Ok r, open) => (Some r, open)
                | (Err _, open) => (None, open)
                end
      end
  end.

Definition stop (r : option Running) (open : list Socket) : list Socket :=
  match r with Some r => close (r_tasks r) open | None => open end.

(** The world when the request is validated, when the sockets are opened, and when
    the old ones are put back. *)
Definition apply (w1 w2 w3 : World) (k : TransportKind) (settings : TransportSettings) (s : Supervisor) : result unit string * Supervisor :=
  match bind_list_resolve (w_net w1) (binds settings) with
  | Err e => (Err e, s)
  | Ok [] => (Ok tt, mkSupervisor (set_running k None (running s)) (stop (running s k) (open s)))
  | Ok addrs =>
      match build_manager w1 k settings addrs with
      | Err e => (Err e, s)
      | Ok m =>
          let previous := running s k in
          match start w2 k settings addrs m (stop previous (open s)) with
          | (Ok r, open) => (Ok tt, mkSupervisor (set_running k (Some r) (running s)) open)
          | (Err e, open) =>
              let (restored, open) := match previous with
                                      | Some prev => restart_previous w3 k (r_settings prev) open
                                      | None => (None, open)
                                      end in
              (Err e, mkSupervisor (set_running k restored (running s)) open)
          end
      end
  end.

(** The poller of a transport that is up. *)
Definition poll_transport (w : World) (k : TransportKind) (s : Supervisor) : Supervisor :=
  match running s k with
  | Some r => mkSupervisor (set_running k (Some (mkRunning (r_settings r) (r_bound r) (r_tasks r) (poll (r_manager r) w))) (running s)) (open s)
  | None => s
  end.

(** * The calls *)

Record ProtoTls := mkProtoTls { p_cert_path : string; p_key_path : string; p_auto_self_signed : bool; p_self_signed_sans : list string }.

Record ProtoTransport := mkProtoTransport { p_bind : string; p_binds : list string; p_tls : option ProtoTls; p_enable_h3 : bool }.

Definition default_transport : ProtoTransport := mkProtoTransport "" [] None false.

Definition binds_of (bind : string) (bs : list string) : BindList :=
  if existsb (fun b => negb (str_trim b =? "")%string) bs then bs else [bind].

Definition non_empty (s : string) : option string := if (s =? "")%string then None else Some s.

Definition transport_settings (bl : BindList) (t : option ProtoTls) : TransportSettings :=
  let t := default (mkProtoTls "" "" false []) t in
  let cert := non_empty (p_cert_path t) in
  let key := non_empty (p_key_path t) in
  mkSettings bl (mkTls cert key (p_auto_self_signed t || (bool_decide (cert = None) && bool_decide (key = None))) (p_self_signed_sans t)) false.

Definition with_h3 (h3 : bool) (s : TransportSettings) : TransportSettings := mkSettings (binds s) (tls s) h3.

Definition tls_to_proto (t : TlsConfig) : ProtoTls :=
  mkProtoTls (default "" (cert_path t)) (default "" (key_path t)) (auto_self_signed t) (self_signed_sans t).

Definition first_bind (s : TransportSettings) : string := default "" (head (binds s)).

(** The part of the service the calls use. *)
Record TransportService := mkTransportService { ts_auth : AuthTable; ts_transports : option Supervisor }.

Section Calls.
Context (auth : AuthConfig).

Definition with_auth {A} (now : Z) (peer : option IpAddr) (token : string)
    (body : TransportService -> result A Status * TransportService) (s : TransportService) : result A Status * TransportService :=
  match check_auth auth now peer token (ts_auth s) with
  | (Err e, t) => (Err e, mkTransportService t (ts_transports s))
  | (Ok _, t) => body (mkTransportService t (ts_transports s))
  end.

Definition apply_transport (w1 w2 w3 : World) (k : TransportKind) (settings : TransportSettings) (s : TransportService)
  : result unit Status * TransportService :=
  match ts_transports s with
  | None => (Err (FailedPrecondition (label k +:+ " cannot be configured: this server was started without transport supervision")), s)
  | Some sup =>
      match apply w1 w2 w3 k settings sup with
      | (Ok _, sup) => (Ok tt, mkTransportService (ts_auth s) (Some sup))
      | (Err e, sup) => (Err (Internal e), mkTransportService (ts_auth s) (Some sup))
      end
  end.

Definition requested (k : TransportKind) (cfg : option ProtoTransport) : TransportSettings :=
  let cfg := default default_transport cfg in
  let s := transport_settings (binds_of (p_bind cfg) (p_binds cfg)) (p_tls cfg) in
  match k with KDoh => with_h3 (p_enable_h3 cfg) s | KDot | KDoq => s end.

Definition reported (k : TransportKind) (s : TransportService) : option ProtoTransport :=
  sup ← ts_transports s;
  settings ← current k sup;
  Some (mkProtoTransport (first_bind settings) (bound_addrs k sup) (Some (tls_to_proto (tls settings)))
          (match k with KDoh => enable_h3 settings | KDot | KDoq => false end)).

Definition set_dot_config (w1 w2 w3 : World) now peer token cfg := with_auth now peer token (apply_transport w1 w2 w3 KDot (requested KDot cfg)).
Definition set_doh_config (w1 w2 w3 : World) now peer token cfg := with_auth now peer token (apply_transport w1 w2 w3 KDoh (requested KDoh cfg)).
Definition set_doq_config (w1 w2 w3 : World) now peer token cfg := with_auth now peer token (apply_transport w1 w2 w3 KDoq (requested KDoq cfg)).

Definition get_dot_config now peer token := with_auth now peer token (fun s => (Ok (reported KDot s), s)).
Definition get_doh_config now peer token := with_auth now peer token (fun s => (Ok (reported KDoh s), s)).
Definition get_doq_config now peer token := with_auth now peer token (fun s => (Ok (reported KDoq s), s)).
End Calls.
End Worlds.

(** ** Certificates *)

Section Renewal.
Context `{TL : !TlsLib}.

(** What a manager serves has a key that matches, and is what its fingerprint is of. *)
Definition managed (m : TlsManager) : Prop :=
  key_matches (sc_pair (tm_served m)) = true /\ sc_alpn (tm_served m) = tm_alpn m /\
  forall fp, tm_loaded m = Some fp ->
    exists c k, fp = digest (fingerprint_input c k) /\ parse_pem_pair c k = Some (sc_pair (tm_served m)) /\ Z.of_nat (length c) < 2 ^ 64.

Definition small_files (w : World) : Prop := forall path data, w_read w path = Some data -> Z.of_nat (length data) < 2 ^ 64.

Lemma load_material_read w config p fp : small_files w -> load_material w config = Ok (p, Some fp) ->
  exists cert key c k, cert_path config = Some cert /\ key_path config = Some key /\ w_read w cert = Some c /\ w_read w key = Some k /\
    parse_pem_pair c k = Some p /\ fp = digest (fingerprint_input c k) /\ Z.of_nat (length c) < 2 ^ 64.
Proof.
  unfold load_material, result_bind. intros Hs H. destruct (cert_path config) as [cert|]; [|by repeat case_match].
  destruct (key_path config) as [key|]; [|by repeat case_match]. case_match; [by repeat case_match|].
  destruct (w_read w cert) as [c|] eqn:Ec; [|done]. destruct (w_read w key) as [k|] eqn:Ek; [|done].
  destruct (parse_pem_pair c k) as [p'|] eqn:Ep; [|done]. simplify_eq. exists cert, key, c, k. split_and!; eauto.
Qed.

Lemma new_manager_managed w config al m : small_files w -> new_manager w config al = Ok m -> managed m /\ tm_config m = config /\ tm_alpn m = al.
Proof.
  unfold new_manager, result_bind, build_server_config. intros Hs H. destruct (load_material w config) as [[p fp]|] eqn:El; [|done].
  cbn [fst snd] in H. destruct (key_matches p) eqn:Ek; [|done]. simplify_eq. split; [|done]. split; [done|]. split; [done|]. cbn.
  intros fp' ->. destruct (load_material_read w config p fp' Hs El) as (_ & _ & c & k & _ & _ & _ & _ & Hp & Hf & Hl). by exists c, k.
Qed.

(** A poll keeps what is served, or takes a matching pair off the disk. *)
Lemma poll_cases w m : small_files w ->
  poll m w = m \/
  exists cert key c k p, cert_path (tm_config m) = Some cert /\ key_path (tm_config m) = Some key /\ w_read w cert = Some c /\ w_read w key = Some k /\
    parse_pem_pair c k = Some p /\ key_matches p = true /\ Z.of_nat (length c) < 2 ^ 64 /\
    poll m w = mkManager (tm_config m) (tm_alpn m) (mkServerConfig p (tm_alpn m)) (Some (digest (fingerprint_input c k))).
Proof.
  intros Hs. unfold poll. destruct (is_file_backed m); [|by left]. unfold reload_if_changed.
  destruct (load_material w (tm_config m)) as [[p [fp|]]|e] eqn:El; [|by left|by left].
  case_bool_decide; [by left|]. unfold build_server_config. cbn [fst]. destruct (key_matches p) eqn:Ek; [|by left]. right.
  destruct (load_material_read w _ p fp Hs El) as (cert & key & c & k & H1 & H2 & H3 & H4 & H5 & -> & H6). exists cert, key, c, k, p. split_and!; done.
Qed.

Lemma poll_managed w m : small_files w -> managed m -> managed (poll m w) /\ tm_config (poll m w) = tm_config m /\ tm_alpn (poll m w) = tm_alpn m.
Proof.
  intros Hs Hm. destruct (poll_cases w m Hs) as [->|(cert & key & c & k & p & _ & _ & _ & _ & Hp & Hk & Hl & ->)]; [done|].
  split; [|done]. split; [done|]. split; [done|]. cbn. intros fp [= <-]. by exists c, k.
Qed.

Lemma polls_managed ws m : Forall small_files ws -> managed m ->
  managed (foldl poll m ws) /\ tm_config (foldl poll m ws) = tm_config m /\ tm_alpn (foldl poll m ws) = tm_alpn m.
Proof.
  intros Hs. revert m. induction Hs as [|w ws Hw _ IH]; intros m Hm; [done|]. cbn [foldl].
  destruct (poll_managed w m Hw Hm) as (H1 & H2 & H3). destruct (IH _ H1) as (? & -> & ->). done.
Qed.

(** The length of the certificate keeps the two files apart. *)
Lemma fingerprint_input_inj c k c' k' : Z.of_nat (length c) < 2 ^ 64 -> Z.of_nat (length c') < 2 ^ 64 ->
  fingerprint_input c k = fingerprint_input c' k' -> c = c' /\ k = k'.
Proof.
  unfold fingerprint_input. intros Hc Hc' H. apply app_inj_1 in H as [Hl H]; [|by rewrite !length_be_bytes].
  apply (f_equal of_be_bytes) in Hl. rewrite !of_be_bytes_be_bytes, !Z.mod_small in Hl by (change (256 ^ Z.of_nat 8) with (2 ^ 64); lia).
  apply app_inj_1 in H; [done|lia].
Qed.

(** C33: a renewed certificate is served, and nothing else ever is. Whatever the files
    went through since the listener was set up, half-written, missing or mismatched,
    what it serves is a certificate whose key matches, under the protocols of the
    listener; a poll that finds a matching pair in the files serves that pair from
    then on, and any other poll changes nothing. *)
Theorem renewed_certificate_served w0 config al m ws w cert key :
  Forall small_files (w0 :: w :: ws) -> new_manager w0 config al = Ok m ->
  cert_path config = Some cert -> key_path config = Some key ->
  let m' := foldl poll m ws in
  key_matches (sc_pair (tm_served m')) = true /\ sc_alpn (tm_served m') = al /\
  (poll m' w = m' \/ exists c k p, w_read w cert = Some c /\ w_read w key = Some k /\ parse_pem_pair c k = Some p /\ key_matches p = true /\
                                   tm_served (poll m' w) = mkServerConfig p al) /\
  forall c k p,
    certs_exist w cert key = true -> w_read w cert = Some c -> w_read w key = Some k -> parse_pem_pair c k = Some p -> key_matches p = true ->
    (forall c' k', digest (fingerprint_input c' k') = digest (fingerprint_input c k) -> fingerprint_input c' k' = fingerprint_input c k) ->
    tm_served (poll m' w) = mkServerConfig p al.
Proof.
  intros Hs Hm Hc Hk m'. apply Forall_cons in Hs as [Hs0 Hs]. apply Forall_cons in Hs as [Hsw Hs].
  destruct (new_manager_managed w0 config al m Hs0 Hm) as (Hman & Ecfg & Eal).
  destruct (polls_managed ws m Hs Hman) as ((H1 & H2 & H3) & Ec' & Ea'). fold m' in H1, H2, H3, Ec', Ea'. rewrite Ecfg in Ec'. rewrite Eal in Ea'.
  split_and!; [done|congruence| |].
  - destruct (poll_cases w m' Hsw) as [E|(cert' & key' & c & k & p & Hc' & Hk' & Hr & Hr' & Hp & Hkm & _ & E)]; [by left|right].
    rewrite Ec' in Hc', Hk'. simplify_eq. exists c, k, p. rewrite E, Ea'. done.
  - intros c k p Hex Hrc Hrk Hp Hkm Hcol. unfold poll, is_file_backed. rewrite Ec', Hc, Hk.
    rewrite !bool_decide_eq_true_2 by eauto. cbn [andb]. unfold reload_if_changed. rewrite Ec'. unfold load_material.
    rewrite Hc, Hk, Hex, andb_false_r, Hrc, Hrk, Hp. case_bool_decide as Hfp.
    + destruct (H3 _ Hfp) as (c' & k' & Hd & Hp' & Hl). symmetry in Hd. apply Hcol, fingerprint_input_inj in Hd as [-> ->]; [|done|by eapply Hsw].
      cbn [snd]. destruct (tm_served m') as [p' a']. cbn in *. congruence.
    + unfold build_server_config. cbn [fst]. rewrite Hkm. cbn. by rewrite Ea'.
Qed.
End Renewal.

(** ** Sockets *)

Section Supervision.
Context `{TL : !TlsLib}.

(** What listens for one address. *)
Definition group_for (k : TransportKind) (h3 : bool) (text : string) (g : list Socket) : Prop :=
  match k with
  | KDot => exists a, g = [mkSock Tcp a] /\ text = socket_to_string a
  | KDoq => exists a, g = [mkSock Udp a] /\ text = socket_to_string a
  | KDoh => exists a, text = socket_to_string a /\ if h3 then exists b, g = [mkSock Tcp a; mkSock Udp b] else g = [mkSock Tcp a]
  end.

Definition serves (k : TransportKind) (h3 : bool) (bound : list string) (tasks : list Socket) : Prop :=
  exists groups, tasks = concat groups /\ Forall2 (group_for k h3) bound groups.

Definition tasks_of (r : option Running) : list Socket := match r with Some r => r_tasks r | None => [] end.

(** The sockets of the transports that are up. *)
Definition held (f : TransportKind -> option Running) : list Socket := tasks_of (f KDot) ++ tasks_of (f KDoh) ++ tasks_of (f KDoq).

Definition others (k : TransportKind) (f : TransportKind -> option Running) : list Socket := held (set_running k None f).

(** Every open socket belongs to a transport that is up, to one only, and a
    transport listens for each of its addresses the way its kind does. *)
Definition sup_wf (s : Supervisor) : Prop :=
  NoDup (held (running s)) /\ open s ≡ₚ held (running s) /\
  forall k r, running s k = Some r ->
    serves k (enable_h3 (r_settings r)) (r_bound r) (r_tasks r) /\ r_bound r <> [] /\ bind_list_is_empty (binds (r_settings r)) = false.

Lemma held_split k r f : held (set_running k r f) ≡ₚ tasks_of r ++ others k f.
Proof. unfold others, held, set_running. destruct k; cbn; solve_Permutation. Qed.

Lemma held_self k f : held f ≡ₚ tasks_of (f k) ++ others k f.
Proof. unfold others, held, set_running. destruct k; cbn; solve_Permutation. Qed.

Lemma close_tasks tasks rest o : NoDup (tasks ++ rest) -> o ≡ₚ tasks ++ rest -> close tasks o ≡ₚ rest.
Proof.
  intros Hn Ho. unfold close. rewrite (Permutation_filter_bool _ _ _ Ho), List.filter_app. apply NoDup_app in Hn as (_ & Hd & _).
  rewrite filter_none, filter_all_true; [done| |].
  - intros x Hx. apply negb_true_iff, bool_decide_eq_false. intros Ht. by apply (Hd x).
  - intros x Hx. by rewrite bool_decide_eq_true_2.
Qed.

Lemma start_one_spec w k st m addr o : exclusive w -> NoDup o ->
  match start_one w k st m addr o with
  | (Ok (actual, started), o') => o' ≡ₚ started ++ o /\ NoDup (started ++ o) /\ group_for k (enable_h3 st) actual started
  | (Err _, o') => o' = o
  end.
Proof.
  intros Hx Hn. unfold start_one, group_for.
  assert (forall o p text s, NoDup o -> w_bind w o p text = Some s -> exists a, s = mkSock p a /\ NoDup (mkSock p a :: o)) as Hb.
  { intros o1 p text s Hn1 Hb. apply Hx in Hb as [Hp Hi]. destruct s as [q a]. cbn in *. subst. exists a. split; [done|by constructor]. }
  destruct k.
  - destruct (w_bind w o Tcp addr) as [s|] eqn:E; [|done]. destruct (Hb _ _ _ _ Hn E) as (a & -> & Hn'). split_and!; [done|done|eauto].
  - case_bool_decide; [done|]. destruct (w_bind w o Tcp addr) as [s|] eqn:E; [|done]. destruct (Hb _ _ _ _ Hn E) as (a & -> & Hn').
    destruct (enable_h3 st); [|split_and!; [done|done|eauto]]. destruct (quic_usable _); cbn [negb]; [|done].
    match goal with |- context [w_bind w ?o1 Udp ?t] => destruct (w_bind w o1 Udp t) as [u|] eqn:Eu end; [|done].
    destruct (Hb _ _ _ _ Hn' Eu) as (b & -> & Hn2). cbn [app]. split_and!; [apply Permutation_swap|by rewrite Permutation_swap|eauto].
  - destruct (quic_usable _); cbn [negb]; [|done]. case_bool_decide; [done|]. destruct (w_bind w o Udp addr) as [s|] eqn:E; [|done].
    destruct (Hb _ _ _ _ Hn E) as (a & -> & Hn'). split_and!; [done|done|eauto].
Qed.

Lemma start_loop_spec w k st m addrs tasks bound rest o : exclusive w -> NoDup (tasks ++ rest) -> o ≡ₚ tasks ++ rest ->
  serves k (enable_h3 st) bound tasks ->
  match start_loop w k st m addrs tasks bound o with
  | (Ok r, o') => NoDup (r_tasks r ++ rest) /\ o' ≡ₚ r_tasks r ++ rest /\ r_settings r = st /\ r_manager r = m /\
                  serves k (enable_h3 st) (r_bound r) (r_tasks r) /\ length (r_bound r) = (length bound + length addrs)%nat
  | (Err _, o') => o' ≡ₚ rest
  end.
Proof.
  intros Hx. revert tasks bound o. induction addrs as [|addr addrs IH]; intros tasks bound o Hn Ho Hs; cbn [start_loop].
  - by split_and!; try done; cbn; lia.
  - assert (NoDup o) as Hno by (by rewrite Ho). pose proof (start_one_spec w k st m addr o Hx Hno) as H1.
    destruct (start_one w k st m addr o) as [[[actual started]|e] o'].
    + destruct H1 as (Ho' & Hn' & Hg).
      assert (NoDup ((tasks ++ started) ++ rest)) as Hn2 by (rewrite <- app_assoc, Permutation_app_swap_app, <- Ho; done).
      assert (o' ≡ₚ (tasks ++ started) ++ rest) as Ho2 by (rewrite <- app_assoc, Permutation_app_swap_app, <- Ho; done).
      assert (serves k (enable_h3 st) (bound ++ [actual]) (tasks ++ started)) as Hs2.
      { destruct Hs as (groups & -> & Hf). exists (groups ++ [started]). split; [by rewrite concat_app; cbn; rewrite app_nil_r|].
        apply Forall2_app; [done|by repeat constructor]. }
      specialize (IH _ _ _ Hn2 Ho2 Hs2). destruct (start_loop _ _ _ _ _ _ _ o') as [[r|] o2]; [|done].
      destruct IH as (?&?&?&?&?&Hl). split_and!; try done. rewrite Hl, length_app. cbn. lia.
    + subst o'. by apply close_tasks.
Qed.

Definition well_served (k : TransportKind) (r : option Running) : Prop :=
  match r with
  | Some r => serves k (enable_h3 (r_settings r)) (r_bound r) (r_tasks r) /\ r_bound r <> [] /\ bind_list_is_empty (binds (r_settings r)) = false
  | None => True
  end.

(** A transport replaced: the invariant holds if it holds of the new one. *)
Lemma sup_wf_replace k r s o : sup_wf s -> well_served k r -> NoDup (tasks_of r ++ others k (running s)) -> o ≡ₚ tasks_of r ++ others k (running s) ->
  sup_wf (mkSupervisor (set_running k r (running s)) o).
Proof.
  intros (_ & _ & Hs) Hr Hn Ho. unfold sup_wf. cbn [running open]. rewrite held_split. split_and!; [done|done|].
  intros k' r'. unfold set_running. case_decide as Hk; [intros ->; by subst k'|]. apply Hs.
Qed.

Lemma stop_others k s : sup_wf s -> stop (running s k) (open s) ≡ₚ others k (running s) /\ NoDup (others k (running s)).
Proof.
  intros (Hn & Ho & _). rewrite (held_self k) in Hn, Ho. split; [|by apply NoDup_app in Hn as (_ & _ & ?)].
  unfold stop, tasks_of in *. destruct (running s k) as [r|]; [|done]. by apply close_tasks.
Qed.

Lemma start_spec w k st addrs m rest o : exclusive w -> NoDup rest -> o ≡ₚ rest -> addrs <> [] -> bind_list_is_empty (binds st) = false ->
  match start w k st addrs m o with
  | (Ok r, o') => NoDup (r_tasks r ++ rest) /\ o' ≡ₚ r_tasks r ++ rest /\ r_settings r = st /\ r_manager r = m /\
                  well_served k (Some r) /\ length (r_bound r) = length addrs
  | (Err _, o') => o' ≡ₚ rest
  end.
Proof.
  intros Hx Hn Ho Ha He. pose proof (start_loop_spec w k st m addrs [] [] rest o Hx Hn Ho) as H. unfold start.
  destruct (start_loop w k st m addrs [] [] o) as [[r|] o']; [|by apply H; exists []].
  destruct H as (H1 & H2 & H3 & H4 & H5 & H6); [by exists []|]. split_and!; try done. unfold well_served. rewrite H3. split_and!; [done| |done].
  destruct (r_bound r); [|done]. by destruct addrs.
Qed.

Lemma not_blank n bs addrs : bind_list_resolve n bs = Ok addrs -> addrs <> [] <-> bind_list_is_empty bs = false.
Proof. intros H. apply bind_list_blank in H. destruct (bind_list_is_empty bs); naive_solver. Qed.

Lemma restart_spec w k prev rest o : exclusive w -> NoDup rest -> o ≡ₚ rest -> bind_list_is_empty (binds prev) = false ->
  let (r, o') := restart_previous w k prev o in
  NoDup (tasks_of r ++ rest) /\ o' ≡ₚ tasks_of r ++ rest /\ well_served k r /\ (r = None \/ r_settings <$> r = Some prev).
Proof.
  intros Hx Hn Ho Hb. unfold restart_previous. destruct (bind_list_resolve (w_net w) (binds prev)) as [addrs|] eqn:Eb; [|by split_and!; [..|left]].
  destruct (build_manager w k prev addrs) as [m|]; [|by split_and!; [..|left]].
  pose proof (start_spec w k prev addrs m rest o Hx Hn Ho (proj2 (not_blank _ _ _ Eb) Hb) Hb) as Hs.
  destruct (start w k prev addrs m o) as [[r|] o']; [|by split_and!; [..|left]].
  destruct Hs as (H1 & H2 & H3 & _ & H5 & _). split_and!; try done. right. cbn. by rewrite H3.
Qed.

Lemma set_running_other k k' r f : k' <> k -> set_running k r f k' = f k'.
Proof. intros H. unfold set_running. by rewrite decide_False. Qed.

Lemma set_running_same k r f : set_running k r f k = r.
Proof. unfold set_running. by rewrite decide_True. Qed.

Lemma apply_spec w1 w2 w3 k st s out s' :
  sup_wf s -> exclusive w2 -> exclusive w3 -> apply w1 w2 w3 k st s = (out, s') ->
  sup_wf s' /\ (forall k', k' <> k -> running s' k' = running s k') /\
  match bind_list_resolve (w_net w1) (binds st), out with
  | Err _, _ => s' = s /\ out <> Ok tt
  | Ok [], _ => out = Ok tt /\ running s' k = None
  | Ok addrs, Ok _ => exists r, running s' k = Some r /\ r_settings r = st /\ length (r_bound r) = length addrs
  | Ok addrs, Err _ =>
      match build_manager w1 k st addrs with
      | Err _ => s' = s
      | Ok _ => running s' k = None \/ r_settings <$> running s' k = r_settings <$> running s k
      end
  end.
Proof.
  intros Hwf Hx2 Hx3. destruct (stop_others k s Hwf) as [Hst Hno]. unfold apply.
  destruct (bind_list_resolve (w_net w1) (binds st)) as [[|a addrs]|e] eqn:Eb; [| |intros [= <- <-]; by split_and!].
  - intros [= <- <-]. split_and!; [by apply sup_wf_replace|intros; by apply set_running_other|done|cbn [running]; apply set_running_same].
  - assert (a :: addrs <> []) as Ha by done. pose proof (proj1 (not_blank _ _ _ Eb) Ha) as He.
    destruct (build_manager w1 k st (a :: addrs)) as [m|e] eqn:Em; [|intros [= <- <-]; by split_and!].
    pose proof (start_spec w2 k st (a :: addrs) m _ _ Hx2 Hno Hst Ha He) as Hs.
    destruct (start w2 k st (a :: addrs) m _) as [[r|e] o].
    + destruct Hs as (H1 & H2 & H3 & _ & H5 & H6). intros [= <- <-]. split_and!; [by apply sup_wf_replace|intros; by apply set_running_other|].
      exists r. cbn [running]. by rewrite set_running_same.
    + destruct (running s k) as [prev|] eqn:Ek.
      * destruct Hwf as (Hw1 & Hw2 & Hw3). destruct (Hw3 k prev Ek) as (_ & _ & Hb).
        pose proof (restart_spec w3 k (r_settings prev) _ _ Hx3 Hno Hs Hb) as Hr.
        destruct (restart_previous w3 k (r_settings prev) o) as [r o']. destruct Hr as (H1 & H2 & H3 & H4). intros [= <- <-].
        split_and!; [by apply sup_wf_replace|intros; by apply set_running_other|]. cbn [running]. rewrite set_running_same. cbn. naive_solver.
      * intros [= <- <-]. split_and!; [by apply sup_wf_replace|intros; by apply set_running_other|]. left. cbn [running]. apply set_running_same.
Qed.

(** ** Where a transport listens *)

(** What listens for an address that was asked for, under the text it is shown as. *)
Definition listens (k : TransportKind) (h3 : bool) (tasks : list Socket) (asked actual : string) : Prop :=
  exists s, s ∈ tasks /\ actual = socket_to_string (s_addr s) /\ placed asked s /\
    s_proto s = match k with KDoq => Udp | _ => Tcp end /\
    (k = KDoh -> h3 = true -> exists u, u ∈ tasks /\ s_proto u = Udp /\ placed actual u).

Lemma listens_mono k h3 tasks tasks' asked actual :
  tasks ⊆ tasks' -> listens k h3 tasks asked actual -> listens k h3 tasks' asked actual.
Proof.
  intros Hsub (s & H1 & H2 & H3 & H4 & H5). exists s. split_and!; [by apply Hsub|done..|].
  intros Hk Hh. destruct (H5 Hk Hh) as (u & Hu & H). exists u. split; [by apply Hsub|done].
Qed.

Lemma start_one_listens w k st m addr o actual started o' :
  exclusive w -> faithful w -> start_one w k st m addr o = (Ok (actual, started), o') ->
  listens k (enable_h3 st) started addr actual.
Proof.
  intros Hx Hf. unfold start_one.
  assert (forall o p text s, w_bind w o p text = Some s -> s_proto s = p /\ placed text s) as Hb.
  { intros o1 p text s E. split; [by apply Hx in E as [? _]|by eapply Hf]. }
  destruct k.
  - destruct (w_bind w o Tcp addr) as [s|] eqn:E; [|done]. intros [= <- <- _]. destruct (Hb _ _ _ _ E).
    exists s. split_and!; [by left|done..].
  - case_bool_decide; [done|]. destruct (w_bind w o Tcp addr) as [s|] eqn:E; [|done]. destruct (Hb _ _ _ _ E).
    destruct (enable_h3 st); [|intros [= <- <- _]; exists s; split_and!; [by left|done..]].
    destruct (negb _); [done|]. destruct (w_bind w (s :: o) Udp _) as [u|] eqn:Eu; [|done]. intros [= <- <- _].
    exists s. split_and!; [by left|done..|]. intros _ _. destruct (Hb _ _ _ _ Eu). exists u. split; [right; by left|done].
  - destruct (negb _); [done|]. case_bool_decide; [done|]. destruct (w_bind w o Udp addr) as [s|] eqn:E; [|done].
    intros [= <- <- _]. destruct (Hb _ _ _ _ E). exists s. split_and!; [by left|done..].
Qed.

Lemma start_loop_listens w k st m addrs asked tasks bound o r o' :
  exclusive w -> faithful w -> Forall2 (listens k (enable_h3 st) tasks) asked bound ->
  start_loop w k st m addrs tasks bound o = (Ok r, o') ->
  r_settings r = st /\ Forall2 (listens k (enable_h3 st) (r_tasks r)) (asked ++ addrs) (r_bound r).
Proof.
  intros Hx Hf. revert asked tasks bound o. induction addrs as [|addr addrs IH]; intros asked tasks bound o Hl; cbn [start_loop].
  - intros [= <- _]. by rewrite app_nil_r.
  - destruct (start_one w k st m addr o) as [[[actual started]|e] o1] eqn:E; [|done]. intros H.
    apply start_one_listens in E; [|done..]. apply (IH (asked ++ [addr])) in H; [by rewrite <- app_assoc in H|].
    apply Forall2_app; [eapply Forall2_impl; [exact Hl|]; intros x y|apply Forall2_cons_2; [revert E|constructor]];
      apply listens_mono; intros z Hz; apply elem_of_app; auto.
Qed.

Definition listening (k : TransportKind) (st : TransportSettings) (addrs : list string) (r : option Running) : Prop :=
  exists r', r = Some r' /\ r_settings r' = st /\ Forall2 (listens k (enable_h3 st) (r_tasks r')) addrs (r_bound r').

Lemma start_listens w k st m addrs o r o' :
  exclusive w -> faithful w -> start w k st addrs m o = (Ok r, o') -> listening k st addrs (Some r).
Proof. intros Hx Hf H. exists r. split; [done|]. by apply (start_loop_listens w k st m addrs [] [] [] o r o' Hx Hf (Forall2_nil_2 _ _ _)). Qed.

Lemma restart_listens w k prev o r o' :
  exclusive w -> faithful w -> restart_previous w k prev o = (Some r, o') ->
  exists addrs, bind_list_resolve (w_net w) (binds prev) = Ok addrs /\ listening k prev addrs (Some r).
Proof.
  intros Hx Hf. unfold restart_previous. destruct (bind_list_resolve _ _) as [addrs|]; [|done].
  destruct (build_manager _ _ _ _) as [m|]; [|done]. destruct (start w k prev addrs m o) as [[r'|] o1] eqn:E; [|done].
  intros [= -> _]. exists addrs. split; [done|]. by apply (start_listens _ _ _ _ _ _ _ _ Hx Hf E).
Qed.

Lemma apply_listens w1 w2 w3 k st s out s' :
  exclusive w2 -> faithful w2 -> exclusive w3 -> faithful w3 -> apply w1 w2 w3 k st s = (out, s') ->
  match bind_list_resolve (w_net w1) (binds st), out with
  | Ok (a :: addrs), Ok _ => listening k st (a :: addrs) (running s' k)
  | Ok (a :: addrs), Err _ =>
      match build_manager w1 k st (a :: addrs) with
      | Err _ => True
      | Ok _ => running s' k = None \/
          exists prev addrs', current k s = Some prev /\
            bind_list_resolve (w_net w3) (binds prev) = Ok addrs' /\ listening k prev addrs' (running s' k)
      end
  | _, _ => True
  end.
Proof.
  intros Hx2 Hf2 Hx3 Hf3. unfold apply. destruct (bind_list_resolve (w_net w1) (binds st)) as [[|a addrs]|e]; [by destruct out| |done].
  destruct (build_manager w1 k st (a :: addrs)) as [m|e]; [|by intros [= <- _]].
  destruct (start w2 k st (a :: addrs) m _) as [[r|e] o] eqn:Es.
  - intros [= <- <-]. cbn [running]. rewrite set_running_same. by apply (start_listens _ _ _ _ _ _ _ _ Hx2 Hf2 Es).
  - unfold current. destruct (running s k) as [prev|].
    + destruct (restart_previous w3 k (r_settings prev) o) as [[r|] o'] eqn:Er; intros [= <- <-]; cbn [running];
        rewrite set_running_same; [right|by left]. eapply restart_listens in Er as (addrs' & Hb & Hl); [|done..].
      exists (r_settings prev), addrs'. by split_and!.
    + intros [= <- <-]. left. cbn [running]. apply set_running_same.
Qed.

(** C19: a transport can be reconfigured while the server runs. Whatever comes of it, no
    socket is left open that does not belong to a transport that is up, every
    transport listens for each of its addresses in full, HTTP/3 included, and the
    other transports are as they were. Success means that the configuration was
    blank and the transport is down, or that the new configuration runs and each
    address it comes to, in order, has an open socket of the transport's protocol at
    that very address and port (at a port of the system's choice where 0 is asked
    for), and a UDP one beside it for HTTP/3; a configuration that cannot be resolved
    or has no usable certificate is refused with nothing changed; and when a socket
    cannot be had, the transport is down or runs its previous configuration, on the
    addresses that one comes to now, never part of the new. Opening a socket is taken
    to give a new one, where it was asked for. *)
Theorem transport_apply_safe w1 w2 w3 k st s out s' :
  sup_wf s -> exclusive w2 -> faithful w2 -> exclusive w3 -> faithful w3 -> apply w1 w2 w3 k st s = (out, s') ->
  sup_wf s' /\ (forall k', k' <> k -> running s' k' = running s k') /\
  match bind_list_resolve (w_net w1) (binds st), out with
  | Err _, _ => s' = s /\ out <> Ok tt
  | Ok [], _ => out = Ok tt /\ running s' k = None
  | Ok addrs, Ok _ => listening k st addrs (running s' k)
  | Ok addrs, Err _ =>
      match build_manager w1 k st addrs with
      | Err _ => s' = s
      | Ok _ => running s' k = None \/
          exists prev addrs', current k s = Some prev /\
            bind_list_resolve (w_net w3) (binds prev) = Ok addrs' /\ listening k prev addrs' (running s' k)
      end
  end.
Proof.
  intros Hwf Hx2 Hf2 Hx3 Hf3 H. pose proof (apply_listens _ _ _ _ _ _ _ _ Hx2 Hf2 Hx3 Hf3 H) as Hl.
  apply apply_spec in H as (H1 & H2 & H3); [|done..]. split_and!; [done|done|].
  destruct (bind_list_resolve _ _) as [[|a addrs]|]; [done| |done]. destruct out; [done|]. by destruct (build_manager _ _ _ _).
Qed.

(** Starting from nothing, through any calls and polls, these are the states met. *)
Lemma new_supervisor_wf : sup_wf new_supervisor.
Proof. split_and!; [constructor|done|done]. Qed.

Lemma poll_transport_wf w k s : sup_wf s -> sup_wf (poll_transport w k s).
Proof.
  intros (Hn & Ho & Hs). unfold poll_transport. destruct (running s k) as [r|] eqn:Ek; [|done].
  assert (held (set_running k (Some (mkRunning (r_settings r) (r_bound r) (r_tasks r) (poll (r_manager r) w))) (running s)) ≡ₚ held (running s)) as Hp.
  { rewrite held_split, (held_self k (running s)), Ek. done. }
  split_and!; cbn [running open]; [by rewrite Hp|by rewrite Hp|]. intros k' r'. unfold set_running. case_decide as Hk; [|apply Hs].
  intros [= <-]. subst k'. by apply (Hs k r).
Qed.

(** The call of each kind. *)
Definition set_config (auth : AuthConfig) (k : TransportKind) := match k with KDot => set_dot_config auth | KDoh => set_doh_config auth | KDoq => set_doq_config auth end.
Definition get_config (auth : AuthConfig) (k : TransportKind) := match k with KDot => get_dot_config auth | KDoh => get_doh_config auth | KDoq => get_doq_config auth end.

Lemma serves_open k h3 bound tasks text : serves k h3 bound tasks -> text ∈ bound -> exists sock, sock ∈ tasks /\ text = socket_to_string (s_addr sock).
Proof.
  intros (groups & -> & Hf) Hin. induction Hf as [|t g bound groups Hg _ IH]; [set_solver|]. cbn [concat].
  apply elem_of_cons in Hin as [->|Hin]; [|destruct (IH Hin) as (sock & ? & ?); exists sock; set_solver].
  unfold group_for in Hg. destruct k, h3; destruct Hg as (a & Hg); [| |destruct Hg as (-> & b & ->)|destruct Hg as [-> ->]| |];
    try (destruct Hg as [-> ->]); eexists; (split; [apply elem_of_app; left; left|done]).
Qed.

Lemma held_tasks k f r : f k = Some r -> r_tasks r ⊆ held f.
Proof. intros H x Hx. rewrite (held_self k), H. cbn. set_solver. Qed.

Lemma with_auth_ok {A} auth now peer token (body : TransportService -> result A Status * TransportService) s a s' :
  with_auth auth now peer token body s = (Ok a, s') -> exists t, body (mkTransportService t (ts_transports s)) = (Ok a, s').
Proof. unfold with_auth. destruct (check_auth _ _ _ _ _) as [[]]; [|done]. eauto. Qed.

(** What a caller sets is what it is shown, and what runs. After a configuration was
    accepted the call that reads it shows nothing if it was blank, and otherwise the
    certificate files, names and HTTP/3 that were asked for, the flag for generated
    certificates, on when no files were named, and the addresses of sockets that are
    open, whatever interface or free port was asked for. *)
Theorem transport_config_roundtrip auth k w1 w2 w3 now now' peer peer' token token' cfg s sup s1 shown s2 :
  ts_transports s = Some sup -> sup_wf sup -> exclusive w2 -> exclusive w3 ->
  set_config auth k w1 w2 w3 now peer token (Some cfg) s = (Ok tt, s1) ->
  get_config auth k now' peer' token' s1 = (Ok shown, s2) ->
  let asked := binds_of (p_bind cfg) (p_binds cfg) in
  let t := default (mkProtoTls "" "" false []) (p_tls cfg) in
  if bind_list_is_empty asked then shown = None
  else exists sup1 addrs,
    ts_transports s1 = Some sup1 /\ addrs <> [] /\
    shown = Some (mkProtoTransport (default ""%string (head asked)) addrs
      (Some (mkProtoTls (p_cert_path t) (p_key_path t)
         (p_auto_self_signed t || ((p_cert_path t =? "")%string && (p_key_path t =? "")%string)) (p_self_signed_sans t)))
      (match k with KDoh => p_enable_h3 cfg | KDot | KDoq => false end)) /\
    Forall (fun text => exists sock, sock ∈ open sup1 /\ text = socket_to_string (s_addr sock)) addrs.
Proof.
  intros Hsup Hwf Hx2 Hx3 Hset Hget asked t.
  assert (exists sup1, apply w1 w2 w3 k (requested k (Some cfg)) sup = (Ok tt, sup1) /\ ts_transports s1 = Some sup1) as (sup1 & Happ & Hs1).
  { assert (exists a, apply_transport w1 w2 w3 k (requested k (Some cfg)) (mkTransportService a (Some sup)) = (Ok tt, s1)) as [a Ha]
      by (rewrite <- Hsup; destruct k; by apply with_auth_ok in Hset).
    unfold apply_transport in Ha. cbn [ts_transports] in Ha. destruct (apply _ _ _ _ _ sup) as [[[]|] sup1]; simplify_eq/=. eauto. }
  assert (shown = reported k s1) as ->.
  { assert (exists a, (Ok (reported k (mkTransportService a (ts_transports s1))), mkTransportService a (ts_transports s1)) = (Ok (E := Status) shown, s2)) as [a Ha]
      by (destruct k; by apply with_auth_ok in Hget). by simplify_eq/=. }
  destruct (apply_spec _ _ _ _ _ _ _ _ Hwf Hx2 Hx3 Happ) as (Hwf1 & _ & Hcase).
  assert (binds (requested k (Some cfg)) = asked) as Ea by (by destruct k). rewrite Ea in Hcase.
  unfold reported. rewrite Hs1. cbn [mbind option_bind]. unfold current, bound_addrs.
  destruct (bind_list_resolve (w_net w1) asked) as [[|a addrs]|] eqn:Eb; [| |by destruct Hcase as [_ []]].
  - rewrite (proj1 (bind_list_blank _ _ _ Eb) eq_refl). destruct Hcase as [_ ->]. done.
  - assert (bind_list_is_empty asked = false) as -> by (eapply not_blank; done). destruct Hcase as (r & Er & Hset' & Hl).
    rewrite Er. cbn. destruct Hwf1 as (_ & Ho & Hs). destruct (Hs k r Er) as (Hserve & Hne & _). exists sup1, (r_bound r). split_and!; [done|done| |].
    + rewrite Hset'. unfold first_bind. rewrite Ea. f_equal. f_equal; [|by destruct k].
      destruct k; cbn; unfold tls_to_proto, non_empty; cbn; fold t;
        destruct (String.eqb_spec (p_cert_path t) ""), (String.eqb_spec (p_key_path t) ""); cbn; congruence.
    + apply Forall_forall. intros text Hin. destruct (serves_open _ _ _ _ _ Hserve Hin) as (sock & Hsock & ->). exists sock. split; [|done].
      rewrite Ho. by apply (held_tasks k (running sup1) r Er).
Qed.
End Supervision.

(** * At boot *)

(** The transports of the configuration file go up by the same operation; a failure
    is logged and the next one is tried. *)
Definition start_transports `{TL : !TlsLib} (w : World) (dot : option DotConfig) (doh : option DohConfig) (doq : option DoqConfig) (s : Supervisor) : Supervisor :=
  let wanted := omap id [
    (fun c => (KDot, mkSettings (dot_bind c) (dot_tls c) false)) <$> dot;
    (fun c => (KDoh, with_h3 (doh_enable_h3 c) (mkSettings (doh_bind c) (doh_tls c) false))) <$> doh;
    (fun c => (KDoq, mkSettings (doq_bind c) (doq_tls c) false)) <$> doq] in
  foldl (fun s '(k, st) => (apply w w w k st s).2) s wanted.

Lemma start_transports_wf `{TL : !TlsLib} w dot doh doq s : exclusive w -> sup_wf s -> sup_wf (start_transports w dot doh doq s).
Proof.
  intros Hx. unfold start_transports. generalize (omap id [
    (fun c => (KDot, mkSettings (dot_bind c) (dot_tls c) false)) <$> dot;
    (fun c => (KDoh, with_h3 (doh_enable_h3 c) (mkSettings (doh_bind c) (doh_tls c) false))) <$> doh;
    (fun c => (KDoq, mkSettings (doq_bind c) (doq_tls c) false)) <$> doq]). intros l.
  revert s. induction l as [|[k st] l IH]; intros s Hs; [done|]. cbn [foldl]. apply IH.
  destruct (apply w w w k st s) as [out s'] eqn:E. by apply (apply_spec _ _ _ _ _ _ _ _ Hs Hx Hx) in E as [? _].
Qed.

(** * Instances *)

(** A certificate that is its octets, whose key matches if it is the same. *)
#[export] Instance sample_tls : TlsLib := {|
  Pair := list Z * list Z;
  parse_pem_pair c k := match c with [] => None | _ => Some (c, k) end;
  key_matches p := bool_decide (p.1 = p.2);
  quic_usable _ := true;
  digest bs := bs;
|}.

Definition sample_bind (o : list Socket) (p : Proto) (text : string) : option Socket :=
  a ← parse_socket_addr text;
  let s := mkSock p (mkSocket (so_ip a) (if so_port a =? 0 then 40000 else so_port a)) in
  if bool_decide (s ∈ o) then None else Some s.

(** A host whose certificate file is as given, with a key of [7]. *)
Definition sample_world (cert : list Z) : World :=
  mkWorld sample_net (fun _ => true) (fun path => if (path =? "/cert")%string then Some cert else if (path =? "/key")%string then Some [7] else None)
    (fun _ => Some ([1], [1])) sample_bind.

Lemma sample_exclusive cert : exclusive (sample_world cert).
Proof.
  intros o p text s H. unfold sample_world, sample_bind in H. cbn in H. destruct (parse_socket_addr text) as [a|]; [|done]. cbn in H.
  case_bool_decide; [done|]. by simplify_eq.
Qed.

Lemma sample_faithful cert : faithful (sample_world cert).
Proof.
  intros o p text s H a Ha. unfold sample_world, sample_bind in H. cbn in H. rewrite Ha in H. cbn in H.
  case_bool_decide; [done|]. simplify_eq. cbn. split; [done|]. destruct (so_port a =? 0) eqn:E; [left; by apply Z.eqb_eq|by right].
Qed.

Lemma sample_small cert : Z.of_nat (length cert) < 2 ^ 64 -> small_files (sample_world cert).
Proof. intros H path data. cbn. repeat case_match; intros; simplify_eq; [done|cbn; lia]. Qed.

Definition sample_tls_config : TlsConfig := mkTls (Some "/cert"%string) (Some "/key"%string) true [].

(** First the wrong certificate is on disk, then none that parses, then the right one. *)
Lemma renewed_certificate_served_witness :
  exists m, new_manager (sample_world [7]) sample_tls_config ["dot"%string] = Ok m /\
    sc_pair (tm_served (foldl poll m [sample_world [8]; sample_world []])) = ([7], [7]) /\
    sc_pair (tm_served (poll (foldl poll m [sample_world [8]; sample_world []]) (sample_world [7]))) = ([7], [7]).
Proof.
  eexists. split; [reflexivity|]. split; [vm_compute; reflexivity|].
  destruct (renewed_certificate_served (sample_world [7]) sample_tls_config ["dot"%string] _ [sample_world [8]; sample_world []] (sample_world [7])
    "/cert" "/key" ltac:(repeat (apply List.Forall_cons; [apply sample_small; vm_compute; reflexivity|]); apply List.Forall_nil) eq_refl eq_refl eq_refl)
    as (_ & _ & _ & H).
  rewrite (H [7] [7] ([7], [7]) eq_refl eq_refl eq_refl eq_refl eq_refl (fun c k E => E)). reflexivity.
Defined.

Definition sample_settings : TransportSettings := mkSettings ["eth0:443"; "lo:0"]%string default_tls true.

Lemma transport_apply_safe_witness :
  exists s' a b, apply (sample_world []) (sample_world []) (sample_world []) KDoh sample_settings new_supervisor = (Ok tt, s') /\ sup_wf s' /\
    bind_list_resolve sample_net (binds sample_settings) = Ok [a; b] /\ listening KDoh sample_settings [a; b] (running s' KDoh) /\
    bound_addrs KDoh s' = ["192.168.1.5:443"; "[::1]:40000"]%string /\ length (open s') = 4%nat.
Proof.
  eexists _, _, _. split; [vm_compute; reflexivity|].
  match goal with |- sup_wf ?x /\ _ => destruct (transport_apply_safe (sample_world []) (sample_world []) (sample_world []) KDoh
    sample_settings new_supervisor (Ok tt) x new_supervisor_wf (sample_exclusive _) (sample_faithful _) (sample_exclusive _)
    (sample_faithful _) ltac:(vm_compute; reflexivity)) as (H1 & _ & H2) end.
  split; [exact H1|]. split; [vm_compute; reflexivity|]. split; [exact H2|]. split; reflexivity.
Defined.

Definition sample_cfg : ProtoTransport := mkProtoTransport "" ["primary:853"%string] None true.

Lemma transport_config_roundtrip_witness :
  exists s1 s2 shown,
    set_config (mkAuth "" false) KDoq (sample_world []) (sample_world []) (sample_world []) 0 None "" (Some sample_cfg)
      (mkTransportService ∅ (Some new_supervisor)) = (Ok tt, s1) /\
    get_config (mkAuth "" false) KDoq 0 None "" s1 = (Ok (Some shown), s2) /\ p_enable_h3 shown = false /\ p_binds shown <> [].
Proof.
  eexists _, _, _. split; [vm_compute; reflexivity|]. split; [reflexivity|].
  pose proof (transport_config_roundtrip (mkAuth "" false) KDoq (sample_world []) (sample_world []) (sample_world []) 0 0 None None "" "" sample_cfg
    (mkTransportService ∅ (Some new_supervisor)) new_supervisor _ _ _ eq_refl new_supervisor_wf (sample_exclusive _) (sample_exclusive _) eq_refl eq_refl) as H.
  cbn zeta in H. cbn [binds_of sample_cfg bind_list_is_empty] in H. destruct H as (sup1 & addrs & _ & Hne & E & _). vm_compute in E. injection E as E.
  split; [reflexivity|]. done.
Defined.
