(* ===== verification/Control.v ===== *)
(** The control plane ([src/src/grpc_service.rs]): each call authenticates, validates
    its request, changes the stores and drops what was cached from them. The calls on
    the transports are in [Transports], those on the certificate authority in [Acme],
    the others in [Admin]; the metrics that follow a change are left out. *)

From S2P Require Import Prelude Dnsbl RustStr Names Ip Records Rrsig DnsCache ZoneStore Scopes Database Leases.
From S2P Require Import Forwarder Tiers Rdata Svcb ZoneSigner Message Negative Upstream Server Auth.
From stdpp Require Import base gmap sets list option strings.
From Stdlib Require Import ZArith Lia Bool Ascii.

Open Scope Z_scope.
Local Open Scope rolodex_scope.

(** * Messages *)

Record ProtoRecord := mkProto {
  pr_name : string;
  pr_type : Z;
  pr_value : string;
  pr_ttl : Z;
  pr_priority : Z;
}.

Record ProtoProvider := mkProtoProvider {
  pp_zone : string;
  pp_enabled : bool;
  pp_refusal_codes : list string;
  pp_cooldown_secs : Z;
}.

Record ProtoScope := mkProtoScope { ps_name : string; ps_home_domain : string; ps_tlds : list string }.

Inductive Reply :=
  | Ack (success : bool) (message : string)
  | Removed (count : Z)
  | Records (records : list ProtoRecord)
  | ModeIs (mode : string)
  | DnsblIs (enabled : bool) (providers : list ProtoProvider) (cooldown_secs : Z) (rotated : list (string * string * Z))
  | ScopesAre (scopes : list ProtoScope)
  | Texts (l : list string)
  | Dns64Is (enabled : bool) (prefix : string)
  | PoolsAre (pools : list DhcpPool)
  | LeasesAre (leases : list DhcpLease)
  | OptionsAre (options : list DhcpCertOption).

Definition done : Reply := Ack true "".

(** * Helpers of the handlers *)

Definition build_rbl_provider (p : ProtoProvider) : result DnsblProvider string :=
  codes <-? resolve_refusal_codes (pp_refusal_codes p);
  Ok (mkProvider (pp_zone p) (pp_enabled p) codes
        (if 0 <? pp_cooldown_secs p then Some (from_secs (pp_cooldown_secs p)) else None)).

Fixpoint build_providers (ps : list ProtoProvider) : result (list DnsblProvider) string :=
  match ps with
  | [] => Ok []
  | p :: ps' => x <-? build_rbl_provider p; xs <-? build_providers ps'; Ok (x :: xs)
  end.

Definition cooldown_secs (cooldown : option Z) : Z :=
  match cooldown with Some d => as_u 32 (as_secs d) | None => 0 end.

Definition provider_proto (p : DnsblProvider) : ProtoProvider :=
  mkProtoProvider (p_zone p) (p_enabled p) (refusal_code_strings p) (cooldown_secs (p_cooldown p)).

Definition record_proto (r : DnsRecord) : ProtoRecord :=
  mkProto (r_name r) (to_proto_i32 (r_type r)) (r_value r) (r_ttl r) (r_priority r).

Definition non_empty (s : string) : option string := if (s =? "")%string then None else Some s.

Definition ttl_or_default (ttl : Z) : Z := if ttl =? 0 then 300 else ttl.

Definition parse_mode (mode : string) : option ResolutionMode :=
  let m := to_lowercase mode in
  if (m =? "auto")%string then Some Auto
  else if (m =? "recursive")%string then Some Recursive
  else if (m =? "forward")%string then Some Forward else None.

Definition show_mode (m : ResolutionMode) : string :=
  match m with Auto => "auto" | Recursive => "recursive" | Forward => "forward" end.

Definition DEFAULT_DNS64_PREFIX : Z := Z.shiftl 100 112 + Z.shiftl 65435 96.

Section Control.
Context {L : DnsLib} {Out : Outside L} {RG : Ring}.
(** Which names the TLS library takes for a server name. *)
Context (server_name_ok : string -> bool).
Context (auth : AuthConfig) (auto_ptr : bool).

Record Service := mkService {
  v_db : Database;
  v_leases : LeaseStore;
  v_up : Upstreams;
  v_config : Config;
  v_dnsbl : DnsblChecker;
  v_listeners : gset IpAddr;
  v_auth : AuthTable;
}.

Definition set_db (d : Database) (s : Service) : Service :=
  mkService d (v_leases s) (v_up s) (v_config s) (v_dnsbl s) (v_listeners s) (v_auth s).
Definition set_zones (z : ZoneStore) (s : Service) : Service :=
  set_db (mkDb z (scopes (v_db s)) (lists (v_db s))) s.
Definition set_scopes (x : ScopeStore) (s : Service) : Service :=
  set_db (mkDb (zones (v_db s)) x (lists (v_db s))) s.
Definition set_lists (l : ListStore) (s : Service) : Service :=
  set_db (mkDb (zones (v_db s)) (scopes (v_db s)) l) s.
Definition set_lease_store (l : LeaseStore) (s : Service) : Service :=
  mkService (v_db s) l (v_up s) (v_config s) (v_dnsbl s) (v_listeners s) (v_auth s).
Definition set_up (u : Upstreams) (s : Service) : Service :=
  mkService (v_db s) (v_leases s) u (v_config s) (v_dnsbl s) (v_listeners s) (v_auth s).
Definition set_cfg (c : Config) (s : Service) : Service :=
  mkService (v_db s) (v_leases s) (v_up s) c (v_dnsbl s) (v_listeners s) (v_auth s).
Definition set_dnsbl (d : DnsblChecker) (s : Service) : Service :=
  mkService (v_db s) (v_leases s) (v_up s) (v_config s) d (v_listeners s) (v_auth s).
Definition set_ingress (l : gset IpAddr) (s : Service) : Service :=
  mkService (v_db s) (v_leases s) (v_up s) (v_config s) (v_dnsbl s) l (v_auth s).
Definition set_auth (t : AuthTable) (s : Service) : Service :=
  mkService (v_db s) (v_leases s) (v_up s) (v_config s) (v_dnsbl s) (v_listeners s) t.

(** [dns_server.flush_cache]. *)
Definition flush_response_cache (s : Service) : Service :=
  set_up (set_u_cache (DnsCache.flush <$> u_cache (v_up s)) (v_up s)) s.

Definition Handler : Type := Service -> result Reply Status * Service.

Definition refuse (e : Status) : Handler := fun s => (Err e, s).
Definition reply (r : Reply) : Handler := fun s => (Ok r, s).
Definition missing (what : string) : Handler := refuse (InvalidArgument (what +:+ " is required")).

(** [check_auth] with the caller's address, before anything else of a handler. *)
Definition authed (now : Z) (peer : option IpAddr) (token : string) (body : Handler) : Handler := fun s =>
  match check_auth auth now peer token (v_auth s) with
  | (Err e, t) => (Err e, set_auth t s)
  | (Ok _, t) => body (set_auth t s)
  end.

(** ** Records *)

(** The address of a forward record. *)
Definition forward_ip (kind : RecordKind) (value : string) : option IpAddr :=
  match kind with A => V4 <$> parse_v4 value | AAAA => V6 <$> parse_v6 value | _ => None end.

Definition auto_ptr_record (fwd_name : string) (kind : RecordKind) (value : string) (ttl : Z) : option DnsRecord :=
  if negb auto_ptr then None
  else
    ip ← forward_ip kind value;
    Some (mkRecord None (reverse_ptr_name ip) PTR (normalize_name fwd_name) ttl 0).

Definition ptr_records_to_remove (records : list DnsRecord) (type_filter : option RecordKind) (value_filter : string)
  : list DnsRecord :=
  omap (fun r =>
    if match r_type r with A | AAAA => true | _ => false end &&
       match type_filter with Some t => bool_decide (t = r_type r) | None => true end &&
       ((value_filter =? "")%string || (r_value r =? value_filter)%string)
    then auto_ptr_record (r_name r) (r_type r) (r_value r) (r_ttl r) else None) records.

(** Only SVCB and HTTPS values are looked at. *)
Definition validate_record_value (kind : RecordKind) (value : string) : bool :=
  match kind with
  | SVCB | HTTPS => bool_decide (is_Some (svcb_parse value))
  | _ => true
  end.

Definition add_record_rpc (record : option ProtoRecord) : Handler := fun s =>
  match record with
  | None => missing "record" s
  | Some r =>
      match from_proto_i32 (pr_type r) with
      | None => refuse (InvalidArgument "invalid record type") s
      | Some kind =>
          if negb (validate_record_value kind (pr_value r)) then refuse (InvalidArgument "invalid value") s
          else
            let ttl := ttl_or_default (pr_ttl r) in
            let z := (add_record (mkRecord None (pr_name r) kind (pr_value r) ttl (pr_priority r)) (zones (v_db s))).2 in
            let z := match auto_ptr_record (pr_name r) kind (pr_value r) ttl with
                     | Some ptr => (add_record ptr z).2
                     | None => z
                     end in
            reply done (flush_response_cache (set_zones z s))
      end
  end.

Definition remove_record_rpc (name : string) (record_type : Z) (value : string) : Handler := fun s =>
  let kind := from_proto_i32 record_type in
  let z := zones (v_db s) in
  let targets := if auto_ptr then ptr_records_to_remove (ZoneStore.lookup z name None) kind value else [] in
  let (count, z) := remove_records name kind value z in
  let z := foldl (fun z ptr => (remove_records (r_name ptr) (Some PTR) (r_value ptr) z).2) z targets in
  reply (Removed (as_u 32 (Z.of_nat count))) (flush_response_cache (set_zones z s)).

Definition list_records_rpc (name_filter : string) (filter_by_type : bool) (type_filter : Z) : Handler := fun s =>
  let kind := if filter_by_type then from_proto_i32 type_filter else None in
  reply (Records (record_proto <$> list_records name_filter kind (zones (v_db s)))) s.

(** ** Resolution *)

(** Each forwarder comes with a breaker of its own. *)
Fixpoint parse_specs (fresh : nat) (specs : list string) : option (list Forwarder) :=
  match specs with
  | [] => Some []
  | spec :: specs' =>
      match parse_forwarder server_name_ok fresh spec, parse_specs (S fresh) specs' with
      | Ok f, Some fs => Some (f :: fs)
      | _, _ => None
      end
  end.

Definition set_forwarders_rpc (specs : list string) : Handler := fun s =>
  let u := v_up s in
  match parse_specs (length (u_health u)) specs with
  | None => refuse (InvalidArgument "invalid forwarder") s
  | Some fs =>
      let u := set_u_health (u_health u ++ replicate (length specs) new_health) u in
      reply done (set_up (set_typed_forwarders fs u) s)
  end.

Definition set_resolution_mode (m : ResolutionMode) (u : Upstreams) : Upstreams :=
  let c := u_chain u in
  set_chain (mkChain m (active_tier c) (deviation_streak c) (switch_grace_failures c) (learned c)) u.

Definition set_resolution_mode_rpc (mode : string) : Handler := fun s =>
  match parse_mode mode with
  | None => refuse (InvalidArgument "invalid resolution mode") s
  | Some m => reply done (set_up (set_resolution_mode m (v_up s)) s)
  end.

Definition get_resolution_mode_rpc : Handler := fun s =>
  reply (ModeIs (show_mode (resolution_mode (u_chain (v_up s))))) s.

(** ** Blocklist *)

Definition set_dnsbl_config_rpc (enabled : bool) (providers : list ProtoProvider) (cooldown : Z) : Handler := fun s =>
  match build_providers providers with
  | Err _ => refuse (InvalidArgument "blocklist provider") s
  | Ok ps =>
      let d := Dnsbl.set_config enabled ps (set_refusal_cooldown cooldown (v_dnsbl s)) in
      reply done (flush_response_cache (set_dnsbl d s))
  end.

Definition get_dnsbl_config_rpc (now : Z) : Handler := fun s =>
  let '(enabled, providers) := get_config (v_dnsbl s) in
  let (rotated, d) := rotated_out now (v_dnsbl s) in
  reply (DnsblIs enabled (provider_proto <$> providers) (as_u 32 (as_secs (refusal_cooldown (v_dnsbl s))))
           ((fun r => (r.1, as_u 32 r.2)) <$> rotated))
    (set_dnsbl d s).

Definition flush_cache_rpc : Handler := fun s => reply done (set_dnsbl (Dnsbl.flush_cache (v_dnsbl s)) s).

(** ** Networks *)

(** The TLDs given with a new scope, until one is refused. *)
Fixpoint register_tlds (scope_name : string) (tlds : list string) (x : ScopeStore) : bool * ScopeStore :=
  match tlds with
  | [] => (true, x)
  | tld :: tlds' =>
      match add_scope_tld scope_name tld x with
      | Err _ => (false, x)
      | Ok x => register_tlds scope_name tlds' x
      end
  end.

Definition create_network_scope_rpc (scope : option ProtoScope) : Handler := fun s =>
  match scope with
  | None => missing "scope" s
  | Some sc =>
      if (ps_name sc =? "")%string then missing "scope name" s
      else
        let home := match non_empty (ps_home_domain sc) with Some h => h | None => ps_name sc +:+ ".home" end in
        match create_network_scope (mkScope (ps_name sc) home) (scopes (v_db s)) with
        | Err _ => reply (Ack false "failed to create scope") s
        | Ok x =>
            match register_tlds (ps_name sc) (ps_tlds sc) x with
            | (false, x) => reply (Ack false "scope created but tld failed") (set_scopes x s)
            | (true, x) => reply done (flush_response_cache (set_scopes x s))
            end
        end
  end.

Definition delete_network_scope_rpc (name : string) : Handler := fun s =>
  if (name =? "")%string then missing "scope name" s
  else
    let (found, x) := delete_network_scope name (scopes (v_db s)) in
    reply (if found then done else Ack false "not found") (set_scopes x s).

Definition list_network_scopes_rpc : Handler := fun s =>
  let x := scopes (v_db s) in
  reply (ScopesAre ((fun sc => mkProtoScope (sc_name sc) (sc_home_domain sc) (list_scope_tlds x (sc_name sc))) <$> network_scopes x)) s.

Definition join_network_rpc (now wall : Z) (ip scope_name : string) (ttl_seconds : Z) : Handler := fun s =>
  if (ip =? "")%string then missing "ip_address" s
  else if (scope_name =? "")%string then missing "scope_name" s
  else
    let assoc := mkAssoc ip scope_name (ttl_or_default ttl_seconds) in
    reply done (set_scopes (join_network now wall assoc (scopes (v_db s))) s).

Definition leave_network_rpc (ip : string) : Handler := fun s =>
  if (ip =? "")%string then missing "ip_address" s
  else
    let (found, x) := leave_network ip (scopes (v_db s)) in
    reply (if found then done else Ack false "no association found") (set_scopes x s).

Definition add_scoped_record_rpc (scope_name : string) (record : option ProtoRecord) : Handler := fun s =>
  if (scope_name =? "")%string then missing "scope_name" s
  else match record with
  | None => missing "record" s
  | Some r =>
      match from_proto_i32 (pr_type r) with
      | None => refuse (InvalidArgument "invalid record type") s
      | Some kind =>
          if negb (validate_record_value kind (pr_value r)) then refuse (InvalidArgument "invalid value") s
          else
            let ttl := ttl_or_default (pr_ttl r) in
            let x := (add_scoped_record scope_name (mkRecord None (pr_name r) kind (pr_value r) ttl (pr_priority r))
                        (scopes (v_db s))).2 in
            let x := match auto_ptr_record (pr_name r) kind (pr_value r) ttl with
                     | Some ptr => (add_scoped_record scope_name ptr x).2
                     | None => x
                     end in
            reply done (flush_response_cache (set_scopes x s))
      end
  end.

Definition remove_scoped_record_rpc (scope_name name : string) (record_type : Z) (value : string) : Handler := fun s =>
  if (scope_name =? "")%string then missing "scope_name" s
  else
    let kind := from_proto_i32 record_type in
    let x := scopes (v_db s) in
    let targets := if auto_ptr then ptr_records_to_remove (lookup_scoped x scope_name name None) kind value else [] in
    let (count, x) := remove_scoped_records scope_name name kind value x in
    let x := foldl (fun x ptr => (remove_scoped_records scope_name (r_name ptr) (Some PTR) (r_value ptr) x).2) x targets in
    reply (Removed (as_u 32 (Z.of_nat count))) (flush_response_cache (set_scopes x s)).

Definition get_search_domains_rpc (now : Z) (ip : string) : Handler := fun s =>
  if (ip =? "")%string then missing "ip_address" s
  else
    let (domains, x) := get_search_domains now ip (scopes (v_db s)) in
    reply (Texts domains) (set_scopes x s).

(** The address is read before anything is stored; a listener is started for it. *)
Definition add_scope_tld_rpc (scope_name tld listen_ip : string) : Handler := fun s =>
  if (scope_name =? "")%string then missing "scope_name" s
  else if (tld =? "")%string then missing "tld" s
  else
    let register (ip : option IpAddr) : result Reply Status * Service :=
      match add_scope_tld scope_name tld (scopes (v_db s)) with
      | Err _ => reply (Ack false "tld refused") s
      | Ok x =>
          match ip with
          | None => reply done (flush_response_cache (set_scopes x s))
          | Some ip =>
              match set_tld_listener scope_name tld ip x with
              | Err _ => reply (Ack false "listener refused") (set_scopes x s)
              | Ok x => reply done (flush_response_cache (set_ingress ({[ip]} ∪ v_listeners s) (set_scopes x s)))
              end
          end
      end in
    if (listen_ip =? "")%string then register None
    else match parse_ip listen_ip with
         | None => reply (Ack false "invalid listen_ip") s
         | Some ip => register (Some ip)
         end.

(** The listener goes with the last zone that was served on its address. *)
Definition remove_scope_tld_rpc (scope_name tld : string) : Handler := fun s =>
  if (scope_name =? "")%string then missing "scope_name" s
  else
    let ingress := get_tld_ingress (scopes (v_db s)) tld in
    match remove_scope_tld scope_name tld (scopes (v_db s)) with
    | Err _ => reply (Ack false "tld refused") s
    | Ok (false, x) => reply (Ack false "not found") (set_scopes x s)
    | Ok (true, x) =>
        let s := set_scopes x s in
        let s := match ingress with
                 | Some ip =>
                     if bool_decide (ip ∈ list_all_tld_ingress_ips x) then s else set_ingress (v_listeners s ∖ {[ip]}) s
                 | None => s
                 end in
        reply done (flush_response_cache s)
    end.

Definition list_scope_tlds_rpc (scope_name : string) : Handler := fun s =>
  if (scope_name =? "")%string then missing "scope_name" s
  else reply (Texts (list_all_owned_tlds (scopes (v_db s)) scope_name)) s.

Definition set_scope_tld_forwarders_rpc (scope_name tld : string) (forwarders : list string) : Handler := fun s =>
  if (scope_name =? "")%string then missing "scope_name" s
  else if (tld =? "")%string then missing "tld" s
  else match set_scope_tld_forwarders scope_name tld forwarders (scopes (v_db s)) with
       | Err _ => reply (Ack false "forwarders refused") s
       | Ok x => reply done (flush_response_cache (set_scopes x s))
       end.

Definition list_scope_tld_forwarders_rpc (scope_name tld : string) : Handler := fun s =>
  if (scope_name =? "")%string then missing "scope_name" s
  else reply (Texts (list_scope_tld_forwarders (scopes (v_db s)) scope_name tld)) s.

(** ** Lists *)

Definition add_authoritative_zone_rpc (zone : string) : Handler := fun s =>
  if (zone =? "")%string then missing "zone" s
  else reply done (set_lists (add_authoritative_zone zone (lists (v_db s))) s).

Definition remove_authoritative_zone_rpc (zone : string) : Handler := fun s =>
  if (zone =? "")%string then missing "zone" s
  else
    let (found, l) := remove_authoritative_zone zone (lists (v_db s)) in
    reply (if found then done else Ack false "not found") (set_lists l s).

Definition flush_dns_cache_rpc : Handler := fun s => reply done (flush_response_cache s).

Definition add_local_blocklist_entry_rpc (entry : option (string * string)) : Handler := fun s =>
  match entry with
  | None => missing "entry" s
  | Some (name, reason) =>
      if (name =? "")%string then missing "entry name" s
      else reply done (set_lists (add_local_blocklist_entry name reason (lists (v_db s))) s)
  end.

Definition remove_local_blocklist_entry_rpc (name : string) : Handler := fun s =>
  if (name =? "")%string then missing "name" s
  else
    let (found, l) := remove_local_blocklist_entry name (lists (v_db s)) in
    reply (if found then done else Ack false "not found") (set_lists l s).

Definition add_dnsbl_allowlist_entry_rpc (entry : option (string * string)) : Handler := fun s =>
  match entry with
  | None => missing "entry" s
  | Some (name, reason) =>
      if (str_trim name =? "")%string then missing "entry name" s
      else match add_dnsbl_allowlist_entry name reason (lists (v_db s)) with
           | Err _ => reply (Ack false "failed to add DNSBL allowlist entry") s
           | Ok l => reply done (set_lists l s)
           end
  end.

Definition remove_dnsbl_allowlist_entry_rpc (name : string) : Handler := fun s =>
  if (str_trim name =? "")%string then missing "name" s
  else
    let (found, l) := remove_dnsbl_allowlist_entry name (lists (v_db s)) in
    reply (if found then done else Ack false "not found") (set_lists l s).

(** ** Signing *)

Definition delete_dnssec_key_rpc (key_id : Z) : Handler := fun s =>
  let z := zones (v_db s) in
  let (deleted, sg) := delete_dnssec_key key_id (signing z) in
  reply (if deleted then done else Ack false "key not found") (set_zones (set_signing (fun _ => sg) z) s).

(** A failure of the pass is reported after what it changed. *)
Definition sign_zone_rpc (clock : option Z) (zone : string) : Handler := fun s =>
  match sign_zone svcb_canonical_rdata clock zone (zones (v_db s)) with
  | (Err e, z) => refuse (Internal e) (set_zones z s)
  | (Ok (NotSigned why), z) => reply (Ack false why) (set_zones z s)
  | (Ok (Signed summary), z) =>
      let skipped := match su_skipped summary with
                     | [] => ""
                     | l => "skipped " +:+ show_dec (Z.of_nat (length l)) +:+
                            " RRset(s) with no canonical wire form: " +:+ str_join ", " l
                     end in
      let warned := match su_warnings summary with
                    | [] => ""
                    | l => (if (skipped =? "")%string then "" else "; ") +:+ str_join "; " l
                    end in
      reply (Ack true (skipped +:+ warned)) (flush_response_cache (set_zones z s))
  end.

(** ** DNS64 *)

Definition set_dns64_config (enabled : bool) (prefix : Z) (c : Config) : Config :=
  mkConfig (overlay_cidrs c) (recursion_cidrs c) enabled prefix (answers_v4 c) (answers_v6 c).

Definition set_dns64_config_rpc (config : option (bool * string)) : Handler := fun s =>
  match config with
  | None => missing "config" s
  | Some (enabled, prefix) =>
      let p := if (str_trim prefix =? "")%string then Some DEFAULT_DNS64_PREFIX else parse_v6 (str_trim prefix) in
      match p with
      | None => refuse (InvalidArgument "invalid DNS64 prefix") s
      | Some p => reply done (set_cfg (set_dns64_config enabled p (v_config s)) s)
      end
  end.

Definition get_dns64_config_rpc : Handler := fun s =>
  reply (Dns64Is (dns64_enabled (v_config s)) (show_v6 (dns64_prefix (v_config s)))) s.

(** ** DHCP *)

(** The pool as it is sent, with empty strings for what is absent. *)
Definition add_dhcp_pool_rpc (pool : option DhcpPool) : Handler := fun s =>
  match pool with
  | None => missing "pool" s
  | Some p =>
      let mask := default "255.255.255.0" (non_empty (pool_subnet_mask p)) in
      let row := mkPool 0 (pool_scope p) (range_start p) (range_end p) (pool_gateway p ≫= non_empty) mask
                   (pool_dns_servers p ≫= non_empty) in
      reply done (set_lease_store (add_dhcp_pool row (v_leases s)).2 s)
  end.

Definition remove_dhcp_pool_rpc (id : Z) : Handler := fun s =>
  let (found, l) := remove_dhcp_pool id (v_leases s) in
  reply (if found then done else Ack false "pool not found") (set_lease_store l s).

Definition list_dhcp_pools_rpc (scope_name : string) : Handler := fun s =>
  reply (PoolsAre (list_dhcp_pools (non_empty scope_name) (v_leases s))) s.

Definition list_dhcp_leases_rpc (scope_name : string) : Handler := fun s =>
  reply (LeasesAre (list_leases (non_empty scope_name) (v_leases s))) s.

Definition delete_dhcp_lease_rpc (mac : string) : Handler := fun s =>
  if (mac =? "")%string then missing "mac" s
  else
    let (found, l) := delete_lease mac (v_leases s) in
    reply (if found then done else Ack false "lease not found") (set_lease_store l s).

Definition set_dhcp_cert_option_rpc (opt : option DhcpCertOption) : Handler := fun s =>
  match opt with
  | None => missing "option" s
  | Some o =>
      let row := mkCertOption (co_scope o) (co_code o) (co_data o) (co_description o ≫= non_empty) in
      reply done (set_lease_store (set_dhcp_cert_option row (v_leases s)) s)
  end.

Definition remove_dhcp_cert_option_rpc (scope_name : string) (code : Z) : Handler := fun s =>
  let (found, l) := remove_dhcp_cert_option scope_name code (v_leases s) in
  reply (if found then done else Ack false "option not found") (set_lease_store l s).

Definition list_dhcp_cert_options_rpc (scope_name : string) : Handler := fun s =>
  reply (OptionsAre (list_dhcp_cert_options scope_name (v_leases s))) s.

(** * The service *)

Inductive Rpc :=
  | AddRecord (record : option ProtoRecord)
  | RemoveRecord (name : string) (record_type : Z) (value : string)
  | ListRecords (name_filter : string) (filter_by_type : bool) (type_filter : Z)
  | SetForwarders (specs : list string)
  | SetResolutionMode (mode : string)
  | GetResolutionMode
  | SetDnsblConfig (enabled : bool) (providers : list ProtoProvider) (cooldown : Z)
  | GetDnsblConfig
  | FlushCache
  | CreateNetworkScope (scope : option ProtoScope)
  | DeleteNetworkScope (name : string)
  | ListNetworkScopes
  | JoinNetwork (ip scope_name : string) (ttl_seconds : Z)
  | LeaveNetwork (ip : string)
  | AddScopedRecord (scope_name : string) (record : option ProtoRecord)
  | RemoveScopedRecord (scope_name name : string) (record_type : Z) (value : string)
  | GetSearchDomains (ip : string)
  | AddScopeTld (scope_name tld listen_ip : string)
  | RemoveScopeTld (scope_name tld : string)
  | ListScopeTlds (scope_name : string)
  | SetScopeTldForwarders (scope_name tld : string) (forwarders : list string)
  | ListScopeTldForwarders (scope_name tld : string)
  | AddAuthoritativeZone (zone : string)
  | RemoveAuthoritativeZone (zone : string)
  | FlushDnsCache
  | AddLocalBlocklistEntry (entry : option (string * string))
  | RemoveLocalBlocklistEntry (name : string)
  | AddDnsblAllowlistEntry (entry : option (string * string))
  | RemoveDnsblAllowlistEntry (name : string)
  | DeleteDnssecKey (key_id : Z)
  | SignZone (zone : string)
  | SetDns64Config (config : option (bool * string))
  | GetDns64Config
  | AddDhcpPool (pool : option DhcpPool)
  | RemoveDhcpPool (id : Z)
  | ListDhcpPools (scope_name : string)
  | ListDhcpLeases (scope_name : string)
  | DeleteDhcpLease (mac : string)
  | SetDhcpCertOption (opt : option DhcpCertOption)
  | RemoveDhcpCertOption (scope_name : string) (code : Z)
  | ListDhcpCertOptions (scope_name : string).

(** The instant, the Unix time, and the clock the signer reads. *)
Context (now wall : Z) (clock : option Z).

Definition handle (rpc : Rpc) : Handler :=
  match rpc with
  | AddRecord r => add_record_rpc r
  | RemoveRecord n t v => remove_record_rpc n t v
  | ListRecords n b t => list_records_rpc n b t
  | SetForwarders l => set_forwarders_rpc l
  | SetResolutionMode m => set_resolution_mode_rpc m
  | GetResolutionMode => get_resolution_mode_rpc
  | SetDnsblConfig e ps c => set_dnsbl_config_rpc e ps c
  | GetDnsblConfig => get_dnsbl_config_rpc now
  | FlushCache => flush_cache_rpc
  | CreateNetworkScope sc => create_network_scope_rpc sc
  | DeleteNetworkScope n => delete_network_scope_rpc n
  | ListNetworkScopes => list_network_scopes_rpc
  | JoinNetwork ip sc ttl => join_network_rpc now wall ip sc ttl
  | LeaveNetwork ip => leave_network_rpc ip
  | AddScopedRecord sc r => add_scoped_record_rpc sc r
  | RemoveScopedRecord sc n t v => remove_scoped_record_rpc sc n t v
  | GetSearchDomains ip => get_search_domains_rpc now ip
  | AddScopeTld sc t ip => add_scope_tld_rpc sc t ip
  | RemoveScopeTld sc t => remove_scope_tld_rpc sc t
  | ListScopeTlds sc => list_scope_tlds_rpc sc
  | SetScopeTldForwarders sc t l => set_scope_tld_forwarders_rpc sc t l
  | ListScopeTldForwarders sc t => list_scope_tld_forwarders_rpc sc t
  | AddAuthoritativeZone z => add_authoritative_zone_rpc z
  | RemoveAuthoritativeZone z => remove_authoritative_zone_rpc z
  | FlushDnsCache => flush_dns_cache_rpc
  | AddLocalBlocklistEntry e => add_local_blocklist_entry_rpc e
  | RemoveLocalBlocklistEntry n => remove_local_blocklist_entry_rpc n
  | AddDnsblAllowlistEntry e => add_dnsbl_allowlist_entry_rpc e
  | RemoveDnsblAllowlistEntry n => remove_dnsbl_allowlist_entry_rpc n
  | DeleteDnssecKey id => delete_dnssec_key_rpc id
  | SignZone z => sign_zone_rpc clock z
  | SetDns64Config c => set_dns64_config_rpc c
  | GetDns64Config => get_dns64_config_rpc
  | AddDhcpPool p => add_dhcp_pool_rpc p
  | RemoveDhcpPool id => remove_dhcp_pool_rpc id
  | ListDhcpPools sc => list_dhcp_pools_rpc sc
  | ListDhcpLeases sc => list_dhcp_leases_rpc sc
  | DeleteDhcpLease mac => delete_dhcp_lease_rpc mac
  | SetDhcpCertOption o => set_dhcp_cert_option_rpc o
  | RemoveDhcpCertOption sc c => remove_dhcp_cert_option_rpc sc c
  | ListDhcpCertOptions sc => list_dhcp_cert_options_rpc sc
  end.

Definition call (peer : option IpAddr) (token : string) (rpc : Rpc) : Handler := authed now peer token (handle rpc).

(** * What a call may change *)

(** The unfolding of every handler. *)
Ltac unfold_rpcs :=
  unfold add_record_rpc, remove_record_rpc, list_records_rpc, set_forwarders_rpc, set_resolution_mode_rpc,
    get_resolution_mode_rpc, set_dnsbl_config_rpc, get_dnsbl_config_rpc, flush_cache_rpc, create_network_scope_rpc,
    delete_network_scope_rpc, list_network_scopes_rpc, join_network_rpc, leave_network_rpc, add_scoped_record_rpc,
    remove_scoped_record_rpc, get_search_domains_rpc, add_scope_tld_rpc, remove_scope_tld_rpc, list_scope_tlds_rpc,
    set_scope_tld_forwarders_rpc, list_scope_tld_forwarders_rpc, add_authoritative_zone_rpc,
    remove_authoritative_zone_rpc, flush_dns_cache_rpc, add_local_blocklist_entry_rpc,
    remove_local_blocklist_entry_rpc, add_dnsbl_allowlist_entry_rpc, remove_dnsbl_allowlist_entry_rpc,
    delete_dnssec_key_rpc, sign_zone_rpc, set_dns64_config_rpc, get_dns64_config_rpc, add_dhcp_pool_rpc,
    remove_dhcp_pool_rpc, list_dhcp_pools_rpc, list_dhcp_leases_rpc, delete_dhcp_lease_rpc, set_dhcp_cert_option_rpc,
    remove_dhcp_cert_option_rpc, list_dhcp_cert_options_rpc, missing, refuse, reply, done.

(** Every branch of a handler. *)
Ltac handler_cases rpc :=
  destruct rpc; cbn [handle]; unfold_rpcs; cbn zeta; repeat case_match; simplify_eq/=.

Lemma handle_err rpc s st s' :
  handle rpc s = (Err st, s') -> (exists z, rpc = SignZone z) \/ s' = s.
Proof. intros H. revert H. handler_cases rpc; intros; simplify_eq/=; eauto. Qed.

(** The calls that drop the response cache when they succeed. *)
Definition flushes (rpc : Rpc) : bool :=
  match rpc with
  | AddRecord _ | RemoveRecord _ _ _ | SetDnsblConfig _ _ _ | CreateNetworkScope _ | AddScopedRecord _ _
  | RemoveScopedRecord _ _ _ _ | AddScopeTld _ _ _ | RemoveScopeTld _ _ | SetScopeTldForwarders _ _ _
  | FlushDnsCache | SignZone _ => true
  | _ => false
  end.

Definition succeeded (r : result Reply Status) : bool :=
  match r with Ok (Ack ok _) => ok | Ok _ => true | Err _ => false end.

Lemma set_u_cache_get c (u : Upstreams) : u_cache (set_u_cache c u) = c.
Proof. by destruct u as [[? ? ? ? []] ? ? ? ? ? ?]. Qed.

Lemma flush_response_cache_get s : u_cache (v_up (flush_response_cache s)) = DnsCache.flush <$> u_cache (v_up s).
Proof. unfold flush_response_cache. simpl. apply set_u_cache_get. Qed.

Lemma handle_cache rpc s :
  u_cache (v_up (handle rpc s).2) =
    if flushes rpc && succeeded (handle rpc s).1 then DnsCache.flush <$> u_cache (v_up s) else u_cache (v_up s).
Proof. handler_cases rpc; try done; apply flush_response_cache_get. Qed.

(** ** Ingress listeners *)

(** Every address a zone is served on has its listener. *)
Definition listeners_cover (s : Service) : Prop :=
  forall tld ip, tld_ingress_cache (scopes (v_db s)) !! tld = Some ip -> ip ∈ v_listeners s.

Lemma all_ingress_ips `{IL : !MapIterLaws} x tld ip :
  tld_ingress_cache x !! tld = Some ip -> ip ∈ list_all_tld_ingress_ips x.
Proof.
  intros H. unfold list_all_tld_ingress_ips.
  assert ((tld, ip) ∈ map_iter _ (tld_ingress_cache x)) as Hin by (rewrite map_iter_perm; by apply elem_of_map_to_list).
  assert (forall (l : list (string * IpAddr)) out,
    (ip ∈ out \/ ip ∈ l.*2) -> ip ∈ foldl (fun out (kv : string * IpAddr) =>
      if bool_decide (kv.2 ∈ out) then out else out ++ [kv.2]) out l) as Hf.
  { induction l as [|[k v] l IH]; intros out Ho; simpl; [destruct Ho as [Ho|Ho]; [done|by apply not_elem_of_nil in Ho]|].
    apply IH. destruct Ho as [Ho|[->|Ho]%elem_of_cons]; [left|left|by right].
    - case_bool_decide; [done|]. set_solver.
    - case_bool_decide; [done|]. set_solver. }
  apply Hf. right. apply list_elem_of_fmap. by exists (tld, ip).
Qed.


(** Operations on the scopes that leave the ingress addresses alone. *)
Definition same_ingress (x x' : ScopeStore) : Prop := tld_ingress_cache x' = tld_ingress_cache x.

Ltac ingress_cases := unfold same_ingress; repeat case_match; intros; by simplify_eq/=.

Lemma add_scope_tld_ingress sc t x x' : add_scope_tld sc t x = Ok x' -> same_ingress x x'.
Proof. unfold add_scope_tld. ingress_cases. Qed.

Lemma register_tlds_ingress sc tlds x b x' : register_tlds sc tlds x = (b, x') -> same_ingress x x'.
Proof.
  revert x. induction tlds as [|t tlds IH]; intros x; simpl; [by intros [= <- <-]|].
  destruct (add_scope_tld sc t x) as [x1|] eqn:E; [|by intros [= <- <-]]. intros H%IH.
  unfold same_ingress in *. rewrite H. by eapply add_scope_tld_ingress.
Qed.

Lemma create_scope_ingress sc x x' : create_network_scope sc x = Ok x' -> same_ingress x x'.
Proof. unfold create_network_scope. ingress_cases. Qed.

Lemma delete_scope_ingress n x b x' : delete_network_scope n x = (b, x') -> same_ingress x x'.
Proof. unfold delete_network_scope. ingress_cases. Qed.

Lemma leave_ingress ip x b x' : leave_network ip x = (b, x') -> same_ingress x x'.
Proof. unfold leave_network. ingress_cases. Qed.

Lemma search_domains_ingress n ip x l x' : get_search_domains n ip x = (l, x') -> same_ingress x x'.
Proof. unfold get_search_domains, get_scope_for_ip. ingress_cases. Qed.

Lemma scoped_remove_ingress sc n k v x c x' : remove_scoped_records sc n k v x = (c, x') -> same_ingress x x'.
Proof. unfold remove_scoped_records. ingress_cases. Qed.

Lemma scoped_removes_ingress sc (ptrs : list DnsRecord) x :
  same_ingress x (foldl (fun x ptr => (remove_scoped_records sc (r_name ptr) (Some PTR) (r_value ptr) x).2) x ptrs).
Proof. revert x. induction ptrs as [|p ptrs IH]; intros x; [done|]. exact (IH _). Qed.

Lemma tld_forwarders_ingress sc t l x x' : set_scope_tld_forwarders sc t l x = Ok x' -> same_ingress x x'.
Proof. unfold set_scope_tld_forwarders. ingress_cases. Qed.

Lemma same_ingress_trans x y z : same_ingress x y -> same_ingress y z -> same_ingress x z.
Proof. unfold same_ingress. congruence. Qed.

Create HintDb ingress.
#[local] Hint Resolve add_scope_tld_ingress register_tlds_ingress create_scope_ingress delete_scope_ingress
  leave_ingress search_domains_ingress scoped_remove_ingress scoped_removes_ingress tld_forwarders_ingress : ingress.

(** Every call but the two that move a listener. *)
Lemma handle_ingress rpc s :
  match rpc with
  | AddScopeTld _ _ _ | RemoveScopeTld _ _ => True
  | _ => same_ingress (scopes (v_db s)) (scopes (v_db (handle rpc s).2)) /\ v_listeners (handle rpc s).2 = v_listeners s
  end.
Proof.
  handler_cases rpc; try done; (split; [|done]); cbn [fst snd v_db flush_response_cache set_up set_scopes set_db scopes];
    first [by eauto 2 with ingress
          | eapply same_ingress_trans; [|first [apply scoped_removes_ingress | by eauto 2 with ingress]]; by eauto 2 with ingress].
Qed.

Lemma set_listener_ingress sc t ip x x' :
  set_tld_listener sc t ip x = Ok x' -> tld_ingress_cache x' = <[normalize_name t := ip]> (tld_ingress_cache x).
Proof. unfold set_tld_listener. repeat case_match; intros; by simplify_eq/=. Qed.

Lemma remove_tld_ingress sc t x b x' :
  remove_scope_tld sc t x = Ok (b, x') -> tld_ingress_cache x' ⊆ tld_ingress_cache x /\
  (tld_ingress_cache x' = tld_ingress_cache x \/ b = true).
Proof.
  unfold remove_scope_tld. cbn zeta. case_match; [done|]. destruct (0 <? _)%nat; intros [= <- <-]; simpl;
    (split; [first [done | apply delete_subseteq]|]); auto.
Qed.

Lemma handle_listeners `{IL : !MapIterLaws} rpc s : listeners_cover s -> listeners_cover (handle rpc s).2.
Proof.
  intros Hc. assert (forall s', same_ingress (scopes (v_db s)) (scopes (v_db s')) -> v_listeners s' = v_listeners s ->
    listeners_cover s') as Hsame.
  { intros s' H1 H2 tld ip. rewrite H1, H2. apply Hc. }
  pose proof (handle_ingress rpc s) as Hi. destruct rpc; try (apply Hsame; apply Hi); clear Hi; cbn [handle].
  - unfold add_scope_tld_rpc, missing, refuse, reply. cbn zeta. repeat case_match; simplify_eq/=; try (by apply Hc).
    all: try (apply Hsame; simpl; [by eauto with ingress|done]).
    match goal with
    | H1 : add_scope_tld _ _ _ = Ok ?x, H2 : set_tld_listener _ _ _ ?x = Ok _ |- _ =>
        apply set_listener_ingress in H2; apply add_scope_tld_ingress in H1; unfold same_ingress in H1;
        rewrite H1 in H2; intros t j; simpl; rewrite H2
    end.
    intros [[_ <-]|[_ Hj]]%lookup_insert_Some; [set_solver|]. apply Hc in Hj. set_solver.
  - unfold remove_scope_tld_rpc, missing, refuse, reply. cbn zeta.
    case_match; [by apply Hc|]. destruct (remove_scope_tld _ _ _) as [[b x]|] eqn:E; [|by apply Hc].
    apply remove_tld_ingress in E as [Hsub He]. destruct b.
    + case_match; simpl; [|intros t j Hj; simpl in *; apply (Hc t); by eapply lookup_weaken].
      case_bool_decide as Hin; intros t j Hj; simpl in *; [apply (Hc t); by eapply lookup_weaken|].
      assert (j ∈ v_listeners s) by (apply (Hc t); by eapply lookup_weaken). apply all_ingress_ips in Hj. set_solver.
    + destruct He as [He|]; [|done]. by apply Hsame.
Qed.

(** ** Records added and removed *)

Lemma call_ok peer token rpc s r s' : call peer token rpc s = (Ok r, s') -> exists t, handle rpc (set_auth t s) = (Ok r, s').
Proof. unfold call, authed. destruct (check_auth _ _ _ _ _) as [[[]|e] t]; intros H; [eauto|done]. Qed.

(** The row an added record becomes. *)
Definition stored_row (r : ProtoRecord) (kind : RecordKind) (id : Z) : DnsRecord :=
  mkRecord (Some id) (normalize_name (pr_name r)) kind (pr_value r) (ttl_or_default (pr_ttl r)) (pr_priority r).

Lemma add_record_rows r z : dns_records (add_record r z).2 =
  dns_records z ++ [mkRecord (Some (next_id z)) (normalize_name (r_name r)) (r_type r) (r_value r) (r_ttl r) (r_priority r)].
Proof. unfold add_record. simpl. by case_match. Qed.

Lemma add_record_rpc_ok r kind s s' :
  add_record_rpc (Some r) s = (Ok done, s') -> from_proto_i32 (pr_type r) = Some kind ->
  validate_record_value kind (pr_value r) = true /\
  u_cache (v_up s') = DnsCache.flush <$> u_cache (v_up s) /\
  exists id ptr, dns_records (zones (v_db s')) = dns_records (zones (v_db s)) ++ stored_row r kind id :: ptr /\
    match auto_ptr_record (pr_name r) kind (pr_value r) (ttl_or_default (pr_ttl r)) with
    | Some p => exists id', ptr = [mkRecord (Some id') (normalize_name (r_name p)) PTR (r_value p) (r_ttl p) 0]
    | None => ptr = []
    end.
Proof.
  unfold add_record_rpc, refuse, reply. intros H Hk. rewrite Hk in H. destruct (validate_record_value _ _) eqn:Ev; [|done].
  cbn [negb] in H. apply pair_equal_spec in H as [_ <-]. split; [done|].
  split; [by rewrite flush_response_cache_get|].
  match goal with |- context [flush_response_cache (set_zones ?z s)] =>
    change (zones (v_db (flush_response_cache (set_zones z s)))) with z end.
  destruct (auto_ptr_record _ _ _ _) as [p|] eqn:Ep; rewrite !add_record_rows; [|by eexists _, []].
  assert (r_type p = PTR /\ r_priority p = 0) as [Ht Hp].
  { revert Ep. unfold auto_ptr_record. destruct auto_ptr; [|done]. simpl. destruct (forward_ip _ _); [|done]. by intros [= <-]. }
  rewrite Ht, Hp. cbn [r_name r_type r_value r_ttl r_priority].
  rewrite <- app_assoc. eexists _, _. split; [reflexivity|]. by eexists.
Qed.

Lemma lookup_exact_elem rows n rt r :
  r ∈ lookup_exact rows n rt <-> r ∈ rows /\ r_name r = n /\ type_matches rt r = true.
Proof.
  unfold lookup_exact. split.
  - intros [H1 H2]%elem_filter_bool. bool_hyps. auto.
  - intros (H1 & <- & H2). apply elem_filter_bool. by rewrite String.eqb_refl, H2.
Qed.

Lemma local_hits_elem db qname kind r :
  r ∈ dns_records (zones db) -> r_name r = normalize_name qname -> r_type r = kind -> r ∈ local_hits db qname kind.
Proof.
  intros H1 H2 H3. unfold local_hits. rewrite lookup_with_fallbacks_eq. cbn zeta. cbn [exact].
  assert (r ∈ lookup_exact (dns_records (zones db)) (normalize_name qname) (Some kind)) as Hr.
  { apply lookup_exact_elem. split_and!; [done..|]. simpl. by apply bool_decide_eq_true. }
  destruct (lookup_exact _ _ _); [by apply not_elem_of_nil in Hr|done].
Qed.

(** Removals, one after the other. *)
Definition remove_ptrs (targets : list DnsRecord) (z : ZoneStore) : ZoneStore :=
  foldl (fun z ptr => (remove_records (r_name ptr) (Some PTR) (r_value ptr) z).2) z targets.

Lemma remove_ptrs_elem targets z r :
  r ∈ dns_records (remove_ptrs targets z) <->
  r ∈ dns_records z /\ forall p, p ∈ targets -> delete_matches (normalize_name (r_name p)) (Some PTR) (r_value p) r = false.
Proof.
  revert z. induction targets as [|p targets IH]; intros z; [simpl; set_solver|].
  change (remove_ptrs (p :: targets) z) with (remove_ptrs targets (remove_records (r_name p) (Some PTR) (r_value p) z).2).
  rewrite IH, remove_records_rows, elem_filter_bool, negb_true_iff.
  set_solver.
Qed.

Lemma delete_matches_self k r : type_matches k r = true -> delete_matches (r_name r) k (r_value r) r = true.
Proof. intros H. unfold delete_matches. rewrite !String.eqb_refl, orb_true_r. unfold type_matches in H. by rewrite H. Qed.

(** Removal takes the forward rows that match and, with automatic reverse records,
    the reverse row of each of them. *)
Lemma remove_record_rpc_rows n t v s r :
  let kind := from_proto_i32 t in
  r ∈ dns_records (zones (v_db (remove_record_rpc n t v s).2)) ->
  r ∈ dns_records (zones (v_db s)) /\ delete_matches (normalize_name n) kind v r = false /\
  (forall f p, auto_ptr = true -> f ∈ ZoneStore.lookup (zones (v_db s)) n None -> type_matches kind f = true ->
     (v = "" \/ r_value f = v) -> auto_ptr_record (r_name f) (r_type f) (r_value f) (r_ttl f) = Some p ->
     delete_matches (normalize_name (r_name p)) (Some PTR) (r_value p) r = false).
Proof.
  cbn zeta. unfold remove_record_rpc, reply. destruct (remove_records n (from_proto_i32 t) v (zones (v_db s))) as [c z] eqn:E.
  cbn [snd]. match goal with |- context [flush_response_cache (set_zones ?z' s)] =>
    change (zones (v_db (flush_response_cache (set_zones z' s)))) with z' end.
  change (foldl _ z ?l) with (remove_ptrs l z). intros [Hr Hp]%remove_ptrs_elem.
  pose proof (remove_records_rows n (from_proto_i32 t) v (zones (v_db s))) as Hz. rewrite E in Hz. cbn [snd] in Hz. rewrite Hz in Hr.
  apply elem_filter_bool in Hr as [Hr Hd%negb_true_iff]. split_and!; [done..|].
  intros f p Ha Hf Ht Hv Hptr. apply Hp. rewrite Ha. unfold ptr_records_to_remove. apply list_elem_of_omap. exists f.
  split; [done|]. rewrite Hptr.
  assert (match r_type f with A | AAAA => true | _ => false end = true) as ->.
  { revert Hptr. unfold auto_ptr_record, forward_ip. rewrite Ha. simpl. by destruct (r_type f). }
  assert (match from_proto_i32 t with Some t => bool_decide (t = r_type f) | None => true end = true) as ->.
  { unfold type_matches in Ht. destruct (from_proto_i32 t); [|done]. case_bool_decide; [|done]. by rewrite bool_decide_true. }
  destruct Hv as [-> | ->]; simpl; [done|]. by rewrite String.eqb_refl, orb_true_r.
Qed.

(** ** Blocklist settings *)

Lemma build_provider_again p x :
  is_u 32 (pp_cooldown_secs p) -> build_rbl_provider p = Ok x -> build_rbl_provider (provider_proto x) = Ok x.
Proof.
  unfold is_u. intros Hc. unfold build_rbl_provider. destruct (resolve_refusal_codes (pp_refusal_codes p)) as [codes|] eqn:E; [|done].
  intros [= <-]. cbn [provider_proto pp_zone pp_enabled pp_refusal_codes pp_cooldown_secs p_zone p_enabled p_cooldown].
  rewrite (refusal_strings_parse (pp_refusal_codes p) codes) by done. cbn iota. f_equal. f_equal.
  destruct (Z.ltb_spec 0 (pp_cooldown_secs p)); cbn [cooldown_secs]; [|done].
  rewrite as_secs_from_secs. unfold as_u. rewrite Z.mod_small by lia. by rewrite (proj2 (Z.ltb_lt _ _)).
Qed.

Lemma build_providers_again ps xs :
  Forall (fun p => is_u 32 (pp_cooldown_secs p)) ps -> build_providers ps = Ok xs -> build_providers (provider_proto <$> xs) = Ok xs.
Proof.
  intros Hc. revert xs. induction Hc as [|p ps Hp _ IH]; intros xs; simpl; [by intros [= <-]|].
  destruct (build_rbl_provider p) as [x|] eqn:E1; [|done]. simpl. destruct (build_providers ps) as [xs'|] eqn:E2; [|done].
  simpl. intros [= <-]. rewrite fmap_cons. cbn [build_providers]. rewrite (build_provider_again p x), (IH xs') by done. done.
Qed.

(** * Properties *)

(** Nothing is done for a caller who is not let in, and a refused request changes
    nothing: whatever the call, one that fails authentication is answered with that
    failure, and one that is answered with an error leaves the database, the leases,
    the caches, the settings and the listeners as they were. Only the record of
    failed attempts may differ. A signing pass that breaks off is the exception. *)
Theorem refused_calls_change_nothing peer token rpc s :
  let c := check_auth auth now peer token (v_auth s) in
  let out := call peer token rpc s in
  (forall e, c.1 = Err e -> out = (Err e, set_auth c.2 s)) /\
  (forall st, out.1 = Err st -> (exists z, rpc = SignZone z /\ c.1 = Ok tt) \/ out.2 = set_auth c.2 s).
Proof.
  cbn zeta. unfold call, authed. destruct (check_auth auth now peer token (v_auth s)) as [[[]|e] t]; cbn [fst snd].
  - split; [done|]. intros st Hst. destruct (handle rpc (set_auth t s)) as [r s'] eqn:E. simpl in Hst. subst r.
    apply handle_err in E as [[z ->]| ->]; eauto.
  - split; [by intros e' [= <-]|]. auto.
Qed.

(** The response cache across a call, exactly: the calls that change records, owned
    zones, their forwarders or the blocklist providers, a signing pass and the
    explicit flush empty it when they succeed; no other call touches it. *)
Theorem response_cache_after_call peer token rpc s :
  let out := call peer token rpc s in
  u_cache (v_up out.2) =
    if flushes rpc && succeeded out.1 then DnsCache.flush <$> u_cache (v_up s) else u_cache (v_up s).
Proof.
  cbn zeta. unfold call, authed. destruct (check_auth auth now peer token (v_auth s)) as [[[]|e] t].
  - exact (handle_cache rpc (set_auth t s)).
  - simpl. by rewrite andb_false_r.
Qed.

(** What comes before the global records has nothing for the question: of a client in
    no network only a reverse blocklist entry, of one in a network also its scoped
    records, aliases and zones, and the zones that networks own. *)
Definition nothing_first (q : Query) (kind : RecordKind) (scope : option string) (db : Database) (s : State) : Prop :=
  match scope with
  | None => (reverse_blocklist q false s).1 = None
  | Some sc =>
      (reverse_blocklist q true s).1 = None /\
      lookup_scoped (scopes db) sc (q_name q) (Some kind) = [] /\ lookup_scoped (scopes db) sc (q_name q) (Some ANAME) = [] /\
      lookup_scoped (scopes db) sc (q_name q) (Some CNAME) = [] /\
      check_dname_scoped db sc (q_name q) (q_message q) = None /\
      find_tld_owner (scopes db) (q_name q) = None /\
      existsb (fun zone => name_in_zone (q_name q) zone && (0 <? length (lookup_scoped (scopes db) sc zone None))%nat)
        (elements (get_scoped_managed_zones (scopes db) sc)) = false
  end.

(** The response cache holds no record. *)
Definition no_records (s : State) : Prop := match s_cache s with Some c => DnsCache.memory c = ∅ | None => True end.

Lemma scoped_records_pass at_ q sc kind s :
  q_kind q = Some kind -> lookup_scoped (scopes (s_db s)) sc (q_name q) (Some kind) = [] ->
  lookup_scoped (scopes (s_db s)) sc (q_name q) (Some ANAME) = [] -> no_records s ->
  exists s1, scoped_records at_ q sc s = (None, s1) /\ s_db s1 = s_db s /\ s_log s1 = s_log s /\ no_records s1.
Proof.
  intros Hk H1 H2 Hn. unfold scoped_records, bind, get_db. rewrite Hk. unfold with_cache, no_records in *.
  destruct (s_cache s) as [c|] eqn:Ec.
  - unfold DnsCache.lookup. rewrite Hn, lookup_empty. cbn beta iota. rewrite H1, H2.
    eexists. split; [by destruct (_ || _)|]. split_and!; [done|done|exact Hn].
  - rewrite H1, H2. exists s. rewrite Ec. split; [by destruct (_ || _)|done].
Qed.

(** Then the global records are asked. *)
Lemma global_records_reached cfg at_ at_ms q src scope kind s rs :
  q_kind q = Some kind -> nothing_first q kind scope (s_db s) s -> no_records s ->
  local_hits (s_db s) (q_name q) kind = rs -> rs <> [] ->
  let out := resolve_named cfg at_ at_ms q src scope s in
  out.1 = Some (local_reply q (s_db s) kind rs) /\ s_tag out.2 = SrcLocal /\ s_log out.2 = s_log s.
Proof.
  intros Hk Hf Hn Hrs Hne. cbn zeta.
  assert (forall s1, s_db s1 = s_db s -> s_log s1 = s_log s -> no_records s1 -> exists u,
    local_records at_ q s1 = (Some (local_reply q (s_db s) kind rs), mkState (s_db s) u SrcLocal (s_log s))) as Hl.
  { intros s1 Hd Hg Hn1. rewrite <- Hd, <- Hg. eexists. rewrite <- Hd in Hrs. rewrite <- Hrs.
    apply local_records_hit; [done| |by rewrite Hrs]. unfold no_records in Hn1. destruct (s_cache s1) as [c|]; [|done].
    unfold DnsCache.lookup_local_only. by rewrite Hn1, lookup_empty. }
  unfold resolve_named. destruct scope as [sc|]; cbn [held_data nothing_first] in *.
  - destruct Hf as (H0 & H1 & H2 & H3 & H4 & H5 & H6).
    rewrite (stages_pass _ _ _ _ _ (reverse_blocklist_pass _ _ _ H0)).
    destruct (scoped_records_pass at_ q sc kind s Hk H1 H2 Hn) as (s1 & E1 & Hd & Hg & Hn1).
    rewrite (stages_pass _ _ _ _ _ E1).
    rewrite (stages_pass _ _ _ s1 s1) by (unfold scoped_aliases, bind, get_db; by rewrite Hd, H3, H4).
    rewrite (stages_pass _ _ _ s1 s1) by (unfold scoped_partition, bind, get_db; by rewrite Hd, H5).
    rewrite (stages_pass _ _ _ s1 s1) by (unfold scoped_zones, bind, get_db; by rewrite Hd, H6).
    destruct (Hl s1 Hd Hg Hn1) as [u E]. by rewrite (stages_answer _ _ _ _ _ _ E).
  - rewrite (stages_pass _ _ _ _ _ (reverse_blocklist_pass _ _ _ Hf)).
    destruct (Hl s eq_refl eq_refl Hn) as [u E]. by rewrite (stages_answer _ _ _ _ _ _ E).
Qed.


(** Reverse records follow the forward ones. With automatic reverse records, adding
    an address for a name adds the pointer from the address back to the normalised
    name; removing that address again leaves no row of it and no such pointer,
    whatever the store held before. *)
Theorem reverse_follows_forward peer token r kind ip s s' :
  auto_ptr = true -> from_proto_i32 (pr_type r) = Some kind -> forward_ip kind (pr_value r) = Some ip ->
  call peer token (AddRecord (Some r)) s = (Ok done, s') ->
  (exists row, row ∈ ZoneStore.lookup (zones (v_db s')) (reverse_ptr_name ip) (Some PTR) /\
     r_value row = normalize_name (pr_name r)) /\
  forall peer' token' n s'', call peer' token' (RemoveRecord (pr_name r) (pr_type r) (pr_value r)) s' = (Ok (Removed n), s'') ->
    Forall (fun row =>
      ~ (r_name row = normalize_name (pr_name r) /\ r_type row = kind /\ r_value row = pr_value r) /\
      ~ (r_name row = normalize_name (reverse_ptr_name ip) /\ r_type row = PTR /\ r_value row = normalize_name (pr_name r)))
      (dns_records (zones (v_db s''))).
Proof.
  intros Ha Hk Hip (t & H)%call_ok. cbn [handle] in H.
  destruct (add_record_rpc_ok _ _ _ _ H Hk) as (_ & _ & id & ptr & Hrows & Hptr). cbn [v_db set_auth] in Hrows.
  assert (forall name ttl, auto_ptr_record name kind (pr_value r) ttl =
    Some (mkRecord None (reverse_ptr_name ip) PTR (normalize_name name) ttl 0)) as Hauto.
  { intros. unfold auto_ptr_record. rewrite Ha, Hip. done. }
  rewrite Hauto in Hptr. destruct Hptr as [id' ->]. cbn [r_name r_value r_ttl] in Hrows. split.
  - eexists. split; [|shelve]. unfold ZoneStore.lookup.
    match type of Hrows with _ = _ ++ _ :: [?p] => assert (p ∈ lookup_exact (dns_records (zones (v_db s')))
      (normalize_name (reverse_ptr_name ip)) (Some PTR)) as Hp end.
    { apply lookup_exact_elem. rewrite Hrows. split_and!; [set_solver|done|done]. }
    destruct (lookup_exact _ _ _); [by apply not_elem_of_nil in Hp|exact Hp].
    Unshelve. done.
  - intros peer' token' n s'' (t' & H')%call_ok. cbn [handle] in H'. apply Forall_forall. intros row Hrow.
    assert (s'' = (remove_record_rpc (pr_name r) (pr_type r) (pr_value r) (set_auth t' s')).2) as -> by (by rewrite H').
    apply remove_record_rpc_rows in Hrow as (_ & Hd & Hp). rewrite Hk in Hd, Hp. split.
    + intros (E1 & E2 & E3). revert Hd. unfold delete_matches. by rewrite E1, E2, E3, !String.eqb_refl, bool_decide_true, orb_true_r.
    + intros (E1 & E2 & E3). assert (stored_row r kind id ∈ ZoneStore.lookup (zones (v_db s')) (pr_name r) None) as Hf.
      { unfold ZoneStore.lookup. assert (stored_row r kind id ∈ lookup_exact (dns_records (zones (v_db s')))
          (normalize_name (pr_name r)) None) as Hx.
        { apply lookup_exact_elem. rewrite Hrows. split_and!; [set_solver|done|done]. }
        destruct (lookup_exact _ _ _); [by apply not_elem_of_nil in Hx|exact Hx]. }
      specialize (Hp _ _ Ha Hf (bool_decide_eq_true_2 _ eq_refl) (or_intror eq_refl) (Hauto _ _)).
      cbn [stored_row r_name r_value] in Hp. rewrite normalize_name_idem in Hp. revert Hp. unfold delete_matches.
      by rewrite E1, E2, E3, !String.eqb_refl, bool_decide_true, orb_true_r.
Qed.

(** Blocklist settings survive being read and set again. Once a configuration was
    accepted, what is reported of it (the providers with their refusal codes and
    cooldowns, none of them rotated out) is accepted by any service and gives it the
    same configuration. *)
Theorem blocklist_settings_roundtrip peer token enabled providers cooldown s s1 :
  Forall (fun p => is_u 32 (pp_cooldown_secs p)) providers -> is_u 32 cooldown ->
  call peer token (SetDnsblConfig enabled providers cooldown) s = (Ok done, s1) ->
  exists e ps c, (handle GetDnsblConfig s1).1 = Ok (DnsblIs e ps c []) /\
  forall s2, exists s3, handle (SetDnsblConfig e ps c) s2 = (Ok done, s3) /\
    get_config (v_dnsbl s3) = get_config (v_dnsbl s1) /\ refusal_cooldown (v_dnsbl s3) = refusal_cooldown (v_dnsbl s1).
Proof.
  intros Hps Hc (t & H)%call_ok. cbn [handle] in H. unfold set_dnsbl_config_rpc, refuse, reply in H.
  destruct (build_providers providers) as [xs|] eqn:E; [|done]. injection H as <-. cbn [handle].
  eexists enabled, (provider_proto <$> xs), (if cooldown =? 0 then DEFAULT_REFUSAL_COOLDOWN_SECS else cooldown). split.
  - unfold get_dnsbl_config_rpc. simpl. unfold reply. simpl. rewrite map_filter_empty, map_to_list_empty. simpl.
    do 2 f_equal. unfold refusal_cooldown. simpl. rewrite as_secs_from_secs. unfold as_u, is_u in *.
    destruct (cooldown =? 0); [vm_compute; reflexivity|]. by rewrite Z.mod_small.
  - intros s2. unfold set_dnsbl_config_rpc. rewrite (build_providers_again providers xs Hps E). eexists. split; [reflexivity|].
    split; [done|]. unfold refusal_cooldown. simpl. f_equal. destruct (Z.eqb_spec cooldown 0) as [->|Hne]; [done|].
    by rewrite (proj2 (Z.eqb_neq _ _) Hne).
Qed.

(** A zone served on an address of its own always has the listener running: no call,
    accepted or refused, loses it while a zone needs it. *)
Theorem listeners_kept `{IL : !MapIterLaws} peer token rpc s :
  listeners_cover s -> listeners_cover (call peer token rpc s).2.
Proof.
  intros Hc. unfold call, authed. destruct (check_auth auth now peer token (v_auth s)) as [[[]|e] t]; [|exact Hc].
  by apply (handle_listeners rpc (set_auth t s)).
Qed.
End Control.

(** * Samples *)

Local Abbreviation Lib := (lib_for "nas.home." 1).
Local Abbreviation Now := (from_secs 100).

(** A guarded service with a cached absence of the name that is about to be added. *)
Definition stale_cache : DnsCache.t :=
  DnsCache.insert_negative 0 "nas.home." (Some A) DnsCache.NxDomain 3600 (DnsCache.new 0 0 []).

Definition sample_service : @Service Lib (quiet_outside Lib) :=
  mkService empty_db empty_leases (idle_upstreams Recursive (Some stale_cache)) sample_config new_checker ∅ ∅.

Definition nas : ProtoRecord := mkProto "NAS.home" 0 "192.168.1.9" 0 0.

Local Abbreviation sample_call token rpc s :=
  (@call Lib (quiet_outside Lib) sample_ring (fun _ => true) sample_auth true Now 0 (Some 0) (Some operator) token rpc s).
Local Abbreviation nas_added := (sample_call "hunter2" (AddRecord (Some nas)) sample_service).2.

(** Opaque, so that the witnesses compare what was computed once. *)
Lemma nas_add_ok : (sample_call "hunter2" (AddRecord (Some nas)) sample_service).1 = Ok done.
Proof. vm_compute. reflexivity. Qed.

Lemma nas_add_call : sample_call "hunter2" (AddRecord (Some nas)) sample_service = (Ok done, nas_added).
Proof. rewrite <- nas_add_ok. apply surjective_pairing. Qed.


Local Abbreviation nas_removed := (sample_call "hunter2" (RemoveRecord "NAS.home" 0 "192.168.1.9") nas_added).

Lemma nas_removed_ok : nas_removed.1 = Ok (Removed 1).
Proof. vm_compute. reflexivity. Qed.

Lemma reverse_follows_forward_witness :
  (exists row, row ∈ ZoneStore.lookup (zones (v_db nas_added)) "9.1.168.192.in-addr.arpa." (Some PTR) /\ r_value row = "nas.home.") /\
  Forall (fun row => ~ (r_name row = normalize_name "NAS.home" /\ r_type row = A /\ r_value row = "192.168.1.9"))
    (dns_records (zones (v_db nas_removed.2))).
Proof.
  destruct (@reverse_follows_forward Lib (quiet_outside Lib) sample_ring (fun _ => true) sample_auth true Now 0 (Some 0)
    (Some operator) "hunter2" nas A (V4 3232235785) sample_service nas_added) as [H1 H2].
  - reflexivity.
  - reflexivity.
  - vm_compute. reflexivity.
  - exact nas_add_call.
  - split; [exact H1|]. specialize (H2 (Some operator) "hunter2" 1 nas_removed.2).
    eapply Forall_impl; [apply H2; rewrite <- nas_removed_ok; apply surjective_pairing|]. intros row Hr. apply Hr.
Defined.

Definition sample_blocklists : list ProtoProvider := [mkProtoProvider "bl.test" true ["127.255.255.0/24"] 60; mkProtoProvider "dbl.test" false [] 0].

Local Abbreviation configured := (sample_call "hunter2" (SetDnsblConfig true sample_blocklists 0) sample_service).

Lemma configured_ok : configured.1 = Ok done.
Proof. vm_compute. reflexivity. Qed.

Lemma blocklist_settings_roundtrip_witness :
  exists e ps c, (@handle Lib (quiet_outside Lib) sample_ring (fun _ => true) true Now 0 (Some 0) GetDnsblConfig configured.2).1
    = Ok (DnsblIs e ps c []).
Proof.
  destruct (@blocklist_settings_roundtrip Lib (quiet_outside Lib) sample_ring (fun _ => true) sample_auth true Now 0 (Some 0)
    (Some operator) "hunter2" true sample_blocklists 0 sample_service configured.2) as (e & ps & c & H & _).
  - repeat constructor; vm_compute; congruence.
  - vm_compute. split; congruence.
  - rewrite <- configured_ok. apply surjective_pairing.
  - exists e, ps, c. exact H.
Defined.

(** A listener is started for the zone of a scope. *)
Definition lab_service : @Service Lib (quiet_outside Lib) := set_scopes two_scopes sample_service.

Lemma listeners_kept_witness :
  let s := (sample_call "hunter2" (AddScopeTld "lab" "corp" "10.0.0.53") lab_service).2 in
  tld_ingress_cache (scopes (v_db s)) !! "corp." = Some (V4 167772213) /\ listeners_cover s.
Proof.
  cbn zeta. split; [vm_compute; reflexivity|].
  apply (@listeners_kept Lib (quiet_outside Lib) sample_ring (fun _ => true) sample_auth true Now 0 (Some 0) default_iter_laws
    (Some operator) "hunter2" (AddScopeTld "lab" "corp" "10.0.0.53") lab_service).
  assert (tld_ingress_cache (scopes (v_db lab_service)) = ∅) as E by (vm_compute; reflexivity).
  intros tld ip. rewrite E, lookup_empty. discriminate.
Defined.
