(* ===== verification/Admin.v ===== *)
(** The calls of the control plane ([src/src/grpc_service.rs]) that keep state of their
    own next to the stores of [Control]: keys of zones, tracked TLDs, the proxy, TTL
    drift; and the calls that only list what is stored. *)

From S2P Require Import Prelude Dnsbl RustStr Names Ip Records Rrsig DnsCache ZoneStore Scopes Database Leases Sql.
From S2P Require Import Forwarder Tiers Rdata Svcb ZoneSigner Message Negative Upstream Server Http Auth Metrics Drift Control.
From stdpp Require Import base gmap sets list option strings sorting.
From Stdlib Require Import ZArith Lia Bool Ascii.

Open Scope Z_scope.
Local Open Scope rolodex_scope.

(** * Keys *)

Definition key_type_as_str (k : KeyType) : string := match k with ZSK => "ZSK" | KSK => "KSK" end.

Record DnssecKeyPair := mkPair {
  pair_zone : string;
  pair_algorithm : DnssecAlgorithm;
  pair_key_type : KeyType;
  pair_private_key : list Z;
  pair_public_key : list Z;
  pair_key_tag : Z;
}.

(** [fresh] is the document [ring] generates for an algorithm; the key is what the
    loader makes of it. *)
Definition generate_key `{!Ring} (fresh : DnssecAlgorithm -> option (list Z)) (zone : string) (algorithm : DnssecAlgorithm) (key_type : KeyType)
  : result DnssecKeyPair string :=
  if negb (signing_supported algorithm) then Err "algorithm not supported for key generation"%string
  else match fresh algorithm with
       | None => Err "failed to generate key"%string
       | Some private_key =>
           match from_pkcs8 algorithm key_type private_key with
           | Err _ => Err "key material"%string
           | Ok key => Ok (mkPair zone algorithm key_type private_key (sk_public_key key) (sk_key_tag key))
           end
       end.

(** Only the type as it is stored, and active rows. *)
Definition get_active_keys (zone key_type : string) (s : SigningState) : list DnssecKeyRow :=
  List.filter (fun k => (kr_zone k =? normalize_name zone)%string && (kr_key_type k =? key_type)%string && kr_active k) (dnssec_keys s).

(** * Tracked TLDs *)

(** The word [common] stays as it is. *)
Definition stored_tld (tld : string) : option string :=
  let trimmed := str_trim tld in
  if (trimmed =? "")%string then None
  else Some (if (to_lowercase trimmed =? "common")%string then "common" else normalize_name trimmed).

(** The table [tracked_tlds], replaced as a whole. *)
Definition store_tracked_tlds (tlds : list string) : gset string := list_to_set (omap stored_tld tlds).

Definition list_tracked_tlds (rows : gset string) : list string := sort_text (elements rows).

(** [refresh_tracked_tlds]: the list of the file, the stored one and the TLDs that
    networks own. *)
Definition refresh_tracked_tlds {MI : MapIter} (config_tlds stored : list string) (db : Database) (tracked : gset string) : gset string :=
  set_tracked_tlds (config_tlds ++ stored ++ owned_tlds (scopes db)) tracked.

(** * Listings *)

Definition list_scoped_records (scope_name name_filter : string) (record_type : option RecordKind) (s : ScopeStore) : list DnsRecord :=
  let of_type (r : DnsRecord) := match record_type with Some rt => bool_decide (r_type r = rt) | None => true end in
  let of_name : DnsRecord -> bool :=
    if (name_filter =? "")%string then fun _ => true
    else match str_strip_prefix "*." name_filter with
         | Some suffix => fun r => sql_like_plain ("%" +:+ normalize_name suffix) (r_name r)
         | None => fun r => (r_name r =? normalize_name name_filter)%string
         end in
  (List.filter (fun row : string * DnsRecord => (row.1 =? scope_name)%string && of_name row.2 && of_type row.2) (scoped_dns_records s)).*2.

(** Rows whose address does not parse are left out. *)
Definition list_tld_listeners (scope_name : string) (s : ScopeStore) : list (string * IpAddr) :=
  omap (fun row => ip ← parse_ip row.2; Some (row.1, ip))
    (merge_sort (fun a b : string * string => String.leb a.1 b.1)
       (omap (fun row : string * string * string => if (row.1.1 =? scope_name)%string then Some (row.1.2, row.2) else None) (tld_listeners s))).

Definition list_network_associations (scope_name : option string) (s : ScopeStore) : gmap string (string * Z) :=
  omap (fun a => if match scope_name with Some sc => (ar_scope a =? sc)%string | None => true end then Some (ar_scope a, ar_ttl a) else None)
    (network_associations s).

(** * The service *)

Record ProtoKey := mkProtoKey {
  pk_id : Z;
  pk_zone : string;
  pk_scope_name : string;
  pk_algorithm : string;
  pk_key_type : string;
  pk_key_tag : Z;
  pk_created_at : Z;
  pk_active : bool;
}.

Definition key_proto (k : DnssecKeyRow) : ProtoKey :=
  mkProtoKey (kr_id k) (kr_zone k) (kr_scope_name k) (kr_algorithm k) (kr_key_type k) (as_u 32 (kr_key_tag k)) (kr_created_at k) (kr_active k).

Section Admin.
Context {L : DnsLib} {Out : Outside L} {RG : Ring}.
(** As for [Control]; the TLDs of the file, and the digest of the DS records. *)
Context (server_name_ok : string -> bool) (auth : AuthConfig) (auto_ptr : bool).
Context (config_tlds : list string) (sha256 : list Z -> list Z).
(** Floating-point numbers, which are only kept. *)
Context {F : Type} (zero : F) `{FD : !FancyDuration}.

(** [ad_next_key] is the next identifier of [dnssec_keys], [ad_tracked_rows] the table
    of the stored TLDs, [ad_tracked] what the metrics count by, and [ad_latency] the
    table of the latency statistics. *)
Record Admin := mkAdmin {
  ad_service : Service;
  ad_next_key : Z;
  ad_tracked_rows : gset string;
  ad_tracked : gset string;
  ad_proxy : option ProxyConfig;
  ad_drift : TtlDriftMode F;
  ad_latency : list (string * F * Z);
}.

Definition set_service (s : Service) (a : Admin) : Admin :=
  mkAdmin s (ad_next_key a) (ad_tracked_rows a) (ad_tracked a) (ad_proxy a) (ad_drift a) (ad_latency a).
Definition set_tracked (rows tracked : gset string) (a : Admin) : Admin :=
  mkAdmin (ad_service a) (ad_next_key a) rows tracked (ad_proxy a) (ad_drift a) (ad_latency a).
Definition set_proxy (p : option ProxyConfig) (a : Admin) : Admin :=
  mkAdmin (ad_service a) (ad_next_key a) (ad_tracked_rows a) (ad_tracked a) p (ad_drift a) (ad_latency a).
Definition set_drift (d : TtlDriftMode F) (a : Admin) : Admin :=
  mkAdmin (ad_service a) (ad_next_key a) (ad_tracked_rows a) (ad_tracked a) (ad_proxy a) d (ad_latency a).

Definition ad_zones (a : Admin) : ZoneStore := zones (v_db (ad_service a)).
Definition ad_scopes (a : Admin) : ScopeStore := scopes (v_db (ad_service a)).

Inductive AdminReply :=
  | Base (r : Reply)
  | KeyIs (key : ProtoKey)
  | KeysAre (keys : list ProtoKey)
  | DsRecordsAre (ds : list string)
  | TldsAre (stored effective owned : list string)
  | ProxyIs (config : option (string * string * string))
  | DriftIs (config : string * string * F)
  | LatenciesAre (stats : list (string * F * Z))
  | ListenersAre (listeners : list (string * string))
  | AssociationsAre (associations : gmap string (string * Z))
  | ZonesAre (zones : gset string)
  | EntriesAre (entries : gmap string string)
  | CacheStatsAre (total hits misses : Z).

Definition AdminHandler : Type := Admin -> result AdminReply Status * Admin.

Definition admin_refuse (e : Status) : AdminHandler := fun a => (Err e, a).
Definition admin_reply (r : AdminReply) : AdminHandler := fun a => (Ok r, a).

(** ** Keys of zones *)

Definition generate_dnssec_key_rpc (now : Z) (fresh : DnssecAlgorithm -> option (list Z)) (zone algorithm key_type : string) : AdminHandler := fun a =>
  match parse_algorithm algorithm with
  | None => admin_refuse (InvalidArgument "unsupported algorithm") a
  | Some alg =>
      match parse_key_type key_type with
      | None => admin_refuse (InvalidArgument "invalid key type") a
      | Some kt =>
          if negb (signing_supported alg) then admin_refuse (InvalidArgument "algorithm not supported") a
          else match generate_key fresh zone alg kt with
               | Err e => admin_refuse (Internal e) a
               | Ok kp =>
                   let id := ad_next_key a in
                   let params := mkKeyParams zone "" (algorithm_as_str alg) (key_type_as_str kt) (pair_private_key kp) (pair_public_key kp) (pair_key_tag kp) in
                   let z := set_signing (store_dnssec_key id now params) (ad_zones a) in
                   admin_reply (KeyIs (mkProtoKey id zone "" (algorithm_as_str alg) (key_type_as_str kt) (as_u 32 (pair_key_tag kp)) now true))
                     (mkAdmin (set_zones z (ad_service a)) (id + 1) (ad_tracked_rows a) (ad_tracked a) (ad_proxy a) (ad_drift a) (ad_latency a))
               end
      end
  end.

Definition list_dnssec_keys_rpc (zone : string) : AdminHandler := fun a =>
  admin_reply (KeysAre (key_proto <$> list_dnssec_keys zone (signing (ad_zones a)))) a.

Definition ds_of_row (k : DnssecKeyRow) : string :=
  compute_ds_sha256 sha256 (kr_zone k) (kr_key_tag k) (default Ed25519 (parse_algorithm (kr_algorithm k))) (kr_public_key k)
    (default KSK (parse_key_type (kr_key_type k))).

Definition get_ds_records_rpc (zone : string) : AdminHandler := fun a =>
  admin_reply (DsRecordsAre (ds_of_row <$> get_active_keys zone "KSK" (signing (ad_zones a)))) a.

(** ** Tracked TLDs *)

Definition effective_tlds (a : Admin) : list string := sort_text (elements (ad_tracked a)).

Definition set_tracked_tlds_rpc (tlds : list string) : AdminHandler := fun a =>
  if existsb (fun t => (str_trim t =? ".")%string) tlds then admin_refuse (InvalidArgument "the root zone") a
  else
    let rows := store_tracked_tlds tlds in
    let a := set_tracked rows (refresh_tracked_tlds config_tlds (list_tracked_tlds rows) (v_db (ad_service a)) (ad_tracked a)) a in
    admin_reply (TldsAre [] (effective_tlds a) []) a.

Definition list_tracked_tlds_rpc : AdminHandler := fun a =>
  let stored := list_tracked_tlds (ad_tracked_rows a) in
  let a := set_tracked (ad_tracked_rows a) (refresh_tracked_tlds config_tlds stored (v_db (ad_service a)) (ad_tracked a)) a in
  admin_reply (TldsAre stored (effective_tlds a) (sort_text (owned_tlds (ad_scopes a)))) a.

(** ** Proxy and drift *)

Definition proxy_of_proto (c : string * string * string) : ProxyConfig :=
  let '(url, auth, mode) := c in mkProxy url (non_empty auth) (Http.parse_mode mode).
Definition proxy_to_proto (p : ProxyConfig) : string * string * string :=
  (Http.url p, default ""%string (Http.auth p), mode_as_str (Http.mode p)).

Definition set_proxy_config_rpc (config : option (string * string * string)) : AdminHandler := fun a =>
  admin_reply (Base done) (set_proxy (proxy_of_proto <$> config) a).
Definition get_proxy_config_rpc : AdminHandler := fun a => admin_reply (ProxyIs (proxy_to_proto <$> ad_proxy a)) a.

Definition set_ttl_drift_config_rpc (config : option (string * string * F)) : AdminHandler := fun a =>
  admin_reply (Base done) (match config with Some c => set_drift (drift_of_proto c) a | None => a end).
Definition get_ttl_drift_config_rpc : AdminHandler := fun a => admin_reply (DriftIs (drift_to_proto zero (ad_drift a))) a.

(** ** Listings *)

Definition get_query_latency_stats_rpc : AdminHandler := fun a => admin_reply (LatenciesAre (ad_latency a)) a.

Definition get_network_associations_rpc (scope_name : string) : AdminHandler := fun a =>
  admin_reply (AssociationsAre (list_network_associations (non_empty scope_name) (ad_scopes a))) a.

Definition list_scoped_records_rpc (scope_name name_filter : string) (filter_by_type : bool) (type_filter : Z) : AdminHandler := fun a =>
  if (scope_name =? "")%string then admin_refuse (InvalidArgument "scope_name is required") a
  else
    let kind := if filter_by_type then from_proto_i32 type_filter else None in
    admin_reply (Base (Control.Records (record_proto <$> list_scoped_records scope_name name_filter kind (ad_scopes a)))) a.

Definition list_scope_tld_listeners_rpc (scope_name : string) : AdminHandler := fun a =>
  if (scope_name =? "")%string then admin_refuse (InvalidArgument "scope_name is required") a
  else admin_reply (ListenersAre ((fun l => (l.1, ip_to_string l.2)) <$> list_tld_listeners scope_name (ad_scopes a))) a.

Definition list_authoritative_zones_rpc : AdminHandler := fun a => admin_reply (ZonesAre (authoritative_zones (lists (v_db (ad_service a))))) a.
Definition list_local_blocklist_entries_rpc : AdminHandler := fun a => admin_reply (EntriesAre (local_blocklist_entries (lists (v_db (ad_service a))))) a.
Definition list_dnsbl_allowlist_entries_rpc : AdminHandler := fun a => admin_reply (EntriesAre (dnsbl_allowlist (lists (v_db (ad_service a))))) a.

(** The rows of the table; hits and misses are always reported as none. *)
Definition get_cache_stats_rpc : AdminHandler := fun a =>
  admin_reply (CacheStatsAre (match u_cache (v_up (ad_service a)) with Some c => Z.of_nat (length (DnsCache.db c)) | None => 0 end) 0 0) a.

(** ** The calls *)

Inductive AdminRpc :=
  | Other (rpc : Rpc)
  | GenerateDnssecKey (zone algorithm key_type : string)
  | ListDnssecKeys (zone : string)
  | GetDsRecords (zone : string)
  | SetTrackedTlds (tlds : list string)
  | ListTrackedTlds
  | SetProxyConfig (config : option (string * string * string))
  | GetProxyConfig
  | SetTtlDriftConfig (config : option (string * string * F))
  | GetTtlDriftConfig
  | GetQueryLatencyStats
  | GetNetworkAssociations (scope_name : string)
  | ListScopedRecords (scope_name name_filter : string) (filter_by_type : bool) (type_filter : Z)
  | ListScopeTldListeners (scope_name : string)
  | ListAuthoritativeZones
  | ListLocalBlocklistEntries
  | ListDnsblAllowlistEntries
  | GetCacheStats.

Context (now wall : Z) (clock : option Z) (fresh : DnssecAlgorithm -> option (list Z)).

Definition admin_handle (rpc : AdminRpc) : AdminHandler :=
  match rpc with
  | Other rpc => fun a =>
      let (r, s) := handle server_name_ok auto_ptr now wall clock rpc (ad_service a) in
      (match r with Ok x => Ok (Base x) | Err e => Err e end, set_service s a)
  | GenerateDnssecKey z alg kt => generate_dnssec_key_rpc wall fresh z alg kt
  | ListDnssecKeys z => list_dnssec_keys_rpc z
  | GetDsRecords z => get_ds_records_rpc z
  | SetTrackedTlds l => set_tracked_tlds_rpc l
  | ListTrackedTlds => list_tracked_tlds_rpc
  | SetProxyConfig c => set_proxy_config_rpc c
  | GetProxyConfig => get_proxy_config_rpc
  | SetTtlDriftConfig c => set_ttl_drift_config_rpc c
  | GetTtlDriftConfig => get_ttl_drift_config_rpc
  | GetQueryLatencyStats => get_query_latency_stats_rpc
  | GetNetworkAssociations sc => get_network_associations_rpc sc
  | ListScopedRecords sc n b t => list_scoped_records_rpc sc n b t
  | ListScopeTldListeners sc => list_scope_tld_listeners_rpc sc
  | ListAuthoritativeZones => list_authoritative_zones_rpc
  | ListLocalBlocklistEntries => list_local_blocklist_entries_rpc
  | ListDnsblAllowlistEntries => list_dnsbl_allowlist_entries_rpc
  | GetCacheStats => get_cache_stats_rpc
  end.

Definition admin_call (peer : option IpAddr) (token : string) (rpc : AdminRpc) : AdminHandler := fun a =>
  match check_auth auth now peer token (v_auth (ad_service a)) with
  | (Err e, t) => (Err e, set_service (set_auth t (ad_service a)) a)
  | (Ok _, t) => admin_handle rpc (set_service (set_auth t (ad_service a)) a)
  end.

(** The calls that are named for reading: Get and List. *)
Definition reading_rpc (rpc : Rpc) : bool :=
  match rpc with
  | ListRecords _ _ _ | GetResolutionMode | GetDnsblConfig | ListNetworkScopes | GetSearchDomains _ | ListScopeTlds _
  | ListScopeTldForwarders _ _ | GetDns64Config | ListDhcpPools _ | ListDhcpLeases _ | ListDhcpCertOptions _ => true
  | _ => false
  end.

Definition reading (rpc : AdminRpc) : bool :=
  match rpc with
  | Other rpc => reading_rpc rpc
  | GenerateDnssecKey _ _ _ | SetTrackedTlds _ | SetProxyConfig _ | SetTtlDriftConfig _ => false
  | _ => true
  end.
End Admin.

(** * Lemmas *)

Lemma parse_algorithm_as_str alg : parse_algorithm (algorithm_as_str alg) = Some alg.
Proof. by destruct alg; vm_compute. Qed.

Lemma parse_key_type_as_str kt : parse_key_type (key_type_as_str kt) = Some kt.
Proof. by destruct kt; vm_compute. Qed.

Lemma generate_key_ok `{!Ring} fresh zone alg kt p : generate_key fresh zone alg kt = Ok p ->
  exists key, from_pkcs8 alg kt (pair_private_key p) = Ok key /\ pair_public_key p = sk_public_key key /\ pair_key_tag p = sk_key_tag key /\
              sk_algorithm key = alg /\ sk_key_type key = kt.
Proof.
  unfold generate_key. destruct (signing_supported alg); [|done]. cbn. destruct (fresh alg) as [bs|]; [|done].
  destruct (from_pkcs8 alg kt bs) as [key|] eqn:E; [|done]. intros [= <-]. exists key. cbn. split_and!; try done.
  - by apply from_pkcs8_key in E as [].
  - unfold from_pkcs8 in E. case_match; [done|]. apply result_bind_ok in E as ([m pk] & _ & E). case_bool_decide; [|done]. by injection E as <-.
Qed.

(** A row that was stored with a key that loads is used by a pass. *)
Lemma load_keys_elem `{!Ring} rows row key : row ∈ rows -> kr_active row = true -> load_key row = Ok key -> key ∈ (load_keys rows).1.
Proof.
  intros Hr Ha Hl. unfold load_keys. cbn. apply list_elem_of_omap. exists (Ok key). split; [|done].
  apply list_elem_of_fmap. exists row. split; [by rewrite Hl|]. by apply elem_filter_bool.
Qed.

Lemma list_dnssec_keys_normal zone s : list_dnssec_keys (normalize_name zone) s = list_dnssec_keys zone s.
Proof. unfold list_dnssec_keys. by rewrite normalize_name_idem. Qed.

Lemma sign_zone_normal `{!Base64, !Hex, !Ring, !MapIter} svcb clock zone s : sign_zone svcb clock (normalize_name zone) s = sign_zone svcb clock zone s.
Proof. unfold sign_zone. by rewrite normalize_name_idem. Qed.

(** A zone without keys is left as it is by a pass, but for its marks. *)
Lemma sign_zone_keyless `{!Base64, !Hex, !Ring, !MapIter} svcb clock zone s : list_dnssec_keys zone (signing s) = [] ->
  (exists why, (sign_zone svcb clock zone s).1 = Ok (NotSigned why)) /\ dns_records (sign_zone svcb clock zone s).2 = dns_records s.
Proof.
  intros Hnone. unfold sign_zone, sign_pass.
  change (list_dnssec_keys (normalize_name zone) (signing (set_signing (begin_zone_resign (normalize_name zone)) s)))
    with (list_dnssec_keys (normalize_name zone) (signing s)).
  rewrite list_dnssec_keys_normal, Hnone. cbn. eauto.
Qed.

(** A zone with a key that loads is signed or the pass fails. *)
Lemma sign_zone_keyed `{!Base64, !Hex, !Ring, !MapIter} svcb clock zone s key :
  key ∈ (load_keys (list_dnssec_keys zone (signing s))).1 -> forall why, (sign_zone svcb clock zone s).1 <> Ok (NotSigned why).
Proof.
  intros Hk why. unfold sign_zone, sign_pass.
  change (list_dnssec_keys (normalize_name zone) (signing (set_signing (begin_zone_resign (normalize_name zone)) s)))
    with (list_dnssec_keys (normalize_name zone) (signing s)).
  rewrite list_dnssec_keys_normal. destruct (list_dnssec_keys zone (signing s)) as [|row rows]; [by apply not_elem_of_nil in Hk|].
  destruct (load_keys _) as [[|k ks] w]; [by apply not_elem_of_nil in Hk|].
  repeat (case_match; try done); cbn; congruence.
Qed.

Lemma list_dnssec_keys_empty zone s : (forall k, k ∈ dnssec_keys s -> kr_zone k <> normalize_name zone) -> list_dnssec_keys zone s = [].
Proof.
  intros H. destruct (list_dnssec_keys zone s) as [|k ks] eqn:E; [done|].
  assert (k ∈ list_dnssec_keys zone s) as Hk by (rewrite E; left). apply elem_filter_bool in Hk as [Hk Hz%String.eqb_eq]. by apply H in Hk.
Qed.

(** ** Trimmed text *)

Lemma trim_end_idem s : trim_end (trim_end s) = trim_end s.
Proof.
  induction s as [|c s IH]; [done|]. cbn. destruct (trim_end s) as [|d t] eqn:E.
  - destruct (is_space c) eqn:Ec; [done|]. cbn. by rewrite Ec.
  - cbn -[trim_end]. change (trim_end (String c (String d t))) with
      (match trim_end (String d t) with EmptyString => if is_space c then EmptyString else String c EmptyString | t => String c t end).
    by rewrite IH.
Qed.

Lemma trim_end_head c s : is_space c = false -> exists t, trim_end (String c s) = String c t.
Proof. intros H. cbn. rewrite H. destruct (trim_end s); eauto. Qed.

Lemma trim_start_spec s : trim_start s = ""%string \/ exists c t, trim_start s = String c t /\ is_space c = false.
Proof. induction s as [|c s IH]; [by left|]. cbn. destruct (is_space c) eqn:E; [done|]. right. by exists c, s. Qed.

(** A trimmed text that is not empty starts and ends with a character that is not a
    space, and stays so in lower case and with a dot behind it. *)
Lemma str_trim_lower s : str_trim (to_lowercase (str_trim s)) = to_lowercase (str_trim s).
Proof.
  unfold str_trim at 2 3. destruct (trim_start_spec s) as [-> |(c & t & -> & Hc)]; [done|].
  destruct (trim_end_head c t Hc) as [u Hu]. pose proof (trim_end_idem (String c t)) as Hi. rewrite Hu in Hi |- *. unfold to_lowercase, str_trim.
  assert (forall c, is_space (lower_char c) = is_space c) as Hl by (intros x; by destruct x as [[] [] [] [] [] [] [] []]).
  assert (forall x, trim_end (str_map lower_char x) = str_map lower_char (trim_end x)) as Hm.
  { induction x as [|d x IH]; [done|]. cbn. rewrite IH, Hl. destruct (trim_end x); [|done]. by destruct (is_space d). }
  assert (trim_start (str_map lower_char (String c u)) = str_map lower_char (String c u)) as -> by (cbn; by rewrite Hl, Hc).
  by rewrite Hm, Hi.
Qed.

Lemma str_trim_dot s : str_trim s = s -> s <> ""%string -> str_trim (s +:+ ".") = s +:+ ".".
Proof.
  intros Hs Hne. destruct (trim_start_spec s) as [E|(c & t & E & Hc)]; [unfold str_trim in Hs; rewrite E in Hs; cbn in Hs; by subst|].
  assert (exists u, s = String c u) as [u ->] by (unfold str_trim in Hs; rewrite E in Hs; destruct (trim_end_head c t Hc) as [u Hu]; exists u; congruence).
  unfold str_trim. cbn [String.append trim_start]. rewrite Hc.
  assert (forall x, trim_end (x +:+ ".") = x +:+ ".") as Hd; [|exact (Hd (String c u))].
  induction x as [|d x IH]; [done|]. cbn [String.append trim_end]. rewrite IH. by destruct x.
Qed.

Lemma str_trim_normal s : str_trim s <> ""%string -> str_trim (normalize_name (str_trim s)) = normalize_name (str_trim s).
Proof.
  intros Hne. unfold normalize_name. destruct (ends_with_char _ _); [apply str_trim_lower|]. apply str_trim_dot; [apply str_trim_lower|].
  by destruct (str_trim s).
Qed.

Lemma normalize_ends_dot s : ends_with_char "." (normalize_name s) = true.
Proof. unfold normalize_name. destruct (ends_with_char "." (to_lowercase s)) eqn:E; [done|apply ends_with_char_app]. Qed.

(** What is stored is stored again as it is. *)
Lemma stored_tld_idem t x : stored_tld t = Some x -> stored_tld x = Some x.
Proof.
  unfold stored_tld. destruct (String.eqb_spec (str_trim t) "") as [|Hne]; [done|].
  destruct (_ =? "common")%string eqn:Ec; intros [= <-]; [by vm_compute|]. rewrite (str_trim_normal t Hne).
  destruct (String.eqb_spec (normalize_name (str_trim t)) "") as [E|_].
  { pose proof (normalize_ends_dot (str_trim t)) as H. by rewrite E in H. }
  destruct (String.eqb_spec (to_lowercase (normalize_name (str_trim t))) "common") as [E|_]; [|by rewrite normalize_name_idem].
  pose proof (normalize_ends_dot (str_trim t)) as H. rewrite <- ends_with_char_lower, E in H. by vm_compute in H.
Qed.

Lemma sort_text_elem l x : x ∈ sort_text l <-> x ∈ l.
Proof. unfold sort_text. by rewrite merge_sort_Permutation. Qed.

Lemma store_listed tlds : store_tracked_tlds (list_tracked_tlds (store_tracked_tlds tlds)) = store_tracked_tlds tlds.
Proof.
  apply set_eq. intros x. unfold store_tracked_tlds at 1. rewrite elem_of_list_to_set, list_elem_of_omap. split.
  - intros (y & Hy & Hx). unfold list_tracked_tlds in Hy. rewrite sort_text_elem, elem_of_elements in Hy. pose proof Hy as Hy'.
    apply elem_of_list_to_set, list_elem_of_omap in Hy' as (t & _ & Ht). rewrite (stored_tld_idem _ _ Ht) in Hx. by injection Hx as <-.
  - intros Hx. exists x. unfold list_tracked_tlds. rewrite sort_text_elem, elem_of_elements. split; [done|].
    apply elem_of_list_to_set, list_elem_of_omap in Hx as (t & _ & Ht). by eapply stored_tld_idem.
Qed.

Lemma listed_not_root tlds : existsb (fun t => (str_trim t =? ".")%string) tlds = false ->
  existsb (fun t => (str_trim t =? ".")%string) (list_tracked_tlds (store_tracked_tlds tlds)) = false.
Proof.
  intros H. apply not_true_iff_false. intros (x & Hx & E%String.eqb_eq)%existsb_exists. apply list_elem_of_In in Hx. unfold list_tracked_tlds in Hx.
  rewrite sort_text_elem, elem_of_elements in Hx. apply elem_of_list_to_set, list_elem_of_omap in Hx as (t & Ht & Hx).
  assert (str_trim t = "."%string) as Hr; [|apply not_true_iff_false in H; apply H, existsb_exists; exists t; split; [by apply list_elem_of_In|by rewrite Hr]].
  unfold stored_tld in Hx. destruct (String.eqb_spec (str_trim t) "") as [|Hne]; [done|]. destruct (_ =? "common")%string; injection Hx as <-; [done|].
  rewrite (str_trim_normal t Hne) in E. unfold normalize_name in E. destruct (ends_with_char _ _); [by apply lower_is_dot|].
  destruct (str_trim t) as [|c u]; [done|]. cbn in E. by destruct u.
Qed.

Lemma set_tracked_tlds_elem tlds tracked t : t ∈ set_tracked_tlds tlds tracked <-> exists raw, raw ∈ tlds /\ t ∈ expand_tld raw.
Proof.
  unfold set_tracked_tlds. cbn zeta. rewrite elem_of_union, elem_of_filter, !elem_of_list_to_set, list_elem_of_bind. split.
  - intros [[(raw & ? & ?) _]|(raw & ? & ?)]; by exists raw.
  - intros (raw & ? & ?). right. by exists raw.
Qed.

Lemma owned_tlds_elem `{ML : MapIterLaws} s t : t ∈ owned_tlds s <-> is_Some (tld_owner_cache s !! t).
Proof.
  unfold owned_tlds. rewrite list_elem_of_fmap. split.
  - intros ([k v] & -> & Hin). rewrite map_iter_perm in Hin. apply elem_of_map_to_list in Hin. by exists v.
  - intros [v Hv]. exists (t, v). split; [done|]. rewrite map_iter_perm. by apply elem_of_map_to_list.
Qed.

(** * Properties *)

Section Properties.
Context {L : DnsLib} {Out : Outside L} {RG : Ring}.
Context (server_name_ok : string -> bool) (auth : AuthConfig) (auto_ptr : bool).
Context (config_tlds : list string) (sha256 : list Z -> list Z).
Context {F : Type} (zero : F) `{FD : !FancyDuration}.
Context (now wall : Z) (clock : option Z) (fresh : DnssecAlgorithm -> option (list Z)).

Local Abbreviation run := (admin_handle server_name_ok auto_ptr config_tlds sha256 zero now wall clock fresh).

(** What a call named for reading leaves: all as it was, but that blocklist cooldowns
    that are over are dropped, that the association of the address asked about is
    dropped from the cache when it has lapsed, and that the set of tracked zones is
    computed anew from the stored list. *)
Definition tidied (rpc : @AdminRpc F) (a : @Admin L Out F) (after : @Admin L Out F) : Prop :=
  let x := scopes (v_db (ad_service a)) in
  match rpc with
  | Other GetDnsblConfig =>
      after = set_service (set_dnsbl (set_rotated (filter (fun kv => now < ro_until kv.2) (c_rotated (v_dnsbl (ad_service a))))
                (v_dnsbl (ad_service a))) (ad_service a)) a
  | Other (GetSearchDomains ip) =>
      after = a \/
      exists e, association_cache x !! ip = Some e /\ ac_expires_at e <= now /\
        after = set_service (Control.set_scopes (set_associations (network_associations x) (delete ip (association_cache x)) x)
                  (ad_service a)) a
  | ListTrackedTlds =>
      after = set_tracked (ad_tracked_rows a)
                (refresh_tracked_tlds config_tlds (list_tracked_tlds (ad_tracked_rows a)) (v_db (ad_service a)) (ad_tracked a)) a
  | _ => after = a
  end.

Lemma set_service_id (a : @Admin L Out F) : set_service (ad_service a) a = a.
Proof. by destruct a. Qed.

Lemma set_scopes_id (s : Service) : Control.set_scopes (scopes (v_db s)) s = s.
Proof. by destruct s as [[]]. Qed.

Lemma search_domains_store ip (x : ScopeStore) :
  (get_search_domains now ip x).2 = x \/
  exists e, association_cache x !! ip = Some e /\ ac_expires_at e <= now /\
    (get_search_domains now ip x).2 = set_associations (network_associations x) (delete ip (association_cache x)) x.
Proof.
  assert ((get_search_domains now ip x).2 = (get_scope_for_ip now ip x).2) as ->.
  { unfold get_search_domains. destruct (get_scope_for_ip now ip x) as [[sc|] x']; [|done]. by destruct (get_network_scope x' sc). }
  unfold get_scope_for_ip. destruct (association_cache x !! ip) as [e|] eqn:E; [|by left].
  destruct (now <? ac_expires_at e) eqn:El; [by left|]. right. exists e. apply Z.ltb_ge in El. done.
Qed.

Lemma reading_rpc_tidies rpc (a : @Admin L Out F) : reading_rpc rpc = true -> tidied (Other rpc) a (run (Other rpc) a).2.
Proof.
  intros Hr. destruct rpc; try done; cbn [admin_handle handle tidied];
    unfold list_records_rpc, get_resolution_mode_rpc, list_network_scopes_rpc, list_scope_tlds_rpc,
      list_scope_tld_forwarders_rpc, get_dns64_config_rpc, list_dhcp_pools_rpc, list_dhcp_leases_rpc,
      list_dhcp_cert_options_rpc, get_dnsbl_config_rpc, get_search_domains_rpc, missing, refuse, reply.
  all: try (by rewrite set_service_id).
  all: try (destruct (scope_name =? "")%string; by rewrite set_service_id).
  - destruct (ip =? "")%string; [left; apply set_service_id|].
    destruct (search_domains_store ip (scopes (v_db (ad_service a)))) as [E|(e & H1 & H2 & E)];
      destruct (get_search_domains now ip (scopes (v_db (ad_service a)))) as [d x]; cbn [snd] in E; subst x.
    + left. cbn. rewrite set_scopes_id. apply set_service_id.
    + right. by exists e.
Qed.

Lemma reading_tidies rpc (a : @Admin L Out F) : reading rpc = true -> tidied rpc a (run rpc a).2.
Proof.
  destruct rpc; intros Hr; try done; [by apply reading_rpc_tidies|..]; cbn [admin_handle tidied].
  - unfold list_scoped_records_rpc. by case_match.
  - unfold list_scope_tld_listeners_rpc. by case_match.
Qed.

(** C20: a call that is refused changes nothing. Of the control plane's calls, all but
    those that set and show the encrypted transports ([Transports]) and those for
    TLSA records, certificates and enrollment ([Settings], [Acme]): a caller who does
    not authenticate gets the refusal and nothing else happens but the note of the
    failure; a call that ends in an error status leaves every store and setting as it
    was, but for a signing pass that fails midway; and a call named for reading leaves
    everything as it was even when it succeeds, but that it clears away what has run
    out or is computed from what is stored ([tidied]). *)
Theorem every_call_guarded peer token rpc (a : @Admin L Out F) :
  let c := check_auth auth now peer token (v_auth (ad_service a)) in
  let out := admin_call server_name_ok auth auto_ptr config_tlds sha256 zero now wall clock fresh peer token rpc a in
  let same := set_service (set_auth c.2 (ad_service a)) a in
  (forall e, c.1 = Err e -> out = (Err e, same)) /\
  (forall st, out.1 = Err st -> (exists z, rpc = Other (SignZone z) /\ c.1 = Ok tt) \/ out.2 = same) /\
  (reading rpc = true -> c.1 = Ok tt -> tidied rpc same out.2).
Proof.
  cbn zeta. unfold admin_call. destruct (check_auth auth now peer token (v_auth (ad_service a))) as [[[]|e] t]; cbn [fst snd].
  2: { split; [by intros e' [= <-]|]. split; [auto|done]. }
  set (b := set_service (set_auth t (ad_service a)) a). split; [done|]. split; [|intros Hr _; by apply reading_tidies].
  intros st. destruct rpc; cbn [admin_handle]; try (by right).
  - destruct (handle _ _ _ _ _ rpc (ad_service b)) as [r s'] eqn:E. cbn. destruct r as [r|e]; [done|]. intros _.
    apply handle_err in E as [[z ->]| ->]; [left; by exists z|right]. by destruct a.
  - unfold generate_dnssec_key_rpc. repeat (case_match; try done); auto.
  - unfold set_tracked_tlds_rpc. case_match; [auto|done].
  - unfold list_scoped_records_rpc. case_match; [auto|done].
  - unfold list_scope_tld_listeners_rpc. case_match; [auto|done].
Qed.

(** C36: a key that is generated is one the zone is signed with. A call that is refused
    leaves everything as it was; otherwise the key is of the algorithm and the type
    that were asked for, the keys that were there stay, the zone awaits a pass, and
    that pass does not find the zone without a usable key: if it signs, it publishes
    the key, and the DS record handed out for a key-signing key is the digest of
    the very key that is published. *)
Theorem generated_key_signs `{ML : !MapIterLaws} zone algorithm key_type (a : @Admin L Out F) :
  match run (GenerateDnssecKey zone algorithm key_type) a with
  | (Err _, a') => a' = a
  | (Ok _, a') =>
      let s := ad_zones a in let s' := ad_zones a' in let apex := normalize_name zone in
      exists row key,
        parse_algorithm algorithm = Some (sk_algorithm key) /\ parse_key_type key_type = Some (sk_key_type key) /\
        list_dnssec_keys zone (signing s') = list_dnssec_keys zone (signing s) ++ [row] /\ load_key row = Ok key /\
        dns_records s' = dns_records s /\ apex ∈ resign_pending (signing s') /\ find_signed_zone (signing s') zone = Some apex /\
        (sk_key_type key = KSK ->
           row ∈ get_active_keys zone "KSK" (signing s') /\
           ds_of_row sha256 row = compute_ds_sha256 sha256 apex (sk_key_tag key) (sk_algorithm key) (sk_public_key key) KSK) /\
        (forall why, (sign_zone svcb_canonical_rdata clock zone s').1 <> Ok (NotSigned why)) /\
        (forall sm z, apex <> "."%string -> Forall (fun r => normal (r_name r)) (dns_records s) ->
           sign_zone svcb_canonical_rdata clock zone s' = (Ok (Signed sm), z) ->
           exists r, r ∈ dns_records z /\ key_of r = (apex, DNSKEY) /\ r_value r = dnskey_value key)
  end.
Proof.
  cbn [admin_handle]. unfold generate_dnssec_key_rpc. destruct (parse_algorithm algorithm) as [alg|] eqn:Ea; [|done].
  destruct (parse_key_type key_type) as [kt|] eqn:Ek; [|done]. destruct (signing_supported alg); [|done]. cbn [negb].
  destruct (generate_key fresh zone alg kt) as [p|e] eqn:Eg; [|done]. apply generate_key_ok in Eg as (key & Hl & Hpub & Htag & <- & <-).
  cbn zeta. unfold admin_reply. set (row := mkKeyRow (ad_next_key a) (normalize_name zone) "" (algorithm_as_str (sk_algorithm key)) (key_type_as_str (sk_key_type key))
    (pair_private_key p) (pair_public_key p) (pair_key_tag p) wall true).
  assert (load_key row = Ok key) as Hrow by (unfold load_key; cbn; by rewrite parse_algorithm_as_str, parse_key_type_as_str, Hl).
  match goal with |- context [ad_zones ?x] => set (a' := x) end.
  assert (list_dnssec_keys zone (signing (ad_zones a')) = list_dnssec_keys zone (signing (ad_zones a)) ++ [row]) as Hkeys.
  { unfold a', list_dnssec_keys, ad_zones. cbn. rewrite List.filter_app. cbn. by rewrite String.eqb_refl. }
  assert (key ∈ (load_keys (list_dnssec_keys zone (signing (ad_zones a')))).1) as Hin.
  { apply (load_keys_elem _ row); [rewrite Hkeys; set_solver|done|done]. }
  exists row, key. split_and!; try done.
  - set_solver.
  - unfold find_signed_zone. cbn. unfold in_set. by rewrite bool_decide_true by set_solver.
  - intros Hk. split.
    + unfold get_active_keys. apply elem_filter_bool. split; [cbn; set_solver|]. cbn. by rewrite String.eqb_refl, Hk.
    + cbn. by rewrite parse_algorithm_as_str, parse_key_type_as_str, Hpub, Htag, Hk.
  - by apply (sign_zone_keyed _ _ _ _ key).
  - intros sm z Hroot Hn Hs. rewrite <- sign_zone_normal in Hs.
    apply sign_zone_shape in Hs as (keys & groups & nsecs & keyrows & nsecrows & sigs & sigrows & Sh); [|apply normalize_name_idem|done|exact Hn].
    rewrite <- list_dnssec_keys_normal, <- (sh_keys Sh) in Hin.
    destruct (stores_elem_l _ _ _ (sh_keyrows Sh) (list_elem_of_fmap_2 (dnskey_record (normalize_name zone)) _ _ Hin)) as (r & Hr & D1 & D2 & D3 & _).
    exists r. split_and!; [rewrite (sh_rows Sh); set_solver| |done]. unfold key_of. rewrite D1, D2. cbn. by rewrite normalize_name_idem.
Qed.
(** Without its last key a zone keeps what was signed with it. The deletion succeeds,
    and from then on the zone counts as unsigned, so that neither the pass over the
    zones that await one nor the call to sign the zone touches its records: the key
    and its signatures stay published. *)
Theorem last_key_stays_published zone key_id cache (a : @Admin L Out F) :
  let apex := normalize_name zone in let s := ad_zones a in
  let keys := list_dnssec_keys zone (signing s) in
  keys <> [] -> Forall (fun k => kr_id k = key_id) keys -> Forall (fun k => normalize_name (kr_zone k) = kr_zone k) (dnssec_keys (signing s)) ->
  let out := run (Other (DeleteDnssecKey key_id)) a in let s1 := ad_zones out.2 in
  let again := run (Other (SignZone zone)) out.2 in
  out.1 = Ok (Base done) /\ apex ∉ signed_zones_cache (signing s1) /\
  (apex ∉ resign_pending (signing s) -> apex ∉ resign_pending (signing s1)) /\
  dns_records s1 = dns_records s /\ dns_records (resign_zone svcb_canonical_rdata clock (s1, cache) zone).1 = dns_records s /\
  (exists why, again.1 = Ok (Base (Ack false why))) /\ dns_records (ad_zones again.2) = dns_records s.
Proof.
  cbn zeta. intros Hne Hid Hnorm. set (s := ad_zones a) in *.
  assert (existsb (fun k => kr_id k =? key_id) (dnssec_keys (signing s)) = true) as Hex.
  { destruct (list_dnssec_keys zone (signing s)) as [|k ks] eqn:E; [done|]. apply existsb_exists. exists k.
    assert (k ∈ list_dnssec_keys zone (signing s)) as Hk by (rewrite E; left). apply elem_filter_bool in Hk as [Hk _].
    split; [by apply list_elem_of_In|]. apply Forall_inv in Hid. lia. }
  set (sg := (delete_dnssec_key key_id (signing s)).2). assert (list_dnssec_keys zone sg = []) as Hnone.
  { unfold sg, delete_dnssec_key. rewrite Hex. apply list_dnssec_keys_empty. cbn. intros k Hk Hz. apply elem_filter_bool in Hk as [Hk Hn].
    rewrite Forall_forall in Hid. rewrite (Hid k) in Hn; [by rewrite Z.eqb_refl in Hn|]. apply elem_filter_bool. split; [done|]. by rewrite Hz, String.eqb_refl. }
  set (s1 := set_signing (fun _ => sg) s).
  assert (run (Other (DeleteDnssecKey key_id)) a = (Ok (Base done), set_service (set_zones s1 (ad_service a)) a)) as ->.
  { cbn. unfold delete_dnssec_key_rpc. fold (ad_zones a). fold s. unfold s1, sg, delete_dnssec_key. by rewrite Hex. }
  cbn [fst snd]. change (ad_zones (set_service (set_zones s1 (ad_service a)) a)) with s1.
  assert (normalize_name zone ∉ signed_zones_cache sg) as Hns.
  { unfold sg, delete_dnssec_key. rewrite Hex. cbn. intros [Hz _]%elem_of_filter. unfold active_zones in Hz. cbn in Hz.
    apply list_elem_of_fmap in Hz as (k & Hz & Hk). apply elem_filter_bool in Hk as [Hk _].
    assert (k ∈ list_dnssec_keys zone sg) as Hin.
    { unfold sg, delete_dnssec_key. rewrite Hex. apply elem_filter_bool. split; [exact Hk|]. rewrite Forall_forall in Hnorm.
      apply elem_filter_bool in Hk as [Hk _]. rewrite Hz, (Hnorm k Hk). apply String.eqb_refl. }
    rewrite Hnone in Hin. by apply not_elem_of_nil in Hin. }
  destruct (sign_zone_keyless svcb_canonical_rdata clock zone s1 Hnone) as [[why Hwhy] Hrec].
  split_and!; [done|exact Hns| |done| | |].
  - intros Hp. unfold s1. cbn. unfold sg, delete_dnssec_key in Hns |- *. rewrite Hex in Hns |- *. cbn in Hns |- *. set_solver.
  - unfold resign_zone. destruct (sign_zone _ _ _ s1) as [o z]. cbn in Hwhy, Hrec. subst o. exact Hrec.
  - exists why. cbn. unfold sign_zone_rpc. cbn. destruct (sign_zone _ _ _ s1) as [o z]. cbn in Hwhy. by subst o.
  - cbn. unfold sign_zone_rpc. cbn. destruct (sign_zone _ _ _ s1) as [o z]. cbn in Hwhy, Hrec. by subst o.
Qed.
(** The tracked TLDs are replaced, never added to, and read back as something that can
    be set again. The root zone is refused before anything is stored; otherwise the
    names counted by are those of the file, of the new list and of the networks and
    no others, listing them changes nothing, and setting what is listed as stored
    changes nothing either. *)
Theorem tracked_tlds_replaced `{ML : !MapIterLaws} tlds (a : @Admin L Out F) :
  match run (SetTrackedTlds tlds) a with
  | (Err _, a') => a' = a /\ exists t, t ∈ tlds /\ str_trim t = "."%string
  | (Ok _, a') =>
      let rows := store_tracked_tlds tlds in
      (forall t, t ∈ ad_tracked a' <->
         exists raw, (raw ∈ config_tlds \/ raw ∈ rows \/ is_Some (tld_owner_cache (ad_scopes a) !! raw)) /\ t ∈ expand_tld raw) /\
      exists stored effective owned,
        run ListTrackedTlds a' = (Ok (TldsAre stored effective owned), a') /\
        (forall t, t ∈ stored <-> t ∈ rows) /\ (forall t, t ∈ effective <-> t ∈ ad_tracked a') /\
        run (SetTrackedTlds stored) a' = (Ok (TldsAre [] effective []), a')
  end.
Proof.
  cbn [admin_handle]. unfold set_tracked_tlds_rpc at 1. destruct (existsb _ tlds) eqn:Ex.
  { split; [done|]. apply existsb_exists in Ex as (t & Ht & E%String.eqb_eq). exists t. split; [by apply list_elem_of_In|done]. }
  unfold admin_reply. cbn zeta. set (rows := store_tracked_tlds tlds).
  set (next := fun old => refresh_tracked_tlds config_tlds (list_tracked_tlds rows) (v_db (ad_service a)) old).
  assert (forall old t, t ∈ next old <->
    exists raw, (raw ∈ config_tlds \/ raw ∈ rows \/ is_Some (tld_owner_cache (ad_scopes a) !! raw)) /\ t ∈ expand_tld raw) as Hnext.
  { intros old t. unfold next, refresh_tracked_tlds. rewrite set_tracked_tlds_elem. apply exist_proper. intros raw.
    rewrite !elem_of_app. unfold list_tracked_tlds. rewrite sort_text_elem, elem_of_elements, owned_tlds_elem. done. }
  assert (forall old, next (next old) = next old) as Hidem by (intros old; apply set_eq; intros t; by rewrite !Hnext).
  match goal with |- context [ad_tracked ?x] => set (a' := x) end.
  assert (set_tracked rows (next (ad_tracked a')) a' = a') as Ha by (unfold a', set_tracked; cbn; change (refresh_tracked_tlds config_tlds (list_tracked_tlds rows) (v_db (ad_service a)) (ad_tracked a)) with (next (ad_tracked a)); by rewrite Hidem).
  split; [apply Hnext|]. exists (list_tracked_tlds rows), (effective_tlds a'), (sort_text (owned_tlds (ad_scopes a))). split_and!.
  - unfold list_tracked_tlds_rpc. change (ad_tracked_rows a') with rows.
    change (refresh_tracked_tlds config_tlds (list_tracked_tlds rows) (v_db (ad_service a')) (ad_tracked a')) with (next (ad_tracked a')). by rewrite Ha.
  - intros t. unfold list_tracked_tlds. by rewrite sort_text_elem, elem_of_elements.
  - intros t. unfold effective_tlds. by rewrite sort_text_elem, elem_of_elements.
  - unfold set_tracked_tlds_rpc. unfold rows at 1. rewrite (listed_not_root tlds Ex). cbv zeta.
    assert (store_tracked_tlds (list_tracked_tlds rows) = rows) as -> by apply store_listed.
    change (refresh_tracked_tlds config_tlds (list_tracked_tlds rows) (v_db (ad_service a')) (ad_tracked a')) with (next (ad_tracked a')). by rewrite Ha.
Qed.
(** A proxy that is set is the one reported, its mode under its own name, and setting
    what is reported changes nothing. *)
Theorem proxy_setting_roundtrip c (a : @Admin L Out F) :
  let a' := (run (SetProxyConfig c) a).2 in
  exists p, run GetProxyConfig a' = (Ok (ProxyIs p), a') /\ run (SetProxyConfig p) a' = (Ok (Base done), a') /\
    (fun x => (x.1.1, x.1.2)) <$> p = (fun x => (x.1.1, x.1.2)) <$> c.
Proof.
  cbn [admin_handle fst snd]. eexists. split; [reflexivity|]. unfold get_proxy_config_rpc, set_proxy_config_rpc, admin_reply. cbn.
  destruct c as [[[u au] m]|]; cbn; [|done]. unfold proxy_to_proto, non_empty. cbn.
  assert (Http.parse_mode (mode_as_str (Http.parse_mode m)) = Http.parse_mode m) as -> by (by destruct (Http.parse_mode m)).
  destruct (au =? "")%string eqn:E; cbn; [by apply String.eqb_eq in E as ->|by rewrite E].
Qed.

(** The lists that are reported are the ones in force: a name is blocked exactly if the
    blocklist has it, an address or a name is exempt on its own exactly if the
    allowlist has it, and the zones are those the server answers for; reporting them
    changes nothing. *)
Theorem listed_is_enforced (a : @Admin L Out F) : lists_reachable (lists (v_db (ad_service a))) ->
  let l := lists (v_db (ad_service a)) in
  exists blocked allowed zs,
    run ListLocalBlocklistEntries a = (Ok (EntriesAre blocked), a) /\ run ListDnsblAllowlistEntries a = (Ok (EntriesAre allowed), a) /\
    run ListAuthoritativeZones a = (Ok (ZonesAre zs), a) /\
    (forall name, lookup_local_blocklist l name = true <-> is_Some (blocked !! name)) /\
    (forall name, is_dnsbl_allowlisted_exact l name = true <-> is_Some (allowed !! normalize_name name)) /\
    (forall zone, zone ∈ zs -> normalize_name zone = zone -> find_authoritative_zone l zone = Some zone).
Proof.
  intros (Hz & Hb & Ha)%lists_reachable_agree. cbn zeta. eexists _, _, _. split_and!; [reflexivity..| | |].
  - intros name. unfold lookup_local_blocklist, in_set. by rewrite bool_decide_eq_true, Hb, elem_of_dom.
  - intros name. unfold is_dnsbl_allowlisted_exact. rewrite <- elem_of_dom, <- Ha. case_bool_decide as E; [rewrite E; set_solver|].
    unfold in_set. by rewrite bool_decide_eq_true.
  - intros zone Hin Hn. unfold find_authoritative_zone, walk_suffixes, in_set. rewrite Hn, Hz, bool_decide_true by done. done.
Qed.

(** An association that has lapsed is still reported: it no longer places its address
    in the network, and is listed with it until the address leaves. *)
Theorem lapsed_association_listed ip scope_name ttl t1 (a : @Admin L Out F) :
  ip <> ""%string -> scope_name <> ""%string -> now + from_secs (ttl_or_default ttl) <= t1 ->
  let a' := (run (Other (JoinNetwork ip scope_name ttl)) a).2 in
  (get_scope_for_ip t1 ip (ad_scopes a')).1 = None /\
  exists m, run (GetNetworkAssociations "") (set_service (Control.set_scopes (get_scope_for_ip t1 ip (ad_scopes a')).2 (ad_service a')) a') =
    (Ok (AssociationsAre m), set_service (Control.set_scopes (get_scope_for_ip t1 ip (ad_scopes a')).2 (ad_service a')) a') /\
    m !! ip = Some (scope_name, ttl_or_default ttl).
Proof.
  intros Hi%String.eqb_neq Hs%String.eqb_neq Ht. cbn [admin_handle fst snd handle]. unfold join_network_rpc. rewrite Hi, Hs. cbn.
  unfold get_scope_for_ip, ad_scopes. cbn. rewrite lookup_insert_eq. cbn. rewrite (proj2 (Z.ltb_ge _ _)) by lia. split; [done|].
  eexists. split; [reflexivity|]. unfold list_network_associations. rewrite lookup_omap. cbn. by rewrite lookup_insert_eq.
Qed.
End Properties.

(** * At concrete calls *)

Local Abbreviation Lib := (lib_for "nas.home." 1).
Local Abbreviation Now := (from_secs 100).

#[local] Existing Instance sample_ring.
#[local] Instance sample_lib : DnsLib := Lib.

Definition sample_admin : @Admin Lib (quiet_outside Lib) unit := mkAdmin sample_service 1 ∅ ∅ None Disabled [].

Local Abbreviation sample_run rpc a :=
  (@admin_handle Lib (quiet_outside Lib) sample_ring (fun _ => true) true ["box"] (fun _ => [171; 205]) unit tt sample_fancy Now 1700000000 (Some 1700000000)
     (fun _ => Some (repeat 7 32)) rpc a).

Local Abbreviation keyed := (sample_run (GenerateDnssecKey "Example.com" "ed25519" "ksk") sample_admin).

Lemma keyed_ok : keyed.1 = Ok (KeyIs (mkProtoKey 1 "Example.com" "" "Ed25519" "KSK" (as_u 32 (compute_key_tag Ed25519 KSK (repeat 7 32))) 1700000000 true)).
Proof. vm_compute. reflexivity. Qed.

Local Abbreviation guarded_call token rpc :=
  (@admin_call Lib (quiet_outside Lib) sample_ring (fun _ => true) (mkAuth "hunter2" false) true ["box"] (fun _ => [171; 205]) unit tt sample_fancy
     Now 1700000000 (Some 1700000000) (fun _ => Some (repeat 7 32)) (Some (V4 9)) token rpc sample_admin).

(** A wrong secret; a bad argument under the right one; a call that reads. *)
Lemma every_call_guarded_witness :
  (guarded_call "guess" (SetTrackedTlds ["com"])).1 = Err Unauthenticated /\
  ad_tracked_rows (guarded_call "guess" (SetTrackedTlds ["com"])).2 = ∅ /\
  ad_tracked_rows (guarded_call "hunter2" (SetTrackedTlds ["."])).2 = ∅ /\
  ad_tracked_rows (guarded_call "hunter2" ListTrackedTlds).2 = ∅.
Proof.
  pose proof (@every_call_guarded Lib (quiet_outside Lib) sample_ring (fun _ => true) (mkAuth "hunter2" false) true ["box"] (fun _ => [171; 205])
    unit tt sample_fancy Now 1700000000 (Some 1700000000) (fun _ => Some (repeat 7 32)) (Some (V4 9))) as H.
  assert ((check_auth (mkAuth "hunter2" false) Now (Some (V4 9)) "guess" (v_auth (ad_service sample_admin))).1 = Err Unauthenticated) as E1
    by (vm_compute; reflexivity).
  assert ((check_auth (mkAuth "hunter2" false) Now (Some (V4 9)) "hunter2" (v_auth (ad_service sample_admin))).1 = Ok tt) as E2
    by (vm_compute; reflexivity).
  split; [|split; [|split]].
  - by rewrite (proj1 (H "guess" (SetTrackedTlds ["com"]) sample_admin) _ E1).
  - by rewrite (proj1 (H "guess" (SetTrackedTlds ["com"]) sample_admin) _ E1).
  - destruct (proj1 (proj2 (H "hunter2" (SetTrackedTlds ["."]) sample_admin)) (InvalidArgument "the root zone") ltac:(vm_compute; reflexivity))
      as [(z & Hz & _)|E]; [discriminate|]. by rewrite E.
  - pose proof (proj2 (proj2 (H "hunter2" ListTrackedTlds sample_admin)) eq_refl E2) as E. cbn [tidied] in E. by rewrite E.
Defined.

Lemma generated_key_signs_witness :
  exists row key, load_key row = Ok key /\ list_dnssec_keys "example.com" (signing (ad_zones keyed.2)) = [row] /\ sk_key_type key = KSK /\
    forall why, (sign_zone svcb_canonical_rdata (Some 1700000000) "Example.com" (ad_zones keyed.2)).1 <> Ok (NotSigned why).
Proof.
  pose proof (@generated_key_signs Lib (quiet_outside Lib) sample_ring (fun _ => true) true ["box"] (fun _ => [171; 205]) unit tt sample_fancy
    Now 1700000000 (Some 1700000000) (fun _ => Some (repeat 7 32)) default_iter_laws "Example.com" "ed25519" "ksk" sample_admin) as H.
  pose proof keyed_ok as E. destruct keyed as [r a']. cbn [fst snd] in E |- *. subst r.
  destruct H as (row & key & _ & Hk & Hl & Hr & _ & _ & _ & _ & Hn & _). exists row, key. split_and!; [exact Hr|exact Hl| |exact Hn].
  change (parse_key_type "ksk") with (Some KSK) in Hk. congruence.
Defined.

Lemma last_key_stays_published_witness :
  let out := sample_run (Other (DeleteDnssecKey 1)) keyed.2 in
  out.1 = Ok (Base done) /\ dns_records (ad_zones (sample_run (Other (SignZone "example.com")) out.2).2) = dns_records (ad_zones keyed.2).
Proof.
  destruct (@last_key_stays_published Lib (quiet_outside Lib) sample_ring (fun _ => true) true ["box"] (fun _ => [171; 205]) unit tt sample_fancy
    Now 1700000000 (Some 1700000000) (fun _ => Some (repeat 7 32)) "example.com" 1 None keyed.2) as (H1 & _ & _ & _ & _ & _ & H2).
  - vm_compute. discriminate.
  - apply (bool_decide_unpack _). vm_compute. exact I.
  - apply (bool_decide_unpack _). vm_compute. exact I.
  - split; [exact H1|exact H2].
Defined.

Lemma tracked_tlds_replaced_witness :
  let a' := (sample_run (SetTrackedTlds ["COM"; " org. "; ""]) sample_admin).2 in
  exists effective owned, sample_run ListTrackedTlds a' = (Ok (TldsAre ["com."; "org."] effective owned), a').
Proof.
  pose proof (@tracked_tlds_replaced Lib (quiet_outside Lib) sample_ring (fun _ => true) true ["box"] (fun _ => [171; 205]) unit tt sample_fancy
    Now 1700000000 (Some 1700000000) (fun _ => Some (repeat 7 32)) default_iter_laws ["COM"; " org. "; ""] sample_admin) as H.
  assert (list_tracked_tlds (store_tracked_tlds ["COM"; " org. "; ""]) = ["com."; "org."]) as E by (vm_compute; reflexivity).
  destruct H as (_ & stored & effective & owned & Hl & _). exists effective, owned.
  assert (stored = ["com."; "org."]) as <-; [|exact Hl]. pose proof (f_equal fst Hl) as Hs. vm_compute in Hs. congruence.
Defined.

Lemma listed_is_enforced_witness :
  let a := (sample_run (Other (AddLocalBlocklistEntry (Some ("ads.test", "noise")))) sample_admin).2 in
  exists blocked, sample_run ListLocalBlocklistEntries a = (Ok (EntriesAre blocked), a) /\
    (lookup_local_blocklist (lists (v_db (ad_service a))) "ads.test" = true <-> is_Some (blocked !! "ads.test")).
Proof.
  destruct (@listed_is_enforced Lib (quiet_outside Lib) sample_ring (fun _ => true) true ["box"] (fun _ => [171; 205]) unit tt sample_fancy
    Now 1700000000 (Some 1700000000) (fun _ => Some (repeat 7 32)) (sample_run (Other (AddLocalBlocklistEntry (Some ("ads.test", "noise")))) sample_admin).2)
    as (blocked & allowed & zs & H1 & _ & _ & H2 & _).
  - apply (lists_step empty_lists); [constructor|]. apply lstep_block.
  - exists blocked. split; [exact H1|apply H2].
Defined.

Lemma lapsed_association_listed_witness :
  let a' := (sample_run (Other (JoinNetwork "10.0.0.9" "office" 60)) sample_admin).2 in
  (get_scope_for_ip (from_secs 200) "10.0.0.9" (ad_scopes a')).1 = None.
Proof.
  destruct (@lapsed_association_listed Lib (quiet_outside Lib) sample_ring (fun _ => true) true ["box"] (fun _ => [171; 205]) unit tt sample_fancy
    Now 1700000000 (Some 1700000000) (fun _ => Some (repeat 7 32)) "10.0.0.9" "office" 60 (from_secs 200) sample_admin) as [H _];
    [discriminate|discriminate|vm_compute; discriminate|]. exact H.
Defined.
