(* ===== verification/Boot.v ===== *)
(** The start of the server ([src/src/main.rs]) from the settings of
    [src/src/config.rs]: what each setting becomes in the parts that run, what is
    skipped and what stops the start. Timers, logs and the tasks that only run
    operations modelled elsewhere are left out. *)

From S2P Require Import Prelude RustStr Names Ip RecordCache KeyCache DelegationCache DnsCache ZoneStore Scopes Database.
From S2P Require Import Forwarder Tiers Nameservers Rdata Message Validate Negative Upstream Resolver Dnsbl Server AcmeStore Ca Acme.
From S2P Require Import AcmeSample ResolverProofs Recursion Http Probe Ingress Metrics Auth Settings Transports Admin.
From stdpp Require Import base gmap sets list option strings.
From Stdlib Require Import ZArith Lia Bool Ascii.

Open Scope Z_scope.
Local Open Scope rolodex_scope.

(** * Settings *)

Inductive DnsBind := BindUdp (a : string) | BindTcp (a : string).

Definition udp_addrs (l : list DnsBind) : list string := omap (fun b => match b with BindUdp a => Some a | _ => None end) l.
Definition tcp_addrs (l : list DnsBind) : list string := omap (fun b => match b with BindTcp a => Some a | _ => None end) l.

Record GrpcConfig := mkGrpc { g_tcp_bind : string; g_unix_socket : string; g_shared_secret : string }.

Record SecureUpstreamConfig := mkSecure { su_transport : string; su_addr : string; su_hostname : string; su_path : string }.

Record ResolutionConfig := mkResolution {
  rs_mode : string;
  rs_root_hints : list string;
  rs_secure_upstreams : list SecureUpstreamConfig;
  rs_public_fallback : list string;
  rs_switch_grace_failures : Z;
  rs_delegation_persist_min_ttl : Z;
  rs_default_ttl : Z;
}.

Record DnsblProviderConfig := mkProviderConfig {
  dp_zone : string;
  dp_enabled : bool;
  dp_refusal_codes : list string;
  dp_cooldown_secs : option Z;
}.

Record DnsblSettings := mkDnsblSettings { db_enabled : bool; db_providers : list DnsblProviderConfig; db_cooldown_secs : Z }.

Record SecurityConfig := mkSecurity {
  sec_qname_case : bool;
  sec_overlay_cidrs : list string;
  sec_recursion_cidrs : list string;
}.

Record AcmeSettings := mkAcmeSettings {
  am_bind : string;
  am_portal_bind : string;
  am_tls : TlsConfig;
  am_directory_url : string;
  am_root_ca_cn : string;
  am_leaf_validity_days : Z;
  am_tlsa : AcmeTlsa;
  am_require_eab : bool;
  am_issuance_scope : string;
}.

Record FileConfig := mkFileConfig {
  fc_bind : list DnsBind;
  fc_ingress_port : Z;
  fc_grpc : GrpcConfig;
  fc_forwarders : list string;
  fc_resolution : ResolutionConfig;
  fc_validate : bool;
  fc_trust_anchors : list string;
  fc_dnsbl : DnsblSettings;
  fc_dot : option DotConfig;
  fc_doh : option DohConfig;
  fc_doq : option DoqConfig;
  fc_proxy : option (string * option string * string);
  fc_dns64 : bool * string;
  fc_security : SecurityConfig;
  fc_address_family : AddressFamilyConfig;
  fc_dhcp : option string;
  fc_acme : option AcmeSettings;
  fc_metrics : option (string * list string);
}.

(** ** Defaults *)

Definition default_resolution : ResolutionConfig :=
  mkResolution "auto" []
    [mkSecure "https" "1.1.1.1:443" "cloudflare-dns.com" "/dns-query"; mkSecure "https" "8.8.8.8:443" "dns.google" "/dns-query"]
    ["1.1.1.1:53"; "8.8.8.8:53"]%string 3 DelegationCache.DEFAULT_PERSIST_MIN_TTL 300.

Definition default_security : SecurityConfig :=
  mkSecurity true ["10.64.0.0/10"]%string
    ["127.0.0.0/8"; "10.0.0.0/8"; "172.16.0.0/12"; "192.168.0.0/16"; "169.254.0.0/16"; "100.64.0.0/10"; "::1/128"; "fe80::/10"; "fc00::/7"]%string.

Definition default_address_family : AddressFamilyConfig :=
  mkAfConfig "auto" 2 ["1.1.1.1:443"; "8.8.8.8:443"]%string ["[2606:4700:4700::1111]:443"; "[2001:4860:4860::8888]:443"]%string.

Definition default_config : FileConfig :=
  mkFileConfig [BindUdp "0.0.0.0:53"; BindTcp "0.0.0.0:53"] 53 (mkGrpc "127.0.0.1:50051" "/var/run/rolodex-dns.sock" "")
    ["8.8.8.8:53"; "8.8.4.4:53"]%string default_resolution true [] (mkDnsblSettings false [] DEFAULT_REFUSAL_COOLDOWN_SECS)
    None None None None (false, "64:ff9b::"%string) default_security default_address_family None None None.

(** * Parts *)

Definition to_provider (p : DnsblProviderConfig) : result DnsblProvider string :=
  codes <-? resolve_refusal_codes (dp_refusal_codes p);
  Ok (mkProvider (dp_zone p) (dp_enabled p) codes (s ← dp_cooldown_secs p; if 0 <? s then Some (from_secs s) else None)).

Fixpoint to_providers (ps : list DnsblProviderConfig) : result (list DnsblProvider) string :=
  match ps with
  | [] => Ok []
  | p :: ps' => x <-? to_provider p; xs <-? to_providers ps'; Ok (x :: xs)
  end.

(** Ranges that do not parse are skipped. *)
Definition parse_cidrs (texts : list string) : list IpCidr := omap (fun t => match cidr_parse t with Ok c => Some c | Err _ => None end) texts.

(** A mode that is not known is the automatic one. *)
Definition boot_mode (mode : string) : ResolutionMode :=
  let m := to_lowercase mode in
  if (m =? "forward")%string then Forward else if (m =? "recursive")%string then Recursive else Auto.

Definition issuance_any_of (scope : string) : bool := (to_lowercase scope =? "any")%string.

(** * The server's parts as they are built *)

Section Boot.
Context {L : DnsLib} {Out : Outside L} `{CR : !DnssecCrypto Name (WireRecord Name Svcb)} `{TL : !TlsLib, RC : !Rcgen, OZ : !DelegationTable.OrderByZone}.
(** The names the TLS library takes for a server, and the anchors hickory has. *)
Context (server_name_ok : string -> bool) (iana_defaults : Anchors).

(** Entries that do not parse are skipped; each of the others has a breaker of its
    own. *)
Fixpoint parse_each {A} (parse : nat -> A -> option Forwarder) (fresh : nat) (l : list A) : list Forwarder * nat :=
  match l with
  | [] => ([], fresh)
  | x :: l' =>
      match parse fresh x with
      | Some f => let (fs, n) := parse_each parse (S fresh) l' in (f :: fs, n)
      | None => parse_each parse fresh l'
      end
  end.

Definition parse_plain (fresh : nat) (spec : string) : option Forwarder :=
  match parse_forwarder server_name_ok fresh spec with Ok f => Some f | Err _ => None end.

Definition from_secure_config (fresh : nat) (c : SecureUpstreamConfig) : option Forwarder :=
  t ← from_scheme (su_transport c);
  if negb (is_encrypted t) then None
  else parse_plain fresh
         (scheme t +:+ "://" +:+ su_hostname c +:+ "@" +:+ su_addr c +:+ (if bool_decide (t = Forwarder.Doh) then su_path c else "")).

(** The server with what its setters reach: the resolver is replaced as a whole. *)
Record Core := mkCore {
  k_server : Server.Config;
  k_up : Upstreams;
  k_resolver : Resolver.Config;
  k_random : bool;
  k_proxy : option ProxyConfig;
}.

Definition resolver_with (hints : list IpAddr) (ttl : Z) (anchors : option Anchors) : Resolver.Config :=
  Resolver.mkConfig (with_hints hints) ttl DEFAULT_FAILURE_BACKOFF DEFAULT_BLAME_BACKOFF MAX_BLAME_BACKOFF anchors.

(** [new_with_options], with no forwarders yet. *)
Definition new_with_options (cache : option DnsCache.t) (dns64_prefix : option Z) (qname_randomization : bool) : Core :=
  let learned := mkLearned cache (DelegationCache.in_memory 300) (RecordCache.new 300) KeyCache.new in
  mkCore
    (Server.mkConfig default_overlay_cidrs default_recursion_cidrs (bool_decide (is_Some dns64_prefix))
       (default (Z.shiftl 100 112 + Z.shiftl 65435 96) dns64_prefix) true true)
    (mkUpstreams (mkChain Forward TIER_ROOTS 0 3 learned) [] [] [] [] (by_preference []) 300)
    (resolver_with [] 300 None) qname_randomization None.

Definition set_k_up (f : Upstreams -> Upstreams) (k : Core) : Core := mkCore (k_server k) (f (k_up k)) (k_resolver k) (k_random k) (k_proxy k).
Definition set_k_server (f : Server.Config -> Server.Config) (k : Core) : Core :=
  mkCore (f (k_server k)) (k_up k) (k_resolver k) (k_random k) (k_proxy k).
Definition set_k_resolver (r : Resolver.Config) (k : Core) : Core := mkCore (k_server k) (k_up k) r (k_random k) (k_proxy k).

Definition set_mode (m : ResolutionMode) (u : Upstreams) : Upstreams :=
  let c := u_chain u in set_chain (mkChain m (active_tier c) (deviation_streak c) (switch_grace_failures c) (learned c)) u.

Definition set_auto_params (grace : Z) (u : Upstreams) : Upstreams :=
  let c := u_chain u in set_chain (mkChain (resolution_mode c) (active_tier c) (deviation_streak c) grace (learned c)) u.

Definition set_overlay_cidrs (l : list IpCidr) (c : Server.Config) : Server.Config :=
  Server.mkConfig l (recursion_cidrs c) (dns64_enabled c) (dns64_prefix c) (answers_v4 c) (answers_v6 c).
Definition set_recursion_cidrs (l : list IpCidr) (c : Server.Config) : Server.Config :=
  Server.mkConfig (overlay_cidrs c) l (dns64_enabled c) (dns64_prefix c) (answers_v4 c) (answers_v6 c).
Definition set_answer_families (f : bool * bool) (c : Server.Config) : Server.Config :=
  Server.mkConfig (overlay_cidrs c) (recursion_cidrs c) (dns64_enabled c) (dns64_prefix c) f.1 f.2.

(** A resolver over other delegations: what it learned and its anchors are gone, its
    hints stay. *)
Definition set_delegation_cache (d : DelegationCache.t) (ttl : Z) (k : Core) : Core :=
  let u := k_up k in
  let c := u_chain u in
  let learned := mkLearned (dns_cache (learned c)) d (RecordCache.new ttl) KeyCache.new in
  mkCore (k_server k)
    (mkUpstreams (set_learned learned c) (u_health u) (u_secure_upstreams u) (u_forwarders u) (u_public_fallback u) (u_forwarder_tiers u) ttl)
    (resolver_with (root_hints (k_resolver k)) ttl None) (k_random k) (k_proxy k).

(** What was learned and the anchors stay. *)
Definition set_root_hints (hints : list IpAddr) (k : Core) : Core :=
  let r := k_resolver k in
  set_k_resolver (Resolver.mkConfig (with_hints hints) (c_default_ttl r) (c_backoff_base r) (c_blame_base r) (c_blame_cap r) (c_anchors r)) k.

Definition set_dnssec_anchors (anchors : option Anchors) (k : Core) : Core :=
  let r := k_resolver k in
  set_k_resolver (Resolver.mkConfig (with_hints (root_hints r)) (c_default_ttl r) (c_backoff_base r) (c_blame_base r) (c_blame_cap r) anchors) k.

(** The anchors of the file replace the built-in ones; one that cannot be used stops
    the start. *)
Definition anchors_of (validate : bool) (entries : list string) : result (option Anchors) string :=
  if negb validate then Ok None
  else match entries with
       | [] => Ok (Some iana_defaults)
       | _ => a <-? from_dnskey_strings entries; Ok (Some a)
       end.

(** The rows a previous run left, and the handle of the database. *)
Record Disk := mkDisk {
  d_acme : AcmeDb;
  d_cache_rows : list CacheTable.row;
  d_delegation_rows : list DelegationTable.row;
}.

(** [main] up to the listeners: the server, the blocklist checker with the resolver it
    has of its own. *)
Definition configure (now wall : Z) (connect : Connects) (disk : Disk) (c : FileConfig) : result (Core * DnsblChecker * (list IpAddr * list SocketAddr)) string :=
  let rs := fc_resolution c in
  let (forwarders, n1) := parse_each parse_plain 0 (fc_forwarders c) in
  let plaintext := addr <$> List.filter (fun f => negb (is_encrypted (transport f))) forwarders in
  let hints := omap parse_ip (rs_root_hints rs) in
  let dnsbl := set_refusal_cooldown (db_cooldown_secs (fc_dnsbl c)) new_checker in
  providers <-? to_providers (db_providers (fc_dnsbl c));
  let dnsbl := Dnsbl.set_config (db_enabled (fc_dnsbl c)) providers dnsbl in
  let dns64_prefix := if (fc_dns64 c).1 then parse_v6 (fc_dns64 c).2 else None in
  let k := new_with_options (Some (DnsCache.new now wall (d_cache_rows disk))) dns64_prefix (sec_qname_case (fc_security c)) in
  let (secure, n2) := parse_each from_secure_config n1 (rs_secure_upstreams rs) in
  let (public, n3) := parse_each parse_plain n2 (rs_public_fallback rs) in
  let k := set_k_up (set_u_health (replicate n3 new_health)) k in
  let k := set_k_up (set_typed_forwarders forwarders) k in
  let k := set_k_up (set_mode (boot_mode (rs_mode rs))) k in
  let k := set_k_server (set_overlay_cidrs (parse_cidrs (sec_overlay_cidrs (fc_security c)))) k in
  let k := set_k_server (set_recursion_cidrs (parse_cidrs (sec_recursion_cidrs (fc_security c)))) k in
  let k := set_k_up (set_secure_upstreams secure) k in
  let k := set_k_up (set_typed_public_fallback public) k in
  let k := set_k_up (set_auto_params (rs_switch_grace_failures rs)) k in
  let k := set_k_server (set_answer_families (Probe.start (fc_address_family c) [connect] (true, true))) k in
  let delegations := DelegationCache.with_db now wall (d_delegation_rows disk) (rs_delegation_persist_min_ttl rs) (rs_default_ttl rs) in
  let k := set_delegation_cache delegations (rs_default_ttl rs) k in
  let k := match hints with [] => k | _ => set_root_hints hints k end in
  anchors <-? anchors_of (fc_validate c) (fc_trust_anchors c);
  let k := set_dnssec_anchors anchors k in
  let k := match fc_proxy c with
           | Some (url, auth, mode) =>
               if (url =? "")%string then k
               else mkCore (k_server k) (k_up k) (k_resolver k) (k_random k) (Some (mkProxy url auth (parse_mode mode)))
           | None => k
           end in
  Ok (k, dnsbl, (hints, plaintext)).

(** * The listeners *)

Fixpoint resolve_all (net : HostNet) (specs : list string) : result (list string) string :=
  match specs with
  | [] => Ok []
  | spec :: specs' => a <-? resolve_bind_addrs net spec; rest <-? resolve_all net specs'; Ok (a ++ rest)
  end.

(** A service of the control plane: the socket it listens on, none for the local one,
    and what it asks of a caller. *)
Abbreviation ControlService := (option SocketAddr * AuthConfig)%type.

Fixpoint grpc_services (secret : string) (binds : list string) : result (list ControlService) string :=
  match binds with
  | [] => Ok []
  | b :: binds' =>
      match parse_socket_addr b with
      | None => Err "invalid gRPC TCP bind address"%string
      | Some a => rest <-? grpc_services secret binds'; Ok ((Some a, mkAuth secret false) :: rest)
      end
  end.

Definition grpc_tcp (net : HostNet) (g : GrpcConfig) : result (list ControlService) string :=
  if (g_tcp_bind g =? "")%string then Ok []
  else
    binds <-? resolve_bind_addrs net (g_tcp_bind g);
    _ <-? check_grpc_exposure binds (g_shared_secret g);
    grpc_services (g_shared_secret g) binds.

(** The ACME issuer: the authority's root, the endpoints it publishes at, and the
    listeners if they have a certificate. *)
Record AcmeNode := mkAcmeNode {
  an_config : AcmeConfig;
  an_manager : TlsManager;
  an_binds : list string;
  an_portal_binds : list string;
}.

Definition or_none {A} (r : result (list A) string) : list A := match r with Ok l => l | Err _ => [] end.

Definition start_acme (w : World) (now : Z) (c : FileConfig) (a : AcmeSettings) : fallible AcmeDb string (option AcmeNode) :=
  _ <-e ensure_root_ca now (am_root_ca_cn a);
  let sans := or_none (resolve_bind_addrs (w_net w) (am_bind a)) ++ or_none (resolve_bind_addrs (w_net w) (am_portal_bind a)) in
  match partition_tlsa_endpoints (Some (am_tlsa a)) (fc_dot c) (fc_doh c) (fc_doq c) with
  | Err e => fail e
  | Ok (endpoints, _) =>
      match new_manager w (for_listener (am_tls a) sans) ["h2"; "http/1.1"]%string with
      | Err _ => succeed None
      | Ok m =>
          succeed (Some (mkAcmeNode
            (mkAcmeConfig (am_directory_url a) (am_require_eab a) (issuance_any_of (am_issuance_scope a)) (am_leaf_validity_days a) endpoints)
            m (or_none (resolve_bind_addrs (w_net w) (am_bind a))) (or_none (resolve_bind_addrs (w_net w) (am_portal_bind a)))))
      end
  end.

(** ** The local socket *)

(** A file of a directory: its mode, and whether it is the socket of this process. *)
Record File := mkFile { f_mine : bool; f_mode : Z }.

Inductive FsOp := RemoveFile (path : string) | BindSocket (path : string) | SetMode (path : string) (mode : Z) | Rename (from to : string).

(** [umasked] is the mode of a socket that is bound, [removable] what may be removed. *)
Definition fs_run (umasked : Z) (removable : string -> bool) (op : FsOp) (fs : gmap string File) : option (gmap string File) :=
  match op with
  | RemoveFile p => Some (if removable p then delete p fs else fs)
  | BindSocket p => match fs !! p with Some _ => None | None => Some (<[p := mkFile true umasked]> fs) end
  | SetMode p mode => match fs !! p with Some f => Some (<[p := mkFile (f_mine f) mode]> fs) | None => None end
  | Rename a b => match fs !! a with Some f => Some (<[b := f]> (delete a fs)) | None => None end
  end.

(** A failed removal is only logged. *)
Definition socket_ops (path staging : string) : list FsOp :=
  [RemoveFile path; RemoveFile staging; BindSocket staging; SetMode staging 432; Rename staging path].

(** The directory after each operation, until one fails. *)
Fixpoint fs_trace (umasked : Z) (removable : string -> bool) (ops : list FsOp) (fs : gmap string File) : list (gmap string File) * bool :=
  match ops with
  | [] => ([], true)
  | op :: ops' =>
      match fs_run umasked removable op fs with
      | None => ([], false)
      | Some fs' => let (rest, done) := fs_trace umasked removable ops' fs' in (fs' :: rest, done)
      end
  end.

(** * The whole start *)

Record Node := mkNode {
  n_db : AcmeDb;
  n_core : Core;
  n_dnsbl : DnsblChecker;
  n_dnsbl_resolver : list IpAddr * list SocketAddr;
  n_udp : list string;
  n_tcp : list string;
  n_ingress : Ingress;
  n_transports : Supervisor;
  n_acme : option AcmeNode;
  n_tracked : gset string;
  n_metrics : list string;
  n_grpc : list ControlService;
  n_dhcp : list string;
}.

(** [umasked] and [removable] are of the file system; [stored] are the TLDs the
    operator stored. *)
Definition boot (w : World) (umasked : Z) (removable : string -> bool) (staging : string) (now wall : Z) (connect : Connects)
    (stored : list string) (fs : gmap string File) (disk : Disk) (c : FileConfig) : result Node string :=
  let d := mkAcmeDb (load_caches_at_boot (a_db (d_acme disk))) (a_tables (d_acme disk)) (a_draws (d_acme disk)) in
  core <-? configure now wall connect disk c;
  udp <-? resolve_all (w_net w) (udp_addrs (fc_bind c));
  tcp <-? resolve_all (w_net w) (tcp_addrs (fc_bind c));
  let ingress := sync_ingress_listeners (list_all_tld_ingress_ips (scopes (a_db d))) (set_ingress_port (fc_ingress_port c) no_ingress) in
  let transports := start_transports w (fc_dot c) (fc_doh c) (fc_doq c) new_supervisor in
  acme <-? match fc_acme c with
           | None => Ok (None, d)
           | Some a => match start_acme w now c a d with (Ok n, d) => Ok (n, d) | (Err e, _) => Err e end
           end;
  metrics <-? match fc_metrics c with
              | None => Ok (∅, [])
              | Some (bind, tlds) =>
                  binds <-? resolve_bind_addrs (w_net w) bind;
                  Ok (refresh_tracked_tlds tlds stored (a_db acme.2) ∅, binds)
              end;
  services <-? grpc_tcp (w_net w) (fc_grpc c);
  local <-? (if (g_unix_socket (fc_grpc c) =? "")%string then Ok []
             else if (fs_trace umasked removable (socket_ops (g_unix_socket (fc_grpc c)) staging) fs).2
                  then Ok [(None, mkAuth (g_shared_secret (fc_grpc c)) true)] else Err "failed to bind Unix socket"%string);
  dhcp <-? match fc_dhcp c with None => Ok [] | Some bind => resolve_bind_addrs (w_net w) bind end;
  Ok (mkNode acme.2 core.1.1 core.1.2 core.2 udp tcp ingress transports acme.1 metrics.1 metrics.2 (services ++ local) dhcp).

(** * Lemmas *)

Lemma parse_cidrs_exact texts ip :
  existsb (fun c => contains c ip) (parse_cidrs texts) = true <->
  exists t c, t ∈ texts /\ cidr_parse t = Ok c /\ contains c ip = true.
Proof.
  rewrite existsb_exists. split.
  - intros (c & Hin & Hc). apply list_elem_of_In, list_elem_of_omap in Hin as (t & Ht & E). exists t, c.
    destruct (cidr_parse t) eqn:Ep; simplify_eq. done.
  - intros (t & c & Ht & Hp & Hc). exists c. split; [|done]. apply list_elem_of_In, list_elem_of_omap. exists t. by rewrite Hp.
Qed.

Lemma carry_health_nil l : carry_health [] l = l.
Proof. unfold carry_health. induction l as [|x l IH]; [done|]. cbn. by rewrite <- IH at 2. Qed.

Lemma check_grpc_exposure_ok binds secret : check_grpc_exposure binds secret = Ok tt -> secret = ""%string ->
  Forall (fun b => forall a, parse_socket_addr b = Some a -> is_loopback (so_ip a) = true) binds.
Proof.
  intros H ->. induction binds as [|b binds IH]; [by constructor|]. cbn in H. destruct (parse_socket_addr b) as [a|] eqn:E; [|done].
  destruct (is_loopback (so_ip a)) eqn:El; [|done]. constructor; [|by apply IH]. intros a' Ha. congruence.
Qed.

Lemma grpc_services_ok secret binds l : grpc_services secret binds = Ok l ->
  Forall (fun s => exists b a, b ∈ binds /\ parse_socket_addr b = Some a /\ s = (Some a, mkAuth secret false)) l.
Proof.
  revert l. induction binds as [|b binds IH]; intros l H; cbn in H; [by simplify_eq|].
  destruct (parse_socket_addr b) as [a|] eqn:E; [|done]. apply result_bind_ok in H as (rest & Hr & [= <-]). constructor.
  - exists b, a. split; [set_solver|done].
  - eapply Forall_impl; [by apply IH|]. intros s (b' & a' & Hb & ?). exists b', a'. split; [set_solver|done].
Qed.

(** A control service over TCP asks for a secret or is on a loopback address. *)
Lemma grpc_tcp_guarded net g l : grpc_tcp net g = Ok l ->
  Forall (fun s => exists a, s = (Some a, mkAuth (g_shared_secret g) false) /\
                             (g_shared_secret g = ""%string -> is_loopback (so_ip a) = true)) l.
Proof.
  unfold grpc_tcp. destruct (_ =? "")%string; [by intros [= <-]|]. intros (binds & _ & ([] & Hx & H)%result_bind_ok)%result_bind_ok.
  apply grpc_services_ok in H. eapply Forall_impl; [exact H|]. intros s (b & a & Hb & Ha & ->). exists a. split; [done|]. intros He.
  pose proof (check_grpc_exposure_ok _ _ Hx He) as F. rewrite Forall_forall in F. by apply (F b).
Qed.

(** What a start that succeeded went through. *)
Lemma boot_ok w umasked removable staging now wall connect stored fs disk c n :
  boot w umasked removable staging now wall connect stored fs disk c = Ok n ->
  exists services,
    configure now wall connect disk c = Ok (n_core n, n_dnsbl n, n_dnsbl_resolver n) /\
    resolve_all (w_net w) (udp_addrs (fc_bind c)) = Ok (n_udp n) /\ resolve_all (w_net w) (tcp_addrs (fc_bind c)) = Ok (n_tcp n) /\
    grpc_tcp (w_net w) (fc_grpc c) = Ok services /\
    n_grpc n = services ++ (if (g_unix_socket (fc_grpc c) =? "")%string then [] else [(None, mkAuth (g_shared_secret (fc_grpc c)) true)]) /\
    n_transports n = start_transports w (fc_dot c) (fc_doh c) (fc_doq c) new_supervisor.
Proof.
  unfold boot. intros ([[k d] r] & Hc & H)%result_bind_ok. apply result_bind_ok in H as (udp & Hu & H). apply result_bind_ok in H as (tcp & Ht & H).
  apply result_bind_ok in H as ([a d'] & _ & H). apply result_bind_ok in H as ([m mb] & _ & H). apply result_bind_ok in H as (services & Hs & H).
  apply result_bind_ok in H as (local & Hl & H). apply result_bind_ok in H as (dhcp & _ & [= <-]). exists services. cbn.
  split_and!; try done. f_equal. destruct (_ =? "")%string; [congruence|]. destruct (fs_trace _ _ _ _).2; congruence.
Qed.

(** What each setting has become once all of them are applied, in their order. *)
Lemma configure_ok now wall connect disk c k d r : configure now wall connect disk c = Ok (k, d, r) ->
  exists anchors providers fs1 n1 fs2 n2 fs3 n3,
    anchors_of (fc_validate c) (fc_trust_anchors c) = Ok anchors /\ to_providers (db_providers (fc_dnsbl c)) = Ok providers /\
    parse_each parse_plain 0 (fc_forwarders c) = (fs1, n1) /\
    parse_each from_secure_config n1 (rs_secure_upstreams (fc_resolution c)) = (fs2, n2) /\
    parse_each parse_plain n2 (rs_public_fallback (fc_resolution c)) = (fs3, n3) /\
    overlay_cidrs (k_server k) = parse_cidrs (sec_overlay_cidrs (fc_security c)) /\
    recursion_cidrs (k_server k) = parse_cidrs (sec_recursion_cidrs (fc_security c)) /\
    k_resolver k = resolver_with (omap parse_ip (rs_root_hints (fc_resolution c))) (rs_default_ttl (fc_resolution c)) anchors /\
    resolution_mode (u_chain (k_up k)) = boot_mode (rs_mode (fc_resolution c)) /\
    u_forwarders (k_up k) = fs1 /\ u_secure_upstreams (k_up k) = fs2 /\ u_public_fallback (k_up k) = fs3 /\
    u_forwarder_tiers (k_up k) = by_preference (fs2 ++ fs1 ++ fs3) /\
    learned (u_chain (k_up k)) =
      mkLearned (Some (DnsCache.new now wall (d_cache_rows disk)))
        (DelegationCache.with_db now wall (d_delegation_rows disk) (rs_delegation_persist_min_ttl (fc_resolution c)) (rs_default_ttl (fc_resolution c)))
        (RecordCache.new (rs_default_ttl (fc_resolution c))) KeyCache.new /\
    Dnsbl.get_config d = (db_enabled (fc_dnsbl c), providers).
Proof.
  unfold configure. destruct (parse_each parse_plain 0 _) as [fs1 n1] eqn:E1. intros (providers & Hp & H)%result_bind_ok.
  destruct (parse_each from_secure_config n1 _) as [fs2 n2] eqn:E2. destruct (parse_each parse_plain n2 _) as [fs3 n3] eqn:E3.
  apply result_bind_ok in H as (anchors & Ha & [= <- <- <-]). exists anchors, providers, fs1, n1, fs2, n2, fs3, n3.
  split_and!; try done.
  all: destruct (fc_proxy c) as [[[url au] mode]|]; [destruct (url =? "")%string|]; destruct (omap parse_ip _) as [|h hs]; try done.
  all: cbn -[carry_health parse_cidrs by_preference with_hints DnsCache.new DelegationCache.with_db]; rewrite ?carry_health_nil; try done.
Qed.

(** * Properties *)

(** C18: the control plane is never open to the network. Whatever the settings, of a
    server that has started: under a secret, every TCP service, also one on a loopback
    address, turns away every call that does not carry it, from wherever and however
    often it is tried; without a secret, every TCP service is on a loopback address,
    where it takes any call (so the default, [127.0.0.1:50051] with no secret, is open
    to the machine and to nobody else); and there is a service on a local socket only
    if a path for it is configured. *)
Theorem control_plane_never_open w umasked removable staging now wall connect stored fs disk c n socket auth :
  boot w umasked removable staging now wall connect stored fs disk c = Ok n -> (socket, auth) ∈ n_grpc n ->
  match socket with
  | Some a =>
      if (g_shared_secret (fc_grpc c) =? "")%string
      then is_loopback (so_ip a) = true /\ forall now peer token t, (check_auth auth now peer token t).1 = Ok tt
      else forall now peer token t, token <> g_shared_secret (fc_grpc c) -> exists e, (check_auth auth now peer token t).1 = Err e
  | None => g_unix_socket (fc_grpc c) <> ""%string
  end.
Proof.
  intros (services & _ & _ & _ & Hs & -> & _)%boot_ok Hin. apply elem_of_app in Hin as [Hin|Hin].
  - apply grpc_tcp_guarded in Hs. rewrite Forall_forall in Hs. apply Hs in Hin as (a & [= -> ->] & Hl).
    destruct (String.eqb_spec (g_shared_secret (fc_grpc c)) "") as [E|E].
    + split; [by apply Hl|]. intros now' peer token t. unfold check_auth. cbn. by rewrite E.
    + intros now' peer token t Ht.
      unfold check_auth. cbn. apply String.eqb_neq in E. rewrite E. destruct (throttled_for now' peer t) as [[x|] t']; [by eexists|].
      apply String.eqb_neq in Ht. rewrite Ht. by eexists.
  - destruct (String.eqb_spec (g_unix_socket (fc_grpc c)) ""); [set_solver|]. apply list_elem_of_singleton in Hin as [= -> ->]. done.
Qed.

(** C35: the settings of the file that decide whom the server trusts are what it runs
    with, none undone by a setting applied after it: the sources it recurses for and
    the overlay peers are those of the ranges that parse and of no others; it
    validates exactly if it was told to, against the anchors of the file alone if it
    has any, all of them usable, and the built-in ones otherwise; and its resolver
    starts from the hints of the file and the delegations of the run before. *)
Theorem settings_take_effect w umasked removable staging now wall connect stored fs disk c n :
  boot w umasked removable staging now wall connect stored fs disk c = Ok n ->
  let k := n_core n in
  (forall ip, may_recurse (k_server k) ip = true <->
     exists t r, t ∈ sec_recursion_cidrs (fc_security c) /\ cidr_parse t = Ok r /\ contains r ip = true) /\
  (forall ip, is_overlay_peer (k_server k) ip = true <->
     exists t r, t ∈ sec_overlay_cidrs (fc_security c) /\ cidr_parse t = Ok r /\ contains r ip = true) /\
  match c_anchors (k_resolver k) with
  | None => fc_validate c = false
  | Some a => fc_validate c = true /\
      if bool_decide (fc_trust_anchors c = []) then a = iana_defaults
      else from_dnskey_strings (fc_trust_anchors c) = Ok a /\ a <> [] /\ Forall anchor_usable a
  end /\
  root_hints (k_resolver k) = with_hints (omap parse_ip (rs_root_hints (fc_resolution c))) /\
  delegations (learned (u_chain (k_up k))) =
    DelegationCache.with_db now wall (d_delegation_rows disk) (rs_delegation_persist_min_ttl (fc_resolution c)) (rs_default_ttl (fc_resolution c)).
Proof.
  intros (services & Hc & _)%boot_ok. cbn zeta.
  apply configure_ok in Hc as (anchors & ps & fs1 & n1 & fs2 & n2 & fs3 & n3 & Ha & _ & _ & _ & _ & Ho & Hr & Hres & _ & _ & _ & _ & _ & Hl & _).
  split_and!.
  - intros ip. unfold may_recurse. rewrite Hr. apply parse_cidrs_exact.
  - intros ip. unfold is_overlay_peer. rewrite Ho. apply parse_cidrs_exact.
  - rewrite Hres. cbn. unfold anchors_of in Ha. destruct (fc_validate c); cbn in Ha; [|by simplify_eq].
    destruct (fc_trust_anchors c) as [|e es] eqn:Et; [by simplify_eq|]. apply result_bind_ok in Ha as (a & Ha & [= <-]).
    split; [done|]. rewrite bool_decide_false by done. split; [done|]. by apply (accepted_usable (e :: es)).
  - by rewrite Hres.
  - by rewrite Hl.
Qed.

(** A range of overlay peers that does not parse makes its peers trusted: skipped, it
    covers nobody, and an address that no other range covers, joined to no network,
    is taken for a local client, which sees every network. *)
Theorem mistyped_overlay_trusts_peers w umasked removable staging now wall connect stored fs disk c n ip lip s at_ :
  boot w umasked removable staging now wall connect stored fs disk c = Ok n ->
  (forall t r, t ∈ sec_overlay_cidrs (fc_security c) -> cidr_parse t = Ok r -> contains r ip = false) ->
  lip ≫= scope_for_ingress_ip (scopes (s_db s)) = None ->
  (get_scope_for_ip at_ (ip_to_string ip) (scopes (s_db s))).1 = None ->
  (scope_of (k_server (n_core n)) at_ (Some ip) lip s).1 = Unscoped.
Proof.
  intros (services & Hc & _)%boot_ok Hno Hl Hj.
  apply configure_ok in Hc as (anchors & ps & fs1 & n1 & fs2 & n2 & fs3 & n3 & _ & _ & _ & _ & _ & Ho & _).
  assert (is_overlay_peer (k_server (n_core n)) ip = false) as Hp.
  { apply not_true_iff_false. unfold is_overlay_peer. rewrite Ho, parse_cidrs_exact. intros (t & r & Ht & Hr & Hcn).
    by rewrite (Hno t r Ht Hr) in Hcn. }
  unfold scope_of, Server.bind, with_scopes. cbn. rewrite Hl. cbn. destruct (get_scope_for_ip _ _ _) as [j x]. cbn in Hj. subst j. cbn.
  by rewrite Hp, andb_false_r.
Qed.

(** The local socket is published restricted. At every moment of the start the path
    under which the socket is published has no socket of this process or one only its
    owner and group can connect to, and after a start without an error it has one;
    the name it is bound under first is the only one that ever has the mode of the
    process. *)
Theorem local_socket_never_permissive umasked removable path staging fs : path <> staging ->
  (forall f, fs !! path = Some f -> f_mine f = false) -> (forall f, fs !! staging = Some f -> f_mine f = false) ->
  let (trace, done) := fs_trace umasked removable (socket_ops path staging) fs in
  Forall (fun fs' : gmap string File => forall f, fs' !! path = Some f -> f_mine f = true -> f_mode f = 432) trace /\
  (done = true -> last trace ≫= (fun fs' => fs' !! path) = Some (mkFile true 432)).
Proof.
  intros Hne Hp Hs.
  assert (forall m : gmap string File, (forall f, m !! path = Some f -> f_mine f = false) ->
          forall f, m !! path = Some f -> f_mine f = true -> f_mode f = 432) as Hold.
  { intros m Hm f Hf Hmine. rewrite (Hm f Hf) in Hmine. done. }
  set (fs1 := if removable path then delete path fs else fs). set (fs2 := if removable staging then delete staging fs1 else fs1).
  assert (forall f, fs1 !! path = Some f -> f_mine f = false) as H1.
  { unfold fs1. destruct (removable path); [by rewrite lookup_delete_eq|done]. }
  assert (forall f, fs2 !! path = Some f -> f_mine f = false) as H2.
  { unfold fs2. destruct (removable staging); [rewrite lookup_delete_ne by done; exact H1|exact H1]. }
  cbn. fold fs1. fold fs2. destruct (fs2 !! staging) eqn:E; cbn.
  { split; [|done]. repeat constructor; by apply Hold. }
  rewrite lookup_insert_eq. cbn. rewrite lookup_insert_eq. cbn.
  split; [|intros _; cbn; by rewrite lookup_insert_eq]. repeat constructor; try (by apply Hold).
  - apply Hold. rewrite lookup_insert_ne by done. exact H2.
  - apply Hold. rewrite !lookup_insert_ne by done. exact H2.
  - rewrite lookup_insert_eq. by intros f [= <-].
Qed.

Lemma fs_trace_done umasked removable path staging fs : fs !! staging = None \/ removable staging = true -> path <> staging ->
  (fs_trace umasked removable (socket_ops path staging) fs).2 = true.
Proof.
  intros H Hne. cbn. set (fs1 := if removable path then delete path fs else fs).
  assert ((if removable staging then delete staging fs1 else fs1) !! staging = None) as E.
  { destruct (removable staging); [by rewrite lookup_delete_eq|]. destruct H as [H|]; [|done]. unfold fs1.
    destruct (removable path); [rewrite lookup_delete_ne|]; done. }
  rewrite E. cbn. by rewrite lookup_insert_eq; cbn; rewrite lookup_insert_eq.
Qed.

(** A first start is a closed one. Without a file the server starts, answers on port
    53 over both protocols, recurses for the private ranges only, enforces networks
    on the overlay range, validates against the built-in anchors, and takes calls on
    the loopback address and the local socket; no other transport, authority or
    blocklist provider is in use. *)
Theorem default_start_is_closed w umasked removable staging now wall connect stored fs disk :
  fs !! staging = None \/ removable staging = true -> staging <> "/var/run/rolodex-dns.sock"%string ->
  exists n, boot w umasked removable staging now wall connect stored fs disk default_config = Ok n /\
    n_udp n = ["0.0.0.0:53"%string] /\ n_tcp n = ["0.0.0.0:53"%string] /\
    recursion_cidrs (k_server (n_core n)) = default_recursion_cidrs /\ overlay_cidrs (k_server (n_core n)) = default_overlay_cidrs /\
    c_anchors (k_resolver (n_core n)) = Some iana_defaults /\ resolution_mode (u_chain (k_up (n_core n))) = Auto /\
    n_grpc n = [(Some (mkSocket (V4 2130706433) 50051), mkAuth "" false); (None, mkAuth "" true)] /\
    n_transports n = new_supervisor /\ n_acme n = None /\ Dnsbl.get_config (n_dnsbl n) = (false, []).
Proof.
  intros Hf Hs. assert (exists n, boot w umasked removable staging now wall connect stored fs disk default_config = Ok n /\ n_acme n = None) as (n & H & Ha).
  { unfold boot. assert (exists k, configure now wall connect disk default_config = Ok k) as [k ->].
    { unfold configure. do 3 destruct (parse_each _ _ _). eexists. reflexivity. }
    cbn -[fs_trace]. rewrite fs_trace_done by done. eexists. split; reflexivity. }
  exists n. split; [exact H|]. apply boot_ok in H as (services & Hc & Hu & Ht & Hg & -> & ->). vm_compute in Hu, Ht, Hg.
  apply configure_ok in Hc as (anchors & ps & fs1 & n1 & fs2 & n2 & fs3 & n3 & Hn & Hp & _ & _ & _ & -> & -> & -> & -> & _ & _ & _ & _ & _ & ->).
  cbn in Hn, Hp. simplify_eq. split_and!; try done; vm_compute; reflexivity.
Qed.
End Boot.

(** * At concrete settings *)

Definition sample_disk : Disk := mkDisk (mkAcmeDb empty_db empty_tables 0) [] [].

(** A control plane on every address under a secret, and an overlay range with a typing
    error. *)
Definition sample_file : FileConfig :=
  mkFileConfig [BindUdp "eth0:53"; BindTcp "eth0:53"] 53 (mkGrpc "0.0.0.0:50051" "" "hunter2") ["8.8.8.8:53"; "nonsense"]%string
    default_resolution true [] (mkDnsblSettings false [] 0) None None None None (false, "64:ff9b::"%string)
    (mkSecurity true ["10.64.0.0/1O"]%string ["10.0.0.0/8"; "192.168.0.0/33"]%string) default_address_family None None None.

Definition sample_boot (c : FileConfig) : result Node string :=
  @boot served_lib served_outside toy_crypto sample_tls sample_rcgen DelegationCache.zone_order (fun _ => true) [([1], 8)]
    (sample_world [7]) 493 (fun _ => true) "/run/x.tmp" 0 0 (fun _ => true) [] ∅ sample_disk c.

Definition overlay_peer : IpAddr := V4 172228865.

(** A joined state with a network, and a peer that is not in it. *)
Definition one_network : Database :=
  mkDb empty_store (match create_network_scope (mkScope "office" "office.home") empty_scopes with Ok x => x | Err _ => empty_scopes end) empty_lists.

Definition sample_query_state (n : @Node served_lib served_outside sample_tls) : @State served_lib served_outside := mkState one_network (k_up (n_core n)) SrcUpstream [].

Definition starts {A} (r : result A string) : bool := match r with Ok _ => true | Err _ => false end.

Lemma sample_starts : starts (sample_boot sample_file) = true.
Proof. vm_compute. reflexivity. Qed.

Lemma control_plane_never_open_witness :
  match sample_boot sample_file with
  | Ok n => exists a auth, (Some a, auth) ∈ n_grpc n /\ is_loopback (so_ip a) = false /\
                           exists e, (check_auth auth 0 None "guess" ∅).1 = Err e
  | Err _ => False
  end.
Proof.
  destruct (sample_boot sample_file) as [n|e] eqn:E; [|by pose proof sample_starts as H; rewrite E in H].
  assert ((Some (mkSocket (V4 0) 50051), mkAuth "hunter2" false) ∈ n_grpc n) as Hin.
  { assert (match sample_boot sample_file with Ok n => n_grpc n | Err _ => [] end = [(Some (mkSocket (V4 0) 50051), mkAuth "hunter2" false)]) as H
      by (vm_compute; reflexivity).
    rewrite E in H. rewrite H. left. }
  eexists _, _. split; [exact Hin|]. split; [vm_compute; reflexivity|].
  apply (control_plane_never_open (fun _ => true) [([1], 8)] (sample_world [7]) 493 (fun _ => true) "/run/x.tmp" 0 0 (fun _ => true) [] ∅ sample_disk sample_file n _ _ E Hin).
  discriminate.
Defined.

Lemma settings_take_effect_witness :
  match sample_boot sample_file with
  | Ok n => may_recurse (k_server (n_core n)) overlay_peer = true /\ is_overlay_peer (k_server (n_core n)) overlay_peer <> true
  | Err _ => False
  end.
Proof.
  destruct (sample_boot sample_file) as [n|e] eqn:E; [|by pose proof sample_starts as H; rewrite E in H].
  destruct (settings_take_effect (fun _ => true) [([1], 8)] (sample_world [7]) 493 (fun _ => true) "/run/x.tmp" 0 0 (fun _ => true) [] ∅ sample_disk sample_file n E) as (Hr & Ho & _). split.
  - apply Hr. exists "10.0.0.0/8"%string, (Build_IpCidr (V4 167772160) 8). split; [left|]. split; vm_compute; reflexivity.
  - intros H. apply Ho in H as (t & r & Ht & Hp & _). apply list_elem_of_singleton in Ht as ->. vm_compute in Hp. discriminate.
Defined.

Lemma mistyped_overlay_trusts_peers_witness :
  match sample_boot sample_file with
  | Ok n => has_scopes (scopes one_network) = true /\
            (scope_of (k_server (n_core n)) 0 (Some overlay_peer) None (sample_query_state n)).1 = Unscoped
  | Err _ => False
  end.
Proof.
  destruct (sample_boot sample_file) as [n|e] eqn:E; [|by pose proof sample_starts as H; rewrite E in H]. split; [vm_compute; reflexivity|].
  apply (mistyped_overlay_trusts_peers (fun _ => true) [([1], 8)] (sample_world [7]) 493 (fun _ => true) "/run/x.tmp" 0 0 (fun _ => true) [] ∅ sample_disk sample_file n _ _ _ _ E).
  - intros t r Ht Hp. apply list_elem_of_singleton in Ht as ->. vm_compute in Hp. discriminate.
  - reflexivity.
  - vm_compute. reflexivity.
Defined.

Lemma local_socket_never_permissive_witness :
  let (trace, done) := fs_trace 493 (fun _ => true) (socket_ops "/run/dns.sock" "/run/x.tmp") ∅ in
  done = true /\ last trace ≫= (fun fs' : gmap string File => fs' !! "/run/dns.sock"%string) = Some (mkFile true 432).
Proof.
  pose proof (local_socket_never_permissive 493 (fun _ => true) "/run/dns.sock" "/run/x.tmp" ∅) as H.
  pose proof (fs_trace_done 493 (fun _ => true) "/run/dns.sock" "/run/x.tmp" ∅) as Hd.
  destruct (fs_trace _ _ _ _) as [trace done]. cbn in Hd. rewrite Hd by (by auto). split; [reflexivity|]. apply H; [discriminate|done..|apply Hd; by auto].
Defined.

Lemma default_start_is_closed_witness :
  exists n, sample_boot default_config = Ok n /\ n_transports n = new_supervisor.
Proof.
  destruct (@default_start_is_closed served_lib served_outside toy_crypto sample_tls sample_rcgen DelegationCache.zone_order (fun _ => true) [([1], 8)]
    (sample_world [7]) 493 (fun _ => true) "/run/x.tmp" 0 0 (fun _ => true) [] ∅ sample_disk) as (n & H & _ & _ & _ & _ & _ & _ & _ & Ht & _);
    [by left|discriminate|]. by exists n.
Defined.
